(* ===== verification/_CoqProject ===== *)
-Q . S2P
Prelude.v
Irq.v
Ptimer.v
Rtt.v
Pmc.v
Ssi.v
Ssd0323.v
Spi.v
Block.v
Sd.v
SdProps.v
SdSafety.v
SsiSd.v
QemuFile.v
QemuFileProps.v
Async.v
VmState.v
VmStateProps.v
Migrate.v
Handlers.v
Savevm.v
SavevmProps.v
Truncated.v
Xbzrle.v
XbzrleProps.v
Bitmap.v
PageCache.v
Ram.v
RamProps.v
RamLoad.v
RamSent.v
RamLive.v
Timers.v
TimersProps.v
PtimerClock.v
Gic.v
GicProps.v
GicBounds.v
Nvic.v
NvicProps.v
Cpu.v
CpuProps.v
Memory.v
MemoryProps.v
Board.v
Bitband.v
Pl011.v
Pl061.v
Dispatch.v
DispatchTree.v
DispatchProps.v
Listeners.v
ListenersProps.v
MemoryChange.v
ListenersRun.v
DispatchView.v
Access.v
AccessProps.v
RamAlloc.v
BoardBus.v
Migration.v
MigrationProps.v
