(* ===== verification/Prelude.v ===== *)
(** * The AT91SAM3 machine of this QEMU tree

    A Cortex-M3 machine emulated by a fork of QEMU: its devices and interrupt
    controllers, the timers that drive them, the memory map that connects them
    to the guest, the exceptions of the core, and the migration of all of it.
    The definitions translate the C functions of the same name under src/; the
    theorems say what they do, for every input unless a hypothesis is named.

    ** The parts and the files

    Foundations.
    - Prelude: C integers as [Z] with their wrap-around, C structs as records
      with update, C arrays as lists, tactics and shared lemmas.
    - Irq (hw/core/irq.c): interrupt lines.
    - Timers, TimersProps (qemu-timer.c): the queues of the clocks, as linked
      cells, and that they are sorted lists.

    Devices of the board; each file has the state, the registers, the
    operations and the theorems of one device.
    - Ptimer (hw/core/ptimer.c) and PtimerClock: countdown timers, alone and on
      the queue of the virtual clock.
    - Rtt (hw/timer/atmel_rtt.c), Pmc (hw/pmc/pmc_atmel.c): the timer and the
      clock controller of the SAM3.
    - Ssi (hw/ssi/ssi.c), Spi (hw/spi/spi_atmel.c): the serial bus, whose
      slaves are a type class, and the controller on it.
    - Ssd0323 (hw/display/ssd0323.c): the display, a slave of the bus.
    - Block, Sd, SdProps, SdSafety (hw/sd/sd.c): the memory card on a drive
      that is a type class with laws; SsiSd (hw/sd/ssi-sd.c): the card as a
      slave of the bus.
    - Pl011 (hw/char/pl011.c), Pl061 (hw/gpio/pl061.c): UART and GPIO.

    Interrupts and the core.
    - Gic, GicProps, GicBounds (hw/intc/arm_gic.c), Nvic, NvicProps
      (hw/intc/armv7m_nvic.c): the controllers and SysTick.  GicBounds is about
      the indices of the stores to the arrays.
    - Cpu, CpuProps (target-arm/helper.c, cpu-exec.c): the special registers,
      exception entry and return, with the NVIC and a memory that is a class.

    The address space.
    - Memory, MemoryProps (memory.c): regions, the flat view, lookups, split
      accesses.
    - Board (hw/arm/atmel.c, hw/arm/armv7m.c): the map that the initialisation
      of the machine builds; Bitband: the bit-band windows.
    - Listeners, ListenersProps, MemoryChange, ListenersRun (memory.c): changes
      of the map in transactions, and what listeners are told of them.
      ListenersProps is about one difference of views, MemoryChange about one
      change of a region, ListenersRun about all sequences of operations.
    - Dispatch, DispatchTree, DispatchProps (exec.c): the page tables that
      lookups use; DispatchTree is about the radix tree, DispatchProps about
      sections and subpages in it.  DispatchView composes the two: the
      listener's calls build the tables for the view.
    - Access, AccessProps (exec.c): accesses by devices and by the core, through
      translation, to RAM and to the callbacks of Memory; AccessProps gives the
      core of Cpu its memory.  RamAlloc: the blocks of RAM and their allocation.
      BoardBus: the devices above behind the map of the board.

    Migration.
    - QemuFile, QemuFileProps (savevm.c): buffered streams over a backend that
      is a record of operations with the classes [Sink] and [Source] as laws;
      Async: buffers that are read when the stream is flushed.
    - VmState, VmStateProps (savevm.c): the interpreters of the descriptions of
      devices; Migrate and Handlers: the descriptions and handlers of the
      devices above.
    - Savevm, SavevmProps, Truncated (savevm.c): the machine as sections, saved,
      loaded, and cut off.
    - Xbzrle, XbzrleProps (xbzrle.c): differences of pages.
    - Bitmap (util/bitops.c, util/bitmap.c), PageCache (page_cache.c), Ram
      (arch_init.c): memory sent while the guest runs; RamProps is about the
      sender, RamLoad about the receiver, RamSent about the stream between
      them and RamLive about both together.
    - Migration, MigrationProps (migration.c, vl.c, cpus.c): the thread that
      calls the above, against the monitor that starts and cancels it, as
      labelled steps in any interleaving.

    ** What the theorems show

    - Round trips: a device by its description, a machine of such devices by
      its sections, a page by its difference, a block of the card, a stream.
      The descriptions are plain ones: no hooks, subsections, conditional
      fields or lengths read from memory; the machine has no live entries.
    - Refinement: timer queues are sorted lists, the FIFOs of the SPI
      controller and of the UART are queues, the flat view answers as the tree
      of regions does, the page tables answer as the flat view does, guest RAM
      is an array of bytes, an exception is transparent to the code it
      interrupts, and memory arrives as it was at the end although the guest
      wrote to it.
    - Equivalence of optimised code with a reference: the word-wise encoder and
      the word-wise bit search with their byte-wise and bit-wise definitions.
    - Invariants over every sequence of operations: sizes and widths of arrays,
      deadlines of timers, the index of the card, the stack of active
      interrupts, the identity of registered devices, the copies of the memory
      map that listeners keep, the state of the guest around a migration.
    - Safety: writes stay in their buffers, for arbitrary guest or stream
      input (to the interrupt controller, for software interrupt numbers that it
      has); a stream of such a machine that ends early is rejected.
    - Termination: runs of a clock, the search for interrupts, the encoder; a
      machine whose SysTick makes the clock never return is exhibited.

    Where the code does not do what it means to, a lemma states what it does;
    a theorem about the rest names the condition (the index of the card unless
    the command is 13, [calm] in RamProps and [last_page_calm] in RamLive for
    the last page of memory, [spare] in MemoryProps for regions of 2^64 bytes,
    whose size an assertion refuses, [careful] in MigrationProps for the start of
    a migration).

    ** Bounds

    Loops that the C code bounds by its data are structural here.  The others
    have a fuel and return [None] without it; each has a theorem that a given
    fuel is enough: twice the number of blocks for the search for a page, the
    number of pages for a round, the number of sections and of nested
    descriptions for a load, the number of timers due for a run of a clock, the
    number of interrupts for the chain of active ones, the depth of regions for
    the flat view, the pages of a section for its entry in the page tables.  A
    byte of an access is at least taken in each round, so its length is enough;
    the number of IOMMUs on a path is an argument.  Loading memory is proved for
    all large enough fuel.  The limits of the page tables themselves, addresses
    below 2^40 and 1024 sections, are hypotheses where they matter.

    ** Not modelled

    - Dynamic translation (target-arm/translate.c, tcg): it makes and runs host
      code, which the sources do not define.  The core appears by its helpers.
    - The object model and qdev: devices are built by their own functions, and
      wired by arguments.
    - Host input and output: sockets, files, images, displays, character
      devices.  They are parameters with laws, and each law has an instance.
    - The hooks of RDMA, the throttling of the guest and the statistics of a
      migration; snapshots in disk images.
    - Threads below the calls of the migration thread: its locks make them
      steps, and the guest runs between them.  The memory model of the host.
    - Coalesced writes, the destruction of regions and of address spaces' data,
      dirty flags and watchpoints in exec.c; instruction counting; the profiles
      of ARM other than M; the other machines and devices of the tree. *)

From stdpp Require Export base numbers list.
From Stdlib Require Export ZArith Lia.
#[global] Open Scope Z_scope.

(** Arithmetic on symbolic words is rewritten, never unrolled. *)
#[global] Arguments Z.quot : simpl never.
#[global] Arguments Z.div : simpl never.
#[global] Arguments Z.modulo : simpl never.
#[global] Arguments Z.pow : simpl never.
#[global] Arguments Z.shiftl : simpl never.
#[global] Arguments Z.shiftr : simpl never.
#[global] Arguments Z.land : simpl never.
#[global] Arguments Z.lor : simpl never.
#[global] Arguments Z.lxor : simpl never.
#[global] Arguments Z.testbit : simpl never.
#[global] Arguments Z.eqb : simpl never.
#[global] Arguments Z.leb : simpl never.
#[global] Arguments Z.ltb : simpl never.
#[global] Arguments Z.gtb : simpl never.

(** Succeeds on terms with no local variable; the goals it guards evaluate. *)
Ltac closed_term c := tryif (match c with context [?x] => is_var x end) then fail else idtac.
Ltac ground := match goal with |- ?G => closed_term G end; vm_compute; done.

(** Decide the comparisons between literals, as in a switch on a known offset. *)
Ltac ground_test t :=
  closed_term t; let v := eval vm_compute in t in change t with v.
Ltac switch :=
  repeat match goal with
    | |- context [Z.eqb ?a ?b] => ground_test (Z.eqb a b)
    | |- context [Z.leb ?a ?b] => ground_test (Z.leb a b)
    | |- context [Z.ltb ?a ?b] => ground_test (Z.ltb a b)
    end; cbn [andb orb negb]; cbv iota.

(** ** Functional record update

    The devices of the tree are C structs mutated field by field.  A struct is
    a [Record] here and an assignment [s->f = v] is written [s.[f := v]].  A
    record opts in with a [RecEta] instance that lists its fields once. *)

Class RecEta (R : Type) := rec_eta : R -> R.
Class Setter {R E : Type} (proj : R -> E) := set_field : (E -> E) -> R -> R.
Arguments set_field {R E} proj {_} f r.

Ltac solve_setter :=
  match goal with
  | |- @Setter ?R ?E ?proj =>
      let h := constr:(_ : RecEta R) in
      let e := eval hnf in h in
      let t := constr:(fun (f : E -> E) (r : R) => ltac:(
        let b := eval cbv beta in (e r) in
        let p := eval pattern (proj r) in b in
        match p with
        | ?g _ => let t' := eval cbv beta in (g (f (proj r))) in exact t'
        end)) in
      exact t
  end.
#[export] Hint Extern 1 (Setter _) => solve_setter : typeclass_instances.

Declare Scope record_scope.
#[global] Open Scope record_scope.
Notation "s '.[' p := v ]" := (set_field p (fun _ => v) s)
  (at level 1, left associativity, p at level 9, v at level 200,
   format "s .[ p  :=  v ]") : record_scope.

(** ** C integers

    A [w]-bit unsigned object holds a [Z] in [0, 2^w); an assignment wraps. *)

Definition is_u (w x : Z) : Prop := 0 <= x < 2 ^ w.
#[export] Instance is_u_dec w x : Decision (is_u w x).
Proof. unfold is_u. apply _. Defined.

Definition u8 (x : Z) : Z := x mod 2 ^ 8.
Definition u16 (x : Z) : Z := x mod 2 ^ 16.
Definition u32 (x : Z) : Z := x mod 2 ^ 32.
Definition u64 (x : Z) : Z := x mod 2 ^ 64.

(** Two's complement conversion to a signed type, as the supported hosts do. *)
Definition sN (w x : Z) : Z := (x + 2 ^ (w - 1)) mod 2 ^ w - 2 ^ (w - 1).
Definition s32 (x : Z) : Z := sN 32 x.
Definition s64 (x : Z) : Z := sN 64 x.

Declare Scope cint_scope.
Delimit Scope cint_scope with c.
#[global] Open Scope cint_scope.
Notation "x '.&' y" := (Z.land x y) (at level 40, left associativity) : cint_scope.
Notation "x '.|' y" := (Z.lor x y) (at level 45, left associativity) : cint_scope.
Notation "x '.^' y" := (Z.lxor x y) (at level 42, left associativity) : cint_scope.
Notation "x '.<<' y" := (Z.shiftl x y) (at level 37, left associativity) : cint_scope.
Notation "x '.>>' y" := (Z.shiftr x y) (at level 37, left associativity) : cint_scope.

(** [~x] at type [uint32_t] and [uint8_t]. *)
Definition not32 (x : Z) : Z := Z.lnot x .& Z.ones 32.
Definition not8 (x : Z) : Z := Z.lnot x .& Z.ones 8.

(** A C condition: [if (e)]. *)
Definition truth (x : Z) : bool := negb (x =? 0).
(** [if (x & m)]. *)
Notation "x '.&?' m" := (truth (Z.land x m)) (at level 60, no associativity) : cint_scope.
Definition b2z (b : bool) : Z := if b then 1 else 0.

(** *** Ranges *)

Lemma is_u_mod w x : 0 <= w -> is_u w (x mod 2 ^ w).
Proof. intros Hw. apply Z.mod_pos_bound. apply Z.pow_pos_nonneg; lia. Qed.

Lemma is_u_u8 x : is_u 8 (u8 x).
Proof. apply is_u_mod; lia. Qed.
Lemma is_u_u16 x : is_u 16 (u16 x).
Proof. apply is_u_mod; lia. Qed.
Lemma is_u_u32 x : is_u 32 (u32 x).
Proof. apply is_u_mod; lia. Qed.
Lemma is_u_u64 x : is_u 64 (u64 x).
Proof. apply is_u_mod; lia. Qed.

Lemma u8_small x : is_u 8 x -> u8 x = x.
Proof. apply Z.mod_small. Qed.
Lemma u16_small x : is_u 16 x -> u16 x = x.
Proof. apply Z.mod_small. Qed.
Lemma u32_small x : is_u 32 x -> u32 x = x.
Proof. apply Z.mod_small. Qed.
Lemma u64_small x : is_u 64 x -> u64 x = x.
Proof. apply Z.mod_small. Qed.

Lemma sN_small w x : 0 < w -> - 2 ^ (w - 1) <= x < 2 ^ (w - 1) -> sN w x = x.
Proof.
  intros Hw Hx. unfold sN. assert (2 ^ w = 2 * 2 ^ (w - 1)).
  { rewrite <- Z.pow_succ_r by lia. f_equal. lia. }
  rewrite Z.mod_small by lia. lia.
Qed.

(** Narrowing forgets what an intermediate conversion did above the width. *)
Lemma mod_pow2_mod w w' x : 0 <= w <= w' -> (x mod 2 ^ w') mod 2 ^ w = x mod 2 ^ w.
Proof.
  intros Hw. apply Z.mod_mod_divide.
  exists (2 ^ (w' - w)). rewrite <- Z.pow_add_r by lia. f_equal. lia.
Qed.
Lemma u32_u64 x : u32 (u64 x) = u32 x.
Proof. apply mod_pow2_mod. lia. Qed.
Lemma u32_u32 x : u32 (u32 x) = u32 x.
Proof. apply mod_pow2_mod. lia. Qed.
Lemma u16_u32 x : u16 (u32 x) = u16 x.
Proof. apply mod_pow2_mod. lia. Qed.
Lemma u8_u32 x : u8 (u32 x) = u8 x.
Proof. apply mod_pow2_mod. lia. Qed.
Lemma u8_u16 x : u8 (u16 x) = u8 x.
Proof. apply mod_pow2_mod. lia. Qed.
Lemma s32_small x : - 2 ^ 31 <= x < 2 ^ 31 -> s32 x = x.
Proof. intros Hx. by apply (sN_small 32). Qed.
Lemma s32_u32 x : - 2 ^ 31 <= x < 2 ^ 31 -> s32 (u32 x) = x.
Proof. intros H. unfold s32, sN, u32. rewrite Zplus_mod_idemp_l. by apply (sN_small 32). Qed.
Lemma u32_s32 x : u32 (s32 x) = u32 x.
Proof.
  unfold u32, s32, sN. rewrite Zminus_mod_idemp_l. f_equal. lia.
Qed.
Lemma u16_u64 x : u16 (u64 x) = u16 x.
Proof. apply mod_pow2_mod. lia. Qed.
Lemma u16_s32 x : u16 (s32 x) = u16 x.
Proof. by rewrite <- u16_u32, u32_s32, u16_u32. Qed.

Lemma is_u_bits w x : 0 <= w ->
  is_u w x <-> 0 <= x /\ forall n, w <= n -> Z.testbit x n = false.
Proof.
  intros Hw. unfold is_u. split.
  - intros [H0 H1]. split; [done|]. intros n Hn.
    rewrite <- (Z.mod_small x (2 ^ w)) by lia. apply Z.mod_pow2_bits_high. lia.
  - intros [H0 Hb]. split; [done|].
    assert (x = x mod 2 ^ w) as ->; [|apply Z.mod_pos_bound, Z.pow_pos_nonneg; lia].
    apply Z.bits_inj'. intros n Hn. destruct (Z.lt_ge_cases n w).
    + by rewrite Z.mod_pow2_bits_low by lia.
    + rewrite Hb by lia. by rewrite Z.mod_pow2_bits_high by lia.
Qed.

Lemma is_u_lor w x y : 0 <= w -> is_u w x -> is_u w y -> is_u w (x .| y).
Proof.
  intros Hw. rewrite !is_u_bits by done. intros [Hx Bx] [Hy By]. split.
  - by apply Z.lor_nonneg.
  - intros n Hn. by rewrite Z.lor_spec, Bx, By.
Qed.

Lemma is_u_lxor w x y : 0 <= w -> is_u w x -> is_u w y -> is_u w (x .^ y).
Proof.
  intros Hw. rewrite !is_u_bits by done. intros [Hx Bx] [Hy By]. split.
  - by apply Z.lxor_nonneg.
  - intros n Hn. by rewrite Z.lxor_spec, Bx, By.
Qed.

Lemma is_u_land_l w x y : 0 <= w -> is_u w x -> is_u w (x .& y).
Proof.
  intros Hw. rewrite !is_u_bits by done. intros [Hx Bx]. split.
  - apply Z.land_nonneg. by left.
  - intros n Hn. by rewrite Z.land_spec, Bx.
Qed.

Lemma is_u_land_r w x y : 0 <= w -> is_u w y -> is_u w (x .& y).
Proof. intros. rewrite Z.land_comm. by apply is_u_land_l. Qed.

Lemma is_u_shiftr w x n : 0 <= n -> is_u w x -> is_u w (x .>> n).
Proof.
  intros Hn [H0 H1]. rewrite Z.shiftr_div_pow2 by done.
  assert (0 < 2 ^ n) by (apply Z.pow_pos_nonneg; lia). split.
  - apply Z.div_pos; lia.
  - apply Z.div_lt_upper_bound; nia.
Qed.

Lemma is_u_mono w w' x : 0 <= w <= w' -> is_u w x -> is_u w' x.
Proof.
  intros Hw [H0 H1]. split; [done|].
  eapply Z.lt_le_trans; [done|]. apply Z.pow_le_mono_r; lia.
Qed.

Lemma is_u_not32 x : is_u 32 (not32 x).
Proof. apply is_u_land_r; [lia|]. by vm_compute. Qed.

Lemma is_u_not8 x : is_u 8 (not8 x).
Proof. apply is_u_land_r; [lia|]. by vm_compute. Qed.

Lemma lor_shiftl_add a b n : 0 <= n -> 0 <= b < 2 ^ n -> (a .<< n) .| b = a * 2 ^ n + b.
Proof.
  intros Hn Hb. assert ((a .<< n) .& b = 0) as Hd.
  { apply Z.bits_inj'. intros i Hi. rewrite Z.land_spec, Z.bits_0, Z.shiftl_spec by lia.
    destruct (Z.lt_ge_cases i n); [by rewrite Z.testbit_neg_r by lia|].
    assert (is_u n b) as [_ Hz]%is_u_bits by done; [|lia].
    rewrite Hz by lia. apply andb_false_r. }
  rewrite <- Z.shiftl_mul_pow2 by done. symmetry. rewrite <- Z.lxor_lor by done.
  by apply Z.add_nocarry_lxor.
Qed.

Create HintDb cint.
#[export] Hint Resolve is_u_u8 is_u_u16 is_u_u32 is_u_u64 is_u_not32 is_u_not8 : cint.
#[export] Hint Extern 2 (is_u _ (Z.lor _ _)) => (apply is_u_lor; [lia| |]) : cint.
#[export] Hint Extern 2 (is_u _ (Z.lxor _ _)) => (apply is_u_lxor; [lia| |]) : cint.
#[export] Hint Extern 3 (is_u _ (Z.land _ _)) => (apply is_u_land_l; [lia|]) : cint.
#[export] Hint Extern 4 (is_u _ (Z.land _ _)) => (apply is_u_land_r; [lia|]) : cint.
#[export] Hint Extern 3 (is_u _ (Z.shiftr _ _)) => (apply is_u_shiftr; [lia|]) : cint.
#[export] Hint Extern 1 (is_u ?w ?x) => (closed_term x; closed_term w; by vm_compute) : cint.

(** *** Single bits *)

Lemma truth_true x : truth x = true <-> x <> 0.
Proof. unfold truth. destruct (Z.eqb_spec x 0); naive_solver. Qed.
Lemma truth_false x : truth x = false <-> x = 0.
Proof. unfold truth. destruct (Z.eqb_spec x 0); naive_solver. Qed.

Lemma truth_lor x y : truth (x .| y) = truth x || truth y.
Proof.
  apply eq_true_iff_eq. rewrite orb_true_iff, !truth_true, Z.lor_eq_0_iff.
  destruct (Z.eq_dec x 0), (Z.eq_dec y 0); tauto.
Qed.

(** Testing a one-bit mask is testing the bit. *)
Lemma flag_testbit x k : 0 <= k -> (x .&? (1 .<< k)) = Z.testbit x k.
Proof.
  intros Hk. destruct (Z.testbit x k) eqn:E.
  - apply truth_true. intros H0.
    assert (Z.testbit (x .& (1 .<< k)) k = false) by (rewrite H0; apply Z.bits_0).
    rewrite Z.land_spec, E, Z.shiftl_spec, Z.sub_diag in H by lia. done.
  - apply truth_false, Z.bits_inj'. intros n Hn.
    rewrite Z.land_spec, Z.bits_0, Z.shiftl_spec by lia.
    destruct (decide (n = k)) as [->|Hne]; [by rewrite E|].
    destruct (Z.lt_ge_cases n k).
    + rewrite (Z.testbit_neg_r 1) by lia. apply andb_false_r.
    + rewrite (Z.bits_above_log2 1 (n - k)) by (simpl; lia). apply andb_false_r.
Qed.

Lemma flag_clear x k : 0 <= k -> Z.testbit x k = false -> x .& (1 .<< k) = 0.
Proof. intros Hk Hb. apply truth_false. by rewrite flag_testbit. Qed.

Lemma not32_spec x n : 0 <= n < 32 -> Z.testbit (not32 x) n = negb (Z.testbit x n).
Proof.
  intros Hn. unfold not32. rewrite Z.land_spec, Z.lnot_spec by lia.
  rewrite Z.ones_spec_low by lia. apply andb_true_r.
Qed.

Lemma not8_spec x n : 0 <= n < 8 -> Z.testbit (not8 x) n = negb (Z.testbit x n).
Proof.
  intros Hn. unfold not8. rewrite Z.land_spec, Z.lnot_spec by lia.
  rewrite Z.ones_spec_low by lia. apply andb_true_r.
Qed.

Lemma land_zero_testbit x y n : x .& y = 0 -> Z.testbit y n = true -> Z.testbit x n = false.
Proof.
  intros H Hy. assert (Z.testbit (x .& y) n = false) as Hb by (rewrite H; apply Z.bits_0).
  rewrite Z.land_spec, Hy, andb_true_r in Hb. done.
Qed.

Create Rewrite HintDb bits.
#[export] Hint Rewrite Z.lor_spec Z.land_spec Z.lxor_spec Z.bits_0 : bits.
#[export] Hint Rewrite not32_spec not8_spec using lia : bits.

(** Evaluate the bits of ground masks: [Z.testbit 0x200 9] becomes [true]. *)
Ltac ground_bits :=
  repeat match goal with
    | |- context [Z.testbit ?c ?n] => ground_test (Z.testbit c n)
    end.
Ltac bits :=
  autorewrite with bits; ground_bits;
  rewrite ?andb_true_r, ?andb_false_r, ?orb_true_r, ?orb_false_r; simpl.

(** ** Fixed-size arrays

    An array of the C program is a list of its declared length.  An access out
    of range is undefined behaviour in C: reading gives [d], writing changes
    nothing, and the invariants of the components show it does not happen. *)

Definition aget {A} (d : A) (l : list A) (i : Z) : A :=
  if 0 <=? i then default d (l !! Z.to_nat i) else d.
Definition aset {A} (l : list A) (i : Z) (v : A) : list A :=
  if 0 <=? i then <[Z.to_nat i := v]> l else l.

Lemma length_aset {A} (l : list A) i v : length (aset l i v) = length l.
Proof. unfold aset. destruct (0 <=? i); [apply length_insert|done]. Qed.

Lemma aget_aset_eq {A} (d : A) l i v :
  0 <= i < Z.of_nat (length l) -> aget d (aset l i v) i = v.
Proof.
  intros Hi. unfold aget, aset. destruct (Z.leb_spec 0 i); [|lia].
  rewrite list_lookup_insert_eq by lia. done.
Qed.

Lemma aget_aset_ne {A} (d : A) l i j v :
  i <> j -> 0 <= i -> 0 <= j -> aget d (aset l i v) j = aget d l j.
Proof.
  intros Hne Hi Hj. unfold aget, aset.
  destruct (Z.leb_spec 0 i); [|lia]. destruct (Z.leb_spec 0 j); [|lia].
  rewrite list_lookup_insert_ne by lia. done.
Qed.

Lemma Forall_aset {A} (P : A -> Prop) l i v : Forall P l -> P v -> Forall P (aset l i v).
Proof. intros Hl Hv. unfold aset. destruct (0 <=? i); [by apply Forall_insert|done]. Qed.

Lemma Forall_aget {A} (P : A -> Prop) d l i : P d -> Forall P l -> P (aget d l i).
Proof.
  intros Hd Hl. unfold aget. destruct (0 <=? i); [|done].
  destruct (l !! Z.to_nat i) eqn:E; [|done]. by eapply Forall_lookup_1.
Qed.

Lemma aget_app_l {A} (d : A) l k i : 0 <= i < Z.of_nat (length l) -> aget d (l ++ k) i = aget d l i.
Proof. intros Hi. unfold aget. destruct (0 <=? i); [|done]. by rewrite lookup_app_l by lia. Qed.
Lemma aget_app_r {A} (d : A) l k i : 0 <= i -> aget d (l ++ k) (Z.of_nat (length l) + i) = aget d k i.
Proof.
  intros Hi. unfold aget. destruct (Z.leb_spec 0 i), (Z.leb_spec 0 (Z.of_nat (length l) + i)); [|lia..].
  rewrite lookup_app_r by lia. do 2 f_equal. lia.
Qed.
Lemma aget_ext {A} (d : A) l k : length l = length k ->
  (forall i, 0 <= i < Z.of_nat (length l) -> aget d l i = aget d k i) -> l = k.
Proof.
  intros Hl H. apply (list_eq_same_length _ _ (length l)); [done..|]. intros i x y Hi Hx Hy.
  specialize (H (Z.of_nat i) ltac:(lia)). unfold aget in H. destruct (Z.leb_spec 0 (Z.of_nat i)); [|lia].
  rewrite Nat2Z.id, Hx, Hy in H. exact H.
Qed.

(** *** Copies between byte arrays *)

(** memcpy(dst + i, src, length src). *)
Definition memcpy (dst : list Z) (i : Z) (src : list Z) : list Z :=
  take (Z.to_nat i) dst ++ src ++ drop (Z.to_nat i + length src) dst.
(** The [n] bytes from index [i] on. *)
Definition slice (l : list Z) (i n : Z) : list Z := take (Z.to_nat n) (drop (Z.to_nat i) l).

Lemma length_memcpy dst i src :
  0 <= i -> i + Z.of_nat (length src) <= Z.of_nat (length dst) ->
  length (memcpy dst i src) = length dst.
Proof.
  intros Hi Hl. unfold memcpy. rewrite !length_app, length_take, length_drop. lia.
Qed.

Lemma length_slice l i n : 0 <= i -> 0 <= n -> i + n <= Z.of_nat (length l) ->
  length (slice l i n) = Z.to_nat n.
Proof. intros. unfold slice. rewrite length_take, length_drop. lia. Qed.

Lemma aget_slice d l i n k : 0 <= i -> 0 <= k < n -> aget d (slice l i n) k = aget d l (i + k).
Proof.
  intros Hi Hk. unfold aget, slice. destruct (Z.leb_spec 0 k); [|lia].
  destruct (Z.leb_spec 0 (i + k)); [|lia]. rewrite lookup_take_lt, lookup_drop by lia.
  do 2 f_equal. lia.
Qed.

Lemma aget_memcpy d dst i src k :
  0 <= i -> 0 <= k -> i + Z.of_nat (length src) <= Z.of_nat (length dst) ->
  aget d (memcpy dst i src) k =
    if (i <=? k) && (k <? i + Z.of_nat (length src)) then aget d src (k - i) else aget d dst k.
Proof.
  intros Hi Hk Hl. unfold memcpy, aget. destruct (Z.leb_spec 0 k); [|lia].
  destruct (Z.leb_spec i k); cbn [andb].
  - rewrite lookup_app_r by (rewrite length_take; lia). rewrite length_take_le by lia.
    destruct (Z.ltb_spec k (i + Z.of_nat (length src))).
    + rewrite lookup_app_l by lia. destruct (Z.leb_spec 0 (k - i)); [|lia]. do 2 f_equal. lia.
    + rewrite lookup_app_r, lookup_drop by lia. do 2 f_equal. lia.
  - rewrite lookup_app_l by (rewrite length_take; lia). by rewrite lookup_take_lt by lia.
Qed.

Lemma Forall_slice (P : Z -> Prop) l i n : Forall P l -> Forall P (slice l i n).
Proof. intros. by apply Forall_take, Forall_drop. Qed.
Lemma Forall_memcpy (P : Z -> Prop) dst i src : Forall P dst -> Forall P src -> Forall P (memcpy dst i src).
Proof.
  intros. unfold memcpy. rewrite !Forall_app. split; [by apply Forall_take|].
  split; [done|by apply Forall_drop].
Qed.

Lemma length_slice_le l i n : 0 <= n -> Z.of_nat (length (slice l i n)) <= n.
Proof. intros. unfold slice. rewrite length_take. lia. Qed.

(** ** Ring buffers

    The [len] entries of a buffer of [N] cells from cell [start] on, wrapping. *)

Definition ring (N : Z) (buf : list Z) (start len : Z) : list Z :=
  (fun k => aget 0 buf ((start + k) mod N)) <$> seqZ 0 len.

Lemma length_ring N buf start len : length (ring N buf start len) = Z.to_nat len.
Proof. unfold ring. by rewrite length_fmap, length_seqZ. Qed.

Lemma ring_nil N buf start : ring N buf start 0 = [].
Proof. done. Qed.

Lemma ring_mod N buf start len : N <> 0 -> ring N buf (start mod N) len = ring N buf start len.
Proof.
  intros HN. unfold ring. apply list_fmap_ext. intros i k _. by rewrite Zplus_mod_idemp_l.
Qed.

Lemma ring_pop N buf start len : 0 < len ->
  ring N buf start len = aget 0 buf (start mod N) :: ring N buf (start + 1) (len - 1).
Proof.
  intros Hl. unfold ring. rewrite (seqZ_cons 0 len) by done. rewrite fmap_cons, Z.add_0_r.
  f_equal. assert (seqZ (Z.succ 0) (Z.pred len) = Z.add 1 <$> seqZ 0 (len - 1)) as ->
    by (rewrite fmap_add_seqZ; f_equal; lia).
  rewrite <- list_fmap_compose.
  apply list_fmap_ext. intros i k _. cbn. f_equal. f_equal. lia.
Qed.

(** Distinct positions below [N] are distinct cells. *)
Lemma ring_cell_inj N a b start : 0 <= a < N -> 0 <= b < N ->
  (start + a) mod N = (start + b) mod N -> a = b.
Proof.
  intros Ha Hb E. rewrite <- (Z.mod_small a N), <- (Z.mod_small b N) by done.
  replace a with (start + a - start) by lia. replace b with (start + b - start) by lia.
  by rewrite <- Zminus_mod_idemp_l, E, Zminus_mod_idemp_l.
Qed.

Lemma ring_push N buf start len v :
  0 <= len < N -> Z.of_nat (length buf) = N ->
  ring N (aset buf ((start + len) mod N) v) start (len + 1) = ring N buf start len ++ [v].
Proof.
  intros Hl HN. unfold ring. rewrite seqZ_app by lia. rewrite fmap_app. f_equal.
  - apply list_fmap_ext. intros i k Hk. apply lookup_seqZ in Hk as [-> Hk].
    apply aget_aset_ne; [|apply Z.mod_pos_bound; lia..].
    intros E. apply ring_cell_inj in E; lia.
  - change (seqZ (0 + len) 1) with [0 + len]. cbn [fmap list_fmap]. f_equal.
    rewrite Z.add_0_l. apply aget_aset_eq. rewrite HN. apply Z.mod_pos_bound. lia.
Qed.

(** Cells outside the ring do not matter. *)
Lemma ring_aset_out N buf start len i v :
  0 <= len < N -> 0 <= i -> (forall k, 0 <= k < len -> (start + k) mod N <> i) ->
  ring N (aset buf i v) start len = ring N buf start len.
Proof.
  intros Hl Hi Hout. unfold ring. apply list_fmap_ext. intros j k Hk.
  apply lookup_seqZ in Hk as [-> Hk]. apply aget_aset_ne; [|done|apply Z.mod_pos_bound; lia].
  intros E. eapply Hout; [|done]. lia.
Qed.

(** ** Reachability of a transition relation *)

Inductive star {A} (R : A -> A -> Prop) : A -> A -> Prop :=
| star_refl a : star R a a
| star_step a b c : R a b -> star R b c -> star R a c.

Lemma star_invariant {A} (R : A -> A -> Prop) (I : A -> Prop) :
  (forall a b, I a -> R a b -> I b) -> forall a b, star R a b -> I a -> I b.
Proof. intros Hs a b Hab. induction Hab; eauto. Qed.
