(* ===== verification/Irq.v ===== *)
(** * Interrupt lines (hw/core/irq.c)

    A [qemu_irq] is a possibly null pointer to a handler with its closure and
    line number; raising the line runs the handler on the world [W].  The
    devices of the library drive their line through a log ([drive]): the levels
    a handler receives, in call order, are replayed on the connected
    [qemu_irq] by [replay] when the devices are wired to the controller. *)

From S2P Require Import Prelude.

Module Irq.
Section Irq.
Context {W : Type}.

(** struct IRQState, the handler already applied to its [opaque]. *)
Record IRQState := mkIRQState { handler : Z -> Z -> W -> W; n : Z }.
Definition qemu_irq : Type := option IRQState.

Definition fire (p : IRQState) (level : Z) (w : W) : W := handler p (n p) level w.

Definition qemu_set_irq (irq : qemu_irq) (level : Z) (w : W) : W :=
  match irq with
  | None => w
  | Some p => fire p level w
  end.
Definition qemu_irq_raise (irq : qemu_irq) (w : W) : W := qemu_set_irq irq 1 w.
Definition qemu_irq_lower (irq : qemu_irq) (w : W) : W := qemu_set_irq irq 0 w.

(** The loop of [qemu_extend_irqs]: entries below [n_old] are the old ones,
    the others are fresh and numbered from [n_old]. *)
Definition qemu_extend_irqs (old : option (list IRQState)) (n_old : Z)
    (h : Z -> Z -> W -> W) (cnt : Z) : list IRQState :=
  let n_old := match old with None => 0 | Some _ => n_old end in
  let olds := default [] old in
  (fun i => if n_old <=? i then mkIRQState h i
            else default (mkIRQState h i) (olds !! Z.to_nat i))
    <$> seqZ 0 (cnt + n_old).

Definition qemu_allocate_irqs (h : Z -> Z -> W -> W) (cnt : Z) : list IRQState :=
  qemu_extend_irqs None 0 h cnt.

Definition qemu_notirq (irq : IRQState) (line level : Z) (w : W) : W :=
  fire irq (b2z (level =? 0)) w.
Definition qemu_irq_invert (irq : IRQState) (w : W) : qemu_irq * W :=
  let w := qemu_irq_raise (Some irq) w in
  (head (qemu_allocate_irqs (qemu_notirq irq) 1), w).

Definition qemu_splitirq (irq0 irq1 : IRQState) (line level : Z) (w : W) : W :=
  let w := fire irq0 level w in
  fire irq1 level w.
Definition qemu_irq_split (irq1 irq2 : IRQState) : qemu_irq :=
  head (qemu_allocate_irqs (qemu_splitirq irq1 irq2) 1).

(** [*target] is read when the line is driven, not when the proxy is made. *)
Definition proxy_irq_handler (target : W -> option (list qemu_irq))
    (line level : Z) (w : W) : W :=
  match target w with
  | None => w
  | Some l => qemu_set_irq (aget None l line) level w
  end.
Definition qemu_irq_proxy (target : W -> option (list qemu_irq)) (cnt : Z) : list IRQState :=
  qemu_allocate_irqs (proxy_irq_handler target) cnt.

(** The intercepted lines keep their numbers; the handler receives the old ones. *)
Definition qemu_irq_intercept_in (gpio_in : list IRQState)
    (h : list IRQState -> Z -> Z -> W -> W) (cnt : nat) : list IRQState :=
  let old_irqs := take cnt gpio_in in
  imap (fun i p => if (i <? cnt)%nat then mkIRQState (h old_irqs) (n p) else p) gpio_in.

Definition qemu_irq_intercept_out (gpio_out : list IRQState)
    (h : list IRQState -> Z -> Z -> W -> W) (cnt : Z) : list IRQState :=
  qemu_allocate_irqs (h gpio_out) cnt.

(** Replaying a log, oldest level last. *)
Definition replay (irq : qemu_irq) (log : list Z) (w : W) : W :=
  foldr (qemu_set_irq irq) w log.

Lemma extend_lookup old n_old h cnt i :
  0 <= n_old -> 0 <= cnt -> length old = Z.to_nat n_old -> 0 <= i < cnt + n_old ->
  qemu_extend_irqs (Some old) n_old h cnt !! Z.to_nat i =
    if n_old <=? i then Some (mkIRQState h i) else old !! Z.to_nat i.
Proof.
  intros Ho Hc Hl Hi. unfold qemu_extend_irqs. rewrite list_lookup_fmap.
  rewrite lookup_seqZ_lt by lia. simpl. rewrite Z2Nat.id, Z.add_0_l by lia.
  destruct (Z.leb_spec n_old i); [done|].
  destruct (old !! Z.to_nat i) eqn:E; [done|].
  apply lookup_ge_None in E. lia.
Qed.

Lemma allocate_one h : qemu_allocate_irqs h 1 = [mkIRQState h 0].
Proof. done. Qed.

Lemma invert_fires p level w :
  exists q, fst (qemu_irq_invert p w) = Some q /\ forall w', fire q level w' = fire p (b2z (level =? 0)) w'.
Proof. eexists. split; [done|]. done. Qed.

Lemma replay_app irq l1 l2 w : replay irq (l1 ++ l2) w = replay irq l1 (replay irq l2 w).
Proof. apply foldr_app. Qed.
End Irq.
Arguments IRQState : clear implicits.
Arguments qemu_irq : clear implicits.

(** The log a device keeps of the levels it drove, latest first. *)
Definition line_log : Type := list Z.
Definition drive (l : line_log) (level : Z) : line_log := level :: l.
Definition level (l : line_log) : Z := default 0 (head l).
End Irq.
