(* ===== verification/Ptimer.v ===== *)
(** * Periodic countdown timers (hw/core/ptimer.c)

    The counter of a [ptimer] is never stored while it runs: it is derived from
    the virtual clock and the deadline.  The file models every operation, the
    host timer as the deadline it is armed for, the bottom half as its
    [scheduled] flag, and shows that the derived counter is the rounded-down
    quotient the comments promise, that the division cannot trap, and that an
    enabled timer is always armed for its deadline. *)

From S2P Require Import Prelude.

Module Ptimer.

(** struct ptimer_state.  [bh] is null or the [scheduled] flag of the bottom
    half; [timer] is the expiry time of the QEMUTimer while it is active. *)
Record ptimer_state := mkPtimer {
  enabled : Z;  (* 0 = disabled, 1 = periodic, 2 = oneshot *)
  limit : Z;
  delta : Z;
  period_frac : Z;
  period : Z;
  last_event : Z;
  next_event : Z;
  bh : option bool;
  timer : option Z
}.
#[export] Instance eta_ptimer : RecEta ptimer_state := fun s =>
  mkPtimer (enabled s) (limit s) (delta s) (period_frac s) (period s)
           (last_event s) (next_event s) (bh s) (timer s).

Definition qemu_mod_timer (s : ptimer_state) (expire : Z) : ptimer_state :=
  s.[timer := Some expire].
Definition qemu_del_timer (s : ptimer_state) : ptimer_state := s.[timer := None].

Definition ptimer_trigger (s : ptimer_state) : ptimer_state :=
  match bh s with
  | Some _ => s.[bh := Some true]
  | None => s
  end.

Definition ptimer_reload (s : ptimer_state) : ptimer_state :=
  let s := if delta s =? 0
           then let s := ptimer_trigger s in s.[delta := limit s]
           else s in
  if (delta s =? 0) || (period s =? 0) then s.[enabled := 0]
  else
    let s := s.[last_event := next_event s] in
    let s := s.[next_event := s64 (last_event s + u64 (delta s * period s))] in
    let s := if truth (period_frac s)
             then s.[next_event :=
                       s64 (next_event s + (u64 (period_frac s * delta s) .>> 32))]
             else s in
    qemu_mod_timer s (next_event s).

Definition ptimer_tick (s : ptimer_state) : ptimer_state :=
  let s := ptimer_trigger s in
  let s := s.[delta := 0] in
  if enabled s =? 2 then s.[enabled := 0] else ptimer_reload s.

(** [clz64] of include/qemu/host-utils.h. *)
Definition clz64 (x : Z) : Z := if x =? 0 then 64 else 63 - Z.log2 x.

(** The divisor of [ptimer_get_count] for a given shift. *)
Definition scaled_div (s : ptimer_state) (shift : Z) : Z :=
  let div := u64 (u64 (period s) .<< shift) in
  if 32 <=? shift then div .| u64 (period_frac s .<< (shift - 32))
  else
    let div := if shift =? 0 then div else div .| (period_frac s .>> (32 - shift)) in
    if truth (u32 (period_frac s .<< shift)) then u64 (div + 1) else div.

Definition ptimer_get_count (s : ptimer_state) (now : Z) : Z :=
  if truth (enabled s) then
    if (s64 (now - next_event s) >? 0) || (period s =? 0) then 0
    else
      let rem := u64 (next_event s - now) in
      let clz1 := clz64 rem in
      let clz2 := clz64 (u64 (period s)) in
      let shift := if clz1 <? clz2 then clz1 else clz2 in
      u64 (rem .<< shift) / scaled_div s shift
  else delta s.

(** The restart shared by the setters: [next_event] is the current time. *)
Definition restart (s : ptimer_state) (now : Z) : ptimer_state :=
  ptimer_reload s.[next_event := now].

Definition ptimer_set_count (s : ptimer_state) (count now : Z) : ptimer_state :=
  let s := s.[delta := count] in
  if truth (enabled s) then restart s now else s.

Definition ptimer_run (s : ptimer_state) (oneshot now : Z) : ptimer_state :=
  if truth (enabled s) then s
  else if period s =? 0 then s
  else restart s.[enabled := if truth oneshot then 2 else 1] now.

Definition ptimer_stop (s : ptimer_state) (now : Z) : ptimer_state :=
  if negb (truth (enabled s)) then s
  else
    let s := s.[delta := ptimer_get_count s now] in
    let s := qemu_del_timer s in
    s.[enabled := 0].

Definition ptimer_set_period (s : ptimer_state) (p now : Z) : ptimer_state :=
  let s := s.[period := p].[period_frac := 0] in
  if truth (enabled s) then restart s now else s.

(** [freq] is not 0 (the C division is undefined there). *)
Definition ptimer_set_freq (s : ptimer_state) (freq now : Z) : ptimer_state :=
  let s := s.[period := Z.quot 1000000000 freq] in
  let s := s.[period_frac := u32 (Z.quot (1000000000 .<< 32) freq)] in
  if truth (enabled s) then restart s now else s.

Definition ptimer_set_limit (s : ptimer_state) (lim reload now : Z) : ptimer_state :=
  let lim := if (u64 (lim * period s) <? 10000) && truth (period s)
             then u64 (Z.quot 10000 (period s)) else lim in
  let s := s.[limit := lim] in
  let s := if truth reload then s.[delta := lim] else s in
  if truth (enabled s) && truth reload then restart s now else s.

Definition ptimer_init (b : option bool) : ptimer_state :=
  mkPtimer 0 0 0 0 0 0 0 b None.

(** One main-loop dispatch: [qemu_run_timers] removes an expired timer from the
    active list before it calls [ptimer_tick]. *)
Definition fire (s : ptimer_state) (now : Z) : ptimer_state :=
  match timer s with
  | Some t => if t <=? now then ptimer_tick s.[timer := None] else s
  | None => s
  end.

(** [aio_bh_poll] clears the flag and reports whether the callback runs. *)
Definition bh_poll (s : ptimer_state) : bool * ptimer_state :=
  match bh s with
  | Some true => (true, s.[bh := Some false])
  | _ => (false, s)
  end.

(** The interface as a transition: each call at a clock reading [now]. *)
Inductive op :=
| Tick | SetCount (count : Z) | Run (oneshot : Z) | Stop
| SetPeriod (p : Z) | SetFreq (freq : Z) | SetLimit (lim reload : Z).

Definition exec (o : op) (now : Z) (s : ptimer_state) : ptimer_state :=
  match o with
  | Tick => ptimer_tick s.[timer := None]  (* the main loop disarms, then calls *)
  | SetCount c => ptimer_set_count s c now
  | Run o => ptimer_run s o now
  | Stop => ptimer_stop s now
  | SetPeriod p => ptimer_set_period s p now
  | SetFreq f => ptimer_set_freq s f now
  | SetLimit l r => ptimer_set_limit s l r now
  end.

(** Arguments as the C prototypes and the callers of the tree give them. *)
Definition op_ok (o : op) : Prop :=
  match o with
  | SetCount c => is_u 64 c
  | SetPeriod p => 0 <= p < 2 ^ 63
  | SetFreq f => 0 < f < 2 ^ 32
  | SetLimit l _ => is_u 64 l
  | _ => True
  end.

Inductive step : ptimer_state -> ptimer_state -> Prop :=
| step_op s o now : op_ok o -> step s (exec o now s).

(** ** The divisor *)

(** The period in units of [2^-32] ns, the 64.32 fixed point of the source. *)
Definition fixed_period (s : ptimer_state) : Z := period s * 2 ^ 32 + period_frac s.

Definition ceil_div (a b : Z) : Z := - (- a / b).

(** What [ptimer_set_period] and [ptimer_set_freq] establish. *)
Definition period_ok (s : ptimer_state) : Prop :=
  0 <= period s < 2 ^ 63 /\ is_u 32 (period_frac s) /\
  (period s < 2 ^ 30 \/ period_frac s = 0).

Lemma clz64_bound x : 0 < x < 2 ^ 64 -> 0 <= clz64 x < 64 /\ x * 2 ^ clz64 x < 2 ^ 64.
Proof.
  intros Hx. unfold clz64. destruct (Z.eqb_spec x 0); [lia|].
  pose proof (Z.log2_spec x ltac:(lia)) as [Hl Hu].
  assert (Z.log2 x < 64) by (apply Z.log2_lt_pow2; lia).
  pose proof (Z.log2_nonneg x). split; [lia|].
  replace (2 ^ 64) with (2 ^ Z.succ (Z.log2 x) * 2 ^ (63 - Z.log2 x)).
  - apply Z.mul_lt_mono_pos_r; [apply Z.pow_pos_nonneg; lia|done].
  - rewrite <- Z.pow_add_r by lia. f_equal. lia.
Qed.

Lemma ceil_div_add a b c : 0 < c -> ceil_div (a * c + b) c = a + ceil_div b c.
Proof.
  intros Hc. unfold ceil_div. replace (- (a * c + b)) with (- b + (- a) * c) by lia.
  rewrite Z.div_add by lia. lia.
Qed.

Lemma ceil_div_alt b c : 0 < c -> ceil_div b c = b / c + (if b mod c =? 0 then 0 else 1).
Proof.
  intros Hc. unfold ceil_div. destruct (Z.eqb_spec (b mod c) 0) as [E|E].
  - rewrite Z.div_opp_l_z by lia. lia.
  - rewrite Z.div_opp_l_nz by lia. lia.
Qed.

Lemma pow2_split a b : 0 <= a <= b -> 2 ^ b = 2 ^ a * 2 ^ (b - a).
Proof. intros. rewrite <- Z.pow_add_r by lia. f_equal. lia. Qed.

(** The scaled divisor is the scaled fixed-point period, rounded up. *)
Lemma scaled_div_ceil s shift :
  period_ok s -> 0 <= shift -> period s * 2 ^ shift < 2 ^ 64 -> shift < 64 ->
  scaled_div s shift = ceil_div (fixed_period s * 2 ^ shift) (2 ^ 32).
Proof.
  intros (Hp & Hf & Hor) H0 Hlt H64. unfold scaled_div, fixed_period.
  assert (0 < 2 ^ shift) by (apply Z.pow_pos_nonneg; lia).
  rewrite (u64_small (period s)) by (split; lia).
  rewrite (u64_small (period s .<< shift))
    by (rewrite Z.shiftl_mul_pow2 by lia; split; [apply Z.mul_nonneg_nonneg; lia|done]).
  replace ((period s * 2 ^ 32 + period_frac s) * 2 ^ shift)
    with (period s * 2 ^ shift * 2 ^ 32 + period_frac s * 2 ^ shift) by ring.
  rewrite ceil_div_add by done. destruct Hf as [Hf0 Hf1].
  destruct (Z.leb_spec 32 shift) as [Hs|Hs].
  - assert (2 ^ shift = 2 ^ 32 * 2 ^ (shift - 32)) as E by (apply pow2_split; lia).
    assert (2 ^ 64 = 2 ^ shift * 2 ^ (64 - shift)) as E2 by (apply pow2_split; lia).
    assert (0 < 2 ^ (shift - 32)) by (apply Z.pow_pos_nonneg; lia).
    assert (1 <= 2 ^ (64 - shift)) by (apply (Z.pow_le_mono_r 2 0); lia).
    assert (period_frac s .<< (shift - 32) = period_frac s * 2 ^ (shift - 32)) as ->
      by (apply Z.shiftl_mul_pow2; lia).
    rewrite u64_small by (split; nia). rewrite lor_shiftl_add by nia. f_equal.
    unfold ceil_div. rewrite E.
    replace (- (period_frac s * (2 ^ 32 * 2 ^ (shift - 32))))
      with (- (period_frac s * 2 ^ (shift - 32)) * 2 ^ 32) by ring.
    rewrite Z.div_mul by lia. lia.
  - assert (2 ^ 32 = 2 ^ shift * 2 ^ (32 - shift)) as E by (apply pow2_split; lia).
    assert (0 < 2 ^ (32 - shift)) by (apply Z.pow_pos_nonneg; lia).
    rewrite ceil_div_alt by lia.
    assert (period_frac s * 2 ^ shift / 2 ^ 32 = period_frac s / 2 ^ (32 - shift)) as ->.
    { rewrite E, (Z.mul_comm (2 ^ shift)). by rewrite Z.div_mul_cancel_r by lia. }
    assert (0 <= period_frac s / 2 ^ (32 - shift) < 2 ^ shift) as Hq.
    { split; [apply Z.div_pos; lia|apply Z.div_lt_upper_bound; lia]. }
    assert ((if shift =? 0 then period s .<< shift
             else (period s .<< shift) .| (period_frac s .>> (32 - shift))) =
            period s * 2 ^ shift + period_frac s / 2 ^ (32 - shift)) as ->.
    { rewrite Z.shiftr_div_pow2 by lia. destruct (Z.eqb_spec shift 0) as [->|].
      - rewrite Z.shiftl_0_r. rewrite Z.div_small by (simpl; lia). lia.
      - apply lor_shiftl_add; lia. }
    unfold u32. rewrite Z.shiftl_mul_pow2 by lia. unfold truth.
    destruct (Z.eqb_spec ((period_frac s * 2 ^ shift) mod 2 ^ 32) 0) as [E0|E0]; simpl; [lia|].
    rewrite u64_small; [lia|]. destruct Hor as [Hsm|Hz].
    + assert (2 ^ shift <= 2 ^ 32) by (apply Z.pow_le_mono_r; lia). split; [nia|].
      assert (period s * 2 ^ shift <= (2 ^ 30 - 1) * 2 ^ 32) by (apply Z.mul_le_mono_nonneg; lia).
      lia.
    + rewrite Hz in E0. by rewrite Z.mul_0_l in E0.
Qed.

Lemma ceil_div_bounds a b : 0 < b -> a <= ceil_div a b * b < a + b.
Proof.
  intros Hb. unfold ceil_div. pose proof (Z.div_mod (- a) b ltac:(lia)).
  pose proof (Z.mod_pos_bound (- a) b Hb). nia.
Qed.

(** The shift [ptimer_get_count] settles on. *)
Definition count_shift (s : ptimer_state) (rem : Z) : Z :=
  Z.min (clz64 rem) (clz64 (period s)).

Lemma count_shift_bounds s rem :
  period_ok s -> period s <> 0 -> 0 <= rem < 2 ^ 63 ->
  0 <= count_shift s rem < 64 /\ period s * 2 ^ count_shift s rem < 2 ^ 64 /\
  rem * 2 ^ count_shift s rem < 2 ^ 64.
Proof.
  intros ([Hp0 Hp1] & _) Hne Hr. unfold count_shift.
  destruct (clz64_bound (period s)) as [Hc Hcb]; [lia|].
  assert (0 <= clz64 rem /\ rem * 2 ^ clz64 rem < 2 ^ 64) as [Hd Hdb].
  { destruct (decide (rem = 0)) as [->|]; [by vm_compute|]. destruct (clz64_bound rem); lia. }
  assert (2 ^ Z.min (clz64 rem) (clz64 (period s)) <= 2 ^ clz64 rem)
    by (apply Z.pow_le_mono_r; lia).
  assert (2 ^ Z.min (clz64 rem) (clz64 (period s)) <= 2 ^ clz64 (period s))
    by (apply Z.pow_le_mono_r; lia).
  repeat split; try lia; nia.
Qed.

Lemma get_count_quotient s now :
  period_ok s -> truth (enabled s) = true -> period s <> 0 ->
  0 <= next_event s - now < 2 ^ 63 ->
  let rem := next_event s - now in
  let sh := count_shift s rem in
  ptimer_get_count s now =
    rem * 2 ^ sh / ceil_div (fixed_period s * 2 ^ sh) (2 ^ 32).
Proof.
  intros Hok He Hne Hrem rem sh.
  destruct (count_shift_bounds s rem Hok Hne Hrem) as (Hsh & Hps & Hrs).
  unfold ptimer_get_count. rewrite He.
  unfold s64. rewrite sN_small by lia.
  destruct (Z.gtb_spec (now - next_event s) 0); [lia|].
  destruct (Z.eqb_spec (period s) 0); [done|]. simpl orb. cbv iota zeta.
  destruct Hok as (Hp & Hf).
  rewrite (u64_small (next_event s - now)) by (split; lia).
  rewrite (u64_small (period s)) by (split; lia). fold rem.
  assert ((if clz64 rem <? clz64 (period s) then clz64 rem else clz64 (period s)) = sh) as ->.
  { unfold sh, count_shift. destruct (Z.ltb_spec (clz64 rem) (clz64 (period s))); lia. }
  rewrite u64_small by (rewrite Z.shiftl_mul_pow2 by lia; split; [nia|done]).
  rewrite scaled_div_ceil by (done || lia). by rewrite Z.shiftl_mul_pow2 by lia.
Qed.

(** With 32 bits of head room, or no fraction, the divisor is not rounded. *)
Lemma exact_divisor s rem :
  period_ok s -> period s <> 0 -> 0 <= rem < 2 ^ 63 ->
  rem < 2 ^ 32 \/ period_frac s = 0 ->
  ceil_div (fixed_period s * 2 ^ count_shift s rem) (2 ^ 32) * 2 ^ 32 =
  fixed_period s * 2 ^ count_shift s rem.
Proof.
  intros Hok Hne Hrem Hex. destruct (count_shift_bounds s rem Hok Hne Hrem) as (Hsh & _).
  assert (exists k, fixed_period s * 2 ^ count_shift s rem = k * 2 ^ 32) as [k ->].
  { destruct (decide (period_frac s = 0)) as [Hz|Hz].
    - exists (period s * 2 ^ count_shift s rem). unfold fixed_period. rewrite Hz. ring.
    - destruct Hok as (Hp & Hf & Hor). destruct Hor as [Hsm|]; [|done].
      destruct Hex as [Hr|]; [|done].
      assert (32 <= count_shift s rem) as H32.
      { unfold count_shift, clz64. destruct (Z.eqb_spec (period s) 0); [done|].
        assert (Z.log2 (period s) < 30) by (apply Z.log2_lt_pow2; lia).
        destruct (Z.eqb_spec rem 0); [lia|].
        assert (Z.log2 rem < 32) by (apply Z.log2_lt_pow2; lia). lia. }
      exists (fixed_period s * 2 ^ (count_shift s rem - 32)).
      rewrite (pow2_split 32 (count_shift s rem)) by lia. ring. }
  unfold ceil_div. rewrite <- Z.mul_opp_l, Z.div_mul by lia. lia.
Qed.

(** C36.  While a timer runs, the counter it reports is a whole number of periods
    that fit in the time left before the deadline (the rounding never reports
    more than is left), the divisor is not zero, and the counter is the exact
    quotient whenever fewer than [2^32] ns are left or the period has no
    fractional part. *)
Theorem get_count_rounds_down s now :
  period_ok s -> truth (enabled s) = true -> period s <> 0 ->
  0 <= next_event s - now < 2 ^ 63 ->
  let c := ptimer_get_count s now in
  let rem := next_event s - now in
  0 < scaled_div s (count_shift s rem) /\ 0 <= c /\
  c * fixed_period s <= rem * 2 ^ 32 /\
  (rem < 2 ^ 32 \/ period_frac s = 0 -> rem * 2 ^ 32 < (c + 1) * fixed_period s).
Proof.
  intros Hok He Hne Hrem c rem.
  destruct (count_shift_bounds s rem Hok Hne Hrem) as (Hsh & Hps & Hrs).
  assert (0 < 2 ^ count_shift s rem) by (apply Z.pow_pos_nonneg; lia).
  rewrite scaled_div_ceil by (done || lia).
  subst c. rewrite get_count_quotient by done. fold rem.
  set (sh := count_shift s rem) in *. set (D := ceil_div _ _).
  pose proof Hok as (Hp & [Hf0 Hf1] & Hor).
  assert (0 < fixed_period s) by (unfold fixed_period; nia).
  destruct (ceil_div_bounds (fixed_period s * 2 ^ sh) (2 ^ 32)) as [HD1 HD2]; [lia|].
  fold D in HD1, HD2.
  assert (0 < D) by nia. split; [done|].
  pose proof (Z.mul_div_le (rem * 2 ^ sh) D ltac:(lia)) as Hle.
  pose proof (Z.mul_succ_div_gt (rem * 2 ^ sh) D ltac:(lia)) as Hgt.
  set (c := rem * 2 ^ sh / D) in *.
  assert (0 <= c) by (apply Z.div_pos; nia). split; [done|]. split.
  - apply (Z.mul_le_mono_pos_r _ _ (2 ^ sh)); [done|]. nia.
  - intros Hexact. assert (D * 2 ^ 32 = fixed_period s * 2 ^ sh) as HD.
    { apply (exact_divisor s rem); auto. }
    apply (Z.mul_lt_mono_pos_r (2 ^ sh)); [done|]. nia.
Qed.

(**  The counter can run backwards: with the period of a 999999999 Hz timer
    and [2^50] ns left, the reported count grows by more than [2^25] when one
    nanosecond elapses, because the two readings are scaled differently. *)
Theorem get_count_not_monotone :
  let s := (ptimer_set_freq (ptimer_init None) 999999999 0)
             .[enabled := 1].[next_event := 2 ^ 50] in
  period_ok s /\ ptimer_get_count s 0 + 2 ^ 25 < ptimer_get_count s 1.
Proof. split; [|vm_compute; reflexivity]. repeat split; try by vm_compute. by left. Qed.

(** ** Deadlines *)

(** The value the counter restarts from. *)
Definition reload_value (s : ptimer_state) : Z :=
  if delta s =? 0 then limit s else delta s.

(** The length of [d] counts in nanoseconds, rounded down. *)
Definition span (s : ptimer_state) (d : Z) : Z := d * fixed_period s / 2 ^ 32.

Lemma ptimer_trigger_frame s :
  enabled (ptimer_trigger s) = enabled s /\ limit (ptimer_trigger s) = limit s /\
  delta (ptimer_trigger s) = delta s /\ period (ptimer_trigger s) = period s /\
  period_frac (ptimer_trigger s) = period_frac s /\
  next_event (ptimer_trigger s) = next_event s /\ timer (ptimer_trigger s) = timer s.
Proof. unfold ptimer_trigger. by destruct (bh s). Qed.

Lemma span_split s d : 0 <= d ->
  span s d = d * period s + period_frac s * d / 2 ^ 32.
Proof.
  intros Hd. unfold span, fixed_period.
  replace (d * (period s * 2 ^ 32 + period_frac s))
    with (period_frac s * d + d * period s * 2 ^ 32) by ring.
  rewrite Z.div_add by lia. lia.
Qed.

(** The stages of [ptimer_reload] that matter to its result. *)
Lemma reload_frame s :
  let s' := ptimer_reload s in
  delta s' = reload_value s /\ limit s' = limit s /\ period s' = period s /\
  period_frac s' = period_frac s /\
  (enabled s' = 0 \/
   enabled s' = enabled s /\ period s <> 0 /\ timer s' = Some (next_event s')).
Proof.
  unfold ptimer_reload, reload_value.
  destruct (ptimer_trigger_frame s) as (He & Hl & Hd & Hp & Hf & Hn & Ht).
  destruct (delta s =? 0) eqn:E0; cbn [delta limit period set_field].
  - destruct ((limit (ptimer_trigger s) =? 0) || (period (ptimer_trigger s) =? 0)) eqn:E.
    + cbn. by rewrite Hl, Hp, Hf; auto 10.
    + apply orb_false_iff in E as [_ E%Z.eqb_neq]. rewrite Hp in E.
      destruct (truth _); cbn; rewrite ?Hl, ?Hp, ?Hf, ?He; auto 10.
  - rewrite E0. destruct (period s =? 0) eqn:E; simpl orb; [by cbn; auto 10|].
    apply Z.eqb_neq in E. destruct (truth _); cbn; auto 10.
Qed.

Lemma reload_deadline s :
  period_ok s -> period s <> 0 -> is_u 64 (reload_value s) -> reload_value s <> 0 ->
  period_frac s * reload_value s < 2 ^ 64 ->
  0 <= next_event s -> next_event s + span s (reload_value s) < 2 ^ 63 ->
  let s' := ptimer_reload s in
  enabled s' = enabled s /\ last_event s' = next_event s /\
  next_event s' = next_event s + span s (reload_value s).
Proof.
  intros (Hp & Hf & Hor) Hne Hu Hr Hov Hn Hlt. rewrite span_split in * by apply Hu.
  destruct (ptimer_trigger_frame s) as (He' & Hl' & Hd' & Hp' & Hf' & Hn' & Ht').
  assert (0 <= period_frac s * reload_value s / 2 ^ 32)
    by (apply Z.div_pos; destruct Hu, Hf; nia).
  assert (s64 (next_event s + u64 (reload_value s * period s)) =
          next_event s + reload_value s * period s) as HA.
  { destruct Hu. rewrite u64_small by (split; nia). apply sN_small; nia. }
  assert (s64 (next_event s + reload_value s * period s +
               (u64 (period_frac s * reload_value s) .>> 32)) =
          next_event s + (reload_value s * period s + period_frac s * reload_value s / 2 ^ 32)) as HB.
  { destruct Hu, Hf. rewrite u64_small by (split; nia).
    rewrite Z.shiftr_div_pow2 by lia. unfold s64. rewrite sN_small; nia. }
  unfold ptimer_reload, reload_value in *. apply Z.eqb_neq in Hr, Hne.
  destruct (delta s =? 0) eqn:E0; cbn [delta limit period set_field];
    rewrite ?Hl', ?Hp', ?Hr, ?Hne; simpl orb; cbv iota;
    cbn [last_event next_event period_frac delta period set_field];
    rewrite ?Hl', ?Hp', ?Hn', ?Hf', HA; destruct (truth (period_frac s)) eqn:Ef;
    cbn -[Z.div Z.pow]; rewrite ?Hl', ?Hp', ?Hn', ?Hf', ?He', ?HB; try done.
  all: apply truth_false in Ef; rewrite Ef in *; repeat split; try done;
    rewrite Z.mul_0_l, Z.div_0_l by lia; lia.
Qed.

(** A reload only ever sets the [scheduled] flag of the bottom half. *)
Lemma reload_bh s : bh s = Some true -> bh (ptimer_reload s) = Some true.
Proof.
  intros Hb. unfold ptimer_reload, ptimer_trigger. rewrite Hb.
  destruct (delta s =? 0); destruct (_ || _); try done; by destruct (truth _).
Qed.

Lemma tick_deadline s now :
  period_ok s -> enabled s = 1 -> period s <> 0 ->
  0 < limit s < 2 ^ 64 -> period_frac s * limit s < 2 ^ 64 ->
  0 <= next_event s -> next_event s + span s (limit s) < 2 ^ 63 ->
  let s' := exec Tick now s in
  enabled s' = 1 /\ delta s' = limit s /\ last_event s' = next_event s /\
  next_event s' = next_event s + span s (limit s) /\
  timer s' = Some (next_event s') /\ (bh s <> None -> bh s' = Some true).
Proof.
  intros Hok He Hne Hl Hov Hn Hlt. cbn [exec]. unfold ptimer_tick.
  set (s0 := (ptimer_trigger s.[timer := None]).[delta := 0]).
  destruct (ptimer_trigger_frame s.[timer := None]) as (E1 & E2 & E3 & E4 & E5 & E6 & E7).
  assert (enabled s0 = 1) as E0 by (cbn; by rewrite E1).
  rewrite E0. change (1 =? 2) with false. cbv iota.
  assert (reload_value s0 = limit s) as Er by exact E2.
  assert (fixed_period s0 = fixed_period s) as Ep by (unfold fixed_period; cbn; by rewrite E4, E5).
  destruct (reload_deadline s0) as (A & B & C).
  - destruct Hok. unfold period_ok. cbn. by rewrite E4, E5.
  - cbn. by rewrite E4.
  - rewrite Er. split; lia.
  - rewrite Er. lia.
  - rewrite Er. cbn. by rewrite E5.
  - cbn. by rewrite E6.
  - rewrite Er. unfold span. rewrite Ep. cbn. rewrite E6. exact Hlt.
  - destruct (reload_frame s0) as (F1 & F2 & F3 & F4 & F5).
    assert (next_event s0 = next_event s) as En by (cbn; by rewrite E6).
    rewrite A, B, C, Er, En, F1, Er, E0. unfold span in *. rewrite Ep in *.
    repeat split.
    + destruct F5 as [F5|(_ & _ & ->)]; [congruence|by rewrite C, Er, En].
    + intros Hb. apply reload_bh. subst s0. cbn. unfold ptimer_trigger. cbn.
      by destruct (bh s).
Qed.

(**  A periodic timer does not drift: when it fires, whatever the clock reads,
    the bottom half is scheduled and the timer is armed for the previous
    deadline plus [limit] periods (rounded down to a nanosecond), as long as
    that time fits the 64-bit clock. *)
Theorem tick_periodic s now :
  period_ok s -> enabled s = 1 -> period s <> 0 ->
  0 < limit s < 2 ^ 64 -> period_frac s * limit s < 2 ^ 64 ->
  0 <= next_event s -> next_event s + span s (limit s) < 2 ^ 63 ->
  let s' := exec Tick now s in
  enabled s' = 1 /\ delta s' = limit s /\ last_event s' = next_event s /\
  next_event s' = next_event s + span s (limit s) /\
  timer s' = Some (next_event s') /\ (bh s <> None -> bh s' = Some true).
Proof. apply tick_deadline. Qed.

(** ** The invariant of the interface *)

Record inv (s : ptimer_state) : Prop := {
  inv_enabled : enabled s = 0 \/ enabled s = 1 \/ enabled s = 2;
  inv_period : period_ok s;
  inv_limit : is_u 64 (limit s);
  inv_delta : is_u 64 (delta s);
  inv_armed : enabled s <> 0 -> timer s = Some (next_event s) /\ period s <> 0
}.

Lemma inv_init b : inv (ptimer_init b).
Proof.
  constructor; cbn; try by vm_compute. { by left. }
  repeat split; try by vm_compute. by left.
Qed.

(** [ptimer_reload] restores the invariant from a state that need not be armed. *)
Lemma reload_inv s :
  (enabled s = 0 \/ enabled s = 1 \/ enabled s = 2) -> period_ok s ->
  is_u 64 (limit s) -> is_u 64 (delta s) -> inv (ptimer_reload s).
Proof.
  intros He Hp Hl Hd. destruct (reload_frame s) as (F1 & F2 & F3 & F4 & F5).
  constructor.
  - destruct F5 as [->|(-> & _)]; auto.
  - unfold period_ok. by rewrite F3, F4.
  - by rewrite F2.
  - rewrite F1. unfold reload_value. by destruct (delta s =? 0).
  - intros Hne. destruct F5 as [F5|(F5 & F6 & F7)]; [done|]. by rewrite F3.
Qed.

Lemma scaled_div_nonneg s shift : 0 <= period_frac s -> 0 <= scaled_div s shift.
Proof.
  intros Hf. unfold scaled_div.
  assert (forall x, 0 <= u64 x) as Hu by (intros x; apply is_u_u64).
  destruct (32 <=? shift); [apply Z.lor_nonneg; auto|].
  destruct (truth _); [auto|]. destruct (shift =? 0); [auto|].
  apply Z.lor_nonneg. split; [auto|]. by apply Z.shiftr_nonneg.
Qed.

Lemma get_count_u64 s now : 0 <= period_frac s -> is_u 64 (delta s) -> is_u 64 (ptimer_get_count s now).
Proof.
  intros Hf Hd. unfold ptimer_get_count. destruct (truth (enabled s)); [|done].
  destruct (_ || _); [by vm_compute|]. cbv zeta.
  set (a := u64 (_ .<< _)). set (b := scaled_div _ _).
  assert (is_u 64 a) as [Ha0 Ha1] by apply is_u_u64. 
  destruct (Z.lt_trichotomy b 0) as [Hb|[->|Hb]].
  - exfalso. revert Hb. by apply Z.le_ngt, scaled_div_nonneg.
  - rewrite Z.div_0_r. by vm_compute.
  - split; [by apply Z.div_pos|]. apply Z.div_lt_upper_bound; [done|]. nia.
Qed.

Lemma set_freq_period s f : 0 < f < 2 ^ 32 ->
  period_ok s.[period := Z.quot 1000000000 f].[period_frac := u32 (Z.quot (1000000000 .<< 32) f)].
Proof.
  intros Hf. unfold period_ok. cbn [period period_frac set_field].
  rewrite Z.quot_div_nonneg by lia.
  assert (0 <= 1000000000 / f <= 1000000000) as Hb.
  { split; [apply Z.div_pos; lia|]. apply Z.div_le_upper_bound; nia. }
  split; [lia|]. split; [apply is_u_u32|]. left. lia.
Qed.

Lemma restart_inv s now :
  (enabled s = 0 \/ enabled s = 1 \/ enabled s = 2) -> period_ok s ->
  is_u 64 (limit s) -> is_u 64 (delta s) -> inv (restart s now).
Proof. intros. by apply reload_inv. Qed.

Lemma ptimer_exec_inv o now s : op_ok o -> inv s -> inv (exec o now s).
Proof.
  intros Ho [He Hp Hl Hd Ha]. destruct o; cbn [exec op_ok] in *.
  - unfold ptimer_tick.
    destruct (ptimer_trigger_frame s.[timer := None]) as (E1 & E2 & E3 & E4 & E5 & E6 & E7).
    destruct (_ =? 2).
    + constructor; cbn; rewrite ?E2; auto; try ground; [|by intros []].
      unfold period_ok. cbn. by rewrite E4, E5.
    + apply reload_inv; cbn; rewrite ?E1, ?E2; auto; [|by vm_compute].
      unfold period_ok. cbn. by rewrite E4, E5.
  - unfold ptimer_set_count. destruct (truth _) eqn:E; [by apply restart_inv|].
    apply truth_false in E. cbn in E. constructor; cbn; auto; congruence.
  - unfold ptimer_run. destruct (truth (enabled s)) eqn:E; [by constructor|].
    destruct (period s =? 0); [by constructor|].
    apply restart_inv; cbn; auto. destruct (truth oneshot); auto.
  - unfold ptimer_stop. destruct (truth (enabled s)) eqn:E; [|by constructor].
    constructor; cbn; auto; [|by intros []]. apply get_count_u64; [apply Hp|done].
  - unfold ptimer_set_period.
    assert (period_ok s.[period := p].[period_frac := 0]) as Hp'.
    { unfold period_ok. cbn [period period_frac set_field]. split; [lia|]. split; [by vm_compute|]. by right. }
    destruct (truth _) eqn:E; [by apply restart_inv|].
    apply truth_false in E. cbn in E. constructor; try exact Hp'; cbn; auto; congruence.
  - unfold ptimer_set_freq. pose proof (set_freq_period s freq Ho) as Hp'.
    destruct (truth _) eqn:E; [by apply restart_inv|].
    apply truth_false in E. cbn in E. constructor; try exact Hp'; cbn; auto; congruence.
  - unfold ptimer_set_limit. set (lim' := if (_ <? 10000) && _ then _ else lim).
    assert (is_u 64 lim') by (subst lim'; destruct (_ && _); auto with cint).
    clearbody lim'.
    destruct (truth reload) eqn:Er.
    + rewrite andb_true_r. destruct (truth (enabled _)) eqn:E; [by apply restart_inv|].
      apply truth_false in E. cbn in E. constructor; cbn; auto; congruence.
    + rewrite andb_false_r. constructor; cbn; auto.
Qed.

(** C35.  From creation, through any sequence of calls of the interface and any clock
    readings, the fields stay in range, the enabled flag is one of its three
    values, and an enabled timer has a nonzero period and is armed for exactly
    its deadline. *)
Theorem ptimer_reachable_inv b s : star step (ptimer_init b) s -> inv s.
Proof.
  intros Hs. eapply star_invariant; [|exact Hs|apply inv_init].
  intros a c Ha Hac. destruct Hac. by apply ptimer_exec_inv.
Qed.

(** A limit of zero disables a running timer but leaves its host timer armed: with a new limit set, the
    disabled timer still ticks and arms itself again, and [ptimer_stop] does not cancel it. *)
Theorem disabled_timer_ticks :
  let s := ptimer_run (ptimer_set_limit (ptimer_set_freq (ptimer_init (Some false)) 10 0) 1 1 0) 0 0 in
  let s := ptimer_stop (ptimer_set_limit (ptimer_set_limit s 0 1 50) 5 1 60) 70 in
  enabled s = 0 /\ enabled (fire s 100000000) = 0 /\ bh (fire s 100000000) = Some true /\
  timer (fire s 100000000) = Some 500000050.
Proof. by vm_compute. Qed.

Lemma get_count_rounds_down_witness :
  let s := (ptimer_set_freq (ptimer_init None) 999999999 0)
             .[enabled := 1].[next_event := 4000000000] in
  ptimer_get_count s 1000000000 * fixed_period s <= 3000000000 * 2 ^ 32.
Proof.
  refine (proj1 (proj2 (proj2 (get_count_rounds_down
    ((ptimer_set_freq (ptimer_init None) 999999999 0)
       .[enabled := 1].[next_event := 4000000000]) 1000000000 _ _ _ _)))).
  - repeat split; try by vm_compute. by left.
  - reflexivity.
  - by vm_compute.
  - by vm_compute.
Defined.

Lemma tick_periodic_witness :
  let s := ptimer_run (ptimer_set_limit (ptimer_set_freq (ptimer_init (Some false)) 10 0) 1 1 0) 0 5 in
  next_event (exec Tick 123 s) = 200000005.
Proof.
  refine (proj1 (proj2 (proj2 (proj2 (tick_periodic
    (ptimer_run (ptimer_set_limit (ptimer_set_freq (ptimer_init (Some false)) 10 0) 1 1 0) 0 5)
    123 _ _ _ _ _ _ _))))); try by vm_compute.
  repeat split; try by vm_compute. by left.
Defined.

Lemma ptimer_reachable_inv_witness :
  inv (exec (SetFreq 10) 0 (ptimer_init None)).
Proof.
  apply (ptimer_reachable_inv None). eapply star_step; [|apply star_refl].
  apply (step_op _ (SetFreq 10) 0). by vm_compute.
Defined.
End Ptimer.
