(* ===== verification/Rtt.v ===== *)
(** * The real-time timer of the SAM3 (hw/timer/atmel_rtt.c)

    Four 32-bit registers, an interrupt line and a [ptimer] whose bottom half
    is [rtt_tick].  A guest sees the registers through [rtt_read] and
    [rtt_write]; time enters through [Fire] (the host timer expires) and [Poll]
    (the bottom half runs).  [loop] serves both at the times of the main loop. *)

From S2P Require Import Prelude Irq Ptimer.

Module Rtt.

Definition MR_ALMIEN := 0x10000.
Definition MR_RTTINCIEN := 0x20000.
Definition MR_RTTRST := 0x40000.
Definition SR_ALMS := 0x01.
Definition SR_RTTINC := 0x02.

Record rtt_state := mkRtt {
  mr : Z; ar : Z; vr : Z; sr : Z;
  timer : Ptimer.ptimer_state;
  irq : Irq.line_log
}.
#[export] Instance eta_rtt : RecEta rtt_state := fun s =>
  mkRtt (mr s) (ar s) (vr s) (sr s) (timer s) (irq s).

Definition rtt_id : list Z := [0x22; 0x10; 0x04; 0x00; 0x0d; 0xf0; 0x05; 0xb1].

Definition rtt_update (s : rtt_state) : rtt_state :=
  let s := if mr s .&? MR_RTTRST then s.[vr := 0] else s in
  let s := if vr s =? ar s then s.[sr := sr s .| SR_ALMS] else s in
  if (sr s .&? SR_ALMS) || (sr s .&? SR_RTTINC)
  then s.[irq := Irq.drive (irq s) 1]
  else s.[irq := Irq.drive (irq s) 0].

Definition rtt_tick (s : rtt_state) : rtt_state :=
  let s := s.[vr := u32 (vr s + 1)] in
  let s := s.[sr := sr s .| SR_RTTINC] in
  rtt_update s.

(** [val] is an [int]: the status register is sign extended to 64 bits. *)
Definition rtt_read (s : rtt_state) (offset : Z) : Z * rtt_state :=
  if (0xfe0 <=? offset) && (offset <? 0x1000)
  then (aget 0 rtt_id ((offset - 0xfe0) .>> 2), s)
  else
    if offset =? 0x00 then (mr s, s)
    else if offset =? 0x04 then (ar s, s)
    else if offset =? 0x08 then (vr s, s)
    else if offset =? 0x0c then (u64 (s32 (sr s)), s.[sr := 0])
    else (0, s).

Definition rtt_write (s : rtt_state) (offset value : Z) : rtt_state :=
  if offset =? 0x00 then rtt_update s.[mr := u32 value]
  else if offset =? 0x04 then rtt_update s.[ar := u32 value]
  else s.

Definition rtt_reset (s : rtt_state) : rtt_state :=
  s.[mr := 0x8000].[ar := 0xffffffff].[vr := 0].[sr := 0].

(** [rtt_init] on a zeroed object, at clock reading [now]. *)
Definition rtt_init (now : Z) : rtt_state :=
  let t := Ptimer.ptimer_init (Some false) in
  let t := Ptimer.ptimer_set_freq t 10 now in
  let t := Ptimer.ptimer_set_limit t 1 1 now in
  let t := Ptimer.ptimer_run t 0 now in
  mkRtt 0 0 0 0 t [].

Inductive event := Fire (now : Z) | Poll | Read (offset : Z) | Write (offset value : Z) | Reset.

Definition exec (e : event) (s : rtt_state) : rtt_state :=
  match e with
  | Fire now => s.[timer := Ptimer.fire (timer s) now]
  | Poll => let '(run, t) := Ptimer.bh_poll (timer s) in
            let s := s.[timer := t] in
            if run then rtt_tick s else s
  | Read offset => snd (rtt_read s offset)
  | Write offset value => rtt_write s offset value
  | Reset => rtt_reset s
  end.
Definition run (es : list event) (s : rtt_state) : rtt_state := foldl (fun s e => exec e s) s es.

(** ** Registers *)

Record wf (s : rtt_state) : Prop := {
  wf_mr : is_u 32 (mr s); wf_ar : is_u 32 (ar s);
  wf_vr : is_u 32 (vr s); wf_sr : 0 <= sr s < 4
}.

Lemma lor_alms x : 0 <= x < 4 -> 0 <= x .| SR_ALMS < 4.
Proof. intros. assert (x = 0 \/ x = 1 \/ x = 2 \/ x = 3) as [->|[->|[->| ->]]] by lia; by vm_compute. Qed.
Lemma lor_rttinc x : 0 <= x < 4 -> 0 <= x .| SR_RTTINC < 4.
Proof. intros. assert (x = 0 \/ x = 1 \/ x = 2 \/ x = 3) as [->|[->|[->| ->]]] by lia; by vm_compute. Qed.

(** What one update leaves: the value register is held at zero by RTTRST, the
    alarm flag is set on a match, and the line follows the two status flags. *)
Lemma rtt_update_spec s :
  let v := if mr s .&? MR_RTTRST then 0 else vr s in
  let f := if v =? ar s then sr s .| SR_ALMS else sr s in
  rtt_update s =
    s.[vr := v].[sr := f].[irq := Irq.drive (irq s) (b2z ((f .&? SR_ALMS) || (f .&? SR_RTTINC)))].
Proof.
  unfold rtt_update. destruct s as [m a v f t i]; cbn.
  destruct (m .&? MR_RTTRST); cbn; destruct (Z.eqb _ a); cbn; by destruct (orb _ _).
Qed.

Lemma rtt_update_wf s : wf s -> wf (rtt_update s).
Proof.
  intros [Hm Ha Hv Hs]. rewrite rtt_update_spec. constructor; cbn; auto.
  - destruct (_ .&? _); [by vm_compute|done].
  - destruct (_ =? _); [by apply lor_alms|done].
Qed.

Lemma exec_wf e s : wf s -> wf (exec e s).
Proof.
  intros Hw. pose proof Hw as [Hm Ha Hv Hs].
  destruct e as [now| |o|o v|]; cbn [exec].
  - by constructor.
  - destruct (Ptimer.bh_poll (timer s)) as [[] t]; [|by constructor].
    apply rtt_update_wf. constructor; cbn; auto with cint. by apply lor_rttinc.
  - unfold rtt_read. destruct (_ && _); [done|].
    repeat case_match; try done; constructor; cbn; auto; lia.
  - unfold rtt_write. repeat case_match; try done; apply rtt_update_wf; constructor; cbn; auto with cint.
  - constructor; cbn; ground.
Qed.

(** ** Time *)

(** The 10 Hz timer [rtt_init] starts: period [10^8] ns, one count. *)
Definition timer_10hz (next : Z) (last : Z) (scheduled : bool) : Ptimer.ptimer_state :=
  Ptimer.mkPtimer 1 1 1 0 100000000 last next (Some scheduled) (Some next).

Lemma fire_10hz next last b now :
  0 <= next -> next + 100000000 < 2 ^ 63 -> next <= now ->
  Ptimer.fire (timer_10hz next last b) now = timer_10hz (next + 100000000) next true.
Proof.
  intros H0 Hlt Hnow. unfold Ptimer.fire. cbn [timer_10hz Ptimer.timer].
  destruct (Z.leb_spec next now); [|lia]. unfold timer_10hz, Ptimer.ptimer_tick. cbn.
  unfold Ptimer.ptimer_reload. cbn. change (1 =? 2) with false. change (0 =? 0) with true. cbn.
  change ((1 =? 0) || (100000000 =? 0)) with false. change (truth 0) with false. cbn.
  change (u64 (1 * 100000000)) with 100000000. unfold s64. rewrite sN_small by lia. done.
Qed.

Lemma init_10hz now : 0 <= now -> now + 100000000 < 2 ^ 63 ->
  rtt_init now = mkRtt 0 0 0 0 (timer_10hz (now + 100000000) now false) [].
Proof.
  intros H0 Hlt. unfold rtt_init. cbv zeta.
  assert (Ptimer.ptimer_set_limit (Ptimer.ptimer_set_freq
            (Ptimer.ptimer_init (Some false)) 10 now) 1 1 now =
          Ptimer.mkPtimer 0 1 1 0 100000000 0 0 (Some false) None) as -> by reflexivity.
  transitivity (mkRtt 0 0 0 0 (timer_10hz (s64 (now + 100000000)) now false) []); [reflexivity|].
  unfold s64. by rewrite sN_small by lia.
Qed.

Lemma fire_early next last b now : now < next -> Ptimer.fire (timer_10hz next last b) now = timer_10hz next last b.
Proof. intros H. unfold Ptimer.fire. cbn [timer_10hz Ptimer.timer]. by destruct (Z.leb_spec next now); [lia|]. Qed.

(** A turn of the main loop at time [t]: the timer runs as long as it is due,
    [n] times at most, then the bottom halves are polled. *)
Definition turn (n : nat) (t : Z) : list event := repeat (Fire t) n ++ [Poll].
Definition loop (turns : list (nat * Z)) : list event := turns ≫= fun x => turn x.1 x.2.
(** Tenths of a second that have passed at [t]. *)
Definition whole (t0 t : Z) : Z := (t - t0) / 100000000.
(** The turns come in the order of time, and their runs are long enough. *)
Fixpoint turns_from (t0 t : Z) (turns : list (nat * Z)) : Prop :=
  match turns with
  | [] => True
  | (n, t') :: l => t <= t' /\ whole t0 t' - whole t0 t <= Z.of_nat n /\ turns_from t0 t' l
  end.
Definition last_turn (t : Z) (turns : list (nat * Z)) : Z := default t (last turns.*2).
(** The turns in which a period has ended. *)
Fixpoint ended (t0 t : Z) (turns : list (nat * Z)) : Z :=
  match turns with
  | [] => 0
  | (_, t') :: l => b2z (whole t0 t <? whole t0 t') + ended t0 t' l
  end.
(** No turn comes more than a period after the one before. *)
Fixpoint prompt (t : Z) (turns : list (nat * Z)) : Prop :=
  match turns with [] => True | (_, t') :: l => t' <= t + 100000000 /\ prompt t' l end.

Lemma whole_spec t0 t w : whole t0 t = w <-> t0 + w * 100000000 <= t < t0 + (w + 1) * 100000000.
Proof.
  unfold whole. split; [intros <-; pose proof (Z.div_mod (t - t0) 100000000); pose proof (Z.mod_pos_bound (t - t0) 100000000); lia|].
  intros H. symmetry. apply (Z.div_unique _ _ _ (t - t0 - w * 100000000)); lia.
Qed.
Lemma last_turn_cons t n t' l : last_turn t ((n, t') :: l) = last_turn t' l.
Proof. unfold last_turn. rewrite fmap_cons, last_cons. by destruct (last l.*2). Qed.

Lemma last_turn_le t0 turns : forall t, turns_from t0 t turns -> t <= last_turn t turns.
Proof.
  induction turns as [|[n t'] l IH]; intros t; [cbn; lia|]. intros (? & _ & Hf). rewrite last_turn_cons. specialize (IH _ Hf). lia.
Qed.

(** The runs of one turn bring the deadline behind [t]. *)
Lemma fires_run t0 t n : forall w last b s, 0 <= t0 -> t + 100000000 < 2 ^ 63 -> 0 <= w <= whole t0 t -> whole t0 t - w <= Z.of_nat n ->
  timer s = timer_10hz (t0 + (w + 1) * 100000000) last b ->
  exists last', run (repeat (Fire t) n) s = s.[timer := timer_10hz (t0 + (whole t0 t + 1) * 100000000) last' (b || (w <? whole t0 t))].
Proof.
  pose proof (proj1 (whole_spec t0 t (whole t0 t)) eq_refl) as Hw. set (w' := whole t0 t) in *.
  assert (forall s tm, timer s = tm -> s = s.[timer := tm]) as Hself by (by intros [] tm <-).
  induction n as [|n IH]; intros w last b s H0 Hlt Hle Hn Htm.
  { exists last. assert (w = w') as -> by lia. rewrite Z.ltb_irrefl, orb_false_r. by apply Hself. }
  cbn [repeat run foldl]. change (foldl _ ?a ?b) with (run b a). cbn [exec]. rewrite Htm.
  destruct (decide (w = w')) as [->|Hne].
  - rewrite fire_early by lia. rewrite <- (Hself s _ Htm). apply (IH w' last b); [done|done|lia|lia|done].
  - rewrite fire_10hz by lia. destruct (IH (w + 1) (t0 + (w + 1) * 100000000) true s.[timer := timer_10hz (t0 + (w + 1 + 1) * 100000000) (t0 + (w + 1) * 100000000) true]) as [last' E];
      [done|done|lia|lia|done|].
    exists last'. replace (t0 + (w + 1) * 100000000 + 100000000) with (t0 + (w + 1 + 1) * 100000000) by lia. rewrite E.
    replace (w <? w') with true by lia. rewrite orb_true_r. done.
Qed.
(** A turn counts one if a period has ended since the last one. *)
Lemma turn_run t0 t t' n last s : 0 <= t0 <= t -> t <= t' -> t' + 100000000 < 2 ^ 63 -> whole t0 t' - whole t0 t <= Z.of_nat n ->
  mr s .&? MR_RTTRST = false -> timer s = timer_10hz (t0 + (whole t0 t + 1) * 100000000) last false ->
  let s' := run (turn n t') s in
  u32 (vr s') = u32 (vr s + b2z (whole t0 t <? whole t0 t')) /\ mr s' = mr s /\
  exists last', timer s' = timer_10hz (t0 + (whole t0 t' + 1) * 100000000) last' false.
Proof.
  intros H0 Hle Hlt Hn Hrst Htm. unfold turn. cbv zeta. unfold run. rewrite foldl_app. fold (run (repeat (Fire t') n) s).
  assert (0 <= whole t0 t <= whole t0 t') by (unfold whole; split; [apply Z.div_pos; lia|apply Z.div_le_mono; lia]).
  destruct (fires_run t0 t' n (whole t0 t) last false s) as [last' ->]; [lia..|done|]. cbn [foldl exec orb].
  destruct (whole t0 t <? whole t0 t'); cbn -[rtt_tick whole].
  - unfold rtt_tick. rewrite rtt_update_spec. cbn. rewrite Hrst. unfold u32. rewrite Z.mod_mod by lia. split; [done|]. split; [done|]. by exists last'.
  - rewrite Z.add_0_r. split; [done|]. split; [done|]. by exists last'.
Qed.
Lemma loop_run t0 turns : forall t last s, 0 <= t0 <= t -> turns_from t0 t turns -> last_turn t turns + 100000000 < 2 ^ 63 ->
  mr s .&? MR_RTTRST = false -> timer s = timer_10hz (t0 + (whole t0 t + 1) * 100000000) last false ->
  let s' := run (loop turns) s in
  u32 (vr s') = u32 (vr s + ended t0 t turns) /\
  exists last', timer s' = timer_10hz (t0 + (whole t0 (last_turn t turns) + 1) * 100000000) last' false.
Proof.
  induction turns as [|[n t'] l IH]; intros t last s H0 Hf Hlt Hrst Htm; cbv zeta.
  { cbn. rewrite Z.add_0_r. eauto. }
  destruct Hf as (Hle & Hn & Hf). rewrite last_turn_cons in *. cbn [loop mbind list_bind ended]. unfold run. rewrite foldl_app. cbn [fst snd].
  pose proof (last_turn_le _ _ _ Hf) as Hlast.
  destruct (turn_run t0 t t' n last s) as (E1 & E2 & last1 & E3); [done|done|lia|done..|]. fold (run (turn n t') s).
  destruct (IH t' last1 (run (turn n t') s)) as (E4 & E5); [lia|done|done|by rewrite E2|done|]. split; [|done].
  unfold run in *. unfold loop in *. rewrite E4. unfold u32 in *. rewrite Z.add_mod, E1, <- Z.add_mod by lia. f_equal. lia.
Qed.
(** With no turn late by more than a period, every period counts. *)
Lemma prompt_ended t0 turns : forall t, 0 <= t0 <= t -> turns_from t0 t turns -> prompt t turns ->
  ended t0 t turns = whole t0 (last_turn t turns) - whole t0 t.
Proof.
  induction turns as [|[n t'] l IH]; intros t H0 Hf Hp; [cbn; lia|]. destruct Hf as (Hle & _ & Hf), Hp as [Hb Hp]. rewrite last_turn_cons. cbn [ended].
  rewrite IH by (done || lia). pose proof (proj1 (whole_spec t0 t _) eq_refl). pose proof (proj1 (whole_spec t0 t' _) eq_refl).
  destruct (Z.ltb_spec (whole t0 t) (whole t0 t')); cbn; lia.
Qed.

Lemma run_events_wf es s : wf s -> wf (run es s).
Proof. revert s. induction es as [|e es IH]; intros s Hw; [done|]. cbn. by apply IH, exec_wf. Qed.

(** C37.  Started at time [t0] and served by a main loop at any times, however late: the next period always ends a
    whole number of tenths of a second after [t0], the first such time still to come; the counter has counted, modulo
    2^32, the turns of the loop in which a period ended, so that periods that end together count once; and if no
    turn comes more than a period after the one before, it is the number of tenths of a second since [t0]. *)
Theorem rtt_counts_periods t0 turns :
  0 <= t0 -> turns_from t0 t0 turns -> last_turn t0 turns + 100000000 < 2 ^ 63 ->
  let s := run (loop turns) (rtt_init t0) in
  let passed := (last_turn t0 turns - t0) / 100000000 in
  Ptimer.timer (timer s) = Some (t0 + (passed + 1) * 100000000) /\
  vr s = u32 (ended t0 t0 turns) /\ (prompt t0 turns -> vr s = u32 passed).
Proof.
  intros H0 Hf Hlt s passed.
  pose proof (last_turn_le _ _ _ Hf) as Hl.
  assert (whole t0 t0 = 0) as W0 by (apply whole_spec; lia).
  subst s. rewrite init_10hz by lia. set (s0 := mkRtt 0 0 0 0 _ _).
  destruct (loop_run t0 turns t0 t0 s0) as (E1 & last' & E2); [lia|done|done|done|by rewrite W0|].
  assert (vr (run (loop turns) s0) = u32 (ended t0 t0 turns)) as Ev.
  { rewrite <- (u32_small (vr _)), E1 by (apply run_events_wf; constructor; cbn; ground). done. }
  split; [by rewrite E2|]. split; [done|]. intros Hp. rewrite Ev, (prompt_ended t0 turns t0) by (done || lia). by rewrite W0, Z.sub_0_r.
Qed.

Lemma rtt_counts_periods_witness :
  let s := run (loop [(1%nat, 100000007); (3%nat, 390000000); (2%nat, 400000000)]) (rtt_init 0) in
  Ptimer.timer (timer s) = Some 500000000 /\ vr s = 3.
Proof.
  destruct (rtt_counts_periods 0 [(1%nat, 100000007); (3%nat, 390000000); (2%nat, 400000000)]) as (E1 & E2 & _); [lia|by vm_compute|by vm_compute|].
  split; [exact E1|exact E2].
Defined.

(**  MR.RTTRST is never cleared by the model of the device, so once it is set
    the counter stays at zero through any passage of time and any reads, until
    the guest writes the registers again. *)
Theorem rttrst_holds_counter es s :
  mr s .&? MR_RTTRST = true -> vr s = 0 ->
  Forall (fun e => match e with Write _ _ | Reset => False | _ => True end) es ->
  mr (run es s) = mr s /\ vr (run es s) = 0.
Proof.
  intros Hm Hv Hes. revert s Hm Hv.
  induction Hes as [|e es He Hes IH]; intros s Hm Hv; [done|]. cbn [run foldl].
  change (foldl _ ?a ?b) with (run b a).
  assert (mr (exec e s) = mr s /\ vr (exec e s) = 0) as [E1 E2].
  { destruct e as [now| |o|o v|]; cbn [exec]; try done.
    - destruct (Ptimer.bh_poll (timer s)) as [[] t]; [|done].
      unfold rtt_tick. rewrite rtt_update_spec. cbn. by rewrite Hm.
    - unfold rtt_read. repeat case_match; done. }
  rewrite <- E1. apply IH; [by rewrite E1|done].
Qed.

Lemma rttrst_holds_counter_witness :
  vr (run [Fire 100000000; Poll; Read 8] (rtt_write (rtt_init 0) 0 MR_RTTRST)) = 0.
Proof.
  refine (proj2 (rttrst_holds_counter [Fire 100000000; Poll; Read 8]
    (rtt_write (rtt_init 0) 0 MR_RTTRST) _ _ _)); try reflexivity.
  repeat constructor.
Defined.

(**  The line is driven by the status flags alone: every tick raises it, also
    with both interrupt enables of MR clear, and reading SR (which clears the
    flags) leaves it raised until the next update. *)
Theorem rtt_irq_ignores_mask s :
  wf s ->
  Irq.level (irq (rtt_tick s)) = 1 /\
  Irq.level (irq (snd (rtt_read (rtt_tick s) 0x0c))) = 1 /\
  sr (snd (rtt_read (rtt_tick s) 0x0c)) = 0.
Proof.
  intros [_ _ _ Hs]. unfold rtt_tick. rewrite rtt_update_spec.
  assert (forall b : bool, ((if b then (sr s .| SR_RTTINC) .| SR_ALMS else sr s .| SR_RTTINC)
                            .&? SR_RTTINC) = true) as Hk.
  { assert (sr s = 0 \/ sr s = 1 \/ sr s = 2 \/ sr s = 3) as [->|[->|[->| ->]]] by lia;
      by intros []. }
  unfold rtt_read. change ((0xfe0 <=? 0x0c) && (0x0c <? 0x1000)) with false.
  change (0x0c =? 0x00) with false. change (0x0c =? 0x04) with false.
  change (0x0c =? 0x08) with false. change (0x0c =? 0x0c) with true.
  cbn. by rewrite !Hk, !orb_true_r.
Qed.

Lemma rtt_irq_ignores_mask_witness : Irq.level (irq (rtt_tick (rtt_init 0))) = 1.
Proof. refine (proj1 (rtt_irq_ignores_mask (rtt_init 0) _)). constructor; ground. Defined.
End Rtt.
