(* ===== verification/Pmc.v ===== *)
(** * The power management controller of the SAM3 (hw/pmc/pmc_atmel.c)

    Clock registers, the oscillator start-up and PLL lock counters advanced by a
    10 Hz [ptimer], and the write protection of the register file. *)

From S2P Require Import Prelude Irq Ptimer.

Module Pmc.

Definition PLLA_CHANGE := 0x1.
Definition PLLB_CHANGE := 0x2.
Definition CSS_CHANGE := 0x4.
Definition PRES_CHANGE := 0x8.
Definition PMC_SCPCK0 := 1 .<< 8.
Definition PMC_SCPCK1 := 1 .<< 9.
Definition PMC_SCPCK2 := 1 .<< 10.
Definition CKGR_MOSCXTEN := 1 .<< 0.
Definition CKGR_MOSCXTBY := 1 .<< 1.
Definition CKGR_MOSCXTST := 0xff .<< 8.
Definition CKGR_MAINF := 0xffff .<< 0.
Definition CKGR_MAINFRDY := 1 .<< 16.
Definition CKGR_PLLACOUNT := 0x3f .<< 8.
Definition CKGR_ONE := 1 .<< 29.
Definition CKGR_PLLBCOUNT := 0x3f .<< 8.
Definition PMC_CSS := 0x3 .<< 0.
Definition PMC_CSS_SLOW_CLK := 0x0.
Definition PMC_CSS_PLLA_CLK := 0x2.
Definition PMC_CSS_PLLB_CLK := 0x3.
Definition PMC_PRES := 0x7 .<< 4.
Definition PMC_MOSCXTS := 1 .<< 0.
Definition PMC_LOCKA := 1 .<< 1.
Definition PMC_LOCKB := 1 .<< 2.
Definition PMC_MCKRDY := 1 .<< 3.

Record pmc_state := mkPmc {
  scer : Z; scdr : Z; scsr : Z;
  pcer : list Z; pcdr : list Z; pcsr : list Z;
  ckgr_mor : Z; ckgr_mcfr : Z; ckgr_pllar : Z; ckgr_pllbr : Z;
  mckr : Z; usb : Z; pck : list Z;
  ier : Z; idr : Z; sr : Z; imr : Z; fsmr : Z; fspr : Z; focr : Z;
  wpmr : Z; wpsr : Z; ocr : Z;
  indice : Z; startup : Z; plla_count : Z; pllb_count : Z;
  irq : Irq.line_log;
  timer : Ptimer.ptimer_state
}.
#[export] Instance eta_pmc : RecEta pmc_state := fun s =>
  mkPmc (scer s) (scdr s) (scsr s) (pcer s) (pcdr s) (pcsr s)
        (ckgr_mor s) (ckgr_mcfr s) (ckgr_pllar s) (ckgr_pllbr s)
        (mckr s) (usb s) (pck s)
        (ier s) (idr s) (sr s) (imr s) (fsmr s) (fspr s) (focr s)
        (wpmr s) (wpsr s) (ocr s)
        (indice s) (startup s) (plla_count s) (pllb_count s) (irq s) (timer s).

Definition pmc_WrProtectTest (s : pmc_state) : Z :=
  if wpmr s =? 0x504D4301 then 0 else 1.

(** The number of slow-clock ticks each counter waits for. *)
Definition startup_goal (s : pmc_state) : Z := (ckgr_mor s .& CKGR_MOSCXTST) .>> 5.
Definition plla_goal (s : pmc_state) : Z := (ckgr_pllar s .& CKGR_PLLACOUNT) .>> 8.
Definition pllb_goal (s : pmc_state) : Z := (ckgr_pllbr s .& CKGR_PLLBCOUNT) .>> 8.

(** [pmc_update], statement by statement. *)
Definition update_pcsr (s : pmc_state) : pmc_state :=
  let s := s.[pcsr := aset (pcsr s) 0 (not32 (aget 0 (pcdr s) 0) .& aget 0 (pcer s) 0)] in
  s.[pcsr := aset (pcsr s) 1 (not32 (aget 0 (pcdr s) 1) .& aget 0 (pcer s) 1)].

Definition update_bypass (s : pmc_state) : pmc_state :=
  if (ckgr_mor s .& CKGR_MOSCXTBY) =? CKGR_MOSCXTBY
  then s.[sr := sr s .| PMC_MOSCXTS] else s.

Definition update_mcfr (s : pmc_state) : pmc_state :=
  if ckgr_mcfr s .&? CKGR_MAINF
  then s.[ckgr_mcfr := ckgr_mcfr s .| CKGR_MAINFRDY] else s.

Definition update_mckrdy (s : pmc_state) : pmc_state :=
  if (indice s .&? CSS_CHANGE) || (indice s .&? PRES_CHANGE)
  then s.[sr := sr s .| PMC_MCKRDY] else s.

Definition PMC_SCPCK := PMC_SCPCK0 .| PMC_SCPCK1 .| PMC_SCPCK2.
Definition update_pckrdy (s : pmc_state) : pmc_state :=
  s.[sr := (sr s .& not32 PMC_SCPCK) .| (scsr s .& PMC_SCPCK)].

Definition select_slow (s : pmc_state) : pmc_state :=
  s.[mckr := (mckr s .& not32 PMC_CSS) .| PMC_CSS_SLOW_CLK].
Definition update_css (s : pmc_state) : pmc_state :=
  let css := mckr s .& PMC_CSS in
  if css =? PMC_CSS_PLLA_CLK then
    if (sr s .& PMC_LOCKA) =? 0 then select_slow s else s
  else if css =? PMC_CSS_PLLB_CLK then
    if (sr s .& PMC_LOCKB) =? 0 then select_slow s else s
  else s.

Definition update_startup (s : pmc_state) : pmc_state :=
  if startup s =? startup_goal s then s.[sr := sr s .| PMC_MOSCXTS] else s.

Definition update_plla (s : pmc_state) : pmc_state :=
  if indice s .&? PLLA_CHANGE then
    if plla_count s =? plla_goal s then s.[sr := sr s .| PMC_LOCKA] else s
  else s.

Definition update_pllb (s : pmc_state) : pmc_state :=
  if indice s .&? PLLB_CHANGE then
    if pllb_count s =? pllb_goal s then s.[sr := sr s .| PMC_LOCKB] else s
  else s.

Definition update_irq (s : pmc_state) : pmc_state :=
  s.[irq := Irq.drive (irq s) (b2z (truth (not32 (idr s) .& ier s .& imr s)))].

Definition pmc_update (s : pmc_state) : pmc_state :=
  update_irq (update_pllb (update_plla (update_startup (update_css
    (update_pckrdy (update_mckrdy (update_mcfr (update_bypass (update_pcsr s))))))))).

Definition pmc_tick (s : pmc_state) : pmc_state :=
  let s := if ((ckgr_mor s .& CKGR_MOSCXTEN) =? CKGR_MOSCXTEN) && (startup s <? startup_goal s)
           then s.[startup := u32 (startup s + 1)] else s in
  let s := if plla_count s <? plla_goal s
           then s.[plla_count := u32 (plla_count s + 1)] else s in
  if pllb_count s <? pllb_goal s
  then s.[pllb_count := u32 (pllb_count s + 1)] else s.

(** The case for CKGR_MCFR has no return when the frequency is not ready and
    falls through to the next one. *)
Definition pmc_read (s : pmc_state) (offset : Z) : Z :=
  if offset =? 0x08 then scsr s
  else if offset =? 0x18 then aget 0 (pcsr s) 0
  else if offset =? 0x20 then ckgr_mor s
  else if offset =? 0x24 then
    if ckgr_mcfr s .&? CKGR_MAINFRDY then ckgr_mcfr s else ckgr_pllar s
  else if offset =? 0x28 then ckgr_pllar s
  else if offset =? 0x2c then ckgr_pllbr s
  else if offset =? 0x30 then mckr s
  else if offset =? 0x38 then usb s
  else if offset =? 0x40 then aget 0 (pck s) 0
  else if offset =? 0x44 then aget 0 (pck s) 1
  else if offset =? 0x48 then aget 0 (pck s) 2
  else if offset =? 0x68 then sr s
  else if offset =? 0x6c then imr s
  else if offset =? 0x70 then fsmr s
  else if offset =? 0x74 then fspr s
  else if offset =? 0xE4 then wpmr s
  else if offset =? 0xE8 then wpsr s
  else if offset =? 0x108 then aget 0 (pcsr s) 1
  else if offset =? 0x110 then ocr s
  else 0.

Definition pmc_write (s : pmc_state) (offset value : Z) : pmc_state :=
  let s := s.[indice := 0] in
  if pmc_WrProtectTest s =? 1 then
    if offset =? 0x00 then s.[scer := u32 value]
    else if offset =? 0x04 then s.[scdr := u32 value]
    else if offset =? 0x10 then pmc_update s.[pcer := aset (pcer s) 0 (u32 value)]
    else if offset =? 0x14 then pmc_update s.[pcdr := aset (pcdr s) 0 (u32 value)]
    else if offset =? 0x20 then
      let s := if (value .& 0xff0000) =? 0x370000 then s.[ckgr_mor := u32 value] else s in
      pmc_update s
    else if offset =? 0x28 then
      if negb ((sr s .& PMC_LOCKA) =? 0) then s
      else if value .&? CKGR_ONE then
        let s := s.[ckgr_pllar := u32 value] in
        let s := s.[indice := indice s .| PLLA_CHANGE] in
        s.[plla_count := 0]
      else s
    else if offset =? 0x2c then
      if negb ((sr s .& PMC_LOCKB) =? 0) then s
      else
        let s := s.[ckgr_pllbr := u32 value] in
        let s := s.[indice := indice s .| PLLB_CHANGE] in
        s.[pllb_count := 0]
    else if offset =? 0x30 then
      let s := if (value .& PMC_CSS) =? (mckr s .& PMC_CSS) then s
               else s.[indice := indice s .| CSS_CHANGE] in
      let s := if (value .& PMC_PRES) =? (mckr s .& PMC_PRES) then s
               else s.[indice := indice s .| PRES_CHANGE] in
      pmc_update s.[mckr := u32 value]
    else if offset =? 0x38 then s.[usb := u32 value]
    else if offset =? 0x40 then
      if scsr s .&? PMC_SCPCK0 then s else s.[pck := aset (pck s) 0 (u32 value)]
    else if offset =? 0x44 then
      if scsr s .&? PMC_SCPCK1 then s else s.[pck := aset (pck s) 1 (u32 value)]
    else if offset =? 0x48 then
      if scsr s .&? PMC_SCPCK2 then s else s.[pck := aset (pck s) 2 (u32 value)]
    else if offset =? 0x60 then pmc_update s.[ier := u32 value]
    else if offset =? 0x64 then pmc_update s.[idr := u32 value]
    else if offset =? 0x70 then s.[fsmr := u32 value]
    else if offset =? 0x74 then s.[fspr := u32 value]
    else if offset =? 0x78 then s.[focr := u32 value]
    else if offset =? 0xE4 then s.[wpmr := u32 value]
    else if offset =? 0x100 then pmc_update s.[pcer := aset (pcer s) 1 (u32 value)]
    else if offset =? 0x104 then pmc_update s.[pcdr := aset (pcdr s) 1 (u32 value)]
    else if offset =? 0x110 then s.[ocr := u32 value]
    else s
  else s.

Definition pmc_reset (s : pmc_state) : pmc_state :=
  let s := s.[scsr := 0x00000001] in
  let s := s.[pcer := aset (aset (pcer s) 0 0) 1 0] in
  let s := s.[pcdr := aset (aset (pcdr s) 0 0) 1 0] in
  let s := s.[pcsr := aset (aset (pcsr s) 0 0) 1 0] in
  let s := s.[ckgr_mor := 0x00000001].[ckgr_mcfr := 0] in
  let s := s.[ckgr_pllar := 0x00003f00].[ckgr_pllbr := 0x00003f00] in
  let s := s.[mckr := 0x00000001].[usb := 0] in
  let s := s.[pck := aset (aset (aset (pck s) 0 0) 1 0) 2 0] in
  let s := s.[sr := 0x00010008].[imr := 0].[fsmr := 0].[fspr := 0] in
  let s := s.[wpmr := 0].[wpsr := 0].[ocr := 0x00404040] in
  s.[indice := 0].[startup := 0].[plla_count := 0].[pllb_count := 0].

(** The zeroed object [pmc_init] receives. *)
Definition pmc_zero : pmc_state :=
  mkPmc 0 0 0 [0; 0] [0; 0] [0; 0] 0 0 0 0 0 0 [0; 0; 0] 0 0 0 0 0 0 0 0 0 0 0 0 0 0 []
        (Ptimer.ptimer_init None).

Definition pmc_init (now : Z) : pmc_state :=
  let s := pmc_reset pmc_zero in
  let t := Ptimer.ptimer_init (Some false) in
  let t := Ptimer.ptimer_set_freq t 10 now in
  let t := Ptimer.ptimer_set_limit t 1 1 now in
  s.[timer := Ptimer.ptimer_run t 0 now].

(** Guest writes, the host timer and its bottom half. *)
Inductive event := Write (offset value : Z) | Fire (now : Z) | Poll.

Definition exec (e : event) (s : pmc_state) : pmc_state :=
  match e with
  | Write offset value => pmc_write s offset value
  | Fire now => s.[timer := Ptimer.fire (timer s) now]
  | Poll => let '(run, t) := Ptimer.bh_poll (timer s) in
            let s := s.[timer := t] in
            if run then pmc_tick s else s
  end.

Inductive step : pmc_state -> pmc_state -> Prop :=
| step_exec s e : step s (exec e s).

Definition run (es : list event) (s : pmc_state) : pmc_state := foldl (fun s e => exec e s) s es.

(** ** What an update may change *)

Create HintDb pmc.
Ltac stage f := intros s; unfold f; constructor; repeat case_match; reflexivity.

(** The projections [pmc_update] does not assign. *)
Record same_inputs (s s' : pmc_state) : Prop := {
  si_scsr : scsr s' = scsr s; si_pcer : pcer s' = pcer s; si_pcdr : pcdr s' = pcdr s;
  si_mor : ckgr_mor s' = ckgr_mor s; si_pllar : ckgr_pllar s' = ckgr_pllar s;
  si_pllbr : ckgr_pllbr s' = ckgr_pllbr s; si_ier : ier s' = ier s; si_idr : idr s' = idr s;
  si_imr : imr s' = imr s; si_wpmr : wpmr s' = wpmr s; si_indice : indice s' = indice s;
  si_startup : startup s' = startup s; si_plla : plla_count s' = plla_count s;
  si_pllb : pllb_count s' = pllb_count s; si_pck : pck s' = pck s; si_timer : timer s' = timer s
}.

#[export] Instance same_inputs_trans : Transitive same_inputs.
Proof. intros a b c [] []. constructor; congruence. Qed.

Lemma inputs_pcsr s : same_inputs s (update_pcsr s).
Proof. revert s. stage update_pcsr. Qed.
Lemma inputs_bypass s : same_inputs s (update_bypass s).
Proof. revert s. stage update_bypass. Qed.
Lemma inputs_mcfr s : same_inputs s (update_mcfr s).
Proof. revert s. stage update_mcfr. Qed.
Lemma inputs_mckrdy s : same_inputs s (update_mckrdy s).
Proof. revert s. stage update_mckrdy. Qed.
Lemma inputs_pckrdy s : same_inputs s (update_pckrdy s).
Proof. revert s. stage update_pckrdy. Qed.
Lemma inputs_css s : same_inputs s (update_css s).
Proof. revert s. stage update_css. Qed.
Lemma inputs_startup s : same_inputs s (update_startup s).
Proof. revert s. stage update_startup. Qed.
Lemma inputs_plla s : same_inputs s (update_plla s).
Proof. revert s. stage update_plla. Qed.
Lemma inputs_pllb s : same_inputs s (update_pllb s).
Proof. revert s. stage update_pllb. Qed.
Lemma inputs_irq s : same_inputs s (update_irq s).
Proof. revert s. stage update_irq. Qed.
#[export] Hint Resolve inputs_pcsr inputs_bypass inputs_mcfr inputs_mckrdy inputs_pckrdy inputs_css inputs_startup inputs_plla inputs_pllb inputs_irq : pmc.

Lemma pmc_update_inputs s : same_inputs s (pmc_update s).
Proof. unfold pmc_update. do 9 (etransitivity; [|auto with pmc]). auto with pmc. Qed.

(** ** PLL locks, master clock source and interrupt line *)

(** No PLL is locked, no PLL change is pending, the main clock has not been
    measured, no interrupt is unmasked and the line was never raised. *)
Record unlocked (s : pmc_state) : Prop := {
  ul_a : Z.testbit (sr s) 1 = false; ul_b : Z.testbit (sr s) 2 = false;
  ul_ia : (indice s .&? PLLA_CHANGE) = false; ul_ib : (indice s .&? PLLB_CHANGE) = false;
  ul_mcfr : ckgr_mcfr s = 0; ul_imr : imr s = 0; ul_irq : Forall (eq 0) (irq s)
}.

Ltac unlocked_stage f :=
  intros [Ha Hb Hia Hib Hm Hi Hq]; unfold f; repeat case_match; constructor; cbn;
  auto; bits; rewrite ?Ha, ?Hb; try reflexivity; congruence.

Lemma unlocked_pcsr s : unlocked s -> unlocked (update_pcsr s).
Proof. unlocked_stage update_pcsr. Qed.
Lemma unlocked_bypass s : unlocked s -> unlocked (update_bypass s).
Proof. unlocked_stage update_bypass. Qed.
Lemma unlocked_mcfr s : unlocked s -> unlocked (update_mcfr s).
Proof.
  intros Hu. pose proof Hu as [Ha Hb Hia Hib Hm Hi Hq]. unfold update_mcfr. by rewrite Hm.
Qed.
Lemma unlocked_mckrdy s : unlocked s -> unlocked (update_mckrdy s).
Proof. unlocked_stage update_mckrdy. Qed.
Lemma unlocked_pckrdy s : unlocked s -> unlocked (update_pckrdy s).
Proof. unlocked_stage update_pckrdy. Qed.
Lemma unlocked_css s : unlocked s -> unlocked (update_css s).
Proof. unlocked_stage update_css. Qed.
Lemma unlocked_startup s : unlocked s -> unlocked (update_startup s).
Proof. unlocked_stage update_startup. Qed.
Lemma unlocked_plla s : unlocked s -> unlocked (update_plla s).
Proof. unlocked_stage update_plla. Qed.
Lemma unlocked_pllb s : unlocked s -> unlocked (update_pllb s).
Proof. unlocked_stage update_pllb. Qed.
Lemma unlocked_irq s : unlocked s -> unlocked (update_irq s).
Proof.
  intros [Ha Hb Hia Hib Hm Hi Hq]. unfold update_irq. rewrite Hi, Z.land_0_r.
  constructor; cbn; auto. by constructor.
Qed.
#[export] Hint Resolve unlocked_pcsr unlocked_bypass unlocked_mcfr unlocked_mckrdy
  unlocked_pckrdy unlocked_css unlocked_startup unlocked_plla unlocked_pllb unlocked_irq : pmc.

Lemma pmc_update_unlocked s : unlocked s -> unlocked (pmc_update s).
Proof. intros. unfold pmc_update. auto 12 with pmc. Qed.

(** Bit 1 of MCKR.CSS selects one of the PLLs. *)
Lemma css_bit1 m : m .& PMC_CSS <> PMC_CSS_PLLA_CLK -> m .& PMC_CSS <> PMC_CSS_PLLB_CLK ->
  Z.testbit m 1 = false.
Proof.
  unfold PMC_CSS, PMC_CSS_PLLA_CLK, PMC_CSS_PLLB_CLK. change (3 .<< 0) with (Z.ones 2).
  rewrite Z.land_ones by lia. intros H2 H3.
  rewrite <- (Z.mod_pow2_bits_low m 2 1) by lia.
  pose proof (Z.mod_pos_bound m (2 ^ 2) ltac:(lia)).
  assert (m mod 2 ^ 2 = 0 \/ m mod 2 ^ 2 = 1) as [-> | ->] by lia; reflexivity.
Qed.

Lemma update_css_slow s : unlocked s -> Z.testbit (mckr (update_css s)) 1 = false.
Proof.
  intros [Ha Hb Hia Hib Hm Hi Hq]. unfold update_css.
  assert (sr s .& PMC_LOCKA = 0) as -> by exact (flag_clear _ 1 ltac:(lia) Ha).
  assert (sr s .& PMC_LOCKB = 0) as -> by exact (flag_clear _ 2 ltac:(lia) Hb).
  change (0 =? 0) with true. destruct (Z.eqb_spec (mckr s .& PMC_CSS) PMC_CSS_PLLA_CLK).
  { cbn. bits. done. }
  destruct (Z.eqb_spec (mckr s .& PMC_CSS) PMC_CSS_PLLB_CLK); [cbn; bits; done|].
  by apply css_bit1.
Qed.

Lemma mckr_after_css s :
  mckr (update_irq (update_pllb (update_plla (update_startup s)))) = mckr s.
Proof.
  unfold update_irq, update_pllb, update_plla, update_startup. cbn.
  repeat case_match; reflexivity.
Qed.

Lemma pmc_update_slow s : unlocked s -> Z.testbit (mckr (pmc_update s)) 1 = false.
Proof. intros. unfold pmc_update. rewrite mckr_after_css. apply update_css_slow. auto 12 with pmc. Qed.

(** The invariant of every state the machine reaches after reset. *)
Record inv (s : pmc_state) : Prop := {
  inv_a : Z.testbit (sr s) 1 = false; inv_b : Z.testbit (sr s) 2 = false;
  inv_mcfr : ckgr_mcfr s = 0; inv_imr : imr s = 0; inv_irq : Forall (eq 0) (irq s);
  inv_css : Z.testbit (mckr s) 1 = false; inv_scsr : scsr s = 1
}.

Lemma pmc_update_inv s : unlocked s -> scsr s = 1 -> inv (pmc_update s).
Proof.
  intros Hu Hs. pose proof (pmc_update_unlocked s Hu) as [? ? ? ? ? ? ?].
  constructor; auto; [by apply pmc_update_slow|].
  by rewrite (si_scsr _ _ (pmc_update_inputs s)).
Qed.

Lemma pmc_write_inv s offset value : inv s -> inv (pmc_write s offset value).
Proof.
  intros [Ha Hb Hm Hi Hq Hc Hs]. unfold pmc_write.
  destruct (_ =? 1); [|by constructor].
  repeat match goal with
    | |- inv (if offset =? ?k then _ else _) => destruct (offset =? k)
    end;
  repeat match goal with |- inv (if ?b then _ else _) => destruct b end;
  try (apply pmc_update_inv; [constructor|]; cbn; auto; fail);
  try (constructor; cbn; auto; fail).
  - destruct (_ =? 0x370000); apply pmc_update_inv; auto; by constructor.
  - repeat case_match; apply pmc_update_inv; auto; by constructor.
Qed.

Lemma pmc_exec_inv e s : inv s -> inv (exec e s).
Proof.
  intros H. destruct e as [o v|now|]; cbn [exec]; [by apply pmc_write_inv|..].
  - destruct H. by constructor.
  - destruct (Ptimer.bh_poll (timer s)) as [[] t]; destruct H; [|by constructor].
    unfold pmc_tick. repeat case_match; by constructor.
Qed.

Lemma init_inv now : inv (pmc_init now).
Proof. constructor; try reflexivity. apply Forall_nil_2. Qed.

Lemma pmc_reachable_inv now s : star step (pmc_init now) s -> inv s.
Proof.
  intros Hs. eapply star_invariant; [|exact Hs|apply init_inv].
  intros a b Ha Hab. destruct Hab. by apply pmc_exec_inv.
Qed.

(**  No PLL ever locks: a write to CKGR_PLLAR or CKGR_PLLBR records the change
    in [indice] but runs no update, and every later write clears [indice]
    first.  So SR.LOCKA and SR.LOCKB stay clear in every reachable state and the
    master clock source is never a PLL. *)
Theorem pll_never_locks now s :
  star step (pmc_init now) s ->
  sr s .& PMC_LOCKA = 0 /\ sr s .& PMC_LOCKB = 0 /\
  mckr s .& PMC_CSS <> PMC_CSS_PLLA_CLK /\ mckr s .& PMC_CSS <> PMC_CSS_PLLB_CLK.
Proof.
  intros Hs%pmc_reachable_inv. destruct Hs as [Ha Hb _ _ _ Hc _].
  assert (forall v, Z.testbit v 1 = true -> mckr s .& PMC_CSS <> v) as Hv.
  { intros v Hv E. rewrite <- E, Z.land_spec, Hc in Hv. done. }
  split; [exact (flag_clear _ 1 ltac:(lia) Ha)|].
  split; [exact (flag_clear _ 2 ltac:(lia) Hb)|]. split; by apply Hv.
Qed.

Lemma pll_never_locks_witness :
  mckr (exec (Write 0x30 2) (exec Poll (exec (Write 0x28 0x20003f01) (pmc_init 0)))) .& PMC_CSS
    <> PMC_CSS_PLLA_CLK.
Proof.
  refine (proj1 (proj2 (proj2 (pll_never_locks 0 _ _)))).
  do 3 (eapply star_step; [apply step_exec|]). apply star_refl.
Defined.

(**  IMR has no write path and resets to zero, so the controller never raises
    its interrupt line; SCSR never follows SCER and SCDR; and, MAINF never being
    set, reading CKGR_MCFR falls through and returns CKGR_PLLAR. *)
Theorem pmc_dead_registers now s :
  star step (pmc_init now) s ->
  Forall (eq 0) (irq s) /\ pmc_read s 0x08 = 1 /\ pmc_read s 0x6c = 0 /\
  pmc_read s 0x24 = pmc_read s 0x28.
Proof.
  intros Hs%pmc_reachable_inv. destruct Hs as [_ _ Hm Hi Hq _ Hc].
  unfold pmc_read. switch. rewrite Hc, Hi, Hm. change (0 .&? CKGR_MAINFRDY) with false. auto.
Qed.

Lemma pmc_dead_registers_witness :
  pmc_read (exec (Write 0 0x700) (pmc_init 0)) 0x08 = 1.
Proof.
  refine (proj1 (proj2 (pmc_dead_registers 0 _ _))).
  eapply star_step; [apply step_exec|]. apply star_refl.
Defined.

(** ** Write protection *)

(** The registers a guest can read. *)
Definition same_view (s s' : pmc_state) : Prop := forall o, pmc_read s' o = pmc_read s o.

Lemma exec_protected e s :
  wpmr s = 0x504D4301 -> wpmr (exec e s) = 0x504D4301 /\ same_view s (exec e s).
Proof.
  intros Hw. destruct e as [o v|now|]; cbn [exec].
  - unfold pmc_write, pmc_WrProtectTest. cbn [wpmr set_field].
    rewrite Hw, Z.eqb_refl. change (0 =? 1) with false. by split.
  - done.
  - destruct (Ptimer.bh_poll (timer s)) as [[] t]; [|done].
    unfold pmc_tick. repeat case_match; done.
Qed.

(**  Write protection cannot be undone: once WPMR holds the key with WPEN, the
    write that would clear it is itself discarded, so no sequence of writes and
    timer events changes any register the guest can read. *)
Theorem write_protect_permanent es s :
  wpmr s = 0x504D4301 ->
  wpmr (run es s) = 0x504D4301 /\ forall o, pmc_read (run es s) o = pmc_read s o.
Proof.
  revert s. induction es as [|e es IH]; intros s Hw; [done|].
  cbn [run foldl]. change (foldl _ ?a ?b) with (run b a).
  destruct (exec_protected e s Hw) as [Hw' Hv].
  destruct (IH _ Hw') as [H1 H2]. split; [done|]. intros o. by rewrite H2, Hv.
Qed.

Lemma write_protect_permanent_witness :
  pmc_read (run [Write 0xE4 0x504D4300; Write 0x38 5] (pmc_write (pmc_init 0) 0xE4 0x504D4301)) 0x38 = 0.
Proof.
  exact (proj2 (write_protect_permanent [Write 0xE4 0x504D4300; Write 0x38 5]
    (pmc_write (pmc_init 0) 0xE4 0x504D4301) eq_refl) 0x38).
Defined.

(** ** Oscillator start-up *)

Lemma iter_tick_startup n : forall s,
  ckgr_mor s .& CKGR_MOSCXTEN = CKGR_MOSCXTEN ->
  0 <= startup s <= startup_goal s -> startup_goal s < 2 ^ 32 ->
  let s' := Nat.iter n pmc_tick s in
  ckgr_mor s' = ckgr_mor s /\ startup s' = Z.min (startup_goal s) (startup s + Z.of_nat n).
Proof.
  induction n as [|n IH]; intros s He Hs Hg; [cbn; split; [done|lia]|].
  intros s'. change s' with (pmc_tick (Nat.iter n pmc_tick s)). clear s'.
  destruct (IH s He Hs Hg) as [I1 I2]. set (s1 := Nat.iter n pmc_tick s) in *.
  assert (startup_goal s1 = startup_goal s) as Eg by (unfold startup_goal; by rewrite I1).
  clearbody s1. split; [rewrite <- I1; unfold pmc_tick; repeat case_match; done|].
  assert (startup (pmc_tick s1) =
          if startup s1 <? startup_goal s1 then u32 (startup s1 + 1) else startup s1) as ->.
  { unfold pmc_tick. rewrite I1, He. rewrite Z.eqb_refl. simpl andb.
    repeat case_match; done. }
  rewrite Eg, I2. destruct (Z.ltb_spec (Z.min (startup_goal s) (startup s + Z.of_nat n)) (startup_goal s)).
  - rewrite u32_small by (split; lia). lia.
  - lia.
Qed.

Lemma moscxts_startup x : startup x = startup_goal x -> Z.testbit (sr (update_startup x)) 0 = true.
Proof. intros Hs. unfold update_startup. rewrite Hs, Z.eqb_refl. cbn. bits. done. Qed.

Lemma moscxts_kept y : Z.testbit (sr y) 0 = true ->
  Z.testbit (sr (update_irq (update_pllb (update_plla y)))) 0 = true.
Proof.
  intros H0. change (sr (update_irq ?x)) with (sr x). unfold update_pllb, update_plla.
  repeat case_match; cbn [sr set_field]; rewrite ?Z.lor_spec, H0; done.
Qed.

Lemma update_sets_moscxts s :
  startup s = startup_goal s -> Z.testbit (sr (pmc_update s)) 0 = true.
Proof.
  intros Hs. unfold pmc_update. apply moscxts_kept, moscxts_startup.
  assert (same_inputs s (update_css (update_pckrdy (update_mckrdy (update_mcfr
    (update_bypass (update_pcsr s))))))) as [].
  { do 5 (etransitivity; [|auto with pmc]). auto with pmc. }
  unfold startup_goal in *. congruence.
Qed.

(**  The crystal oscillator becomes ready: with MOSCXTEN set, after as many timer
    ticks as eight times MOSCXTST (or more) the start-up counter has reached its
    goal, it never passes it, and the next update reports SR.MOSCXTS. *)
Theorem oscillator_starts n s :
  ckgr_mor s .& CKGR_MOSCXTEN = CKGR_MOSCXTEN ->
  0 <= startup s <= startup_goal s -> startup_goal s < 2 ^ 32 ->
  startup_goal s <= startup s + Z.of_nat n ->
  let s' := Nat.iter n pmc_tick s in
  startup s' = startup_goal s' /\ Z.testbit (sr (pmc_update s')) 0 = true.
Proof.
  intros He Hs Hg Hn s'. destruct (iter_tick_startup n s He Hs Hg) as [E1 E2].
  fold s' in E1, E2.
  assert (startup s' = startup_goal s') as E by (unfold startup_goal in *; rewrite E1; lia).
  split; [done|]. by apply update_sets_moscxts.
Qed.

Lemma oscillator_starts_witness :
  Z.testbit (sr (pmc_update (Nat.iter 8 pmc_tick (pmc_write (pmc_init 0) 0x20 0x370101)))) 0 = true.
Proof.
  refine (proj2 (oscillator_starts 8 (pmc_write (pmc_init 0) 0x20 0x370101) _ _ _ _));
    by vm_compute.
Defined.

(** ** Peripheral clocks *)

Lemma pcsr_irq x : pcsr (update_irq x) = pcsr x.
Proof. unfold update_irq. repeat case_match; reflexivity. Qed.
Lemma pcsr_pllb x : pcsr (update_pllb x) = pcsr x.
Proof. unfold update_pllb. repeat case_match; reflexivity. Qed.
Lemma pcsr_plla x : pcsr (update_plla x) = pcsr x.
Proof. unfold update_plla. repeat case_match; reflexivity. Qed.
Lemma pcsr_startup x : pcsr (update_startup x) = pcsr x.
Proof. unfold update_startup. repeat case_match; reflexivity. Qed.
Lemma pcsr_css x : pcsr (update_css x) = pcsr x.
Proof. unfold update_css. repeat case_match; reflexivity. Qed.
Lemma pcsr_pckrdy x : pcsr (update_pckrdy x) = pcsr x.
Proof. unfold update_pckrdy. repeat case_match; reflexivity. Qed.
Lemma pcsr_mckrdy x : pcsr (update_mckrdy x) = pcsr x.
Proof. unfold update_mckrdy. repeat case_match; reflexivity. Qed.
Lemma pcsr_mcfr x : pcsr (update_mcfr x) = pcsr x.
Proof. unfold update_mcfr. repeat case_match; reflexivity. Qed.
Lemma pcsr_bypass x : pcsr (update_bypass x) = pcsr x.
Proof. unfold update_bypass. repeat case_match; reflexivity. Qed.

Lemma pcsr_update s : pcsr (pmc_update s) = pcsr (update_pcsr s).
Proof.
  unfold pmc_update. by rewrite pcsr_irq, pcsr_pllb, pcsr_plla, pcsr_startup, pcsr_css, pcsr_pckrdy, pcsr_mckrdy, pcsr_mcfr, pcsr_bypass.
Qed.

Lemma write_pcer0 s v : wpmr s <> 0x504D4301 ->
  pmc_write s 0x10 v = pmc_update s.[indice := 0].[pcer := aset (pcer s) 0 (u32 v)].
Proof.
  intros Hx. unfold pmc_write, pmc_WrProtectTest. cbn [wpmr set_field].
  apply Z.eqb_neq in Hx. rewrite Hx. switch. reflexivity.
Qed.

Lemma write_pcdr0 s v : wpmr s <> 0x504D4301 ->
  pmc_write s 0x14 v = pmc_update s.[indice := 0].[pcdr := aset (pcdr s) 0 (u32 v)].
Proof.
  intros Hx. unfold pmc_write, pmc_WrProtectTest. cbn [wpmr set_field].
  apply Z.eqb_neq in Hx. rewrite Hx. switch. reflexivity.
Qed.

Lemma read_pcsr0 x : length (pcsr x) = 2%nat ->
  pmc_read (pmc_update x) 0x18 = not32 (aget 0 (pcdr x) 0) .& aget 0 (pcer x) 0.
Proof.
  intros Hx. unfold pmc_read. switch. rewrite pcsr_update. unfold update_pcsr.
  cbn [pcsr pcer pcdr set_field]. rewrite aget_aset_ne, aget_aset_eq by lia. done.
Qed.

Lemma length_pcsr_update x : length (pcsr (pmc_update x)) = length (pcsr x).
Proof. rewrite pcsr_update. unfold update_pcsr. cbn [pcsr set_field]. by rewrite !length_aset. Qed.

Lemma enable_clocks y e : wpmr y <> 0x504D4301 -> length (pcer y) = 2%nat -> length (pcsr y) = 2%nat ->
  pmc_read (pmc_write y 0x10 e) 0x18 = not32 (aget 0 (pcdr y) 0) .& u32 e.
Proof.
  intros Hw He Hs. rewrite write_pcer0, read_pcsr0 by done.
  cbn [pcer pcdr set_field]. by rewrite aget_aset_eq by lia.
Qed.

(**  The status of the first 32 peripheral clocks is what PCER0 last enabled
    minus what PCDR0 last disabled: a write to either register replaces its
    previous value, and a clock that PCDR0 disabled stays off however often PCER0
    enables it. *)
Theorem peripheral_clock_status s e d :
  wpmr s <> 0x504D4301 -> length (pcer s) = 2%nat -> length (pcdr s) = 2%nat ->
  length (pcsr s) = 2%nat ->
  pmc_read (pmc_write s 0x10 e) 0x18 = not32 (aget 0 (pcdr s) 0) .& u32 e /\
  pmc_read (pmc_write s 0x14 d) 0x18 = not32 (u32 d) .& aget 0 (pcer s) 0 /\
  pmc_read (pmc_write (pmc_write s 0x14 d) 0x10 e) 0x18 = not32 (u32 d) .& u32 e.
Proof.
  intros Hw He Hd Hs. split; [by apply enable_clocks|].
  rewrite (write_pcdr0 s) by done. set (x := s.[indice := 0].[pcdr := _]).
  assert (aget 0 (pcdr x) 0 = u32 d) as Ex by (subst x; cbn; by rewrite aget_aset_eq by lia).
  destruct (pmc_update_inputs x) as [_ Ee Ed _ _ _ _ _ _ Ew _ _ _ _ _ _]. split.
  - rewrite read_pcsr0 by done. by rewrite Ex.
  - rewrite enable_clocks.
    + by rewrite Ed, Ex.
    + by rewrite Ew.
    + by rewrite Ee.
    + by rewrite length_pcsr_update.
Qed.

Lemma peripheral_clock_status_witness :
  pmc_read (pmc_write (pmc_write (pmc_init 0) 0x14 0xf0) 0x10 0xff) 0x18 = 0x0f.
Proof.
  refine (proj2 (proj2 (peripheral_clock_status (pmc_init 0) 0xff 0xf0 _ _ _ _))); done.
Defined.
End Pmc.
