(* ===== verification/Ssi.v ===== *)
(** * The synchronous serial bus (hw/ssi/ssi.c, include/hw/ssi.h)

    A bus is the list of its slaves in traversal order.  The class of a slave is
    a typeclass on the type [D] of the devices that can sit on the bus: what a
    device promises the bus is [transfer], its chip-select polarity and an
    optional reaction to a change of the line. *)

From S2P Require Import Prelude.

Module Ssi.

Inductive SSICSMode := SSI_CS_NONE | SSI_CS_LOW | SSI_CS_HIGH.

(** SSISlaveClass with the default [transfer_raw]. *)
Class SSISlaveClass (D : Type) := {
  transfer : D -> Z -> Z * D;
  set_cs : D -> option (bool -> D);
  cs_polarity : D -> SSICSMode
}.

Record SSISlave (D : Type) := mkSlave { cs : bool; dev : D }.
Arguments mkSlave {D} cs dev.
Arguments cs {D} s.
Arguments dev {D} s.

Section Bus.
Context {D : Type} `{!SSISlaveClass D}.

(** The handler of the chip-select line; the assertion [n == 0] is the [None]. *)
Definition ssi_cs_default (s : SSISlave D) (n level : Z) : option (SSISlave D) :=
  let c := truth level in
  if n =? 0 then
    let d := if eqb (cs s) c then dev s
             else match set_cs (dev s) with Some f => f c | None => dev s end in
    Some (mkSlave c d)
  else None.

Definition selected (s : SSISlave D) : bool :=
  match cs_polarity (dev s) with
  | SSI_CS_HIGH => cs s
  | SSI_CS_LOW => negb (cs s)
  | SSI_CS_NONE => true
  end.

Definition ssi_transfer_raw_default (s : SSISlave D) (val : Z) : Z * SSISlave D :=
  if selected s then
    let '(r, d) := transfer (dev s) val in (r, mkSlave (cs s) d)
  else (0, s).

(** The loop of [ssi_transfer] over the children, [r] or-ed on the way. *)
Fixpoint transfer_children (bus : list (SSISlave D)) (val r : Z) : Z * list (SSISlave D) :=
  match bus with
  | [] => (r, [])
  | kid :: kids =>
      let '(v, kid) := ssi_transfer_raw_default kid val in
      let '(r, kids) := transfer_children kids val (r .| v) in
      (r, kid :: kids)
  end.

Definition ssi_transfer (bus : list (SSISlave D)) (val : Z) : Z * list (SSISlave D) :=
  transfer_children bus val 0.

(** ** The bus against its specification *)

(** What one slave contributes: its reply if selected. *)
Definition reply (val : Z) (s : SSISlave D) : Z := fst (ssi_transfer_raw_default s val).
Definition after (val : Z) (s : SSISlave D) : SSISlave D := snd (ssi_transfer_raw_default s val).

Lemma transfer_children_spec bus val r :
  transfer_children bus val r = (foldl Z.lor r (reply val <$> bus), after val <$> bus).
Proof.
  revert r. induction bus as [|kid kids IH]; intros r; [done|].
  cbn [transfer_children fmap list_fmap foldl].
  change (reply val kid) with (fst (ssi_transfer_raw_default kid val)).
  change (after val kid) with (snd (ssi_transfer_raw_default kid val)).
  destruct (ssi_transfer_raw_default kid val) as [v k]. by rewrite IH.
Qed.

(** Every slave sees the word independently of the others. *)
Lemma ssi_transfer_spec bus val :
  ssi_transfer bus val = (foldl Z.lor 0 (reply val <$> bus), after val <$> bus).
Proof. apply transfer_children_spec. Qed.

Lemma deselected_inert s val : selected s = false -> reply val s = 0 /\ after val s = s.
Proof. intros Hs. unfold reply, after, ssi_transfer_raw_default. by rewrite Hs. Qed.

Lemma foldl_lor_zeros l r : Forall (eq 0) l -> foldl Z.lor r l = r.
Proof.
  revert r. induction l as [|x l IH]; intros r Hl; [done|].
  apply Forall_cons_1 in Hl as [<- Hl]. cbn. rewrite Z.lor_0_r. by apply IH.
Qed.

Lemma deselected_all l val : Forall (fun s => selected s = false) l ->
  Forall (eq 0) (reply val <$> l) /\ after val <$> l = l.
Proof.
  intros Hl. induction Hl as [|s l Hs Hl [IH1 IH2]]; [done|].
  destruct (deselected_inert s val Hs) as [E1 E2]. cbn.
  split; [by constructor|]. by rewrite E2, IH2.
Qed.

(** With one selected slave the bus is that slave. *)
Lemma ssi_transfer_one pre s post val :
  Forall (fun s => selected s = false) pre -> Forall (fun s => selected s = false) post ->
  selected s = true ->
  ssi_transfer (pre ++ s :: post) val =
    (fst (transfer (dev s) val),
     pre ++ mkSlave (cs s) (snd (transfer (dev s) val)) :: post).
Proof.
  intros Hpre Hpost Hs.
  destruct (deselected_all pre val Hpre) as [P1 P2].
  destruct (deselected_all post val Hpost) as [Q1 Q2].
  rewrite ssi_transfer_spec, !fmap_app, !fmap_cons, P2, Q2, foldl_app. cbn [foldl].
  rewrite (foldl_lor_zeros (reply val <$> pre)) by done.
  rewrite foldl_lor_zeros by done. rewrite Z.lor_0_l.
  unfold reply, after, ssi_transfer_raw_default. rewrite Hs.
  by destruct (transfer (dev s) val).
Qed.

(**  A transfer on the bus returns the bitwise or of the replies of the selected
    slaves; each slave whose chip select is inactive keeps its state and
    contributes nothing, and a slave's new state does not depend on the others. *)
Theorem ssi_bus_transfer (bus : list (SSISlave D)) val :
  let '(r, bus') := ssi_transfer bus val in
  length bus' = length bus /\
  (forall k, Z.testbit r k = true <->
     exists s, s ∈ bus /\ selected s = true /\ Z.testbit (fst (transfer (dev s) val)) k = true) /\
  (forall i s, bus !! i = Some s ->
     bus' !! i = Some (if selected s then mkSlave (cs s) (snd (transfer (dev s) val)) else s)).
Proof.
  rewrite ssi_transfer_spec. split; [by rewrite length_fmap|]. split.
  - intros k.
    assert (forall l r, Z.testbit (foldl Z.lor r l) k = true <->
      Z.testbit r k = true \/ Exists (fun x => Z.testbit x k = true) l) as Hf.
    { induction l as [|x l IH]; intros r; cbn; [rewrite Exists_nil; tauto|].
      rewrite IH, Z.lor_spec, orb_true_iff, Exists_cons. tauto. }
    rewrite Hf, Z.bits_0, Exists_fmap, Exists_exists. split.
    + intros [H|(s & Hin & Hb)]; [done|]. exists s.
      unfold reply, ssi_transfer_raw_default in Hb. cbn in Hb.
      destruct (selected s); [|by rewrite Z.bits_0 in Hb].
      destruct (transfer (dev s) val) as [x d]. done.
    + intros (s & Hin & Hs & Hb). right. exists s. split; [done|].
      cbn. unfold reply, ssi_transfer_raw_default. rewrite Hs.
      by destruct (transfer (dev s) val).
  - intros i s Hi. rewrite list_lookup_fmap, Hi. cbn. f_equal.
    unfold after, ssi_transfer_raw_default. destruct (selected s); [|done].
    by destruct (transfer (dev s) val).
Qed.
End Bus.
End Ssi.
