(* ===== verification/Ssd0323.v ===== *)
(** * The SSD0323 OLED controller (hw/display/ssd0323.c)

    A slave of the serial bus.  In command mode it collects an opcode and its
    argument bytes, in data mode it writes the frame buffer through a cursor
    that walks the selected window.  [ssd0323_update_display] renders the frame
    buffer to a surface of a given depth. *)

From S2P Require Import Prelude Ssi.

Module Ssd0323.

Definition MAGNIFY := 4.
Definition REMAP_VERTICAL := 0x04.

(** The enumerators, and any other value the variable may be given. *)
Inductive ssd0323_mode := SSD0323_CMD | SSD0323_DATA | SSD0323_OTHER (v : Z).

Record ssd0323_state := mkSsd {
  cmd_len : Z; cmd : Z; cmd_data : list Z;
  row : Z; row_start : Z; row_end : Z;
  col : Z; col_start : Z; col_end : Z;
  redraw : Z; remap : Z;
  mode : ssd0323_mode;
  framebuffer : list Z
}.
#[export] Instance eta_ssd : RecEta ssd0323_state := fun s =>
  mkSsd (cmd_len s) (cmd s) (cmd_data s) (row s) (row_start s) (row_end s)
        (col s) (col_start s) (col_end s) (redraw s) (remap s) (mode s) (framebuffer s).

(** The cursor after a data byte. *)
Definition advance (s : ssd0323_state) : ssd0323_state :=
  if remap s .&? REMAP_VERTICAL then
    let s := s.[row := row s + 1] in
    let s := if row s >? row_end s
             then let s := s.[row := row_start s] in s.[col := col s + 1] else s in
    if col s >? col_end s then s.[col := col_start s] else s
  else
    let s := s.[col := col s + 1] in
    let s := if col s >? col_end s
             then let s := s.[row := row s + 1] in s.[col := col_start s] else s in
    if row s >? row_end s then s.[row := row_start s] else s.

Definition ssd0323_data (s : ssd0323_state) (data : Z) : ssd0323_state :=
  let s := s.[framebuffer := aset (framebuffer s) (col s + row s * 64) (u8 data)] in
  (advance s).[redraw := 1].

(** The macro DATA(x): wait for more arguments, or run [k] and drop the command. *)
Definition DATA (s : ssd0323_state) (x : Z) (k : ssd0323_state -> ssd0323_state) : ssd0323_state :=
  if cmd_len s <=? x then s else (k s).[cmd_len := 0].
Definition ignore (s : ssd0323_state) : ssd0323_state := s.

Definition set_column (s : ssd0323_state) : ssd0323_state :=
  let c := Z.rem (aget 0 (cmd_data s) 0) 64 in
  let s := s.[col_start := c].[col := c] in
  s.[col_end := Z.rem (aget 0 (cmd_data s) 1) 64].
Definition set_row (s : ssd0323_state) : ssd0323_state :=
  let r := Z.rem (aget 0 (cmd_data s) 0) 80 in
  let s := s.[row_start := r].[row := r] in
  s.[row_end := Z.rem (aget 0 (cmd_data s) 1) 80].
Definition set_remap (s : ssd0323_state) : ssd0323_state :=
  s.[remap := aget 0 (cmd_data s) 0].

Definition is_one_of (x : Z) (l : list Z) : bool := existsb (Z.eqb x) l.

Definition ssd0323_command (s : ssd0323_state) (data : Z) : ssd0323_state :=
  let s := if cmd_len s =? 0 then s.[cmd := s32 data]
           else s.[cmd_data := aset (cmd_data s) (cmd_len s - 1) (s32 data)] in
  let s := s.[cmd_len := cmd_len s + 1] in
  if cmd s =? 0x15 then DATA s 2 set_column
  else if cmd s =? 0x75 then DATA s 2 set_row
  else if cmd s =? 0x81 then DATA s 1 ignore
  else if is_one_of (cmd s) [0x84; 0x85; 0x86] then DATA s 0 ignore
  else if cmd s =? 0xa0 then DATA s 1 set_remap
  else if is_one_of (cmd s) [0xa1; 0xa2] then DATA s 1 ignore
  else if is_one_of (cmd s) [0xa4; 0xa5; 0xa6; 0xa7] then DATA s 0 ignore
  else if is_one_of (cmd s) [0xa8; 0xad] then DATA s 1 ignore
  else if is_one_of (cmd s) [0xae; 0xaf] then DATA s 0 ignore
  else if is_one_of (cmd s) [0xb1; 0xb2; 0xb3; 0xbc; 0xbe; 0xbf] then DATA s 1 ignore
  else if cmd s =? 0xb8 then DATA s 8 ignore
  else if cmd s =? 0xe3 then DATA s 0 ignore
  else s.[cmd_len := 0].

Definition ssd0323_transfer (s : ssd0323_state) (data : Z) : Z * ssd0323_state :=
  match mode s with
  | SSD0323_DATA => (0, ssd0323_data s data)
  | SSD0323_CMD => (0, ssd0323_command s data)
  | SSD0323_OTHER _ => (0, s)
  end.

Definition ssd0323_invalidate_display (s : ssd0323_state) : ssd0323_state := s.[redraw := 1].

(** Command/data input. *)
Definition ssd0323_cd (s : ssd0323_state) (n level : Z) : ssd0323_state :=
  s.[mode := if truth level then SSD0323_DATA else SSD0323_CMD].

Definition ssd0323_zero : ssd0323_state :=
  mkSsd 0 0 (replicate 8 0) 0 0 0 0 0 0 0 0 SSD0323_CMD (replicate (Z.to_nat 5120) 0).
Definition ssd0323_init : ssd0323_state := ssd0323_zero.[col_end := 63].[row_end := 79].

(** ** Rendering *)

Definition dest_width (bpp : Z) : option Z :=
  if bpp =? 0 then None
  else if bpp =? 15 then Some 2
  else if bpp =? 16 then Some 2
  else if bpp =? 24 then Some 3
  else if bpp =? 32 then Some 4
  else None.

(** The bytes of grey level [i]; at 32 bits the fourth byte of the slot is the
    uninitialised [pad] of the colour table. *)
Definition color (bpp pad i : Z) : list Z :=
  if bpp =? 15 then
    let n := i * 2 + (i .>> 3) in
    [u8 (n .| (n .<< 5)); u8 ((n .<< 2) .| (n .>> 3))]
  else if bpp =? 16 then
    let n := i * 2 + (i .>> 3) in
    [u8 (n .| (n .<< 6) .| ((n .<< 1) .& 0x20)); u8 ((n .<< 3) .| (n .>> 2))]
  else
    let n := (i .<< 4) .| i in
    if bpp =? 24 then [u8 n; u8 n; u8 n] else [u8 n; u8 n; u8 n; pad].

(** One source byte: its high then its low nibble, each [MAGNIFY] times. *)
Definition render_byte (bpp pad src : Z) : list Z :=
  mjoin (replicate 4 (color bpp pad (src .>> 4))) ++
  mjoin (replicate 4 (color bpp pad (src .& 0xf))).

Definition render_src (bpp pad : Z) (fb : list Z) (y : nat) : list Z :=
  mjoin ((fun x => render_byte bpp pad (aget 0 fb (64 * Z.of_nat y + Z.of_nat x))) <$> seq 0 64).

(** memcpy(dest, dest - n, n): append a copy of the last [n] bytes. *)
Definition repeat_tail (n : nat) (out : list Z) : list Z :=
  out ++ drop (length out - n) out.

Definition render_rows (bpp pad : Z) (fb : list Z) (dw : Z) (rows : list nat) (out : list Z) : list Z :=
  foldl (fun out y =>
    let out := out ++ render_src bpp pad fb y in
    Nat.iter 3 (repeat_tail (Z.to_nat (dw * 128 * MAGNIFY))) out) out rows.

Definition ssd0323_update_display (s : ssd0323_state) (bpp pad : Z) : option (list Z) * ssd0323_state :=
  if truth (redraw s) then
    match dest_width bpp with
    | None => (None, s)
    | Some dw => (Some (render_rows bpp pad (framebuffer s) dw (seq 0 64) []), s.[redraw := 0])
    end
  else (None, s).

(** ** The invariant: the cursor stays in the frame buffer *)

Record wf (s : ssd0323_state) : Prop := {
  wf_len : 0 <= cmd_len s <= 8; wf_data : length (cmd_data s) = 8%nat;
  wf_args : Forall (is_u 31) (cmd_data s);
  wf_row : 0 <= row s < 80; wf_row_start : 0 <= row_start s < 80; wf_row_end : 0 <= row_end s < 80;
  wf_col : 0 <= col s < 64; wf_col_start : 0 <= col_start s < 64; wf_col_end : 0 <= col_end s < 64;
  wf_fb : length (framebuffer s) = Z.to_nat 5120
}.

Lemma ssd_init_wf : wf ssd0323_init.
Proof.
  constructor; cbn [ssd0323_init ssd0323_zero cmd_len cmd_data row row_start row_end col col_start
    col_end framebuffer set_field]; try lia; try apply length_replicate.
  by apply Forall_replicate.
Qed.

Lemma advance_wf s : wf s -> wf (advance s).
Proof.
  intros []. unfold advance. destruct (remap s .&? REMAP_VERTICAL).
  - cbn [row row_end col col_end set_field].
    destruct (Z.gtb_spec (row s + 1) (row_end s)); cbn [col col_end set_field];
      match goal with |- context [?a >? ?b] => destruct (Z.gtb_spec a b) end;
      constructor; cbn [cmd_len cmd_data row row_start row_end col col_start col_end framebuffer set_field]; auto; lia.
  - cbn [row row_end col col_end set_field].
    destruct (Z.gtb_spec (col s + 1) (col_end s)); cbn [row row_end set_field];
      match goal with |- context [?a >? ?b] => destruct (Z.gtb_spec a b) end;
      constructor; cbn [cmd_len cmd_data row row_start row_end col col_start col_end framebuffer set_field]; auto; lia.
Qed.

Lemma data_wf s data : wf s -> wf (ssd0323_data s data).
Proof.
  intros []. unfold ssd0323_data.
  assert (wf (advance s.[framebuffer := aset (framebuffer s) (col s + row s * 64) (u8 data)])) as [].
  { apply advance_wf. constructor; cbn; auto. by rewrite length_aset. }
  by constructor.
Qed.

Lemma arg_rem l i m : Forall (is_u 31) l -> 0 < m -> 0 <= Z.rem (aget 0 l i) m < m.
Proof.
  intros Hl Hm. assert (is_u 31 (aget 0 l i)) as [Ha _].
  { apply Forall_aget; [by vm_compute|done]. }
  rewrite Z.rem_mod_nonneg by lia. by apply Z.mod_pos_bound.
Qed.

(** A command handler is applied to a complete command, whose length it resets. *)
Lemma DATA_wf s x k : x <= 8 -> wf s.[cmd_len := 0] -> 0 <= cmd_len s ->
  wf (k s).[cmd_len := 0] -> wf (DATA s x k).
Proof.
  intros Hx [] Hl Hk. unfold DATA. destruct (Z.leb_spec (cmd_len s) x); [|done].
  constructor; auto. lia.
Qed.

Lemma command_wf s data : wf s -> is_u 31 data -> wf (ssd0323_command s data).
Proof.
  intros Hw Hd. unfold ssd0323_command.
  assert (s32 data = data) as -> by (apply sN_small; destruct Hd; lia).
  set (s1 := if cmd_len s =? 0 then _ else _).
  assert (cmd_len s1 = cmd_len s /\ wf s1) as [El Hw1].
  { subst s1. destruct Hw. destruct (cmd_len s =? 0); split; try done; constructor; cbn; auto.
    - by rewrite length_aset.
    - by apply Forall_aset. }
  clearbody s1. set (s2 := s1.[cmd_len := _]).
  assert (wf s2.[cmd_len := 0]) as Hw2 by (destruct Hw1; constructor; cbn; auto; lia).
  assert (0 <= cmd_len s2) as Hl by (destruct Hw; cbn; lia).
  clearbody s2.
  repeat match goal with |- wf (if ?b then _ else _) => destruct b end; try done;
    apply DATA_wf; try done; try lia; unfold set_column, set_row, set_remap, ignore;
    pose proof Hw2 as []; constructor; cbn in *; auto;
    first [lia | by apply arg_rem].
Qed.

Lemma transfer_wf s data : wf s -> is_u 31 data -> wf (snd (ssd0323_transfer s data)).
Proof.
  intros. unfold ssd0323_transfer. destruct (mode s); cbn; [by apply command_wf|by apply data_wf|done].
Qed.

(** What reaches the display: words on the bus and the command/data line. *)
Inductive event := Transfer (data : Z) | Cd (level : Z) | Invalidate | Redraw (bpp pad : Z).

Definition exec (s : ssd0323_state) (e : event) : ssd0323_state :=
  match e with
  | Transfer data => snd (ssd0323_transfer s data)
  | Cd level => ssd0323_cd s 0 level
  | Invalidate => ssd0323_invalidate_display s
  | Redraw bpp pad => snd (ssd0323_update_display s bpp pad)
  end.
Definition word_ok (e : event) : Prop := match e with Transfer data => is_u 31 data | _ => True end.

Lemma ssd_exec_wf s e : wf s -> word_ok e -> wf (exec s e).
Proof.
  intros Hw He. pose proof Hw as []. destruct e; cbn [exec].
  - by apply transfer_wf.
  - by constructor.
  - by constructor.
  - unfold ssd0323_update_display. destruct (truth (redraw s)); [|done].
    destruct (dest_width bpp); [|done]. by constructor.
Qed.

(** C31.  Whatever words and line changes the display receives, its cursor stays inside
    the frame buffer and its argument count inside [cmd_data]: every store of
    [ssd0323_transfer] is in bounds.  The words are below 2^31; the controller
    sends 16-bit ones. *)
Theorem ssd_in_bounds es :
  Forall word_ok es ->
  let s := foldl exec ssd0323_init es in
  0 <= col s + row s * 64 < Z.of_nat (length (framebuffer s)) /\
  0 <= cmd_len s <= Z.of_nat (length (cmd_data s)).
Proof.
  intros Hes. cbn zeta.
  assert (wf (foldl exec ssd0323_init es)) as [].
  { generalize ssd_init_wf. generalize ssd0323_init. induction Hes; intros s Hs; [done|].
    apply IHHes. by apply ssd_exec_wf. }
  rewrite wf_fb0, wf_data0. lia.
Qed.

Lemma ssd_in_bounds_witness :
  let s := foldl exec ssd0323_init [Transfer 0x15; Transfer 1000; Transfer 7; Cd 1; Transfer 0x5a] in
  0 <= col s + row s * 64 < Z.of_nat (length (framebuffer s)) /\
  0 <= cmd_len s <= Z.of_nat (length (cmd_data s)).
Proof. apply ssd_in_bounds. repeat constructor; by vm_compute. Defined.

(** ** Filling a window *)

Definition send_data (s : ssd0323_state) (ds : list Z) : ssd0323_state := foldl ssd0323_data s ds.

(** A window selected by Set Column and Set Row, cursor at its first cell, in
    horizontal mode. *)
Record window (s : ssd0323_state) (cs ce rs re : Z) : Prop := {
  wi_wf : wf s; wi_h : (remap s .&? REMAP_VERTICAL) = false;
  wi_cs : col_start s = cs; wi_ce : col_end s = ce; wi_rs : row_start s = rs; wi_re : row_end s = re;
  wi_c : cs <= ce; wi_r : rs <= re
}.

Definition cell (cs ce rs re n : Z) : Z * Z :=
  (cs + n mod (ce - cs + 1), rs + (n / (ce - cs + 1)) mod (re - rs + 1)).
Definition cell_index (c : Z * Z) : Z := fst c + snd c * 64.

Lemma succ_div_mod n w : 0 < w -> 0 <= n ->
  ((n + 1) mod w = n mod w + 1 /\ (n + 1) / w = n / w /\ n mod w + 1 < w) \/
  ((n + 1) mod w = 0 /\ (n + 1) / w = n / w + 1 /\ n mod w + 1 = w).
Proof.
  intros Hw Hn. pose proof (Z.div_mod n w ltac:(lia)). pose proof (Z.mod_pos_bound n w Hw).
  destruct (Z.lt_ge_cases (n mod w + 1) w).
  - left. assert ((n + 1) / w = n / w) as E by (symmetry; apply Z.div_unique with (n mod w + 1); lia).
    split; [|done]. rewrite Z.mod_eq by lia. lia.
  - right. assert ((n + 1) / w = n / w + 1) as E by (symmetry; apply Z.div_unique with 0; lia).
    split; [|lia]. rewrite Z.mod_eq by lia. nia.
Qed.

Lemma advance_window s cs ce rs re n :
  window s cs ce rs re -> 0 <= n -> (col s, row s) = cell cs ce rs re n ->
  (col (advance s), row (advance s)) = cell cs ce rs re (n + 1).
Proof.
  intros [_ Hh E1 E2 E3 E4 Hc Hr] Hn Hcell. unfold cell in *. injection Hcell as Ec Er.
  pose proof (Z.mod_pos_bound (n / (ce - cs + 1)) (re - rs + 1) ltac:(lia)).
  unfold advance. rewrite Hh. cbn [row row_end col col_end col_start row_start set_field].
  destruct (succ_div_mod n (ce - cs + 1)) as [(A & B & C)|(A & B & C)]; [lia|done|..]; rewrite A, B.
  - destruct (Z.gtb_spec (col s + 1) (col_end s)); [lia|]. cbn [row row_end set_field].
    destruct (Z.gtb_spec (row s) (row_end s)); [lia|]. cbn [col row set_field]. f_equal; lia.
  - destruct (Z.gtb_spec (col s + 1) (col_end s)); [|lia]. cbn [row row_end set_field].
    assert (0 <= n / (ce - cs + 1)) by (apply Z.div_pos; lia).
    destruct (succ_div_mod (n / (ce - cs + 1)) (re - rs + 1)) as [(A' & _ & C')|(A' & _ & C')];
      [lia|done|..]; rewrite A'; destruct (Z.gtb_spec (row s + 1) (row_end s)); try lia;
      cbn [col row col_start row_start set_field]; f_equal; lia.
Qed.

Lemma advance_frame s :
  col_start (advance s) = col_start s /\ col_end (advance s) = col_end s /\
  row_start (advance s) = row_start s /\ row_end (advance s) = row_end s /\
  remap (advance s) = remap s /\ framebuffer (advance s) = framebuffer s.
Proof. unfold advance. repeat case_match; repeat split; reflexivity. Qed.

Lemma data_window s cs ce rs re d : window s cs ce rs re -> window (ssd0323_data s d) cs ce rs re.
Proof.
  intros [Hw Hh E1 E2 E3 E4 Hc Hr].
  constructor; try done; [by apply data_wf|..]; unfold ssd0323_data; cbn;
    destruct (advance_frame s.[framebuffer := aset (framebuffer s) (col s + row s * 64) (u8 d)])
      as (F1 & F2 & F3 & F4 & F5 & F6); cbn in *; congruence.
Qed.

Lemma data_step s cs ce rs re n d :
  window s cs ce rs re -> 0 <= n -> (col s, row s) = cell cs ce rs re n ->
  let s' := ssd0323_data s d in
  (col s', row s') = cell cs ce rs re (n + 1) /\
  framebuffer s' = aset (framebuffer s) (cell_index (cell cs ce rs re n)) (u8 d).
Proof.
  intros Hw Hn Hcell. unfold ssd0323_data. cbn.
  set (x := s.[framebuffer := _]).
  assert (window x cs ce rs re) as Hx.
  { destruct Hw as [[] ? ? ? ? ? ? ?]. constructor; try done. constructor; cbn; auto. by rewrite length_aset. }
  split; [by apply (advance_window x)|].
  destruct (advance_frame x) as (_ & _ & _ & _ & _ & ->).
  rewrite <- Hcell. done.
Qed.

Lemma cell_inj cs ce rs re m n :
  0 <= cs <= ce -> ce < 64 -> rs <= re ->
  0 <= m < (ce - cs + 1) * (re - rs + 1) -> 0 <= n < (ce - cs + 1) * (re - rs + 1) ->
  cell_index (cell cs ce rs re m) = cell_index (cell cs ce rs re n) -> m = n.
Proof.
  intros Hc Hce Hr Hm Hn. unfold cell_index, cell. cbn.
  set (w := ce - cs + 1) in *. set (h := re - rs + 1) in *.
  pose proof (Z.mod_pos_bound m w ltac:(lia)). pose proof (Z.mod_pos_bound n w ltac:(lia)).
  assert (0 <= m / w < h) by (split; [apply Z.div_pos; lia|apply Z.div_lt_upper_bound; lia]).
  assert (0 <= n / w < h) by (split; [apply Z.div_pos; lia|apply Z.div_lt_upper_bound; lia]).
  rewrite (Z.mod_small (m / w)), (Z.mod_small (n / w)) by lia. intros E.
  assert (m / w = n / w) as Eq by lia. assert (m mod w = n mod w) as Em by lia.
  rewrite (Z.div_mod m w), (Z.div_mod n w), Eq, Em by lia. done.
Qed.

Lemma cell_nonneg cs ce rs re n : 0 <= cs <= ce -> 0 <= rs <= re ->
  0 <= cell_index (cell cs ce rs re n).
Proof.
  intros Hc Hr. unfold cell_index, cell. cbn.
  pose proof (Z.mod_pos_bound n (ce - cs + 1) ltac:(lia)).
  pose proof (Z.mod_pos_bound (n / (ce - cs + 1)) (re - rs + 1) ltac:(lia)). lia.
Qed.

Lemma send_window_inv ds s cs ce rs re :
  window s cs ce rs re -> window (foldl ssd0323_data s ds) cs ce rs re.
Proof. revert s. induction ds; intros s Hw; [done|]. apply IHds. by apply data_window. Qed.

(** After [length ds] data bytes: the cursor and the frame buffer. *)
Lemma send_window ds : forall s cs ce rs re,
  window s cs ce rs re -> col s = cs -> row s = rs ->
  Z.of_nat (length ds) <= (ce - cs + 1) * (re - rs + 1) ->
  let s' := send_data s ds in
  (col s', row s') = cell cs ce rs re (Z.of_nat (length ds)) /\
  (forall m d, ds !! m = Some d ->
     aget 0 (framebuffer s') (cell_index (cell cs ce rs re (Z.of_nat m))) = u8 d) /\
  (forall i, 0 <= i ->
     (forall m, 0 <= m < Z.of_nat (length ds) -> i <> cell_index (cell cs ce rs re m)) ->
     aget 0 (framebuffer s') i = aget 0 (framebuffer s) i).
Proof.
  induction ds as [|d ds IH] using rev_ind; intros s cs ce rs re Hw Hc Hr Hlen.
  - destruct Hw. cbn. split; [|done]. unfold cell. rewrite Z.mod_0_l, Z.div_0_l, Z.mod_0_l by lia.
    f_equal; lia.
  - rewrite length_app in *. cbn [length] in *. rewrite Nat2Z.inj_add in *.
    destruct (IH s cs ce rs re) as (I1 & I2 & I3); auto; [lia|]. clear IH.
    unfold send_data in *. rewrite foldl_app. cbn [foldl].
    set (x := foldl ssd0323_data s ds) in *.
    assert (window x cs ce rs re) as Hx by by apply send_window_inv.
    destruct (data_step x cs ce rs re (Z.of_nat (length ds)) d) as [D1 D2]; auto; [lia|].
    set (idx := cell_index (cell cs ce rs re (Z.of_nat (length ds)))) in *.
    assert (0 <= idx < Z.of_nat (length (framebuffer x))) as Hidx.
    { subst idx. rewrite <- I1. destruct Hx as [[]]. unfold cell_index. cbn. rewrite wf_fb0. lia. }
    split; [done|]. rewrite D2. split.
    + intros m d' Hm. apply lookup_app_Some in Hm as [Hm|[Hge Hm]].
      * pose proof (lookup_lt_Some _ _ _ Hm). rewrite aget_aset_ne; [by apply I2| |lia|].
        -- intros E. apply cell_inj in E; [lia|..]; destruct Hw as [[] ? ? ? ? ? ? ?]; lia.
        -- apply cell_nonneg; destruct Hw as [[] ? ? ? ? ? ? ?]; lia.
      * apply list_lookup_singleton_Some in Hm as [Hz <-].
        replace (Z.of_nat m) with (Z.of_nat (length ds)) by lia. by apply aget_aset_eq.
    + intros i Hi Hne. rewrite aget_aset_ne; [|by intros <-; eapply Hne; [|done]; lia|lia|lia].
      apply I3; [done|]. intros m Hm. apply Hne. lia.
Qed.

(** C32.  Sending as many bytes as the selected window has cells fills the window in
    raster order: byte number [m] lands in column [cs + m mod w] of row
    [rs + m / w], every cell outside the window keeps its value, and the cursor
    is back at the first cell. *)
Theorem window_fill s cs ce rs re ds :
  window s cs ce rs re -> col s = cs -> row s = rs ->
  Z.of_nat (length ds) = (ce - cs + 1) * (re - rs + 1) ->
  let s' := send_data s ds in
  (forall m d, ds !! m = Some d ->
     aget 0 (framebuffer s') (cell_index (cell cs ce rs re (Z.of_nat m))) = u8 d) /\
  (forall i, 0 <= i ->
     (forall m, 0 <= m < Z.of_nat (length ds) -> i <> cell_index (cell cs ce rs re m)) ->
     aget 0 (framebuffer s') i = aget 0 (framebuffer s) i) /\
  col s' = cs /\ row s' = rs.
Proof.
  intros Hw Hc Hr Hlen.
  destruct (send_window ds s cs ce rs re) as (H1 & H2 & H3); auto; [lia|].
  split; [done|]. split; [done|].
  destruct Hw as [_ _ _ _ _ _ Hcc Hrr].
  rewrite Hlen in H1. unfold cell in H1.
  rewrite (Z.mul_comm (ce - cs + 1)), Z.mod_mul, Z.div_mul, Z.mod_same in H1 by lia.
  injection H1 as E1 E2. split; unfold send_data in *; lia.
Qed.

(** Columns 10 and 11 of rows 5 and 6. *)
Definition demo_window : ssd0323_state :=
  ssd0323_init.[mode := SSD0323_DATA].[col_start := 10].[col_end := 11].[col := 10]
    .[row_start := 5].[row_end := 6].[row := 5].

Lemma window_fill_witness :
  aget 0 (framebuffer (send_data demo_window [1; 2; 3; 4])) (10 + 6 * 64) = 3.
Proof.
  refine (proj1 (window_fill demo_window 10 11 5 6 [1; 2; 3; 4] _ _ _ _) 2%nat 3 _); try done.
  pose proof ssd_init_wf as []. by constructor.
Defined.

(** ** Rendering *)

Lemma mjoin_cons {A} (l : list A) ls : mjoin (l :: ls) = l ++ mjoin ls.
Proof. done. Qed.

Lemma block_lookup {A} (n : nat) (ls : list (list A)) i b :
  Forall (fun l => length l = n) ls -> ls !! i = Some b ->
  take n (drop (i * n) (mjoin ls)) = b.
Proof.
  revert i. induction ls as [|l ls IH]; intros i Hls Hi; [done|].
  apply Forall_cons_1 in Hls as [Hl Hls]. rewrite mjoin_cons.
  destruct i as [|i].
  - injection Hi as ->. by rewrite Nat.mul_0_l, drop_0, take_app_length'.
  - rewrite <- (IH i Hls Hi). f_equal. rewrite Nat.mul_succ_l, Nat.add_comm, <- drop_drop.
    by rewrite drop_app_length'.
Qed.

(** A slice inside a slice. *)
Lemma sub_block {A} (l : list A) a m b n :
  (b + n <= m)%nat -> take n (drop (a + b) l) = take n (drop b (take m (drop a l))).
Proof.
  intros Hm. rewrite <- drop_drop. replace m with (b + (m - b))%nat by lia.
  rewrite <- take_drop_commute, take_take. by rewrite Nat.min_l by lia.
Qed.

Lemma length_mjoin_const {A} (n : nat) (ls : list (list A)) :
  Forall (fun l => length l = n) ls -> length (mjoin ls) = (length ls * n)%nat.
Proof.
  induction 1 as [|l ls Hl Hls IH]; [done|]. rewrite mjoin_cons.
  rewrite length_app, IH, Hl. cbn. lia.
Qed.

Lemma color_length bpp pad i dw : dest_width bpp = Some dw -> length (color bpp pad i) = Z.to_nat dw.
Proof.
  unfold dest_width, color. intros H. repeat case_match; simplify_eq; done.
Qed.

(** The grey level of pixel column [x] (two per byte) on display line [y]. *)
Definition pixel (fb : list Z) (x y : nat) : Z :=
  let b := aget 0 fb (64 * Z.of_nat y + Z.of_nat (x / 2)) in
  if Nat.even x then b .>> 4 else b .& 0xf.

Section Render.
Context (bpp pad dw : Z) (fb : list Z) (Hdw : dest_width bpp = Some dw).
Abbreviation n := (Z.to_nat dw).

Lemma render_byte_blocks src :
  render_byte bpp pad src =
    mjoin (replicate 4 (color bpp pad (src .>> 4)) ++ replicate 4 (color bpp pad (src .& 0xf))).
Proof. unfold render_byte. by rewrite join_app. Qed.

Lemma color_blocks i j :
  Forall (fun l => length l = n) (replicate 4 (color bpp pad i) ++ replicate 4 (color bpp pad j)).
Proof. apply Forall_app. split; apply Forall_replicate; by apply color_length. Qed.

Lemma render_byte_length src : length (render_byte bpp pad src) = (8 * n)%nat.
Proof. rewrite render_byte_blocks. by rewrite (length_mjoin_const n) by apply color_blocks. Qed.

Lemma render_src_blocks y :
  Forall (fun l => length l = (8 * n)%nat)
    ((fun x => render_byte bpp pad (aget 0 fb (64 * Z.of_nat y + Z.of_nat x))) <$> seq 0 64).
Proof. apply Forall_fmap, Forall_true. intros x. apply render_byte_length. Qed.

Lemma render_src_length y : length (render_src bpp pad fb y) = (512 * n)%nat.
Proof.
  unfold render_src. rewrite (length_mjoin_const (8 * n)) by apply render_src_blocks.
  rewrite length_fmap, length_seq. lia.
Qed.

(** Pixel [X] of a rendered line. *)
Lemma render_src_pixel y X : (X < 512)%nat ->
  take n (drop (X * n) (render_src bpp pad fb y)) = color bpp pad (pixel fb (X / 4) y).
Proof.
  intros HX. pose proof (Nat.div_mod X 8 ltac:(lia)) as Ed.
  pose proof (Nat.mod_upper_bound X 8 ltac:(lia)) as Hk.
  set (x := (X / 8)%nat) in *. set (k := (X mod 8)%nat) in *.
  assert (x < 64)%nat by (apply Nat.Div0.div_lt_upper_bound; lia).
  replace (X * n)%nat with (x * (8 * n) + k * n)%nat by nia.
  rewrite (sub_block _ _ (8 * n)) by nia.
  unfold render_src. erewrite (block_lookup (8 * n)); [|apply render_src_blocks|].
  2: { rewrite list_lookup_fmap, lookup_seq_lt by lia. done. }
  rewrite render_byte_blocks. unfold pixel.
  replace (X / 4 / 2)%nat with x by (rewrite Nat.Div0.div_div; done).
  erewrite (block_lookup n); [done|apply color_blocks|].
  assert (X / 4 = 2 * x + k / 4)%nat as ->.
  { rewrite Ed. replace (8 * x + k)%nat with (2 * x * 4 + k)%nat by lia.
    rewrite Nat.div_add_l by lia. lia. }
  rewrite Nat.even_add, Nat.even_mul. cbn [Nat.even orb].
  clearbody k x. clear HX Ed. do 8 (destruct k as [|k]; [reflexivity|]). lia.
Qed.

Lemma repeat_tail_line out line : repeat_tail (length line) (out ++ line) = (out ++ line) ++ line.
Proof.
  unfold repeat_tail. rewrite length_app. replace (length out + length line - length line)%nat
    with (length out) by lia. by rewrite drop_app_length.
Qed.

Lemma render_rows_blocks rows : forall out,
  render_rows bpp pad fb dw rows out =
    out ++ mjoin (mjoin ((fun y => replicate 4 (render_src bpp pad fb y)) <$> rows)).
Proof.
  induction rows as [|y rows IH]; intros out; [by rewrite app_nil_r|].
  unfold render_rows in *. cbn [foldl]. rewrite IH, fmap_cons, mjoin_cons, join_app.
  replace (Z.to_nat (dw * 128 * MAGNIFY)) with (length (render_src bpp pad fb y))
    by (rewrite render_src_length; unfold MAGNIFY; lia).
  cbn [Nat.iter nat_rect replicate]. rewrite repeat_tail_line.
  rewrite (repeat_tail_line (out ++ _)), (repeat_tail_line ((out ++ _) ++ _)).
  rewrite !mjoin_cons. change (mjoin []) with (@nil Z). by rewrite app_nil_r, !app_assoc.
Qed.

Lemma line_blocks rows :
  Forall (fun l => length l = (512 * n)%nat)
    (mjoin ((fun y => replicate 4 (render_src bpp pad fb y)) <$> rows)).
Proof.
  induction rows as [|y rows IH]; [by constructor|]. rewrite fmap_cons, mjoin_cons.
  apply Forall_app. split; [|done]. apply Forall_replicate, render_src_length.
Qed.

(** Output line [Y] is display line [Y / 4]. *)
Lemma line_lookup Y : (Y < 256)%nat ->
  mjoin ((fun y => replicate 4 (render_src bpp pad fb y)) <$> seq 0 64) !! Y =
    Some (render_src bpp pad fb (Y / 4)).
Proof.
  intros HY. set (ls := (fun y => replicate 4 (render_src bpp pad fb y)) <$> seq 0 64).
  assert (Forall (fun l => length l = 4%nat) ls) as Hls.
  { apply Forall_fmap, Forall_true. intros y. apply length_replicate. }
  pose proof (Nat.div_mod Y 4 ltac:(lia)). pose proof (Nat.mod_upper_bound Y 4 ltac:(lia)).
  assert (ls !! (Y / 4)%nat = Some (replicate 4 (render_src bpp pad fb (Y / 4)))) as Hl.
  { subst ls. rewrite list_lookup_fmap, lookup_seq_lt; [done|]. apply Nat.Div0.div_lt_upper_bound. lia. }
  pose proof (block_lookup 4 ls _ _ Hls Hl) as Hb.
  assert (take 4 (drop (Y / 4 * 4) (mjoin ls)) !! (Y mod 4)%nat = Some (render_src bpp pad fb (Y / 4))) as E.
  { rewrite Hb. by apply lookup_replicate_2. }
  rewrite lookup_take_lt, lookup_drop in E by lia. rewrite <- E. f_equal. lia.
Qed.

(** The surface: 256 lines of 512 pixels. *)
Lemma surface_length : length (render_rows bpp pad fb dw (seq 0 64) []) = (256 * (512 * n))%nat.
Proof.
  rewrite render_rows_blocks, app_nil_l, (length_mjoin_const (512 * n)) by apply line_blocks.
  done.
Qed.

Lemma surface_pixel X Y : (X < 512)%nat -> (Y < 256)%nat ->
  take n (drop ((Y * 512 + X) * n) (render_rows bpp pad fb dw (seq 0 64) [])) =
    color bpp pad (pixel fb (X / 4) (Y / 4)).
Proof.
  intros HX HY. rewrite render_rows_blocks, app_nil_l.
  replace ((Y * 512 + X) * n)%nat with (Y * (512 * n) + X * n)%nat by lia.
  rewrite (sub_block _ _ (512 * n)) by nia.
  erewrite (block_lookup (512 * n)); [|apply line_blocks|by apply line_lookup].
  by apply render_src_pixel.
Qed.
End Render.

(**  A redraw writes exactly the 512 by 256 surface, and its pixel [(X, Y)]
    has the colour of display pixel [(X / 4, Y / 4)]: the high nibble of the
    frame-buffer byte for even columns, the low one for odd columns.  The rows
    past 63 of the frame buffer are never shown, and the remap register has no
    effect on what is shown. *)
Theorem display_pixel s bpp pad dw :
  redraw s <> 0 -> dest_width bpp = Some dw ->
  exists out, ssd0323_update_display s bpp pad = (Some out, s.[redraw := 0]) /\
    length out = (256 * (512 * Z.to_nat dw))%nat /\
    forall X Y, (X < 512)%nat -> (Y < 256)%nat ->
      take (Z.to_nat dw) (drop ((Y * 512 + X) * Z.to_nat dw) out) =
        color bpp pad (pixel (framebuffer s) (X / 4) (Y / 4)).
Proof.
  intros Hr Hdw. exists (render_rows bpp pad (framebuffer s) dw (seq 0 64) []).
  unfold ssd0323_update_display. apply truth_true in Hr. rewrite Hr, Hdw.
  split; [done|]. split; [by apply (surface_length bpp)|]. intros X Y HX HY. by apply surface_pixel.
Qed.

Lemma display_pixel_witness :
  exists out, fst (ssd0323_update_display (ssd0323_data ssd0323_init 0x5a) 24 0) = Some out /\
    take 3 (drop (4 * 3) out) = [0xaa; 0xaa; 0xaa].
Proof.
  destruct (display_pixel (ssd0323_data ssd0323_init 0x5a) 24 0 3) as (out & E & _ & P);
    [done|done|].
  exists out. rewrite E. split; [done|]. exact (P 4%nat 0%nat ltac:(lia) ltac:(lia)).
Defined.
End Ssd0323.
