(* ===== verification/Spi.v ===== *)
(** * The SPI controller of the SAM3 (hw/spi/spi_atmel.c)

    The registers, two eight-entry FIFOs and the serial bus behind them.  A
    write to TDR only stores the word; the exchange with the bus happens in
    [spi_transmit], which a read of TDR starts. *)

From S2P Require Import Prelude Irq Ssi.

Module Spi.

Definition SPI_SPIEN := 0x1.
Definition SPI_LLB := 1 .<< 7.
Definition SPI_RDRF := 0x1.
Definition SPI_TDRE := 1 .<< 1.
Definition SPI_RXBUFF := 1 .<< 6.
Definition SPI_TXBUFE := 1 .<< 7.
Definition SPI_TXEMPTY := 1 .<< 9.
Definition SPI_SPIENS := 1 .<< 16.

Section Spi.
Context {D : Type} `{!Ssi.SSISlaveClass D}.

Record spi_state := mkSpi {
  cr : Z; mr : Z; rdr : Z; tdr : Z; sr : Z; ier : Z; idr : Z; imr : Z;
  csr : list Z; wpmr : Z; wpsr : Z;
  tx_fifo_head : Z; rx_fifo_head : Z; tx_fifo_len : Z; rx_fifo_len : Z;
  tx_fifo : list Z; rx_fifo : list Z;
  dbg_s : bool; irq : Irq.line_log; ssi : list (Ssi.SSISlave D)
}.
#[export] Instance eta_spi : RecEta spi_state := fun s =>
  mkSpi (cr s) (mr s) (rdr s) (tdr s) (sr s) (ier s) (idr s) (imr s) (csr s) (wpmr s) (wpsr s)
    (tx_fifo_head s) (rx_fifo_head s) (tx_fifo_len s) (rx_fifo_len s) (tx_fifo s) (rx_fifo s)
    (dbg_s s) (irq s) (ssi s).

Definition spi_id : list Z := [0x22; 0x10; 0x04; 0x00; 0x0d; 0xf0; 0x05; 0xb1].

(** [sr |= m] or [sr &= ~m]. *)
Definition set_sr (s : spi_state) (m : Z) : spi_state := s.[sr := sr s .| m].
Definition clear_sr (s : spi_state) (m : Z) : spi_state := s.[sr := sr s .& not32 m].

Definition spi_update (s : spi_state) : spi_state :=
  let s := if tx_fifo_len s =? 0 then set_sr s SPI_TXBUFE else clear_sr s SPI_TXBUFE in
  let s := if rx_fifo_len s =? 8 then set_sr s SPI_RXBUFF else clear_sr s SPI_RXBUFF in
  let s := if (cr s .& 0x1 =? 1) && (cr s .& 0x2 =? 0) then set_sr s SPI_SPIENS else s in
  let s := s.[ier := 0] in
  let s := if 4 <=? rx_fifo_len s then s.[ier := ier s .| SPI_RXBUFF] else s in
  let s := if tx_fifo_len s <=? 4 then s.[ier := ier s .| SPI_TXBUFE] else s in
  s.[irq := Irq.drive (irq s) (b2z (not32 (idr s) .& ier s .&? imr s))].

(** The first half of [spi_transmit]: queue the word if there is room. *)
Definition tx_enqueue (s : spi_state) (value : Z) : spi_state :=
  if tx_fifo_len s <? 8 then
    let s := s.[tx_fifo := aset (tx_fifo s) (tx_fifo_head s) (u16 value)] in
    let s := clear_sr s SPI_TXEMPTY in
    let s := s.[tx_fifo_head := (tx_fifo_head s + 1) .& 7] in
    let s := s.[tx_fifo_len := tx_fifo_len s + 1] in
    spi_update s
  else s.

(** Its exchange of the oldest queued word, and the new value of [o]. *)
Definition tx_exchange (s : spi_state) (value : Z) : spi_state * Z :=
  let i := (tx_fifo_head s - tx_fifo_len s) .& 7 in
  let o := rx_fifo_len s in
  if truth (tx_fifo_len s) && (rx_fifo_len s <? 8) then
    let val := aget 0 (tx_fifo s) i in
    let '(val, s) :=
      if mr s .&? SPI_LLB then (val, s.[rdr := u32 value])
      else let '(r, bus) := Ssi.ssi_transfer (ssi s) val in (r, s.[ssi := bus]) in
    let s := s.[tx_fifo_len := tx_fifo_len s - 1] in
    let s := s.[rx_fifo := aset (rx_fifo s) o (val .& 0xffff)] in
    let s := set_sr s SPI_RDRF in
    (s.[rx_fifo_len := rx_fifo_len s + 1], (o + 1) .& 7)
  else (s, o).

Definition spi_transmit (s : spi_state) (value : Z) : spi_state :=
  let s := tx_enqueue s value in
  if cr s .& SPI_SPIEN =? 0 then spi_update s
  else
    let '(s, o) := tx_exchange s value in
    let s := s.[rx_fifo_head := o] in
    let s := set_sr s SPI_TXEMPTY in
    let s := set_sr s SPI_RDRF in
    spi_update s.

Definition spi_receive (s : spi_state) : Z * spi_state :=
  if mr s .&? SPI_LLB then
    let val := u16 (rdr s) in
    let s := spi_update (clear_sr s SPI_RDRF) in
    (val, s.[tdr := 0].[rdr := 0])
  else
    let '(val, s) :=
      if 0 <? rx_fifo_len s
      then (aget 0 (rx_fifo s) ((rx_fifo_head s - rx_fifo_len s) .& 7),
            s.[rx_fifo_len := rx_fifo_len s - 1])
      else (0, s) in
    (val, spi_update (clear_sr s SPI_RDRF)).

(** Not called: its callers are commented out. *)
Definition spi_xfer (s : spi_state) (value : Z) : spi_state :=
  let s := set_sr (clear_sr (clear_sr s SPI_TXEMPTY) SPI_TDRE) SPI_RDRF in
  s.[rx_fifo := aset (rx_fifo s) 0 (u16 value)].

Definition spi_dbgUpdate (s : spi_state) : spi_state :=
  if dbg_s s then s.[dbg_s := false] else s.

(** The identification bytes at 0xfe0. *)
Definition in_id (offset : Z) : bool := (0xfe0 <=? offset) && (offset <? 0x1000).
Definition id_byte (offset : Z) : Z := aget 0 spi_id ((offset - 0xfe0) .>> 2).

Definition spi_read (s : spi_state) (offset : Z) : Z * spi_state :=
  if in_id offset then (id_byte offset, s)
  else if offset =? 0x04 then (mr s, s)
  else if offset =? 0x08 then spi_receive s
  else if offset =? 0x0c then
    let s := set_sr s SPI_TDRE in
    let val := s32 (tdr s) in
    let s := spi_transmit s (u64 val) in
    (u32 val, s)
  else if offset =? 0x10 then (sr s, s)
  else if offset =? 0x1c then (imr s, s)
  else if offset =? 0x30 then (aget 0 (csr s) 0, s)
  else if offset =? 0x34 then (aget 0 (csr s) 1, s)
  else if offset =? 0x38 then (aget 0 (csr s) 2, s)
  else if offset =? 0x3c then (aget 0 (csr s) 3, s)
  else if offset =? 0xe4 then (wpmr s, s)
  else if offset =? 0xe8 then (wpsr s, s)
  else (0, s).

Definition spi_read_dbg (s : spi_state) (offset : Z) : Z :=
  if in_id offset then id_byte offset
  else if offset =? 0x00 then cr s
  else if offset =? 0x04 then mr s
  else if offset =? 0x08 then rdr s
  else if offset =? 0x0c then tdr s
  else if offset =? 0x10 then sr s
  else if offset =? 0x14 then ier s
  else if offset =? 0x18 then idr s
  else if offset =? 0x1c then imr s
  else if offset =? 0x30 then aget 0 (csr s) 0
  else if offset =? 0x34 then aget 0 (csr s) 1
  else if offset =? 0x38 then aget 0 (csr s) 2
  else if offset =? 0x3c then aget 0 (csr s) 3
  else if offset =? 0xe4 then wpmr s
  else if offset =? 0xe8 then wpsr s
  else 0.

Definition spi_write (s : spi_state) (offset value : Z) : spi_state :=
  if offset =? 0x00 then spi_update s.[cr := u32 value]
  else if offset =? 0x04 then s.[mr := u32 value]
  else if offset =? 0x0c then (clear_sr s SPI_TDRE).[tdr := u32 value]
  else if offset =? 0x14 then spi_update s.[ier := u32 value]
  else if offset =? 0x18 then spi_update s.[idr := u32 value]
  else if offset =? 0x30 then s.[csr := aset (csr s) 0 (u32 value)]
  else if offset =? 0x34 then s.[csr := aset (csr s) 1 (u32 value)]
  else if offset =? 0x38 then s.[csr := aset (csr s) 2 (u32 value)]
  else if offset =? 0x3c then s.[csr := aset (csr s) 3 (u32 value)]
  else if offset =? 0xe4 then s.[wpmr := u32 value]
  else s.

(** The debugger's write; case 0x1c has no [break]. *)
Definition spi_write_dbg (s : spi_state) (offset value : Z) : spi_state :=
  let s := s.[dbg_s := true] in
  let csr0 (s : spi_state) := s.[csr := aset (csr s) 0 (u32 value)] in
  if offset =? 0x00 then s.[cr := u32 value]
  else if offset =? 0x04 then s.[mr := u32 value]
  else if offset =? 0x08 then s.[rdr := u32 value]
  else if offset =? 0x0c then s.[tdr := u32 value]
  else if offset =? 0x14 then s.[ier := u32 value]
  else if offset =? 0x18 then s.[idr := u32 value]
  else if offset =? 0x1c then csr0 s.[imr := u32 value]
  else if offset =? 0x30 then csr0 s
  else if offset =? 0x34 then s.[csr := aset (csr s) 1 (u32 value)]
  else if offset =? 0x38 then s.[csr := aset (csr s) 2 (u32 value)]
  else if offset =? 0x3c then s.[csr := aset (csr s) 3 (u32 value)]
  else if offset =? 0xe4 then s.[wpmr := u32 value]
  else s.

Definition spi_reset (s : spi_state) : spi_state :=
  let s := s.[rx_fifo_len := 0].[tx_fifo_len := 0].[imr := 0x7ff].[ier := 0] in
  let s := set_sr s (SPI_TXEMPTY .| SPI_TXBUFE .| SPI_RXBUFF) in
  s.[cr := 0].

(** [spi_init] on a zeroed object; the bus is created here and populated by the board. *)
Definition spi_init (bus : list (Ssi.SSISlave D)) : spi_state :=
  spi_reset (mkSpi 0 0 0 0 0 0 0 0 (replicate 4 0) 0 0 0 0 0 0 (replicate 8 0) (replicate 8 0)
    false [] bus).

Inductive event :=
| Read (offset : Z) | Write (offset value : Z)
| WriteDbg (offset value : Z) | DbgUpdate.

Definition exec (e : event) (s : spi_state) : spi_state :=
  match e with
  | Read offset => snd (spi_read s offset)
  | Write offset value => spi_write s offset value
  | WriteDbg offset value => spi_write_dbg s offset value
  | DbgUpdate => spi_dbgUpdate s
  end.
Definition run (es : list event) (s : spi_state) : spi_state := foldl (fun s e => exec e s) s es.

(** ** What one update computes *)

Definition upd_sr (s : spi_state) : Z :=
  let x := if tx_fifo_len s =? 0 then sr s .| SPI_TXBUFE else sr s .& not32 SPI_TXBUFE in
  let x := if rx_fifo_len s =? 8 then x .| SPI_RXBUFF else x .& not32 SPI_RXBUFF in
  if (cr s .& 0x1 =? 1) && (cr s .& 0x2 =? 0) then x .| SPI_SPIENS else x.
Definition upd_ier (s : spi_state) : Z :=
  (if 4 <=? rx_fifo_len s then SPI_RXBUFF else 0) .|
  (if tx_fifo_len s <=? 4 then SPI_TXBUFE else 0).
Definition line (s : spi_state) : bool := not32 (idr s) .& upd_ier s .&? imr s.

Lemma spi_update_spec s :
  spi_update s =
    s.[sr := upd_sr s].[ier := upd_ier s].[irq := Irq.drive (irq s) (b2z (line s))].
Proof.
  unfold spi_update, line, upd_sr, upd_ier, set_sr, clear_sr.
  destruct (tx_fifo_len s =? 0); cbn; destruct (rx_fifo_len s =? 8); cbn;
    destruct (_ && _); cbn; destruct (4 <=? rx_fifo_len s); cbn;
    destruct (tx_fifo_len s <=? 4); cbn; done.
Qed.

(** ** The invariant *)

Record wf (s : spi_state) : Prop := {
  wf_tx : length (tx_fifo s) = 8%nat; wf_rx : length (rx_fifo s) = 8%nat;
  wf_txl : 0 <= tx_fifo_len s <= 8; wf_rxl : 0 <= rx_fifo_len s <= 8;
  wf_txh : 0 <= tx_fifo_head s < 8; wf_rxh : 0 <= rx_fifo_head s <= 8;
  wf_txw : Forall (is_u 16) (tx_fifo s); wf_rxw : Forall (is_u 16) (rx_fifo s);
  wf_cr : is_u 32 (cr s); wf_mr : is_u 32 (mr s); wf_rdr : is_u 32 (rdr s);
  wf_tdr : is_u 32 (tdr s); wf_sr : is_u 32 (sr s); wf_ier : is_u 32 (ier s);
  wf_idr : is_u 32 (idr s); wf_imr : is_u 32 (imr s);
  wf_csr : length (csr s) = 4%nat; wf_csrw : Forall (is_u 32) (csr s)
}.

Lemma land7 x : x .& 7 = x mod 8.
Proof. exact (Z.land_ones x 3 ltac:(lia)). Qed.

Lemma land7_bound x : 0 <= x .& 7 < 8.
Proof. rewrite land7. by apply Z.mod_pos_bound. Qed.

Lemma upd_sr_u s : is_u 32 (sr s) -> is_u 32 (upd_sr s).
Proof. intros. unfold upd_sr. repeat case_match; auto 10 with cint. Qed.
Lemma upd_ier_u s : is_u 32 (upd_ier s).
Proof. unfold upd_ier. repeat case_match; by vm_compute. Qed.

Lemma spi_update_wf s : wf s -> wf (spi_update s).
Proof.
  intros []. rewrite spi_update_spec. constructor; cbn; auto using upd_sr_u, upd_ier_u.
Qed.

#[local] Hint Resolve Forall_aset : cint.
#[local] Hint Extern 1 (length (aset _ _ _) = _) => (rewrite length_aset) : cint.

Lemma tx_enqueue_wf s v : wf s -> wf (tx_enqueue s v).
Proof.
  intros Hw. unfold tx_enqueue. destruct (Z.ltb_spec (tx_fifo_len s) 8); [|done].
  destruct Hw. apply spi_update_wf. constructor; cbn; rewrite ?length_aset; auto using land7_bound with cint; lia.
Qed.

Lemma tx_exchange_wf s v : wf s ->
  wf (fst (tx_exchange s v)) /\ 0 <= snd (tx_exchange s v) <= 8.
Proof.
  intros Hw. unfold tx_exchange. destruct (truth (tx_fifo_len s)) eqn:Ht; cbn [andb];
    [|split; [done|destruct Hw; cbn; lia]].
  apply truth_true in Ht. destruct (Z.ltb_spec (rx_fifo_len s) 8);
    [|split; [done|destruct Hw; cbn; lia]].
  destruct Hw. destruct (mr s .&? SPI_LLB).
  - split; [|cbn; pose proof (land7_bound (rx_fifo_len s + 1)); lia].
    constructor; cbn; rewrite ?length_aset; auto 7 with cint; lia.
  - destruct (Ssi.ssi_transfer _ _) as [r bus]. split; [|cbn; pose proof (land7_bound (rx_fifo_len s + 1)); lia].
    constructor; cbn; rewrite ?length_aset; auto 7 with cint; lia.
Qed.

Lemma spi_transmit_wf s v : wf s -> wf (spi_transmit s v).
Proof.
  intros Hw. apply (tx_enqueue_wf _ v) in Hw. unfold spi_transmit.
  set (x := tx_enqueue s v) in *. clearbody x. destruct (_ =? 0); [by apply spi_update_wf|].
  destruct (tx_exchange_wf x v Hw) as [[] Ho]. destruct (tx_exchange x v) as [y o]. cbn in *.
  apply spi_update_wf. constructor; cbn; auto with cint.
Qed.

Lemma clear_sr_wf s m : wf s -> wf (clear_sr s m).
Proof. intros []. constructor; cbn; auto with cint. Qed.

Lemma loopback_clear_wf s : wf s -> wf s.[tdr := 0].[rdr := 0].
Proof. intros []. constructor; cbn; auto with cint. Qed.

Lemma rx_pop_wf s : wf s -> 0 < rx_fifo_len s -> wf s.[rx_fifo_len := rx_fifo_len s - 1].
Proof. intros [] ?. constructor; cbn; auto; lia. Qed.

Lemma spi_receive_wf s : wf s -> wf (snd (spi_receive s)).
Proof.
  intros Hw. unfold spi_receive. destruct (mr s .&? SPI_LLB); cbn [snd].
  - by apply loopback_clear_wf, spi_update_wf, clear_sr_wf.
  - destruct (Z.ltb_spec 0 (rx_fifo_len s)); cbn [snd]; apply spi_update_wf, clear_sr_wf;
      [by apply rx_pop_wf|done].
Qed.

Lemma spi_exec_wf e s : wf s -> wf (exec e s).
Proof.
  intros Hw. destruct e as [o|o v|o v|]; cbn [exec].
  - unfold spi_read. destruct (in_id o); [done|]. destruct (o =? 0x04); [done|].
    destruct (o =? 0x08); [by apply spi_receive_wf|].
    destruct (o =? 0x0c); [|by repeat case_match].
    apply spi_transmit_wf. destruct Hw. constructor; cbn; auto with cint.
  - unfold spi_write. pose proof Hw as [].
    repeat match goal with |- wf (if ?b then _ else _) => destruct b end; try done;
      try apply spi_update_wf; constructor; cbn; rewrite ?length_aset; auto with cint.
  - unfold spi_write_dbg. pose proof Hw as [].
    repeat match goal with |- wf (if ?b then _ else _) => destruct b end;
      constructor; cbn; rewrite ?length_aset; auto with cint.
  - unfold spi_dbgUpdate. destruct (dbg_s s); [|done]. destruct Hw. by constructor.
Qed.

Lemma spi_init_wf bus : wf (spi_init bus).
Proof.
  constructor; cbn -[replicate is_u]; try lia; auto with cint;
    apply Forall_replicate; auto with cint.
Qed.

(**  Whatever a guest and a debugger do, the FIFO lengths stay within the eight
    entries, every register and queued word keeps its width, and so every FIFO
    access of [spi_transmit] and [spi_receive] is inside its array. *)
Theorem spi_reachable_wf bus es : wf (run es (spi_init bus)).
Proof.
  unfold run. generalize (spi_init_wf bus). generalize (spi_init bus).
  induction es as [|e es IH]; intros s Hw; [done|]. apply IH. by apply spi_exec_wf.
Qed.

(** ** The transmit FIFO is a queue *)

Definition txq (s : spi_state) : list Z :=
  ring 8 (tx_fifo s) (tx_fifo_head s - tx_fifo_len s) (tx_fifo_len s).

Definition accepted (s : spi_state) (value : Z) : list Z :=
  txq s ++ (if tx_fifo_len s <? 8 then [u16 value] else []).

(** The fields a transmission leaves alone until the exchange. *)
Definition same_rx (s s' : spi_state) : Prop :=
  ssi s' = ssi s /\ rx_fifo s' = rx_fifo s /\ rx_fifo_len s' = rx_fifo_len s /\
  cr s' = cr s /\ mr s' = mr s /\ rdr s' = rdr s.

Lemma tx_enqueue_spec s v : wf s ->
  txq (tx_enqueue s v) = accepted s v /\ same_rx s (tx_enqueue s v) /\
  0 < tx_fifo_len (tx_enqueue s v).
Proof.
  intros []. unfold tx_enqueue, accepted. destruct (Z.ltb_spec (tx_fifo_len s) 8).
  - rewrite spi_update_spec. unfold txq, same_rx. cbn. rewrite land7.
    split; [|repeat split; lia].
    rewrite <- ring_push by (rewrite ?wf_tx0; lia).
    replace (tx_fifo_head s - tx_fifo_len s + tx_fifo_len s) with (tx_fifo_head s) by lia.
    rewrite (Z.mod_small (tx_fifo_head s)) by lia.
    rewrite <- ring_mod, Zminus_mod_idemp_l, ring_mod by lia. f_equal. lia.
  - rewrite app_nil_r. split; [done|]. split; [by repeat split|lia].
Qed.

Lemma tx_exchange_spec s v : wf s -> 0 < tx_fifo_len s -> rx_fifo_len s < 8 ->
  exists w q, txq s = w :: q /\ txq (fst (tx_exchange s v)) = q /\
    let s' := fst (tx_exchange s v) in
    let r := if mr s .&? SPI_LLB then w else fst (Ssi.ssi_transfer (ssi s) w) in
    rdr s' = (if mr s .&? SPI_LLB then u32 v else rdr s) /\
    ssi s' = (if mr s .&? SPI_LLB then ssi s else snd (Ssi.ssi_transfer (ssi s) w)) /\
    rx_fifo s' = aset (rx_fifo s) (rx_fifo_len s) (r .& 0xffff) /\
    rx_fifo_len s' = rx_fifo_len s + 1 /\
    tx_fifo_len s' = tx_fifo_len s - 1 /\ cr s' = cr s /\ mr s' = mr s /\
    snd (tx_exchange s v) = (rx_fifo_len s + 1) .& 7.
Proof.
  intros [] Ht Hr. exists (aget 0 (tx_fifo s) ((tx_fifo_head s - tx_fifo_len s) .& 7)).
  exists (ring 8 (tx_fifo s) (tx_fifo_head s - tx_fifo_len s + 1) (tx_fifo_len s - 1)).
  split; [unfold txq; rewrite land7; by apply ring_pop|]. unfold tx_exchange.
  assert (truth (tx_fifo_len s) = true) as -> by (apply truth_true; lia).
  destruct (Z.ltb_spec (rx_fifo_len s) 8); [|lia]. cbn [andb].
  assert (forall x, tx_fifo_head s - (tx_fifo_len s - 1) = x -> x = tx_fifo_head s - tx_fifo_len s + 1)
    as Hx by lia.
  destruct (mr s .&? SPI_LLB); [|destruct (Ssi.ssi_transfer (ssi s) _) as [r bus]];
    unfold txq; cbn; by rewrite (Hx _ eq_refl).
Qed.

(** The end of [spi_transmit] touches the receive head and the derived registers only. *)
Definition tx_finish (s : spi_state) (o : Z) : spi_state :=
  spi_update (set_sr (set_sr s.[rx_fifo_head := o] SPI_TXEMPTY) SPI_RDRF).

Lemma tx_finish_frame s o :
  let s' := tx_finish s o in
  txq s' = txq s /\ same_rx s s' /\ rx_fifo_head s' = o /\
  tx_fifo_len s' = tx_fifo_len s.
Proof. unfold tx_finish. rewrite spi_update_spec. by repeat split. Qed.

Lemma spi_update_frame s : txq (spi_update s) = txq s /\ same_rx s (spi_update s).
Proof. rewrite spi_update_spec. by repeat split. Qed.

Lemma spi_transmit_enabled s v : wf s -> (cr s .& SPI_SPIEN =? 0) = false ->
  spi_transmit s v =
    tx_finish (fst (tx_exchange (tx_enqueue s v) v)) (snd (tx_exchange (tx_enqueue s v) v)).
Proof.
  intros Hw Hen. destruct (tx_enqueue_spec s v Hw) as (_ & (_ & _ & _ & Ec & _ & _) & _).
  unfold spi_transmit. rewrite Ec, Hen. by destruct (tx_exchange _ v).
Qed.

(** C29.  [spi_transmit] is a queue of at most eight 16-bit words: the word is
    appended unless the queue is full, and, when the controller is enabled and the
    receive FIFO has room, exactly the oldest word leaves, goes to the bus (or to
    nothing in loopback mode, where the word of the call is latched in RDR) and
    the reply is stored in the receive FIFO. *)
Theorem transmit_queue s v : wf s ->
  let s' := spi_transmit s v in
  if (cr s .& SPI_SPIEN =? 0) || (rx_fifo_len s =? 8)
  then txq s' = accepted s v /\ same_rx s s'
  else exists w q, accepted s v = w :: q /\ txq s' = q /\
    rx_fifo_len s' = rx_fifo_len s + 1 /\
    if mr s .&? SPI_LLB
    then rdr s' = u32 v /\ ssi s' = ssi s /\
         rx_fifo s' = aset (rx_fifo s) (rx_fifo_len s) (w .& 0xffff)
    else let '(r, bus) := Ssi.ssi_transfer (ssi s) w in
         ssi s' = bus /\ rx_fifo s' = aset (rx_fifo s) (rx_fifo_len s) (r .& 0xffff).
Proof.
  intros Hw. cbn zeta. destruct (tx_enqueue_spec s v Hw) as (Q & (R1 & R2 & R3 & R4 & R5 & R6) & Hl).
  pose proof (tx_enqueue_wf s v Hw) as Hx.
  destruct (cr s .& SPI_SPIEN =? 0) eqn:Hen; cbn [orb].
  - unfold spi_transmit. rewrite R4, Hen.
    destruct (spi_update_frame (tx_enqueue s v)) as (-> & F1 & F2 & F3 & F4 & F5 & F6).
    split; [done|]. repeat split; congruence.
  - rewrite spi_transmit_enabled by done. set (x := tx_enqueue s v) in *. clearbody x.
    destruct (tx_finish_frame (fst (tx_exchange x v)) (snd (tx_exchange x v)))
      as (-> & (F1 & F2 & F3 & F4 & F5 & F6) & _ & _).
    destruct (Z.eqb_spec (rx_fifo_len s) 8) as [E8|N8].
    + unfold same_rx. rewrite F1, F2, F3, F4, F5, F6.
      assert (fst (tx_exchange x v) = x) as ->; [|done].
      unfold tx_exchange. rewrite R3, E8. by rewrite andb_false_r.
    + destruct (tx_exchange_spec x v Hx Hl) as (w & q & E1 & E2 & G1 & G2 & G3 & G4 & _ & _ & _ & _);
        [destruct Hw; lia|].
      exists w, q. rewrite <- Q, E1, E2. split; [done|]. split; [done|].
      rewrite F1, F2, F3, F6, G1, G2, G3, G4, R1, R2, R3, R5.
      split; [done|]. destruct (mr s .&? SPI_LLB); [done|]. by destruct (Ssi.ssi_transfer (ssi s) w).
Qed.

(** ** The receive FIFO *)

Definition rxq (s : spi_state) : list Z :=
  ring 8 (rx_fifo s) (rx_fifo_head s - rx_fifo_len s) (rx_fifo_len s).

(** Words are stored at index [rx_fifo_len]: the FIFO is a queue while its oldest
    word is in cell 0. *)
Definition aligned (s : spi_state) : Prop :=
  rx_fifo_len s = 0 \/ rx_fifo_head s mod 8 = rx_fifo_len s mod 8.

Definition enabled (s : spi_state) : Prop := (cr s .& SPI_SPIEN =? 0) = false.

(** A guest sends a word: it writes TDR, then reads it. *)
Definition send (s : spi_state) (v : Z) : spi_state := snd (spi_read (spi_write s 0x0c v) 0x0c).
(** The reads that drain the receive FIFO. *)
Fixpoint drain (n : nat) (s : spi_state) : list Z * spi_state :=
  match n with
  | O => ([], s)
  | S n => let '(v, s) := spi_read s 0x08 in let '(vs, s) := drain n s in (v :: vs, s)
  end.

Lemma send_spec s v :
  exists s1, send s v = spi_transmit s1 (u64 (s32 (u32 v))) /\ same_rx s s1 /\
    tx_fifo_len s1 = tx_fifo_len s /\ rx_fifo_head s1 = rx_fifo_head s /\ (wf s -> wf s1).
Proof.
  unfold send, spi_write. switch. unfold spi_read, in_id. switch. cbn [snd].
  eexists. split; [reflexivity|]. split; [by repeat split|]. split; [done|]. split; [done|].
  intros []. constructor; cbn; auto with cint.
Qed.

(** One word through an enabled, empty transmit FIFO. *)
Lemma send_step s v :
  wf s -> enabled s -> tx_fifo_len s = 0 -> rx_fifo_len s < 8 ->
  let s' := send s v in
  let '(r, bus) := if mr s .&? SPI_LLB then (u16 v, ssi s) else Ssi.ssi_transfer (ssi s) (u16 v) in
  wf s' /\ enabled s' /\ mr s' = mr s /\ tx_fifo_len s' = 0 /\
  rx_fifo_len s' = rx_fifo_len s + 1 /\ rx_fifo_head s' = (rx_fifo_len s + 1) .& 7 /\
  rx_fifo s' = aset (rx_fifo s) (rx_fifo_len s) (r .& 0xffff) /\
  ssi s' = bus /\ rdr s' = (if mr s .&? SPI_LLB then u32 v else rdr s).
Proof.
  intros Hw Hen Ht Hr. destruct (send_spec s v) as (s1 & -> & (A1 & A2 & A3 & A4 & A5 & A6) & A7 & _ & Hw1).
  specialize (Hw1 Hw). set (V := u64 (s32 (u32 v))).
  assert (u16 V = u16 v) as EV by (subst V; by rewrite u16_u64, u16_s32, u16_u32).
  assert (u32 V = u32 v) as EV' by (subst V; by rewrite u32_u64, u32_s32, u32_u32). clearbody V.
  pose proof (spi_transmit_wf s1 V Hw1) as Hw'. revert Hw'.
  destruct (tx_enqueue_spec s1 V Hw1) as (Q & (R1 & R2 & R3 & R4 & R5 & R6) & Hl).
  pose proof (tx_enqueue_wf s1 V Hw1) as Hx.
  rewrite spi_transmit_enabled by (unfold enabled in *; congruence).
  unfold accepted, txq in Q. rewrite A7, Ht, ring_nil, app_nil_l in Q. change (0 <? 8) with true in Q.
  set (x := tx_enqueue s1 V) in *. clearbody x.
  destruct (tx_exchange_spec x V Hx Hl) as (w & q & E1 & E2 & G1 & G2 & G3 & G4 & G5 & G6 & G7 & G8); [lia|].
  destruct (tx_finish_frame (fst (tx_exchange x V)) (snd (tx_exchange x V)))
    as (T & (F1 & F2 & F3 & F4 & F5 & F6) & F7 & F8).
  assert (length (txq x) = 1%nat) as L by (unfold txq; by rewrite Q).
  unfold txq in E1, L. rewrite length_ring in L.
  rewrite Q, EV in E1. injection E1 as <- <-.
  set (z := tx_finish _ _) in *. clearbody z. intros Hz. unfold enabled.
  rewrite R5, A5, EV', R6, A6 in G1. rewrite R5, A5, R1, A1 in G2.
  rewrite R5, A5, R2, A2, R3, A3, R1, A1 in G3.
  destruct (mr s .&? SPI_LLB); [|destruct (Ssi.ssi_transfer (ssi s) (u16 v)) as [r bus]; cbn [fst snd] in *];
    repeat match goal with |- _ /\ _ => split end; unfold enabled in *; first [done|congruence|lia].
Qed.

Lemma receive_pop s : wf s -> (mr s .&? SPI_LLB) = false -> 0 < rx_fifo_len s ->
  exists v s', spi_read s 0x08 = (v, s') /\ rxq s = v :: rxq s' /\ wf s' /\
    rx_fifo_len s' = rx_fifo_len s - 1 /\ tx_fifo_len s' = tx_fifo_len s /\
    rx_fifo s' = rx_fifo s /\ ssi s' = ssi s /\ cr s' = cr s /\ mr s' = mr s.
Proof.
  intros Hw Hm Hr. unfold spi_read, in_id. switch. unfold spi_receive. rewrite Hm.
  destruct (Z.ltb_spec 0 (rx_fifo_len s)); [|lia].
  eexists _, _. split; [reflexivity|].
  split; [|split; [by apply spi_update_wf, clear_sr_wf, rx_pop_wf|]]; rewrite spi_update_spec.
  - unfold rxq. cbn. rewrite land7, (ring_pop 8 _ _ (rx_fifo_len s)) by done.
    repeat f_equal. lia.
  - by repeat split.
Qed.

Lemma drain_all n : forall s, wf s -> (mr s .&? SPI_LLB) = false -> rx_fifo_len s = Z.of_nat n ->
  fst (drain n s) = rxq s /\ rx_fifo_len (snd (drain n s)) = 0.
Proof.
  induction n as [|n IH]; intros s Hw Hm Hn.
  - unfold rxq. by rewrite Hn.
  - destruct (receive_pop s Hw Hm) as (v & s' & E & Q & Hw' & L & _ & _ & _ & _ & M); [lia|].
    cbn [drain]. rewrite E. destruct (IH s') as [I1 I2]; [done|congruence|lia|].
    destruct (drain n s') as [vs s'']. cbn in *. split; [|done]. rewrite Q. by f_equal.
Qed.

(** The words of [ws] exchanged with the bus one after the other. *)
Fixpoint bus_run (bus : list (Ssi.SSISlave D)) (ws : list Z) : list Z * list (Ssi.SSISlave D) :=
  match ws with
  | [] => ([], bus)
  | w :: ws => let '(r, bus) := Ssi.ssi_transfer bus w in
               let '(rs, bus) := bus_run bus ws in (r :: rs, bus)
  end.

Lemma rxq_aligned s : aligned s -> rxq s = ring 8 (rx_fifo s) 0 (rx_fifo_len s).
Proof.
  intros [E|E]; unfold rxq; [by rewrite E|].
  rewrite <- ring_mod by lia. f_equal. rewrite Zminus_mod, E, Z.sub_diag. done.
Qed.

(** In an aligned state a word sent appends the reply to the receive queue. *)
Lemma send_aligned s v :
  wf s -> enabled s -> (mr s .&? SPI_LLB) = false -> tx_fifo_len s = 0 -> rx_fifo_len s < 8 ->
  aligned s ->
  let s' := send s v in
  let '(r, bus) := Ssi.ssi_transfer (ssi s) (u16 v) in
  wf s' /\ enabled s' /\ mr s' = mr s /\ tx_fifo_len s' = 0 /\ aligned s' /\
  rx_fifo_len s' = rx_fifo_len s + 1 /\ ssi s' = bus /\ rxq s' = rxq s ++ [r .& 0xffff].
Proof.
  intros Hw Hen Hm Ht Hr Ha. cbn zeta. pose proof (send_step s v Hw Hen Ht Hr) as Hs. cbn zeta in Hs.
  rewrite Hm in Hs. destruct (Ssi.ssi_transfer (ssi s) (u16 v)) as [r bus].
  destruct Hs as (S1 & S2 & S3 & S4 & S5 & S6 & S7 & S8 & _).
  assert (aligned (send s v)) as Ha'.
  { right. by rewrite S6, S5, land7, Z.mod_mod. }
  repeat match goal with |- _ /\ _ => split; [done|] end.
  rewrite !rxq_aligned, S7, S5 by done. destruct Hw.
  rewrite <- ring_push by (rewrite ?wf_rx0; lia). by rewrite Z.add_0_l, Z.mod_small by lia.
Qed.

Lemma send_batch vs : forall s,
  wf s -> enabled s -> (mr s .&? SPI_LLB) = false -> tx_fifo_len s = 0 -> aligned s ->
  rx_fifo_len s + Z.of_nat (length vs) <= 8 ->
  let s' := foldl send s vs in
  let '(rs, bus) := bus_run (ssi s) (u16 <$> vs) in
  wf s' /\ (mr s' .&? SPI_LLB) = false /\ ssi s' = bus /\ 
  rx_fifo_len s' = rx_fifo_len s + Z.of_nat (length vs) /\
  rxq s' = rxq s ++ ((fun r => r .& 0xffff) <$> rs).
Proof.
  induction vs as [|v vs IH]; intros s Hw Hen Hm Ht Ha Hl.
  - cbn. rewrite app_nil_r. by rewrite Z.add_0_r.
  - cbn [length] in Hl. rewrite fmap_cons. cbn [foldl bus_run].
    pose proof (send_aligned s v Hw Hen Hm Ht ltac:(lia) Ha) as Hs. cbn zeta in Hs.
    destruct (Ssi.ssi_transfer (ssi s) (u16 v)) as [r bus].
    destruct Hs as (S1 & S2 & S3 & S4 & S5 & S6 & S7 & S8).
    specialize (IH (send s v) S1 S2 ltac:(congruence) S4 S5 ltac:(lia)). rewrite S7 in IH. cbn zeta in *.
    destruct (bus_run bus (u16 <$> vs)) as [rs bus']. destruct IH as (I1 & I2 & I3 & I4 & I5).
    repeat match goal with |- _ /\ _ => split; [done|] end. cbn [length]. split; [lia|].
    by rewrite I5, S8, fmap_cons, <- app_assoc.
Qed.

(** C20.  A batch of at most eight words: with the controller enabled and both FIFOs
    empty, writing and reading TDR once per word delivers the low halves of the
    words to the bus in order, and as many reads of RDR return the low halves of
    the replies in order and leave the receive FIFO empty. *)
Theorem spi_batch_exchange s vs :
  wf s -> enabled s -> (mr s .&? SPI_LLB) = false -> tx_fifo_len s = 0 -> rx_fifo_len s = 0 ->
  Z.of_nat (length vs) <= 8 ->
  let s' := foldl send s vs in
  let '(rs, bus) := bus_run (ssi s) (u16 <$> vs) in
  ssi s' = bus /\ fst (drain (length vs) s') = (fun r => r .& 0xffff) <$> rs /\
  rx_fifo_len (snd (drain (length vs) s')) = 0.
Proof.
  intros Hw Hen Hm Ht Hr Hl. cbn zeta.
  pose proof (send_batch vs s Hw Hen Hm Ht (or_introl Hr) ltac:(lia)) as Hs. cbn zeta in Hs.
  destruct (bus_run (ssi s) (u16 <$> vs)) as [rs bus]. destruct Hs as (S1 & S2 & S3 & S4 & S5).
  destruct (drain_all (length vs) (foldl send s vs) S1 S2) as [D1 D2]; [lia|].
  split; [done|]. split; [|done]. rewrite D1, S5. unfold rxq. by rewrite Hr.
Qed.

Lemma ring_two buf : ring 8 buf 0 2 = [aget 0 buf 0; aget 0 buf 1].
Proof. done. Qed.

(**  The receive FIFO is not a queue when reads and transfers alternate: after
    two exchanges and one read, a third exchange overwrites the unread second
    reply and the first reply is delivered again. *)
Theorem rx_fifo_overwrites s a b c ra rb rc bus1 bus2 bus3 :
  wf s -> enabled s -> (mr s .&? SPI_LLB) = false -> tx_fifo_len s = 0 -> rx_fifo_len s = 0 ->
  Ssi.ssi_transfer (ssi s) (u16 a) = (ra, bus1) -> Ssi.ssi_transfer bus1 (u16 b) = (rb, bus2) ->
  Ssi.ssi_transfer bus2 (u16 c) = (rc, bus3) ->
  let '(x, s1) := spi_read (send (send s a) b) 0x08 in
  x :: fst (drain 2 (send s1 c)) = [ra .& 0xffff; ra .& 0xffff; rc .& 0xffff].
Proof.
  intros Hw Hen Hm Ht Hr Ea Eb Ec.
  pose proof (send_aligned s a Hw Hen Hm Ht ltac:(lia) (or_introl Hr)) as H1.
  cbn zeta in H1. rewrite Ea in H1.
  destruct H1 as (A1 & A2 & A3 & A4 & A5 & A6 & A7 & A8).
  pose proof (send_aligned (send s a) b A1 A2 ltac:(congruence) A4 ltac:(lia) A5) as H2.
  cbn zeta in H2. rewrite A7, Eb in H2.
  destruct H2 as (B1 & B2 & B3 & B4 & B5 & B6 & B7 & B8).
  set (s2 := send (send s a) b) in *. clearbody s2.
  destruct (receive_pop s2 B1) as (x & s1 & E & Q & Hw1 & L & T & F & I & Cr & M); [congruence|lia|].
  rewrite E. rewrite (rxq_aligned s2), B6, A6, Hr in Q by done.
  rewrite A8 in B8. unfold rxq in B8 at 2. rewrite Hr, ring_nil in B8.
  rewrite rxq_aligned, B6, A6, Hr in B8 by done. rewrite B8 in Q. injection Q as <- _.
  assert (enabled s1) as Hen1 by (unfold enabled in *; congruence).
  pose proof (send_step s1 c Hw1 Hen1 ltac:(lia) ltac:(lia)) as H3. cbn zeta in H3.
  assert ((mr s1 .&? SPI_LLB) = false) as Hm1 by congruence. rewrite Hm1, I, B7, Ec in H3.
  destruct H3 as (C1 & C2 & C3 & C4 & C5 & C6 & C7 & C8 & _). f_equal.
  destruct (drain_all 2 (send s1 c) C1) as [-> _]; [congruence|lia|].
  rewrite rxq_aligned by (right; by rewrite C5, C6, land7, Z.mod_mod).
  rewrite C5, C7, L, B6, A6, Hr, F.
  replace (0 + 1 + 1) with 2 in * by lia. replace (2 - 1 + 1) with 2 by lia.
  rewrite ring_two in *. replace (2 - 1) with 1 by lia. injection B8 as E0 _.
  destruct B1. rewrite aget_aset_eq by (rewrite wf_rx0; lia). by rewrite aget_aset_ne, E0 by lia.
Qed.

(** ** Loopback *)

(** A guest in loopback mode: write TDR, read it to start the exchange, read RDR. *)
Definition loop_word (s : spi_state) (v : Z) : Z * spi_state := spi_read (send s v) 0x08.
Fixpoint loop_words (s : spi_state) (vs : list Z) : list Z :=
  match vs with
  | [] => []
  | v :: vs => let '(r, s) := loop_word s v in r :: loop_words s vs
  end.

Lemma loop_read s : (mr s .&? SPI_LLB) = true ->
  exists s', spi_read s 0x08 = (u16 (rdr s), s') /\ (wf s -> wf s') /\ cr s' = cr s /\ mr s' = mr s /\
    rdr s' = 0 /\ rx_fifo_len s' = rx_fifo_len s /\ tx_fifo_len s' = tx_fifo_len s.
Proof.
  intros Hm. unfold spi_read, in_id. switch. unfold spi_receive. rewrite Hm.
  eexists. split; [reflexivity|].
  split; [intros; by apply loopback_clear_wf, spi_update_wf, clear_sr_wf|].
  rewrite spi_update_spec. by repeat split.
Qed.

(** A full receive FIFO blocks the exchange. *)
Lemma send_full s v : wf s -> enabled s -> rx_fifo_len s = 8 ->
  let s' := send s v in
  wf s' /\ cr s' = cr s /\ mr s' = mr s /\ rdr s' = rdr s /\ rx_fifo_len s' = 8.
Proof.
  intros Hw Hen Hr. destruct (send_spec s v) as (s1 & -> & (A1 & A2 & A3 & A4 & A5 & A6) & _ & _ & Hw1).
  specialize (Hw1 Hw). set (V := u64 _). clearbody V.
  split; [by apply spi_transmit_wf|].
  destruct (tx_enqueue_spec s1 V Hw1) as (_ & (R1 & R2 & R3 & R4 & R5 & R6) & _).
  rewrite spi_transmit_enabled by (unfold enabled in *; congruence).
  set (x := tx_enqueue s1 V) in *. clearbody x.
  destruct (tx_finish_frame (fst (tx_exchange x V)) (snd (tx_exchange x V)))
    as (_ & (F1 & F2 & F3 & F4 & F5 & F6) & _). rewrite F3, F4, F5, F6.
  assert (fst (tx_exchange x V) = x) as ->.
  { unfold tx_exchange. rewrite R3, A3, Hr. by rewrite andb_false_r. }
  repeat split; congruence.
Qed.

Lemma loop_full vs : forall s,
  wf s -> enabled s -> (mr s .&? SPI_LLB) = true -> rdr s = 0 -> rx_fifo_len s = 8 ->
  loop_words s vs = replicate (length vs) 0.
Proof.
  induction vs as [|v vs IH]; intros s Hw Hen Hm Hd Hr; [done|].
  destruct (send_full s v Hw Hen Hr) as (S1 & S2 & S3 & S4 & S5).
  destruct (loop_read (send s v)) as (s' & E & Hw' & L1 & L2 & L3 & L4 & _); [congruence|].
  cbn [loop_words length replicate]. unfold loop_word. rewrite E, S4, Hd. f_equal.
  apply IH; unfold enabled in *; try congruence. by apply Hw'.
Qed.

Lemma loop_prefix vs : forall s,
  wf s -> enabled s -> (mr s .&? SPI_LLB) = true -> rdr s = 0 -> tx_fifo_len s = 0 ->
  let room := Z.to_nat (8 - rx_fifo_len s) in
  loop_words s vs = (u16 <$> take room vs) ++ replicate (length vs - room) 0.
Proof.
  induction vs as [|v vs IH]; intros s Hw Hen Hm Hd Ht room; [by rewrite take_nil|].
  destruct (Z.eq_dec (rx_fifo_len s) 8) as [E8|N8].
  - subst room. rewrite E8, loop_full by done. by rewrite Nat.sub_0_r.
  - assert (rx_fifo_len s < 8) as Hr by (destruct Hw; lia).
    pose proof (send_step s v Hw Hen Ht Hr) as Hs. cbn zeta in Hs. rewrite Hm in Hs.
    destruct Hs as (S1 & S2 & S3 & S4 & S5 & _ & _ & _ & S9).
    destruct (loop_read (send s v)) as (s' & E & Hw' & L1 & L2 & L3 & L4 & L5); [congruence|].
    assert (room = S (Z.to_nat (8 - rx_fifo_len s'))) as -> by (subst room; lia).
    cbn [loop_words length take]. rewrite fmap_cons. unfold loop_word. rewrite E, S9, u16_u32.
    cbn. f_equal. apply IH; unfold enabled in *; try congruence. by apply Hw'.
Qed.

(**  Loopback works for eight words only: each of the first eight words written is
    read back (its low half), but no read of RDR frees the receive FIFO in
    loopback mode, and from the ninth word on every read returns zero. *)
Theorem loopback_stops s vs :
  wf s -> enabled s -> (mr s .&? SPI_LLB) = true -> rdr s = 0 ->
  tx_fifo_len s = 0 -> rx_fifo_len s = 0 ->
  loop_words s vs = (u16 <$> take 8 vs) ++ replicate (length vs - 8) 0.
Proof. intros Hw Hen Hm Hd Ht Hr. rewrite loop_prefix by done. by rewrite Hr. Qed.

(** ** The interrupt line *)

(**  The level driven by an update is high exactly when the transmit FIFO holds
    at most four words or the receive FIFO at least four, and the matching bit is
    clear in IDR and set in IMR; the value written to IER is lost. *)
Theorem spi_irq_level s v :
  Irq.level (irq (spi_update s)) =
    b2z ((4 <=? rx_fifo_len s) && negb (Z.testbit (idr s) 6) && Z.testbit (imr s) 6 ||
         (tx_fifo_len s <=? 4) && negb (Z.testbit (idr s) 7) && Z.testbit (imr s) 7) /\
  spi_write s 0x14 v = spi_update s.
Proof.
  split; [|unfold spi_write; switch; by rewrite !spi_update_spec].
  rewrite spi_update_spec. cbn. f_equal. unfold line, upd_ier.
  assert (forall m, 0 <= m < 32 -> (not32 (idr s) .& (1 .<< m) .&? imr s) =
    negb (Z.testbit (idr s) m) && Z.testbit (imr s) m) as Hm.
  { intros m Hm. rewrite <- Z.land_assoc, (Z.land_comm _ (imr s)), Z.land_assoc.
    by rewrite flag_testbit, Z.land_spec, not32_spec by lia. }
  rewrite Z.land_lor_distr_r, Z.land_lor_distr_l, truth_lor.
  unfold SPI_RXBUFF, SPI_TXBUFE. rewrite <- !andb_assoc.
  f_equal; case_match; rewrite ?Z.land_0_r, ?Z.land_0_l; cbn [andb]; first [by apply Hm|done].
Qed.
End Spi.
Arguments spi_state D : clear implicits.

(** ** Instances: a controller with an inverting device on its bus *)

#[local] Instance inverter : Ssi.SSISlaveClass unit := {
  Ssi.transfer _ v := (not8 v, tt);
  Ssi.set_cs _ := None;
  Ssi.cs_polarity _ := Ssi.SSI_CS_NONE
}.
Definition demo_bus : list (Ssi.SSISlave unit) := [Ssi.mkSlave false tt].
Definition demo : spi_state unit := run [Write 0x00 1] (spi_init demo_bus).
Definition demo_loop : spi_state unit := run [Write 0x00 1; Write 0x04 0x80] (spi_init demo_bus).

Lemma demo_wf : wf demo.
Proof. apply spi_exec_wf, spi_init_wf. Qed.
Lemma demo_loop_wf : wf demo_loop.
Proof. apply spi_exec_wf, spi_exec_wf, spi_init_wf. Qed.

Lemma transmit_queue_witness :
  txq (spi_transmit demo 5) = [] /\ rx_fifo_len (spi_transmit demo 5) = 1.
Proof.
  pose proof (transmit_queue demo 5 demo_wf) as H. cbn zeta in H.
  change ((cr demo .& SPI_SPIEN =? 0) || (rx_fifo_len demo =? 8)) with false in H. cbv iota in H.
  destruct H as (w & q & E & Q & L & _). change (accepted demo 5) with [5] in E.
  injection E as _ <-. split; [exact Q|exact L].
Defined.

Lemma spi_batch_exchange_witness :
  fst (drain 3 (foldl send demo [1; 2; 3])) = [0xfe; 0xfd; 0xfc].
Proof.
  pose proof (spi_batch_exchange demo [1; 2; 3] demo_wf eq_refl eq_refl eq_refl eq_refl
    ltac:(cbn; lia)) as H.
  exact (proj1 (proj2 H)).
Defined.

Lemma rx_fifo_overwrites_witness :
  let '(x, s) := spi_read (send (send demo 1) 2) 0x08 in
  x :: fst (drain 2 (send s 3)) = [0xfe; 0xfe; 0xfc].
Proof.
  exact (rx_fifo_overwrites demo 1 2 3 0xfe 0xfd 0xfc demo_bus demo_bus demo_bus demo_wf
    eq_refl eq_refl eq_refl eq_refl eq_refl eq_refl eq_refl).
Defined.

Lemma loopback_stops_witness :
  loop_words demo_loop [1; 2; 3; 4; 5; 6; 7; 8; 9; 10] = [1; 2; 3; 4; 5; 6; 7; 8; 0; 0].
Proof.
  exact (loopback_stops demo_loop [1; 2; 3; 4; 5; 6; 7; 8; 9; 10] demo_loop_wf
    eq_refl eq_refl eq_refl eq_refl eq_refl).
Defined.
End Spi.
