(* ===== verification/Block.v ===== *)
(** * The block layer as the SD card uses it (include/block/block.h)

    The card reads and writes whole 512-byte sectors of a drive.  The drive is
    an abstract type; [BlockDriver] is what the block layer promises the card,
    [BlockLaws] the documented behaviour of a working image.  [Image] is an
    in-memory raw image that satisfies the laws. *)

From S2P Require Import Prelude.

(** bdrv_read gives the sector or an error, bdrv_write a success flag and the new drive. *)
Class BlockDriver (B : Type) := {
  bdrv_read : B -> Z -> option (list Z);
  bdrv_write : B -> Z -> list Z -> bool * B;
  bdrv_get_geometry : B -> Z;
  bdrv_is_inserted : B -> bool;
  bdrv_is_read_only : B -> bool
}.

Class BlockLaws (B : Type) `{!BlockDriver B} := {
  (** A sector is 512 bytes. *)
  read_sector b n l : bdrv_read b n = Some l -> length l = 512%nat /\ Forall (is_u 8) l;
  (** A sector below the geometry can be read. *)
  read_in_range b n : 0 <= n < bdrv_get_geometry b -> is_Some (bdrv_read b n);
  (** A write to a writable drive changes that sector and nothing else. *)
  write_in_range b n l : 0 <= n < bdrv_get_geometry b -> bdrv_is_read_only b = false ->
    length l = 512%nat -> Forall (is_u 8) l ->
    exists b', bdrv_write b n l = (true, b') /\
      bdrv_read b' n = Some l /\ (forall m, m <> n -> bdrv_read b' m = bdrv_read b m) /\
      bdrv_get_geometry b' = bdrv_get_geometry b /\ bdrv_is_read_only b' = false /\
      bdrv_is_inserted b' = bdrv_is_inserted b
}.

(** Byte [a] of the drive. *)
Definition drive_byte {B} `{!BlockDriver B} (b : B) (a : Z) : Z :=
  aget 0 (default [] (bdrv_read b (a / 512))) (a mod 512).

(** ** A raw image in memory *)
Module Image.

Record image := mkImage {
  sectors : list (list Z); read_only : bool;
  sectors_wf : Forall (fun l => length l = 512%nat /\ Forall (is_u 8) l) sectors
}.

Definition sector_ok (l : list Z) : bool :=
  bool_decide (length l = 512%nat) && bool_decide (Forall (is_u 8) l).
Lemma sector_ok_spec l : sector_ok l = true -> length l = 512%nat /\ Forall (is_u 8) l.
Proof. unfold sector_ok. rewrite andb_true_iff, !bool_decide_eq_true. done. Qed.

Lemma insert_wf ls n l :
  Forall (fun l => length l = 512%nat /\ Forall (is_u 8) l) ls -> sector_ok l = true ->
  Forall (fun l => length l = 512%nat /\ Forall (is_u 8) l) (<[n := l]> ls).
Proof. intros Hls Hl. apply Forall_insert; [done|by apply sector_ok_spec]. Qed.

Definition write (b : image) (n : Z) (l : list Z) : bool * image :=
  if (0 <=? n) && (n <? Z.of_nat (length (sectors b))) && negb (read_only b) then
    match sumbool_of_bool (sector_ok l) with
    | left H => (true, mkImage (<[Z.to_nat n := l]> (sectors b)) (read_only b)
                          (insert_wf _ _ _ (sectors_wf b) H))
    | right _ => (false, b)
    end
  else (false, b).

#[global] Instance image_driver : BlockDriver image := {
  bdrv_read b n := if 0 <=? n then sectors b !! Z.to_nat n else None;
  bdrv_write := write;
  bdrv_get_geometry b := Z.of_nat (length (sectors b));
  bdrv_is_inserted _ := true;
  bdrv_is_read_only := read_only
}.

#[global] Instance image_laws : BlockLaws image.
Proof.
  constructor.
  - intros b n l Hl. cbn in *. destruct (0 <=? n); [|done].
    exact (Forall_lookup_1 _ _ _ _ (sectors_wf b) Hl).
  - intros b n Hn. cbn in *. destruct (Z.leb_spec 0 n); [|lia].
    apply lookup_lt_is_Some_2. lia.
  - intros b n l Hn Hro Hl Hu. cbn in *. unfold write.
    destruct (Z.leb_spec 0 n); [|lia]. destruct (Z.ltb_spec n (Z.of_nat (length (sectors b)))); [|lia].
    rewrite Hro. cbn [andb negb].
    assert (sector_ok l = true) as Hok.
    { unfold sector_ok. rewrite andb_true_iff, !bool_decide_eq_true. done. }
    destruct (sumbool_of_bool (sector_ok l)) as [H1|H1]; [|congruence].
    eexists. split; [reflexivity|]. cbn. rewrite list_lookup_insert_eq by lia. split; [done|].
    split; [|by rewrite length_insert].
    intros m Hm. destruct (Z.leb_spec 0 m); [|done]. by rewrite list_lookup_insert_ne by lia.
Qed.

(** A blank image of [n] sectors filled with [v]. *)
Lemma blank_wf n v : Forall (fun l => length l = 512%nat /\ Forall (is_u 8) l)
  (replicate n (replicate 512 (u8 v))).
Proof.
  apply Forall_replicate. split; [by rewrite length_replicate|].
  apply Forall_replicate, is_u_u8.
Qed.
Definition blank (n : nat) (v : Z) : image := mkImage _ false (blank_wf n v).
End Image.
