(* ===== verification/Sd.v ===== *)
(** * The SD memory card (hw/sd/sd.c)

    [SDState] with the card registers and its state machine, one definition per
    function; [sd_normal_command] is cut along the command classes of its
    switch.  The drive behind the card is a [BlockDriver].  Stores of a
    [uint32_t] into the data buffer are in the byte order of a little-endian
    host. *)

From S2P Require Import Prelude Irq Block.

Module Sd.

(** ** Registers and types (include/hw/sd.h) *)

Definition ADDRESS_ERROR := 1 .<< 30.
Definition BLOCK_LEN_ERROR := 1 .<< 29.
Definition ERASE_SEQ_ERROR := 1 .<< 28.
Definition WP_VIOLATION := 1 .<< 26.
Definition CARD_IS_LOCKED := 1 .<< 25.
Definition LOCK_UNLOCK_FAILED := 1 .<< 24.
Definition COM_CRC_ERROR := 1 .<< 23.
Definition ILLEGAL_COMMAND := 1 .<< 22.
Definition CID_CSD_OVERWRITE := 1 .<< 16.
Definition WP_ERASE_SKIP := 1 .<< 15.
Definition CURRENT_STATE := 7 .<< 9.
Definition APP_CMD := 1 .<< 5.
Definition CARD_STATUS_B := 0x00c01e00.
Definition CARD_STATUS_C := 0xfd39a028.
Definition ACMD41_ENQUIRY_MASK := 0x00ffffff.

Inductive sd_rsp_type_t :=
  sd_r0 | sd_r1 | sd_r2_i | sd_r2_s | sd_r3 | sd_r6 | sd_r7 | sd_r1b | sd_illegal.
Inductive SDCardModes := sd_inactive | sd_card_identification_mode | sd_data_transfer_mode.
Inductive SDCardStates :=
| sd_inactive_state | sd_idle_state | sd_ready_state | sd_identification_state
| sd_standby_state | sd_transfer_state | sd_sendingdata_state | sd_receivingdata_state
| sd_programming_state | sd_disconnect_state.
Inductive sd_cmd_type_t := sd_none | sd_bc | sd_bcr | sd_ac | sd_adtc.

#[export] Instance rsp_eq_dec : EqDecision sd_rsp_type_t.
Proof. solve_decision. Defined.
#[export] Instance state_eq_dec : EqDecision SDCardStates.
Proof. solve_decision. Defined.
#[export] Instance mode_eq_dec : EqDecision SDCardModes.
Proof. solve_decision. Defined.
#[export] Instance cmd_type_eq_dec : EqDecision sd_cmd_type_t.
Proof. solve_decision. Defined.

(** The values of enum SDCardStates. *)
Definition state_num (st : SDCardStates) : Z :=
  match st with
  | sd_inactive_state => -1 | sd_idle_state => 0 | sd_ready_state => 1
  | sd_identification_state => 2 | sd_standby_state => 3 | sd_transfer_state => 4
  | sd_sendingdata_state => 5 | sd_receivingdata_state => 6
  | sd_programming_state => 7 | sd_disconnect_state => 8
  end.

Record SDRequest := mkReq { req_cmd : Z; req_arg : Z; req_crc : Z }.

Definition sd_cmd_type : list sd_cmd_type_t :=
  [sd_bc; sd_none; sd_bcr; sd_bcr; sd_none; sd_none; sd_none; sd_ac;
   sd_bcr; sd_ac; sd_ac; sd_adtc; sd_ac; sd_ac; sd_none; sd_ac;
   sd_ac; sd_adtc; sd_adtc; sd_none; sd_none; sd_none; sd_none; sd_none;
   sd_adtc; sd_adtc; sd_adtc; sd_adtc; sd_ac; sd_ac; sd_adtc; sd_none;
   sd_ac; sd_ac; sd_none; sd_none; sd_none; sd_none; sd_ac; sd_none;
   sd_none; sd_none; sd_bc; sd_none; sd_none; sd_none; sd_none; sd_none;
   sd_none; sd_none; sd_none; sd_none; sd_none; sd_none; sd_none; sd_ac;
   sd_adtc; sd_none; sd_none; sd_none; sd_none; sd_none; sd_none; sd_none].

Definition sd_cmd_class : list Z :=
  [0; 0; 0; 0; 0; 9; 10; 0; 0; 0; 0; 1; 0; 0; 0; 0;
   2; 2; 2; 2; 3; 3; 3; 3; 4; 4; 4; 4; 6; 6; 6; 6;
   5; 5; 10; 10; 10; 10; 5; 9; 9; 9; 7; 7; 7; 7; 7; 7;
   7; 7; 10; 7; 9; 9; 9; 8; 8; 10; 8; 8; 8; 8; 8; 8].

(** ** Checksums *)

Definition crc7_bit (shift_reg b : Z) : Z :=
  let shift_reg := u8 (shift_reg .<< 1) in
  if truth ((shift_reg .>> 7) .^ b) then shift_reg .^ 0x89 else shift_reg.
(** Bits [n-1 .. 0] of [m], most significant first. *)
Fixpoint feed (step : Z -> Z -> Z) (r : Z) (m : Z) (n : nat) : Z :=
  match n with
  | O => r
  | S n => feed step (step r ((m .>> Z.of_nat n) .& 1)) m n
  end.
Definition sd_crc7 (message : list Z) : Z :=
  foldl (fun r m => feed crc7_bit r m 8) 0 message.

Definition crc16_bit (shift_reg b : Z) : Z :=
  let shift_reg := u16 (shift_reg .<< 1) in
  if truth ((shift_reg .>> 15) .^ b) then shift_reg .^ 0x1011 else shift_reg.
(** [2 * width] half words of the message. *)
Definition sd_crc16 (message : list Z) (width : Z) : Z :=
  foldl (fun r i => feed crc16_bit r
    (aget 0 message (2 * i) .| (aget 0 message (2 * i + 1) .<< 8)) 16) 0 (seqZ 0 (width .<< 1)).

#[global] Arguments sd_crc7 : simpl never.
#[global] Arguments sd_crc16 : simpl never.

(** ** Byte stores *)

Definition bytes_be32 (v : Z) : list Z :=
  [(v .>> 24) .& 0xff; (v .>> 16) .& 0xff; (v .>> 8) .& 0xff; v .& 0xff].
Definition bytes_le32 (v : Z) : list Z :=
  [v .& 0xff; (v .>> 8) .& 0xff; (v .>> 16) .& 0xff; (v .>> 24) .& 0xff].

Section Card.
Context {B : Type} `{!BlockDriver B}.

Record SDState := mkSD {
  mode : SDCardModes; state : SDCardStates; ocr : Z;
  scr : list Z; cid : list Z; csd : list Z; rca : Z; card_status : Z; sd_status : list Z;
  vhs : Z; wp_switch : bool; wp_groups : list bool; wpgrps_size : Z;
  size : Z; blk_len : Z; erase_start : Z; erase_end : Z;
  pwd : list Z; pwd_len : Z; function_group : list Z;
  spi : bool; current_cmd : Z; expecting_acmd : bool; blk_written : Z;
  data_start : Z; data_offset : Z; data : list Z;
  readonly_cb : Irq.line_log; inserted_cb : Irq.line_log;
  bdrv : option B; enable : bool
}.
#[export] Instance eta_sd : RecEta SDState := fun s =>
  mkSD (mode s) (state s) (ocr s) (scr s) (cid s) (csd s) (rca s) (card_status s) (sd_status s)
    (vhs s) (wp_switch s) (wp_groups s) (wpgrps_size s) (size s) (blk_len s) (erase_start s)
    (erase_end s) (pwd s) (pwd_len s) (function_group s) (spi s) (current_cmd s)
    (expecting_acmd s) (blk_written s) (data_start s) (data_offset s) (data s)
    (readonly_cb s) (inserted_cb s) (bdrv s) (enable s).

Definition set_status (sd : SDState) (m : Z) : SDState := sd.[card_status := card_status sd .| m].
Definition clear_status (sd : SDState) (m : Z) : SDState :=
  sd.[card_status := card_status sd .& not32 m].

(** [test_bit], [set_bit] and [clear_bit] on the bitmap. *)
Definition test_bit (n : Z) (bm : list bool) : bool := aget false bm n.

Definition sd_set_mode (sd : SDState) : SDState :=
  match state sd with
  | sd_inactive_state => sd.[mode := sd_inactive]
  | sd_idle_state | sd_ready_state | sd_identification_state =>
      sd.[mode := sd_card_identification_mode]
  | _ => sd.[mode := sd_data_transfer_mode]
  end.

Definition sd_set_ocr (sd : SDState) : SDState := sd.[ocr := 0x80ffff00].
Definition sd_set_scr (sd : SDState) : SDState := sd.[scr := [0; 0x2f; 0; 0; 0; 0; 0; 0]].

(** MID, "XY", "QEMU!", PRV, the serial number and the date 2006/2. *)
Definition cid_body : list Z :=
  [0xaa; 0x58; 0x59; 0x51; 0x45; 0x4d; 0x55; 0x21; 0x01; 0xde; 0xad; 0xbe; 0xef;
   Z.quot (2006 - 2000) 10; (Z.rem 2006 10 .<< 4) .| 2].
Definition sd_set_cid (sd : SDState) : SDState :=
  sd.[cid := cid_body ++ [u8 ((sd_crc7 cid_body .<< 1) .| 1)]].

Definition sd_csd_rw_mask : list Z := replicate 14 0 ++ [0xfc; 0xfe].

Definition csd_standard (csize : Z) : list Z :=
  let sectsize := (1 .<< 6) - 1 in
  let wpsize := (1 .<< 8) - 1 in
  let body :=
    [0x00; 0x26; 0x00; 0x5a; 0x5f; 0x50 .| 9;
     0xe0 .| ((csize .>> 10) .& 0x03);
     0x00 .| ((csize .>> 2) .& 0xff);
     0x3f .| ((csize .<< 6) .& 0xc0);
     0xfc .| ((9 - 2) .>> 1);
     0x40 .| (((9 - 2) .<< 7) .& 0x80) .| (sectsize .>> 1);
     0x00 .| ((sectsize .<< 7) .& 0x80) .| wpsize;
     0x90 .| (9 .>> 2);
     0x20 .| ((9 .<< 6) .& 0xc0);
     0x00] in
  body ++ [u8 ((sd_crc7 body .<< 1) .| 1)].
Definition csd_high (size : Z) : list Z :=
  let size := u64 (size / (512 * 1024) - 1) in
  [0x40; 0x0e; 0x00; 0x32; 0x5b; 0x59; 0x00;
   (size .>> 16) .& 0xff; (size .>> 8) .& 0xff; size .& 0xff;
   0x7f; 0x80; 0x0a; 0x40; 0x00; 0x00].

Definition sd_set_csd (sd : SDState) (size : Z) : SDState :=
  let csize := u32 ((size .>> (9 + 9)) - 1) in
  if size <=? 0x40000000 then sd.[csd := csd_standard csize]
  else sd.[csd := csd_high size].[ocr := ocr sd .| (1 .<< 30)].

Definition sd_set_rca (sd : SDState) : SDState := sd.[rca := u16 (rca sd + 0x4567)].
Definition sd_set_cardstatus (sd : SDState) : SDState := sd.[card_status := 0x100].
Definition sd_set_sdstatus (sd : SDState) : SDState := sd.[sd_status := replicate 64 0].

(** The checksum is computed but not compared. *)
Definition sd_req_crc_validate (req : SDRequest) : bool := false.

Definition sd_response_r1_make (sd : SDState) : list Z * SDState :=
  let status := card_status sd in
  (bytes_be32 status, clear_status sd CARD_STATUS_C).
Definition sd_response_r3_make (sd : SDState) : list Z := bytes_be32 (ocr sd).
Definition sd_response_r6_make (sd : SDState) : list Z * SDState :=
  let arg := rca sd in
  let status := u16 (((card_status sd .>> 8) .& 0xc000) .|
                     ((card_status sd .>> 6) .& 0x2000) .| (card_status sd .& 0x1fff)) in
  let sd := clear_status sd (CARD_STATUS_C .& 0xc81fff) in
  ([(arg .>> 8) .& 0xff; arg .& 0xff; (status .>> 8) .& 0xff; status .& 0xff], sd).
Definition sd_response_r7_make (sd : SDState) : list Z := bytes_be32 (vhs sd).

Definition sd_addr_to_wpnum (addr : Z) : Z := addr .>> (9 + 5 + 7).

Definition sd_reset (sd : SDState) (b : option B) : SDState :=
  let sect := match b with Some b => bdrv_get_geometry b | None => 0 end in
  let size' := u64 (sect .<< 9) in
  let sect := u64 (sd_addr_to_wpnum size' + 1) in
  let sd := sd.[state := sd_idle_state].[rca := 0] in
  let sd := sd_set_ocr sd in
  let sd := sd_set_scr sd in
  let sd := sd_set_cid sd in
  let sd := sd_set_csd sd size' in
  let sd := sd_set_cardstatus sd in
  let sd := sd_set_sdstatus sd in
  let sd := sd.[bdrv := b] in
  let sd := sd.[wp_switch := match b with Some b => bdrv_is_read_only b | None => false end] in
  let sd := sd.[wpgrps_size := s32 sect] in
  let sd := sd.[wp_groups := replicate (Z.to_nat (wpgrps_size sd)) false] in
  let sd := sd.[function_group := replicate 6 0] in
  sd.[erase_start := 0].[erase_end := 0].[size := size'].[blk_len := 0x200].[pwd_len := 0]
    .[expecting_acmd := false].

Definition inserted (sd : SDState) : bool :=
  match bdrv sd with Some b => bdrv_is_inserted b | None => false end.

Definition sd_cardchange (sd : SDState) : SDState :=
  let sd := sd.[inserted_cb := Irq.drive (inserted_cb sd) (b2z (inserted sd))] in
  if inserted sd then
    let sd := sd_reset sd (bdrv sd) in
    sd.[readonly_cb := Irq.drive (readonly_cb sd) (b2z (wp_switch sd))]
  else sd.

(** The zeroed object of [g_malloc0]. *)
Definition sd_zero : SDState :=
  mkSD sd_inactive sd_idle_state 0 (replicate 8 0) (replicate 16 0) (replicate 16 0) 0 0
    (replicate 64 0) 0 false [] 0 0 0 0 0 (replicate 16 0) 0 (replicate 6 0) false 0 false 0
    0 0 (replicate 512 0) [] [] None false.
Definition sd_init (bs : option B) (is_spi : bool) : SDState :=
  sd_reset sd_zero.[spi := is_spi].[enable := true] bs.

Definition sd_set_cb (sd : SDState) : SDState :=
  let ro := match bdrv sd with Some b => bdrv_is_read_only b | None => false end in
  sd.[readonly_cb := Irq.drive [] (b2z ro)].[inserted_cb := Irq.drive [] (b2z (inserted sd))].

(** ** Erase, write protection, functions, locking *)

Definition high_capacity (sd : SDState) : bool := ocr sd .&? (1 .<< 30).

(** The group numbers the loop of [sd_erase] tests. *)
Definition erase_groups (sd : SDState) : list Z :=
  let scale := if high_capacity sd then 512 else 1 in
  let first := sd_addr_to_wpnum (erase_start sd * scale) in
  let last := sd_addr_to_wpnum (erase_end sd * scale) in
  seqZ first (last - first + 1).
Definition sd_erase (sd : SDState) : SDState :=
  if (erase_start sd =? 0) || (erase_end sd =? 0) then set_status sd ERASE_SEQ_ERROR
  else
    let groups := erase_groups sd in
    let sd := sd.[erase_start := 0].[erase_end := 0] in
    let sd := sd.[csd := aset (csd sd) 14 (aget 0 (csd sd) 14 .| 0x40)] in
    foldl (fun sd i => if test_bit i (wp_groups sd) then set_status sd WP_ERASE_SKIP else sd)
      sd groups.

Definition WPGROUP_SIZE := 1 .<< (9 + 5 + 7).
Definition sd_wpbits (sd : SDState) (addr : Z) : Z :=
  let wpnum := u32 (sd_addr_to_wpnum addr) in
  foldl (fun ret i =>
    if (u64 (addr + i * WPGROUP_SIZE) <? size sd) && test_bit (u32 (wpnum + i)) (wp_groups sd)
    then ret .| (1 .<< i) else ret) 0 (seqZ 0 32).

Definition switch_header : list Z :=
  [0x00; 0x01; 0x80; 0x01; 0x80; 0x01; 0x80; 0x01; 0x80; 0x01; 0x80; 0x43; 0x80; 0x03].
Definition switch_step (arg : Z) (sd : SDState) (i : Z) : SDState :=
  let mode' := arg .&? 0x80000000 in
  let new_func := (arg .>> (i * 4)) .& 0x0f in
  let sd := if mode' && negb (new_func =? 0x0f)
            then sd.[function_group := aset (function_group sd) i new_func] else sd in
  sd.[data := aset (data sd) (14 + (i .>> 1)) (u8 (new_func .<< ((i * 4) .& 4)))].
Definition switch_crc (sd : SDState) : SDState :=
  let crc := sd_crc16 (data sd) 64 in
  let sd := sd.[data := aset (data sd) 65 (u8 (crc .>> 8))] in
  sd.[data := aset (data sd) 66 (crc .& 0xff)].
Definition sd_function_switch (sd : SDState) (arg : Z) : SDState :=
  let sd := sd.[data := memcpy (data sd) 0 switch_header] in
  let sd := foldl (switch_step arg) sd (seqZ 0 6) in
  let sd := sd.[data := memcpy (data sd) 17 (replicate 47 0)] in
  switch_crc sd.

Definition sd_wp_addr (sd : SDState) (addr : Z) : bool :=
  test_bit (sd_addr_to_wpnum addr) (wp_groups sd).

Definition sd_lock_command (sd : SDState) : SDState :=
  let d0 := aget 0 (data sd) 0 in
  let erase := d0 .&? 0x08 in
  let lock := d0 .&? 0x04 in
  let clr_pwd := d0 .&? 0x02 in
  let set_pwd := d0 .&? 0x01 in
  let locked := card_status sd .&? CARD_IS_LOCKED in
  let new_len := if 1 <? blk_len sd then aget 0 (data sd) 1 else 0 in
  let fail := set_status sd LOCK_UNLOCK_FAILED in
  if erase then
    if negb locked || (1 <? blk_len sd) || set_pwd || clr_pwd || lock || wp_switch sd ||
       (aget 0 (csd sd) 14 .&? 0x20) then fail
    else
      let sd := sd.[wp_groups := replicate (Z.to_nat (wpgrps_size sd)) false] in
      let sd := sd.[csd := aset (csd sd) 14 (aget 0 (csd sd) 14 .& not8 0x10)] in
      let sd := clear_status sd CARD_IS_LOCKED in
      sd.[pwd_len := 0]
  else if (blk_len sd <? 2 + new_len) || (new_len <=? pwd_len sd) || (pwd_len sd + 16 <? new_len)
  then fail
  else if truth (pwd_len sd) &&
          negb (bool_decide (slice (pwd sd) 0 (pwd_len sd) = slice (data sd) 2 (pwd_len sd)))
  then fail
  else
    let new_len := new_len - pwd_len sd in
    if (truth new_len && negb set_pwd) || (clr_pwd && (set_pwd || lock)) ||
       (lock && negb (truth (pwd_len sd)) && negb set_pwd) ||
       (negb set_pwd && negb clr_pwd && ((locked && lock) || (negb locked && negb lock)))
    then fail
    else
      let sd := if set_pwd
        then sd.[pwd := memcpy (pwd sd) 0 (slice (data sd) (2 + pwd_len sd) new_len)]
               .[pwd_len := new_len]
        else sd in
      let sd := if clr_pwd then sd.[pwd_len := 0] else sd in
      if lock then set_status sd CARD_IS_LOCKED else clear_status sd CARD_IS_LOCKED.

(** ** Commands *)

(** The labels bad_cmd and unimplemented_cmd, and the end of the switch. *)
Definition illegal (sd : SDState) : sd_rsp_type_t * SDState := (sd_illegal, sd).

(** Enter the sending or receiving state at a start address. *)
Definition start_data (sd : SDState) (st : SDCardStates) (start : Z) : SDState :=
  sd.[state := st].[data_start := start].[data_offset := 0].

(** A transfer that would leave the card is flagged. *)
Definition check_range (sd : SDState) : SDState :=
  if size sd <? u64 (data_start sd + blk_len sd) then set_status sd ADDRESS_ERROR else sd.
Definition check_protect (sd : SDState) : SDState :=
  let sd := if sd_wp_addr sd (data_start sd) then set_status sd WP_VIOLATION else sd in
  if aget 0 (csd sd) 14 .&? 0x30 then set_status sd WP_VIOLATION else sd.

Definition ffs (x : Z) : Z :=
  match filter (fun i => Z.testbit x i = true) (seqZ 0 32) with
  | [] => 0
  | i :: _ => i + 1
  end.
(** [x >> n] at 32 bits; the host takes the count modulo 32. *)
Definition shr32 (x n : Z) : Z := x .>> (n mod 32).

(** CMD0 to CMD5. *)
Definition cmd_basic (sd : SDState) (cmd arg : Z) : sd_rsp_type_t * SDState :=
  if cmd =? 0 then
    match state sd with
    | sd_inactive_state => (if spi sd then sd_r1 else sd_r0, sd)
    | _ => let sd := sd.[state := sd_idle_state] in
           let sd := sd_reset sd (bdrv sd) in
           (if spi sd then sd_r1 else sd_r0, sd)
    end
  else if cmd =? 1 then
    if spi sd then (sd_r1, sd.[state := sd_transfer_state]) else illegal sd
  else if cmd =? 2 then
    if spi sd then illegal sd else
    match state sd with
    | sd_ready_state => (sd_r2_i, sd.[state := sd_identification_state])
    | _ => illegal sd
    end
  else if cmd =? 3 then
    if spi sd then illegal sd else
    match state sd with
    | sd_identification_state | sd_standby_state =>
        (sd_r6, sd_set_rca sd.[state := sd_standby_state])
    | _ => illegal sd
    end
  else illegal sd.

(** CMD6 and CMD7. *)
Definition cmd_select (sd : SDState) (cmd arg rca' : Z) : sd_rsp_type_t * SDState :=
  if spi sd then illegal sd
  else if cmd =? 6 then
    match mode sd with
    | sd_data_transfer_mode =>
        let sd := sd_function_switch sd arg in
        (sd_r1, start_data sd sd_sendingdata_state 0)
    | _ => illegal sd
    end
  else
    match state sd with
    | sd_standby_state =>
        if negb (rca sd =? rca') then (sd_r0, sd)
        else (sd_r1b, sd.[state := sd_transfer_state])
    | sd_transfer_state | sd_sendingdata_state =>
        if rca sd =? rca' then illegal sd
        else (sd_r1b, sd.[state := sd_standby_state])
    | sd_disconnect_state =>
        if negb (rca sd =? rca') then (sd_r0, sd)
        else (sd_r1b, sd.[state := sd_programming_state])
    | sd_programming_state =>
        if rca sd =? rca' then illegal sd
        else (sd_r1b, sd.[state := sd_disconnect_state])
    | _ => illegal sd
    end.

(** CMD8 to CMD13 and CMD15. *)
Definition cmd_info (sd : SDState) (cmd arg addr rca' : Z) : sd_rsp_type_t * SDState :=
  if cmd =? 8 then
    match state sd with
    | sd_idle_state =>
        let sd := sd.[vhs := 0] in
        if (arg .>> 8 =? 0) || truth (shr32 arg (ffs (arg .& not32 0xff)))
        then (if spi sd then sd_r7 else sd_r0, sd)
        else (sd_r7, sd.[vhs := arg])
    | _ => illegal sd
    end
  else if (cmd =? 9) || (cmd =? 10) then
    match state sd with
    | sd_standby_state =>
        if negb (rca sd =? rca') then (sd_r0, sd)
        else (if cmd =? 9 then sd_r2_s else sd_r2_i, sd)
    | sd_transfer_state =>
        if negb (spi sd) then illegal sd
        else
          let reg := if cmd =? 9 then csd sd else cid sd in
          let sd := sd.[data := memcpy (data sd) 0 reg] in
          (sd_r1, start_data sd sd_sendingdata_state addr)
    | _ => illegal sd
    end
  else if cmd =? 11 then
    if spi sd then illegal sd else
    match state sd with
    | sd_transfer_state => (sd_r0, check_range (start_data sd sd_sendingdata_state arg))
    | _ => illegal sd
    end
  else if cmd =? 12 then
    match state sd with
    | sd_sendingdata_state | sd_receivingdata_state => (sd_r1b, sd.[state := sd_transfer_state])
    | _ => illegal sd
    end
  else if cmd =? 13 then
    match mode sd with
    | sd_data_transfer_mode => (if negb (rca sd =? rca') then sd_r0 else sd_r1, sd)
    | _ => illegal sd
    end
  else if cmd =? 15 then
    if spi sd then illegal sd else
    match mode sd with
    | sd_data_transfer_mode =>
        if negb (rca sd =? rca') then (sd_r0, sd)
        else (sd_r0, sd.[state := sd_inactive_state])
    | _ => illegal sd
    end
  else illegal sd.

(** The block read commands CMD16 to CMD18. *)
Definition cmd_read (sd : SDState) (cmd arg addr : Z) : sd_rsp_type_t * SDState :=
  match state sd with
  | sd_transfer_state =>
      if cmd =? 16 then
        (sd_r1, if (1 .<< 9) <? arg then set_status sd BLOCK_LEN_ERROR else sd.[blk_len := arg])
      else (sd_r1, check_range (start_data sd sd_sendingdata_state addr))
  | _ => illegal sd
  end.

(** The block write commands CMD24 to CMD27. *)
Definition cmd_write (sd : SDState) (cmd addr : Z) : sd_rsp_type_t * SDState :=
  if spi sd then illegal sd else
  match state sd with
  | sd_transfer_state =>
      if (cmd =? 24) || (cmd =? 25) then
        let sd := start_data sd sd_receivingdata_state addr in
        let sd := sd.[blk_written := 0] in
        (sd_r1, check_protect (check_range sd))
      else (sd_r1, start_data sd sd_receivingdata_state 0)
  | _ => illegal sd
  end.

(** Write protection, CMD28 to CMD30. *)
Definition cmd_protect (sd : SDState) (cmd arg addr : Z) : sd_rsp_type_t * SDState :=
  match state sd with
  | sd_transfer_state =>
      if cmd =? 30 then
        let sd := sd.[data := memcpy (data sd) 0 (bytes_le32 (sd_wpbits sd arg))] in
        (sd_r1b, start_data sd sd_sendingdata_state addr)
      else if size sd <=? addr then (sd_r1b, set_status sd ADDRESS_ERROR)
      else
        let sd := sd.[wp_groups := aset (wp_groups sd) (sd_addr_to_wpnum addr) (cmd =? 28)] in
        (sd_r1b, sd.[state := sd_transfer_state])
  | _ => illegal sd
  end.

(** Erase, CMD32, CMD33 and CMD38. *)
Definition cmd_erase (sd : SDState) (cmd arg : Z) : sd_rsp_type_t * SDState :=
  match state sd with
  | sd_transfer_state =>
      if cmd =? 32 then (sd_r1, sd.[erase_start := arg])
      else if cmd =? 33 then (sd_r1, sd.[erase_end := arg])
      else if aget 0 (csd sd) 14 .&? 0x30 then (sd_r1b, set_status sd WP_VIOLATION)
      else
        let sd := sd_erase sd.[state := sd_programming_state] in
        (sd_r1b, sd.[state := sd_transfer_state])
  | _ => illegal sd
  end.

(** CMD42, CMD55 and CMD56. *)
Definition cmd_app (sd : SDState) (cmd arg rca' : Z) : sd_rsp_type_t * SDState :=
  if cmd =? 42 then
    if spi sd then illegal sd else
    match state sd with
    | sd_transfer_state => (sd_r1, start_data sd sd_receivingdata_state 0)
    | _ => illegal sd
    end
  else if cmd =? 55 then
    if negb (rca sd =? rca') then (sd_r0, sd)
    else (sd_r1, set_status sd.[expecting_acmd := true] APP_CMD)
  else
    match state sd with
    | sd_transfer_state =>
        let sd := sd.[data_offset := 0] in
        (sd_r1, if arg .&? 1 then sd.[state := sd_sendingdata_state]
                else sd.[state := sd_receivingdata_state])
    | _ => illegal sd
    end.

Definition between (lo x hi : Z) : bool := (lo <=? x) && (x <=? hi).

Definition sd_normal_command (sd : SDState) (req : SDRequest) : sd_rsp_type_t * SDState :=
  let cmd := req_cmd req in
  let arg := req_arg req in
  let addr := if high_capacity sd then u64 (arg .<< 9) else arg in
  let sd := clear_status sd APP_CMD in
  let ty := aget sd_none sd_cmd_type cmd in
  let rca' := if bool_decide (ty = sd_ac) || bool_decide (ty = sd_adtc) then arg .>> 16 else 0 in
  if between 0 cmd 5 then cmd_basic sd cmd arg
  else if between 6 cmd 7 then cmd_select sd cmd arg rca'
  else if between 8 cmd 15 then cmd_info sd cmd arg addr rca'
  else if between 16 cmd 18 then cmd_read sd cmd arg addr
  else if between 24 cmd 27 then cmd_write sd cmd addr
  else if between 28 cmd 30 then cmd_protect sd cmd arg addr
  else if (cmd =? 32) || (cmd =? 33) || (cmd =? 38) then cmd_erase sd cmd arg
  else if (cmd =? 42) || (cmd =? 55) || (cmd =? 56) then cmd_app sd cmd arg rca'
  else illegal sd.

(** ACMD13, ACMD22 and ACMD51 start a transfer; ACMD6, 23 and 42 only answer. *)
Definition sd_app_command (sd : SDState) (req : SDRequest) : sd_rsp_type_t * SDState :=
  let cmd := req_cmd req in
  let arg := req_arg req in
  let sd := set_status sd APP_CMD in
  if cmd =? 6 then
    match state sd with
    | sd_transfer_state =>
        let sd := sd.[sd_status := aset (sd_status sd) 0 (aget 0 (sd_status sd) 0 .& 0x3f)] in
        (sd_r1, sd.[sd_status := aset (sd_status sd) 0
                      (aget 0 (sd_status sd) 0 .| ((arg .& 0x03) .<< 6))])
    | _ => illegal sd
    end
  else if cmd =? 13 then
    match state sd with
    | sd_transfer_state => (sd_r1, start_data sd sd_sendingdata_state 0)
    | _ => illegal sd
    end
  else if cmd =? 22 then
    match state sd with
    | sd_transfer_state =>
        let sd := sd.[data := memcpy (data sd) 0 (bytes_le32 (blk_written sd))] in
        (sd_r1, start_data sd sd_sendingdata_state 0)
    | _ => illegal sd
    end
  else if cmd =? 23 then
    match state sd with sd_transfer_state => (sd_r1, sd) | _ => illegal sd end
  else if cmd =? 41 then
    if spi sd then (sd_r1, sd.[state := sd_transfer_state]) else
    match state sd with
    | sd_idle_state =>
        (sd_r3, if arg .&? ACMD41_ENQUIRY_MASK then sd.[state := sd_ready_state] else sd)
    | _ => illegal sd
    end
  else if cmd =? 42 then
    match state sd with sd_transfer_state => (sd_r1, sd) | _ => illegal sd end
  else if cmd =? 51 then
    match state sd with
    | sd_transfer_state => (sd_r1, start_data sd sd_sendingdata_state 0)
    | _ => illegal sd
    end
  else sd_normal_command sd req.

Definition cmd_valid_while_locked (sd : SDState) (req : SDRequest) : bool :=
  if expecting_acmd sd then (req_cmd req =? 41) || (req_cmd req =? 42)
  else if (req_cmd req =? 16) || (req_cmd req =? 55) then true
  else (aget 0 sd_cmd_class (req_cmd req) =? 0) || (aget 0 sd_cmd_class (req_cmd req) =? 7).

Definition ready (sd : SDState) : bool := inserted sd && enable sd.

(** Run the command and record the state before it. *)
Definition run_command (sd : SDState) (req : SDRequest) : sd_rsp_type_t * SDState :=
  let last_state := state_num (state sd) in
  let sd := sd_set_mode sd in
  let '(rtype, sd) :=
    if expecting_acmd sd then sd_app_command sd.[expecting_acmd := false] req
    else sd_normal_command sd req in
  if bool_decide (rtype = sd_illegal) then (rtype, set_status sd ILLEGAL_COMMAND)
  else
    let sd := sd.[current_cmd := u8 (req_cmd req)] in
    let sd := clear_status sd CURRENT_STATE in
    (rtype, sd.[card_status := u32 (card_status sd .| (last_state .<< 9))]).

(** The label send_response: the response bytes, then the status bits they clear. *)
Definition send_response (rtype : sd_rsp_type_t) (sd : SDState) : list Z * SDState :=
  let '(rsp, sd) :=
    match rtype with
    | sd_r1 | sd_r1b => sd_response_r1_make sd
    | sd_r2_i => (cid sd, sd)
    | sd_r2_s => (csd sd, sd)
    | sd_r3 => (sd_response_r3_make sd, sd)
    | sd_r6 => sd_response_r6_make sd
    | sd_r7 => (sd_response_r7_make sd, sd)
    | sd_r0 | sd_illegal => ([], sd)
    end in
  (rsp, if bool_decide (rtype = sd_illegal) then sd else clear_status sd CARD_STATUS_B).

(** The result [rsplen] is the length of the returned response. *)
Definition sd_do_command (sd : SDState) (req : SDRequest) : list Z * SDState :=
  if negb (ready sd) then ([], sd)
  else if sd_req_crc_validate req then send_response sd_illegal (set_status sd COM_CRC_ERROR)
  else if (card_status sd .&? CARD_IS_LOCKED) && negb (cmd_valid_while_locked sd req) then
    send_response sd_illegal (set_status sd ILLEGAL_COMMAND).[expecting_acmd := false]
  else
    let '(rtype, sd) := run_command sd req in
    send_response rtype sd.

(** ** Data transfer

    The bounce buffer [sd->buf] is local to the two functions: both fill it
    before they use it. *)

Definition sd_blk_read (sd : SDState) (addr len : Z) : SDState :=
  let end' := u64 (addr + len) in
  let off := addr .& 511 in
  match bdrv sd with
  | None => sd
  | Some b =>
      match bdrv_read b (addr .>> 9) with
      | None => sd
      | Some buf =>
          if (addr - off) + 512 <? end' then
            let sd := sd.[data := memcpy (data sd) 0 (slice buf off (512 - off))] in
            match bdrv_read b (end' .>> 9) with
            | None => sd
            | Some buf => sd.[data := memcpy (data sd) (512 - off) (slice buf 0 (end' .& 511))]
            end
          else sd.[data := memcpy (data sd) 0 (slice buf off len)]
      end
  end.

Definition sd_blk_write (sd : SDState) (addr len : Z) : SDState :=
  let end' := u64 (addr + len) in
  let off := addr .& 511 in
  match bdrv sd with
  | None => sd
  | Some b =>
      match (if truth off || (len <? 512) then bdrv_read b (addr .>> 9)
             else Some (replicate 512 0)) with
      | None => sd
      | Some buf =>
          if (addr - off) + 512 <? end' then
            let buf := memcpy buf off (slice (data sd) 0 (512 - off)) in
            let '(ok, b) := bdrv_write b (addr .>> 9) buf in
            let sd := sd.[bdrv := Some b] in
            if ok then
              match bdrv_read b (end' .>> 9) with
              | None => sd
              | Some buf =>
                  let buf := memcpy buf 0 (slice (data sd) (512 - off) (end' .& 511)) in
                  sd.[bdrv := Some (snd (bdrv_write b (end' .>> 9) buf))]
              end
            else sd
          else
            let buf := memcpy buf off (slice (data sd) 0 len) in
            sd.[bdrv := Some (snd (bdrv_write b (addr .>> 9) buf))]
      end
  end.

(** [sd->data[sd->data_offset ++] = value]. *)
Definition store (sd : SDState) (value : Z) : SDState :=
  let sd := sd.[data := aset (data sd) (data_offset sd) (u8 value)] in
  sd.[data_offset := u32 (data_offset sd + 1)].
Definition touch_csd (sd : SDState) : SDState :=
  sd.[csd := aset (csd sd) 14 (aget 0 (csd sd) 14 .| 0x40)].

(** CMD24: the block is written when it is complete. *)
Definition write_single (sd : SDState) (value : Z) : SDState :=
  let sd := store sd value in
  if blk_len sd <=? data_offset sd then
    let sd := sd.[state := sd_programming_state] in
    let sd := sd_blk_write sd (data_start sd) (data_offset sd) in
    let sd := sd.[blk_written := u32 (blk_written sd + 1)] in
    (touch_csd sd).[state := sd_transfer_state]
  else sd.

(** CMD25: each block is checked at its first byte. *)
Definition write_multiple (sd : SDState) (value : Z) : SDState :=
  if (data_offset sd =? 0) && (size sd <? u64 (data_start sd + blk_len sd))
  then set_status sd ADDRESS_ERROR
  else if (data_offset sd =? 0) && sd_wp_addr sd (data_start sd) then set_status sd WP_VIOLATION
  else
    let sd := store sd value in
    if blk_len sd <=? data_offset sd then
      let sd := sd.[state := sd_programming_state] in
      let sd := sd_blk_write sd (data_start sd) (data_offset sd) in
      let sd := sd.[blk_written := u32 (blk_written sd + 1)] in
      let sd := sd.[data_start := u64 (data_start sd + blk_len sd)] in
      let sd := sd.[data_offset := 0] in
      (touch_csd sd).[state := sd_receivingdata_state]
    else sd.

(** CMD26 and CMD27 program a 16-byte register through a mask of writable bits. *)
Definition mismatch (reg dat mask : list Z) : bool :=
  existsb (fun i => negb ((aget 0 reg i .| aget 0 mask i) =? (aget 0 dat i .| aget 0 mask i)))
    (seqZ 0 16).
Definition merge (reg dat mask : list Z) : list Z :=
  (fun i => (aget 0 reg i .| aget 0 mask i) .& aget 0 dat i) <$> seqZ 0 16.

Definition program_cid (sd : SDState) (value : Z) : SDState :=
  let sd := store sd value in
  if 16 <=? data_offset sd then
    let sd := if mismatch (cid sd) (data sd) (replicate 16 0)
              then set_status sd CID_CSD_OVERWRITE else sd in
    let sd := if card_status sd .&? CID_CSD_OVERWRITE then sd
              else sd.[cid := merge (cid sd) (data sd) (replicate 16 0)] in
    sd.[state := sd_transfer_state]
  else sd.

Definition program_csd (sd : SDState) (value : Z) : SDState :=
  let sd := store sd value in
  if 16 <=? data_offset sd then
    let sd := if mismatch (csd sd) (data sd) sd_csd_rw_mask
              then set_status sd CID_CSD_OVERWRITE else sd in
    let sd := if aget 0 (csd sd) 14 .& not32 (aget 0 (data sd) 14) .&? 0x60
              then set_status sd CID_CSD_OVERWRITE else sd in
    let sd := if card_status sd .&? CID_CSD_OVERWRITE then sd
              else sd.[csd := merge (csd sd) (data sd) sd_csd_rw_mask] in
    sd.[state := sd_transfer_state]
  else sd.

Definition write_lock (sd : SDState) (value : Z) : SDState :=
  let sd := store sd value in
  if blk_len sd <=? data_offset sd then
    let sd := sd.[state := sd_programming_state] in
    (sd_lock_command sd).[state := sd_transfer_state]
  else sd.
Definition write_gen (sd : SDState) (value : Z) : SDState :=
  let sd := store sd value in
  if blk_len sd <=? data_offset sd then sd.[state := sd_transfer_state] else sd.

Definition sd_write_data (sd : SDState) (value : Z) : SDState :=
  if negb (ready sd) then sd
  else if negb (bool_decide (state sd = sd_receivingdata_state)) then sd
  else if card_status sd .&? (ADDRESS_ERROR .| WP_VIOLATION) then sd
  else
    let c := current_cmd sd in
    if c =? 24 then write_single sd value
    else if c =? 25 then write_multiple sd value
    else if c =? 26 then program_cid sd value
    else if c =? 27 then program_csd sd value
    else if c =? 42 then write_lock sd value
    else if c =? 56 then write_gen sd value
    else sd.

(** The array the current command reads, indexed by [data_offset]. *)
Definition read_array (sd : SDState) : list Z :=
  let c := current_cmd sd in
  if c =? 13 then sd_status sd else if c =? 51 then scr sd else data sd.
Definition next_byte (sd : SDState) : Z * SDState :=
  (aget 0 (read_array sd) (data_offset sd), sd.[data_offset := u32 (data_offset sd + 1)]).

(** A register or a single block: the transfer ends after [len] bytes. *)
Definition read_fixed (sd : SDState) (len : Z) : Z * SDState :=
  let '(ret, sd) := next_byte sd in
  (ret, if len <=? data_offset sd then sd.[state := sd_transfer_state] else sd).
(** Successive blocks of [io_len] bytes until the end of the card. *)
Definition read_stream (sd : SDState) (io_len : Z) : Z * SDState :=
  let sd := if data_offset sd =? 0 then sd_blk_read sd (data_start sd) io_len else sd in
  let '(ret, sd) := next_byte sd in
  (ret,
   if io_len <=? data_offset sd then
     let sd := sd.[data_start := u64 (data_start sd + io_len)].[data_offset := 0] in
     if size sd <? u64 (data_start sd + io_len) then set_status sd ADDRESS_ERROR else sd
   else sd).

Definition sd_read_data (sd : SDState) : Z * SDState :=
  if negb (ready sd) then (0, sd)
  else if negb (bool_decide (state sd = sd_sendingdata_state)) then (0, sd)
  else if card_status sd .&? (ADDRESS_ERROR .| WP_VIOLATION) then (0, sd)
  else
    let io_len := if high_capacity sd then 512 else blk_len sd in
    let c := current_cmd sd in
    if c =? 6 then read_fixed sd 64
    else if (c =? 9) || (c =? 10) then read_fixed sd 16
    else if c =? 11 then read_stream sd io_len
    else if c =? 13 then read_fixed sd 64
    else if c =? 17 then
      let sd := if data_offset sd =? 0 then sd_blk_read sd (data_start sd) io_len else sd in
      read_fixed sd io_len
    else if c =? 18 then read_stream sd io_len
    else if (c =? 22) || (c =? 30) then read_fixed sd 4
    else if c =? 51 then read_fixed sd 8
    else if c =? 56 then
      let sd := if data_offset sd =? 0
                then sd.[data := memcpy (data sd) 0 (replicate (Z.to_nat (blk_len sd)) 0xec)]
                else sd in
      read_fixed sd (blk_len sd)
    else (0, sd).

Definition sd_data_ready (sd : SDState) : bool := bool_decide (state sd = sd_sendingdata_state).
Definition sd_enable (sd : SDState) (e : bool) : SDState := sd.[enable := e].
End Card.
Arguments SDState B : clear implicits.
End Sd.
