(* ===== verification/SdProps.v ===== *)
(** * Theorems on the SD card

    The card registers describe the drive, the block functions move exactly the
    addressed bytes, a block written with CMD24 is the block CMD17 reads, the
    data phase stays inside its buffers except after a CMD13, and a card in SPI
    mode never writes its drive. *)

From S2P Require Import Prelude Irq Block Sd.

Module SdProps.
Import Sd.

(** Offsets and sector numbers of byte addresses. *)
Lemma land511 a : a .& 511 = a mod 512.
Proof. exact (Z.land_ones a 9 ltac:(lia)). Qed.
Lemma shiftr9 a : a .>> 9 = a / 512.
Proof. exact (Z.shiftr_div_pow2 a 9 ltac:(lia)). Qed.
Lemma sector_offset a : a = 512 * (a / 512) + a mod 512 /\ 0 <= a mod 512 < 512.
Proof. split; [apply Z.div_mod; lia|by apply Z.mod_pos_bound]. Qed.
Lemma sector_unique a n r : 0 <= r < 512 -> a = 512 * n + r -> a / 512 = n /\ a mod 512 = r.
Proof.
  intros Hr ->. split; [symmetry; by apply (Z.div_unique _ _ _ r); lia|
                        symmetry; by apply (Z.mod_unique _ _ n); lia].
Qed.

Section Blocks.
Context {B : Type} `{!BlockDriver B, !BlockLaws B}.
Implicit Types (sd : SDState B).

(** The bytes of [d] from index 0 come from address [addr] of the drive. *)
Definition gathered (b : B) (addr len : Z) (d0 d : list Z) : Prop :=
  length d = 512%nat /\ forall k, 0 <= k < 512 ->
    aget 0 d k = if k <? len then drive_byte b (addr + k) else aget 0 d0 k.

(** Part of one sector, copied to the start of the buffer. *)
Lemma gather_within b n o len buf d0 :
  bdrv_read b n = Some buf -> length d0 = 512%nat -> 0 <= o -> 0 <= len -> o + len <= 512 ->
  gathered b (512 * n + o) len d0 (memcpy d0 0 (slice buf o len)).
Proof.
  intros Hbuf Hd Ho Hl Hlen. destruct (read_sector b n buf Hbuf) as [Lbuf _].
  assert (length (slice buf o len) = Z.to_nat len) as S1 by (apply length_slice; lia).
  split; [by rewrite length_memcpy; lia|]. intros k Hk. rewrite aget_memcpy by lia. rewrite S1.
  destruct (Z.leb_spec 0 k); [|lia]. replace (0 + Z.of_nat (Z.to_nat len)) with len by lia. cbn [andb].
  destruct (Z.ltb_spec k len); [|done]. rewrite aget_slice by lia. unfold drive_byte.
  destruct (sector_unique (512 * n + o + k) n (o + k)) as [-> ->]; [lia..|]. rewrite Hbuf.
  cbn. f_equal. lia.
Qed.

(** The start of the next sector, copied behind. *)
Lemma gather_across b n o len buf d0 d1 :
  bdrv_read b (n + 1) = Some buf -> 0 <= o < 512 -> 512 < o + len -> len <= 512 ->
  gathered b (512 * n + o) (512 - o) d0 d1 ->
  gathered b (512 * n + o) len d0 (memcpy d1 (512 - o) (slice buf 0 (o + len - 512))).
Proof.
  intros Hbuf Ho Hl Hlen [L1 G1]. destruct (read_sector b (n + 1) buf Hbuf) as [Lbuf _].
  assert (length (slice buf 0 (o + len - 512)) = Z.to_nat (o + len - 512)) as S2
    by (apply length_slice; lia).
  split; [by rewrite length_memcpy; lia|]. intros k Hk. rewrite aget_memcpy by lia. rewrite S2.
  replace (512 - o + Z.of_nat (Z.to_nat (o + len - 512))) with len by lia.
  rewrite G1 by done.
  destruct (Z.leb_spec (512 - o) k), (Z.ltb_spec k len), (Z.ltb_spec k (512 - o)); cbn [andb]; try done; try lia.
  rewrite aget_slice by lia. unfold drive_byte.
  destruct (sector_unique (512 * n + o + k) (n + 1) (k - (512 - o))) as [-> ->]; [lia..|]. by rewrite Hbuf.
Qed.

Lemma blk_read_gathered sd b addr len :
  bdrv sd = Some b -> length (data sd) = 512%nat ->
  0 <= addr -> 0 <= len <= 512 -> addr + len <= 512 * bdrv_get_geometry b ->
  addr < 512 * bdrv_get_geometry b -> 512 * bdrv_get_geometry b < 2 ^ 64 ->
  exists d, sd_blk_read sd addr len = sd.[data := d] /\ gathered b addr len (data sd) d.
Proof.
  intros Hb Hd Ha Hl Hend Hin H64. unfold sd_blk_read. rewrite Hb, !land511, !shiftr9.
  unfold u64. rewrite (Z.mod_small (addr + len)) by lia.
  destruct (sector_offset addr) as [Ea Ho]. set (n := addr / 512) in *. set (o := addr mod 512) in *.
  destruct (read_in_range b n) as [buf Hbuf]; [lia|]. rewrite Hbuf, Ea. clearbody n o.
  destruct (Z.ltb_spec (512 * n + o - o + 512) (512 * n + o + len)).
  - destruct (sector_unique (512 * n + o + len) (n + 1) (o + len - 512)) as [En Er]; [lia..|].
    rewrite En, Er. destruct (read_in_range b (n + 1)) as [buf2 Hbuf2]; [lia|]. rewrite Hbuf2.
    eexists. split; [reflexivity|]. apply gather_across; try done; try lia.
    apply gather_within; auto; lia.
  - eexists. split; [reflexivity|]. apply gather_within; auto; lia.
Qed.

(**  [sd_blk_read] copies exactly the [len] bytes of the drive from [addr] on into
    the data buffer, across a sector boundary if need be, and leaves the rest of
    the buffer alone. *)
Theorem blk_read_bytes sd b addr len :
  bdrv sd = Some b -> length (data sd) = 512%nat ->
  0 <= addr -> 0 <= len <= 512 -> addr + len <= 512 * bdrv_get_geometry b ->
  addr < 512 * bdrv_get_geometry b -> 512 * bdrv_get_geometry b < 2 ^ 64 ->
  exists d, sd_blk_read sd addr len = sd.[data := d] /\ length d = 512%nat /\
    forall k, 0 <= k < 512 ->
      aget 0 d k = if k <? len then drive_byte b (addr + k) else aget 0 (data sd) k.
Proof. apply blk_read_gathered. Qed.

(** The drive after a write: [len] bytes of [d] from index [i] at [addr]. *)
Definition scattered (b b' : B) (addr len : Z) (d : list Z) (i : Z) : Prop :=
  (forall a, 0 <= a -> drive_byte b' a =
     if (addr <=? a) && (a <? addr + len) then aget 0 d (i + (a - addr)) else drive_byte b a) /\
  bdrv_get_geometry b' = bdrv_get_geometry b /\ bdrv_is_read_only b' = false /\
  bdrv_is_inserted b' = bdrv_is_inserted b.

(** One sector is patched and written back. *)
Lemma write_patch b n o len buf d i :
  0 <= n < bdrv_get_geometry b -> bdrv_is_read_only b = false ->
  bdrv_read b n = Some buf \/ (o = 0 /\ len = 512 /\ buf = replicate 512 0) ->
  0 <= o -> 0 <= len -> o + len <= 512 -> 0 <= i -> i + len <= Z.of_nat (length d) ->
  Forall (is_u 8) d ->
  exists b', bdrv_write b n (memcpy buf o (slice d i len)) = (true, b') /\
    scattered b b' (512 * n + o) len d i.
Proof.
  intros Hn Hro Hbuf Ho Hl Hol Hi Hd Hu.
  assert (length buf = 512%nat /\ Forall (is_u 8) buf) as [Lb Ub].
  { destruct Hbuf as [Hbuf|(_ & _ & ->)]; [by eapply read_sector|].
    split; [apply length_replicate|]. apply Forall_replicate. by vm_compute. }
  assert (length (slice d i len) = Z.to_nat len) as S1 by (apply length_slice; lia).
  destruct (write_in_range b n (memcpy buf o (slice d i len))) as (b' & E & R1 & R2 & G); try done;
    [rewrite length_memcpy; lia|by apply Forall_memcpy, Forall_slice|].
  exists b'. split; [done|]. split; [|by destruct G]. intros a Ha. unfold drive_byte.
  destruct (sector_offset a) as [Ea Ho'].
  destruct (Z.eq_dec (a / 512) n) as [En|Nn].
  - rewrite En, R1. cbn [from_option id]. rewrite aget_memcpy by lia. rewrite S1.
    replace (o + Z.of_nat (Z.to_nat len)) with (o + len) by lia.
    destruct (Z.leb_spec o (a mod 512)), (Z.leb_spec (512 * n + o) a); try lia; cbn [andb];
      [destruct (Z.ltb_spec (a mod 512) (o + len)), (Z.ltb_spec a (512 * n + o + len)); try lia|].
    + rewrite aget_slice by lia. f_equal. lia.
    + destruct Hbuf as [->|]; [done|lia].
    + destruct Hbuf as [->|]; [done|lia].
  - rewrite R2 by done.
    destruct (Z.leb_spec (512 * n + o) a), (Z.ltb_spec a (512 * n + o + len)); cbn [andb]; try done. lia.
Qed.

Lemma blk_write_scattered sd b addr len :
  bdrv sd = Some b -> bdrv_is_read_only b = false ->
  length (data sd) = 512%nat -> Forall (is_u 8) (data sd) ->
  0 <= addr -> 0 <= len <= 512 -> addr + len <= 512 * bdrv_get_geometry b ->
  addr < 512 * bdrv_get_geometry b -> 512 * bdrv_get_geometry b < 2 ^ 64 ->
  exists b', sd_blk_write sd addr len = sd.[bdrv := Some b'] /\ scattered b b' addr len (data sd) 0.
Proof.
  intros Hb Hro Hd Hu Ha Hl Hend Hin H64. unfold sd_blk_write. rewrite Hb, !land511, !shiftr9.
  unfold u64. rewrite (Z.mod_small (addr + len)) by lia.
  destruct (sector_offset addr) as [Ea Ho]. set (n := addr / 512) in *. set (o := addr mod 512) in *.
  assert (exists buf, (if truth o || (len <? 512) then bdrv_read b n else Some (replicate 512 0)) = Some buf /\
    (bdrv_read b n = Some buf \/ (o = 0 /\ len = 512 /\ buf = replicate 512 0))) as (buf & E & Hbuf).
  { destruct (truth o) eqn:To; cbn [orb]; [|destruct (Z.ltb_spec len 512)].
    1, 2: (destruct (read_in_range b n) as [buf ?]; [lia|]; eauto).
    apply truth_false in To. eexists. split; [done|]. right. split; [done|]. split; [lia|done]. }
  rewrite E, Ea. clearbody n o. clear E.
  destruct (Z.ltb_spec (512 * n + o - o + 512) (512 * n + o + len)).
  - destruct (sector_unique (512 * n + o + len) (n + 1) (o + len - 512)) as [En Er]; [lia..|].
    destruct (write_patch b n o (512 - o) buf (data sd) 0) as (b1 & -> & W1 & G1 & G2 & G3); auto; try lia.
    { destruct Hbuf as [|(-> & ? & ?)]; [by left|right; done]. }
    rewrite En, Er. destruct (read_in_range b1 (n + 1)) as [buf2 Hbuf2]; [lia|]. rewrite Hbuf2.
    destruct (write_patch b1 (n + 1) 0 (o + len - 512) buf2 (data sd) (512 - o))
      as (b2 & E2 & W2 & F1 & F2 & F3); auto; try lia.
    cbn [data set_field]. rewrite E2. exists b2. split; [done|].
    split; [|split; [congruence|split; congruence]]. intros a Ha'. rewrite W2, W1 by done.
    destruct (Z.leb_spec (512 * (n + 1) + 0) a), (Z.ltb_spec a (512 * (n + 1) + 0 + (o + len - 512))),
      (Z.leb_spec (512 * n + o) a), (Z.ltb_spec a (512 * n + o + (512 - o))),
      (Z.ltb_spec a (512 * n + o + len)); cbn [andb]; try lia; try done. f_equal. lia.
  - destruct (write_patch b n o len buf (data sd) 0) as (b1 & -> & W1); auto; try lia. by exists b1.
Qed.

(**  [sd_blk_write] stores exactly the first [len] bytes of the data buffer at
    [addr], read-modify-writing the one or two sectors involved: every other byte
    of the drive keeps its value. *)
Theorem blk_write_bytes sd b addr len :
  bdrv sd = Some b -> bdrv_is_read_only b = false ->
  length (data sd) = 512%nat -> Forall (is_u 8) (data sd) ->
  0 <= addr -> 0 <= len <= 512 -> addr + len <= 512 * bdrv_get_geometry b ->
  addr < 512 * bdrv_get_geometry b -> 512 * bdrv_get_geometry b < 2 ^ 64 ->
  exists b', sd_blk_write sd addr len = sd.[bdrv := Some b'] /\
    forall a, 0 <= a -> drive_byte b' a =
      if (addr <=? a) && (a <? addr + len) then aget 0 (data sd) (a - addr) else drive_byte b a.
Proof.
  intros Hb Hro Hd Hu Ha Hl Hend Hin H64.
  destruct (blk_write_scattered sd b addr len) as (b' & E & S & _); auto.
  exists b'. split; [done|exact S].
Qed.

(** ** Status bits *)

(** No transfer error is pending. *)
Definition no_error (sd : SDState B) : Prop :=
  Z.testbit (card_status sd) 30 = false /\ Z.testbit (card_status sd) 26 = false.

Lemma no_error_spec sd : no_error sd <-> (card_status sd .&? (ADDRESS_ERROR .| WP_VIOLATION)) = false.
Proof.
  unfold no_error, ADDRESS_ERROR, WP_VIOLATION.
  by rewrite Z.land_lor_distr_r, truth_lor, !flag_testbit, orb_false_iff by lia.
Qed.

Definition locked (sd : SDState B) : bool := card_status sd .&? CARD_IS_LOCKED.

(** The status after a valid command: the old state recorded, then the response
    and command bits cleared. *)
Definition status_sent (st0 : SDCardStates) (cs : Z) : Z :=
  u32 ((cs .& not32 CURRENT_STATE) .| (state_num st0 .<< 9)).
Definition status_after (st0 : SDCardStates) (cs : Z) : Z :=
  (status_sent st0 cs .& not32 CARD_STATUS_C) .& not32 CARD_STATUS_B.

(** A command answered with an R1 response. *)
Lemma do_command_r1 sd req sd1 :
  ready sd = true -> locked sd = false -> expecting_acmd sd = false ->
  sd_normal_command (sd_set_mode sd) req = (sd_r1, sd1) ->
  sd_do_command sd req =
    (bytes_be32 (status_sent (state sd) (card_status sd1)),
     sd1.[current_cmd := u8 (req_cmd req)].[card_status := status_after (state sd) (card_status sd1)]).
Proof.
  intros Hr Hl Ha E. unfold sd_do_command. rewrite Hr. unfold locked in Hl. rewrite Hl. cbn [negb andb].
  unfold sd_req_crc_validate, run_command.
  assert (expecting_acmd (sd_set_mode sd) = false) as -> by (unfold sd_set_mode; by destruct (state sd)).
  rewrite E. done.
Qed.

Lemma status_after_clear st cs k : 0 <= k < 32 -> Z.testbit CARD_STATUS_C k = true ->
  Z.testbit (status_after st cs) k = false.
Proof.
  intros Hk Hc. unfold status_after. rewrite !Z.land_spec, !not32_spec, Hc by lia. cbn [negb].
  by rewrite andb_false_r.
Qed.

(** ** Reading a block *)

(** A card that waits for a command in the transfer state. *)
Record card (sd : SDState B) (b : B) : Prop := {
  card_ready : ready sd = true; card_bdrv : bdrv sd = Some b; card_lock : locked sd = false;
  card_acmd : expecting_acmd sd = false; card_tran : state sd = sd_transfer_state;
  card_data : length (data sd) = 512%nat; card_size : size sd = 512 * bdrv_get_geometry b;
  card_max : 512 * bdrv_get_geometry b < 2 ^ 63
}.

(** The byte address an argument denotes, and the length of a block read. *)
Definition addr_of (sd : SDState B) (arg : Z) : Z :=
  if high_capacity sd then u64 (arg .<< 9) else arg.
Definition io_len (sd : SDState B) : Z := if high_capacity sd then 512 else blk_len sd.

Lemma addr_of_nonneg sd arg : is_u 32 arg -> 0 <= addr_of sd arg.
Proof. intros Ha. unfold addr_of. destruct (high_capacity sd); [apply is_u_u64|by destruct Ha]. Qed.

(** Everything of [card] but the state. *)
Record working (sd : SDState B) (b : B) : Prop := {
  wk_ready : ready sd = true; wk_bdrv : bdrv sd = Some b; wk_lock : locked sd = false;
  wk_acmd : expecting_acmd sd = false; wk_data : length (data sd) = 512%nat;
  wk_size : size sd = 512 * bdrv_get_geometry b; wk_max : 512 * bdrv_get_geometry b < 2 ^ 63
}.
Lemma card_working sd b : card sd b <-> working sd b /\ state sd = sd_transfer_state.
Proof. split; [intros []; split; [by constructor|done]|intros [[] ?]; by constructor]. Qed.

(** The lock bit survives a response. *)
Lemma status_after_lock st cs : Z.testbit cs 25 = false -> st <> sd_inactive_state ->
  truth (status_after st cs .& CARD_IS_LOCKED) = false.
Proof.
  intros Hl Hst. unfold CARD_IS_LOCKED. rewrite flag_testbit by lia.
  unfold status_after, status_sent. rewrite !Z.land_spec. unfold u32.
  rewrite Z.mod_pow2_bits_low, Z.lor_spec, !Z.land_spec, Hl by lia. cbn [andb orb].
  rewrite Z.shiftl_spec by lia. destruct st; try done; by vm_compute.
Qed.
Lemma locked_bit sd : locked sd = Z.testbit (card_status sd) 25.
Proof. unfold locked, CARD_IS_LOCKED. by rewrite flag_testbit by lia. Qed.

(** In the middle of CMD17: [k] bytes of the block at [addr] are out. *)
Record sending (sd : SDState B) (b : B) (addr len k : Z) : Prop := {
  snd_work : working sd b; snd_ok : no_error sd;
  snd_state : state sd = sd_sendingdata_state; snd_cmd : current_cmd sd = 17;
  snd_start : data_start sd = addr; snd_len : io_len sd = len; snd_off : data_offset sd = k;
  snd_buf : 0 < k -> forall j, 0 <= j < len -> aget 0 (data sd) j = drive_byte b (addr + j)
}.

Lemma cmd17_accepted sd b arg crc :
  card sd b -> is_u 32 arg -> 0 <= blk_len sd -> addr_of sd arg + blk_len sd <= size sd ->
  sd_normal_command (sd_set_mode sd) (mkReq 17 arg crc) =
    (sd_r1, start_data (clear_status sd.[mode := sd_data_transfer_mode] APP_CMD)
              sd_sendingdata_state (addr_of sd arg)).
Proof.
  intros [] Ha Hl Hr.
  pose proof (addr_of_nonneg sd arg Ha) as Hpos.
  unfold sd_set_mode. rewrite card_tran0. unfold sd_normal_command, between. cbn [req_cmd req_arg].
  switch. unfold cmd_read. cbn [state clear_status set_field]. rewrite card_tran0. f_equal.
  change (high_capacity (sd.[mode := sd_data_transfer_mode])) with (high_capacity sd).
  fold (addr_of sd arg). unfold check_range, start_data. cbn.
  rewrite u64_small by (unfold is_u; lia).
  destruct (Z.ltb_spec (size sd) (addr_of sd arg + blk_len sd)); [lia|done].
Qed.

Lemma cmd17_sending sd b arg crc :
  card sd b -> is_u 32 arg -> 0 <= blk_len sd -> addr_of sd arg + blk_len sd <= size sd ->
  exists sd1, sd_do_command sd (mkReq 17 arg crc) =
    (bytes_be32 (status_sent sd_transfer_state (card_status sd .& not32 APP_CMD)), sd1) /\
    sending sd1 b (addr_of sd arg) (io_len sd) 0.
Proof.
  intros Hc Ha Hl Hr. pose proof (cmd17_accepted sd b arg crc Hc Ha Hl Hr) as E. destruct Hc.
  rewrite (do_command_r1 sd _ _ card_ready0 card_lock0 card_acmd0 E), card_tran0.
  eexists. split; [reflexivity|].
  rewrite locked_bit in card_lock0.
  assert (truth (status_after sd_transfer_state (card_status sd .& not32 APP_CMD) .& CARD_IS_LOCKED) = false)
    as Hk by (apply status_after_lock; [by rewrite Z.land_spec, card_lock0|done]).
  constructor; try done; try lia. split; by apply status_after_clear.
Qed.

Lemma read_step sd b addr len k :
  sending sd b addr len k -> 0 <= k < len -> len <= 512 -> 0 <= addr -> addr + len <= size sd ->
  exists sd', sd_read_data sd = (drive_byte b (addr + k), sd') /\ size sd' = size sd /\
    if k + 1 =? len then card sd' b else sending sd' b addr len (k + 1).
Proof.
  intros [[] Hok Hst Hcmd Hs Hl Hoff Hbuf] Hk Hlen Haddr Hin.
  apply no_error_spec in Hok as Hok'. unfold sd_read_data.
  rewrite wk_ready0, Hst, Hok', Hcmd. switch. cbn [negb]. rewrite bool_decide_true by done. cbn [negb].
  unfold io_len in Hl. rewrite Hl, Hs, Hoff.
  assert (exists d, (if k =? 0 then sd_blk_read sd addr len else sd) = sd.[data := d] /\
    length d = 512%nat /\ forall j, 0 <= j < len -> aget 0 d j = drive_byte b (addr + j)) as (d & -> & Ld & Gd).
  { destruct (Z.eqb_spec k 0).
    - destruct (blk_read_gathered sd b addr len) as (d & E & Ld & Gd); auto; try lia.
      exists d. split; [done|]. split; [done|]. intros j Hj. rewrite Gd by lia.
      by destruct (Z.ltb_spec j len); [|lia].
    - exists (data sd). split; [by destruct sd|]. split; [done|]. apply Hbuf. lia. }
  unfold read_fixed, next_byte, read_array. cbn. rewrite Hcmd, Hoff. switch.
  rewrite Gd by lia. eexists. split; [reflexivity|].
  rewrite u32_small by (unfold is_u; lia).
  destruct (Z.eqb_spec (k + 1) len), (Z.leb_spec len (k + 1)); try lia.
  - split; [done|]. by constructor.
  - split; [done|]. constructor; try done; by constructor.
Qed.

(** ** Writing a block *)

(** In the middle of CMD24: the bytes [pre] of the block are in the buffer. *)
Record receiving (sd : SDState B) (b : B) (addr : Z) (pre : list Z) : Prop := {
  rcv_work : working sd b; rcv_ok : no_error sd;
  rcv_state : state sd = sd_receivingdata_state; rcv_cmd : current_cmd sd = 24;
  rcv_start : data_start sd = addr; rcv_off : data_offset sd = Z.of_nat (length pre);
  rcv_u8 : Forall (is_u 8) (data sd);
  rcv_buf : forall j, 0 <= j < Z.of_nat (length pre) -> aget 0 (data sd) j = u8 (aget 0 pre j)
}.

(** Protection only raises status bits. *)
Lemma check_protect_status sd : exists cs, check_protect sd = sd.[card_status := cs] /\
  Z.testbit cs 25 = Z.testbit (card_status sd) 25.
Proof.
  assert (forall sd m, Z.testbit m 25 = false -> set_status sd m = sd.[card_status := card_status sd .| m] /\
    Z.testbit (card_status sd .| m) 25 = Z.testbit (card_status sd) 25) as Hs.
  { intros x m Hm. split; [done|]. by rewrite Z.lor_spec, Hm, orb_false_r. }
  destruct (Hs sd WP_VIOLATION eq_refl) as [_ H1].
  unfold check_protect. destruct (sd_wp_addr sd (data_start sd)), (_ .&? 0x30).
  - eexists. split; [reflexivity|]. cbn. rewrite Z.lor_spec, orb_false_r. exact H1.
  - eexists. split; [reflexivity|]. exact H1.
  - eexists. split; [reflexivity|]. exact H1.
  - exists (card_status sd). split; [by destruct sd|done].
Qed.

Lemma cmd24_receiving sd b arg crc :
  card sd b -> spi sd = false -> is_u 32 arg -> 0 <= blk_len sd ->
  addr_of sd arg + blk_len sd <= size sd -> Forall (is_u 8) (data sd) ->
  exists rsp sd1, sd_do_command sd (mkReq 24 arg crc) = (rsp, sd1) /\
    receiving sd1 b (addr_of sd arg) [] /\ blk_len sd1 = blk_len sd /\ ocr sd1 = ocr sd.
Proof.
  intros Hc Hspi Ha Hl Hr Hu. destruct Hc.
  pose proof (addr_of_nonneg sd arg Ha) as Hpos.
  set (x := (start_data (clear_status sd.[mode := sd_data_transfer_mode] APP_CMD)
               sd_receivingdata_state (addr_of sd arg)).[blk_written := 0]).
  assert (sd_normal_command (sd_set_mode sd) (mkReq 24 arg crc) = (sd_r1, check_protect x)) as E.
  { unfold sd_set_mode. rewrite card_tran0. unfold sd_normal_command, between. cbn [req_cmd req_arg].
    switch. unfold cmd_write. cbn [state spi clear_status set_field]. rewrite card_tran0, Hspi. switch.
    change (high_capacity (sd.[mode := sd_data_transfer_mode])) with (high_capacity sd).
    fold (addr_of sd arg). do 2 f_equal. unfold check_range, start_data, x. cbn.
    rewrite u64_small by (unfold is_u; lia).
    destruct (Z.ltb_spec (size sd) (addr_of sd arg + blk_len sd)); [lia|done]. }
  rewrite (do_command_r1 sd _ _ card_ready0 card_lock0 card_acmd0 E), card_tran0.
  destruct (check_protect_status x) as (cs & -> & Hcs). eexists _, _. split; [reflexivity|].
  cbn [card_status set_field]. rewrite locked_bit in card_lock0.
  assert (truth (status_after sd_transfer_state cs .& CARD_IS_LOCKED) = false) as Hk.
  { apply status_after_lock; [|done]. rewrite Hcs. cbn. by rewrite Z.land_spec, card_lock0. }
  split; [|done]. constructor; try done; [split; by apply status_after_clear|].
  cbn. lia.
Qed.

(** A byte that does not complete the block. *)
Lemma write_byte sd b addr pre v :
  receiving sd b addr pre -> Z.of_nat (length pre) + 1 < blk_len sd -> blk_len sd <= 512 ->
  receiving (sd_write_data sd v) b addr (pre ++ [v]) /\
  blk_len (sd_write_data sd v) = blk_len sd /\ ocr (sd_write_data sd v) = ocr sd.
Proof.
  intros [[] Hok Hst Hcmd Hs Hoff Hu Hbuf] Hk Hlen. apply no_error_spec in Hok as Hok'.
  unfold sd_write_data. rewrite wk_ready0, Hst, Hok', Hcmd, bool_decide_true by done. switch.
  unfold write_single, store. cbn. rewrite Hoff, u32_small by (unfold is_u; lia).
  destruct (Z.leb_spec (blk_len sd) (Z.of_nat (length pre) + 1)); [lia|].
  split; [|done]. constructor; try done.
  - constructor; try done. cbn. by rewrite length_aset.
  - rewrite length_app. cbn. lia.
  - cbn. by apply Forall_aset, is_u_u8.
  - rewrite length_app. cbn. intros j Hj. destruct (Z.eq_dec j (Z.of_nat (length pre))) as [->|Hne].
    + rewrite aget_aset_eq by lia. unfold aget. destruct (Z.leb_spec 0 (Z.of_nat (length pre))); [|lia].
      rewrite lookup_app_r, Nat2Z.id, Nat.sub_diag by lia. done.
    + rewrite aget_aset_ne, Hbuf by lia. unfold aget. destruct (Z.leb_spec 0 j); [|lia].
      by rewrite lookup_app_l by lia.
Qed.

(** [vs] stored at [addr], the rest of the drive as before. *)
Definition wrote (b b' : B) (addr : Z) (vs : list Z) : Prop :=
  forall a, 0 <= a -> drive_byte b' a =
    if (addr <=? a) && (a <? addr + Z.of_nat (length vs)) then u8 (aget 0 vs (a - addr))
    else drive_byte b a.

(** The last byte commits the block. *)
Lemma write_last sd b addr pre v :
  receiving sd b addr pre -> Z.of_nat (length pre) + 1 = blk_len sd -> blk_len sd <= 512 ->
  bdrv_is_read_only b = false -> 0 <= addr -> addr + blk_len sd <= size sd ->
  exists b', card (sd_write_data sd v) b' /\ wrote b b' addr (pre ++ [v]) /\
    blk_len (sd_write_data sd v) = blk_len sd /\ ocr (sd_write_data sd v) = ocr sd /\
    size (sd_write_data sd v) = size sd.
Proof.
  intros [[] Hok Hst Hcmd Hs Hoff Hu Hbuf] Hk Hlen Hro Ha Hin. apply no_error_spec in Hok as Hok'.
  unfold sd_write_data. rewrite wk_ready0, Hst, Hok', Hcmd, bool_decide_true by done. switch.
  unfold write_single, store. cbn [data_offset set_field blk_len].
  rewrite Hoff, u32_small by (unfold is_u; lia).
  destruct (Z.leb_spec (blk_len sd) (Z.of_nat (length pre) + 1)); [|lia].
  set (d := aset (data sd) (Z.of_nat (length pre)) (u8 v)).
  set (x := ((sd.[data := d]).[data_offset := Z.of_nat (length pre) + 1]).[state := sd_programming_state]).
  assert (length d = 512%nat) as Ld by (subst d; by rewrite length_aset).
  assert (Forall (is_u 8) d) as Ud by (subst d; by apply Forall_aset, is_u_u8).
  destruct (blk_write_scattered x b addr (Z.of_nat (length pre) + 1)) as (b' & E & W & G1 & G2 & G3);
    subst x; cbn; auto; try lia.
  cbn in E. rewrite Hs, E. exists b'. split.
  { constructor; try done; cbn; try congruence. unfold ready, inserted in *. cbn. rewrite G3. by rewrite wk_bdrv0 in wk_ready0. }
  split; [|done]. intros a Ha'. rewrite W by done. rewrite length_app. cbn [length].
  replace (Z.of_nat (length pre + 1)) with (Z.of_nat (length pre) + 1) by lia.
  destruct (Z.leb_spec addr a), (Z.ltb_spec a (addr + (Z.of_nat (length pre) + 1))); cbn [andb]; try done.
  replace (0 + (a - addr)) with (a - addr) by lia. cbn [data set_field]. subst d.
  destruct (Z.eq_dec (a - addr) (Z.of_nat (length pre))) as [->|Hne].
  - rewrite aget_aset_eq by lia. unfold aget. destruct (Z.leb_spec 0 (Z.of_nat (length pre))); [|lia].
    by rewrite lookup_app_r, Nat2Z.id, Nat.sub_diag by lia.
  - rewrite aget_aset_ne, Hbuf by lia. unfold aget. destruct (Z.leb_spec 0 (a - addr)); [|lia].
    by rewrite lookup_app_l by lia.
Qed.

Lemma write_rest vs : forall sd b addr pre,
  receiving sd b addr pre -> vs <> [] -> Z.of_nat (length pre + length vs) = blk_len sd ->
  blk_len sd <= 512 -> bdrv_is_read_only b = false -> 0 <= addr -> addr + blk_len sd <= size sd ->
  exists b', card (foldl sd_write_data sd vs) b' /\ wrote b b' addr (pre ++ vs) /\
    blk_len (foldl sd_write_data sd vs) = blk_len sd /\ ocr (foldl sd_write_data sd vs) = ocr sd /\
    size (foldl sd_write_data sd vs) = size sd.
Proof.
  induction vs as [|v [|v' vs] IH]; intros sd b addr pre Hr Hne Hl Hlen Hro Ha Hin; [done| |].
  - cbn [foldl length] in *. apply write_last; auto. lia.
  - cbn [foldl length] in *.
    destruct (write_byte sd b addr pre v Hr) as (Hr' & E1 & E2); [lia|lia|].
    assert (size (sd_write_data sd v) = size sd) as E3.
    { destruct Hr as [[]], Hr' as [[]]. congruence. }
    rewrite <- E1, <- E2, <- E3. rewrite (cons_middle v pre (v' :: vs)), app_assoc.
    apply IH; auto; rewrite ?E1, ?E3; auto. rewrite length_app. cbn. lia.
Qed.

(** The host writes a block with CMD24 and reads one with CMD17. *)
Definition write_block (sd : SDState B) (arg : Z) (vs : list Z) : SDState B :=
  foldl sd_write_data (snd (sd_do_command sd (mkReq 24 arg 0))) vs.
Fixpoint read_bytes (n : nat) (sd : SDState B) : list Z * SDState B :=
  match n with
  | O => ([], sd)
  | S n => let '(v, sd) := sd_read_data sd in
           let '(vs, sd) := read_bytes n sd in (v :: vs, sd)
  end.
Definition read_block (sd : SDState B) (arg : Z) (n : nat) : list Z * SDState B :=
  read_bytes n (snd (sd_do_command sd (mkReq 17 arg 0))).

Lemma write_block_spec sd b arg vs :
  card sd b -> spi sd = false -> is_u 32 arg -> Forall (is_u 8) (data sd) ->
  bdrv_is_read_only b = false -> vs <> [] -> Z.of_nat (length vs) = blk_len sd -> blk_len sd <= 512 ->
  addr_of sd arg + blk_len sd <= size sd ->
  exists b', card (write_block sd arg vs) b' /\ wrote b b' (addr_of sd arg) vs /\
    blk_len (write_block sd arg vs) = blk_len sd /\ ocr (write_block sd arg vs) = ocr sd /\
    size (write_block sd arg vs) = size sd.
Proof.
  intros Hc Hspi Ha Hu Hro Hne Hl Hlen Hr.
  destruct (cmd24_receiving sd b arg 0) as (rsp & sd1 & E & R & E1 & E2); auto; [lia|].
  assert (size sd1 = size sd) as E3 by (destruct Hc, R as [[]]; congruence).
  unfold write_block. rewrite E. cbn [snd]. rewrite <- E1, <- E2, <- E3.
  apply (write_rest vs sd1 b (addr_of sd arg) []); auto using addr_of_nonneg; cbn; lia.
Qed.

Lemma read_rest n : forall sd b addr len k,
  sending sd b addr len k -> len <= 512 -> 0 <= addr -> addr + len <= size sd ->
  0 <= k -> Z.of_nat n = len - k -> (0 < n)%nat ->
  fst (read_bytes n sd) = (fun j => drive_byte b (addr + j)) <$> seqZ k (len - k) /\
  card (snd (read_bytes n sd)) b.
Proof.
  induction n as [|n IH]; intros sd b addr len k Hs Hlen Ha Hin Hk Hn Hpos; [lia|].
  destruct (read_step sd b addr len k Hs) as (sd' & E & Es & H'); [lia..|].
  cbn [read_bytes]. rewrite E, seqZ_cons, fmap_cons by lia.
  destruct (Z.eqb_spec (k + 1) len) as [Ek|Nk].
  - assert (n = 0)%nat as -> by lia. cbn [read_bytes fst snd].
    replace (Z.pred (len - k)) with 0 by lia. done.
  - destruct (IH sd' b addr len (k + 1)) as [I1 I2]; try done; try lia.
    destruct (read_bytes n sd') as [vs sd'']. cbn [fst snd] in *. rewrite I1. split; [|done].
    f_equal. f_equal. f_equal; lia.
Qed.

Lemma read_block_spec sd b arg n :
  card sd b -> is_u 32 arg -> (0 < n)%nat -> Z.of_nat n = blk_len sd -> io_len sd = blk_len sd ->
  blk_len sd <= 512 -> addr_of sd arg + blk_len sd <= size sd ->
  fst (read_block sd arg n) = (fun j => drive_byte b (addr_of sd arg + j)) <$> seqZ 0 (blk_len sd) /\
  card (snd (read_block sd arg n)) b.
Proof.
  intros Hc Ha Hpos Hn Hio Hlen Hr.
  destruct (cmd17_sending sd b arg 0) as (sd1 & E & S); auto; [lia|].
  assert (size sd1 = size sd) as E3 by (destruct Hc, S as [[]]; congruence).
  unfold read_block. rewrite E. cbn [snd]. rewrite Hio in S.
  pose proof (read_rest n sd1 b (addr_of sd arg) (blk_len sd) 0 S) as H. rewrite Z.sub_0_r in H.
  apply H; auto using addr_of_nonneg; lia.
Qed.

(** C13.  A block round trip: what a host writes with CMD24 is what it reads back with
    CMD17, the card is ready for the next command, and the drive changed in the
    bytes of that block only. *)
Theorem block_roundtrip sd b arg vs :
  card sd b -> spi sd = false -> is_u 32 arg -> Forall (is_u 8) (data sd) ->
  bdrv_is_read_only b = false -> vs <> [] -> Forall (is_u 8) vs ->
  Z.of_nat (length vs) = blk_len sd -> blk_len sd <= 512 -> io_len sd = blk_len sd ->
  addr_of sd arg + blk_len sd <= size sd ->
  let '(ws, sd') := read_block (write_block sd arg vs) arg (length vs) in
  ws = vs /\ exists b', card sd' b' /\ wrote b b' (addr_of sd arg) vs.
Proof.
  intros Hc Hspi Ha Hu Hro Hne Hvs Hl Hlen Hio Hr.
  destruct (write_block_spec sd b arg vs) as (b' & Hc' & W & E1 & E2 & E3); auto.
  set (x := write_block sd arg vs) in *. clearbody x.
  assert (addr_of x arg = addr_of sd arg) as Ea by (unfold addr_of, high_capacity; by rewrite E2).
  pose proof (addr_of_nonneg sd arg Ha) as Hpos.
  destruct (read_block_spec x b' arg (length vs)) as [R1 R2]; auto; rewrite ?E1, ?Ea, ?E3; auto.
  { destruct vs; [done|cbn; lia]. }
  { unfold io_len, high_capacity in *. by rewrite E1, E2. }
  destruct (read_block x arg (length vs)) as [ws sd']. cbn [fst snd] in *. split; [|by exists b'].
  rewrite R1, Ea, E1, <- Hl. apply list_eq. intros i. rewrite list_lookup_fmap.
  destruct (vs !! i) as [v|] eqn:Ev.
  - pose proof (lookup_lt_Some _ _ _ Ev). rewrite (proj2 (lookup_seqZ 0 _ i (0 + Z.of_nat i))) by lia.
    cbn [fmap option_fmap option_map]. rewrite W by lia.
    destruct (Z.leb_spec (addr_of sd arg) (addr_of sd arg + (0 + Z.of_nat i))); [|lia].
    destruct (Z.ltb_spec (addr_of sd arg + (0 + Z.of_nat i)) (addr_of sd arg + Z.of_nat (length vs))); [|lia].
    cbn [andb]. replace (_ + (0 + Z.of_nat i) - _) with (Z.of_nat i) by lia.
    unfold aget. destruct (Z.leb_spec 0 (Z.of_nat i)); [|lia]. rewrite Nat2Z.id, Ev. cbn. f_equal.
    apply u8_small. by eapply (Forall_lookup_1 (is_u 8)).
  - apply lookup_ge_None in Ev. by rewrite lookup_seqZ_ge by lia.
Qed.

(**  Write protection does not protect against CMD24: the violation is flagged in
    the card status, but the response to the command itself clears the flag, and
    the bytes that follow are written to the protected group. *)
Theorem write_protect_not_enforced sd b arg vs :
  card sd b -> spi sd = false -> is_u 32 arg -> Forall (is_u 8) (data sd) ->
  bdrv_is_read_only b = false -> vs <> [] ->
  Z.of_nat (length vs) = blk_len sd -> blk_len sd <= 512 -> addr_of sd arg + blk_len sd <= size sd ->
  sd_wp_addr sd (addr_of sd arg) = true ->
  exists b', bdrv (write_block sd arg vs) = Some b' /\ wrote b b' (addr_of sd arg) vs /\
    no_error (snd (sd_do_command sd (mkReq 24 arg 0))).
Proof.
  intros Hc Hspi Ha Hu Hro Hne Hl Hlen Hr _.
  destruct (write_block_spec sd b arg vs) as (b' & [] & W & _); auto.
  destruct (cmd24_receiving sd b arg 0) as (rsp & sd1 & E & R & _); auto; [lia|].
  exists b'. split; [done|]. split; [done|]. rewrite E. by destruct R.
Qed.
End Blocks.

(** ** A card on a blank image of four sectors *)

Definition demo_image : Image.image := Image.blank 4 7.
Definition demo_init : list SDRequest :=
  [mkReq 55 0 0; mkReq 41 0xff8000 0; mkReq 2 0 0; mkReq 3 0 0; mkReq 7 0x45670000 0; mkReq 16 3 0].
Definition commands {B} `{!BlockDriver B} (sd : SDState B) (rs : list SDRequest) : SDState B :=
  foldl (fun sd r => snd (sd_do_command sd r)) sd rs.
(** After the identification sequence, with three-byte blocks. *)
Definition demo_card : SDState Image.image := commands (sd_init (Some demo_image) false) demo_init.
(** The same with its first group write protected. *)
Definition demo_protected : SDState Image.image := commands demo_card [mkReq 28 0 0].

Lemma demo_card_ok : card demo_card demo_image.
Proof. constructor; by vm_compute. Qed.
Lemma demo_protected_ok : card demo_protected demo_image.
Proof. constructor; by vm_compute. Qed.
Lemma zeros_u8 n : Forall (is_u 8) (replicate n 0).
Proof. apply Forall_replicate. by vm_compute. Qed.
Lemma demo_data : Forall (is_u 8) (data demo_card).
Proof. assert (data demo_card = replicate 512 0) as -> by (by vm_compute). apply zeros_u8. Qed.
Lemma demo_protected_data : Forall (is_u 8) (data demo_protected).
Proof. assert (data demo_protected = replicate 512 0) as -> by (by vm_compute). apply zeros_u8. Qed.

Lemma blk_read_bytes_witness :
  exists d, sd_blk_read demo_card 510 4 = demo_card.[data := d] /\ aget 0 d 3 = 7 /\ aget 0 d 4 = 0.
Proof.
  destruct (blk_read_bytes demo_card demo_image 510 4) as (d & E & _ & P); [by vm_compute..|].
  exists d. split; [exact E|]. split; (etrans; [apply P; lia|by vm_compute]).
Defined.

Lemma blk_write_bytes_witness :
  exists b', sd_blk_write demo_card 510 4 = demo_card.[bdrv := Some b'] /\
    drive_byte b' 513 = 0 /\ drive_byte b' 514 = 7.
Proof.
  destruct (blk_write_bytes demo_card demo_image 510 4) as (b' & E & P);
    [by vm_compute|by vm_compute|by vm_compute|exact demo_data|by vm_compute..|].
  exists b'. split; [exact E|]. split; (etrans; [apply P; lia|by vm_compute]).
Defined.

Lemma block_roundtrip_witness :
  fst (read_block (write_block demo_card 600 [1; 2; 3]) 600 3) = [1; 2; 3].
Proof.
  assert (Forall (is_u 8) [1; 2; 3]) as Hvs by (apply (bool_decide_unpack _); by vm_compute).
  assert (is_u 32 600) as Ha by (by vm_compute).
  assert (addr_of demo_card 600 + blk_len demo_card <= size demo_card) as Hr by (by vm_compute).
  assert (blk_len demo_card = 3) as Hl by (by vm_compute).
  assert (io_len demo_card = 3) as Hi by (by vm_compute).
  pose proof (block_roundtrip demo_card demo_image 600 [1; 2; 3] demo_card_ok eq_refl Ha demo_data
    eq_refl ltac:(discriminate) Hvs) as H.
  rewrite Hl, Hi in *. specialize (H eq_refl ltac:(lia) eq_refl Hr). revert H. cbn [length].
  destruct (read_block (write_block demo_card 600 [1; 2; 3]) 600 3) as [ws sd'].
  intros [-> _]. reflexivity.
Defined.

Lemma write_protect_not_enforced_witness :
  exists b', bdrv (write_block demo_protected 600 [1; 2; 3]) = Some b' /\ drive_byte b' 601 = 2.
Proof.
  destruct (write_protect_not_enforced demo_protected demo_image 600 [1; 2; 3] demo_protected_ok)
    as (b' & E & W & _); [by vm_compute|by vm_compute|exact demo_protected_data|by vm_compute..|].
  exists b'. split; [exact E|]. etrans; [apply W; lia|by vm_compute].
Defined.
End SdProps.
