(* ===== verification/SdSafety.v ===== *)
(** * Safety of the SD card

    An invariant on every sequence of card operations: the data index stays
    inside the buffer it indexes (with the one exception that is exhibited), and
    a card in SPI mode never changes its drive.  Then the capacity encoded in
    the CSD register, and three defects: the lock command, the erase range and
    the confusion of CMD13 with ACMD13. *)

From S2P Require Import Prelude Irq Block Sd SdProps.

Module SdSafety.
Import Sd SdProps.

Section Safety.
Context {B : Type} `{!BlockDriver B, !BlockLaws B}.
Implicit Types (sd : SDState B).

(** ** The invariant *)

Definition data_phase (st : SDCardStates) : bool :=
  match st with sd_sendingdata_state | sd_receivingdata_state => true | _ => false end.

(** The registers and buffers keep their sizes. *)
Record shape sd : Prop := {
  sh_data : length (data sd) = 512%nat; sh_scr : length (scr sd) = 8%nat;
  sh_status : length (sd_status sd) = 64%nat; sh_cid : length (cid sd) = 16%nat;
  sh_csd : length (csd sd) = 16%nat; sh_blk : 0 <= blk_len sd <= 512;
  sh_start : is_u 64 (data_start sd)
}.

Record inv sd : Prop := {
  inv_shape : shape sd;
  inv_off : data_phase (state sd) = true -> 0 <= data_offset sd < 512;
  inv_scr : data_phase (state sd) = true -> current_cmd sd = 51 -> data_offset sd < 8
}.

(** What a command may do to the data phase and to the rest of the state. *)
Record cmd_step sd (r : sd_rsp_type_t) sd' : Prop := {
  st_shape : shape sd'; st_spi : spi sd' = spi sd; st_bdrv : bdrv sd' = bdrv sd;
  st_cur : current_cmd sd' = current_cmd sd;
  st_off : data_phase (state sd') = true ->
    data_offset sd' = 0 \/ (state sd' = state sd /\ data_offset sd' = data_offset sd);
  st_ill : r = sd_illegal -> state sd' = state sd /\ data_offset sd' = data_offset sd
}.

Lemma step_illegal sd : shape sd -> cmd_step sd sd_illegal sd.
Proof. intros []. by constructor; auto. Qed.

(** A command that changes the status bits, the mode or the state only. *)
Lemma step_quiet sd sd' r :
  shape sd -> r <> sd_illegal -> data_phase (state sd') = false \/ data_offset sd' = 0 \/
    (state sd' = state sd /\ data_offset sd' = data_offset sd) ->
  data sd' = data sd -> scr sd' = scr sd -> sd_status sd' = sd_status sd -> cid sd' = cid sd ->
  length (csd sd') = length (csd sd) -> blk_len sd' = blk_len sd ->
  is_u 64 (data_start sd') -> spi sd' = spi sd -> bdrv sd' = bdrv sd ->
  current_cmd sd' = current_cmd sd -> cmd_step sd r sd'.
Proof.
  intros [] Hr Hp E1 E2 E3 E4 E5 E6 E7 E8 E9 E10. constructor; auto.
  - constructor; auto; congruence.
  - intros Hd. destruct Hp as [Hp|[Hp|Hp]]; [congruence|by left|by right].
  - done.
Qed.

Lemma csd_standard_length c : length (csd_standard c) = 16%nat.
Proof. done. Qed.

Lemma sd_reset_shape sd b : length (data sd) = 512%nat -> is_u 64 (data_start sd) ->
  shape (sd_reset sd b).
Proof.
  intros Hd Hs. unfold sd_reset, sd_set_csd. cbn zeta.
  destruct (_ <=? _); constructor; cbn -[is_u]; auto; lia.
Qed.
Lemma sd_reset_frame sd b :
  data (sd_reset sd b) = data sd /\ data_start (sd_reset sd b) = data_start sd /\
  state (sd_reset sd b) = sd_idle_state /\ spi (sd_reset sd b) = spi sd /\
  bdrv (sd_reset sd b) = b /\ current_cmd (sd_reset sd b) = current_cmd sd /\
  data_offset (sd_reset sd b) = data_offset sd.
Proof. unfold sd_reset, sd_set_csd. cbn zeta. by destruct (_ <=? _). Qed.

Lemma foldl_frame {A} (f : SDState B -> A -> SDState B) (P : SDState B -> Prop) l :
  (forall x a, P x -> P (f x a)) -> forall sd, P sd -> P (foldl f sd l).
Proof. intros Hf. induction l; cbn; auto. Qed.

Definition step_ok sd (p : sd_rsp_type_t * SDState B) : Prop := cmd_step sd (fst p) (snd p).

(** Commands whose effect [step_quiet] describes. *)
Ltac quiet :=
  match goal with H : shape ?sd |- step_ok ?sd _ =>
    apply step_quiet; cbn; rewrite ?length_aset; auto using is_u_u64;
    try (by destruct H); try congruence
  end.
Ltac by_state :=
  repeat match goal with |- step_ok _ (match state ?x with _ => _ end) => destruct (state x) eqn:? end;
  try (by apply step_illegal).

Lemma cmd_basic_step sd cmd arg : shape sd -> step_ok sd (cmd_basic sd cmd arg).
Proof.
  intros Hs. unfold cmd_basic.
  destruct (cmd =? 0).
  { set (x := sd_reset sd.[state := sd_idle_state] (bdrv sd.[state := sd_idle_state])).
    assert (step_ok sd (if spi x then sd_r1 else sd_r0, x)) as Hr.
    { destruct (sd_reset_frame sd.[state := sd_idle_state] (bdrv sd)) as (F1 & F2 & F3 & F4 & F5 & F6 & F7).
      pose proof Hs as []. constructor; cbn [fst snd]; try done.
      - by apply sd_reset_shape.
      - subst x. cbn [bdrv set_field]. by rewrite F3.
      - by destruct (spi x). }
    destruct (state sd) eqn:E; try exact Hr. quiet. by destruct (spi sd). }
  destruct (cmd =? 1); [destruct (spi sd); [quiet|by apply step_illegal]|].
  destruct (cmd =? 2); [destruct (spi sd); [by apply step_illegal|by_state; quiet]|].
  destruct (cmd =? 3); [destruct (spi sd); [by apply step_illegal|by_state; quiet]|].
  by apply step_illegal.
Qed.

Lemma shape_data sd d : shape sd -> length d = 512%nat -> shape sd.[data := d].
Proof. intros [] ?. by constructor. Qed.
Lemma shape_group sd g : shape sd -> shape sd.[function_group := g].
Proof. intros []. by constructor. Qed.

(** The fields a data transfer leaves alone. *)
Definition same_card sd sd' : Prop :=
  spi sd' = spi sd /\ bdrv sd' = bdrv sd /\ current_cmd sd' = current_cmd sd.

Lemma switch_step_shape arg sd0 sd i : shape sd /\ same_card sd0 sd ->
  shape (switch_step arg sd i) /\ same_card sd0 (switch_step arg sd i).
Proof.
  intros [Hs Hc]. unfold switch_step. split; [|by destruct (_ && _)].
  destruct (_ && _); apply shape_data; auto using shape_group; cbn; rewrite length_aset; by destruct Hs.
Qed.

Lemma switch_crc_shape sd0 sd : shape sd /\ same_card sd0 sd ->
  shape (switch_crc sd) /\ same_card sd0 (switch_crc sd).
Proof.
  intros [Hs Hc]. unfold switch_crc. generalize (sd_crc16 (data sd) 64). intros crc. split; [|done].
  apply shape_data; [apply shape_data; [done|]|]; cbn; rewrite !length_aset; by destruct Hs.
Qed.

Lemma function_switch_shape sd arg : shape sd ->
  shape (sd_function_switch sd arg) /\ same_card sd (sd_function_switch sd arg).
Proof.
  intros Hs. apply switch_crc_shape. cbv zeta.
  assert (forall y, shape y /\ same_card sd y ->
    shape y.[data := memcpy (data y) 17 (replicate 47 0)] /\
    same_card sd y.[data := memcpy (data y) 17 (replicate 47 0)]) as Hclear.
  { intros y [Hy Hc]. split; [|done]. apply shape_data; [done|]. destruct Hy.
    rewrite length_memcpy; [done|lia|]. rewrite length_replicate, sh_data0. lia. }
  apply Hclear, (foldl_frame _ (fun z => shape z /\ same_card sd z)).
  { intros; by apply switch_step_shape. }
  split; [|done]. apply shape_data; [done|]. destruct Hs.
  rewrite length_memcpy; [done|lia|]. rewrite sh_data0. cbn. lia.
Qed.

Lemma start_data_step sd0 sd st start r :
  shape sd -> same_card sd0 sd -> is_u 64 start -> r <> sd_illegal ->
  step_ok sd0 (r, start_data sd st start).
Proof.
  intros [] (E1 & E2 & E3) Hs Hr. constructor; cbn; auto; [by constructor|done].
Qed.

Lemma cmd6_step sd arg : shape sd ->
  step_ok sd (let sd' := sd_function_switch sd arg in (sd_r1, start_data sd' sd_sendingdata_state 0)).
Proof.
  intros Hs. destruct (function_switch_shape sd arg Hs) as [Hx Hc].
  cbv zeta. by apply start_data_step.
Qed.

Lemma cmd_select_step sd cmd arg r : shape sd -> step_ok sd (cmd_select sd cmd arg r).
Proof.
  intros Hs. unfold cmd_select. destruct (spi sd) eqn:Hspi; [by apply step_illegal|].
  destruct (cmd =? 6).
  - destruct (mode sd); try (by apply step_illegal). by apply cmd6_step.
  - by_state; destruct (rca sd =? r); cbn [negb]; try (by apply step_illegal); quiet.
Qed.

(** Status changes between the start of a transfer and the answer. *)
Lemma set_status_step sd r x m : step_ok sd (r, x) -> step_ok sd (r, set_status x m).
Proof. intros [[] E1 E2 E3 E4 E5]. constructor; auto. by constructor. Qed.
Lemma check_range_step sd r x : step_ok sd (r, x) -> step_ok sd (r, check_range x).
Proof. intros H. unfold check_range. destruct (_ <? _); [by apply set_status_step|done]. Qed.
Lemma check_protect_step sd r x : step_ok sd (r, x) -> step_ok sd (r, check_protect x).
Proof.
  intros H. unfold check_protect. destruct (sd_wp_addr x (data_start x)), (_ .&? 0x30);
    repeat apply set_status_step; done.
Qed.
Lemma same_card_refl sd : same_card sd sd.
Proof. done. Qed.
#[local] Hint Resolve same_card_refl : core.

Lemma cmd_info_step sd cmd arg addr r : shape sd -> is_u 32 arg -> is_u 64 addr ->
  step_ok sd (cmd_info sd cmd arg addr r).
Proof.
  intros Hs Ha Hd. unfold cmd_info. destruct (cmd =? 8).
  { by_state. destruct (_ || _); [destruct (spi _) eqn:?|]; quiet. }
  destruct ((cmd =? 9) || (cmd =? 10)).
  { by_state; [destruct (negb (rca sd =? r)); quiet; by destruct (cmd =? 9)|].
    destruct (spi sd); cbn [negb]; [|by apply step_illegal].
    apply start_data_step; try done. apply shape_data; [done|]. pose proof Hs as [].
    rewrite length_memcpy; destruct (cmd =? 9); rewrite ?sh_csd0, ?sh_cid0, ?sh_data0; lia. }
  destruct (cmd =? 11).
  { destruct (spi sd); [by apply step_illegal|]. by_state.
    apply check_range_step, start_data_step; try done. apply (is_u_mono 32); [lia|done]. }
  destruct (cmd =? 12); [by_state; quiet|].
  destruct (cmd =? 13).
  { destruct (mode sd); try (by apply step_illegal). destruct (negb (rca sd =? r)); quiet. }
  destruct (cmd =? 15); [|by apply step_illegal].
  destruct (spi sd); [by apply step_illegal|]. destruct (mode sd); try (by apply step_illegal).
  destruct (negb (rca sd =? r)); quiet.
Qed.

Lemma cmd_read_step sd cmd arg addr : shape sd -> is_u 32 arg -> is_u 64 addr ->
  step_ok sd (cmd_read sd cmd arg addr).
Proof.
  intros Hs Ha Hd. unfold cmd_read. by_state. destruct (cmd =? 16).
  - destruct (Z.ltb_spec (1 .<< 9) arg); [quiet|]. change (1 .<< 9) with 512 in *.
    pose proof Hs as []. constructor; cbn; auto; try done. constructor; auto. cbn. destruct Ha; lia.
  - by apply check_range_step, start_data_step.
Qed.

Lemma cmd_write_step sd cmd addr : shape sd -> is_u 64 addr -> step_ok sd (cmd_write sd cmd addr).
Proof.
  intros Hs Hd. unfold cmd_write. destruct (spi sd); [by apply step_illegal|]. by_state.
  destruct (_ || _); [|by apply start_data_step].
  apply check_protect_step, check_range_step. quiet.
Qed.

Lemma cmd_protect_step sd cmd arg addr : shape sd -> is_u 64 addr ->
  step_ok sd (cmd_protect sd cmd arg addr).
Proof.
  intros Hs Hd. unfold cmd_protect. by_state. destruct (cmd =? 30).
  - apply start_data_step; try done. apply shape_data; [done|]. pose proof Hs as [].
    rewrite length_memcpy; rewrite ?sh_data0; cbn; lia.
  - destruct (size sd <=? addr); quiet.
Qed.

Lemma sd_erase_frame sd : let sd' := sd_erase sd in
  data sd' = data sd /\ scr sd' = scr sd /\ sd_status sd' = sd_status sd /\ cid sd' = cid sd /\
  length (csd sd') = length (csd sd) /\ blk_len sd' = blk_len sd /\ data_start sd' = data_start sd /\
  spi sd' = spi sd /\ bdrv sd' = bdrv sd /\ current_cmd sd' = current_cmd sd.
Proof.
  unfold sd_erase. destruct (_ || _); [by repeat split|]. cbv zeta.
  apply (foldl_frame _ (fun x => data x = data sd /\ scr x = scr sd /\ sd_status x = sd_status sd /\
    cid x = cid sd /\ length (csd x) = length (csd sd) /\ blk_len x = blk_len sd /\
    data_start x = data_start sd /\ spi x = spi sd /\ bdrv x = bdrv sd /\ current_cmd x = current_cmd sd)).
  - intros x i Hx. by destruct (test_bit i (wp_groups x)).
  - cbn. rewrite length_aset. by repeat split.
Qed.

Lemma cmd_erase_step sd cmd arg : shape sd -> step_ok sd (cmd_erase sd cmd arg).
Proof.
  intros Hs. unfold cmd_erase. by_state. destruct (cmd =? 32); [quiet|]. destruct (cmd =? 33); [quiet|].
  destruct (_ .&? 0x30); [quiet|]. cbv zeta.
  destruct (sd_erase_frame sd.[state := sd_programming_state])
    as (F1 & F2 & F3 & F4 & F5 & F6 & F7 & F8 & F9 & F10).
  set (x := sd_erase _) in *. clearbody x. apply step_quiet; cbn; auto; try done.
  rewrite F7. by destruct Hs.
Qed.

Lemma cmd_app_step sd cmd arg r : shape sd -> step_ok sd (cmd_app sd cmd arg r).
Proof.
  intros Hs. unfold cmd_app. destruct (cmd =? 42).
  { destruct (spi sd); [by apply step_illegal|]. by_state. by apply start_data_step. }
  destruct (cmd =? 55); [destruct (negb (rca sd =? r)); quiet|].
  by_state. destruct (_ .&? 1); quiet.
Qed.

(** Fields the step relation does not look at. *)
Lemma step_ok_proper sd sd1 p :
  state sd1 = state sd -> data_offset sd1 = data_offset sd -> same_card sd sd1 ->
  step_ok sd1 p -> step_ok sd p.
Proof.
  intros E1 E2 (E3 & E4 & E5) [Hs F1 F2 F3 F4 F5]. constructor; try congruence.
  - intros Hp. destruct (F4 Hp) as [|[? ?]]; [by left|right; split; congruence].
  - intros Hr. destruct (F5 Hr). split; congruence.
Qed.
Lemma shape_status sd c : shape sd -> shape sd.[card_status := c].
Proof. intros []. by constructor. Qed.

Lemma normal_command_step sd req : shape sd -> is_u 32 (req_arg req) ->
  step_ok sd (sd_normal_command sd req).
Proof.
  intros Hs Ha. unfold sd_normal_command.
  set (addr := if high_capacity sd then _ else _).
  assert (is_u 64 addr) as Hd.
  { subst addr. destruct (high_capacity sd); [apply is_u_u64|]. apply (is_u_mono 32); [lia|done]. }
  clearbody addr. set (x := clear_status sd APP_CMD).
  apply (step_ok_proper sd x); try done.
  assert (shape x) as Hx by by apply shape_status. clearbody x.
  cbv zeta. set (r := if _ || _ then _ else _). clearbody r.
  repeat match goal with |- step_ok _ (if ?c then _ else _) => destruct c end;
    auto using cmd_basic_step, cmd_select_step, cmd_info_step, cmd_read_step, cmd_write_step,
      cmd_protect_step, cmd_erase_step, cmd_app_step.
  by apply step_illegal.
Qed.

Lemma app_command_step sd req : shape sd -> is_u 32 (req_arg req) ->
  step_ok sd (sd_app_command sd req).
Proof.
  intros Hs Ha. unfold sd_app_command. cbv zeta. set (x := set_status sd APP_CMD).
  apply (step_ok_proper sd x); try done.
  assert (shape x) as Hx by by apply shape_status. clearbody x. clear Hs.
  destruct (_ =? 6).
  { by_state. pose proof Hx as []. constructor; cbn; auto; try done.
    constructor; cbn; rewrite ?length_aset; auto. }
  destruct (_ =? 13); [by_state; by apply start_data_step|].
  destruct (_ =? 22).
  { by_state. apply start_data_step; try done. apply shape_data; [done|]. pose proof Hx as [].
    rewrite length_memcpy; rewrite ?sh_data0; cbn; lia. }
  destruct (_ =? 23); [by_state; quiet|].
  destruct (_ =? 41).
  { destruct (spi x); [quiet|]. by_state. destruct (_ .&? _); quiet. }
  destruct (_ =? 42); [by_state; quiet|].
  destruct (_ =? 51); [by_state; by apply start_data_step|].
  by apply normal_command_step.
Qed.

(** In SPI mode the block write commands are refused; CMD51 is never accepted. *)
Lemma normal_command_refused sd req :
  (spi sd = true /\ (req_cmd req = 24 \/ req_cmd req = 25)) \/ req_cmd req = 51 ->
  fst (sd_normal_command sd req) = sd_illegal.
Proof.
  unfold sd_normal_command, between. cbv zeta. intros [[Hspi [-> | ->]]| ->]; switch.
  1, 2: unfold cmd_write; cbn [spi clear_status set_field]; by rewrite Hspi.
  done.
Qed.

Lemma app_command_refused sd req :
  spi sd = true /\ (req_cmd req = 24 \/ req_cmd req = 25) ->
  fst (sd_app_command sd req) = sd_illegal.
Proof.
  intros [Hspi Hc]. unfold sd_app_command. cbv zeta.
  destruct Hc as [Hc|Hc]; rewrite Hc; switch; apply normal_command_refused; left; auto.
Qed.

(** ACMD51 starts at the first byte. *)
Lemma app_command_51 sd req : req_cmd req = 51 ->
  fst (sd_app_command sd req) = sd_illegal \/ data_offset (snd (sd_app_command sd req)) = 0.
Proof.
  intros Hc. unfold sd_app_command. rewrite Hc. switch. cbv zeta.
  destruct (state (set_status sd APP_CMD)); first [by left | by right].
Qed.

Definition spi_quiet sd : Prop := spi sd = true /\ current_cmd sd <> 24 /\ current_cmd sd <> 25.

(** Everything the invariant and the SPI property need to know of a state. *)
Record good sd0 sd : Prop := {
  good_inv : inv sd; good_bdrv : bdrv sd = bdrv sd0; good_spi : spi_quiet sd0 -> spi_quiet sd
}.

Lemma inv_status sd c : inv sd -> inv sd.[card_status := c].
Proof. intros [[]]. constructor; auto. by constructor. Qed.

(** The state a command leaves, before the current command is recorded. *)
Lemma step_inv sd r x cmd :
  inv sd -> step_ok sd (r, x) -> r <> sd_illegal -> (cmd = 51 -> data_offset x = 0) ->
  inv x.[current_cmd := cmd].
Proof.
  intros [Hs Ho Hc] [Hx E1 E2 E3 E4 E5] Hr H51. cbn [fst snd] in *. constructor.
  - destruct Hx. by constructor.
  - cbn. intros Hp. destruct (E4 Hp) as [->|[F1 F2]]; [lia|]. rewrite F2. apply Ho. congruence.
  - cbn. intros Hp Hcmd. rewrite H51 by done. lia.
Qed.

Lemma run_command_step sd req : inv sd -> is_u 32 (req_arg req) -> is_u 8 (req_cmd req) ->
  good sd (snd (run_command sd req)).
Proof.
  intros Hi Ha Hcmd. unfold run_command. set (m := sd_set_mode sd).
  assert (exists md, m = sd.[mode := md]) as [md Em] by (subst m; unfold sd_set_mode; destruct (state sd); eauto).
  clearbody m. subst m.
  assert (shape sd.[mode := md] /\ shape sd.[mode := md].[expecting_acmd := false]) as [Hs1 Hs2].
  { destruct Hi as [[]]. split; by constructor. }
  set (p := if expecting_acmd _ then _ else _).
  assert (step_ok sd p) as Hp.
  { subst p. destruct (expecting_acmd _).
    - apply (step_ok_proper sd sd.[mode := md].[expecting_acmd := false]); try done. by apply app_command_step.
    - apply (step_ok_proper sd sd.[mode := md]); try done. by apply normal_command_step. }
  assert (fst p = sd_illegal \/ (req_cmd req = 51 -> data_offset (snd p) = 0)) as H51.
  { subst p. destruct (decide (req_cmd req = 51)) as [E|E]; [|by right].
    destruct (expecting_acmd _); [destruct (app_command_51 sd.[mode := md].[expecting_acmd := false] req E); auto|].
    left. apply normal_command_refused. by right. }
  assert (spi sd = true -> req_cmd req = 24 \/ req_cmd req = 25 -> fst p = sd_illegal) as Hspi.
  { intros Es Hc. subst p. destruct (expecting_acmd _).
    - apply app_command_refused. by split.
    - apply normal_command_refused. left. by split. }
  clearbody p. destruct p as [r x]. cbn [fst snd] in *.
  destruct (bool_decide_reflect (r = sd_illegal)) as [->|Hr]; cbn [snd].
  - destruct Hi as [Hs Ho Hc], Hp as [Hx E1 E2 E3 E4 E5]. cbn [fst snd] in *. destruct (E5 eq_refl) as [F1 F2].
    constructor; [|done|].
    + apply inv_status. constructor; [done|rewrite F1, F2; done|rewrite F1, F2, E3; done].
    + intros (Q1 & Q2 & Q3). unfold spi_quiet. cbn. rewrite E1, E3. done.
  - destruct H51 as [|H51]; [done|]. rewrite u8_small by done.
    assert (inv x.[current_cmd := req_cmd req]) as Hi' by by eapply step_inv.
    destruct Hp as [Hx E1 E2 E3 E4 E5]. cbn [fst snd] in *. constructor; [|done|].
    + set (y := x.[current_cmd := req_cmd req]) in *. clearbody y. destruct Hi' as [[]].
      constructor; auto. by constructor.
    + intros (Q1 & Q2 & Q3). unfold spi_quiet. cbn. rewrite E1.
      split; [done|]. split; intros Hc; apply Hr, Hspi; auto.
Qed.

Lemma good_refl sd : inv sd -> good sd sd.
Proof. by constructor. Qed.
Lemma good_status sd0 sd c : good sd0 sd -> good sd0 sd.[card_status := c].
Proof. intros [Hi Hb Hq]. constructor; auto. by apply inv_status. Qed.

Lemma send_response_good sd0 r sd : good sd0 sd -> good sd0 (snd (send_response r sd)).
Proof.
  intros Hg. unfold send_response.
  assert (forall p : list Z * SDState B, good sd0 (snd p) ->
    good sd0 (snd (let '(rsp, x) := p in
      (rsp, if bool_decide (r = sd_illegal) then x else clear_status x CARD_STATUS_B)))) as H.
  { intros [rsp x] Hx. cbn in *. destruct (bool_decide _); [done|by apply good_status]. }
  apply H. destruct r; cbn; auto using good_status; by apply good_status.
Qed.

Lemma do_command_good sd req : inv sd -> is_u 32 (req_arg req) -> is_u 8 (req_cmd req) ->
  good sd (snd (sd_do_command sd req)).
Proof.
  intros Hi Ha Hc. unfold sd_do_command. destruct (negb (ready sd)); [by apply good_refl|].
  destruct (sd_req_crc_validate req).
  { apply send_response_good, good_status, good_refl, Hi. }
  destruct (_ && _).
  { apply send_response_good. destruct Hi as [[]]. constructor; [|done..].
    constructor; [|done..]. by constructor. }
  pose proof (run_command_step sd req Hi Ha Hc) as H. destruct (run_command sd req) as [r x].
  by apply send_response_good.
Qed.

(** ** The data phase *)

(** A transfer that crosses a sector boundary ends below its starting offset. *)
Lemma across_offset addr len : is_u 64 addr -> 0 <= len <= 512 ->
  addr - addr mod 512 + 512 < u64 (addr + len) -> u64 (addr + len) mod 512 <= addr mod 512.
Proof.
  intros [Ha0 Ha1] Hl Hx. destruct (sector_offset addr) as [Ea Ho].
  assert (u64 (addr + len) = addr + len) as E.
  { unfold u64 in *. destruct (Z.lt_ge_cases (addr + len) (2 ^ 64)); [apply Z.mod_small; lia|].
    assert ((addr + len) mod 2 ^ 64 = addr + len - 2 ^ 64) as E
      by (symmetry; apply (Z.mod_unique _ _ 1); lia). rewrite E in Hx. lia. }
  rewrite E in *.
  destruct (sector_unique (addr + len) (addr / 512 + 1) (addr mod 512 + len - 512)) as [_ ->]; lia.
Qed.

Lemma blk_read_shape sd addr len : shape sd -> is_u 64 addr -> 0 <= len <= 512 ->
  exists d, sd_blk_read sd addr len = sd.[data := d] /\ length d = 512%nat.
Proof.
  intros Hs Ha Hl. destruct Hs as [Hd _ _ _ _ _ _].
  assert (exists d, sd = sd.[data := d] /\ length d = 512%nat) as Hid
    by (exists (data sd); split; [by destruct sd|done]).
  unfold sd_blk_read. destruct (bdrv sd) as [b|]; [|done].
  destruct (bdrv_read b (addr .>> 9)) as [buf|]; [|done]. rewrite !land511.
  destruct (sector_offset addr) as [_ Ho]. set (o := addr mod 512) in *.
  destruct (Z.ltb_spec (addr - o + 512) (u64 (addr + len))) as [Hx|Hx].
  - assert (length (memcpy (data sd) 0 (slice buf o (512 - o))) = 512%nat) as L1.
    { pose proof (length_slice_le buf o (512 - o) ltac:(lia)). rewrite length_memcpy; lia. }
    destruct (bdrv_read b (u64 (addr + len) .>> 9)) as [buf2|]; [|by eexists].
    eexists. split; [reflexivity|]. cbn [data set_field].
    pose proof (across_offset addr len Ha Hl Hx) as He. fold o in He.
    pose proof (Z.mod_pos_bound (u64 (addr + len)) 512 ltac:(lia)).
    pose proof (length_slice_le buf2 0 (u64 (addr + len) mod 512) ltac:(lia)).
    rewrite length_memcpy; lia.
  - eexists. split; [reflexivity|]. pose proof (length_slice_le buf o len ltac:(lia)).
    rewrite length_memcpy; lia.
Qed.

Lemma good_data sd0 sd d : good sd0 sd -> length d = 512%nat -> good sd0 sd.[data := d].
Proof.
  intros [[Hs Ho Hc] Hb Hq] Hd. constructor; auto. constructor; auto. by apply shape_data.
Qed.

(** The next byte: the index advances, or the transfer ends, or it restarts. *)
Lemma read_fixed_good sd0 sd len :
  good sd0 sd -> state sd = sd_sendingdata_state -> len <= 512 -> (current_cmd sd = 51 -> len <= 8) ->
  good sd0 (snd (read_fixed sd len)).
Proof.
  intros [[Hs Ho Hc] Hb Hq] Hst Hl H51. unfold read_fixed, next_byte. cbn [snd].
  pose proof (Ho ltac:(by rewrite Hst)) as Hoff. pose proof Hs as [].
  constructor; [|by destruct (len <=? _)|by destruct (len <=? _)]. cbn.
  rewrite u32_small by (unfold is_u; lia).
  destruct (Z.leb_spec len (data_offset sd + 1)).
  - constructor; [by constructor|done|done].
  - constructor; [by constructor|cbn; lia|]. cbn. intros _ Hcmd. specialize (H51 Hcmd). lia.
Qed.

Lemma read_stream_good sd0 sd len :
  good sd0 sd -> state sd = sd_sendingdata_state -> 0 <= len <= 512 -> current_cmd sd <> 51 ->
  good sd0 (snd (read_stream sd len)).
Proof.
  intros Hg Hst Hl H51. unfold read_stream, next_byte. pose proof Hg as [[Hs Ho _] Hb Hq].
  pose proof (Ho ltac:(by rewrite Hst)) as Hoff.
  assert (exists d, (if data_offset sd =? 0 then sd_blk_read sd (data_start sd) len else sd) = sd.[data := d] /\
    length d = 512%nat) as (d & -> & Ld).
  { destruct (data_offset sd =? 0); [apply blk_read_shape; auto; by destruct Hs|].
    exists (data sd). split; [by destruct sd|by destruct Hs]. }
  cbn. rewrite u32_small by (unfold is_u; lia). destruct Hs.
  destruct (Z.leb_spec len (data_offset sd + 1)).
  - destruct (_ <? _); (constructor; [constructor; [|cbn; lia|done]|done|done]);
      constructor; cbn; auto using is_u_u64.
  - constructor; [|done|done]. constructor; [by constructor|cbn; lia|done].
Qed.

Lemma io_len_bound sd : shape sd -> 0 <= (if high_capacity sd then 512 else blk_len sd) <= 512.
Proof. intros []. destruct (high_capacity sd); lia. Qed.

Lemma read_data_good sd : inv sd -> good sd (snd (sd_read_data sd)).
Proof.
  intros Hi. pose proof (good_refl sd Hi) as Hg. unfold sd_read_data.
  destruct (negb (ready sd)); [done|]. destruct (bool_decide_reflect (state sd = sd_sendingdata_state)); [|done].
  cbn [negb]. destruct (_ .&? _); [done|].
  pose proof Hi as [Hs _ _]. pose proof (io_len_bound sd Hs) as Hio.
  set (io := if high_capacity sd then 512 else blk_len sd) in *. clearbody io.
  destruct (Z.eqb_spec (current_cmd sd) 6) as [E|_]; [apply read_fixed_good; auto; lia|].
  destruct (Z.eqb_spec (current_cmd sd) 9) as [E|_]; [apply read_fixed_good; auto; lia|].
  destruct (Z.eqb_spec (current_cmd sd) 10) as [E|_]; [apply read_fixed_good; auto; lia|]. cbn [orb].
  destruct (Z.eqb_spec (current_cmd sd) 11) as [E|_]; [apply read_stream_good; auto; lia|].
  destruct (Z.eqb_spec (current_cmd sd) 13) as [E|_]; [apply read_fixed_good; auto; lia|].
  destruct (Z.eqb_spec (current_cmd sd) 17) as [E|_].
  { assert (exists d, (if data_offset sd =? 0 then sd_blk_read sd (data_start sd) io else sd) = sd.[data := d] /\
      length d = 512%nat) as (d & -> & Ld).
    { destruct (data_offset sd =? 0); [apply blk_read_shape; auto; by destruct Hs|].
      exists (data sd). split; [by destruct sd|by destruct Hs]. }
    apply read_fixed_good; cbn; auto using good_data; lia. }
  destruct (Z.eqb_spec (current_cmd sd) 18) as [E|_]; [apply read_stream_good; auto; lia|].
  destruct (Z.eqb_spec (current_cmd sd) 22) as [E|_]; [apply read_fixed_good; auto; lia|].
  destruct (Z.eqb_spec (current_cmd sd) 30) as [E|_]; [apply read_fixed_good; auto; lia|]. cbn [orb].
  destruct (Z.eqb_spec (current_cmd sd) 51) as [E|_]; [apply read_fixed_good; auto; lia|].
  destruct (Z.eqb_spec (current_cmd sd) 56) as [E|_]; [|done].
  pose proof Hs as []. destruct (data_offset sd =? 0); apply read_fixed_good; cbn; auto; try lia.
  apply good_data; [done|]. rewrite length_memcpy; rewrite ?length_replicate, ?sh_data0; lia.
Qed.

Lemma blk_write_frame sd addr len : exists o, sd_blk_write sd addr len = sd.[bdrv := o].
Proof.
  assert (exists o, sd = sd.[bdrv := o]) as Hid by (exists (bdrv sd); by destruct sd).
  unfold sd_blk_write. destruct (bdrv sd) as [b|]; [|done].
  destruct (if truth _ || _ then _ else _) as [buf|]; [|done].
  destruct (_ <? _); [|by eexists]. destruct (bdrv_write b _ _) as [[] b']; [|by eexists].
  destruct (bdrv_read b' _); by eexists.
Qed.

(** A state between two bytes of a transfer to the card, or after the last. *)
Lemma inv_idle sd : shape sd -> data_phase (state sd) = false -> inv sd.
Proof. intros Hs Hp. constructor; [done|congruence|congruence]. Qed.

Lemma store_shape sd v : shape sd -> shape (store sd v).
Proof. intros []. constructor; cbn; rewrite ?length_aset; auto. Qed.
Lemma shape_bdrv sd o : shape sd -> shape sd.[bdrv := o].
Proof. intros []. by constructor. Qed.
Lemma shape_csd sd i v : shape sd -> shape sd.[csd := aset (csd sd) i v].
Proof. intros []. constructor; cbn; rewrite ?length_aset; auto. Qed.
Lemma shape_state sd st : shape sd -> shape sd.[state := st].
Proof. intros []. by constructor. Qed.

Lemma merge_length reg dat mask : length (merge reg dat mask) = 16%nat.
Proof. done. Qed.

Lemma lock_shape sd : shape sd -> shape (sd_lock_command sd).
Proof.
  intros []. unfold sd_lock_command. cbv zeta.
  repeat match goal with |- shape (if ?c then _ else _) => destruct c end;
    constructor; cbn; rewrite ?length_aset; auto;
    repeat match goal with |- context [if ?c then _ else _] => destruct c; cbn; auto end.
Qed.

(** An index that has not reached the end of the block is still in the buffer. *)
Lemma store_inv sd v len : inv sd -> state sd = sd_receivingdata_state -> current_cmd sd <> 51 ->
  len <= 512 -> data_offset sd + 1 < len -> inv (store sd v).
Proof.
  intros [Hs Ho Hc] Hst H51 Hl Hlt. pose proof (Ho ltac:(by rewrite Hst)).
  constructor; [by apply store_shape| |done]. cbn. rewrite u32_small by (unfold is_u; lia). lia.
Qed.
Lemma store_offset sd v : inv sd -> state sd = sd_receivingdata_state ->
  data_offset (store sd v) = data_offset sd + 1.
Proof.
  intros [Hs Ho Hc] Hst. pose proof (Ho ltac:(by rewrite Hst)). cbn. apply u32_small. unfold is_u; lia.
Qed.

Lemma write_block_inv sd v : inv sd -> state sd = sd_receivingdata_state ->
  current_cmd sd = 24 \/ current_cmd sd = 25 -> inv (sd_write_data sd v).
Proof.
  intros Hi Hst Hc. pose proof Hi as [Hs Ho _]. pose proof Hs as [].
  unfold sd_write_data. destruct (negb (ready sd)); [done|]. destruct (negb _); [done|].
  destruct (_ .&? _); [done|]. cbv zeta. pose proof (store_offset sd v Hi Hst) as Eo.
  destruct Hc as [Hc|Hc]; rewrite Hc; switch; unfold write_single, write_multiple.
  - destruct (Z.leb_spec (blk_len (store sd v)) (data_offset (store sd v))).
    + match goal with |- context [sd_blk_write ?x ?a ?l] => destruct (blk_write_frame x a l) as [o ->] end.
      apply inv_idle; [|done]. destruct (store_shape sd v Hs).
      constructor; cbn; rewrite ?length_aset; auto.
    + apply (store_inv _ _ (blk_len sd)); auto; [lia|lia|]. cbn in *. lia.
  - destruct (_ && _); [by apply inv_status|]. destruct (_ && _); [by apply inv_status|].
    destruct (Z.leb_spec (blk_len (store sd v)) (data_offset (store sd v))).
    + match goal with |- context [sd_blk_write ?x ?a ?l] => destruct (blk_write_frame x a l) as [o ->] end.
      destruct (store_shape sd v Hs). constructor; cbn; [|lia|lia].
      constructor; cbn; rewrite ?length_aset; auto using is_u_u64.
    + apply (store_inv _ _ (blk_len sd)); auto; [lia|lia|]. cbn in *. lia.
Qed.

Lemma write_register_good sd v : inv sd -> current_cmd sd <> 24 -> current_cmd sd <> 25 ->
  good sd (sd_write_data sd v).
Proof.
  intros Hi H24 H25. pose proof (good_refl sd Hi) as Hg. pose proof Hi as [Hs Ho _]. pose proof Hs as [].
  unfold sd_write_data. destruct (negb (ready sd)); [done|].
  destruct (bool_decide_reflect (state sd = sd_receivingdata_state)) as [Hst|]; [|done].
  cbn [negb]. destruct (_ .&? _); [done|]. cbv zeta. pose proof (store_offset sd v Hi Hst) as Eo.
  destruct (Z.eqb_spec (current_cmd sd) 24); [done|]. destruct (Z.eqb_spec (current_cmd sd) 25); [done|].
  pose proof (store_shape sd v Hs) as Hs'.
  destruct (Z.eqb_spec (current_cmd sd) 26) as [E|_].
  { unfold program_cid. destruct (Z.leb_spec 16 (data_offset (store sd v))).
    - constructor; [apply inv_idle; [|by repeat case_match]|by repeat case_match|by repeat case_match].
      destruct Hs'. repeat case_match; constructor; cbn; auto.
    - constructor; [|done|done]. apply (store_inv _ _ 16); auto; lia. }
  destruct (Z.eqb_spec (current_cmd sd) 27) as [E|_].
  { unfold program_csd. destruct (Z.leb_spec 16 (data_offset (store sd v))).
    - constructor; [apply inv_idle; [|by repeat case_match]|by repeat case_match|by repeat case_match].
      destruct Hs'. repeat case_match; constructor; cbn; auto.
    - constructor; [|done|done]. apply (store_inv _ _ 16); auto; lia. }
  destruct (Z.eqb_spec (current_cmd sd) 42) as [E|_].
  { unfold write_lock. destruct (Z.leb_spec (blk_len (store sd v)) (data_offset (store sd v))).
    - constructor; [apply inv_idle; [by apply shape_state, lock_shape, shape_state|done]|..];
        unfold sd_lock_command, spi_quiet; cbv zeta; by repeat case_match.
    - constructor; [|done|done]. apply (store_inv _ _ (blk_len sd)); auto; cbn in *; lia. }
  destruct (Z.eqb_spec (current_cmd sd) 56) as [E|_]; [|done].
  unfold write_gen. destruct (Z.leb_spec (blk_len (store sd v)) (data_offset (store sd v))).
  - constructor; [apply inv_idle; [by apply shape_state|done]|done|done].
  - constructor; [|done|done]. apply (store_inv _ _ (blk_len sd)); auto; cbn in *; lia.
Qed.

(** ** Operations of a host on the card *)

Inductive op := Command (req : SDRequest) | WriteData (v : Z) | ReadData | Enable (e : bool) | CardChange.
Definition exec sd (o : op) : SDState B :=
  match o with
  | Command req => snd (sd_do_command sd req)
  | WriteData v => sd_write_data sd v
  | ReadData => snd (sd_read_data sd)
  | Enable e => sd_enable sd e
  | CardChange => sd_cardchange sd
  end.
(** The widths of the fields of SDRequest. *)
Definition op_ok (o : op) : Prop :=
  match o with Command req => is_u 8 (req_cmd req) /\ is_u 32 (req_arg req) | _ => True end.

Lemma reset_good sd0 x : good sd0 x -> good sd0 (sd_reset x (bdrv x)).
Proof.
  intros [[Hs _ _] Hb Hq].
  destruct (sd_reset_frame x (bdrv x)) as (F1 & F2 & F3 & F4 & F5 & F6 & F7).
  assert (shape (sd_reset x (bdrv x))) as Hr by (apply sd_reset_shape; by destruct Hs).
  constructor; [apply inv_idle; [done|by rewrite F3]|congruence|].
  intros Hq'. specialize (Hq Hq'). unfold spi_quiet in *. by rewrite F4, F6.
Qed.
Lemma inserted_cb_good sd0 x l : good sd0 x -> good sd0 x.[inserted_cb := l].
Proof. intros [[[] ? ?] ? ?]. constructor; [|done|done]. constructor; [|done|done]. by constructor. Qed.
Lemma readonly_cb_good sd0 x l : good sd0 x -> good sd0 x.[readonly_cb := l].
Proof. intros [[[] ? ?] ? ?]. constructor; [|done|done]. constructor; [|done|done]. by constructor. Qed.

Lemma cardchange_good sd : inv sd -> good sd (sd_cardchange sd).
Proof.
  intros Hi. unfold sd_cardchange.
  assert (forall x, good sd x -> good sd (if inserted x then
    let sd := sd_reset x (bdrv x) in
    sd.[readonly_cb := Irq.drive (readonly_cb sd) (b2z (wp_switch sd))] else x)) as H.
  { intros x Hx. destruct (inserted x); [|done]. apply readonly_cb_good. by apply reset_good. }
  apply H. by apply inserted_cb_good, good_refl.
Qed.

Lemma exec_inv sd o : inv sd -> op_ok o -> inv (exec sd o).
Proof.
  intros Hi Ho. destruct o as [req|v| |e|]; cbn [exec].
  - destruct Ho. by apply do_command_good.
  - destruct (decide (state sd = sd_receivingdata_state)) as [Hst|Hst].
    + destruct (decide (current_cmd sd = 24)); [by apply write_block_inv; auto|].
      destruct (decide (current_cmd sd = 25)); [by apply write_block_inv; auto|].
      by apply write_register_good.
    + unfold sd_write_data. destruct (negb (ready sd)); [done|]. by rewrite bool_decide_false by done.
  - by apply read_data_good.
  - destruct Hi as [[] ? ?]. constructor; auto. by constructor.
  - by apply cardchange_good.
Qed.

Lemma exec_quiet sd o : inv sd -> op_ok o -> spi_quiet sd ->
  spi_quiet (exec sd o) /\ bdrv (exec sd o) = bdrv sd.
Proof.
  intros Hi Ho Hq. assert (good sd (exec sd o) -> spi_quiet (exec sd o) /\ bdrv (exec sd o) = bdrv sd) as H.
  { intros []. auto. }
  destruct o as [req|v| |e|]; cbn [exec] in *.
  - destruct Ho. by apply H, do_command_good.
  - destruct Hq as (? & ? & ?). by apply H, write_register_good.
  - by apply H, read_data_good.
  - done.
  - by apply H, cardchange_good.
Qed.

Definition run_ops (os : list op) sd : SDState B := foldl exec sd os.

Lemma sd_init_inv bs is_spi : inv (sd_init bs is_spi).
Proof.
  unfold sd_init. set (x := sd_zero.[spi := is_spi].[enable := true]).
  destruct (sd_reset_frame x bs) as (_ & _ & F3 & _).
  apply inv_idle; [|by rewrite F3]. apply sd_reset_shape; [apply length_replicate|by vm_compute].
Qed.
Lemma sd_init_quiet bs : spi_quiet (sd_init bs true).
Proof.
  unfold sd_init. set (x := sd_zero.[spi := true].[enable := true]).
  destruct (sd_reset_frame x bs) as (_ & _ & _ & F4 & _ & F6 & _). unfold spi_quiet. by rewrite F4, F6.
Qed.

Lemma run_inv os : forall sd, Forall op_ok os -> inv sd -> inv (run_ops os sd).
Proof.
  induction os as [|o os IH]; intros sd Hos Hi; [done|]. apply Forall_cons_1 in Hos as [Ho Hos].
  apply IH; [done|]. by apply exec_inv.
Qed.


(** C28.  A card behind the serial bus never modifies its drive, whatever the guest
    sends: the write commands are refused in SPI mode. *)
Theorem spi_never_writes bs os :
  Forall op_ok os -> bdrv (run_ops os (sd_init bs true)) = bs.
Proof.
  intros Hos. assert (bdrv (sd_init bs true) = bs) as Hb by apply sd_reset_frame.
  rewrite <- Hb at 2. generalize (sd_init_inv bs true) (sd_init_quiet bs). clear Hb.
  generalize (sd_init bs true). induction os as [|o os IH]; intros sd Hi Hq; [done|].
  apply Forall_cons_1 in Hos as [Ho Hos]. cbn [run_ops foldl].
  destruct (exec_quiet sd o Hi Ho Hq) as [Hq' <-]. apply IH; auto. by apply exec_inv.
Qed.

(** ** The capacity a driver computes from the CSD register *)

(** C_SIZE, C_SIZE_MULT and READ_BL_LEN of a version 1 register, C_SIZE of a version 2 one. *)
Definition csd_capacity (r : list Z) : Z :=
  if aget 0 r 0 .>> 6 =? 0 then
    let c_size := ((aget 0 r 6 .& 3) .<< 10) .| (aget 0 r 7 .<< 2) .| (aget 0 r 8 .>> 6) in
    let mult := ((aget 0 r 9 .& 3) .<< 1) .| (aget 0 r 10 .>> 7) in
    (c_size + 1) * 2 ^ (mult + 2) * 2 ^ (aget 0 r 5 .& 0xf)
  else
    let c_size := ((aget 0 r 7 .& 0x3f) .<< 16) .| (aget 0 r 8 .<< 8) .| aget 0 r 9 in
    (c_size + 1) * (512 * 1024).

Definition csd_std_ok (c : Z) : bool := csd_capacity (csd_standard c) =? (c + 1) * 2 ^ 18.
Lemma csd_standard_capacity c : 0 <= c < 4096 -> csd_capacity (csd_standard c) = (c + 1) * 2 ^ 18.
Proof.
  intros Hc. assert (forallb csd_std_ok (seqZ 0 4096) = true) as H by (by vm_compute).
  rewrite forallb_forall in H. apply Z.eqb_eq, H, list_elem_of_In, elem_of_seqZ. lia.
Qed.

Lemma csd_high_capacity m : 0 < m <= 2 ^ 22 ->
  csd_capacity (csd_high (m * 2 ^ 19)) = m * 2 ^ 19.
Proof.
  intros Hm. unfold csd_capacity, csd_high. change (512 * 1024) with (2 ^ 19).
  rewrite Z.div_mul by lia. rewrite (u64_small (m - 1)) by (unfold is_u; lia).
  set (c := m - 1). assert (0 <= c < 2 ^ 22) as Hc by lia. replace m with (c + 1) by lia. clearbody c.
  change (aget 0 (0x40 :: _) 0 .>> 6 =? 0) with false. cbv iota zeta.
  unfold aget. switch.
  change (Z.to_nat 7) with 7%nat. change (Z.to_nat 8) with 8%nat. change (Z.to_nat 9) with 9%nat.
  cbn [lookup list_lookup from_option id].
  change 0x3f with (Z.ones 6). change 0xff with (Z.ones 8). rewrite !Z.land_ones by lia.
  rewrite !Z.shiftr_div_pow2 by lia. do 2 f_equal.
  assert (((c / 2 ^ 16) mod 2 ^ 8) mod 2 ^ 6 = c / 2 ^ 16) as ->.
  { rewrite (Z.mod_small (c / 2 ^ 16) (2 ^ 8)); [apply Z.mod_small|];
      (split; [apply Z.div_pos; lia|apply Z.div_lt_upper_bound; lia]). }
  rewrite <- Z.lor_assoc. rewrite (lor_shiftl_add _ (c mod 2 ^ 8)) by (try apply Z.mod_pos_bound; lia).
  rewrite lor_shiftl_add by (pose proof (Z.mod_pos_bound (c / 2 ^ 8) (2 ^ 8) ltac:(lia));
    pose proof (Z.mod_pos_bound c (2 ^ 8) ltac:(lia)); lia).
  rewrite (Z.div_mod c (2 ^ 8)) at 4 by lia. rewrite (Z.div_mod (c / 2 ^ 8) (2 ^ 8)) at 2 by lia.
  rewrite Z.div_div by lia. change (2 ^ 8 * 2 ^ 8) with (2 ^ 16). lia.
Qed.

(**  The capacity a driver decodes from the CSD register of a fresh card is the
    size of the image, for images up to 1 GiB in units of 256 KiB (standard
    capacity) and above in units of 512 KiB up to 2 TiB (high capacity); the OCR
    register announces high capacity exactly for the latter. *)
Theorem csd_describes_drive b is_spi :
  let sd := sd_init (Some b) is_spi in
  let bytes := 512 * bdrv_get_geometry b in
  0 < bytes ->
  (bytes <= 0x40000000 /\ bytes mod 2 ^ 18 = 0) \/
  (0x40000000 < bytes <= 2 ^ 41 /\ bytes mod 2 ^ 19 = 0) ->
  csd_capacity (csd sd) = bytes /\ size sd = bytes /\
  high_capacity sd = (0x40000000 <? bytes).
Proof.
  intros sd bytes Hpos Hb. subst sd. unfold sd_init, sd_reset. cbv zeta.
  rewrite Z.shiftl_mul_pow2 by lia. change (2 ^ 9) with 512.
  replace (bdrv_get_geometry b * 512) with bytes by lia. clearbody bytes.
  rewrite (u64_small bytes) by (unfold is_u; lia). unfold sd_set_csd.
  destruct (Z.leb_spec bytes 0x40000000) as [Hle|Hgt].
  - destruct Hb as [[_ Hm]|]; [|lia]. cbn -[csd_standard csd_high]. split; [|split; [done|]].
    + rewrite (Z.shiftr_div_pow2 bytes) by lia. change (9 + 9) with 18.
      pose proof (Z.div_mod bytes (2 ^ 18) ltac:(lia)) as Ed. rewrite Hm, Z.add_0_r in Ed.
      assert (0 < bytes / 2 ^ 18 <= 4096) as Hq by lia.
      rewrite u32_small by (unfold is_u; lia). rewrite csd_standard_capacity by lia. lia.
    + destruct (Z.ltb_spec 0x40000000 bytes); [lia|done].
  - destruct Hb as [[? _]|[Hr Hm]]; [lia|]. cbn -[csd_standard csd_high]. split; [|split; [done|]].
    + pose proof (Z.div_mod bytes (2 ^ 19) ltac:(lia)) as Ed. rewrite Hm, Z.add_0_r in Ed.
      replace bytes with (bytes / 2 ^ 19 * 2 ^ 19) by lia. apply csd_high_capacity. lia.
    + destruct (Z.ltb_spec 0x40000000 bytes); [done|lia].
Qed.

(** ** Defects *)

(**  A lock command without the SET_PWD bit (and not a forced erase) never
    succeeds: the length check accepts only a password longer than the stored
    one, and a longer one needs SET_PWD.  So a card can neither be locked or
    unlocked with its password alone, nor can the password be cleared. *)
Theorem lock_needs_new_password sd :
  (aget 0 (data sd) 0 .&? 0x08) = false -> (aget 0 (data sd) 0 .&? 0x01) = false ->
  sd_lock_command sd = set_status sd LOCK_UNLOCK_FAILED.
Proof.
  intros He Hs. unfold sd_lock_command. rewrite He, Hs. cbv zeta.
  set (n := if 1 <? blk_len sd then _ else _). clearbody n.
  destruct (Z.leb_spec n (pwd_len sd)); [by rewrite orb_true_r|].
  assert (truth (n - pwd_len sd) = true) as -> by (apply truth_true; lia).
  by repeat case_match.
Qed.

(**  The erase commands take the group numbers of the range from the guest
    unchecked: on a card of less than 4092 MiB, CMD33 with the largest argument
    makes CMD38 test write protection group 2047, outside the bitmap. *)
Theorem erase_range_unchecked sd b a :
  card sd b -> high_capacity sd = false -> is_u 32 a -> a <> 0 ->
  Z.of_nat (length (wp_groups sd)) <= 2047 -> (aget 0 (csd sd) 14 .&? 0x30) = false ->
  let sd1 := snd (cmd_erase sd 32 a) in
  let sd2 := snd (cmd_erase sd1 33 0xffffffff) in
  cmd_erase sd2 38 0 = (sd_r1b, (sd_erase sd2.[state := sd_programming_state]).[state := sd_transfer_state]) /\
  2047 ∈ erase_groups sd2.[state := sd_programming_state] /\
  Z.of_nat (length (wp_groups sd2)) <= 2047.
Proof.
  intros [] Hh Ha Hne Hw Hc. unfold cmd_erase. cbn [state set_field snd fst erase_end csd wp_groups].
  rewrite card_tran0. switch. cbn [state set_field snd fst csd wp_groups]. rewrite card_tran0. switch.
  cbn [state set_field snd fst csd wp_groups]. rewrite card_tran0. rewrite Hc.
  split; [done|]. split; [|done].
  unfold erase_groups. change (high_capacity (_.[state := _])) with (high_capacity sd). rewrite Hh.
  cbn [erase_start erase_end set_field]. rewrite !Z.mul_1_r. unfold sd_addr_to_wpnum.
  change (0xffffffff .>> (9 + 5 + 7)) with 2047. apply elem_of_seqZ.
  rewrite Z.shiftr_div_pow2 by lia. change (9 + 5 + 7) with 21. destruct Ha as [Ha0 Ha1].
  assert (0 <= a / 2 ^ 21 <= 2047); [|lia].
  split; [apply Z.div_pos; lia|]. apply Z.lt_succ_r, Z.div_lt_upper_bound; lia.
Qed.

(**  CMD13 during a block read is recorded as the current command and the data
    phase goes on as if it were ACMD13: the next byte is taken from the 64-byte
    status register at the index of the block read, past its end. *)
Theorem cmd13_reads_past_status sd b addr len k crc :
  sending sd b addr len k -> 64 <= k -> rca sd = 0 -> length (sd_status sd) = 64%nat ->
  let sd1 := snd (sd_do_command sd (mkReq 13 0 crc)) in
  state sd1 = sd_sendingdata_state /\ current_cmd sd1 = 13 /\
  read_array sd1 = sd_status sd1 /\ Z.of_nat (length (read_array sd1)) <= data_offset sd1.
Proof.
  intros [[] Hok Hst Hcmd Hs Hl Hoff Hbuf] Hk Hr Hlen.
  assert (sd_normal_command (sd_set_mode sd) (mkReq 13 0 crc) =
    (sd_r1, clear_status sd.[mode := sd_data_transfer_mode] APP_CMD)) as E.
  { unfold sd_set_mode. rewrite Hst. unfold sd_normal_command, between. cbn [req_cmd req_arg]. switch.
    unfold cmd_info. switch. cbn. by rewrite Hr. }
  rewrite (do_command_r1 sd _ _ wk_ready0 wk_lock0 wk_acmd0 E). cbn [snd].
  split; [done|]. split; [done|]. split; [done|].
  unfold read_array. cbn [current_cmd set_field req_cmd]. switch. cbn. rewrite Hlen, Hoff. lia.
Qed.
End Safety.

(** ** Instances *)


Lemma spi_never_writes_witness :
  bdrv (run_ops [Command (mkReq 1 0 0); Command (mkReq 24 0 0); WriteData 1]
          (sd_init (Some demo_image) true)) = Some demo_image.
Proof. apply spi_never_writes. repeat constructor; by vm_compute. Defined.

Lemma csd_describes_drive_witness :
  csd_capacity (csd (sd_init (Some (Image.blank 512 0)) true)) = 2 ^ 18.
Proof.
  refine (proj1 (csd_describes_drive (Image.blank 512 0) true _ _)); [by vm_compute|].
  left. split; by vm_compute.
Defined.

Lemma lock_needs_new_password_witness :
  sd_lock_command demo_card = set_status demo_card LOCK_UNLOCK_FAILED.
Proof. apply lock_needs_new_password; by vm_compute. Defined.

Lemma erase_range_unchecked_witness :
  2047 ∈ erase_groups (snd (cmd_erase (snd (cmd_erase demo_card 32 1)) 33 0xffffffff)).[state := sd_programming_state].
Proof.
  refine (proj1 (proj2 (erase_range_unchecked demo_card demo_image 1 demo_card_ok _ _ _ _ _)));
    [by vm_compute|by vm_compute|done|by vm_compute|by vm_compute].
Defined.

(** A card in SPI mode, 64 bytes into a block. *)
Definition demo_reading : SDState Image.image :=
  run_ops (Command (mkReq 1 0 0) :: Command (mkReq 17 0 0) :: replicate 64 ReadData)
    (sd_init (Some demo_image) true).
Lemma demo_reading_ok : sending demo_reading demo_image 0 512 64.
Proof.
  constructor; [constructor; by vm_compute|split; by vm_compute|by vm_compute..|].
  intros _ j Hj. assert (data demo_reading = replicate 512 7) as -> by (by vm_compute).
  unfold drive_byte, aget. destruct (Z.leb_spec 0 j); [|lia].
  rewrite lookup_replicate_2 by lia. rewrite Z.add_0_l.
  rewrite (Z.div_small j 512), (Z.mod_small j 512) by lia. destruct (Z.leb_spec 0 j); [|lia].
  change (default [] (bdrv_read demo_image 0)) with (replicate 512 7).
  by rewrite lookup_replicate_2 by lia.
Qed.

Lemma cmd13_reads_past_status_witness :
  let sd1 := snd (sd_do_command demo_reading (mkReq 13 0 0)) in
  Z.of_nat (length (read_array sd1)) <= data_offset sd1.
Proof.
  refine (proj2 (proj2 (proj2 (cmd13_reads_past_status demo_reading demo_image 0 512 64 0
    demo_reading_ok _ _ _)))); by vm_compute.
Defined.
End SdSafety.
