(* ===== verification/SsiSd.v ===== *)
(** * The SD card as a slave of the serial bus (hw/sd/ssi-sd.c)

    A byte-level state machine in front of the card: it collects a command and
    its argument, forwards it to [Sd.sd_do_command], translates the answer to
    the SPI response format and streams the data of a read. *)

From S2P Require Import Prelude Irq Ssi Block Sd SdProps.

Module SsiSd.

(** The enumerators, and any other value the variable may be given. *)
Inductive ssi_sd_mode :=
  SSI_SD_CMD | SSI_SD_CMDARG | SSI_SD_RESPONSE | SSI_SD_DATA_START | SSI_SD_DATA_READ | SSI_SD_OTHER (v : Z).
#[export] Instance ssi_mode_eq_dec : EqDecision ssi_sd_mode.
Proof. solve_decision. Defined.

Definition SSI_SDR_LOCKED := 0x0001.
Definition SSI_SDR_WP_ERASE := 0x0002.
Definition SSI_SDR_ERROR := 0x0004.
Definition SSI_SDR_CC_ERROR := 0x0008.
Definition SSI_SDR_ECC_FAILED := 0x0010.
Definition SSI_SDR_WP_VIOLATION := 0x0020.
Definition SSI_SDR_ERASE_PARAM := 0x0040.
Definition SSI_SDR_OUT_OF_RANGE := 0x0080.
Definition SSI_SDR_IDLE := 0x0100.
Definition SSI_SDR_ERASE_RESET := 0x0200.
Definition SSI_SDR_ILLEGAL_COMMAND := 0x0400.
Definition SSI_SDR_COM_CRC_ERROR := 0x0800.
Definition SSI_SDR_ERASE_SEQ_ERROR := 0x1000.
Definition SSI_SDR_ADDRESS_ERROR := 0x2000.
Definition SSI_SDR_PARAMETER_ERROR := 0x4000.

Section SsiSd.
Context {B : Type} `{!BlockDriver B}.

Record ssi_sd_state := mkSsiSd {
  mode : ssi_sd_mode; cmd : Z; cmdarg : list Z; response : list Z;
  arglen : Z; response_pos : Z; stopping : Z; sd : Sd.SDState B
}.
#[export] Instance eta_ssi_sd : RecEta ssi_sd_state := fun s =>
  mkSsiSd (mode s) (cmd s) (cmdarg s) (response s) (arglen s) (response_pos s) (stopping s) (sd s).

(** The SPI status word of a card status: one bit per condition. *)
Definition status_word (cardstatus : Z) : Z :=
  let flag (c : bool) (m status : Z) := if c then status .| m else status in
  let status := 0 in
  let status := flag ((cardstatus .>> 9) .& 0xf <? 4) SSI_SDR_IDLE status in
  let status := flag (cardstatus .&? (1 .<< 13)) SSI_SDR_ERASE_RESET status in
  let status := flag (cardstatus .&? (1 .<< 22)) SSI_SDR_ILLEGAL_COMMAND status in
  let status := flag (cardstatus .&? (1 .<< 23)) SSI_SDR_COM_CRC_ERROR status in
  let status := flag (cardstatus .&? (1 .<< 28)) SSI_SDR_ERASE_SEQ_ERROR status in
  let status := flag (cardstatus .&? (1 .<< 30)) SSI_SDR_ADDRESS_ERROR status in
  let status := flag (cardstatus .&? (1 .<< 25)) SSI_SDR_LOCKED status in
  let status := flag (cardstatus .&? ((1 .<< 24) .| (1 .<< 15))) SSI_SDR_WP_ERASE status in
  let status := flag (cardstatus .&? (1 .<< 19)) SSI_SDR_ERROR status in
  let status := flag (cardstatus .&? (1 .<< 20)) SSI_SDR_CC_ERROR status in
  let status := flag (cardstatus .&? (1 .<< 21)) SSI_SDR_ECC_FAILED status in
  let status := flag (cardstatus .&? (1 .<< 26)) SSI_SDR_WP_VIOLATION status in
  let status := flag (cardstatus .&? (1 .<< 27)) SSI_SDR_ERASE_PARAM status in
  let status := flag (cardstatus .&? ((1 .<< 31) .| (1 .<< 16))) SSI_SDR_OUT_OF_RANGE status in
  flag (status .&? 0xff) SSI_SDR_PARAMETER_ERROR status.

Definition be32 (l : list Z) : Z :=
  u32 ((aget 0 l 0 .<< 24) .| (aget 0 l 1 .<< 16) .| (aget 0 l 2 .<< 8) .| aget 0 l 3).

(** The argument is complete: run the command and prepare the response. *)
Definition run_request (s : ssi_sd_state) : ssi_sd_state :=
  let request := Sd.mkReq (u8 (cmd s)) (be32 (cmdarg s)) 0 in
  let '(longresp, sd') := Sd.sd_do_command (sd s) request in
  let s := s.[sd := sd'] in
  let rsplen := Z.of_nat (length longresp) in
  let s :=
    if rsplen <=? 0 then s.[arglen := 1].[response := aset (response s) 0 4]
    else if cmd s =? 58 then
      s.[arglen := 5].[response := memcpy (aset (response s) 0 1) 1 (take 4 longresp)]
    else if negb (rsplen =? 4) then s.[arglen := 1].[response := aset (response s) 0 4]
    else
      let s := s.[arglen := if cmd s =? 13 then 2 else 1] in
      let status := status_word (be32 longresp) in
      let s := s.[response := aset (response s) 0 (u8 (status .>> 8))] in
      s.[response := aset (response s) 1 (u8 status)] in
  s.[mode := SSI_SD_RESPONSE].[response_pos := 0].

(** A data byte that looks like a command interrupts the read. *)
Definition stop_check (s : ssi_sd_state) (val : Z) : ssi_sd_state :=
  if bool_decide (mode s = SSI_SD_DATA_READ) && (val =? 0x4d)
  then s.[mode := SSI_SD_CMD].[stopping := 1] else s.

Definition ssi_sd_transfer (s : ssi_sd_state) (val : Z) : Z * ssi_sd_state :=
  let s := stop_check s val in
  match mode s with
  | SSI_SD_CMD =>
      if val =? 0xff then (0xff, s)
      else (0xff, s.[cmd := val .& 0x3f].[mode := SSI_SD_CMDARG].[arglen := 0])
  | SSI_SD_CMDARG =>
      (0xff, if arglen s =? 4 then run_request s
             else let s := s.[cmdarg := aset (cmdarg s) (arglen s) (u8 val)] in
                  s.[arglen := arglen s + 1])
  | SSI_SD_RESPONSE =>
      if truth (stopping s) then (0xff, s.[stopping := 0])
      else if response_pos s <? arglen s then
        (aget 0 (response s) (response_pos s), s.[response_pos := response_pos s + 1])
      else (0xff, s.[mode := if Sd.sd_data_ready (sd s) then SSI_SD_DATA_START else SSI_SD_CMD])
  | SSI_SD_DATA_START => (0xfe, s.[mode := SSI_SD_DATA_READ])
  | SSI_SD_DATA_READ =>
      let '(v, sd') := Sd.sd_read_data (sd s) in
      let s := s.[sd := sd'] in
      (v, if Sd.sd_data_ready (sd s) then s else s.[mode := SSI_SD_CMD])
  | SSI_SD_OTHER _ => (0xff, s)
  end.

Definition ssi_sd_init (bs : option B) : ssi_sd_state :=
  mkSsiSd SSI_SD_CMD 0 (replicate 4 0) (replicate 5 0) 0 0 0 (Sd.sd_init bs true).

(** A sequence of words on the bus and the replies of the card. *)
Fixpoint exchange (s : ssi_sd_state) (vals : list Z) : list Z * ssi_sd_state :=
  match vals with
  | [] => ([], s)
  | v :: vals => let '(r, s) := ssi_sd_transfer s v in
                 let '(rs, s) := exchange s vals in (r :: rs, s)
  end.

Lemma exchange_app vs ws : forall s,
  exchange s (vs ++ ws) =
    let '(rs, s1) := exchange s vs in let '(ts, s2) := exchange s1 ws in (rs ++ ts, s2).
Proof.
  induction vs as [|v vs IH]; intros s; cbn [exchange app]; [by destruct (exchange s ws)|].
  destruct (ssi_sd_transfer s v) as [r s1]. rewrite IH. destruct (exchange s1 vs) as [rs s2].
  by destruct (exchange s2 ws).
Qed.

(** ** Reading a block over the bus *)

Context `{!BlockLaws B}.

Lemma be32_bytes v : is_u 32 v -> be32 (Sd.bytes_be32 v) = v.
Proof.
  intros Hv. unfold be32, Sd.bytes_be32, aget. switch.
  change (Z.to_nat 0) with 0%nat. change (Z.to_nat 1) with 1%nat.
  change (Z.to_nat 2) with 2%nat. change (Z.to_nat 3) with 3%nat.
  cbn [lookup list_lookup from_option id].
  change 0xff with (Z.ones 8). rewrite !Z.land_ones, !Z.shiftr_div_pow2 by lia.
  rewrite <- !Z.lor_assoc.
  assert (forall x, 0 <= x mod 2 ^ 8 < 2 ^ 8) as Hb by (intros; apply Z.mod_pos_bound; lia).
  pose proof (Hb v). pose proof (Hb (v / 2 ^ 8)). pose proof (Hb (v / 2 ^ 16)). pose proof (Hb (v / 2 ^ 24)).
  rewrite (lor_shiftl_add _ _ 8), (lor_shiftl_add _ _ 16), (lor_shiftl_add _ _ 24) by lia.
  assert ((v / 2 ^ 24) mod 2 ^ 8 = v / 2 ^ 24) as ->.
  { destruct Hv. apply Z.mod_small. split; [apply Z.div_pos; lia|apply Z.div_lt_upper_bound; lia]. }
  rewrite u32_small; [|].
  - rewrite (Z.div_mod v (2 ^ 8)) at 5 by lia. rewrite (Z.div_mod (v / 2 ^ 8) (2 ^ 8)) at 2 by lia.
    rewrite Z.div_div by lia. change (2 ^ 8 * 2 ^ 8) with (2 ^ 16).
    rewrite (Z.div_mod (v / 2 ^ 16) (2 ^ 8)) at 2 by lia. rewrite Z.div_div by lia.
    change (2 ^ 16 * 2 ^ 8) with (2 ^ 24). lia.
  - destruct Hv. assert (v / 2 ^ 24 < 2 ^ 8) by (apply Z.div_lt_upper_bound; lia).
    assert (0 <= v / 2 ^ 24) by (apply Z.div_pos; lia). unfold is_u. lia.
Qed.

Lemma be32_u l : is_u 32 (be32 l).
Proof. apply is_u_u32. Qed.

(** The six bytes of a command. *)
Lemma send_command s c a0 a1 a2 a3 x :
  mode s = SSI_SD_CMD -> 0 <= c < 64 -> length (cmdarg s) = 4%nat ->
  exchange s [0x40 + c; a0; a1; a2; a3; x] =
    (replicate 6 0xff,
     run_request s.[cmd := c].[mode := SSI_SD_CMDARG].[cmdarg := [u8 a0; u8 a1; u8 a2; u8 a3]].[arglen := 4]).
Proof.
  intros Hm Hc Hl.
  assert (forall (s : ssi_sd_state) v, mode s <> SSI_SD_DATA_READ -> stop_check s v = s) as Hstop.
  { intros y v Hy. unfold stop_check. by rewrite bool_decide_false. }
  destruct s as [m cm ca re al rp st d]. cbn in Hm, Hl. subst m.
  destruct ca as [|c0 [|c1 [|c2 [|c3 [|]]]]]; try done.
  assert (ssi_sd_transfer (mkSsiSd SSI_SD_CMD cm [c0; c1; c2; c3] re al rp st d) (0x40 + c) =
    (0xff, mkSsiSd SSI_SD_CMDARG c [c0; c1; c2; c3] re 0 rp st d)) as E0.
  { unfold ssi_sd_transfer. rewrite Hstop by done. cbn [mode].
    destruct (Z.eqb_spec (0x40 + c) 0xff); [lia|].
    assert ((0x40 + c) .& 0x3f = c) as Ec.
    { change 0x3f with (Z.ones 6). rewrite Z.land_ones by lia. rewrite Zplus_mod.
      change (0x40 mod 2 ^ 6) with 0. rewrite Z.add_0_l, Z.mod_mod by lia. apply Z.mod_small. lia. }
    by rewrite Ec. }
  cbn [exchange]. rewrite E0. clear E0.
  unfold ssi_sd_transfer. rewrite !Hstop by done. reflexivity.
Qed.

(** The first response byte of a command answered from the transfer state. *)
Definition r1_byte (d : Sd.SDState B) : Z :=
  u8 (status_word (SdProps.status_sent Sd.sd_transfer_state
        (Sd.card_status d .& not32 Sd.APP_CMD)) .>> 8).

Lemma run_read_request s b :
  SdProps.card (sd s) b -> cmd s = 17 -> length (response s) = 5%nat ->
  0 <= Sd.blk_len (sd s) ->
  SdProps.addr_of (sd s) (be32 (cmdarg s)) + Sd.blk_len (sd s) <= Sd.size (sd s) ->
  exists d1 re, run_request s =
      s.[sd := d1].[arglen := 1].[response := re].[mode := SSI_SD_RESPONSE].[response_pos := 0] /\
    aget 0 re 0 = r1_byte (sd s) /\ length re = 5%nat /\
    SdProps.sending d1 b (SdProps.addr_of (sd s) (be32 (cmdarg s))) (SdProps.io_len (sd s)) 0 /\
    Sd.size d1 = Sd.size (sd s).
Proof.
  intros Hc Hcmd Hre Hl Hr. unfold run_request. rewrite Hcmd, (u8_small 17) by by vm_compute.
  destruct (SdProps.cmd17_sending (sd s) b (be32 (cmdarg s)) 0 Hc (be32_u _) Hl Hr) as (d1 & -> & Hs).
  assert (Sd.size d1 = Sd.size (sd s)) as Ez by (destruct Hc, Hs as [[]]; congruence).
  eexists d1, _. split.
  { cbn [length Sd.bytes_be32]. switch. cbn [cmd set_field]. rewrite Hcmd. switch. reflexivity. }
  cbn [response set_field arglen]. split; [|by rewrite !length_aset].
  rewrite aget_aset_ne, aget_aset_eq by lia. unfold r1_byte. by rewrite be32_bytes by apply is_u_u32.
Qed.

(** The data bytes: each word but 0x4d clocks out the next byte of the block. *)
Lemma exchange_data vals : forall s b addr len k,
  mode s = SSI_SD_DATA_READ -> SdProps.sending (sd s) b addr len k ->
  Forall (fun v => v <> 0x4d) vals -> Z.of_nat (length vals) = len - k -> 0 <= k < len -> len <= 512 ->
  0 <= addr -> addr + len <= Sd.size (sd s) ->
  exists s', exchange s vals = ((fun j => drive_byte b (addr + j)) <$> seqZ k (len - k), s') /\
    mode s' = SSI_SD_CMD /\ SdProps.card (sd s') b.
Proof.
  induction vals as [|v vals IH]; intros s b addr len k Hm Hs Hv Hn Hk Hl Ha Hr; cbn [length] in Hn; [lia|].
  apply Forall_cons_1 in Hv as [Hv Hvs].
  destruct (SdProps.read_step (sd s) b addr len k Hs Hk Hl Ha Hr) as (d' & E & Ez & H').
  cbn [exchange]. unfold ssi_sd_transfer, stop_check.
  destruct (Z.eqb_spec v 0x4d); [done|]. rewrite andb_false_r, Hm, E.
  rewrite seqZ_cons, fmap_cons by lia. replace (Z.succ k) with (k + 1) by lia.
  replace (Z.pred (len - k)) with (len - (k + 1)) by lia. cbn [sd set_field].
  destruct (Z.eqb_spec (k + 1) len) as [Ek|Nk].
  - assert (vals = []) as -> by (destruct vals; [done|cbn [length] in Hn; lia]).
    unfold Sd.sd_data_ready. destruct H' as [? ? ? ? Ht]. rewrite Ht.
    rewrite bool_decide_false by done. rewrite Ek, Z.sub_diag. cbn. eexists. split; [reflexivity|].
    split; [done|]. by constructor.
  - unfold Sd.sd_data_ready. pose proof H' as [_ _ Ht _ _ _ _ _]. rewrite Ht, bool_decide_true by done.
    destruct (IH s.[sd := d'] b addr len (k + 1)) as (s' & E' & Hm' & Hc'); cbn; auto; try lia.
    rewrite E'. by exists s'.
Qed.

(** The words between the command and the data. *)
Lemma response_step s v : mode s = SSI_SD_RESPONSE -> stopping s = 0 -> response_pos s < arglen s ->
  ssi_sd_transfer s v = (aget 0 (response s) (response_pos s), s.[response_pos := response_pos s + 1]).
Proof.
  intros Hm Hs Hp. unfold ssi_sd_transfer, stop_check. rewrite Hm, bool_decide_false by done. cbn [andb].
  rewrite Hm, Hs. change (truth 0) with false. by destruct (Z.ltb_spec (response_pos s) (arglen s)); [|lia].
Qed.
Lemma response_end s v : mode s = SSI_SD_RESPONSE -> stopping s = 0 -> arglen s <= response_pos s ->
  Sd.state (sd s) = Sd.sd_sendingdata_state ->
  ssi_sd_transfer s v = (0xff, s.[mode := SSI_SD_DATA_START]).
Proof.
  intros Hm Hs Hp Hd. unfold ssi_sd_transfer, stop_check. rewrite Hm, bool_decide_false by done. cbn [andb].
  rewrite Hm, Hs. change (truth 0) with false. destruct (Z.ltb_spec (response_pos s) (arglen s)); [lia|].
  unfold Sd.sd_data_ready. by rewrite Hd, bool_decide_true.
Qed.
Lemma start_step s v : mode s = SSI_SD_DATA_START ->
  ssi_sd_transfer s v = (0xfe, s.[mode := SSI_SD_DATA_READ]).
Proof.
  intros Hm. unfold ssi_sd_transfer, stop_check. rewrite Hm, bool_decide_false by done. cbn [andb].
  by rewrite Hm.
Qed.

(** C34.  A guest reads a block of the SD card over the serial bus: the six bytes of
    CMD17 are answered by 0xff, then come the status byte, a gap, the start
    token 0xfe and exactly the bytes of the drive at the requested address; the
    slave is then ready for the next command and the drive is unchanged.  The
    words that clock the data out begin no command: the bytes 0x40 to 0x7f,
    of which CMD12 and CMD13 are two, are not among them. *)
Theorem ssi_read_block s b a0 a1 a2 a3 crc x1 x2 x3 fill :
  mode s = SSI_SD_CMD -> stopping s = 0 -> length (cmdarg s) = 4%nat -> length (response s) = 5%nat ->
  SdProps.card (sd s) b -> 0 < Sd.blk_len (sd s) <= 512 ->
  SdProps.io_len (sd s) = Sd.blk_len (sd s) ->
  let arg := be32 [u8 a0; u8 a1; u8 a2; u8 a3] in
  let addr := SdProps.addr_of (sd s) arg in
  addr + Sd.blk_len (sd s) <= Sd.size (sd s) ->
  Z.of_nat (length fill) = Sd.blk_len (sd s) -> Forall (fun v => ~ 0x40 <= v < 0x80) fill ->
  exists s', exchange s ([0x51; a0; a1; a2; a3; crc; x1; x2; x3] ++ fill) =
      (replicate 6 0xff ++ [r1_byte (sd s); 0xff; 0xfe] ++
         ((fun j => drive_byte b (addr + j)) <$> seqZ 0 (Sd.blk_len (sd s))), s') /\
    mode s' = SSI_SD_CMD /\ SdProps.card (sd s') b.
Proof.
  intros Hm Hst Hca Hre Hc Hbl Hio arg addr Hr Hfill Hne.
  change ([0x51; a0; a1; a2; a3; crc; x1; x2; x3] ++ fill) with
    ([0x40 + 17; a0; a1; a2; a3; crc] ++ ([x1; x2; x3] ++ fill)).
  rewrite exchange_app, send_command by (done || lia).
  set (s0 := s.[cmd := 17].[mode := SSI_SD_CMDARG].[cmdarg := [u8 a0; u8 a1; u8 a2; u8 a3]].[arglen := 4]).
  destruct (run_read_request s0 b) as (d1 & re & -> & R0 & Lre & Hs & Ez); try done; [cbn; lia|].
  pose proof Hs as [_ _ Ht _ _ _ _ _]. cbn [exchange app].
  rewrite response_step by (done || cbn; lia). cbn [response response_pos set_field].
  rewrite response_end by (done || cbn; lia). rewrite start_step by done.
  match goal with |- context [exchange ?z fill] =>
    destruct (exchange_data fill z b addr (Sd.blk_len (sd s)) 0) as (s' & E & Hm' & Hc') end;
    try done; try lia.
  { cbn [sd set_field]. by rewrite <- Hio. }
  { apply (Forall_impl _ _ _ Hne). intros v Hv. lia. }
  { by apply SdProps.addr_of_nonneg, be32_u. }
  { cbn [sd set_field]. rewrite Ez. done. }
  rewrite E, Z.sub_0_r. exists s'. split; [|done]. cbn [app]. by rewrite R0.
Qed.

(**  The byte that interrupts a read is 0x4d, the first byte of CMD13; the first
    byte 0x4c of CMD12 (STOP TRANSMISSION), which the special case is meant for,
    is taken for a dummy word and clocks out one more byte of data. *)
Theorem cmd12_not_recognised s : mode s = SSI_SD_DATA_READ ->
  ssi_sd_transfer s 0x4c = ssi_sd_transfer s 0xff /\
  (let s' := snd (ssi_sd_transfer s 0x4d) in mode s' = SSI_SD_CMDARG /\ cmd s' = 13 /\ sd s' = sd s).
Proof.
  intros Hm. unfold ssi_sd_transfer, stop_check. rewrite Hm, bool_decide_true by done. switch.
  by rewrite Hm.
Qed.

(** SSISlaveClass of the device: selected by a low chip select. *)
#[export] Instance ssi_sd_class : Ssi.SSISlaveClass ssi_sd_state := {
  Ssi.transfer := ssi_sd_transfer;
  Ssi.set_cs _ := None;
  Ssi.cs_polarity _ := Ssi.SSI_CS_LOW
}.
End SsiSd.
Arguments ssi_sd_state B : clear implicits.

(** ** A slave on a blank image, initialised with CMD1 *)

Definition demo_slave : ssi_sd_state Image.image :=
  snd (exchange (ssi_sd_init (Some SdProps.demo_image)) [0x41; 0; 0; 0; 0; 0xff; 0xff; 0xff]).
Lemma demo_slave_card : SdProps.card (sd demo_slave) SdProps.demo_image.
Proof. constructor; by vm_compute. Qed.

Lemma ssi_read_block_witness :
  exists s' : ssi_sd_state Image.image,
    exchange demo_slave ([0x51; 0; 0; 2; 0; 0; 0; 0; 0] ++ replicate 512 0xff) =
      (replicate 6 0xff ++ [0; 0xff; 0xfe] ++ replicate 512 7, s') /\ mode s' = SSI_SD_CMD.
Proof.
  destruct (ssi_read_block demo_slave SdProps.demo_image 0 0 2 0 0 0 0 0 (replicate 512 0xff))
    as (s' & E & Hm & _); [by vm_compute..|exact demo_slave_card| | | | | |].
  1-4: by vm_compute.
  { apply Forall_replicate. lia. }
  exists s'. rewrite E. split; [|exact Hm]. f_equal.
Defined.

Definition demo_streaming : ssi_sd_state Image.image :=
  snd (exchange demo_slave [0x51; 0; 0; 2; 0; 0; 0; 0; 0]).
Lemma cmd12_not_recognised_witness :
  fst (ssi_sd_transfer demo_streaming 0x4c) = 7.
Proof.
  destruct (cmd12_not_recognised demo_streaming) as [E _]; [by vm_compute|]. rewrite E. by vm_compute.
Defined.
End SsiSd.
