(* ===== verification/QemuFile.v ===== *)
(** * Migration streams (savevm.c, struct QEMUFile)

    A file buffers what the device handlers put and get and moves it to a
    backend through [QEMUFileOps].  When the backend has [writev_buffer] the
    pending output is a vector of pieces, each a range of the buffer of the
    file or of memory of the caller ([ext] is what that memory holds at the
    time of the call). *)

From S2P Require Import Prelude.

Module QemuFile.

Definition IO_BUF_SIZE := 32768.
Definition MAX_IOV_SIZE : nat := 64.
Definition EIO := 5.
Definition EAGAIN := 11.

(** A pointer into the buffer of the file, or into block [id] of the caller. *)
Inductive ptr := PBuf (off : Z) | PExt (id off : Z).
#[export] Instance ptr_eq_dec : EqDecision ptr.
Proof. solve_decision. Defined.
Definition ptr_add (p : ptr) (n : Z) : ptr :=
  match p with PBuf off => PBuf (off + n) | PExt id off => PExt id (off + n) end.
Record iovec := mkIov { iov_base : ptr; iov_len : Z }.

Section File.
Context {S : Type}.

(** The operations of a backend: the result and the new state of the backend;
    [get_buffer] also gives the bytes it stored. *)
Record QEMUFileOps := mkOps {
  op_put_buffer : option (S -> list Z -> Z -> Z * S);
  op_writev_buffer : option (S -> list (list Z) -> Z -> Z * S);
  op_get_buffer : S -> Z -> Z -> Z * list Z * S;
  op_close : option (S -> Z)
}.
Context (ops : QEMUFileOps) (ext : Z -> list Z).

Record QEMUFile := mkFile {
  opaque : S; bytes_xfer : Z; xfer_limit : Z; pos : Z;
  buf_index : Z; buf_size : Z; buf : list Z; iov : list iovec; last_error : Z
}.
#[export] Instance eta_file : RecEta QEMUFile := fun f =>
  mkFile (opaque f) (bytes_xfer f) (xfer_limit f) (pos f) (buf_index f) (buf_size f) (buf f)
    (iov f) (last_error f).

Definition qemu_fopen_ops (o : S) : QEMUFile :=
  mkFile o 0 0 0 0 0 (replicate (Z.to_nat IO_BUF_SIZE) 0) [] 0.

Definition qemu_file_get_error (f : QEMUFile) : Z := last_error f.
Definition qemu_file_set_error (f : QEMUFile) (ret : Z) : QEMUFile :=
  if last_error f =? 0 then f.[last_error := ret] else f.
Definition qemu_file_is_writable : bool :=
  match op_writev_buffer ops, op_put_buffer ops with None, None => false | _, _ => true end.
Definition uses_iov : bool := match op_writev_buffer ops with Some _ => true | None => false end.

(** The bytes a piece of the vector denotes when it is handed to the backend. *)
Definition piece (f : QEMUFile) (v : iovec) : list Z :=
  match iov_base v with
  | PBuf off => slice (buf f) off (iov_len v)
  | PExt id off => slice (ext id) off (iov_len v)
  end.

Definition qemu_fflush (f : QEMUFile) : QEMUFile :=
  if negb qemu_file_is_writable then f else
  let '(ret, f) :=
    match op_writev_buffer ops with
    | Some writev =>
        match iov f with
        | [] => (0, f)
        | _ => let '(ret, o) := writev (opaque f) (piece f <$> iov f) (pos f) in (ret, f.[opaque := o])
        end
    | None =>
        match op_put_buffer ops with
        | Some put =>
            if 0 <? buf_index f then
              let '(ret, o) := put (opaque f) (slice (buf f) 0 (buf_index f)) (pos f) in
              (ret, f.[opaque := o])
            else (0, f)
        | None => (0, f)
        end
    end in
  let f := if 0 <=? ret then f.[pos := pos f + ret] else f in
  let f := f.[buf_index := 0].[iov := []] in
  if ret <? 0 then qemu_file_set_error f ret else f.

Definition qemu_fill_buffer (f : QEMUFile) : QEMUFile :=
  let pending := buf_size f - buf_index f in
  let f := if 0 <? pending
           then f.[buf := memcpy (buf f) 0 (slice (buf f) (buf_index f) pending)] else f in
  let f := f.[buf_index := 0].[buf_size := pending] in
  let '(len, d, o) := op_get_buffer ops (opaque f) (pos f) (IO_BUF_SIZE - pending) in
  let f := f.[opaque := o].[buf := memcpy (buf f) pending d] in
  if 0 <? len then f.[buf_size := buf_size f + len].[pos := pos f + len]
  else if len =? 0 then qemu_file_set_error f (- EIO)
  else if negb (len =? - EAGAIN) then qemu_file_set_error f len
  else f.

Definition qemu_update_position (f : QEMUFile) (size : Z) : QEMUFile := f.[pos := pos f + size].

Definition qemu_fclose (f : QEMUFile) : Z :=
  let f := qemu_fflush f in
  let ret := qemu_file_get_error f in
  let ret := match op_close ops with
             | Some close => if 0 <=? ret then close (opaque f) else ret
             | None => ret
             end in
  if truth (last_error f) then last_error f else ret.

(** Append a piece, or extend the last one if it is adjacent. *)
Definition extend_iov (l : list iovec) (p : ptr) (size : Z) : list iovec :=
  match last l with
  | Some v => if bool_decide (p = ptr_add (iov_base v) (iov_len v))
              then take (length l - 1) l ++ [mkIov (iov_base v) (iov_len v + size)]
              else l ++ [mkIov p size]
  | None => l ++ [mkIov p size]
  end.
Definition add_to_iovec (f : QEMUFile) (p : ptr) (size : Z) : QEMUFile :=
  let f := f.[iov := extend_iov (iov f) p size] in
  if (MAX_IOV_SIZE <=? length (iov f))%nat then qemu_fflush f else f.

(** One round of the loop of [qemu_put_buffer]: [l] bytes of [d]. *)
Definition put_chunk (f : QEMUFile) (d : list Z) (size : Z) : QEMUFile :=
  let l := Z.of_nat (length d) in
  let f := f.[buf := memcpy (buf f) (buf_index f) d] in
  let f := f.[bytes_xfer := bytes_xfer f + size] in
  let f := if uses_iov then add_to_iovec f (PBuf (buf_index f)) l else f in
  let f := f.[buf_index := buf_index f + l] in
  if buf_index f =? IO_BUF_SIZE then qemu_fflush f else f.

Fixpoint put_loop (fuel : nat) (f : QEMUFile) (d : list Z) : QEMUFile :=
  match fuel with
  | O => f
  | Datatypes.S fuel =>
      let size := Z.of_nat (length d) in
      if 0 <? size then
        let l := Z.min (IO_BUF_SIZE - buf_index f) size in
        let f := put_chunk f (take (Z.to_nat l) d) size in
        if truth (qemu_file_get_error f) then f
        else put_loop fuel f (drop (Z.to_nat l) d)
      else f
  end.
(** Every round stores at least one byte. *)
Definition qemu_put_buffer (f : QEMUFile) (d : list Z) : QEMUFile :=
  if truth (last_error f) then f else put_loop (length d) f d.

Definition qemu_put_buffer_async (f : QEMUFile) (id off size : Z) : QEMUFile :=
  if uses_iov then
    if truth (last_error f) then f
    else add_to_iovec f.[bytes_xfer := bytes_xfer f + size] (PExt id off) size
  else qemu_put_buffer f (slice (ext id) off size).

Definition qemu_put_byte (f : QEMUFile) (v : Z) : QEMUFile :=
  if truth (last_error f) then f
  else
    let f := f.[buf := aset (buf f) (buf_index f) (u8 v)] in
    let f := f.[bytes_xfer := bytes_xfer f + 1] in
    let f := if uses_iov then add_to_iovec f (PBuf (buf_index f)) 1 else f in
    let f := f.[buf_index := buf_index f + 1] in
    if buf_index f =? IO_BUF_SIZE then qemu_fflush f else f.

Definition qemu_file_skip (f : QEMUFile) (size : Z) : QEMUFile :=
  if buf_index f + size <=? buf_size f then f.[buf_index := buf_index f + size] else f.

Definition qemu_peek_buffer (f : QEMUFile) (size offset : Z) : list Z * QEMUFile :=
  let f := if buf_size f - (buf_index f + offset) <? size then qemu_fill_buffer f else f in
  let index := buf_index f + offset in
  let pending := buf_size f - index in
  if pending <=? 0 then ([], f)
  else (slice (buf f) index (Z.min size pending), f).

Fixpoint get_loop (fuel : nat) (f : QEMUFile) (pending : Z) : list Z * QEMUFile :=
  match fuel with
  | O => ([], f)
  | Datatypes.S fuel =>
      if 0 <? pending then
        let '(d, f) := qemu_peek_buffer f pending 0 in
        match d with
        | [] => ([], f)
        | _ => let res := Z.of_nat (length d) in
               let f := qemu_file_skip f res in
               let '(rest, f) := get_loop fuel f (pending - res) in (d ++ rest, f)
        end
      else ([], f)
  end.
(** The result [done] is the length of the returned bytes. *)
Definition qemu_get_buffer (f : QEMUFile) (size : Z) : list Z * QEMUFile :=
  get_loop (Z.to_nat size) f size.

Definition qemu_peek_byte (f : QEMUFile) (offset : Z) : Z * QEMUFile :=
  if buf_size f <=? buf_index f + offset then
    let f := qemu_fill_buffer f in
    if buf_size f <=? buf_index f + offset then (0, f)
    else (aget 0 (buf f) (buf_index f + offset), f)
  else (aget 0 (buf f) (buf_index f + offset), f).
Definition qemu_get_byte (f : QEMUFile) : Z * QEMUFile :=
  let '(result, f) := qemu_peek_byte f 0 in
  (result, qemu_file_skip f 1).

Definition qemu_ftell (f : QEMUFile) : Z * QEMUFile :=
  let f := qemu_fflush f in (pos f, f).
Definition qemu_file_rate_limit (f : QEMUFile) : bool :=
  truth (qemu_file_get_error f) || ((0 <? xfer_limit f) && (xfer_limit f <? bytes_xfer f)).
Definition qemu_file_get_rate_limit (f : QEMUFile) : Z := xfer_limit f.
Definition qemu_file_set_rate_limit (f : QEMUFile) (limit : Z) : QEMUFile := f.[xfer_limit := limit].
Definition qemu_file_reset_rate_limit (f : QEMUFile) : QEMUFile := f.[bytes_xfer := 0].

Definition qemu_put_be16 (f : QEMUFile) (v : Z) : QEMUFile :=
  qemu_put_byte (qemu_put_byte f (v .>> 8)) v.
Definition qemu_put_be32 (f : QEMUFile) (v : Z) : QEMUFile :=
  let f := qemu_put_byte f (v .>> 24) in
  let f := qemu_put_byte f (v .>> 16) in
  let f := qemu_put_byte f (v .>> 8) in
  qemu_put_byte f v.
Definition qemu_put_be64 (f : QEMUFile) (v : Z) : QEMUFile :=
  qemu_put_be32 (qemu_put_be32 f (u32 (v .>> 32))) (u32 v).

Definition qemu_get_be16 (f : QEMUFile) : Z * QEMUFile :=
  let '(a, f) := qemu_get_byte f in
  let '(b, f) := qemu_get_byte f in
  ((a .<< 8) .| b, f).
Definition qemu_get_be32 (f : QEMUFile) : Z * QEMUFile :=
  let '(a, f) := qemu_get_byte f in
  let '(b, f) := qemu_get_byte f in
  let '(c, f) := qemu_get_byte f in
  let '(d, f) := qemu_get_byte f in
  ((a .<< 24) .| (b .<< 16) .| (c .<< 8) .| d, f).
Definition qemu_get_be64 (f : QEMUFile) : Z * QEMUFile :=
  let '(a, f) := qemu_get_be32 f in
  let '(b, f) := qemu_get_be32 f in
  ((a .<< 32) .| b, f).

End File.
Arguments QEMUFile S : clear implicits.
Arguments QEMUFileOps S : clear implicits.
End QemuFile.
