(* ===== verification/QemuFileProps.v ===== *)
(** * Migration streams carry what was put

    On a backend that accepts every byte, a file is the concatenation of what
    was put; on a backend that delivers the bytes in pieces of any size, the
    gets return them one after the other.  Together: what a handler puts is
    what the matching handler gets. *)

From S2P Require Import Prelude QemuFile.

Module QemuFileProps.
Import QemuFile.

(** ** Slices *)

Lemma slice_app l i m n : 0 <= i -> 0 <= m -> 0 <= n ->
  slice l i m ++ slice l (i + m) n = slice l i (m + n).
Proof.
  intros. unfold slice. rewrite !Z2Nat.inj_add by lia. rewrite <- drop_drop.
  generalize (drop (Z.to_nat i) l). intros k.
  rewrite <- (take_drop (Z.to_nat m) (take (Z.to_nat m + Z.to_nat n) k)).
  rewrite take_take, Nat.min_l by lia. f_equal. rewrite skipn_firstn_comm. f_equal. lia.
Qed.
Lemma slice_memcpy_low l i d o n : 0 <= o -> 0 <= n -> o + n <= i -> i <= Z.of_nat (length l) ->
  slice (memcpy l i d) o n = slice l o n.
Proof.
  intros. unfold slice, memcpy.
  rewrite drop_app_le by (rewrite length_take; lia). rewrite take_app_le by (rewrite length_drop, length_take; lia).
  rewrite skipn_firstn_comm, take_take. by rewrite Nat.min_l by lia.
Qed.
Lemma slice_memcpy_eq l i d : 0 <= i -> i <= Z.of_nat (length l) ->
  slice (memcpy l i d) i (Z.of_nat (length d)) = d.
Proof.
  intros. unfold slice, memcpy. rewrite drop_app_length' by (rewrite length_take; lia).
  rewrite take_app_length' by lia. done.
Qed.
Lemma aset_memcpy l i v : 0 <= i < Z.of_nat (length l) -> aset l i v = memcpy l i [v].
Proof.
  intros Hi. unfold aset, memcpy. destruct (Z.leb_spec 0 i); [|lia]. rewrite insert_take_drop by lia.
  cbn. by rewrite Nat.add_1_r.
Qed.

(** ** Writing *)

(** A backend that accepts everything: [written] is what it has received. *)
Class Sink {S : Type} (ops : QEMUFileOps S) (written : S -> list Z) : Prop := {
  sink_writable : qemu_file_is_writable ops = true;
  sink_writev w s vs p : op_writev_buffer ops = Some w ->
    fst (w s vs p) = Z.of_nat (length (mjoin vs)) /\ written (snd (w s vs p)) = written s ++ mjoin vs;
  sink_put w s d p : op_put_buffer ops = Some w ->
    fst (w s d p) = Z.of_nat (length d) /\ written (snd (w s d p)) = written s ++ d
}.

Section Writer.
Context {S : Type} (ops : QEMUFileOps S) (ext : Z -> list Z) (written : S -> list Z) `{!Sink ops written}.
Implicit Types (f : QEMUFile S).

Definition seg_pos (v : iovec) : Prop :=
  0 <= iov_len v /\ match iov_base v with PBuf off => 0 <= off | PExt id off => 0 <= off end.
Definition seg_ok (limit : Z) (v : iovec) : Prop :=
  seg_pos v /\ match iov_base v with PBuf off => off + iov_len v <= limit | PExt _ _ => True end.

Record winv f : Prop := {
  w_buf : length (buf f) = Z.to_nat IO_BUF_SIZE; w_idx : 0 <= buf_index f <= IO_BUF_SIZE;
  w_err : last_error f = 0; w_iov : Forall (seg_ok (buf_index f)) (iov f);
  w_none : uses_iov ops = false -> iov f = []
}.

(** What has been put so far: received by the backend, then pending. *)
Definition pending f : list Z :=
  if uses_iov ops then mjoin (piece ext f <$> iov f) else slice (buf f) 0 (buf_index f).
Definition stream f : list Z := written (opaque f) ++ pending f.

Lemma fflush_shape f : exists r o, written o = stream f /\
  qemu_fflush ops ext f = f.[opaque := o].[pos := pos f + r].[buf_index := 0].[iov := []].
Proof.
  unfold stream, pending, qemu_fflush, uses_iov. rewrite sink_writable. cbn [negb].
  destruct (op_writev_buffer ops) as [w|] eqn:Ew; [|destruct (op_put_buffer ops) as [w|] eqn:Ep].
  - destruct (iov f) as [|v vs] eqn:Ei.
    + exists 0, (opaque f). split; [by rewrite app_nil_r|by destruct f].
    + destruct (sink_writev w (opaque f) (piece ext f <$> v :: vs) (pos f) Ew) as [E1 E2].
      destruct (w (opaque f) _ (pos f)) as [r o]. cbn [fst snd] in *. exists r, o. split; [done|].
      destruct (Z.leb_spec 0 r), (Z.ltb_spec r 0); [lia|done|lia|lia].
  - destruct (Z.ltb_spec 0 (buf_index f)).
    + destruct (sink_put w (opaque f) (slice (buf f) 0 (buf_index f)) (pos f) Ep) as [E1 E2].
      destruct (w (opaque f) _ (pos f)) as [r o]. cbn [fst snd] in *. exists r, o. split; [done|].
      destruct (Z.leb_spec 0 r), (Z.ltb_spec r 0); [lia|done|lia|lia].
    + exists 0, (opaque f). split; [|by destruct f]. unfold slice.
      by rewrite Z2Nat.nonpos, app_nil_r by lia.
  - pose proof sink_writable as Hw. unfold qemu_file_is_writable in Hw. by rewrite Ew, Ep in Hw.
Qed.

Lemma fflush_winv f : winv f -> winv (qemu_fflush ops ext f).
Proof.
  destruct (fflush_shape f) as (r & o & _ & ->). intros []. constructor; cbn; auto.
  unfold IO_BUF_SIZE. lia.
Qed.
Lemma fflush_index f : buf_index (qemu_fflush ops ext f) = 0.
Proof. by destruct (fflush_shape f) as (r & o & _ & ->). Qed.
Lemma fflush_xfer f : bytes_xfer (qemu_fflush ops ext f) = bytes_xfer f.
Proof. by destruct (fflush_shape f) as (r & o & _ & ->). Qed.
Lemma fflush_written f : written (opaque (qemu_fflush ops ext f)) = stream f.
Proof. by destruct (fflush_shape f) as (r & o & ? & ->). Qed.
Lemma fflush_stream f : stream (qemu_fflush ops ext f) = stream f.
Proof.
  rewrite <- (fflush_written f). unfold stream at 1, pending.
  destruct (fflush_shape f) as (r & o & _ & ->). destruct (uses_iov ops); cbn; by rewrite app_nil_r.
Qed.

(** *** The vector of pieces *)

Lemma extend_iov_pieces f l p n : Forall seg_pos l -> 0 <= n ->
  mjoin (piece ext f <$> extend_iov l p n) = mjoin (piece ext f <$> l) ++ piece ext f (mkIov p n).
Proof.
  intros Hl Hn. unfold extend_iov.
  assert (mjoin (piece ext f <$> l ++ [mkIov p n]) =
          mjoin (piece ext f <$> l) ++ piece ext f (mkIov p n)) as Happ
    by (by rewrite fmap_app, join_app; cbn; rewrite app_nil_r).
  destruct (last l) as [[b len]|] eqn:El; [|done]. case_bool_decide as Hp; [|done]. clear Happ.
  apply last_Some in El as [k ->]. cbn in *. rewrite length_app. cbn.
  rewrite Nat.add_sub, take_app_length, !fmap_app, !join_app. cbn. rewrite !app_nil_r, <- app_assoc.
  f_equal. rewrite Forall_app, Forall_singleton in Hl. unfold seg_pos in Hl. cbn in Hl. subst p.
  destruct b as [off|id off]; unfold piece; cbn; symmetry; apply slice_app; lia.
Qed.
Lemma extend_iov_ok limit limit' l p n : Forall (seg_ok limit) l -> limit <= limit' ->
  seg_ok limit' (mkIov p n) -> Forall (seg_ok limit') (extend_iov l p n).
Proof.
  intros Hl Hle Hp. assert (Forall (seg_ok limit') l) as Hl'.
  { eapply Forall_impl; [done|]. unfold seg_ok. intros [[|] ?]; cbn; intuition lia. }
  assert (Forall (seg_ok limit') (l ++ [mkIov p n])) as Happ by (by apply Forall_app; auto).
  unfold extend_iov. destruct (last l) as [[b len]|] eqn:El; [|done].
  case_bool_decide as Hb; [|done]. clear Happ. apply last_Some in El as [k ->].
  rewrite length_app. cbn. rewrite Nat.add_sub, take_app_length.
  rewrite Forall_app, Forall_singleton in *. split; [by apply Hl'|]. destruct Hl' as [_ Hl'].
  cbn in Hb. subst p. revert Hp Hl'. unfold seg_ok, seg_pos. destruct b; cbn; intuition lia.
Qed.

(** The pieces do not depend on what lies above the index. *)
Lemma pieces_memcpy limit f d l : Forall (seg_ok limit) l -> limit <= buf_index f ->
  buf_index f <= Z.of_nat (length (buf f)) ->
  piece ext f.[buf := memcpy (buf f) (buf_index f) d] <$> l = piece ext f <$> l.
Proof.
  intros Hl Hlim Hb. apply list_fmap_ext. intros i v Hv. rewrite Forall_lookup in Hl. specialize (Hl i v Hv).
  revert Hl. unfold seg_ok, seg_pos, piece. destruct v as [[off|id off] n]; cbn; [|done].
  intros [[? ?] ?]. apply slice_memcpy_low; lia.
Qed.

(** *** One round of a put *)

(** The state after the copy and before the index moves. *)
Definition queued f (d : list Z) (size : Z) : QEMUFile S :=
  let f := f.[buf := memcpy (buf f) (buf_index f) d] in
  let f := f.[bytes_xfer := bytes_xfer f + size] in
  if uses_iov ops then add_to_iovec ops ext f (PBuf (buf_index f)) (Z.of_nat (length d)) else f.
Definition advanced f (d : list Z) (size : Z) : QEMUFile S :=
  let g := queued f d size in g.[buf_index := buf_index g + Z.of_nat (length d)].

Lemma pieces_ext f (g : QEMUFile S) (l : list iovec) : buf f = buf g -> piece ext f <$> l = piece ext g <$> l.
Proof. intros E. apply list_fmap_ext. intros i v _. unfold piece. by rewrite E. Qed.
Lemma stream_index f n : uses_iov ops = true -> stream f.[buf_index := n] = stream f.
Proof. unfold stream, pending. by intros ->. Qed.
Lemma seg_ok_mono limit limit' l : limit <= limit' -> Forall (seg_ok limit) l -> Forall (seg_ok limit') l.
Proof. intros Hle Hl. eapply Forall_impl; [done|]. unfold seg_ok. intros [[|] ?]; cbn; intuition lia. Qed.

(** With a vector: the piece is appended... *)
Definition appended f (d : list Z) (size : Z) : QEMUFile S :=
  f.[buf := memcpy (buf f) (buf_index f) d].[bytes_xfer := bytes_xfer f + size].[iov :=
     extend_iov (iov f) (PBuf (buf_index f)) (Z.of_nat (length d))].
Lemma appended_stream f d size : uses_iov ops = true -> winv f -> buf_index f + Z.of_nat (length d) <= IO_BUF_SIZE ->
  stream (appended f d size) = stream f ++ d.
Proof.
  intros Eu [Hb Hi He Hv Hn] Hd. unfold IO_BUF_SIZE in *.
  unfold stream, pending. rewrite Eu. cbn [opaque iov appended set_field rec_eta eta_file]. rewrite <- app_assoc. f_equal.
  rewrite extend_iov_pieces; [|eapply Forall_impl; [done|by intros ? []]|lia]. f_equal.
  - rewrite <- (pieces_memcpy (buf_index f) f d) by (done || lia). by f_equal; apply pieces_ext.
  - unfold piece. cbn. apply slice_memcpy_eq; lia.
Qed.
Lemma advanced_appended f d size : uses_iov ops = true -> let h := appended f d size in
  advanced f d size = if (MAX_IOV_SIZE <=? length (iov h))%nat
    then (qemu_fflush ops ext h).[buf_index := buf_index (qemu_fflush ops ext h) + Z.of_nat (length d)]
    else h.[buf_index := buf_index h + Z.of_nat (length d)].
Proof. intros Eu h. unfold advanced, queued, add_to_iovec. rewrite Eu. cbv zeta. by destruct (_ <=? _)%nat. Qed.
(** ... and the backend may take it all. *)
Lemma advanced_iov f d size : uses_iov ops = true -> winv f ->
  buf_index f + Z.of_nat (length d) <= IO_BUF_SIZE ->
  winv (advanced f d size) /\ stream (advanced f d size) = stream f ++ d /\
  bytes_xfer (advanced f d size) = bytes_xfer f + size.
Proof.
  intros Eu Hw Hd. pose proof (appended_stream f d size Eu Hw Hd) as Hs. rewrite (advanced_appended f d size Eu). destruct Hw as [Hb Hi He Hv Hn].
  unfold IO_BUF_SIZE in *. set (b := memcpy (buf f) (buf_index f) d). set (h := appended f d size) in *.
  assert (length b = Z.to_nat IO_BUF_SIZE) as Hlb by (unfold b; rewrite length_memcpy; [done|lia|lia]).
  destruct (_ <=? _)%nat.
  - rewrite stream_index, fflush_stream, fflush_index by done. split; [|split; [done|by cbn; rewrite fflush_xfer]].
    destruct (fflush_shape h) as (r & o & _ & ->). constructor; cbn; auto. unfold IO_BUF_SIZE. lia.
  - rewrite stream_index by done. split; [|done]. constructor; cbn; auto.
    + unfold IO_BUF_SIZE. lia.
    + eapply extend_iov_ok; [done|lia|]. repeat split; cbn; lia.
    + congruence.
Qed.

Lemma advanced_spec f d size : winv f -> buf_index f + Z.of_nat (length d) <= IO_BUF_SIZE ->
  winv (advanced f d size) /\ stream (advanced f d size) = stream f ++ d /\
  bytes_xfer (advanced f d size) = bytes_xfer f + size.
Proof.
  intros Hw Hd. destruct (uses_iov ops) eqn:Eu; [by apply advanced_iov|].
  destruct Hw as [Hb Hi He Hv Hn]. unfold IO_BUF_SIZE in *.
  unfold advanced, queued, stream, pending. rewrite Eu. cbn. split; [constructor; cbn; auto|split; [|done]].
  - rewrite length_memcpy; [done|lia|lia].
  - unfold IO_BUF_SIZE. lia.
  - rewrite Hn by done. by constructor.
  - rewrite <- app_assoc. f_equal. rewrite <- slice_app by lia. cbn.
    rewrite slice_memcpy_low, slice_memcpy_eq by lia. done.
Qed.

Lemma put_chunk_spec f d size : winv f -> buf_index f + Z.of_nat (length d) <= IO_BUF_SIZE ->
  winv (put_chunk ops ext f d size) /\ stream (put_chunk ops ext f d size) = stream f ++ d /\
  bytes_xfer (put_chunk ops ext f d size) = bytes_xfer f + size /\
  buf_index (put_chunk ops ext f d size) < IO_BUF_SIZE.
Proof.
  intros Hw Hd. destruct (advanced_spec f d size Hw Hd) as (Ha & Hs & Hx).
  change (put_chunk ops ext f d size) with (if buf_index (advanced f d size) =? IO_BUF_SIZE
    then qemu_fflush ops ext (advanced f d size) else advanced f d size).
  destruct (Z.eqb_spec (buf_index (advanced f d size)) IO_BUF_SIZE).
  - rewrite fflush_stream, fflush_xfer, fflush_index. split; [by apply fflush_winv|]. done.
  - do 3 (split; [done|]). destruct Ha. lia.
Qed.

(** *** Puts *)

(** Between operations there is room for a byte. *)
Definition wready f : Prop := winv f /\ buf_index f < IO_BUF_SIZE.

Lemma put_round f d : wready f -> d <> [] ->
  exists n, (n < length d)%nat /\
    let l := Z.to_nat (Z.min (IO_BUF_SIZE - buf_index f) (Z.of_nat (length d))) in
    let g := put_chunk ops ext f (take l d) (Z.of_nat (length d)) in
    length (drop l d) = n /\ wready g /\ stream g = stream f ++ take l d /\
    bytes_xfer g = bytes_xfer f + Z.of_nat (length d).
Proof.
  intros [Hw Hi] Hd. pose proof (w_idx f Hw). assert (0 < length d)%nat by (destruct d; [done|cbn; lia]).
  cbv zeta. set (l := Z.to_nat _). assert ((0 < l <= length d)%nat /\ Z.of_nat l <= IO_BUF_SIZE - buf_index f) by lia.
  exists (length d - l)%nat. split; [lia|]. rewrite length_drop. split; [done|].
  destruct (put_chunk_spec f (take l d) (Z.of_nat (length d)) Hw) as (? & ? & ? & ?);
    [rewrite length_take; lia|]. done.
Qed.

Lemma put_loop_spec n d f : (length d <= n)%nat -> wready f ->
  let g := put_loop ops ext n f d in
  wready g /\ stream g = stream f ++ d /\ bytes_xfer f + Z.of_nat (length d) <= bytes_xfer g.
Proof.
  revert d f. induction n as [|n IH]; intros d f Hl Hf; cbn zeta.
  - destruct d; [|cbn in Hl; lia]. cbn. rewrite app_nil_r. split; [done|]. split; [done|lia].
  - cbn [put_loop]. cbv zeta. destruct d as [|v d'] eqn:Ed.
    + rewrite app_nil_r. change (Z.of_nat (length (@nil Z))) with 0. change (0 <? 0) with false. cbn iota.
      split; [done|]. split; [done|lia].
    + rewrite <- Ed in *. destruct (Z.ltb_spec 0 (Z.of_nat (length d))); [|rewrite Ed in *; cbn in *; lia].
      destruct (put_round f d Hf) as (m & Hm & Hlen & Hr & Hs & Hx); [by rewrite Ed|].
      revert Hlen Hr Hs Hx. set (l := Z.to_nat _). set (g := put_chunk _ _ _ _ _). intros Hlen Hr Hs Hx.
      assert (truth (qemu_file_get_error g) = false) as -> by (unfold qemu_file_get_error; by rewrite (w_err g) by apply Hr).
      destruct (IH (drop l d) g) as (I1 & I2 & I3); [lia|done|].
      split; [done|]. rewrite I2, Hs, <- app_assoc, take_drop. split; [done|]. lia.
Qed.
Lemma put_loop_nil n f : put_loop ops ext n f [] = f.
Proof. by destruct n. Qed.

Lemma put_buffer_spec f d : wready f ->
  wready (qemu_put_buffer ops ext f d) /\ stream (qemu_put_buffer ops ext f d) = stream f ++ d.
Proof.
  intros Hf. unfold qemu_put_buffer. rewrite (w_err f) by apply Hf. cbn [truth Z.eqb negb].
  by destruct (put_loop_spec (length d) d f) as (? & ? & _).
Qed.
Lemma put_byte_chunk f v : wready f -> qemu_put_byte ops ext f v = put_chunk ops ext f [u8 v] 1.
Proof.
  intros [[] Hi]. unfold qemu_put_byte, put_chunk. rewrite w_err0. cbn [truth Z.eqb negb].
  rewrite aset_memcpy; [done|]. unfold IO_BUF_SIZE in *. lia.
Qed.
Lemma put_byte_spec f v : wready f ->
  wready (qemu_put_byte ops ext f v) /\ stream (qemu_put_byte ops ext f v) = stream f ++ [u8 v].
Proof.
  intros Hf. rewrite put_byte_chunk by done.
  destruct (put_chunk_spec f [u8 v] 1) as (H1 & H2 & H3 & H4); [apply Hf|destruct Hf; cbn; lia|done].
Qed.
(** A reference is appended. *)
Definition referred f (id off size : Z) : QEMUFile S :=
  f.[bytes_xfer := bytes_xfer f + size].[iov := extend_iov (iov f) (PExt id off) size].
Lemma referred_stream f id off size : uses_iov ops = true -> winv f -> 0 <= size -> stream (referred f id off size) = stream f ++ slice (ext id) off size.
Proof.
  intros Eu [Hb Hi He Hv Hno] Hn. unfold stream, pending. rewrite Eu. cbn [opaque iov referred set_field rec_eta eta_file]. rewrite <- app_assoc. f_equal.
  rewrite extend_iov_pieces; [|eapply Forall_impl; [done|by intros ? []]|lia]. done.
Qed.
Lemma put_async_referred f id off size : uses_iov ops = true -> last_error f = 0 -> let h := referred f id off size in
  qemu_put_buffer_async ops ext f id off size = if (MAX_IOV_SIZE <=? length (iov h))%nat then qemu_fflush ops ext h else h.
Proof. intros Eu He. unfold qemu_put_buffer_async. by rewrite Eu, He. Qed.
Lemma put_async_spec f id off size : wready f -> 0 <= off -> 0 <= size ->
  wready (qemu_put_buffer_async ops ext f id off size) /\
  stream (qemu_put_buffer_async ops ext f id off size) = stream f ++ slice (ext id) off size.
Proof.
  intros Hf Ho Hn. destruct (uses_iov ops) eqn:Eu; [|unfold qemu_put_buffer_async; rewrite Eu; by apply put_buffer_spec].
  rewrite (put_async_referred f id off size Eu (w_err f (proj1 Hf))). pose proof (referred_stream f id off size Eu (proj1 Hf) Hn) as Hs.
  destruct Hf as [[Hb Hi He Hv Hno] Hlt]. set (h := referred f id off size) in *. assert (winv h) as Hh.
  { constructor; cbn; auto; [|congruence]. eapply extend_iov_ok; [done|lia|]. done. }
  destruct (_ <=? _)%nat; [|done].
  rewrite fflush_stream. split; [|done]. split; [by apply fflush_winv|]. by rewrite fflush_index.
Qed.

(** *** Sequences of puts *)

Inductive item :=
  IByte (v : Z) | IBe16 (v : Z) | IBe32 (v : Z) | IBe64 (v : Z)
| IBuffer (d : list Z) | IAsync (id off size : Z).

Definition put_item f (i : item) : QEMUFile S :=
  match i with
  | IByte v => qemu_put_byte ops ext f v
  | IBe16 v => qemu_put_be16 ops ext f v
  | IBe32 v => qemu_put_be32 ops ext f v
  | IBe64 v => qemu_put_be64 ops ext f v
  | IBuffer d => qemu_put_buffer ops ext f d
  | IAsync id off size => qemu_put_buffer_async ops ext f id off size
  end.

Definition be_bytes (n : nat) (v : Z) : list Z :=
  (fun k => u8 (v .>> (8 * Z.of_nat k))) <$> reverse (seq 0 n).
Definition item_bytes (i : item) : list Z :=
  match i with
  | IByte v => be_bytes 1 v | IBe16 v => be_bytes 2 v | IBe32 v => be_bytes 4 v | IBe64 v => be_bytes 8 v
  | IBuffer d => d
  | IAsync id off size => slice (ext id) off size
  end.
Definition item_ok (i : item) : Prop :=
  match i with IAsync _ off size => 0 <= off /\ 0 <= size | _ => True end.

Lemma put_be32_spec f v : wready f ->
  wready (qemu_put_be32 ops ext f v) /\ stream (qemu_put_be32 ops ext f v) = stream f ++ be_bytes 4 v.
Proof.
  intros Hf. unfold qemu_put_be32. cbv zeta.
  destruct (put_byte_spec f (v .>> 24) Hf) as [H1 S1].
  destruct (put_byte_spec _ (v .>> 16) H1) as [H2 S2].
  destruct (put_byte_spec _ (v .>> 8) H2) as [H3 S3].
  destruct (put_byte_spec _ v H3) as [H4 S4].
  split; [done|]. rewrite S4, S3, S2, S1, <- !app_assoc. done.
Qed.
Lemma u8_shiftr_u32 x k : 0 <= k <= 24 -> u8 (u32 x .>> k) = u8 (x .>> k).
Proof.
  intros. unfold u8, u32. apply Z.bits_inj'. intros i Hi.
  rewrite !Z.testbit_mod_pow2, !Z.shiftr_spec, Z.testbit_mod_pow2 by lia.
  destruct (Z.ltb_spec i 8), (Z.ltb_spec (i + k) 32); cbn; done || lia.
Qed.
Lemma be_bytes_8 v : be_bytes 4 (u32 (v .>> 32)) ++ be_bytes 4 (u32 v) = be_bytes 8 v.
Proof. cbn -[Z.shiftr u8 u32]. by rewrite !u8_shiftr_u32, !Z.shiftr_shiftr by lia. Qed.
Lemma put_item_spec f i : wready f -> item_ok i ->
  wready (put_item f i) /\ stream (put_item f i) = stream f ++ item_bytes i.
Proof.
  intros Hf Hi. destruct i as [v|v|v|v|d|id off size]; cbn [put_item item_bytes].
  - by apply put_byte_spec.
  - destruct (put_byte_spec f (v .>> 8) Hf) as [H1 S1]. destruct (put_byte_spec _ v H1) as [H2 S2].
    unfold qemu_put_be16. split; [done|]. by rewrite S2, S1, <- app_assoc.
  - by apply put_be32_spec.
  - destruct (put_be32_spec f (u32 (v .>> 32)) Hf) as [H1 S1]. destruct (put_be32_spec _ (u32 v) H1) as [H2 S2].
    unfold qemu_put_be64. split; [done|]. by rewrite S2, S1, <- app_assoc, be_bytes_8.
  - by apply put_buffer_spec.
  - by apply put_async_spec; [|apply Hi..].
Qed.
Lemma put_items_spec l f : wready f -> Forall item_ok l ->
  wready (foldl put_item f l) /\ stream (foldl put_item f l) = stream f ++ mjoin (item_bytes <$> l).
Proof.
  revert f. induction l as [|i l IH]; intros f Hf Hl; cbn; [by rewrite app_nil_r|].
  inversion_clear Hl. destruct (put_item_spec f i) as [H1 S1]; [done..|].
  destruct (IH _ H1) as [H2 S2]; [done|]. split; [done|]. by rewrite S2, S1, <- app_assoc.
Qed.
Lemma fopen_ready o : wready (qemu_fopen_ops o) /\ stream (qemu_fopen_ops o) = written o.
Proof.
  split; [split; [|done]; constructor; cbn -[replicate]; auto; by rewrite ?length_replicate|].
  unfold stream, pending. destruct (uses_iov ops); cbn; by rewrite app_nil_r.
Qed.
End Writer.

(** ** Reading *)

(** A backend that delivers a fixed sequence in pieces of its choice:
    [remaining] is what it has not delivered yet. *)
Class Source {S : Type} (ops : QEMUFileOps S) (remaining : S -> list Z) : Prop := {
  source_get s p n len d s' : 0 <= n -> op_get_buffer ops s p n = (len, d, s') ->
    0 <= len <= n /\ d = take (Z.to_nat len) (remaining s) /\ len <= Z.of_nat (length (remaining s)) /\
    remaining s' = drop (Z.to_nat len) (remaining s) /\
    (0 < n -> remaining s <> [] -> 0 < len)
}.

Section Reader.
Context {S : Type} (ops : QEMUFileOps S) (remaining : S -> list Z) `{!Source ops remaining}.
Implicit Types (f : QEMUFile S).

Record rinv f : Prop := {
  r_buf : length (buf f) = Z.to_nat IO_BUF_SIZE;
  r_idx : 0 <= buf_index f <= buf_size f; r_size : buf_size f <= IO_BUF_SIZE
}.
Definition buffered f : list Z := slice (buf f) (buf_index f) (buf_size f - buf_index f).
(** What the gets still have to deliver. *)
Definition rest f : list Z := buffered f ++ remaining (opaque f).

Lemma length_buffered f : rinv f -> Z.of_nat (length (buffered f)) = buf_size f - buf_index f.
Proof. intros []. unfold buffered. unfold IO_BUF_SIZE in *. rewrite length_slice; lia. Qed.

Lemma fill_spec f : rinv f ->
  let g := qemu_fill_buffer ops f in let pending := buf_size f - buf_index f in
  rinv g /\ rest g = rest f /\ buf_index g = 0 /\ pending <= buf_size g /\
  (pending < IO_BUF_SIZE -> remaining (opaque f) <> [] ->
     pending < buf_size g /\ last_error g = last_error f) /\
  (pending = IO_BUF_SIZE \/ remaining (opaque f) = [] ->
     buf_size g = pending /\ last_error g = if last_error f =? 0 then - EIO else last_error f).
Proof.
  intros Hf. pose proof (length_buffered f Hf) as Hlb. destruct Hf as [Hb Hi Hs]. cbv zeta.
  unfold qemu_fill_buffer. cbv zeta. unfold IO_BUF_SIZE in *.
  set (pd := buf_size f - buf_index f) in *.
  assert (exists b, length b = Z.to_nat 32768 /\ slice b 0 pd = buffered f /\
    (if 0 <? pd then f.[buf := memcpy (buf f) 0 (slice (buf f) (buf_index f) pd)] else f) = f.[buf := b])
    as (b & Hlen & Hbb & ->).
  { destruct (Z.ltb_spec 0 pd).
    - change (slice (buf f) (buf_index f) pd) with (buffered f).
      eexists. split; [|split; [|done]].
      + rewrite length_memcpy; [done|lia|]. lia.
      + rewrite <- Hlb. apply slice_memcpy_eq; lia.
    - exists (buf f). split; [done|]. split; [|by destruct f]. unfold buffered. fold pd.
      replace pd with 0 by lia. done. }
  cbn [opaque pos buf_index buf_size buf set_field rec_eta eta_file].
  destruct (op_get_buffer ops (opaque f) (pos f) (32768 - pd)) as [[len d] o] eqn:E.
  assert (0 <= 32768 - pd) as Hroom by lia.
  destruct (source_get _ _ _ _ _ _ Hroom E) as (Hl & Hd & Hlr & Ho & Hpos).
  assert (Z.of_nat (length d) = len) as Hld by (subst d; rewrite length_take; lia).
  assert (length (memcpy b pd d) = Z.to_nat 32768) as Hlm by (rewrite length_memcpy; lia).
  assert (slice (memcpy b pd d) 0 (pd + len) ++ remaining o = rest f) as Hr.
  { rewrite <- slice_app by lia. cbn [Z.add]. rewrite slice_memcpy_low by lia.
    rewrite <- Hld, slice_memcpy_eq by lia. rewrite Hbb, Ho, Hd, <- app_assoc. unfold rest. by rewrite take_drop. }
  destruct (Z.ltb_spec 0 len) as [Hlen0|Hlen0].
  - split; [constructor; cbn; auto; unfold IO_BUF_SIZE; lia|]. split; [by unfold rest, buffered; cbn; rewrite Z.sub_0_r|].
    cbn. split; [done|]. split; [lia|]. split; [intros _ _; split; [lia|done]|].
    intros [?|E0]; [lia|]. rewrite E0 in Hlr. cbn in Hlr. lia.
  - assert (len = 0) as -> by lia. rewrite Z.add_0_r in Hr. change (0 =? 0) with true. cbn iota.
    split; [unfold qemu_file_set_error; case (last_error _ =? 0); constructor; cbn; auto; unfold IO_BUF_SIZE; lia|].
    split; [unfold rest, buffered, qemu_file_set_error; destruct (_ =? _); cbn; by rewrite Z.sub_0_r|].
    unfold qemu_file_set_error. cbn. destruct (last_error f =? 0); cbn; (split; [done|]); (split; [lia|]); 
      (split; [|done]); intros; (exfalso; assert (0 < 0) by (apply Hpos; [lia|done]); lia).
Qed.

Lemma skip_spec f k : rinv f -> 0 <= k <= buf_size f - buf_index f ->
  let g := qemu_file_skip f k in
  rinv g /\ rest g = drop (Z.to_nat k) (rest f) /\ last_error g = last_error f.
Proof.
  intros Hf Hk. pose proof (length_buffered f Hf) as Hl. destruct Hf. cbv zeta. unfold qemu_file_skip.
  destruct (Z.leb_spec (buf_index f + k) (buf_size f)); [|lia].
  split; [constructor; cbn; auto; lia|]. split; [|done].
  unfold rest. rewrite drop_app_le by lia. cbn. f_equal. unfold buffered. cbn.
  replace (slice (buf f) (buf_index f) (buf_size f - buf_index f))
    with (slice (buf f) (buf_index f) (k + (buf_size f - (buf_index f + k)))) by (f_equal; lia).
  rewrite <- slice_app by lia. rewrite drop_app_length'; [done|].
  unfold IO_BUF_SIZE in *. rewrite length_slice; lia.
Qed.

(** Fill the buffer unless it holds [n] bytes. *)
Lemma refill_spec f n : rinv f -> 0 < n ->
  let g := if buf_size f - buf_index f <? n then qemu_fill_buffer ops f else f in
  rinv g /\ rest g = rest f /\ (rest f <> [] -> buf_index g < buf_size g) /\
  (rest f = [] -> last_error g <> 0) /\
  (n <= IO_BUF_SIZE -> n <= Z.of_nat (length (rest f)) -> last_error g = last_error f).
Proof.
  intros Hf Hn. cbv zeta. pose proof (length_buffered f Hf) as Hl.
  assert (Z.of_nat (length (rest f)) = buf_size f - buf_index f + Z.of_nat (length (remaining (opaque f)))) as Hr
    by (unfold rest; rewrite length_app; lia).
  destruct (Z.ltb_spec (buf_size f - buf_index f) n) as [Hp|Hp].
  - destruct (fill_spec f Hf) as (H1 & H2 & H3 & H4 & H5 & H6). split; [done|]. split; [done|].
    split; [|split].
    + intros Hne. destruct (remaining (opaque f)) eqn:Er.
      * rewrite H3. cbn in Hr. destruct (rest f); [done|cbn in Hr; lia].
      * destruct (decide (buf_size f - buf_index f = IO_BUF_SIZE)); [unfold IO_BUF_SIZE in *; lia|].
        assert (buf_size f - buf_index f < IO_BUF_SIZE) by (destruct Hf; lia).
        destruct H5 as [? _]; [done..|]. destruct Hf. lia.
    + intros He. rewrite He in Hr. cbn in Hr. destruct (remaining (opaque f)); [|cbn in Hr; lia].
      destruct H6 as [_ ->]; [by right|]. destruct (Z.eqb_spec (last_error f) 0); unfold EIO; lia.
    + intros Hio Hln. destruct H5 as [_ ?]; [lia| |done]. intros Er. rewrite Er in Hr. cbn in Hr. lia.
  - split; [done|]. split; [done|]. split; [lia|]. split; [|done].
    intros He. rewrite He in Hr. cbn in Hr. lia.
Qed.

Lemma peek_byte_spec f v l : rinv f -> rest f = v :: l ->
  exists g, qemu_peek_byte ops f 0 = (v, g) /\ rinv g /\ rest g = rest f /\
    buf_index g < buf_size g /\ last_error g = last_error f.
Proof.
  intros Hf Hr. destruct (refill_spec f 1 Hf) as (H1 & H2 & H3 & _ & H5); [lia|].
  revert H1 H2 H3 H5. set (g := if _ <? 1 then _ else _). intros H1 H2 H3 H5.
  rewrite Hr in *. exists g. split; [|repeat split; auto; try apply H1; apply H5; [done|cbn; lia]].
  assert (buf_index g < buf_size g) as Hlt by auto.
  assert (v = aget 0 (buf g) (buf_index g)) as Hv.
  { unfold rest in H2. pose proof (length_buffered g H1) as Hl. destruct (buffered g) as [|w k] eqn:E; [cbn in Hl; lia|].
    cbn in H2. injection H2 as -> _. pose proof (aget_slice 0 (buf g) (buf_index g) (buf_size g - buf_index g) 0) as Ha.
    fold (buffered g) in Ha. rewrite E in Ha. rewrite Z.add_0_r in Ha. cbn in Ha. symmetry. rewrite <- Ha; [done|..].
    all: destruct H1; lia. }
  unfold qemu_peek_byte. rewrite !Z.add_0_r. subst v.
  revert Hlt. unfold g.
  destruct (Z.leb_spec (buf_size f) (buf_index f)), (Z.ltb_spec (buf_size f - buf_index f) 1); try lia; intros Hlt; [|done].
  by destruct (Z.leb_spec (buf_size (qemu_fill_buffer ops f)) (buf_index (qemu_fill_buffer ops f))); [lia|].
Qed.

Lemma peek_byte_eof f : rinv f -> rest f = [] ->
  exists g, qemu_peek_byte ops f 0 = (0, g) /\ rinv g /\ rest g = [] /\ last_error g <> 0.
Proof.
  intros Hf Hr. destruct (refill_spec f 1 Hf) as (H1 & H2 & _ & H4 & _); [lia|]. rewrite Hr in *.
  pose proof (length_buffered f Hf) as Hl. assert (buffered f = []) as Hb by (by apply app_eq_nil in Hr as [? _]).
  rewrite Hb in Hl. cbn in Hl. destruct (Z.ltb_spec (buf_size f - buf_index f) 1); [|lia].
  exists (qemu_fill_buffer ops f). split; [|by auto].
  unfold qemu_peek_byte. rewrite !Z.add_0_r. destruct (Z.leb_spec (buf_size f) (buf_index f)); [|lia].
  pose proof (length_buffered _ H1) as Hl'. apply app_eq_nil in H2 as [E _]. rewrite E in Hl'. cbn in Hl'.
  by destruct (Z.leb_spec (buf_size (qemu_fill_buffer ops f)) (buf_index (qemu_fill_buffer ops f))); [|lia].
Qed.

Lemma get_byte_spec f v l : rinv f -> rest f = v :: l ->
  exists g, qemu_get_byte ops f = (v, g) /\ rinv g /\ rest g = l /\ last_error g = last_error f.
Proof.
  intros Hf Hr. destruct (peek_byte_spec f v l Hf Hr) as (g & E & Hg & Hrg & Hlt & Herr).
  unfold qemu_get_byte. rewrite E. destruct (skip_spec g 1) as (H1 & H2 & H3); [done|lia|].
  eexists. split; [done|]. split; [done|]. rewrite H2, Hrg, Hr, H3. done.
Qed.
Lemma get_byte_eof f : rinv f -> rest f = [] ->
  exists g, qemu_get_byte ops f = (0, g) /\ rest g = [] /\ last_error g <> 0.
Proof.
  intros Hf Hr. destruct (peek_byte_eof f Hf Hr) as (g & E & Hg & Hrg & Herr).
  unfold qemu_get_byte. rewrite E. exists (qemu_file_skip g 1). split; [done|].
  unfold qemu_file_skip. pose proof (length_buffered g Hg) as Hl.
  assert (buffered g = []) as Hb by (by apply app_eq_nil in Hrg as [? _]). rewrite Hb in Hl. cbn in Hl.
  by destruct (Z.leb_spec (buf_index g + 1) (buf_size g)); [lia|].
Qed.

Lemma peek_buffer_spec f n : rinv f -> 0 < n -> rest f <> [] ->
  exists d g, qemu_peek_buffer ops f n 0 = (d, g) /\ rinv g /\ rest g = rest f /\ d <> [] /\
    d = take (length d) (rest f) /\ Z.of_nat (length d) <= n /\
    Z.of_nat (length d) <= buf_size g - buf_index g /\
    (n <= IO_BUF_SIZE -> n <= Z.of_nat (length (rest f)) -> last_error g = last_error f).
Proof.
  intros Hf Hn Hr. destruct (refill_spec f n Hf Hn) as (H1 & H2 & H3 & _ & H5). revert H1 H2 H3 H5.
  unfold qemu_peek_buffer. rewrite !Z.add_0_r. cbv zeta. set (g := if _ <? n then _ else _). intros H1 H2 H3 H5.
  specialize (H3 Hr). destruct (Z.leb_spec (buf_size g - buf_index g) 0); [lia|].
  set (m := Z.min n _). pose proof (length_buffered g H1) as Hl.
  assert (length (slice (buf g) (buf_index g) m) = Z.to_nat m) as Hm
    by (apply length_slice; destruct H1; unfold IO_BUF_SIZE in *; lia).
  eexists _, g. split; [done|]. split; [done|]. split; [done|].
  split; [intros E; rewrite E in Hm; cbn in Hm; lia|]. split; [|rewrite Hm; split; [lia|split; [lia|done]]].
  rewrite Hm, <- H2. unfold rest. rewrite take_app_le by lia. unfold buffered, slice. rewrite take_take. f_equal. lia.
Qed.

Lemma get_loop_spec k f n : (Z.to_nat n <= k)%nat -> rinv f -> n <= Z.of_nat (length (rest f)) ->
  exists g, get_loop ops k f n = (take (Z.to_nat n) (rest f), g) /\ rinv g /\
    rest g = drop (Z.to_nat n) (rest f) /\ (n <= IO_BUF_SIZE -> last_error g = last_error f).
Proof.
  revert f n. induction k as [|k IH]; intros f n Hk Hf Hn.
  - exists f. assert (Z.to_nat n = 0%nat) as -> by lia. done.
  - cbn [get_loop]. destruct (Z.ltb_spec 0 n) as [H0|H0].
    + destruct (peek_buffer_spec f n Hf H0) as (d & g & E & Hg & Hrg & Hd & Htake & Hle & Hsz & Herr).
      { intros E. rewrite E in Hn. cbn in Hn. lia. }
      rewrite E. destruct d as [|v d'] eqn:Ed; [done|]. rewrite <- Ed in *. cbv zeta.
      assert (0 < length d)%nat by (rewrite Ed; cbn; lia).
      destruct (skip_spec g (Z.of_nat (length d)) Hg) as (S1 & S2 & S3); [lia|].
      destruct (IH (qemu_file_skip g (Z.of_nat (length d))) (n - Z.of_nat (length d))) as (h & Eh & Hh & Hrh & Herrh);
        [lia|done|rewrite S2, Hrg, length_drop; lia|].
      rewrite Eh. exists h. rewrite Hrh, S2, Hrg, drop_drop. split; [|split; [done|split; [f_equal; lia|]]].
      * f_equal. rewrite Htake at 1. rewrite Nat2Z.id.
        replace (Z.to_nat n) with (length d + Z.to_nat (n - Z.of_nat (length d)))%nat by lia.
        by rewrite <- take_take_drop.
      * intros. rewrite Herrh, S3 by lia. by apply Herr.
    + exists f. by rewrite Z2Nat.nonpos by lia.
Qed.
(** *** Sequences of gets *)

(** The get that matches a put. *)
Definition get_item f (i : item) : item * QEMUFile S :=
  match i with
  | IByte _ => let '(v, f) := qemu_get_byte ops f in (IByte v, f)
  | IBe16 _ => let '(v, f) := qemu_get_be16 ops f in (IBe16 v, f)
  | IBe32 _ => let '(v, f) := qemu_get_be32 ops f in (IBe32 v, f)
  | IBe64 _ => let '(v, f) := qemu_get_be64 ops f in (IBe64 v, f)
  | IBuffer d => let '(d, f) := qemu_get_buffer ops f (Z.of_nat (length d)) in (IBuffer d, f)
  | IAsync id off size => let '(d, f) := qemu_get_buffer ops f size in (IBuffer d, f)
  end.
Fixpoint get_items f (l : list item) : list item * QEMUFile S :=
  match l with
  | [] => ([], f)
  | i :: l => let '(j, f) := get_item f i in let '(k, f) := get_items f l in (j :: k, f)
  end.

(** What a put followed by the matching get yields. *)
Definition normal (ext : Z -> list Z) (i : item) : item :=
  match i with
  | IByte v => IByte (u8 v) | IBe16 v => IBe16 (u16 v) | IBe32 v => IBe32 (u32 v) | IBe64 v => IBe64 (u64 v)
  | IBuffer d => IBuffer d
  | IAsync id off size => IBuffer (slice (ext id) off size)
  end.
Definition item_fits (ext : Z -> list Z) (i : item) : Prop :=
  match i with
  | IBuffer d => Z.of_nat (length d) <= IO_BUF_SIZE
  | IAsync id off size => 0 <= off /\ 0 <= size <= IO_BUF_SIZE /\ off + size <= Z.of_nat (length (ext id))
  | _ => True
  end.

Lemma testbit_field v w k i : 0 <= w -> 0 <= k -> 0 <= i ->
  Z.testbit (((v .>> k) mod 2 ^ w) .<< k) i = (k <=? i) && (i <? k + w) && Z.testbit v i.
Proof.
  intros. rewrite Z.shiftl_spec by lia. destruct (Z.leb_spec k i); cbn [andb]; [|by apply Z.testbit_neg_r; lia].
  rewrite Z.testbit_mod_pow2, Z.shiftr_spec by lia. rewrite Z.sub_add. f_equal.
  destruct (Z.ltb_spec (i - k) w), (Z.ltb_spec i (k + w)); done || lia.
Qed.
Lemma join_16 v : (u8 (v .>> 8) .<< 8) .| u8 v = u16 v.
Proof.
  unfold u8, u16. apply Z.bits_inj'. intros i Hi. rewrite Z.lor_spec, testbit_field, !Z.testbit_mod_pow2 by lia.
  destruct (Z.leb_spec 8 i), (Z.ltb_spec i (8 + 8)), (Z.ltb_spec i 8), (Z.ltb_spec i 16), (Z.testbit v i); done || lia.
Qed.
Lemma join_32 v : (u8 (v .>> 24) .<< 24) .| (u8 (v .>> 16) .<< 16) .| (u8 (v .>> 8) .<< 8) .| u8 v = u32 v.
Proof.
  unfold u8, u32. apply Z.bits_inj'. intros i Hi. rewrite !Z.lor_spec, !testbit_field, !Z.testbit_mod_pow2 by lia.
  destruct (Z.testbit v i); rewrite ?andb_false_r, ?andb_true_r; [|done].
  destruct (Z.leb_spec 24 i), (Z.leb_spec 16 i), (Z.leb_spec 8 i), (Z.ltb_spec i (24 + 8)), (Z.ltb_spec i (16 + 8)),
    (Z.ltb_spec i (8 + 8)), (Z.ltb_spec i 8), (Z.ltb_spec i 32); done || lia.
Qed.
Lemma join_64 v : (u32 (v .>> 32) .<< 32) .| u32 v = u64 v.
Proof.
  unfold u32, u64. apply Z.bits_inj'. intros i Hi. rewrite Z.lor_spec, testbit_field, !Z.testbit_mod_pow2 by lia.
  destruct (Z.leb_spec 32 i), (Z.ltb_spec i (32 + 32)), (Z.ltb_spec i 32), (Z.ltb_spec i 64), (Z.testbit v i); done || lia.
Qed.

Lemma get_be16_spec f v l : rinv f -> rest f = be_bytes 2 v ++ l ->
  exists g, qemu_get_be16 ops f = (u16 v, g) /\ rinv g /\ rest g = l /\ last_error g = last_error f.
Proof.
  intros Hf Hr. unfold qemu_get_be16.
  destruct (get_byte_spec f _ _ Hf Hr) as (g1 & -> & H1 & R1 & E1).
  destruct (get_byte_spec g1 _ _ H1 R1) as (g2 & -> & H2 & R2 & E2).
  exists g2. split; [|by rewrite E2, E1]. f_equal. apply join_16.
Qed.
Lemma get_be32_spec f v l : rinv f -> rest f = be_bytes 4 v ++ l ->
  exists g, qemu_get_be32 ops f = (u32 v, g) /\ rinv g /\ rest g = l /\ last_error g = last_error f.
Proof.
  intros Hf Hr. unfold qemu_get_be32.
  destruct (get_byte_spec f _ _ Hf Hr) as (g1 & -> & H1 & R1 & E1).
  destruct (get_byte_spec g1 _ _ H1 R1) as (g2 & -> & H2 & R2 & E2).
  destruct (get_byte_spec g2 _ _ H2 R2) as (g3 & -> & H3 & R3 & E3).
  destruct (get_byte_spec g3 _ _ H3 R3) as (g4 & -> & H4 & R4 & E4).
  exists g4. split; [|by rewrite E4, E3, E2, E1]. f_equal. apply join_32.
Qed.
Lemma get_be64_spec f v l : rinv f -> rest f = be_bytes 8 v ++ l ->
  exists g, qemu_get_be64 ops f = (u64 v, g) /\ rinv g /\ rest g = l /\ last_error g = last_error f.
Proof.
  intros Hf Hr. unfold qemu_get_be64. rewrite <- be_bytes_8, <- app_assoc in Hr.
  destruct (get_be32_spec f _ _ Hf Hr) as (g1 & -> & H1 & R1 & E1).
  destruct (get_be32_spec g1 _ _ H1 R1) as (g2 & -> & H2 & R2 & E2).
  exists g2. split; [|by rewrite E2, E1]. f_equal. by rewrite !u32_u32, join_64.
Qed.
Lemma get_buffer_spec f d l : rinv f -> rest f = d ++ l -> Z.of_nat (length d) <= IO_BUF_SIZE ->
  exists g, qemu_get_buffer ops f (Z.of_nat (length d)) = (d, g) /\ rinv g /\ rest g = l /\
    last_error g = last_error f.
Proof.
  intros Hf Hr Hd. destruct (get_loop_spec (length d) f (Z.of_nat (length d))) as (g & E & Hg & Rg & Eg);
    [lia|done|rewrite Hr, length_app; lia|].
  exists g. unfold qemu_get_buffer. rewrite Nat2Z.id in *. rewrite E, Rg, Hr, take_app_length, drop_app_length. auto.
Qed.

Lemma get_item_spec ext f i l : rinv f -> item_fits ext i -> rest f = item_bytes ext i ++ l ->
  exists g, get_item f i = (normal ext i, g) /\ rinv g /\ rest g = l /\ last_error g = last_error f.
Proof.
  intros Hf Hi Hr. destruct i as [v|v|v|v|d|id off size]; cbn [get_item normal item_bytes item_fits] in *.
  - destruct (get_byte_spec f _ _ Hf Hr) as (g & -> & H). by exists g.
  - destruct (get_be16_spec f _ _ Hf Hr) as (g & -> & H). by exists g.
  - destruct (get_be32_spec f _ _ Hf Hr) as (g & -> & H). by exists g.
  - destruct (get_be64_spec f _ _ Hf Hr) as (g & -> & H). by exists g.
  - destruct (get_buffer_spec f _ _ Hf Hr Hi) as (g & -> & H). by exists g.
  - assert (Z.of_nat (length (slice (ext id) off size)) = size) as Hl by (rewrite length_slice; lia).
    destruct (get_buffer_spec f _ _ Hf Hr) as (g & E & H); [lia|]. rewrite Hl in E. rewrite E. by exists g.
Qed.
Lemma get_items_spec ext l f k : rinv f -> Forall (item_fits ext) l -> rest f = mjoin (item_bytes ext <$> l) ++ k ->
  exists g, get_items f l = (normal ext <$> l, g) /\ rinv g /\ rest g = k /\ last_error g = last_error f.
Proof.
  revert f. induction l as [|i l IH]; intros f Hf Hl Hr; [by exists f|].
  inversion_clear Hl. cbn in Hr. rewrite <- app_assoc in Hr. cbn [get_items].
  destruct (get_item_spec ext f i _ Hf ltac:(done) Hr) as (g & -> & Hg & Rg & Eg).
  destruct (IH g) as (h & -> & Hh & Rh & Eh); [done..|]. exists h. by rewrite Eh, Eg.
Qed.
(** The first error is the one that stays. *)
Lemma fill_error_sticks f : last_error f <> 0 -> last_error (qemu_fill_buffer ops f) = last_error f.
Proof.
  intros He. unfold qemu_fill_buffer. cbv zeta.
  destruct (0 <? buf_size f - buf_index f); cbn; destruct (op_get_buffer _ _ _ _) as [[len d] o];
    destruct (0 <? len), (len =? 0), (negb (len =? - EAGAIN)); unfold qemu_file_set_error; cbn;
    by destruct (Z.eqb_spec (last_error f) 0).
Qed.
Lemma peek_error_sticks f n : last_error f <> 0 ->
  last_error (snd (qemu_peek_buffer ops f n 0)) = last_error f.
Proof.
  intros He. unfold qemu_peek_buffer. cbv zeta. destruct (_ <? n); destruct (_ <=? 0); cbn; auto using fill_error_sticks.
Qed.
Lemma get_loop_error_sticks k f n : last_error f <> 0 -> last_error (snd (get_loop ops k f n)) = last_error f.
Proof.
  revert f n. induction k as [|k IH]; intros f n He; [done|]. cbn [get_loop]. destruct (0 <? n); [|done].
  pose proof (peek_error_sticks f n He) as Hp. destruct (qemu_peek_buffer ops f n 0) as [[|v d] g]; [done|].
  cbn [snd] in Hp. cbv zeta.
  assert (last_error (qemu_file_skip g (Z.of_nat (length (v :: d)))) = last_error f) as Hs
    by (unfold qemu_file_skip; by destruct (_ <=? _)).
  specialize (IH (qemu_file_skip g (Z.of_nat (length (v :: d)))) (n - Z.of_nat (length (v :: d)))).
  destruct (get_loop _ _ _ _). cbn [snd] in *. rewrite IH; congruence.
Qed.
Lemma fopen_reader o : rinv (qemu_fopen_ops o) /\ rest (qemu_fopen_ops o) = remaining o.
Proof. split; [|done]. by constructor; cbn -[replicate]; rewrite ?length_replicate. Qed.
End Reader.

(** ** Pipes *)

(** A pipe in memory: the bytes written and not yet read.  Its reader gets at
    most [chunk] bytes at a time. *)
Module Pipe.
Definition write_ops : QEMUFileOps (list Z) := {|
  op_put_buffer := None;
  op_writev_buffer := Some (fun s vs _ => (Z.of_nat (length (mjoin vs)), s ++ mjoin vs));
  op_get_buffer := fun s _ _ => (0, [], s);
  op_close := None
|}.
Definition put_ops : QEMUFileOps (list Z) := {|
  op_put_buffer := Some (fun s d _ => (Z.of_nat (length d), s ++ d));
  op_writev_buffer := None;
  op_get_buffer := fun s _ _ => (0, [], s);
  op_close := None
|}.
Definition read_ops (chunk : Z) : QEMUFileOps (list Z) := {|
  op_put_buffer := None;
  op_writev_buffer := None;
  op_get_buffer := fun s _ n =>
    let len := Z.min (Z.min n chunk) (Z.of_nat (length s)) in
    (len, take (Z.to_nat len) s, drop (Z.to_nat len) s);
  op_close := None
|}.
#[global] Instance write_sink : Sink write_ops id.
Proof. constructor; [done| |done]. by intros w s vs p [= <-]. Qed.
#[global] Instance put_sink : Sink put_ops id.
Proof. constructor; [done|done|]. by intros w s d p [= <-]. Qed.
Lemma read_source chunk : 0 < chunk -> Source (read_ops chunk) id.
Proof.
  intros Hc. constructor. intros s p n len d s' Hn [= <- <- <-]. unfold id. split; [lia|]. split; [done|]. split; [lia|]. split; [done|].
  intros ? Hs. destruct s; [done|]. cbn. lia.
Qed.
End Pipe.

(** ** What the streams promise *)

Section Streams.
Context {W R : Type} (wops : QEMUFileOps W) (rops : QEMUFileOps R).
Context (written : W -> list Z) (remaining : R -> list Z) (ext : Z -> list Z).

(** C12. Whatever bytes, big-endian numbers and buffers of at most
    [IO_BUF_SIZE] bytes are put into a fresh file, in any order and by copy or
    by reference, and whether the backend takes vectors or buffers: once the
    file is flushed, a fresh reader of what the backend received gets the same
    items, truncated to their width, however the backend cuts the stream into
    pieces, with no error and with nothing left over. *)
Theorem stream_roundtrip (w : W) (r : R) (l : list item) :
  Sink wops written -> Source rops remaining -> Forall (item_fits ext) l -> written w = [] ->
  remaining r = written (opaque (qemu_fflush wops ext (foldl (put_item wops ext) (qemu_fopen_ops w) l))) ->
  exists g, get_items rops (qemu_fopen_ops r) l = (normal ext <$> l, g) /\
    rest remaining g = [] /\ last_error g = 0.
Proof.
  intros HS HR Hl Hw Hr. assert (Forall item_ok l) as Hok
    by (eapply Forall_impl; [done|]; intros []; cbn; intuition lia).
  destruct (fopen_ready wops ext written w) as [Hf Ef].
  destruct (put_items_spec wops ext written l _ Hf Hok) as [Hp Ep].
  rewrite (fflush_written wops ext written), Ep, Ef, Hw in Hr.
  destruct (fopen_reader remaining r) as [Hg Eg].
  destruct (get_items_spec rops remaining ext l (qemu_fopen_ops r) [] Hg Hl) as (g & E & _ & Rg & Er).
  { by rewrite Eg, Hr, app_nil_r. }
  exists g. by rewrite Er.
Qed.

(** The transfer counter that the rate limit is measured with counts a
    buffer exactly when it fits in the room left, and otherwise counts bytes
    more than once: every round of the loop adds all that is left. *)
Theorem bytes_xfer_exact (f : QEMUFile W) (d : list Z) :
  Sink wops written -> wready wops f ->
  (bytes_xfer (qemu_put_buffer wops ext f d) = bytes_xfer f + Z.of_nat (length d) <->
   Z.of_nat (length d) <= IO_BUF_SIZE - buf_index f).
Proof.
  intros HS Hf. unfold qemu_put_buffer. rewrite (w_err wops f) by apply Hf. change (truth 0) with false. cbn iota.
  destruct d as [|v d'] eqn:Ed; [cbn; pose proof Hf as [[] ?]; lia|]. rewrite <- Ed.
  destruct (put_round wops ext written f d Hf) as (m & Hm & Hlen & Hr & Hs & Hx); [by rewrite Ed|].
  assert (0 < length d)%nat by (rewrite Ed; cbn; lia).
  replace (length d) with (S (length d - 1)) at 1 by lia. cbn [put_loop]. cbv zeta.
  destruct (Z.ltb_spec 0 (Z.of_nat (length d))); [|lia]. revert Hlen Hr Hs Hx.
  set (k := Z.to_nat _). set (g := put_chunk _ _ _ _ _). intros Hlen Hr Hs Hx.
  assert (truth (qemu_file_get_error g) = false) as -> by (unfold qemu_file_get_error; by rewrite (w_err wops g) by apply Hr).
  destruct (decide (Z.of_nat (length d) <= IO_BUF_SIZE - buf_index f)) as [Hle|Hle].
  - assert (k = length d) as -> by lia. rewrite drop_all, put_loop_nil. lia.
  - destruct (put_loop_spec wops ext written (length d - 1) (drop k d) g) as (_ & _ & Hge); [lia|done|].
    rewrite length_drop in Hge. pose proof (w_idx wops f (proj1 Hf)). lia.
Qed.

(** [qemu_peek_byte] asks the backend once: when the piece it gets ends
    before the offset, the result is 0 whatever byte the stream holds there. *)
Theorem peek_byte_short_read (f : QEMUFile R) (off len : Z) (d : list Z) (r : R) :
  Source rops remaining -> rinv f -> buf_size f - buf_index f <= off ->
  op_get_buffer rops (opaque f) (pos f) (IO_BUF_SIZE - (buf_size f - buf_index f)) = (len, d, r) ->
  buf_size f - buf_index f + len <= off ->
  fst (qemu_peek_byte rops f off) = 0 /\ rest remaining (snd (qemu_peek_byte rops f off)) = rest remaining f.
Proof.
  intros HR Hf Hoff E Hlen. destruct (fill_spec rops remaining f Hf) as (_ & H2 & H3 & _).
  assert (buf_size (qemu_fill_buffer rops f) <= off) as Hsz.
  { unfold qemu_fill_buffer. cbv zeta.
    destruct (0 <? buf_size f - buf_index f); cbn; rewrite E; destruct (0 <? len) eqn:El, (len =? 0), (negb (len =? - EAGAIN));
      unfold qemu_file_set_error; cbn; rewrite ?Z.ltb_ge, ?Z.ltb_lt in El; try (destruct (last_error f =? 0); cbn); lia. }
  unfold qemu_peek_byte. destruct (Z.leb_spec (buf_size f) (buf_index f + off)); [|lia].
  rewrite H3. by destruct (Z.leb_spec (buf_size (qemu_fill_buffer rops f)) (0 + off)); [|lia].
Qed.

(** A get of more than [IO_BUF_SIZE] bytes delivers the right bytes but
    marks the file as failed if the buffer is full when it starts, as it is
    after a peek that filled it: the refill has no room and reads nothing. *)
Theorem full_buffer_fails (f : QEMUFile R) (n : Z) :
  Source rops remaining -> rinv f -> buf_index f = 0 -> buf_size f = IO_BUF_SIZE -> last_error f = 0 ->
  IO_BUF_SIZE < n <= Z.of_nat (length (rest remaining f)) ->
  exists g, qemu_get_buffer rops f n = (take (Z.to_nat n) (rest remaining f), g) /\
    last_error g = - EIO.
Proof.
  intros HR Hf Hi Hs He Hn.
  destruct (get_loop_spec rops remaining (Z.to_nat n) f n) as (g & E & _); [lia|done|lia|].
  exists g. split; [done|]. assert (last_error (qemu_fill_buffer rops f) = - EIO) as Hfill.
  { destruct (fill_spec rops remaining f Hf) as (_ & _ & _ & _ & _ & H6).
    destruct H6 as [_ ->]; [left; lia|]. by rewrite He. }
  assert (last_error (snd (qemu_peek_buffer rops f n 0)) = - EIO) as Hpeek.
  { unfold qemu_peek_buffer. rewrite !Z.add_0_r, Hi, Hs, Z.sub_0_r. destruct (Z.ltb_spec IO_BUF_SIZE n); [|lia].
    cbv zeta. by destruct (_ <=? 0). }
  assert (0 < n) by (unfold IO_BUF_SIZE in Hn; lia).
  revert E. replace (Z.to_nat n) with (S (Z.to_nat n - 1)) at 1 by lia. cbn [get_loop].
  destruct (Z.ltb_spec 0 n); [|lia]. destruct (qemu_peek_buffer rops f n 0) as [[|v d] h]; cbn [snd] in Hpeek.
  - by intros [= _ <-].
  - cbv zeta. set (res := Z.of_nat _).
    assert (last_error (qemu_file_skip h res) = - EIO) as Hsk by (unfold qemu_file_skip; by destruct (_ <=? _)).
    pose proof (get_loop_error_sticks rops (Z.to_nat n - 1) (qemu_file_skip h res) (n - res)) as Hst.
    rewrite Hsk in Hst. destruct (get_loop _ _ _ _) as [k g']. intros [= _ <-]. by apply Hst.
Qed.
End Streams.

Definition demo_ext (id : Z) : list Z := [id; 2; 3; 4].
Definition demo_items : list item :=
  [IByte 300; IBe32 0x12345678; IBuffer [7; 8; 9]; IAsync 5 1 2; IBe64 (2 ^ 63 + 5); IBe16 (-1)].

Lemma stream_roundtrip_witness : exists g,
  get_items (Pipe.read_ops 3) (qemu_fopen_ops [44; 18; 52; 86; 120; 7; 8; 9; 2; 3; 128; 0; 0; 0; 0; 0; 0; 5; 255; 255]) demo_items =
    ([IByte 44; IBe32 0x12345678; IBuffer [7; 8; 9]; IBuffer [2; 3]; IBe64 (2 ^ 63 + 5); IBe16 65535], g) /\
  rest id g = [] /\ last_error g = 0.
Proof.
  apply (stream_roundtrip Pipe.write_ops (Pipe.read_ops 3) id id demo_ext [] _ demo_items).
  - apply Pipe.write_sink.
  - by apply Pipe.read_source.
  - unfold demo_items. do 6 (apply Forall_cons; split; [unfold item_fits, IO_BUF_SIZE; cbn; first [done|lia]|]). by apply Forall_nil.
  - reflexivity.
  - by vm_compute.
Defined.

Definition half_full : QEMUFile (list Z) :=
  qemu_put_buffer Pipe.write_ops demo_ext (qemu_fopen_ops []) (replicate (Z.to_nat 20000) 1).
Lemma bytes_xfer_exact_witness :
  bytes_xfer (qemu_put_buffer Pipe.write_ops demo_ext half_full (replicate (Z.to_nat 20000) 2)) <> 20000 + 20000.
Proof.
  intros E. pose proof (proj1 (bytes_xfer_exact Pipe.write_ops id demo_ext half_full (replicate (Z.to_nat 20000) 2)
    Pipe.write_sink (proj1 (put_buffer_spec Pipe.write_ops demo_ext id (qemu_fopen_ops []) (replicate (Z.to_nat 20000) 1)
      (proj1 (fopen_ready Pipe.write_ops demo_ext id []))))) E) as H.
  rewrite length_replicate, Z2Nat.id in H by done. vm_compute in H. by destruct H.
Defined.

Lemma peek_byte_short_read_witness :
  rest id (qemu_fopen_ops [1; 2; 5]) = [1; 2; 5] /\
  fst (qemu_peek_byte (Pipe.read_ops 2) (qemu_fopen_ops [1; 2; 5]) 2) = 0.
Proof.
  split; [reflexivity|].
  apply (peek_byte_short_read (Pipe.read_ops 2) id (qemu_fopen_ops [1; 2; 5]) 2 2 [1; 2] [5]).
  - by apply Pipe.read_source.
  - apply (proj1 (fopen_reader id [1; 2; 5])).
  - done.
  - reflexivity.
  - done.
Defined.

(** A reader whose buffer was filled by a peek. *)
Definition peeked : QEMUFile (list Z) :=
  snd (qemu_peek_byte (Pipe.read_ops 40000) (qemu_fopen_ops (replicate (Z.to_nat 33000) 1)) 0).
Lemma peeked_ok : rinv peeked /\ rest id peeked = replicate (Z.to_nat 33000) 1.
Proof.
  pose proof (Pipe.read_source 40000 eq_refl).
  destruct (fopen_reader id (replicate (Z.to_nat 33000) 1)) as [Hf Hr].
  destruct (peek_byte_spec (Pipe.read_ops 40000) id (qemu_fopen_ops (replicate (Z.to_nat 33000) 1)) 1
    (replicate (Z.to_nat 32999) 1)) as (g & E & Hg & Rg & _); [done| |].
  - rewrite Hr. unfold id. by replace (Z.to_nat 33000) with (S (Z.to_nat 32999)) by lia.
  - unfold peeked. rewrite E. split; [done|]. cbn [snd]. by rewrite Rg, Hr.
Qed.
Lemma full_buffer_fails_witness : exists g,
  qemu_get_buffer (Pipe.read_ops 40000) peeked 32800 = (replicate (Z.to_nat 32800) 1, g) /\ last_error g = - EIO.
Proof.
  destruct peeked_ok as [Hf Hr].
  replace (replicate (Z.to_nat 32800) 1) with (take (Z.to_nat 32800) (rest id peeked))
    by (rewrite Hr, take_replicate; f_equal; lia).
  apply (full_buffer_fails (Pipe.read_ops 40000) id peeked 32800).
  - by apply Pipe.read_source.
  - exact Hf.
  - by vm_compute.
  - by vm_compute.
  - by vm_compute.
  - rewrite Hr, length_replicate, Z2Nat.id by done. unfold IO_BUF_SIZE. lia.
Defined.
End QemuFileProps.
