(* ===== verification/Async.v ===== *)
(** * Buffers sent by reference

    A backend with [writev_buffer] is given the buffers of
    [qemu_put_buffer_async] when the file is flushed, not when they are put.
    In between the owner may write to them.  What a file carries is then a
    list of parts, some of them references, and a flush replaces each
    reference by what the buffer holds at that time. *)

From S2P Require Import Prelude QemuFile QemuFileProps.

Module Async.
Import QemuFile QemuFileProps.

Inductive part := PBytes (d : list Z) | PRef (id off size : Z).
Implicit Types (Y : list part) (ext : Z -> list Z).
Definition render ext (t : part) : list Z := match t with PBytes d => d | PRef id off size => slice (ext id) off size end.
Definition renders ext Y : list Z := mjoin (render ext <$> Y).
Definition raw (d : list Z) : list part := (fun z => PBytes [z]) <$> d.
Lemma renders_app ext Y Y' : renders ext (Y ++ Y') = renders ext Y ++ renders ext Y'.
Proof. unfold renders. by rewrite fmap_app, join_app. Qed.
Lemma renders_raw ext d : renders ext (raw d) = d.
Proof. induction d as [|z d IH]; [done|]. change (renders ext (raw (z :: d))) with (z :: renders ext (raw d)). by rewrite IH. Qed.
Lemma raw_app d d' : raw (d ++ d') = raw d ++ raw d'.
Proof. apply fmap_app. Qed.

(** Some references became what they point to. *)
Definition settled ext (t t' : part) : Prop := t' = t \/ t' = PBytes (render ext t).
Definition refined ext : list part -> list part -> Prop := Forall2 (settled ext).
Lemma settled_bytes ext d t : settled ext (PBytes d) t -> t = PBytes d.
Proof. by intros [|]. Qed.
Lemma refined_refl ext Y : refined ext Y Y.
Proof. induction Y as [|t Y IH]; constructor; [by left|done]. Qed.
Lemma refined_all ext Y : refined ext Y (PBytes ∘ render ext <$> Y).
Proof. induction Y as [|t Y IH]; constructor; [by right|done]. Qed.
Lemma refined_trans ext Y1 Y2 Y3 : refined ext Y1 Y2 -> refined ext Y2 Y3 -> refined ext Y1 Y3.
Proof.
  intros H. revert Y3. induction H as [|t t' Y Y' Ht _ IH]; intros Y3 H'; [done|]. inversion H' as [|? t3 ? Y3' Ht3 H3]; subst. constructor; [|by apply IH].
  destruct Ht as [->| ->]; [done|]. apply settled_bytes in Ht3 as ->. by right.
Qed.
Lemma refined_raw ext d Y : refined ext (raw d) Y -> Y = raw d.
Proof.
  revert Y. induction d as [|z d IH]; intros Y H; [by apply Forall2_nil_inv_l in H|].
  apply Forall2_cons_inv_l in H as (t & Y' & ->%settled_bytes & H & ->). cbn. f_equal. by apply IH.
Qed.
Lemma renders_settled ext Y : renders ext Y = renders ext (PBytes ∘ render ext <$> Y).
Proof. unfold renders. by rewrite <- list_fmap_compose. Qed.
Lemma renders_fixed ext ext' Y : renders ext' (PBytes ∘ render ext <$> Y) = renders ext Y.
Proof. unfold renders. by rewrite <- list_fmap_compose. Qed.

Section Writer.
Context {S : Type} (ops : QEMUFileOps S) (written : S -> list Z) `{!Sink ops written}.
Implicit Types (f g h : QEMUFile S).
Abbreviation stream := (fun ext f => stream ops ext written f).

(** What is sent in the end, for whatever the buffers hold then. *)
Definition carries f Y : Prop := forall ext, stream ext f = renders ext Y.
(** [g] is [f] after [Y'] was put while the buffers held [ext]. *)
Definition puts ext f g Y' : Prop := forall Y, carries f Y -> exists Z', refined ext (Y ++ Y') Z' /\ carries g Z'.
Lemma puts_grow ext f g Y' : (forall e, stream e g = stream e f ++ renders e Y') -> puts ext f g Y'.
Proof.
  intros H Y C. exists (Y ++ Y'). split; [apply refined_refl|]. intros e. specialize (H e). cbv beta in *. rewrite H, renders_app. f_equal. apply C.
Qed.
Lemma puts_same ext f g : (forall e, stream e g = stream e f) -> puts ext f g [].
Proof. intros H. apply puts_grow. intros e. specialize (H e). cbv beta in *. by rewrite H, app_nil_r. Qed.
Lemma puts_flush ext f : puts ext f (qemu_fflush ops ext f) [].
Proof.
  intros Y C. exists (PBytes ∘ render ext <$> Y). rewrite app_nil_r. split.
  - apply refined_all.
  - intros e. rewrite renders_fixed, <- (C ext). cbv beta. rewrite <- (fflush_written ops ext written f). destruct (fflush_shape ops ext written f) as (r & o & _ & ->).
    unfold QemuFileProps.stream, pending. cbn. destruct (uses_iov ops); apply app_nil_r.
Qed.
Lemma puts_trans ext f g h Y1 Y2 : puts ext f g Y1 -> puts ext g h Y2 -> puts ext f h (Y1 ++ Y2).
Proof.
  intros H1 H2 Y C. destruct (H1 Y C) as (Z1 & R1 & C1). destruct (H2 Z1 C1) as (Z2 & R2 & C2). exists Z2. split; [|done].
  apply (refined_trans ext _ (Z1 ++ Y2)); [|done]. rewrite app_assoc. apply Forall2_app; [done|apply refined_refl].
Qed.
Lemma puts_then ext f g h Y1 : puts ext f g Y1 -> puts ext g h [] -> puts ext f h Y1.
Proof. intros H1 H2. rewrite <- (app_nil_r Y1). by apply (puts_trans ext f g). Qed.

(** *** Puts *)

Lemma puts_flush_if ext (b : bool) f : puts ext f (if b then qemu_fflush ops ext f else f) [].
Proof. destruct b; [apply puts_flush|by apply puts_same]. Qed.
Lemma chunk_puts ext f d size : winv ops f -> buf_index f + Z.of_nat (length d) <= IO_BUF_SIZE -> puts ext f (put_chunk ops ext f d size) (raw d).
Proof.
  intros Hw Hd. set (a := advanced ops ext f d size). change (put_chunk ops ext f d size) with (if buf_index a =? IO_BUF_SIZE then qemu_fflush ops ext a else a).
  apply (puts_then ext f a); [|apply puts_flush_if]. destruct (uses_iov ops) eqn:Eu.
  - subst a. rewrite advanced_appended by done. set (h := appended f d size).
    assert (puts ext f h (raw d)) as Hh.
    { apply puts_grow. intros e. rewrite renders_raw. by apply appended_stream. }
    destruct (_ <=? _)%nat.
    + apply (puts_then ext f (qemu_fflush ops ext h)); [apply (puts_then ext f h); [done|apply puts_flush]|]. apply puts_same. intros e. by apply stream_index.
    + apply (puts_then ext f h); [done|]. apply puts_same. intros e. by apply stream_index.
  - apply puts_grow. intros e. rewrite renders_raw. assert (a = advanced ops e f d size) as -> by (unfold a, advanced, queued; by rewrite Eu).
    by destruct (advanced_spec ops e written f d size Hw Hd) as (_ & ? & _).
Qed.
Lemma loop_puts ext n : forall d f, (length d <= n)%nat -> wready ops f -> puts ext f (put_loop ops ext n f d) (raw d).
Proof.
  induction n as [|n IH]; intros d f Hl Hf.
  - destruct d; [|cbn in Hl; lia]. by apply puts_same.
  - cbn [put_loop]. cbv zeta. destruct d as [|v d'] eqn:Ed; [by apply puts_same|]. rewrite <- Ed in *.
    destruct (Z.ltb_spec 0 (Z.of_nat (length d))); [|rewrite Ed in *; cbn in *; lia].
    destruct (put_round ops ext written f d Hf) as (m & Hm & Hlen & Hr & _); [by rewrite Ed|]. destruct Hf as [Hw Hi]. pose proof (w_idx ops f Hw).
    revert Hlen Hr. set (l := Z.to_nat _). set (g := put_chunk _ _ _ _ _). intros Hlen Hr.
    assert (truth (qemu_file_get_error g) = false) as -> by (unfold qemu_file_get_error; by rewrite (w_err ops g) by apply Hr).
    rewrite <- (take_drop l d) at 2. rewrite raw_app. apply (puts_trans ext f g); [|apply IH; [lia|done]]. apply chunk_puts; [done|]. rewrite length_take. lia.
Qed.
Lemma buffer_puts ext f d : wready ops f -> puts ext f (qemu_put_buffer ops ext f d) (raw d).
Proof. intros Hf. unfold qemu_put_buffer. rewrite (w_err ops f) by apply Hf. change (truth 0) with false. cbv iota. by apply loop_puts. Qed.
Lemma byte_puts ext f v : wready ops f -> puts ext f (qemu_put_byte ops ext f v) (raw [u8 v]).
Proof. intros Hf. rewrite put_byte_chunk by done. apply chunk_puts; [apply Hf|]. destruct Hf. cbn. lia. Qed.
(** Without [writev_buffer] the buffer is copied at once. *)
Lemma async_puts ext f id off size : wready ops f -> 0 <= off -> 0 <= size -> puts ext f (qemu_put_buffer_async ops ext f id off size) [PRef id off size].
Proof.
  intros Hf Ho Hn. destruct (uses_iov ops) eqn:Eu.
  - rewrite put_async_referred by (done || apply (w_err ops f), Hf). cbv zeta. apply (puts_then ext f (referred f id off size)); [|apply puts_flush_if].
    apply puts_grow. intros e. rewrite (referred_stream ops e written f id off size Eu (proj1 Hf) Hn). unfold renders. cbn. by rewrite app_nil_r.
  - unfold qemu_put_buffer_async. rewrite Eu. intros Y C. destruct (buffer_puts ext f (slice (ext id) off size) Hf Y C) as (Z' & (Y1 & Y2 & R1 & R2 & ->)%Forall2_app_inv_l & C').
    apply refined_raw in R2 as ->. exists (Y1 ++ [PBytes (slice (ext id) off size)]). split.
    + apply Forall2_app; [done|]. constructor; [by right|constructor].
    + intros e. rewrite (C' e), !renders_app, renders_raw. f_equal. unfold renders. cbn. by rewrite app_nil_r.
Qed.

Definition item_parts (i : item) : list part :=
  match i with IAsync id off size => [PRef id off size] | _ => raw (item_bytes (fun _ => []) i) end.
Lemma be32_puts ext f v : wready ops f -> puts ext f (qemu_put_be32 ops ext f v) (raw (be_bytes 4 v)).
Proof.
  intros Hf. change (raw (be_bytes 4 v)) with (raw [u8 (v .>> 24)] ++ raw [u8 (v .>> 16)] ++ raw [u8 (v .>> 8)] ++ raw [u8 (v .>> 0)]). rewrite Z.shiftr_0_r.
  unfold qemu_put_be32. cbv zeta. pose proof (proj1 (put_byte_spec ops ext written f (v .>> 24) Hf)) as H1. pose proof (proj1 (put_byte_spec ops ext written _ (v .>> 16) H1)) as H2.
  pose proof (proj1 (put_byte_spec ops ext written _ (v .>> 8) H2)) as H3. do 3 (eapply puts_trans; [by apply byte_puts|]). by apply byte_puts.
Qed.
Lemma item_puts ext f i : wready ops f -> item_ok i -> puts ext f (put_item ops ext f i) (item_parts i).
Proof.
  intros Hf Hi. destruct i as [v|v|v|v|d|id off size]; cbn [put_item item_parts item_bytes].
  - change (be_bytes 1 v) with [u8 (v .>> 0)]. rewrite Z.shiftr_0_r. by apply byte_puts.
  - change (raw (be_bytes 2 v)) with (raw [u8 (v .>> 8)] ++ raw [u8 (v .>> 0)]). rewrite Z.shiftr_0_r. unfold qemu_put_be16.
    eapply puts_trans; [by apply byte_puts|]. apply byte_puts. apply (put_byte_spec ops ext written f (v .>> 8) Hf).
  - by apply be32_puts.
  - rewrite <- be_bytes_8, raw_app. unfold qemu_put_be64. eapply puts_trans; [by apply be32_puts|]. apply be32_puts. apply (put_be32_spec ops ext written f _ Hf).
  - by apply buffer_puts.
  - by apply async_puts; [|apply Hi..].
Qed.
Lemma items_puts ext l : forall f, wready ops f -> Forall item_ok l -> puts ext f (foldl (put_item ops ext) f l) (l ≫= item_parts).
Proof.
  induction l as [|i l IH]; intros f Hf Hl; [by apply puts_same|]. apply Forall_cons in Hl as [Hi Hl]. cbn [foldl]. rewrite bind_cons.
  apply (puts_trans ext f (put_item ops ext f i)); [by apply item_puts|]. apply IH; [|done]. by apply (put_item_spec ops ext written f i).
Qed.
End Writer.
End Async.
