(* ===== verification/VmState.v ===== *)
(** * Device state descriptions (savevm.c, include/migration/vmstate.h)

    A [VMStateDescription] lists the fields of a device; one interpreter puts
    them into a stream and another gets them back.  The memory of a device is
    a map from addresses to scalars: the object at an address, of whatever
    width, is the value there; a byte buffer is one value per address, and the
    object of a timer is its expiry time, or -1 when it is not armed, and a
    [float64] is its bit pattern. *)

From S2P Require Import Prelude QemuFile.

Module VmState.
Import QemuFile.

Definition EINVAL := 22.
Definition ENOENT := 2.
Definition QEMU_VM_SUBSECTION := 0x05.

Definition mem := Z -> Z.
Definition upd (m : mem) (a v : Z) : mem := fun x => if x =? a then v else m x.
(** Bytes stored from address [a] on. *)
Fixpoint upd_bytes (m : mem) (a : Z) (d : list Z) : mem :=
  match d with [] => m | v :: d => upd_bytes (upd m a v) (a + 1) d end.
Definition bytes_at (m : mem) (a n : Z) : list Z := (fun k => m (a + Z.of_nat k)) <$> seq 0 (Z.to_nat n).

(** The [VMStateInfo]s of savevm.c. *)
Inductive VMStateInfo :=
  info_bool | info_int8 | info_int16 | info_int32 | info_int32_equal | info_int32_le | info_int64
| info_uint8 | info_uint16 | info_uint32 | info_uint32_equal | info_uint64 | info_uint64_equal
| info_uint8_equal | info_uint16_equal | info_float64 | info_timer | info_buffer | info_unused_buffer.

Record VMStateFlags := mkFlags {
  VMS_POINTER : bool; VMS_ARRAY : bool; VMS_STRUCT : bool; VMS_ARRAY_OF_POINTER : bool;
  VMS_VARRAY_INT32 : bool; VMS_VARRAY_UINT32 : bool; VMS_VARRAY_UINT16 : bool; VMS_VARRAY_UINT8 : bool;
  VMS_VBUFFER : bool; VMS_MULTIPLY : bool
}.
Definition VMS_SINGLE := mkFlags false false false false false false false false false false.

Section Interpreter.
Context {S : Type} (ops : QEMUFileOps S) (ext : Z -> list Z).
Implicit Types (f : QEMUFile S).

Inductive VMStateDescription := mkVmsd {
  name : list Z; version_id : Z; minimum_version_id : Z; minimum_version_id_old : Z;
  load_state_old : option (QEMUFile S -> mem -> Z -> Z -> Z * QEMUFile S * mem);
  pre_load : option (mem -> Z -> Z * mem);
  post_load : option (mem -> Z -> Z -> Z * mem);
  pre_save : option (mem -> Z -> mem);
  fields : list VMStateField;
  subsections : list VMStateSubsection
}
with VMStateField := mkField {
  offset : Z; size : Z; start : Z; num : Z; num_offset : Z; size_offset : Z;
  info : VMStateInfo; flags : VMStateFlags; vmsd : option VMStateDescription;
  field_version : Z; field_exists : option (mem -> Z -> Z -> bool)
}
with VMStateSubsection := mkSub {
  sub_vmsd : VMStateDescription; needed : mem -> Z -> bool
}.

Definition qemu_put_timer f (expire : Z) : QEMUFile S := qemu_put_be64 ops ext f expire.

(** Blocks of 1024 zeros. *)
Fixpoint put_unused (fuel : nat) f (size : Z) : QEMUFile S :=
  match fuel with
  | O => f
  | Datatypes.S fuel =>
      if 0 <? size then
        let block_len := Z.min 1024 size in
        put_unused fuel (qemu_put_buffer ops ext f (replicate (Z.to_nat block_len) 0)) (size - block_len)
      else f
  end.
Definition info_put (I : VMStateInfo) f (m : mem) (pv size : Z) : QEMUFile S :=
  match I with
  | info_bool | info_int8 | info_uint8 | info_uint8_equal => qemu_put_byte ops ext f (m pv)
  | info_int16 | info_uint16 | info_uint16_equal => qemu_put_be16 ops ext f (m pv)
  | info_int32 | info_int32_equal | info_int32_le | info_uint32 | info_uint32_equal => qemu_put_be32 ops ext f (m pv)
  | info_int64 | info_uint64 | info_uint64_equal | info_float64 => qemu_put_be64 ops ext f (m pv)
  | info_timer => qemu_put_timer f (m pv)
  | info_buffer => qemu_put_buffer ops ext f (bytes_at m pv size)
  | info_unused_buffer => put_unused (Z.to_nat size) f size
  end.

Definition store (r : Z * QEMUFile S) (m : mem) (pv : Z) (conv : Z -> Z) : Z * QEMUFile S * mem :=
  let '(v, f) := r in (0, f, upd m pv (conv v)).
Definition expect (r : Z * QEMUFile S) (m : mem) (conv : Z -> Z) (ok : Z -> bool) : Z * QEMUFile S * mem :=
  let '(v, f) := r in (if ok (conv v) then 0 else - EINVAL, f, m).
Definition qemu_get_timer f (m : mem) (ts : Z) : QEMUFile S * mem :=
  let '(expire_time, f) := qemu_get_be64 ops f in
  if negb (expire_time =? u64 (-1)) then (f, upd m ts (s64 expire_time)) else (f, upd m ts (-1)).
Fixpoint get_unused (fuel : nat) f (size : Z) : QEMUFile S :=
  match fuel with
  | O => f
  | Datatypes.S fuel =>
      if 0 <? size then
        let block_len := Z.min 1024 size in
        get_unused fuel (snd (qemu_get_buffer ops f block_len)) (size - block_len)
      else f
  end.
Definition info_get (I : VMStateInfo) f (m : mem) (pv size : Z) : Z * QEMUFile S * mem :=
  match I with
  | info_bool => store (qemu_get_byte ops f) m pv (fun v => b2z (truth v))
  | info_int8 => store (qemu_get_byte ops f) m pv (sN 8)
  | info_int16 => store (qemu_get_be16 ops f) m pv (sN 16)
  | info_int32 => store (qemu_get_be32 ops f) m pv s32
  | info_int32_equal => expect (qemu_get_be32 ops f) m s32 (Z.eqb (m pv))
  | info_int32_le => expect (qemu_get_be32 ops f) m s32 (Z.leb (m pv))
  | info_int64 => store (qemu_get_be64 ops f) m pv s64
  | info_uint8 => store (qemu_get_byte ops f) m pv id
  | info_uint8_equal => expect (qemu_get_byte ops f) m id (Z.eqb (m pv))
  | info_uint16 => store (qemu_get_be16 ops f) m pv id
  | info_uint16_equal => expect (qemu_get_be16 ops f) m id (Z.eqb (m pv))
  | info_uint32 => store (qemu_get_be32 ops f) m pv id
  | info_uint32_equal => expect (qemu_get_be32 ops f) m id (Z.eqb (m pv))
  | info_uint64 => store (qemu_get_be64 ops f) m pv id
  | info_float64 => store (qemu_get_be64 ops f) m pv id
  | info_uint64_equal => expect (qemu_get_be64 ops f) m id (Z.eqb (m pv))
  | info_timer => let '(f, m) := qemu_get_timer f m pv in (0, f, m)
  | info_buffer => let '(d, f) := qemu_get_buffer ops f size in (0, f, upd_bytes m pv d)
  | info_unused_buffer => (0, get_unused (Z.to_nat size) f size, m)
  end.

(** ** The layout of a field *)

Definition field_size (fd : VMStateField) (m : mem) (opaque : Z) : Z :=
  if VMS_VBUFFER (flags fd) then
    let sz := m (opaque + size_offset fd) in
    if VMS_MULTIPLY (flags fd) then s32 (sz * size fd) else sz
  else size fd.
Definition n_elems (fd : VMStateField) (m : mem) (opaque : Z) : Z :=
  if VMS_ARRAY (flags fd) then num fd
  else if VMS_VARRAY_INT32 (flags fd) || VMS_VARRAY_UINT32 (flags fd)
          || VMS_VARRAY_UINT16 (flags fd) || VMS_VARRAY_UINT8 (flags fd)
  then s32 (m (opaque + num_offset fd))
  else 1.
Definition base_addr (fd : VMStateField) (m : mem) (opaque : Z) : Z :=
  let base := opaque + offset fd in
  if VMS_POINTER (flags fd) then m base + start fd else base.
Definition elem_addr (fd : VMStateField) (m : mem) (base size i : Z) : Z :=
  let addr := base + size * i in
  if VMS_ARRAY_OF_POINTER (flags fd) then m addr else addr.
Definition load_exists (fd : VMStateField) (m : mem) (opaque version : Z) : bool :=
  match field_exists fd with
  | Some ex => ex m opaque version
  | None => field_version fd <=? version
  end.
Definition save_exists (fd : VMStateField) (m : mem) (opaque version : Z) : bool :=
  match field_exists fd with Some ex => ex m opaque version | None => true end.

(** ** Saving

    The interpreters recur on the nesting of descriptions and, to load, on the
    subsections found: [fuel] bounds both.  [None] is a lack of it, or a call
    through a null pointer. *)

Section Save.
Context (rec : VMStateDescription -> QEMUFile S -> mem -> Z -> option (QEMUFile S * mem)).

Definition save_elem (fd : VMStateField) f (m : mem) (addr size : Z) : option (QEMUFile S * mem) :=
  if VMS_STRUCT (flags fd) then
    match vmsd fd with Some d => rec d f m addr | None => None end
  else Some (info_put (info fd) f m addr size, m).
Fixpoint save_elems (fd : VMStateField) (base size : Z) (n : nat) (i : Z) f (m : mem)
    : option (QEMUFile S * mem) :=
  match n with
  | O => Some (f, m)
  | Datatypes.S n =>
      '(f, m) ← save_elem fd f m (elem_addr fd m base size i) size;
      save_elems fd base size n (i + 1) f m
  end.
Fixpoint save_fields (l : list VMStateField) (version : Z) f (m : mem) (opaque : Z)
    : option (QEMUFile S * mem) :=
  match l with
  | [] => Some (f, m)
  | fd :: l =>
      if save_exists fd m opaque version then
        '(f, m) ← save_elems fd (base_addr fd m opaque) (field_size fd m opaque)
                    (Z.to_nat (n_elems fd m opaque)) 0 f m;
        save_fields l version f m opaque
      else save_fields l version f m opaque
  end.
Fixpoint vmstate_subsection_save (l : list VMStateSubsection) f (m : mem) (opaque : Z)
    : option (QEMUFile S * mem) :=
  match l with
  | [] => Some (f, m)
  | sub :: l =>
      if needed sub m opaque then
        let d := sub_vmsd sub in
        let f := qemu_put_byte ops ext f QEMU_VM_SUBSECTION in
        let len := u8 (Z.of_nat (length (name d))) in
        let f := qemu_put_byte ops ext f len in
        let f := qemu_put_buffer ops ext f (take (Z.to_nat len) (name d)) in
        let f := qemu_put_be32 ops ext f (version_id d) in
        '(f, m) ← rec d f m opaque;
        vmstate_subsection_save l f m opaque
      else vmstate_subsection_save l f m opaque
  end.
End Save.

Fixpoint vmstate_save_state (fuel : nat) (d : VMStateDescription) f (m : mem) (opaque : Z)
    : option (QEMUFile S * mem) :=
  match fuel with
  | O => None
  | Datatypes.S fuel =>
      let m := match pre_save d with Some h => h m opaque | None => m end in
      '(f, m) ← save_fields (vmstate_save_state fuel) (fields d) (version_id d) f m opaque;
      vmstate_subsection_save (vmstate_save_state fuel) (subsections d) f m opaque
  end.

(** ** Loading *)

Section Load.
Context (rec : VMStateDescription -> QEMUFile S -> mem -> Z -> Z -> option (Z * QEMUFile S * mem)).

Definition load_elem (fd : VMStateField) f (m : mem) (addr size : Z) : option (Z * QEMUFile S * mem) :=
  if VMS_STRUCT (flags fd) then
    match vmsd fd with Some d => rec d f m addr (version_id d) | None => None end
  else Some (info_get (info fd) f m addr size).
(** The first negative result ends the loops. *)
Fixpoint load_elems (fd : VMStateField) (base size : Z) (n : nat) (i : Z) f (m : mem)
    : option (Z * QEMUFile S * mem) :=
  match n with
  | O => Some (0, f, m)
  | Datatypes.S n =>
      '(ret, f, m) ← load_elem fd f m (elem_addr fd m base size i) size;
      if ret <? 0 then Some (ret, f, m) else load_elems fd base size n (i + 1) f m
  end.
Fixpoint load_fields (l : list VMStateField) (version : Z) f (m : mem) (opaque : Z)
    : option (Z * QEMUFile S * mem) :=
  match l with
  | [] => Some (0, f, m)
  | fd :: l =>
      if load_exists fd m opaque version then
        '(ret, f, m) ← load_elems fd (base_addr fd m opaque) (field_size fd m opaque)
                         (Z.to_nat (n_elems fd m opaque)) 0 f m;
        if ret <? 0 then Some (ret, f, m) else load_fields l version f m opaque
      else load_fields l version f m opaque
  end.

(** The C string at the head of a buffer. *)
Fixpoint cstr (l : list Z) : list Z :=
  match l with [] => [] | c :: l => if c =? 0 then [] else c :: cstr l end.
Definition vmstate_get_subsection (l : list VMStateSubsection) (idstr : list Z) : option VMStateDescription :=
  sub_vmsd <$> find (fun sub => bool_decide (cstr idstr = name (sub_vmsd sub))) l.

(** What [vmstate_subsection_load] finds at the head of the stream. *)
Inductive found := NoSubsection | UnknownSubsection | Subsection (d : VMStateDescription) (len : Z).
Definition peek_subsection (d : VMStateDescription) f : found * QEMUFile S :=
  let '(b, f) := qemu_peek_byte ops f 0 in
  if b =? QEMU_VM_SUBSECTION then
    let '(len, f) := qemu_peek_byte ops f 1 in
    if len <? Z.of_nat (length (name d)) + 1 then (NoSubsection, f)
    else
      let '(idstr, f) := qemu_peek_buffer ops f len 2 in
      if negb (Z.of_nat (length idstr) =? len) then (NoSubsection, f)
      else if bool_decide (take (length (name d)) idstr = name d) then
        match vmstate_get_subsection (subsections d) idstr with
        | None => (UnknownSubsection, f)
        | Some sub => (Subsection sub len, f)
        end
      else (NoSubsection, f)
  else (NoSubsection, f).
Fixpoint vmstate_subsection_load (fuel : nat) (d : VMStateDescription) f (m : mem) (opaque : Z)
    : option (Z * QEMUFile S * mem) :=
  match fuel with
  | O => None
  | Datatypes.S fuel =>
      match peek_subsection d f with
      | (NoSubsection, f) => Some (0, f, m)
      | (UnknownSubsection, f) => Some (- ENOENT, f, m)
      | (Subsection sub len, f) =>
          let f := qemu_file_skip f 1 in
          let f := qemu_file_skip f 1 in
          let f := qemu_file_skip f len in
          let '(v, f) := qemu_get_be32 ops f in
          '(ret, f, m) ← rec sub f m opaque (u8 v);
          if truth ret then Some (ret, f, m) else vmstate_subsection_load fuel d f m opaque
      end
  end.
End Load.

Fixpoint vmstate_load_state (fuel : nat) (d : VMStateDescription) f (m : mem) (opaque version : Z)
    : option (Z * QEMUFile S * mem) :=
  match fuel with
  | O => None
  | Datatypes.S fuel =>
      if version_id d <? version then Some (- EINVAL, f, m)
      else if version <? minimum_version_id_old d then Some (- EINVAL, f, m)
      else if version <? minimum_version_id d then
        match load_state_old d with Some h => Some (h f m opaque version) | None => None end
      else
        let '(ret, m) := match pre_load d with Some h => h m opaque | None => (0, m) end in
        if truth ret then Some (ret, f, m)
        else
          '(ret, f, m) ← load_fields (vmstate_load_state fuel) (fields d) version f m opaque;
          if ret <? 0 then Some (ret, f, m)
          else
            '(ret, f, m) ← vmstate_subsection_load (vmstate_load_state fuel) (Datatypes.S fuel) d f m opaque;
            if negb (ret =? 0) then Some (ret, f, m)
            else match post_load d with
                 | Some h => let '(ret, m) := h m opaque version in Some (ret, f, m)
                 | None => Some (0, f, m)
                 end
  end.
End Interpreter.
Arguments VMStateDescription S : clear implicits.
Arguments VMStateField S : clear implicits.
Arguments VMStateSubsection S : clear implicits.
End VmState.
