(* ===== verification/VmStateProps.v ===== *)
(** * Saving and loading a device preserves its state

    For descriptions without hooks, subsections, conditional fields, compared
    fields or fields of variable length, at any nesting: what [vmstate_save_state] puts is what the description
    lists, and [vmstate_load_state] writes exactly those objects. *)

From stdpp Require Import sets.
From S2P Require Import Prelude QemuFile QemuFileProps VmState.

Module VmStateProps.
Import QemuFile QemuFileProps VmState.

Lemma cstr_id id : Forall (fun c => c <> 0) id -> cstr id = id.
Proof. induction 1 as [|c id Hc _ IH]; [done|]. cbn. destruct (Z.eqb_spec c 0); [done|]. by rewrite IH. Qed.

(** Writes to a list of addresses. *)
Definition write_cells (l : list Z) (vs : list Z) (m : mem) : mem :=
  foldl (fun m p => upd m p.1 p.2) m (zip l vs).

Lemma write_cells_cons a l v vs m : write_cells (a :: l) (v :: vs) m = write_cells l vs (upd m a v).
Proof. done. Qed.
Lemma write_cells_app l1 l2 v1 v2 m : length l1 = length v1 ->
  write_cells (l1 ++ l2) (v1 ++ v2) m = write_cells l2 v2 (write_cells l1 v1 m).
Proof.
  intros. unfold write_cells. rewrite zip_with_app by done. by rewrite foldl_app.
Qed.
Lemma write_cells_frame l vs m x : x ∉ l -> write_cells l vs m x = m x.
Proof.
  revert vs m. induction l as [|a l IH]; intros vs m Hx; [done|]. destruct vs as [|v vs]; [done|].
  rewrite write_cells_cons, IH by set_solver. unfold upd. destruct (Z.eqb_spec x a); [set_solver|done].
Qed.
Lemma write_cells_read l vs m : NoDup l -> length l = length vs -> write_cells l vs m <$> l = vs.
Proof.
  revert vs m. induction l as [|a l IH]; intros vs m Hd Hl; destruct vs as [|v vs]; try done.
  inversion_clear Hd. rewrite write_cells_cons, fmap_cons. f_equal.
  - rewrite write_cells_frame by done. unfold upd. by rewrite Z.eqb_refl.
  - by apply (IH vs (upd m a v)); [|cbn in Hl; lia].
Qed.

(** ** One object *)

Definition info_foot (I : VMStateInfo) (pv size : Z) : list Z :=
  match I with
  | info_buffer => (fun k => pv + Z.of_nat k) <$> seq 0 (Z.to_nat size)
  | _ => [pv]
  end.
Definition info_items (I : VMStateInfo) (m : mem) (pv size : Z) : list item :=
  match I with
  | info_bool | info_int8 | info_uint8 | info_uint8_equal => [IByte (m pv)]
  | info_int16 | info_uint16 | info_uint16_equal => [IBe16 (m pv)]
  | info_int32 | info_int32_equal | info_int32_le | info_uint32 | info_uint32_equal => [IBe32 (m pv)]
  | info_int64 | info_uint64 | info_uint64_equal | info_float64 | info_timer => [IBe64 (m pv)]
  | info_buffer => [IBuffer (bytes_at m pv size)]
  | info_unused_buffer => []
  end.
(** The objects a get stores as they were put. *)
Definition info_fits (I : VMStateInfo) (v : Z) : Prop :=
  match I with
  | info_bool => v = 0 \/ v = 1
  | info_int8 => - 2 ^ 7 <= v < 2 ^ 7
  | info_int16 => - 2 ^ 15 <= v < 2 ^ 15
  | info_int32 => - 2 ^ 31 <= v < 2 ^ 31
  | info_int64 | info_timer => - 2 ^ 63 <= v < 2 ^ 63
  | info_uint8 => is_u 8 v
  | info_uint16 => is_u 16 v
  | info_uint32 => is_u 32 v
  | info_uint64 | info_float64 => is_u 64 v
  | info_buffer => True
  | info_int32_equal | info_int32_le | info_uint32_equal | info_uint64_equal
  | info_uint8_equal | info_uint16_equal | info_unused_buffer => False
  end.

Lemma sN_mod w x : 0 < w -> - 2 ^ (w - 1) <= x < 2 ^ (w - 1) -> sN w (x mod 2 ^ w) = x.
Proof.
  intros Hw Hx. unfold sN. rewrite Zplus_mod_idemp_l.
  assert (2 ^ w = 2 * 2 ^ (w - 1)) by (rewrite <- Z.pow_succ_r by lia; f_equal; lia).
  rewrite Z.mod_small by lia. lia.
Qed.
Lemma upd_bytes_cells m a d :
  upd_bytes m a d = write_cells ((fun k => a + Z.of_nat k) <$> seq 0 (length d)) d m.
Proof.
  revert m a. induction d as [|v d IH]; intros m a; [done|]. cbn [upd_bytes length]. rewrite IH.
  cbn [seq]. rewrite fmap_cons, write_cells_cons, Z.add_0_r. f_equal. rewrite <- fmap_S_seq, <- list_fmap_compose. apply list_fmap_ext. intros ? k _. cbn. lia.
Qed.

Section RoundTrip.
Context {S : Type} (wops rops : QEMUFileOps S) (ext : Z -> list Z) (remaining : S -> list Z) `{!Source rops remaining}.
Implicit Types (f : QEMUFile S) (d : VMStateDescription S) (fd : VMStateField S).

Lemma info_put_items I f m pv size v : info_fits I v ->
  info_put wops ext I f m pv size = foldl (put_item wops ext) f (info_items I m pv size).
Proof. destruct I; cbn [info_fits info_put info_items foldl put_item]; intros Hv; try reflexivity; destruct Hv. Qed.

Lemma length_bytes_at m a n : length (bytes_at m a n) = Z.to_nat n.
Proof. unfold bytes_at. by rewrite length_fmap, length_seq. Qed.
Lemma bytes_at_foot m a n : bytes_at m a n = m <$> info_foot info_buffer a n.
Proof. unfold bytes_at. cbn. by rewrite <- list_fmap_compose. Qed.

Lemma store_spec (r : Z * QEMUFile S) m pv conv v u g : r = (u, g) -> conv u = v ->
  store r m pv conv = (0, g, write_cells [pv] [v] m).
Proof. by intros -> <-. Qed.

(** Getting one object stores what was put. *)
Lemma info_get_spec I f m ms pv pv' size tail : rinv f -> 0 <= size <= IO_BUF_SIZE ->
  info_fits I (ms pv') -> rest remaining f = mjoin (item_bytes ext <$> info_items I ms pv' size) ++ tail ->
  exists g, info_get rops I f m pv size =
      (0, g, write_cells (info_foot I pv size) (ms <$> info_foot I pv' size) m) /\
    rinv g /\ rest remaining g = tail /\ last_error g = last_error f.
Proof.
  intros Hf Hs Hi Hr. destruct I; cbn [info_items fmap list_fmap mjoin list_join item_bytes] in Hr;
    rewrite ?app_nil_r in Hr; cbn [info_get info_foot fmap list_fmap]; cbn [info_fits] in Hi; try by destruct Hi.
  - destruct (get_byte_spec rops remaining f _ _ Hf Hr) as (g & E & H). exists g. split; [|done].
    eapply store_spec; [done|]. destruct Hi as [-> | ->]; done.
  - destruct (get_byte_spec rops remaining f _ _ Hf Hr) as (g & E & H). exists g. split; [|done].
    eapply store_spec; [done|]. rewrite Z.shiftr_0_r. by apply sN_mod.
  - destruct (get_be16_spec rops remaining f _ _ Hf Hr) as (g & E & H). exists g. split; [|done].
    eapply store_spec; [done|]. by apply sN_mod.
  - destruct (get_be32_spec rops remaining f _ _ Hf Hr) as (g & E & H). exists g. split; [|done].
    eapply store_spec; [done|]. by apply sN_mod.
  - destruct (get_be64_spec rops remaining f _ _ Hf Hr) as (g & E & H). exists g. split; [|done].
    eapply store_spec; [done|]. by apply sN_mod.
  - destruct (get_byte_spec rops remaining f _ _ Hf Hr) as (g & E & H). exists g. split; [|done].
    eapply store_spec; [done|]. rewrite Z.shiftr_0_r. by apply Z.mod_small.
  - destruct (get_be16_spec rops remaining f _ _ Hf Hr) as (g & E & H). exists g. split; [|done].
    eapply store_spec; [done|]. by apply Z.mod_small.
  - destruct (get_be32_spec rops remaining f _ _ Hf Hr) as (g & E & H). exists g. split; [|done].
    eapply store_spec; [done|]. by apply Z.mod_small.
  - destruct (get_be64_spec rops remaining f _ _ Hf Hr) as (g & E & H). exists g. split; [|done].
    eapply store_spec; [done|]. by apply Z.mod_small.
  - destruct (get_be64_spec rops remaining f _ _ Hf Hr) as (g & E & H). exists g. split; [|done].
    eapply store_spec; [done|]. by apply Z.mod_small.
  - destruct (get_be64_spec rops remaining f _ _ Hf Hr) as (g & E & H). exists g. split; [|done].
    unfold qemu_get_timer. rewrite E. destruct (Z.eqb_spec (u64 (ms pv')) (u64 (-1))) as [Eq|Eq]; cbn [negb].
    + assert (ms pv' = -1) as ->; [|done]. rewrite <- (sN_mod 64 (ms pv')), <- (sN_mod 64 (-1)) by (done || lia).
      unfold u64 in Eq. by rewrite Eq.
    + unfold s64, u64. by rewrite sN_mod.
  - destruct (get_buffer_spec rops remaining f _ _ Hf Hr) as (g & E & H); [rewrite length_bytes_at; lia|].
    rewrite length_bytes_at, Z2Nat.id in E by lia. rewrite E. exists g. split; [|done].
    rewrite upd_bytes_cells, length_bytes_at, bytes_at_foot. done.
Qed.

(** ** Whole descriptions *)

(** The addresses of the elements of a field, without variable lengths. *)
Definition addrs fd (m : mem) (opaque : Z) : list Z :=
  (fun i => base_addr fd m opaque + size fd * Z.of_nat i) <$> seq 0 (Z.to_nat (n_elems fd m opaque)).
Definition over {A} (fd : VMStateField S) (m : mem) (opaque : Z) (k : Z -> list A) : list A :=
  mjoin (k <$> addrs fd m opaque).

(** At nesting [n]: the items put, the addresses of the objects and of the
    pointers followed. *)
Section Level.
Context (srec : VMStateDescription S -> mem -> Z -> list item) (frec prec : VMStateDescription S -> mem -> Z -> list Z).
Definition elem_items fd m addr :=
  if VMS_STRUCT (flags fd) then match vmsd fd with Some d => srec d m addr | None => [] end
  else info_items (info fd) m addr (size fd).
Definition elem_foot fd m addr :=
  if VMS_STRUCT (flags fd) then match vmsd fd with Some d => frec d m addr | None => [] end
  else info_foot (info fd) addr (size fd).
Definition elem_ptrs fd m addr :=
  if VMS_STRUCT (flags fd) then match vmsd fd with Some d => prec d m addr | None => [] end
  else [].
Definition fields_items (l : list (VMStateField S)) m opaque := mjoin ((fun fd => over fd m opaque (elem_items fd m)) <$> l).
Definition fields_foot (l : list (VMStateField S)) m opaque := mjoin ((fun fd => over fd m opaque (elem_foot fd m)) <$> l).
Definition field_ptrs fd m opaque :=
  (if VMS_POINTER (flags fd) then [opaque + offset fd] else []) ++ over fd m opaque (elem_ptrs fd m).
Definition fields_ptrs (l : list (VMStateField S)) m opaque := mjoin ((fun fd => field_ptrs fd m opaque) <$> l).
End Level.
Fixpoint saved (n : nat) d (m : mem) (a : Z) : list item :=
  match n with O => [] | Datatypes.S n => fields_items (saved n) (fields d) m a end.
Fixpoint foot (n : nat) d (m : mem) (a : Z) : list Z :=
  match n with O => [] | Datatypes.S n => fields_foot (foot n) (fields d) m a end.
Fixpoint ptrs (n : nat) d (m : mem) (a : Z) : list Z :=
  match n with O => [] | Datatypes.S n => fields_ptrs (ptrs n) (fields d) m a end.

(** Descriptions of nesting at most [n] without hooks, subsections or lengths
    read from memory, all of whose fields are of the current version. *)
Definition fixed_layout fd : Prop :=
  VMS_ARRAY_OF_POINTER (flags fd) = false /\ VMS_VBUFFER (flags fd) = false /\
  VMS_VARRAY_INT32 (flags fd) || VMS_VARRAY_UINT32 (flags fd) || VMS_VARRAY_UINT16 (flags fd)
    || VMS_VARRAY_UINT8 (flags fd) = false /\
  field_exists fd = None /\ 0 <= size fd <= IO_BUF_SIZE.
Fixpoint plain (n : nat) d : Prop :=
  match n with
  | O => False
  | Datatypes.S n =>
      pre_load d = None /\ post_load d = None /\ pre_save d = None /\ subsections d = [] /\
      minimum_version_id_old d <= version_id d /\ minimum_version_id d <= version_id d /\
      Forall (fun fd => fixed_layout fd /\ field_version fd <= version_id d /\
        (VMS_STRUCT (flags fd) = true -> exists d', vmsd fd = Some d' /\ plain n d')) (fields d)
  end.

(** The values fit their fields. *)
Section Fits.
Context (rec : VMStateDescription S -> mem -> Z -> Prop).
Definition elem_fits fd m addr : Prop :=
  if VMS_STRUCT (flags fd) then match vmsd fd with Some d => rec d m addr | None => True end
  else info_fits (info fd) (m addr).
Definition fields_fit (l : list (VMStateField S)) m opaque : Prop :=
  Forall (fun fd => Forall (elem_fits fd m) (addrs fd m opaque)) l.
End Fits.
Fixpoint fits (n : nat) d (m : mem) (a : Z) : Prop :=
  match n with O => False | Datatypes.S n => fields_fit (fits n) (fields d) m a end.

(** A stream goes on with something that is not a subsection. *)
Definition goes_on (l : list Z) : Prop := match l with [] => False | b :: _ => b <> QEMU_VM_SUBSECTION end.
Section Separate.
Context (srec : VMStateDescription S -> mem -> Z -> list item) (rec : VMStateDescription S -> mem -> Z -> list Z -> Prop).
Definition elem_sep fd m addr (tail : list Z) : Prop :=
  if VMS_STRUCT (flags fd) then match vmsd fd with Some d => rec d m addr tail | None => True end else True.
Fixpoint elems_sep fd m (l : list Z) (tail : list Z) : Prop :=
  match l with
  | [] => True
  | x :: l => elem_sep fd m x (mjoin (item_bytes ext <$> mjoin (elem_items srec fd m <$> l)) ++ tail) /\ elems_sep fd m l tail
  end.
Fixpoint fields_sep (l : list (VMStateField S)) m opaque (tail : list Z) : Prop :=
  match l with
  | [] => True
  | fd :: l => elems_sep fd m (addrs fd m opaque) (mjoin (item_bytes ext <$> fields_items srec l m opaque) ++ tail) /\
               fields_sep l m opaque tail
  end.
End Separate.
(** After every description the stream goes on with something else. *)
Fixpoint separate (n : nat) d (m : mem) (a : Z) (tail : list Z) : Prop :=
  match n with
  | O => False
  | Datatypes.S n => fields_sep (saved n) (separate n) (fields d) m a tail /\ goes_on tail
  end.

(** Structures that come last are followed by what follows the description. *)
Lemma elems_sep_scalar srec rec fd m l tail : VMS_STRUCT (flags fd) = false -> elems_sep srec rec fd m l tail.
Proof. intros Hs. induction l as [|x l IH]; [done|]. split; [|done]. unfold elem_sep. by rewrite Hs. Qed.
Lemma fields_sep_scalars srec rec l k m a tail : Forall (fun fd => VMS_STRUCT (flags fd) = false) l ->
  fields_sep srec rec k m a tail -> fields_sep srec rec (l ++ k) m a tail.
Proof. intros Hl Hk. induction Hl; [done|]. split; [by apply elems_sep_scalar|done]. Qed.

(** *** Layout *)

Lemma addrs_seq fd base k i :
  (fun j => base + size fd * j) <$> ((fun j => i + Z.of_nat j) <$> seq 0 (Datatypes.S k)) =
  (base + size fd * i) :: ((fun j => base + size fd * j) <$> ((fun j => i + 1 + Z.of_nat j) <$> seq 0 k)).
Proof.
  cbn [seq]. rewrite !fmap_cons, Z.add_0_r. f_equal. rewrite <- fmap_S_seq, <- !list_fmap_compose.
  apply list_fmap_ext. intros ? j _. cbn. f_equal. f_equal. lia.
Qed.
Lemma n_elems_fixed fd m m' a a' : fixed_layout fd -> n_elems fd m a = n_elems fd m' a'.
Proof.
  intros (_ & _ & Hv & _). unfold n_elems. destruct (VMS_ARRAY (flags fd)); [done|]. by rewrite Hv.
Qed.
Lemma field_size_fixed fd m a : fixed_layout fd -> field_size fd m a = size fd.
Proof. intros (_ & Hv & _). unfold field_size. by rewrite Hv. Qed.
Lemma length_addrs fd m m' a a' : fixed_layout fd -> length (addrs fd m a) = length (addrs fd m' a').
Proof. intros Hf. unfold addrs. rewrite !length_fmap. by rewrite (n_elems_fixed fd m m' a a'). Qed.
Lemma addrs_ext fd m m' a : fixed_layout fd -> (VMS_POINTER (flags fd) = true -> m (a + offset fd) = m' (a + offset fd)) ->
  addrs fd m a = addrs fd m' a.
Proof.
  intros Hf Hp. unfold addrs. rewrite (n_elems_fixed fd m m' a a) by done.
  apply list_fmap_ext. intros i j _. f_equal. unfold base_addr. destruct (VMS_POINTER (flags fd)); [|done]. by rewrite Hp.
Qed.

(** The loops over elements as loops over addresses. *)
Fixpoint save_list rec fd (l : list Z) f (m : mem) : option (QEMUFile S * mem) :=
  match l with
  | [] => Some (f, m)
  | x :: l => '(f, m) ← save_elem wops ext rec fd f m x (size fd); save_list rec fd l f m
  end.
Fixpoint load_list rec fd (l : list Z) f (m : mem) : option (Z * QEMUFile S * mem) :=
  match l with
  | [] => Some (0, f, m)
  | x :: l => '(ret, f, m) ← load_elem rops rec fd f m x (size fd);
              if ret <? 0 then Some (ret, f, m) else load_list rec fd l f m
  end.
Lemma save_elems_list rec fd base k i f m : fixed_layout fd ->
  save_elems wops ext rec fd base (size fd) k i f m =
  save_list rec fd ((fun j => base + size fd * j) <$> ((fun j => i + Z.of_nat j) <$> seq 0 k)) f m.
Proof.
  intros (Hp & _). revert i f m. induction k as [|k IH]; intros i f m; [done|]. rewrite addrs_seq. cbn [save_elems save_list].
  unfold elem_addr. rewrite Hp. destruct (save_elem _ _ _ _ _ _ _ _) as [[? ?]|]; [|done]. cbn. apply IH.
Qed.
Lemma load_elems_list rec fd base k i f m : fixed_layout fd ->
  load_elems rops rec fd base (size fd) k i f m =
  load_list rec fd ((fun j => base + size fd * j) <$> ((fun j => i + Z.of_nat j) <$> seq 0 k)) f m.
Proof.
  intros (Hp & _). revert i f m. induction k as [|k IH]; intros i f m; [done|]. rewrite addrs_seq. cbn [load_elems load_list].
  unfold elem_addr. rewrite Hp. destruct (load_elem _ _ _ _ _ _ _) as [[[r ?] ?]|]; [|done]. cbn. destruct (r <? 0); [done|]. apply IH.
Qed.
Lemma addrs_list fd m a : addrs fd m a =
  (fun j => base_addr fd m a + size fd * j) <$> ((fun j => 0 + Z.of_nat j) <$> seq 0 (Z.to_nat (n_elems fd m a))).
Proof. unfold addrs. by rewrite <- list_fmap_compose. Qed.

(** *** Saving *)

Lemma save_list_spec rec srec fd l f m :
  (forall x f, x ∈ l -> save_elem wops ext rec fd f m x (size fd) =
    Some (foldl (put_item wops ext) f (elem_items srec fd m x), m)) ->
  save_list rec fd l f m = Some (foldl (put_item wops ext) f (mjoin (elem_items srec fd m <$> l)), m).
Proof.
  revert f. induction l as [|x l IH]; intros f Hx; [done|]. cbn [save_list]. rewrite Hx by set_solver. cbn.
  rewrite foldl_app. apply IH. set_solver.
Qed.
Lemma save_spec n d f m a : plain n d -> fits n d m a ->
  vmstate_save_state wops ext n d f m a = Some (foldl (put_item wops ext) f (saved n d m a), m).
Proof.
  revert d f a. induction n as [|n IH]; intros d f a; [done|]. cbn [plain fits vmstate_save_state saved].
  intros (_ & _ & -> & -> & _ & _ & Hp) Hv. unfold fields_items, fields_fit in *.
  assert (forall f, save_fields wops ext (vmstate_save_state wops ext n) (fields d) (version_id d) f m a =
    Some (foldl (put_item wops ext) f (mjoin ((fun fd => over fd m a (elem_items (saved n) fd m)) <$> fields d)), m)) as ->; [|done].
  revert Hp Hv. generalize (version_id d). intros v. induction (fields d) as [|fd l IHl]; intros Hp Hv g; [done|].
  inversion_clear Hp as [|? ? (Hfix & _ & Hst) Hpl]. inversion_clear Hv as [|? ? Hfd Hvl].
  cbn [save_fields]. unfold save_exists. pose proof Hfix as (_ & _ & _ & -> & _).
  rewrite field_size_fixed, save_elems_list, <- addrs_list by done.
  rewrite (save_list_spec _ (saved n)).
  - cbn. rewrite foldl_app. by apply IHl.
  - intros y h Hy. rewrite Forall_forall in Hfd. specialize (Hfd y Hy). unfold save_elem, elem_items, elem_fits in *.
    destruct (VMS_STRUCT (flags fd)).
    + destruct Hst as (d' & E & Hd'); [done|]. rewrite E in *. by apply IH.
    + by erewrite info_put_items.
Qed.

(** *** Loading *)

Lemma over_foot_length frec fd m m' l l' : length l = length l' ->
  (forall x x', length (elem_foot frec fd m x) = length (elem_foot frec fd m' x')) ->
  length (mjoin (elem_foot frec fd m <$> l)) = length (mjoin (elem_foot frec fd m' <$> l')).
Proof.
  intros Hl Hx. revert l' Hl. induction l as [|x l IH]; intros [|x' l'] Hl; try done.
  cbn. rewrite !length_app. f_equal; [apply Hx|]. apply IH. by injection Hl.
Qed.
Lemma elem_foot_length n fd m m' x x' :
  (forall d, plain n d -> length (foot n d m x) = length (foot n d m' x')) ->
  (VMS_STRUCT (flags fd) = true -> exists d', vmsd fd = Some d' /\ plain n d') ->
  length (elem_foot (foot n) fd m x) = length (elem_foot (foot n) fd m' x').
Proof.
  intros IH Hst. unfold elem_foot. destruct (VMS_STRUCT (flags fd)).
  - destruct Hst as (d' & -> & Hd'); [done|]. by apply IH.
  - destruct (info fd); cbn; try done. by rewrite !length_fmap.
Qed.
Lemma foot_length n d m m' a a' : plain n d -> length (foot n d m a) = length (foot n d m' a').
Proof.
  revert d a a'. induction n as [|n IH]; intros d a a'; [done|]. cbn [plain foot]. intros (_ & _ & _ & _ & _ & _ & Hp).
  unfold fields_foot. revert Hp. generalize (version_id d). intros v.
  induction (fields d) as [|fd l IHl]; intros Hp; [done|]. inversion_clear Hp as [|? ? (Hfix & _ & Hst) Hpl].
  cbn. rewrite !length_app. f_equal; [|by apply IHl]. unfold over. apply over_foot_length; [by apply length_addrs|].
  intros y y'. by apply elem_foot_length; [intros; apply IH|].
Qed.

(** [act] gets [items] and writes the source objects [fs] to [ft]; the pointers
    are the cells in [P], where the memory is that of the destination [md]. *)
Section Loads.
Context (md ms : mem) (P : Z -> Prop).
Definition loads (act : QEMUFile S -> mem -> option (Z * QEMUFile S * mem)) (items : list item)
    (ft fs : list Z) (sep : list Z -> Prop) : Prop :=
  forall f m tail, rinv f -> (forall y, P y -> m y = md y) -> sep tail ->
    rest remaining f = mjoin (item_bytes ext <$> items) ++ tail ->
    exists g, act f m = Some (0, g, write_cells ft (ms <$> fs) m) /\ rinv g /\
      rest remaining g = tail /\ last_error g = last_error f.

Lemma loads_nil : loads (fun f m => Some (0, f, m)) [] [] [] (fun _ => True).
Proof. intros f m tail Hf _ _ Hr. by exists f. Qed.
Lemma loads_seq act1 act2 i1 i2 ft1 ft2 fs1 fs2 sep1 sep2 :
  loads act1 i1 ft1 fs1 sep1 -> loads act2 i2 ft2 fs2 sep2 ->
  length ft1 = length fs1 -> (forall y, y ∈ ft1 -> ~ P y) ->
  loads (fun f m => '(r, f, m) ← act1 f m; if r <? 0 then Some (r, f, m) else act2 f m)
    (i1 ++ i2) (ft1 ++ ft2) (fs1 ++ fs2) (fun tail => sep1 (mjoin (item_bytes ext <$> i2) ++ tail) /\ sep2 tail).
Proof.
  intros H1 H2 Hl Hd f m tail Hf Hm [Hs1 Hs2] Hr. rewrite fmap_app, join_app, <- app_assoc in Hr.
  destruct (H1 f m _ Hf Hm Hs1 Hr) as (g & -> & Hg & Rg & Eg). cbn.
  destruct (H2 g (write_cells ft1 (ms <$> fs1) m) tail Hg) as (h & -> & Hh & Rh & Eh); [|done..|].
  - intros y Hy. rewrite write_cells_frame; [by apply Hm|]. intros Hin. by apply (Hd y).
  - exists h. rewrite fmap_app, write_cells_app by (by rewrite length_fmap). by rewrite Eh, Eg.
Qed.

Lemma load_list_spec rec srec frec seprec fd L L' :
  Forall2 (fun x x' => loads (fun f m => load_elem rops rec fd f m x (size fd)) (elem_items srec fd ms x')
    (elem_foot frec fd md x) (elem_foot frec fd ms x') (elem_sep seprec fd ms x') /\
    length (elem_foot frec fd md x) = length (elem_foot frec fd ms x')) L L' ->
  (forall y, y ∈ mjoin (elem_foot frec fd md <$> L) -> ~ P y) ->
  loads (load_list rec fd L) (mjoin (elem_items srec fd ms <$> L')) (mjoin (elem_foot frec fd md <$> L))
    (mjoin (elem_foot frec fd ms <$> L')) (elems_sep srec seprec fd ms L').
Proof.
  induction 1 as [|x x' L L' [Hx Hlen] HL IH]; intros Hd; [apply loads_nil|].
  cbn in Hd. apply (loads_seq (fun f m => load_elem rops rec fd f m x (size fd)) (load_list rec fd L)); [done| |done|].
  - apply IH. intros y Hy. apply Hd. set_solver.
  - intros y Hy. apply Hd. set_solver.
Qed.
End Loads.

Lemma subsection_load_none rec n d f m b tail : rinv f -> subsections d = [] -> rest remaining f = tail -> goes_on tail ->
  exists g, vmstate_subsection_load rops rec (Datatypes.S n) d f m b = Some (0, g, m) /\ rinv g /\
    rest remaining g = tail /\ last_error g = last_error f.
Proof.
  intros Hf _ Hr Ht. destruct tail as [|c k]; [done|].
  destruct (peek_byte_spec rops remaining f c k Hf Hr) as (g & E & Hg & Rg & _ & Eg).
  exists g. cbn [vmstate_subsection_load]. unfold peek_subsection. rewrite E. cbn in Ht.
  destruct (Z.eqb_spec c QEMU_VM_SUBSECTION); [done|]. by rewrite Rg.
Qed.

Lemma loads_ext md ms P act act' i ft fs sep :
  (forall f m, (forall y, P y -> m y = md y) -> act f m = act' f m) ->
  loads md ms P act' i ft fs sep -> loads md ms P act i ft fs sep.
Proof. intros He Hl f m tail Hf Hm Hs Hr. rewrite He by done. by apply Hl. Qed.

Lemma addrs_pairs fd m m' a a' : fixed_layout fd ->
  Forall2 (fun x x' => x ∈ addrs fd m a /\ x' ∈ addrs fd m' a') (addrs fd m a) (addrs fd m' a').
Proof.
  intros Hf. apply Forall2_same_length_lookup_2; [by apply length_addrs|].
  intros i x x' Hx Hx'. split; by eapply list_elem_of_lookup_2.
Qed.

(** A struct element loads through its description, a scalar through its info. *)
Lemma load_elem_spec n fd md ms P x x' :
  (forall d, plain n d -> fits n d ms x' -> (forall y, y ∈ ptrs n d md x -> P y) -> (forall y, y ∈ foot n d md x -> ~ P y) ->
    loads md ms P (fun f m => vmstate_load_state rops n d f m x (version_id d)) (saved n d ms x')
      (foot n d md x) (foot n d ms x') (separate n d ms x')) ->
  fixed_layout fd -> (VMS_STRUCT (flags fd) = true -> exists d', vmsd fd = Some d' /\ plain n d') ->
  elem_fits (fits n) fd ms x' -> (forall y, y ∈ elem_ptrs (ptrs n) fd md x -> P y) ->
  (forall y, y ∈ elem_foot (foot n) fd md x -> ~ P y) ->
  loads md ms P (fun f m => load_elem rops (vmstate_load_state rops n) fd f m x (size fd)) (elem_items (saved n) fd ms x')
    (elem_foot (foot n) fd md x) (elem_foot (foot n) fd ms x') (elem_sep (separate n) fd ms x').
Proof.
  intros IH Hfix Hst Hv Hp Hd. unfold load_elem, elem_items, elem_foot, elem_sep, elem_fits, elem_ptrs in *.
  destruct (VMS_STRUCT (flags fd)).
  - destruct Hst as (d' & E & Hd'); [done|]. rewrite E in *. by apply IH.
  - intros f m tail Hf Hm _ Hr. pose proof Hfix as (_ & _ & _ & _ & Hs).
    destruct (info_get_spec (info fd) f m ms x x' (size fd) tail Hf Hs Hv Hr) as (g & -> & H). by exists g.
Qed.

(** The elements of a field are loaded at addresses known beforehand. *)
Lemma load_fields_list rec fd l v f m md b : fixed_layout fd -> field_version fd <= v ->
  (VMS_POINTER (flags fd) = true -> m (b + offset fd) = md (b + offset fd)) ->
  load_fields rops rec (fd :: l) v f m b =
    ('(r, f, m) ← load_list rec fd (addrs fd md b) f m;
     if r <? 0 then Some (r, f, m) else load_fields rops rec l v f m b).
Proof.
  intros Hfix Hver Hm. cbn [load_fields]. unfold load_exists. pose proof Hfix as (_ & _ & _ & -> & _).
  destruct (Z.leb_spec (field_version fd) v); [|lia].
  rewrite field_size_fixed, load_elems_list, <- addrs_list by done. by rewrite (addrs_ext fd m md b).
Qed.
Lemma load_fields_spec n md ms P a b v l :
  (forall d x x', plain n d -> fits n d ms x' -> (forall y, y ∈ ptrs n d md x -> P y) -> (forall y, y ∈ foot n d md x -> ~ P y) ->
    loads md ms P (fun f m => vmstate_load_state rops n d f m x (version_id d)) (saved n d ms x')
      (foot n d md x) (foot n d ms x') (separate n d ms x')) ->
  Forall (fun fd => fixed_layout fd /\ field_version fd <= v /\
    (VMS_STRUCT (flags fd) = true -> exists d', vmsd fd = Some d' /\ plain n d')) l ->
  fields_fit (fits n) l ms a -> (forall y, y ∈ fields_ptrs (ptrs n) l md b -> P y) ->
  (forall y, y ∈ fields_foot (foot n) l md b -> ~ P y) ->
  loads md ms P (fun f m => load_fields rops (vmstate_load_state rops n) l v f m b) (fields_items (saved n) l ms a)
    (fields_foot (foot n) l md b) (fields_foot (foot n) l ms a) (fields_sep (saved n) (separate n) l ms a).
Proof.
  intros IH Hp Hv. induction Hp as [|fd l (Hfix & Hver & Hst) Hpl IHl]; intros HP HF; [apply loads_nil|].
  inversion_clear Hv as [|? ? Hfd Hvl]. unfold fields_ptrs, fields_foot in HP, HF. cbn in HP, HF.
  eapply (loads_ext _ _ _ _ (fun f m => '(r, f, m) ← load_list (vmstate_load_state rops n) fd (addrs fd md b) f m;
    if r <? 0 then Some (r, f, m) else load_fields rops (vmstate_load_state rops n) l v f m b)).
  { intros f m Hm. apply load_fields_list; [done|done|]. intros Hptr. apply Hm, HP. unfold field_ptrs. rewrite Hptr. set_solver. }
  apply (loads_seq md ms P (load_list (vmstate_load_state rops n) fd (addrs fd md b))).
  - apply (load_list_spec md ms P).
    + eapply Forall2_impl; [by apply (addrs_pairs fd md ms b a)|]. intros x x' [Hx Hx'].
      rewrite Forall_forall in Hfd. split.
      * apply load_elem_spec; auto.
        -- intros y Hy. apply HP. unfold field_ptrs, over. apply elem_of_app. left. apply elem_of_app. right.
           apply list_elem_of_join. eexists. split; [done|]. apply list_elem_of_fmap. eauto.
        -- intros y Hy. apply HF. unfold over. apply elem_of_app. left.
           apply list_elem_of_join. eexists. split; [done|]. apply list_elem_of_fmap. eauto.
      * apply elem_foot_length; [intros; by apply foot_length|done].
    + intros y Hy. apply HF. set_solver.
  - apply IHl; [done|..]; intros y Hy; [apply HP|apply HF]; set_solver.
  - unfold over. apply over_foot_length; [by apply length_addrs|].
    intros x x'. by apply elem_foot_length; [intros; apply foot_length|].
  - intros y Hy. apply HF. set_solver.
Qed.

Lemma load_spec n d md ms P a b : plain n d -> fits n d ms a -> (forall y, y ∈ ptrs n d md b -> P y) ->
  (forall y, y ∈ foot n d md b -> ~ P y) ->
  loads md ms P (fun f m => vmstate_load_state rops n d f m b (version_id d)) (saved n d ms a)
    (foot n d md b) (foot n d ms a) (separate n d ms a).
Proof.
  revert d a b. induction n as [|n IH]; intros d a b; [done|].
  cbn [plain fits ptrs foot saved separate]. intros (Hpre & Hpost & _ & Hsub & Hmin & Hmin' & Hp) Hv HP HF.
  intros f m tail Hf Hm [Hs Ht] Hr.
  destruct (load_fields_spec n md ms P a b (version_id d) (fields d)) with (f := f) (m := m) (tail := tail)
    as (g & E & Hg & Rg & Eg); auto.
  destruct (subsection_load_none (vmstate_load_state rops n) n d g (write_cells (fields_foot (foot n) (fields d) md b)
    (ms <$> fields_foot (foot n) (fields d) ms a) m) b tail Hg Hsub Rg Ht) as (h & Eh & Hh & Rh & Erh).
  exists h. cbn [vmstate_load_state]. destruct (Z.ltb_spec (version_id d) (version_id d)); [lia|].
  destruct (Z.ltb_spec (version_id d) (minimum_version_id_old d)); [lia|].
  destruct (Z.ltb_spec (version_id d) (minimum_version_id d)); [lia|].
  rewrite Hpre. change (truth 0) with false. cbn iota. rewrite E. cbn [mbind option_bind]. cbn iota beta.
  change (0 <? 0) with false. cbn iota. rewrite Eh. cbn [mbind option_bind]. cbn iota beta. rewrite Hpost.
  split; [done|]. by rewrite Erh, Eg.
Qed.

(** What the description lists, in its order. *)
Definition content (n : nat) d (m : mem) (a : Z) : list Z := m <$> foot n d m a.

(** The objects are found through the pointers only. *)
Lemma over_ext {A} fd m m' b (k k' : Z -> list A) : addrs fd m b = addrs fd m' b ->
  (forall x, x ∈ addrs fd m b -> k x = k' x) -> over fd m b k = over fd m' b k'.
Proof.
  intros Ha Hk. unfold over. rewrite <- Ha. f_equal. apply list_fmap_ext. intros i x Hx. apply Hk.
  by eapply list_elem_of_lookup_2.
Qed.
Lemma ptrs_agree n d m m' b fd : plain (Datatypes.S n) d -> (forall y, y ∈ ptrs (Datatypes.S n) d m b -> m y = m' y) ->
  fd ∈ fields d -> addrs fd m b = addrs fd m' b /\
    (VMS_STRUCT (flags fd) = true -> exists d', vmsd fd = Some d' /\ plain n d' /\
       forall x, x ∈ addrs fd m b -> forall y, y ∈ ptrs n d' m x -> m y = m' y).
Proof.
  cbn [plain ptrs]. intros (_ & _ & _ & _ & _ & _ & Hp) Hm Hfd.
  rewrite Forall_forall in Hp. destruct (Hp fd Hfd) as (Hfix & _ & Hst).
  assert (forall y, y ∈ field_ptrs (ptrs n) fd m b -> m y = m' y) as Hfp.
  { intros y Hy. apply Hm, list_elem_of_join. eexists. split; [done|]. apply list_elem_of_fmap. eauto. }
  split.
  - apply addrs_ext; [done|]. intros Hptr. apply Hfp. unfold field_ptrs. rewrite Hptr.
    apply elem_of_app. left. by apply list_elem_of_singleton.
  - intros Es. destruct Hst as (d' & E & Hd'); [done|]. exists d'. do 2 (split; [done|]). intros x Hx y Hy. apply Hfp.
    unfold field_ptrs. apply elem_of_app. right. unfold over. apply list_elem_of_join.
    exists (elem_ptrs (ptrs n) fd m x). split; [unfold elem_ptrs; by rewrite Es, E|]. apply list_elem_of_fmap. eauto.
Qed.
Lemma foot_ext n d m m' b : plain n d -> (forall y, y ∈ ptrs n d m b -> m y = m' y) -> foot n d m b = foot n d m' b.
Proof.
  revert d b. induction n as [|n IH]; intros d b; [done|]. intros Hp Hm. cbn [foot]. unfold fields_foot. f_equal.
  apply list_fmap_ext. intros i fd Hfd%list_elem_of_lookup_2. destruct (ptrs_agree n d m m' b fd Hp Hm Hfd) as [Ha Hst].
  apply over_ext; [done|]. intros x Hx. unfold elem_foot. destruct (VMS_STRUCT (flags fd)); [|done].
  destruct Hst as (d' & -> & Hd' & Hy); [done|]. by apply IH, Hy.
Qed.
Lemma ptrs_ext n d m m' b : plain n d -> (forall y, y ∈ ptrs n d m b -> m y = m' y) -> ptrs n d m b = ptrs n d m' b.
Proof.
  revert d b. induction n as [|n IH]; intros d b; [done|]. intros Hp Hm. cbn [ptrs]. unfold fields_ptrs. f_equal.
  apply list_fmap_ext. intros i fd Hfd%list_elem_of_lookup_2. destruct (ptrs_agree n d m m' b fd Hp Hm Hfd) as [Ha Hst].
  unfold field_ptrs. f_equal. apply over_ext; [done|]. intros x Hx. unfold elem_ptrs.
  destruct (VMS_STRUCT (flags fd)); [|done]. destruct Hst as (d' & -> & Hd' & Hy); [done|]. by apply IH, Hy.
Qed.

Lemma items_fit n d m a i : plain n d -> i ∈ saved n d m a -> item_fits ext i.
Proof.
  revert d a. induction n as [|n IH]; intros d a; [done|]. cbn [plain saved]. intros (_ & _ & _ & _ & _ & _ & Hp).
  unfold fields_items, over. intros (l & Hi & (fd & -> & Hfd)%list_elem_of_fmap)%list_elem_of_join.
  apply list_elem_of_join in Hi as (l' & Hi & (x & -> & Hx)%list_elem_of_fmap).
  rewrite Forall_forall in Hp. pose proof (Hp fd Hfd) as Hfd'. clear Hp.
  destruct Hfd' as ((_ & _ & _ & _ & Hs) & _ & Hst). unfold elem_items in Hi.
  destruct (VMS_STRUCT (flags fd)).
  - destruct Hst as (d' & E & Hd'); [done|]. rewrite E in Hi. by apply (IH d' x).
  - destruct (info fd); cbn in Hi; try (apply list_elem_of_singleton in Hi as ->; cbn; try done).
    + rewrite length_bytes_at. lia.
    + by apply not_elem_of_nil in Hi.
Qed.

(** Loading from a stream that starts with what was saved. *)
Lemma load_content n d ms md a b f tail : plain n d -> fits n d ms a ->
  separate n d ms a tail -> NoDup (foot n d md b) -> (forall y, y ∈ ptrs n d md b -> y ∉ foot n d md b) ->
  rinv f -> rest remaining f = mjoin (item_bytes ext <$> saved n d ms a) ++ tail ->
  exists g m', vmstate_load_state rops n d f md b (version_id d) = Some (0, g, m') /\
    rinv g /\ rest remaining g = tail /\ last_error g = last_error f /\
    content n d m' b = content n d ms a /\ (forall x, x ∉ foot n d md b -> m' x = md x).
Proof.
  intros Hp Hv Hsep Hnd Hd Hf Hr.
  destruct (load_spec n d md ms (.∈ ptrs n d md b) a b Hp Hv) with (f := f) (m := md) (tail := tail)
    as (g & E & Hg & Rg & Er); auto; [intros y Hy Hy'; by apply (Hd y)|].
  exists g. eexists. do 4 (split; [done|]).
  assert (forall x, x ∉ foot n d md b -> write_cells (foot n d md b) (ms <$> foot n d ms a) md x = md x) as Hfr
    by (intros; by apply write_cells_frame).
  split; [|done]. unfold content. set (m' := write_cells _ _ _) in *.
  assert (foot n d m' b = foot n d md b) as ->.
  { symmetry. apply foot_ext; [done|]. intros y Hy. symmetry. apply Hfr. by apply Hd. }
  apply write_cells_read; [done|]. rewrite length_fmap. by apply foot_length.
Qed.

(** What the backend has received after a save and the items that follow. *)
Lemma saved_stream (written : S -> list Z) (w : S) n d m a (tail : list item) :
  Sink wops written -> plain n d -> fits n d m a -> Forall (item_fits ext) tail -> written w = [] ->
  exists f, vmstate_save_state wops ext n d (qemu_fopen_ops w) m a = Some (f, m) /\
    written (opaque (qemu_fflush wops ext (foldl (put_item wops ext) f tail))) =
      mjoin (item_bytes ext <$> saved n d m a) ++ mjoin (item_bytes ext <$> tail).
Proof.
  intros HS Hp Hv Ht Hw. eexists. split; [by apply save_spec|]. rewrite <- foldl_app.
  assert (Forall item_ok (saved n d m a ++ tail)) as Hok.
  { apply Forall_forall. intros i Hi. assert (item_fits ext i) as Hf.
    - apply elem_of_app in Hi as [Hi|Hi]; [by eapply items_fit|]. rewrite Forall_forall in Ht. by apply Ht.
    - destruct i; cbn in *; intuition lia. }
  destruct (fopen_ready wops ext written w) as [Hf Ef].
  destruct (put_items_spec wops ext written _ _ Hf Hok) as [_ Ep].
  by rewrite (fflush_written wops ext written), Ep, Ef, Hw, fmap_app, join_app.
Qed.

(** C1. A device with a plain description, saved with [vmstate_save_state] and
    loaded with [vmstate_load_state] into another device of the same
    description, through any backend that keeps the bytes: loading succeeds
    without error, every object the description lists, at any nesting and
    through pointers, gets the value it had, and no other memory of the
    destination changes.

    A plain description, and each one nested in it, has no hooks, no
    subsections and no field that a test or an older version leaves out; its
    fields are scalars, buffers of fixed size, timers and structures, single,
    in arrays of fixed length or behind a pointer, not in arrays whose length
    is read from memory nor in arrays of pointers; and none is of the kinds
    that are compared with the destination ([_equal], [_le]) or skipped
    ([unused_buffer]).  The values fit the types of their fields; the objects
    of the destination and the pointers to them do not overlap; and what
    follows in the stream, after the device ([tail]) and after each nested
    structure, does not begin with the byte 5 that begins a subsection. *)
Theorem vmstate_roundtrip (written : S -> list Z) (w r : S) n d ms md a b (tail : list item) :
  Sink wops written -> plain n d -> fits n d ms a -> Forall (item_fits ext) tail ->
  separate n d ms a (mjoin (item_bytes ext <$> tail)) ->
  NoDup (foot n d md b) -> (forall y, y ∈ ptrs n d md b -> y ∉ foot n d md b) -> written w = [] ->
  exists f, vmstate_save_state wops ext n d (qemu_fopen_ops w) ms a = Some (f, ms) /\
    (remaining r = written (opaque (qemu_fflush wops ext (foldl (put_item wops ext) f tail))) ->
     exists g m', vmstate_load_state rops n d (qemu_fopen_ops r) md b (version_id d) = Some (0, g, m') /\
       last_error g = 0 /\ content n d m' b = content n d ms a /\
       (forall x, x ∉ foot n d md b -> m' x = md x)).
Proof.
  intros HS Hp Hv Ht Hsep Hnd Hd Hw.
  destruct (saved_stream written w n d ms a tail HS Hp Hv Ht Hw) as (f & Ef & Hf). exists f. split; [done|]. intros Hr.
  destruct (fopen_reader remaining r) as [Hg Eg]. rewrite Hr, Hf in Eg.
  destruct (load_content n d ms md a b (qemu_fopen_ops r) _ Hp Hv Hsep Hnd Hd Hg Eg) as (g & m' & E & _ & _ & Er & H).
  exists g, m'. by rewrite Er.
Qed.
End RoundTrip.
End VmStateProps.
