(* ===== verification/Migrate.v ===== *)
(** * Migration of the devices of the board

    The descriptions of the timer, the real-time timer, the power controller
    and the SPI controller, and the hand-written handlers of the display and
    of the card slave.  Structures are laid out in declaration order in cells
    of eight bytes; only the distinctness of the offsets matters. *)

From Stdlib Require Import String Ascii.
From stdpp Require Import sets.
From S2P Require Import Prelude Irq Ptimer Rtt Pmc Ssi Ssd0323 Block Sd SsiSd QemuFile QemuFileProps VmState VmStateProps.

Module Migrate.
Import QemuFile QemuFileProps VmState VmStateProps.
#[local] Existing Instances Pmc.eta_pmc Ssd0323.eta_ssd SsiSd.eta_ssi_sd.

(** ** Descriptions *)

Definition QEMU_VM_EOF := 0x00.
Definition cname (s : string) : list Z := (fun c => Z.of_N (N_of_ascii c)) <$> list_ascii_of_string s.

Section Descriptions.
Context {S : Type}.
Implicit Types (f : QEMUFile S).

Definition VMSTATE_SINGLE (I : VMStateInfo) (sz off : Z) : VMStateField S :=
  mkField off sz 0 0 0 0 I VMS_SINGLE None 0 None.
Definition VMSTATE_UINT8 := VMSTATE_SINGLE info_uint8 1.
Definition VMSTATE_UINT16 := VMSTATE_SINGLE info_uint16 2.
Definition VMSTATE_UINT32 := VMSTATE_SINGLE info_uint32 4.
Definition VMSTATE_INT32 := VMSTATE_SINGLE info_int32 4.
Definition VMSTATE_UINT64 := VMSTATE_SINGLE info_uint64 8.
Definition VMSTATE_INT64 := VMSTATE_SINGLE info_int64 8.
Definition pointer_flags (is_struct : bool) : VMStateFlags :=
  mkFlags true false is_struct false false false false false false false.
Definition VMSTATE_TIMER (off : Z) : VMStateField S :=
  mkField off 8 0 0 0 0 info_timer (pointer_flags false) None 0 None.
Definition version_1 (nm : list Z) (l : list (VMStateField S)) : VMStateDescription S :=
  mkVmsd nm 1 1 1 None None None None l [].

Definition vmstate_ptimer : VMStateDescription S :=
  version_1 (cname "ptimer") [
    VMSTATE_UINT8 0 (* enabled *); VMSTATE_UINT64 8 (* limit *); VMSTATE_UINT64 16 (* delta *);
    VMSTATE_UINT32 24 (* period_frac *); VMSTATE_INT64 32 (* period *);
    VMSTATE_INT64 40 (* last_event *); VMSTATE_INT64 48 (* next_event *); VMSTATE_TIMER 64 (* timer *)].
Definition VMSTATE_PTIMER (off : Z) : VMStateField S :=
  mkField off 8 0 0 0 0 info_uint8 (pointer_flags true) (Some vmstate_ptimer) 1 None.

Definition vmstate_rtt : VMStateDescription S :=
  version_1 (cname "rtt_ssp") [
    VMSTATE_UINT32 0 (* mr *); VMSTATE_UINT32 8 (* ar *); VMSTATE_UINT32 16 (* vr *);
    VMSTATE_UINT32 24 (* sr *); VMSTATE_PTIMER 32 (* timer *)].

Definition vmstate_pmc : VMStateDescription S :=
  version_1 (cname "pmc_ssp") [
    VMSTATE_UINT32 0 (* scer *); VMSTATE_UINT32 8 (* scdr *); VMSTATE_UINT32 16 (* scsr *);
    VMSTATE_UINT32 24 (* pcer[0] *); VMSTATE_UINT32 40 (* pcdr[0] *); VMSTATE_UINT32 56 (* pcsr[0] *);
    VMSTATE_UINT32 72 (* ckgr_mor *); VMSTATE_UINT32 80 (* ckgr_mcfr *); VMSTATE_UINT32 88 (* ckgr_pllar *);
    VMSTATE_UINT32 96 (* ckgr_pllbr *); VMSTATE_UINT32 104 (* mckr *); VMSTATE_UINT32 112 (* usb *);
    VMSTATE_UINT32 120 (* pck[0] *); VMSTATE_UINT32 128 (* pck[1] *); VMSTATE_UINT32 136 (* pck[2] *);
    VMSTATE_UINT32 144 (* ier *); VMSTATE_UINT32 152 (* idr *); VMSTATE_UINT32 160 (* sr *);
    VMSTATE_UINT32 168 (* imr *); VMSTATE_UINT32 176 (* fsmr *); VMSTATE_UINT32 184 (* fspr *);
    VMSTATE_UINT32 192 (* focr *); VMSTATE_UINT32 200 (* wpmr *); VMSTATE_UINT32 208 (* wpsr *);
    VMSTATE_UINT32 32 (* pcer[1] *); VMSTATE_UINT32 48 (* pcdr[1] *); VMSTATE_UINT32 64 (* pcsr[1] *);
    VMSTATE_UINT32 216 (* ocr *); VMSTATE_PTIMER 264 (* timer *)].
(** indice, startup, plla_count and pllb_count follow ocr. *)
Definition pmc_counters : list Z := [224; 232; 240; 248].

Definition vmstate_spi : VMStateDescription S :=
  version_1 (cname "spi_ssp") [
    VMSTATE_UINT32 0 (* cr *); VMSTATE_UINT32 8 (* mr *); VMSTATE_UINT32 16 (* rdr *);
    VMSTATE_UINT32 24 (* tdr *); VMSTATE_UINT32 32 (* sr *); VMSTATE_UINT32 40 (* ier *);
    VMSTATE_UINT32 48 (* idr *); VMSTATE_UINT32 56 (* imr *); VMSTATE_UINT32 64 (* csr[0] *);
    VMSTATE_UINT32 72 (* csr[1] *); VMSTATE_UINT32 80 (* csr[2] *); VMSTATE_UINT32 88 (* csr[3] *);
    VMSTATE_UINT32 96 (* wpmr *); VMSTATE_UINT32 104 (* wpsr *);
    VMSTATE_INT32 112 (* tx_fifo_head *); VMSTATE_INT32 120 (* rx_fifo_head *);
    VMSTATE_INT32 128 (* tx_fifo_len *); VMSTATE_INT32 136 (* rx_fifo_len *);
    VMSTATE_UINT16 144 (* tx_fifo[0] *); VMSTATE_UINT16 208 (* rx_fifo[0] *);
    VMSTATE_UINT16 152 (* tx_fifo[1] *); VMSTATE_UINT16 216 (* rx_fifo[1] *);
    VMSTATE_UINT16 160 (* tx_fifo[2] *); VMSTATE_UINT16 224 (* rx_fifo[2] *);
    VMSTATE_UINT16 168 (* tx_fifo[3] *); VMSTATE_UINT16 232 (* rx_fifo[3] *);
    VMSTATE_UINT16 176 (* tx_fifo[4] *); VMSTATE_UINT16 240 (* rx_fifo[4] *);
    VMSTATE_UINT16 184 (* tx_fifo[5] *); VMSTATE_UINT16 248 (* rx_fifo[5] *);
    VMSTATE_UINT16 192 (* tx_fifo[6] *); VMSTATE_UINT16 256 (* rx_fifo[6] *);
    VMSTATE_UINT16 200 (* tx_fifo[7] *); VMSTATE_UINT16 264 (* rx_fifo[7] *)].

Definition plain_field (n : nat) (fd : VMStateField S) : Prop :=
  fixed_layout fd /\ field_version fd <= 1 /\
  (VMS_STRUCT (flags fd) = true -> exists d', vmsd fd = Some d' /\ plain n d').
Lemma single_plain n I sz off : 0 <= sz <= 8 -> plain_field n (VMSTATE_SINGLE I sz off).
Proof. intros. repeat split; cbn; try (done || lia). unfold IO_BUF_SIZE. lia. Qed.
Lemma timer_plain n off : plain_field n (VMSTATE_TIMER off).
Proof. repeat split; cbn; done || lia. Qed.
Lemma version_1_plain n nm l : Forall (plain_field n) l -> plain (Datatypes.S n) (version_1 nm l).
Proof. intros Hl. do 4 (split; [done|]). split; [cbn; lia|]. split; [cbn; lia|]. done. Qed.

(** Fields of a description are plain one by one. *)
Ltac fields_plain :=
  apply version_1_plain; repeat (apply Forall_cons; split); try apply Forall_nil_2;
  try apply timer_plain;
  unfold VMSTATE_UINT8, VMSTATE_UINT16, VMSTATE_UINT32, VMSTATE_INT32, VMSTATE_UINT64, VMSTATE_INT64;
  try (apply single_plain; lia).

Lemma vmstate_ptimer_plain n : plain (Datatypes.S n) vmstate_ptimer.
Proof. unfold vmstate_ptimer. fields_plain. Qed.
Lemma ptimer_field_plain n off : plain_field (Datatypes.S n) (VMSTATE_PTIMER off).
Proof.
  split; [repeat split; cbn; done || lia|]. split; [cbn; lia|]. intros _. eexists. split; [done|]. apply vmstate_ptimer_plain.
Qed.
Lemma vmstate_rtt_plain : plain 2 vmstate_rtt.
Proof. unfold vmstate_rtt. fields_plain. apply ptimer_field_plain. Qed.
Lemma vmstate_pmc_plain : plain 2 vmstate_pmc.
Proof. unfold vmstate_pmc. fields_plain. apply ptimer_field_plain. Qed.
Lemma vmstate_spi_plain : plain 1 vmstate_spi.
Proof. unfold vmstate_spi. fields_plain. Qed.

(** One object per field: its value fits if it has the range of its type. *)
Lemma single_fits n I sz off m b : info_fits I (m (b + off)) ->
  Forall (elem_fits (fits n) (VMSTATE_SINGLE I sz off) m) (addrs (VMSTATE_SINGLE I sz off) m b).
Proof.
  intros H. unfold addrs. change (Z.to_nat _) with 1%nat. cbn [seq fmap list_fmap].
  apply Forall_singleton. unfold elem_fits. cbn. by rewrite Z.mul_0_r, Z.add_0_r.
Qed.
Lemma timer_fits n off m b : info_fits info_timer (m (m (b + off))) ->
  Forall (elem_fits (fits n) (VMSTATE_TIMER off) m) (addrs (VMSTATE_TIMER off) m b).
Proof.
  intros H. unfold addrs. change (Z.to_nat _) with 1%nat. cbn [seq fmap list_fmap].
  apply Forall_singleton. unfold elem_fits. cbn [VMSTATE_TIMER flags VMS_STRUCT pointer_flags info].
  replace (base_addr _ m b + _) with (m (b + off)); [done|]. cbn. lia.
Qed.
Lemma ptimer_fits n off m b : fits n vmstate_ptimer m (m (b + off)) ->
  Forall (elem_fits (fits n) (VMSTATE_PTIMER off) m) (addrs (VMSTATE_PTIMER off) m b).
Proof.
  intros H. unfold addrs. change (Z.to_nat _) with 1%nat. cbn [seq fmap list_fmap].
  apply Forall_singleton. unfold elem_fits. cbn [VMSTATE_PTIMER flags VMS_STRUCT pointer_flags info vmsd].
  replace (base_addr _ m b + _) with (m (b + off)); [done|]. cbn. lia.
Qed.

(** The cells of a timer object at [p]. *)
Definition ptimer_cells (m : mem) (p : Z) : list Z := [p; p + 8; p + 16; p + 24; p + 32; p + 40; p + 48; m (p + 64)].
Definition pmc_offsets : list Z :=
  [0; 8; 16; 24; 40; 56; 72; 80; 88; 96; 104; 112; 120; 128; 136; 144; 152; 160; 168; 176;
   184; 192; 200; 208; 32; 48; 64; 216].
Definition pmc_cells (b : Z) : list Z := (fun k => b + k) <$> pmc_offsets.
Lemma pmc_foot m b : foot 2 vmstate_pmc m b = pmc_cells b ++ ptimer_cells m (m (b + 264)).
Proof.
  cbv -[Z.add Z.mul].
  rewrite !Z.mul_0_r, !Z.add_0_r. done.
Qed.
Lemma pmc_ptrs m b : ptrs 2 vmstate_pmc m b = [b + 264; m (b + 264) + 64].
Proof.
  cbv -[Z.add Z.mul].
  rewrite !Z.mul_0_r, !Z.add_0_r. done.
Qed.
End Descriptions.

(** ** The power controller *)

Definition ptimer_vals (s : Ptimer.ptimer_state) : list Z :=
  [Ptimer.enabled s; Ptimer.limit s; Ptimer.delta s; Ptimer.period_frac s; Ptimer.period s;
   Ptimer.last_event s; Ptimer.next_event s; from_option id (-1) (Ptimer.timer s)].
Definition pmc_vals (s : Pmc.pmc_state) : list Z :=
  [Pmc.scer s; Pmc.scdr s; Pmc.scsr s; aget 0 (Pmc.pcer s) 0; aget 0 (Pmc.pcdr s) 0; aget 0 (Pmc.pcsr s) 0;
   Pmc.ckgr_mor s; Pmc.ckgr_mcfr s; Pmc.ckgr_pllar s; Pmc.ckgr_pllbr s; Pmc.mckr s; Pmc.usb s;
   aget 0 (Pmc.pck s) 0; aget 0 (Pmc.pck s) 1; aget 0 (Pmc.pck s) 2; Pmc.ier s; Pmc.idr s; Pmc.sr s; Pmc.imr s;
   Pmc.fsmr s; Pmc.fspr s; Pmc.focr s; Pmc.wpmr s; Pmc.wpsr s; aget 0 (Pmc.pcer s) 1; aget 0 (Pmc.pcdr s) 1;
   aget 0 (Pmc.pcsr s) 1; Pmc.ocr s] ++ ptimer_vals (Pmc.timer s).
Definition counter_vals (s : Pmc.pmc_state) : list Z :=
  [Pmc.indice s; Pmc.startup s; Pmc.plla_count s; Pmc.pllb_count s].
Definition counter_cells (b : Z) : list Z := (fun k => b + k) <$> pmc_counters.

Section Devices.
Context {S : Type} (wops rops : QEMUFileOps S) (ext : Z -> list Z) (written remaining : S -> list Z).

(** The object at [b] is [s]. *)
Definition pmc_at (m : mem) (b : Z) (s : Pmc.pmc_state) : Prop :=
  content 2 (vmstate_pmc (S := S)) m b = pmc_vals s /\ m <$> counter_cells b = counter_vals s.
(** The object at [b], its timer object and its timer do not overlap. *)
Definition pmc_disjoint (m : mem) (b : Z) : Prop :=
  let p := m (b + 264) in let q := m (p + 64) in
  (p + 72 <= b \/ b + 272 <= p) /\ (q < b \/ b + 272 <= q) /\ (q < p \/ p + 72 <= q).

Lemma pmc_layout m b : pmc_disjoint m b ->
  NoDup (foot 2 (vmstate_pmc (S := S)) m b) /\
  (forall y, y ∈ ptrs 2 (vmstate_pmc (S := S)) m b -> y ∉ foot 2 (vmstate_pmc (S := S)) m b) /\
  (forall y, y ∈ counter_cells b -> y ∉ foot 2 (vmstate_pmc (S := S)) m b).
Proof.
  unfold pmc_disjoint. intros (H1 & H2 & H3). rewrite pmc_foot, pmc_ptrs.
  set (p := m (b + 264)) in *. unfold ptimer_cells. set (q := m (p + 64)) in *. clearbody p q.
  assert (forall y, y ∈ pmc_cells b -> exists k, y = b + k /\ 0 <= k < 224) as Hc.
  { intros y (k & -> & Hk)%list_elem_of_fmap. exists k. split; [done|]. revert k Hk.
    apply Forall_forall, (bool_decide_unpack _). by vm_compute. }
  split; [|split].
  - apply NoDup_app. split; [|split].
    + apply NoDup_fmap_2; [intros ? ?; lia|]. apply (bool_decide_unpack _). by vm_compute.
    + intros y (k & -> & Hk)%Hc. rewrite !elem_of_cons, elem_of_nil. lia.
    + repeat (apply NoDup_cons; split; [rewrite ?elem_of_cons, elem_of_nil; lia|]). apply NoDup_nil_2.
  - intros y Hy. rewrite elem_of_app. intros [(k & -> & Hk)%Hc|Hq];
      rewrite !elem_of_cons, elem_of_nil in *; lia.
  - intros y (k & -> & Hk)%list_elem_of_fmap. unfold pmc_counters in Hk. rewrite elem_of_app.
    intros [(k' & Ek & Hk')%Hc|Hq]; rewrite !elem_of_cons, elem_of_nil in *; lia.
Qed.

Lemma goes_on_eof : goes_on (mjoin (item_bytes ext <$> [IByte QEMU_VM_EOF])).
Proof. done. Qed.
Lemma ptimer_separate n m p tail : goes_on tail -> separate ext (Datatypes.S n) (vmstate_ptimer (S := S)) m p tail.
Proof.
  intros Ht. split; [|done]. rewrite <- (app_nil_r (fields vmstate_ptimer)). apply fields_sep_scalars; [|done].
  repeat (apply Forall_cons; split; [done|]). apply Forall_nil_2.
Qed.
Lemma pmc_separate m b tail : goes_on tail -> separate ext 2 (vmstate_pmc (S := S)) m b tail.
Proof.
  intros Ht. split; [|done]. rewrite <- (take_drop 28 (fields vmstate_pmc)). apply fields_sep_scalars.
  - cbn [take fields vmstate_pmc version_1]. repeat (apply Forall_cons; split; [done|]). apply Forall_nil_2.
  - cbn [drop fields vmstate_pmc version_1 fields_sep]. split; [|done]. unfold addrs.
    change (Z.to_nat (n_elems (VMSTATE_PTIMER 264) m b)) with 1%nat. cbn [seq fmap list_fmap elems_sep].
    split; [|done]. by apply ptimer_separate.
Qed.

(** A power controller saved and loaded into another one has all its
    registers and its timer; its progress counters (start-up and the two PLLs)
    and its pending changes are those of the destination. *)
Theorem pmc_migrates (w r : S) (ms md : mem) (a b : Z) (s s0 : Pmc.pmc_state) :
  Sink wops written -> Source rops remaining -> written w = [] ->
  pmc_at ms a s -> fits 2 (vmstate_pmc (S := S)) ms a -> pmc_at md b s0 -> pmc_disjoint md b ->
  exists f, vmstate_save_state wops ext 2 vmstate_pmc (qemu_fopen_ops w) ms a = Some (f, ms) /\
    (remaining r = written (opaque (qemu_fflush wops ext (qemu_put_byte wops ext f QEMU_VM_EOF))) ->
     exists g m', vmstate_load_state rops 2 vmstate_pmc (qemu_fopen_ops r) md b 1 = Some (0, g, m') /\
       last_error g = 0 /\
       pmc_at m' b s.[Pmc.indice := Pmc.indice s0].[Pmc.startup := Pmc.startup s0]
                    .[Pmc.plla_count := Pmc.plla_count s0].[Pmc.pllb_count := Pmc.pllb_count s0]).
Proof.
  intros HS HR Hw [Hs _] Hv [_ Hc] Hd. destruct (pmc_layout md b Hd) as (Hnd & Hp & Hcnt).
  destruct (saved_stream wops rops ext remaining written w 2 vmstate_pmc ms a [IByte QEMU_VM_EOF]) as (f & Ef & Hf);
    [done|apply vmstate_pmc_plain|done|by repeat constructor|done|].
  exists f. split; [done|]. intros Hr. destruct (fopen_reader remaining r) as [Hg Eg].
  change (qemu_put_byte wops ext f QEMU_VM_EOF) with (foldl (put_item wops ext) f [IByte QEMU_VM_EOF]) in Hr.
  rewrite Hr, Hf in Eg.
  destruct (load_content rops ext remaining 2 vmstate_pmc ms md a b (qemu_fopen_ops r) _ vmstate_pmc_plain Hv
    (pmc_separate ms a _ goes_on_eof) Hnd Hp Hg Eg) as (g & m' & E & _ & _ & Er & Hcont & Hfr).
  exists g, m'. split; [done|]. split; [by rewrite Er|]. split; [by rewrite Hcont, Hs|].
  transitivity (md <$> counter_cells b); [|by rewrite Hc]. apply list_fmap_ext. intros i x Hx. apply Hfr, Hcnt. by eapply list_elem_of_lookup_2.
Qed.
End Devices.

(** A controller at 0 whose timer object is at 1000 and whose timer is at 2000. *)
Definition demo_mem (mor started : Z) : mem :=
  upd (upd (upd (upd (upd (fun _ => 0) 264 1000) 1064 2000) 2000 (-1)) 72 mor) 232 started.
Definition demo_pmc (mor started : Z) : Pmc.pmc_state :=
  Pmc.pmc_zero.[Pmc.ckgr_mor := mor].[Pmc.startup := started].
Lemma demo_fits : fits 2 (vmstate_pmc (S := list Z)) (demo_mem 0x37000b 3) 0.
Proof.
  do 28 (apply Forall_cons; split; [apply (single_fits 1); cbn [info_fits]; apply (bool_decide_unpack _); by vm_compute|]).
  apply Forall_cons. split; [|apply Forall_nil_2]. apply (ptimer_fits 1).
  do 7 (apply Forall_cons; split; [apply (single_fits 0); cbn [info_fits]; apply (bool_decide_unpack _); by vm_compute|]).
  apply Forall_cons. split; [|apply Forall_nil_2]. apply (timer_fits 0). cbn [info_fits].
  apply (bool_decide_unpack _). by vm_compute.
Qed.
Lemma pmc_migrates_witness : exists f,
  vmstate_save_state Pipe.write_ops (fun _ => []) 2 vmstate_pmc (qemu_fopen_ops []) (demo_mem 0x37000b 3) 0 =
    Some (f, demo_mem 0x37000b 3) /\
  exists g m', vmstate_load_state (Pipe.read_ops 7) 2 vmstate_pmc (qemu_fopen_ops
      (opaque (qemu_fflush Pipe.write_ops (fun _ => []) (qemu_put_byte Pipe.write_ops (fun _ => []) f QEMU_VM_EOF))))
      (demo_mem 0 0) 0 1 = Some (0, g, m') /\ last_error g = 0 /\ pmc_at (S := list Z) m' 0 (demo_pmc 0x37000b 0).
Proof.
  destruct (pmc_migrates Pipe.write_ops (Pipe.read_ops 7) (fun _ => []) id id []
    (opaque (qemu_fflush Pipe.write_ops (fun _ => []) (qemu_put_byte Pipe.write_ops (fun _ => [])
      (from_option fst (qemu_fopen_ops []) (vmstate_save_state Pipe.write_ops (fun _ => []) 2 vmstate_pmc
         (qemu_fopen_ops []) (demo_mem 0x37000b 3) 0)) QEMU_VM_EOF)))
    (demo_mem 0x37000b 3) (demo_mem 0 0) 0 0 (demo_pmc 0x37000b 3) (demo_pmc 0 0)) as (f & E & H).
  - apply Pipe.write_sink.
  - by apply Pipe.read_source.
  - reflexivity.
  - split; by vm_compute.
  - apply demo_fits.
  - split; by vm_compute.
  - unfold pmc_disjoint. change (demo_mem 0 0 (0 + 264)) with 1000. cbv zeta.
    change (demo_mem 0 0 (1000 + 64)) with 2000. lia.
  - exists f. split; [exact E|]. rewrite E in H. apply H. reflexivity.
Defined.

(** A real-time timer at 0 with its timer object at 1000 and its timer at 2000. *)
Definition demo_rtt (vr expiry : Z) : mem :=
  upd (upd (upd (upd (fun _ => 0) 32 1000) 1064 2000) 2000 expiry) 16 vr.
Lemma demo_rtt_fits : fits 2 (vmstate_rtt (S := list Z)) (demo_rtt 0x1234 500) 0.
Proof.
  do 4 (apply Forall_cons; split; [apply (single_fits 1); cbn [info_fits]; apply (bool_decide_unpack _); by vm_compute|]).
  apply Forall_cons. split; [|apply Forall_nil_2]. apply (ptimer_fits 1).
  do 7 (apply Forall_cons; split; [apply (single_fits 0); cbn [info_fits]; apply (bool_decide_unpack _); by vm_compute|]).
  apply Forall_cons. split; [|apply Forall_nil_2]. apply (timer_fits 0). cbn [info_fits].
  apply (bool_decide_unpack _). by vm_compute.
Qed.
Lemma rtt_separate m b tail : goes_on tail -> separate (fun _ => []) 2 (vmstate_rtt (S := list Z)) m b tail.
Proof.
  intros Ht. split; [|done]. rewrite <- (take_drop 4 (fields vmstate_rtt)). apply fields_sep_scalars.
  - cbn [take fields vmstate_rtt version_1]. repeat (apply Forall_cons; split; [done|]). apply Forall_nil_2.
  - cbn [drop fields vmstate_rtt version_1 fields_sep]. split; [|done]. unfold addrs.
    change (Z.to_nat (n_elems (VMSTATE_PTIMER 32) m b)) with 1%nat. cbn [seq fmap list_fmap elems_sep].
    split; [|done]. by apply (ptimer_separate (fun _ => [])).
Qed.
Lemma vmstate_roundtrip_witness : exists f,
  vmstate_save_state Pipe.put_ops (fun _ => []) 2 vmstate_rtt (qemu_fopen_ops []) (demo_rtt 0x1234 500) 0 =
    Some (f, demo_rtt 0x1234 500) /\
  exists g m', vmstate_load_state (Pipe.read_ops 5) 2 vmstate_rtt (qemu_fopen_ops
      (opaque (qemu_fflush Pipe.put_ops (fun _ => []) (qemu_put_byte Pipe.put_ops (fun _ => []) f QEMU_VM_EOF))))
      (demo_rtt 0 (-1)) 0 1 = Some (0, g, m') /\ last_error g = 0 /\
    content 2 (vmstate_rtt (S := list Z)) m' 0 = [0; 0; 0x1234; 0; 0; 0; 0; 0; 0; 0; 0; 500].
Proof.
  destruct (vmstate_roundtrip Pipe.put_ops (Pipe.read_ops 5) (fun _ => []) id (Source0 := Pipe.read_source 5 eq_refl) id []
    (opaque (qemu_fflush Pipe.put_ops (fun _ => []) (qemu_put_byte Pipe.put_ops (fun _ => [])
      (from_option fst (qemu_fopen_ops []) (vmstate_save_state Pipe.put_ops (fun _ => []) 2 vmstate_rtt
         (qemu_fopen_ops []) (demo_rtt 0x1234 500) 0)) QEMU_VM_EOF)))
    2 vmstate_rtt (demo_rtt 0x1234 500) (demo_rtt 0 (-1)) 0 0 [IByte QEMU_VM_EOF]) as (f & E & H).
  - apply Pipe.put_sink.
  - apply vmstate_rtt_plain.
  - apply demo_rtt_fits.
  - by repeat constructor.
  - by apply rtt_separate.
  - apply (bool_decide_unpack _). by vm_compute.
  - apply Forall_forall, (bool_decide_unpack _). by vm_compute.
  - reflexivity.
  - exists f. split; [exact E|]. rewrite E in H. destruct H as (g & m' & El & Er & Hc & _); [reflexivity|].
    exists g, m'. split; [exact El|]. split; [exact Er|]. rewrite Hc. by vm_compute.
Defined.
End Migrate.
