(* ===== verification/Handlers.v ===== *)
(** * The save and load handlers of the bus slaves

    [ssd0323_save] and [ssd0323_load] of hw/display/ssd0323.c, [ssi_sd_save]
    and [ssi_sd_load] of hw/sd/ssi-sd.c: hand-written sequences of puts and
    gets over a stream. *)

From S2P Require Import Prelude Ssi Ssd0323 Block Sd SsiSd QemuFile QemuFileProps VmState.

Module Handlers.
Import QemuFile QemuFileProps.
#[local] Existing Instances Ssd0323.eta_ssd SsiSd.eta_ssi_sd.

Definition ssd_mode_num (m : Ssd0323.ssd0323_mode) : Z :=
  match m with Ssd0323.SSD0323_CMD => 0 | Ssd0323.SSD0323_DATA => 1 | Ssd0323.SSD0323_OTHER v => v end.
Definition ssd_mode_of (v : Z) : Ssd0323.ssd0323_mode :=
  if v =? 0 then Ssd0323.SSD0323_CMD else if v =? 1 then Ssd0323.SSD0323_DATA else Ssd0323.SSD0323_OTHER v.
Definition sd_mode_num (m : SsiSd.ssi_sd_mode) : Z :=
  match m with
  | SsiSd.SSI_SD_CMD => 0 | SsiSd.SSI_SD_CMDARG => 1 | SsiSd.SSI_SD_RESPONSE => 2
  | SsiSd.SSI_SD_DATA_START => 3 | SsiSd.SSI_SD_DATA_READ => 4 | SsiSd.SSI_SD_OTHER v => v
  end.
Definition sd_mode_of (v : Z) : SsiSd.ssi_sd_mode :=
  if v =? 0 then SsiSd.SSI_SD_CMD else if v =? 1 then SsiSd.SSI_SD_CMDARG else if v =? 2 then SsiSd.SSI_SD_RESPONSE
  else if v =? 3 then SsiSd.SSI_SD_DATA_START else if v =? 4 then SsiSd.SSI_SD_DATA_READ else SsiSd.SSI_SD_OTHER v.

Section Handlers.
Context {S : Type} (ops : QEMUFileOps S) (ext : Z -> list Z).
Implicit Types (f : QEMUFile S).

(** The loops over an array of words. *)
Definition put_words f (l : list Z) : QEMUFile S := foldl (qemu_put_be32 ops ext) f l.
Fixpoint get_words (n : nat) f : list Z * QEMUFile S :=
  match n with
  | O => ([], f)
  | Datatypes.S n => let '(v, f) := qemu_get_be32 ops f in let '(l, f) := get_words n f in (v :: l, f)
  end.

Definition ssd0323_save f (ss : Ssi.SSISlave Ssd0323.ssd0323_state) : QEMUFile S :=
  let s := Ssi.dev ss in
  let f := qemu_put_be32 ops ext f (Ssd0323.cmd_len s) in
  let f := qemu_put_be32 ops ext f (Ssd0323.cmd s) in
  let f := put_words f (Ssd0323.cmd_data s) in
  let f := qemu_put_be32 ops ext f (Ssd0323.row s) in
  let f := qemu_put_be32 ops ext f (Ssd0323.row_start s) in
  let f := qemu_put_be32 ops ext f (Ssd0323.row_end s) in
  let f := qemu_put_be32 ops ext f (Ssd0323.col s) in
  let f := qemu_put_be32 ops ext f (Ssd0323.col_start s) in
  let f := qemu_put_be32 ops ext f (Ssd0323.col_end s) in
  let f := qemu_put_be32 ops ext f (Ssd0323.redraw s) in
  let f := qemu_put_be32 ops ext f (Ssd0323.remap s) in
  let f := qemu_put_be32 ops ext f (ssd_mode_num (Ssd0323.mode s)) in
  let f := qemu_put_buffer ops ext f (Ssd0323.framebuffer s) in
  qemu_put_be32 ops ext f (b2z (Ssi.cs ss)).

Definition ssd0323_load f (ss : Ssi.SSISlave Ssd0323.ssd0323_state) (version_id : Z)
    : Z * QEMUFile S * Ssi.SSISlave Ssd0323.ssd0323_state :=
  if negb (version_id =? 1) then (- VmState.EINVAL, f, ss)
  else
    let s := Ssi.dev ss in
    let '(v, f) := qemu_get_be32 ops f in let s := s.[Ssd0323.cmd_len := s32 v] in
    let '(v, f) := qemu_get_be32 ops f in let s := s.[Ssd0323.cmd := s32 v] in
    let '(l, f) := get_words 8 f in let s := s.[Ssd0323.cmd_data := s32 <$> l] in
    let '(v, f) := qemu_get_be32 ops f in let s := s.[Ssd0323.row := s32 v] in
    let '(v, f) := qemu_get_be32 ops f in let s := s.[Ssd0323.row_start := s32 v] in
    let '(v, f) := qemu_get_be32 ops f in let s := s.[Ssd0323.row_end := s32 v] in
    let '(v, f) := qemu_get_be32 ops f in let s := s.[Ssd0323.col := s32 v] in
    let '(v, f) := qemu_get_be32 ops f in let s := s.[Ssd0323.col_start := s32 v] in
    let '(v, f) := qemu_get_be32 ops f in let s := s.[Ssd0323.col_end := s32 v] in
    let '(v, f) := qemu_get_be32 ops f in let s := s.[Ssd0323.redraw := s32 v] in
    let '(v, f) := qemu_get_be32 ops f in let s := s.[Ssd0323.remap := s32 v] in
    let '(v, f) := qemu_get_be32 ops f in let s := s.[Ssd0323.mode := ssd_mode_of v] in
    let '(d, f) := qemu_get_buffer ops f 5120 in
    let s := s.[Ssd0323.framebuffer := memcpy (Ssd0323.framebuffer s) 0 d] in
    let '(v, f) := qemu_get_be32 ops f in
    (0, f, Ssi.mkSlave (truth v) s).

Context {B : Type} `{!BlockDriver B}.

Definition ssi_sd_save f (ss : Ssi.SSISlave (SsiSd.ssi_sd_state B)) : QEMUFile S :=
  let s := Ssi.dev ss in
  let f := qemu_put_be32 ops ext f (sd_mode_num (SsiSd.mode s)) in
  let f := qemu_put_be32 ops ext f (SsiSd.cmd s) in
  let f := put_words f (SsiSd.cmdarg s) in
  let f := put_words f (SsiSd.response s) in
  let f := qemu_put_be32 ops ext f (SsiSd.arglen s) in
  let f := qemu_put_be32 ops ext f (SsiSd.response_pos s) in
  let f := qemu_put_be32 ops ext f (SsiSd.stopping s) in
  qemu_put_be32 ops ext f (b2z (Ssi.cs ss)).

Definition ssi_sd_load f (ss : Ssi.SSISlave (SsiSd.ssi_sd_state B)) (version_id : Z)
    : Z * QEMUFile S * Ssi.SSISlave (SsiSd.ssi_sd_state B) :=
  if negb (version_id =? 1) then (- VmState.EINVAL, f, ss)
  else
    let s := Ssi.dev ss in
    let '(v, f) := qemu_get_be32 ops f in let s := s.[SsiSd.mode := sd_mode_of v] in
    let '(v, f) := qemu_get_be32 ops f in let s := s.[SsiSd.cmd := s32 v] in
    let '(l, f) := get_words 4 f in let s := s.[SsiSd.cmdarg := u8 <$> l] in
    let '(l, f) := get_words 5 f in let s := s.[SsiSd.response := u8 <$> l] in
    let '(v, f) := qemu_get_be32 ops f in let s := s.[SsiSd.arglen := s32 v] in
    let '(v, f) := qemu_get_be32 ops f in let s := s.[SsiSd.response_pos := s32 v] in
    let '(v, f) := qemu_get_be32 ops f in let s := s.[SsiSd.stopping := s32 v] in
    let '(v, f) := qemu_get_be32 ops f in
    (0, f, Ssi.mkSlave (truth v) s).
End Handlers.

(** ** Saving puts a list of items *)

Definition words (l : list Z) : list item := IBe32 <$> l.
Definition ssd_items (ss : Ssi.SSISlave Ssd0323.ssd0323_state) : list item :=
  let s := Ssi.dev ss in
  words [Ssd0323.cmd_len s; Ssd0323.cmd s] ++ words (Ssd0323.cmd_data s) ++
  words [Ssd0323.row s; Ssd0323.row_start s; Ssd0323.row_end s; Ssd0323.col s; Ssd0323.col_start s;
         Ssd0323.col_end s; Ssd0323.redraw s; Ssd0323.remap s; ssd_mode_num (Ssd0323.mode s)] ++
  [IBuffer (Ssd0323.framebuffer s); IBe32 (b2z (Ssi.cs ss))].
Definition sd_items {B} (ss : Ssi.SSISlave (SsiSd.ssi_sd_state B)) : list item :=
  let s := Ssi.dev ss in
  words [sd_mode_num (SsiSd.mode s); SsiSd.cmd s] ++ words (SsiSd.cmdarg s) ++ words (SsiSd.response s) ++
  words [SsiSd.arglen s; SsiSd.response_pos s; SsiSd.stopping s; b2z (Ssi.cs ss)].

Section RoundTrip.
Context {S : Type} (wops rops : QEMUFileOps S) (ext : Z -> list Z) (written remaining : S -> list Z).
Context `{!Source rops remaining}.
Implicit Types (f : QEMUFile S).

Lemma put_words_items f l : put_words wops ext f l = foldl (put_item wops ext) f (words l).
Proof. revert f. induction l as [|v l IH]; intros f; [done|]. apply IH. Qed.
Lemma ssd_save_items f ss : ssd0323_save wops ext f ss = foldl (put_item wops ext) f (ssd_items ss).
Proof.
  unfold ssd0323_save, ssd_items. cbv zeta. rewrite put_words_items, !foldl_app.
  cbn [words fmap list_fmap foldl put_item]. reflexivity.
Qed.
Lemma sd_save_items {B} f (ss : Ssi.SSISlave (SsiSd.ssi_sd_state B)) :
  ssi_sd_save wops ext f ss = foldl (put_item wops ext) f (sd_items ss).
Proof.
  unfold ssi_sd_save, sd_items. cbv zeta. rewrite !put_words_items, !foldl_app.
  cbn [words fmap list_fmap foldl put_item]. reflexivity.
Qed.

(** ** Getting them back *)

Definition stream_of (l : list item) : list Z := mjoin (item_bytes ext <$> l).

Lemma get_word f v k : rinv f -> rest remaining f = stream_of (IBe32 v :: k) ->
  exists g, qemu_get_be32 rops f = (u32 v, g) /\ rinv g /\ rest remaining g = stream_of k /\ last_error g = last_error f.
Proof. intros Hf Hr. by apply get_be32_spec. Qed.
Lemma get_words_spec l : forall f k, rinv f -> rest remaining f = stream_of (words l ++ k) ->
  exists g, get_words rops (length l) f = (u32 <$> l, g) /\ rinv g /\ rest remaining g = stream_of k /\
    last_error g = last_error f.
Proof.
  induction l as [|v l IH]; intros f k Hf Hr; [by exists f|]. cbn [length get_words].
  destruct (get_word f v (words l ++ k) Hf Hr) as (g & -> & Hg & Rg & Eg).
  destruct (IH g k Hg Rg) as (h & -> & Hh & Rh & Eh). exists h. by rewrite Eh, Eg.
Qed.

(** Step over one get of a load handler. *)
Ltac get_step :=
  match goal with
  | Hf : rinv ?f, Hr : rest remaining ?f = stream_of (IBe32 ?v :: ?k) |- context [qemu_get_be32 rops ?f] =>
      let g := fresh "g" in let E := fresh "E" in
      destruct (get_word f v k Hf Hr) as (g & -> & ? & ? & E); rewrite <- E; clear Hf Hr; clear E
  end.

Ltac get_list Hn :=
  match goal with
  | Hf : rinv ?f, Hr : rest remaining ?f = stream_of (words ?l ++ ?k) |- context [get_words rops _ ?f] =>
      let g := fresh "g" in let E := fresh "E" in let Eg := fresh in
      destruct (get_words_spec l f k Hf Hr) as (g & E & ? & ? & Eg); rewrite Hn in E; rewrite E, <- Eg; clear Hf Hr E Eg
  end.
Ltac get_data Hn :=
  match goal with
  | Hf : rinv ?f, Hr : rest remaining ?f = stream_of (IBuffer ?d :: ?k) |- context [qemu_get_buffer rops ?f _] =>
      let g := fresh "g" in let E := fresh "E" in let Eg := fresh in
      destruct (get_buffer_spec rops remaining f d (stream_of k) Hf Hr) as (g & E & ? & ? & Eg);
      [rewrite Hn; unfold IO_BUF_SIZE; lia|]; rewrite Hn in E; change (Z.of_nat (Z.to_nat 5120)) with 5120 in E;
      rewrite E, <- Eg; clear Hf Hr E Eg
  end.

Definition int (v : Z) : Prop := - 2 ^ 31 <= v < 2 ^ 31.
Lemma words_back l : Forall int l -> s32 <$> (u32 <$> l) = l.
Proof. induction 1; [done|]. cbn. rewrite s32_u32 by done. by f_equal. Qed.
Lemma bytes_back l : Forall (is_u 8) l -> u8 <$> (u32 <$> l) = l.
Proof. induction 1; [done|]. cbn. rewrite u8_u32, u8_small by done. by f_equal. Qed.

(** What the handlers can carry: fields of their C types. *)
Record ssd_ok (s : Ssd0323.ssd0323_state) : Prop := {
  so_words : Forall int [Ssd0323.cmd_len s; Ssd0323.cmd s; Ssd0323.row s; Ssd0323.row_start s; Ssd0323.row_end s;
    Ssd0323.col s; Ssd0323.col_start s; Ssd0323.col_end s; Ssd0323.redraw s; Ssd0323.remap s];
  so_data : Forall int (Ssd0323.cmd_data s); so_len : length (Ssd0323.cmd_data s) = 8%nat;
  so_fb : length (Ssd0323.framebuffer s) = Z.to_nat 5120;
  so_mode : Ssd0323.mode s = Ssd0323.SSD0323_CMD \/ Ssd0323.mode s = Ssd0323.SSD0323_DATA
}.
Lemma ssd_mode_back m : m = Ssd0323.SSD0323_CMD \/ m = Ssd0323.SSD0323_DATA -> ssd_mode_of (u32 (ssd_mode_num m)) = m.
Proof. by intros [-> | ->]. Qed.
Lemma cs_back (c : bool) : truth (u32 (b2z c)) = c.
Proof. by destruct c. Qed.
Lemma memcpy_whole l d : length l = length d -> memcpy l 0 d = d.
Proof.
  intros Hl. unfold memcpy. change (Z.to_nat 0) with 0%nat. cbn [take app Nat.add]. by rewrite drop_ge, app_nil_r by lia.
Qed.

Record sd_ok {B} (s : SsiSd.ssi_sd_state B) : Prop := {
  do_words : Forall int [SsiSd.cmd s; SsiSd.arglen s; SsiSd.response_pos s; SsiSd.stopping s];
  do_arg : Forall (is_u 8) (SsiSd.cmdarg s); do_arglen : length (SsiSd.cmdarg s) = 4%nat;
  do_resp : Forall (is_u 8) (SsiSd.response s); do_resplen : length (SsiSd.response s) = 5%nat;
  do_mode : sd_mode_of (u32 (sd_mode_num (SsiSd.mode s))) = SsiSd.mode s
}.
Lemma words_ok l : Forall item_ok (words l).
Proof. unfold words. by apply Forall_fmap, Forall_true. Qed.
Lemma ssd_items_ok ss : Forall item_ok (ssd_items ss).
Proof. unfold ssd_items. cbv zeta. rewrite !Forall_app. repeat split; try apply words_ok. by repeat constructor. Qed.
Lemma sd_items_ok {B} (ss : Ssi.SSISlave (SsiSd.ssi_sd_state B)) : Forall item_ok (sd_items ss).
Proof. unfold sd_items. cbv zeta. rewrite !Forall_app. repeat split; apply words_ok. Qed.
(** What the backend has received once the items are flushed. *)
Lemma put_stream `{!Sink wops written} w l : Forall item_ok l -> written w = [] ->
  written (opaque (qemu_fflush wops ext (foldl (put_item wops ext) (qemu_fopen_ops w) l))) = stream_of l.
Proof.
  intros Hl Hw. destruct (fopen_ready wops ext written w) as [Hf Ef].
  destruct (put_items_spec wops ext written l _ Hf Hl) as [_ Ep]. by rewrite (fflush_written wops ext written), Ep, Ef, Hw.
Qed.

Lemma sd_load_spec {B} f (ss ss0 : Ssi.SSISlave (SsiSd.ssi_sd_state B)) k : rinv f -> sd_ok (Ssi.dev ss) ->
  rest remaining f = stream_of (sd_items ss ++ k) ->
  exists g, ssi_sd_load rops f ss0 1 = (0, g, Ssi.mkSlave (Ssi.cs ss) (Ssi.dev ss).[SsiSd.sd := SsiSd.sd (Ssi.dev ss0)]) /\
    rest remaining g = stream_of k /\ last_error g = last_error f.
Proof.
  intros Hf [Hw Ha Hal Hre Hrl Hm] Hr. destruct ss as [c s], ss0 as [c0 s0].
  rewrite !Forall_cons in Hw. cbn [Ssi.dev Ssi.cs] in *. destruct Hw as (W1 & W2 & W3 & W4 & _).
  unfold sd_items in Hr. cbn [Ssi.dev Ssi.cs] in Hr. cbv zeta in Hr. rewrite <- !app_assoc in Hr. unfold words at 1 4 in Hr.
  cbn [fmap list_fmap app] in Hr. unfold ssi_sd_load. switch. cbn [negb Ssi.dev]. cbv zeta.
  do 2 get_step. get_list Hal. get_list Hrl. do 4 get_step.
  eexists. split; [|done]. rewrite !s32_u32, !bytes_back, Hm, cs_back by done. by destruct s, s0.
Qed.

Lemma ssd_load_spec f ss ss0 k : rinv f -> ssd_ok (Ssi.dev ss) ->
  length (Ssd0323.framebuffer (Ssi.dev ss0)) = Z.to_nat 5120 ->
  rest remaining f = stream_of (ssd_items ss ++ k) ->
  exists g, ssd0323_load rops f ss0 1 = (0, g, ss) /\ rest remaining g = stream_of k /\ last_error g = last_error f.
Proof.
  intros Hf [Hw Hd Hn Hfb Hm] Hfb0 Hr. destruct ss as [c s], ss0 as [c0 s0].
  rewrite !Forall_cons in Hw. cbn [Ssi.dev Ssi.cs] in *.
  destruct Hw as (W1 & W2 & W3 & W4 & W5 & W6 & W7 & W8 & W9 & W10 & _).
  unfold ssd_items in Hr. cbn [Ssi.dev Ssi.cs] in Hr. cbv zeta in Hr. rewrite <- !app_assoc in Hr. unfold words at 1 3 in Hr.
  cbn [fmap list_fmap app] in Hr. unfold ssd0323_load. switch. cbn [negb Ssi.dev]. cbv zeta.
  do 2 get_step. get_list Hn. do 9 get_step. get_data Hfb. get_step.
  eexists. split; [|done]. rewrite !s32_u32, words_back, ssd_mode_back, cs_back by done.
  cbn [Ssd0323.framebuffer set_field rec_eta Ssd0323.eta_ssd].
  rewrite memcpy_whole by (by rewrite Hfb, Hfb0). by destruct s.
Qed.

(** The state of the display survives its save and load handlers: whatever
    the fields are, and whatever the destination held, the loaded display and
    its chip select are those that were saved. *)
Theorem ssd0323_migrates (w r : S) (ss ss0 : Ssi.SSISlave Ssd0323.ssd0323_state) :
  Sink wops written -> written w = [] -> ssd_ok (Ssi.dev ss) ->
  length (Ssd0323.framebuffer (Ssi.dev ss0)) = Z.to_nat 5120 ->
  remaining r = written (opaque (qemu_fflush wops ext (ssd0323_save wops ext (qemu_fopen_ops w) ss))) ->
  exists g, ssd0323_load rops (qemu_fopen_ops r) ss0 1 = (0, g, ss) /\ last_error g = 0.
Proof.
  intros HS Hw Hok Hfb Hr. rewrite ssd_save_items in Hr.
  rewrite put_stream in Hr by (done || apply ssd_items_ok).
  destruct (fopen_reader remaining r) as [Hg Eg]. rewrite Hr, <- (app_nil_r (ssd_items ss)) in Eg.
  destruct (ssd_load_spec (qemu_fopen_ops r) ss ss0 [] Hg Hok Hfb Eg) as (g & E & _ & Er). exists g. by rewrite Er.
Qed.

(** The card slave comes back with its command, its response and its mode,
    but with the card of the destination: the card itself is not saved, so a
    block transfer in progress continues on a card that does not know of it. *)
Theorem ssi_sd_migrates {B} (w r : S) (ss ss0 : Ssi.SSISlave (SsiSd.ssi_sd_state B)) :
  Sink wops written -> written w = [] -> sd_ok (Ssi.dev ss) ->
  remaining r = written (opaque (qemu_fflush wops ext (ssi_sd_save wops ext (qemu_fopen_ops w) ss))) ->
  exists g, ssi_sd_load rops (qemu_fopen_ops r) ss0 1 =
      (0, g, Ssi.mkSlave (Ssi.cs ss) (Ssi.dev ss).[SsiSd.sd := SsiSd.sd (Ssi.dev ss0)]) /\ last_error g = 0.
Proof.
  intros HS Hw Hok Hr. rewrite sd_save_items in Hr.
  rewrite put_stream in Hr by (done || apply sd_items_ok).
  destruct (fopen_reader remaining r) as [Hg Eg]. rewrite Hr, <- (app_nil_r (sd_items ss)) in Eg.
  destruct (sd_load_spec (qemu_fopen_ops r) ss ss0 [] Hg Hok Eg) as (g & E & _ & Er). exists g. by rewrite Er.
Qed.
End RoundTrip.

Definition demo_display : Ssi.SSISlave Ssd0323.ssd0323_state :=
  Ssi.mkSlave true (Ssd0323.ssd0323_init.[Ssd0323.row := 7].[Ssd0323.mode := Ssd0323.SSD0323_DATA]).
Lemma demo_display_ok : ssd_ok (Ssi.dev demo_display).
Proof.
  constructor; cbn [demo_display Ssi.dev Ssd0323.cmd_data Ssd0323.framebuffer Ssd0323.mode set_field rec_eta
    Ssd0323.ssd0323_init Ssd0323.ssd0323_zero]; rewrite ?length_replicate; auto.
  - apply (bool_decide_unpack _). by vm_compute.
  - apply (bool_decide_unpack _). by vm_compute.
Qed.
Lemma ssd0323_migrates_witness : exists g,
  ssd0323_load (Pipe.read_ops 100) (qemu_fopen_ops (opaque (qemu_fflush Pipe.write_ops (fun _ => [])
      (ssd0323_save Pipe.write_ops (fun _ => []) (qemu_fopen_ops []) demo_display))))
    (Ssi.mkSlave false Ssd0323.ssd0323_init) 1 = (0, g, demo_display) /\ last_error g = 0.
Proof.
  apply (ssd0323_migrates Pipe.write_ops (Pipe.read_ops 100) (fun _ => []) id id
    (Source0 := Pipe.read_source 100 eq_refl) [] _ demo_display (Ssi.mkSlave false Ssd0323.ssd0323_init)).
  - apply Pipe.write_sink.
  - reflexivity.
  - apply demo_display_ok.
  - cbn [Ssi.dev Ssd0323.framebuffer Ssd0323.ssd0323_init Ssd0323.ssd0323_zero set_field rec_eta]. by rewrite length_replicate.
  - reflexivity.
Defined.

Definition demo_slave (started : bool) : Ssi.SSISlave (SsiSd.ssi_sd_state (Image.image)) :=
  let s := SsiSd.ssi_sd_init (Some (Image.blank 16 0)) in
  Ssi.mkSlave started (if started then s.[SsiSd.mode := SsiSd.SSI_SD_DATA_READ].[SsiSd.cmd := 17] else s).
Lemma ssi_sd_migrates_witness : exists g,
  ssi_sd_load (Pipe.read_ops 100) (qemu_fopen_ops (opaque (qemu_fflush Pipe.put_ops (fun _ => [])
      (ssi_sd_save Pipe.put_ops (fun _ => []) (qemu_fopen_ops []) (demo_slave true)))))
    (demo_slave false) 1 = (0, g, Ssi.mkSlave true
      (Ssi.dev (demo_slave true)).[SsiSd.sd := SsiSd.sd (Ssi.dev (demo_slave false))]) /\ last_error g = 0.
Proof.
  apply (ssi_sd_migrates Pipe.put_ops (Pipe.read_ops 100) (fun _ => []) id id
    (Source0 := Pipe.read_source 100 eq_refl) [] _ (demo_slave true) (demo_slave false)).
  - apply Pipe.put_sink.
  - reflexivity.
  - constructor; try reflexivity; apply (bool_decide_unpack _); by vm_compute.
  - reflexivity.
Defined.
End Handlers.
