(* ===== verification/Savevm.v ===== *)
(** * Saving and loading the machine (savevm.c)

    The registry of what is saved: each entry has a description or handlers of
    its own.  [qemu_savevm_state] writes a section for every entry, live
    entries (RAM) in several parts, and [qemu_loadvm_state] finds the entry of
    each section by its name and instance and loads it.  Strings are lists of
    bytes without the terminating zero. *)

From S2P Require Import Prelude QemuFile VmState.

Module Savevm.
Import QemuFile VmState.

Definition ENOTSUP := 95.
Definition QEMU_VM_FILE_MAGIC := 0x5145564d.
Definition QEMU_VM_FILE_VERSION := 0x00000003.
Definition QEMU_VM_EOF := 0x00.
Definition QEMU_VM_SECTION_START := 0x01.
Definition QEMU_VM_SECTION_PART := 0x02.
Definition QEMU_VM_SECTION_END := 0x03.
Definition QEMU_VM_SECTION_FULL := 0x04.

(** [pstrcat] into a buffer of 256 bytes; into an empty one it is [pstrcpy]. *)
Definition pstrcat (s t : list Z) : list Z := take 255 (s ++ t).
Definition slash : list Z := [47].
(** Whether [t] occurs in [s]. *)
Fixpoint strstr (s t : list Z) : bool :=
  bool_decide (take (length t) s = t) || match s with [] => false | _ :: s => strstr s t end.

Section Savevm.
Context {S : Type} (ops : QEMUFileOps S) (ext : Z -> list Z).
Implicit Types (f : QEMUFile S) (m : mem).

(** The handlers of an entry take the memory and the entry's [opaque]. *)
Record SaveVMHandlers := mkHandlers {
  set_params : option (mem -> Z -> mem);
  save_state : option (QEMUFile S -> mem -> Z -> QEMUFile S * mem);
  cancel : option (mem -> Z -> mem);
  save_live_complete : option (QEMUFile S -> mem -> Z -> Z * QEMUFile S * mem);
  is_active : option (mem -> Z -> bool);
  save_live_iterate : option (QEMUFile S -> mem -> Z -> Z * QEMUFile S * mem);
  save_live_setup : option (QEMUFile S -> mem -> Z -> Z * QEMUFile S * mem);
  save_live_pending : option (QEMUFile S -> mem -> Z -> Z -> Z);
  load_state : option (QEMUFile S -> mem -> Z -> Z -> Z * QEMUFile S * mem)
}.
Record CompatEntry := mkCompat { c_idstr : list Z; c_instance_id : Z }.
Record SaveStateEntry := mkEntry {
  idstr : list Z;
  instance_id : Z;
  alias_id : Z;
  se_version_id : Z;
  section_id : Z;
  se_ops : option SaveVMHandlers;
  se_vmsd : option (VMStateDescription S);
  se_opaque : Z;
  compat : option CompatEntry;
  no_migrate : bool;
  is_ram : bool
}.
Record registry := mkRegistry { savevm_handlers : list SaveStateEntry; global_section_id : Z }.

(** ** Registration *)

Definition calculate_new_instance_id (l : list SaveStateEntry) (id : list Z) : Z :=
  foldl (fun i se => if bool_decide (id = idstr se) && (i <=? instance_id se) then instance_id se + 1 else i) 0 l.
Definition calculate_compat_instance_id (l : list SaveStateEntry) (id : list Z) : Z :=
  foldl (fun i se => match compat se with
                     | None => i
                     | Some c => if bool_decide (id = c_idstr c) && (i <=? c_instance_id c) then c_instance_id c + 1 else i
                     end) 0 l.
(** The names of an entry, with the path of its device if it has one: the
    compatible name, the name and the instance asked for. *)
Definition entry_name (l : list SaveStateEntry) (path : option (list Z)) (id : list Z) (instance : Z)
    : option CompatEntry * list Z * Z :=
  match path with
  | Some p =>
      (Some (mkCompat (take 255 id) (if instance =? -1 then calculate_compat_instance_id l id else instance)),
       pstrcat (pstrcat (take 255 p) slash) id, -1)
  | None => (None, pstrcat [] id, instance)
  end.
(** Append an entry; [None] is the failed assertion. *)
Definition register_entry (r : registry) (path : option (list Z)) (id : list Z) (instance alias version : Z)
    (h : option SaveVMHandlers) (d : option (VMStateDescription S)) (opq : Z) (blocked live : bool) : option registry :=
  let l := savevm_handlers r in
  let '(c, id, instance) := entry_name l path id instance in
  let instance := if instance =? -1 then calculate_new_instance_id l id else instance in
  let se := mkEntry id instance alias version (global_section_id r) h d opq c blocked live in
  match c with
  | Some _ => if instance =? 0 then Some (mkRegistry (l ++ [se]) (global_section_id r + 1)) else None
  | None => Some (mkRegistry (l ++ [se]) (global_section_id r + 1))
  end.
(** The entry is zeroed, so its alias is 0. *)
Definition register_savevm_live (r : registry) (path : option (list Z)) (id : list Z) (instance version : Z)
    (h : SaveVMHandlers) (opq : Z) : option registry :=
  register_entry r path id instance 0 version (Some h) None opq false (bool_decide (is_Some (save_live_setup h))).
Definition register_savevm (r : registry) (path : option (list Z)) (id : list Z) (instance version : Z)
    (save : QEMUFile S -> mem -> Z -> QEMUFile S * mem) (load : QEMUFile S -> mem -> Z -> Z -> Z * QEMUFile S * mem)
    (opq : Z) : option registry :=
  register_savevm_live r path id instance version (mkHandlers None (Some save) None None None None None None (Some load)) opq.
Definition vmstate_register_with_alias_id (r : registry) (path : option (list Z)) (instance : Z) (d : VMStateDescription S)
    (opq alias required : Z) (unmigratable : bool) : option registry :=
  if (alias =? -1) || (minimum_version_id d <=? required) then
    register_entry r path (name d) instance alias (version_id d) None (Some d) opq unmigratable false
  else None.
Definition unregister_savevm (r : registry) (path : option (list Z)) (id : list Z) (opq : Z) : registry :=
  let id := match path with Some p => pstrcat (pstrcat (take 255 p) slash) id | None => pstrcat [] id end in
  mkRegistry (filter (fun se => ~ (idstr se = id /\ se_opaque se = opq)) (savevm_handlers r)) (global_section_id r).

(** [same] tells the description at the address given from the others. *)
Definition vmstate_unregister (r : registry) (same : VMStateDescription S -> bool) (opq : Z) : registry :=
  mkRegistry (filter (fun se => ~ (match se_vmsd se with Some d => same d | None => false end = true /\ se_opaque se = opq))
                (savevm_handlers r)) (global_section_id r).

(** ** Saving *)

(** [None] is a call through a null pointer or descriptions nested deeper than [n]. *)
Definition vmstate_save (n : nat) f m (se : SaveStateEntry) : option (QEMUFile S * mem) :=
  match se_vmsd se with
  | None => h ← se_ops se; save ← save_state h; Some (save f m (se_opaque se))
  | Some d => vmstate_save_state ops ext n d f m (se_opaque se)
  end.
Definition vmstate_load (n : nat) f m (se : SaveStateEntry) (version : Z) : option (Z * QEMUFile S * mem) :=
  match se_vmsd se with
  | None => h ← se_ops se; load ← load_state h; Some (load f m (se_opaque se) version)
  | Some d => vmstate_load_state ops n d f m (se_opaque se) version
  end.

Definition qemu_savevm_state_blocked (l : list SaveStateEntry) : bool := existsb no_migrate l.

(** The handler [get] of an entry, unless the entry is not active. *)
Definition live_handler {A} (get : SaveVMHandlers -> option A) (se : SaveStateEntry) m : option A :=
  h ← se_ops se;
  x ← get h;
  match is_active h with
  | Some active => if active m (se_opaque se) then Some x else None
  | None => Some x
  end.
(** The name, instance and version of a section. *)
Definition put_section_header f (type : Z) (se : SaveStateEntry) : QEMUFile S :=
  let f := qemu_put_byte ops ext f type in
  let f := qemu_put_be32 ops ext f (section_id se) in
  let len := Z.of_nat (length (idstr se)) in
  let f := qemu_put_byte ops ext f len in
  let f := qemu_put_buffer ops ext f (idstr se) in
  let f := qemu_put_be32 ops ext f (instance_id se) in
  qemu_put_be32 ops ext f (se_version_id se).

Definition set_all_params (l : list SaveStateEntry) m : mem :=
  foldl (fun m se => match h ← se_ops se; set_params h with Some set => set m (se_opaque se) | None => m end) m l.
Fixpoint setup_all (l : list SaveStateEntry) f m : QEMUFile S * mem :=
  match l with
  | [] => (f, m)
  | se :: l =>
      match live_handler save_live_setup se m with
      | None => setup_all l f m
      | Some setup =>
          let f := put_section_header f QEMU_VM_SECTION_START se in
          let '(ret, f, m) := setup f m (se_opaque se) in
          if ret <? 0 then (qemu_file_set_error f ret, m) else setup_all l f m
      end
  end.
Definition qemu_savevm_state_begin (l : list SaveStateEntry) f m : QEMUFile S * mem :=
  let m := set_all_params l m in
  let f := qemu_put_be32 ops ext f QEMU_VM_FILE_MAGIC in
  let f := qemu_put_be32 ops ext f QEMU_VM_FILE_VERSION in
  setup_all l f m.

Definition put_part f (type : Z) (se : SaveStateEntry) : QEMUFile S :=
  qemu_put_be32 ops ext (qemu_put_byte ops ext f type) (section_id se).
(** [ret] is the result so far. *)
Fixpoint qemu_savevm_state_iterate (l : list SaveStateEntry) (ret : Z) f m : Z * QEMUFile S * mem :=
  match l with
  | [] => (ret, f, m)
  | se :: l =>
      match live_handler save_live_iterate se m with
      | None => qemu_savevm_state_iterate l ret f m
      | Some iterate =>
          if qemu_file_rate_limit f then (0, f, m)
          else
            let '(ret, f, m) := iterate (put_part f QEMU_VM_SECTION_PART se) m (se_opaque se) in
            let f := if ret <? 0 then qemu_file_set_error f ret else f in
            if ret <=? 0 then (ret, f, m) else qemu_savevm_state_iterate l ret f m
      end
  end.

(** The flag is the early return. *)
Fixpoint complete_live (l : list SaveStateEntry) f m : bool * QEMUFile S * mem :=
  match l with
  | [] => (true, f, m)
  | se :: l =>
      match live_handler save_live_complete se m with
      | None => complete_live l f m
      | Some complete =>
          let '(ret, f, m) := complete (put_part f QEMU_VM_SECTION_END se) m (se_opaque se) in
          if ret <? 0 then (false, qemu_file_set_error f ret, m) else complete_live l f m
      end
  end.
(** An entry that has no state to save outside its live parts. *)
Definition stateless (se : SaveStateEntry) : bool :=
  match se_vmsd se, (h ← se_ops se; save_state h) with None, None => true | _, _ => false end.
Fixpoint save_full (n : nat) (l : list SaveStateEntry) f m : option (QEMUFile S * mem) :=
  match l with
  | [] => Some (f, m)
  | se :: l =>
      if stateless se then save_full n l f m
      else
        '(f, m) ← vmstate_save n (put_section_header f QEMU_VM_SECTION_FULL se) m se;
        save_full n l f m
  end.
Definition qemu_savevm_state_complete (n : nat) (l : list SaveStateEntry) f m : option (QEMUFile S * mem) :=
  let '(go, f, m) := complete_live l f m in
  if go : bool then
    '(f, m) ← save_full n l f m;
    Some (qemu_fflush ops ext (qemu_put_byte ops ext f QEMU_VM_EOF), m)
  else Some (f, m).

Definition qemu_savevm_state_pending (l : list SaveStateEntry) f m (max_size : Z) : Z :=
  foldl (fun ret se => match live_handler save_live_pending se m with
                       | Some pending => u64 (ret + pending f m (se_opaque se) max_size)
                       | None => ret
                       end) 0 l.
Definition qemu_savevm_state_cancel (l : list SaveStateEntry) m : mem :=
  foldl (fun m se => match h ← se_ops se; cancel h with Some c => c m (se_opaque se) | None => m end) m l.

Fixpoint iterate_loop (k : nat) (l : list SaveStateEntry) f m : option (QEMUFile S * mem) :=
  match k with
  | O => None
  | Datatypes.S k =>
      if qemu_file_get_error f =? 0 then
        let '(ret, f, m) := qemu_savevm_state_iterate l 1 f m in
        if 0 <? ret then Some (f, m) else iterate_loop k l f m
      else Some (f, m)
  end.
(** [k] bounds the rounds of the live entries. *)
Definition qemu_savevm_state (k n : nat) (l : list SaveStateEntry) f m : option (Z * QEMUFile S * mem) :=
  if qemu_savevm_state_blocked l then Some (- EINVAL, f, m)
  else
    let '(f, m) := qemu_savevm_state_begin l f m in
    '(f, m) ← iterate_loop k l f m;
    '(f, m) ← (if qemu_file_get_error f =? 0 then qemu_savevm_state_complete n l f m else Some (f, m));
    let ret := qemu_file_get_error f in
    Some (ret, f, if ret =? 0 then m else qemu_savevm_state_cancel l m).

(** The state without the live entries. *)
Definition qemu_save_device_state (n : nat) (l : list SaveStateEntry) f m : option (Z * QEMUFile S * mem) :=
  let f := qemu_put_be32 ops ext f QEMU_VM_FILE_MAGIC in
  let f := qemu_put_be32 ops ext f QEMU_VM_FILE_VERSION in
  '(f, m) ← save_full n (filter (fun se => is_ram se = false) l) f m;
  let f := qemu_put_byte ops ext f QEMU_VM_EOF in
  Some (qemu_file_get_error f, f, m).

(** ** Loading *)

Definition id_matches (instance : Z) (se : SaveStateEntry) (own : Z) : bool := (instance =? own) || (instance =? alias_id se).
Definition matches (id : list Z) (instance : Z) (se : SaveStateEntry) : bool :=
  (bool_decide (idstr se = id) && id_matches instance se (instance_id se)) ||
  match compat se with
  | Some c => strstr (idstr se) id && bool_decide (c_idstr c = id) && id_matches instance se (c_instance_id c)
  | None => false
  end.
Definition find_se (l : list SaveStateEntry) (id : list Z) (instance : Z) : option SaveStateEntry := find (matches id instance) l.

Record LoadStateEntry := mkLoad { le_se : SaveStateEntry; le_section_id : Z; le_version_id : Z }.

(** What the buffer for names holds before it is read: it is not initialised. *)
Context (stack : list Z).
(** The section id, the name, the instance and the version of a section.  What
    the file does not deliver of the name is what the buffer held. *)
Definition get_section_header f : Z * list Z * Z * Z * QEMUFile S :=
  let '(section, f) := qemu_get_be32 ops f in
  let '(len, f) := qemu_get_byte ops f in
  let '(id, f) := qemu_get_buffer ops f len in
  let '(instance, f) := qemu_get_be32 ops f in
  let '(version, f) := qemu_get_be32 ops f in
  (section, cstr (take (Z.to_nat len) (id ++ drop (length id) stack)), s32 instance, version, f).
(** A negative result ends the loop. *)
Definition load_entry (n : nat) (l : list SaveStateEntry) (les : list LoadStateEntry) (section : Z) (id : list Z)
    (instance version : Z) f m : option (Z * list LoadStateEntry * QEMUFile S * mem) :=
  match find_se l id instance with
  | None => Some (- EINVAL, les, f, m)
  | Some se =>
      if u32 (se_version_id se) <? version then Some (- EINVAL, les, f, m)
      else
        let les := mkLoad se section (s32 version) :: les in
        '(ret, f, m) ← vmstate_load n f m se (s32 version);
        Some (ret, les, f, m)
  end.
Definition load_start (n : nat) (l : list SaveStateEntry) (les : list LoadStateEntry) f m
    : option (Z * list LoadStateEntry * QEMUFile S * mem) :=
  let '(section, id, instance, version, f) := get_section_header f in
  load_entry n l les section id instance version f m.
Definition load_part (n : nat) (les : list LoadStateEntry) f m : option (Z * list LoadStateEntry * QEMUFile S * mem) :=
  let '(section, f) := qemu_get_be32 ops f in
  match find (fun le => le_section_id le =? section) les with
  | None => Some (- EINVAL, les, f, m)
  | Some le => '(ret, f, m) ← vmstate_load n f m (le_se le) (le_version_id le); Some (ret, les, f, m)
  end.
Definition load_section (n : nat) (l : list SaveStateEntry) (les : list LoadStateEntry) (type : Z) f m
    : option (Z * list LoadStateEntry * QEMUFile S * mem) :=
  if (type =? QEMU_VM_SECTION_START) || (type =? QEMU_VM_SECTION_FULL) then load_start n l les f m
  else if (type =? QEMU_VM_SECTION_PART) || (type =? QEMU_VM_SECTION_END) then load_part n les f m
  else Some (- EINVAL, les, f, m).
Fixpoint load_sections (k n : nat) (l : list SaveStateEntry) (les : list LoadStateEntry) f m : option (Z * QEMUFile S * mem) :=
  match k with
  | O => None
  | Datatypes.S k =>
      let '(type, f) := qemu_get_byte ops f in
      if type =? QEMU_VM_EOF then Some (0, f, m)
      else
        '(ret, les, f, m) ← load_section n l les type f m;
        if ret <? 0 then Some (ret, f, m) else load_sections k n l les f m
  end.
(** [k] bounds the number of sections. *)
Definition qemu_loadvm_state (k n : nat) (l : list SaveStateEntry) f m : option (Z * QEMUFile S * mem) :=
  if qemu_savevm_state_blocked l then Some (- EINVAL, f, m)
  else
    let '(v, f) := qemu_get_be32 ops f in
    if negb (v =? QEMU_VM_FILE_MAGIC) then Some (- EINVAL, f, m)
    else
      let '(v, f) := qemu_get_be32 ops f in
      if negb (v =? QEMU_VM_FILE_VERSION) then Some (- ENOTSUP, f, m)
      else
        '(ret, f, m) ← load_sections k n l [] f m;
        Some (if ret =? 0 then qemu_file_get_error f else ret, f, m).
End Savevm.
Arguments SaveStateEntry S : clear implicits.
Arguments SaveVMHandlers S : clear implicits.
Arguments registry S : clear implicits.
End Savevm.
