(* ===== verification/SavevmProps.v ===== *)
(** * The saved machine

    What a section promises ([section_contract]): saving writes items, and
    loading from them restores the device and touches nothing else.  Devices
    with a plain description keep it, so that a machine of such devices
    ([part]), which do not overlap, is restored by [qemu_loadvm_state] from what
    [qemu_savevm_state] wrote.  The registry finds the entries that registration
    made. *)

From Stdlib Require Import String.
From stdpp Require Import sets relations.
From S2P Require Import Prelude QemuFile QemuFileProps VmState VmStateProps Savevm Migrate.

Module SavevmProps.
Import QemuFile QemuFileProps VmState VmStateProps Savevm.

(** ** Items *)

Lemma item_fits_ok ext l : Forall (item_fits ext) l -> Forall item_ok l.
Proof. intros H. eapply Forall_impl; [exact H|]. intros [| | | | |] Hi; cbn in *; intuition lia. Qed.

Definition header_items {S : Type} (type : Z) (se : SaveStateEntry S) : list item :=
  [IByte type; IBe32 (section_id se); IByte (Z.of_nat (length (idstr se))); IBuffer (idstr se);
   IBe32 (instance_id se); IBe32 (se_version_id se)].
Lemma header_spec {S} (ops : QEMUFileOps S) ext f type se :
  put_section_header ops ext f type se = foldl (put_item ops ext) f (header_items type se).
Proof. unfold put_section_header, header_items. cbn [foldl put_item]. reflexivity. Qed.

(** A name that fits its length byte and has no terminating zero; an instance
    and a version of 32 bits. *)
Definition valid_name (id : list Z) : Prop := (length id <= 255)%nat /\ Forall (fun c => c <> 0) id.
Definition valid_entry {S : Type} (se : SaveStateEntry S) : Prop :=
  valid_name (idstr se) /\ - 2 ^ 31 <= instance_id se < 2 ^ 31 /\ 0 <= se_version_id se < 2 ^ 31.

(** ** Sections *)

Section Machine.
Context {S : Type} (wops rops : QEMUFileOps S) (ext : Z -> list Z) (stack : list Z) (written remaining : S -> list Z).
Context `{!Sink wops written} `{!Source rops remaining}.
Implicit Types (f g : QEMUFile S) (m : mem) (se : SaveStateEntry S).

(** A device of the machine that is saved and the same device of the machine
    it is loaded into; the items of its section, the cells that loading
    writes, those it finds them through, and when it is restored. *)
Record device := mkDevice {
  src : SaveStateEntry S; dst : SaveStateEntry S; items : list item;
  cells : Z -> Prop; links : Z -> Prop; restored : mem -> Prop
}.
Record section_contract (n : nat) (ms md : mem) (d : device) : Prop := {
  sc_state : stateless (src d) = false;
  sc_save f : vmstate_save wops ext n f ms (src d) = Some (foldl (put_item wops ext) f (items d), ms);
  sc_fits : Forall (item_fits ext) (items d);
  sc_load f m tail : (forall y, links d y -> m y = md y) -> rinv f ->
    rest remaining f = mjoin (item_bytes ext <$> items d) ++ tail -> goes_on tail ->
    exists g m', vmstate_load rops n f m (dst d) (se_version_id (src d)) = Some (0, g, m') /\
      rinv g /\ rest remaining g = tail /\ last_error g = last_error f /\
      restored d m' /\ (forall x, ~ cells d x -> m' x = m x);
  sc_stable m m' : (forall x, cells d x \/ links d x -> m' x = m x) -> restored d m -> restored d m'
}.

(** The entries of a machine that runs only [save_state]: nothing is blocked
    and no entry has a live part. *)
Definition quiet se : Prop :=
  no_migrate se = false /\
  match se_ops se with
  | None => True
  | Some h => set_params h = None /\ save_live_setup h = None /\ save_live_iterate h = None /\ save_live_complete h = None
  end.

(** ** Saving *)

Lemma quiet_not_blocked l : Forall quiet l -> qemu_savevm_state_blocked l = false.
Proof. induction 1 as [|se l [Hb _] _ IH]; [done|]. unfold qemu_savevm_state_blocked in *. cbn. by rewrite Hb, IH. Qed.
Lemma quiet_handler {A} (get : SaveVMHandlers S -> option A) se m :
  match se_ops se with None => True | Some h => get h = None end -> live_handler get se m = None.
Proof. unfold live_handler. destruct (se_ops se) as [h|]; cbn; [|done]. by intros ->. Qed.
Lemma quiet_begin l f m : Forall quiet l ->
  qemu_savevm_state_begin wops ext l f m =
    (foldl (put_item wops ext) f [IBe32 QEMU_VM_FILE_MAGIC; IBe32 QEMU_VM_FILE_VERSION], m).
Proof.
  intros Hl. unfold qemu_savevm_state_begin. assert (set_all_params l m = m) as ->.
  { induction Hl as [|se l [_ H] _ IH]; [done|]. unfold set_all_params in *. cbn.
    destruct (se_ops se) as [h|]; cbn; [destruct H as (-> & _)|]; done. }
  cbn [foldl put_item]. generalize (qemu_put_be32 wops ext (qemu_put_be32 wops ext f QEMU_VM_FILE_MAGIC) QEMU_VM_FILE_VERSION).
  intros g. induction Hl as [|se l [_ H] _ IH]; [done|]. cbn [setup_all]. rewrite quiet_handler; [done|].
  destruct (se_ops se); intuition.
Qed.
Lemma quiet_iterate l r f m : Forall quiet l -> qemu_savevm_state_iterate wops ext l r f m = (r, f, m).
Proof.
  induction 1 as [|se l [_ H] _ IH]; [done|]. cbn [qemu_savevm_state_iterate]. rewrite quiet_handler; [done|].
  destruct (se_ops se); intuition.
Qed.
Lemma quiet_complete l f m : Forall quiet l -> complete_live wops ext l f m = (true, f, m).
Proof.
  induction 1 as [|se l [_ H] _ IH]; [done|]. cbn [complete_live]. rewrite quiet_handler; [done|].
  destruct (se_ops se); intuition.
Qed.

Definition section_items (d : device) : list item := header_items QEMU_VM_SECTION_FULL (src d) ++ items d.
Definition machine_items (ds : list device) : list item := mjoin (section_items <$> ds).

Lemma save_full_spec n ms md ds f : Forall (section_contract n ms md) ds ->
  save_full wops ext n (src <$> ds) f ms = Some (foldl (put_item wops ext) f (machine_items ds), ms).
Proof.
  intros Hd. revert f. induction Hd as [|d ds Hd _ IH]; intros f; [done|]. cbn [fmap list_fmap save_full].
  rewrite (sc_state _ _ _ _ Hd), header_spec, (sc_save _ _ _ _ Hd). cbn [mbind option_bind]. rewrite IH.
  unfold machine_items. cbn [fmap list_fmap mjoin list_join]. unfold section_items at 2. by rewrite !foldl_app.
Qed.

Lemma machine_items_fit n ms md ds : Forall (section_contract n ms md) ds -> Forall (fun d => valid_entry (src d)) ds ->
  Forall (item_fits ext) (machine_items ds).
Proof.
  intros Hd. induction Hd as [|d ds Hd _ IH]; intros Hv; [by apply Forall_nil|]. inversion_clear Hv as [|? ? [[Hl _] _] Hv'].
  apply Forall_app. split; [apply Forall_app; split; [|apply (sc_fits _ _ _ _ Hd)]|by apply IH].
  do 3 (apply Forall_cons; split; [done|]). apply Forall_cons. split; [cbn; unfold IO_BUF_SIZE; lia|]. by repeat constructor.
Qed.

(** What is written: the magic and version, the sections and the end. *)
Definition file_items (ds : list device) : list item :=
  [IBe32 QEMU_VM_FILE_MAGIC; IBe32 QEMU_VM_FILE_VERSION] ++ machine_items ds ++ [IByte QEMU_VM_EOF].
Lemma file_items_fit n ms md ds : Forall (section_contract n ms md) ds -> Forall (fun d => valid_entry (src d)) ds ->
  Forall (item_fits ext) (file_items ds).
Proof.
  intros. apply Forall_app. split; [by repeat constructor|]. apply Forall_app. split; [by eapply machine_items_fit|by repeat constructor].
Qed.
Lemma winv_no_error f : winv wops f -> qemu_file_get_error f = 0.
Proof. apply w_err. Qed.
Lemma complete_spec n ms md ds f : Forall (section_contract n ms md) ds -> Forall quiet (src <$> ds) ->
  qemu_savevm_state_complete wops ext n (src <$> ds) f ms =
    Some (qemu_fflush wops ext (foldl (put_item wops ext) f (machine_items ds ++ [IByte QEMU_VM_EOF])), ms).
Proof.
  intros Hd Hq. unfold qemu_savevm_state_complete. rewrite quiet_complete, (save_full_spec n ms md), foldl_app by done.
  reflexivity.
Qed.
(** Without live entries one round is enough. *)
Lemma quiet_rounds n l f m g g' m' : Forall quiet l -> qemu_savevm_state_begin wops ext l f m = (g, m) ->
  qemu_file_get_error g = 0 -> qemu_savevm_state_complete wops ext n l g m = Some (g', m') -> qemu_file_get_error g' = 0 ->
  qemu_savevm_state wops ext 1 n l f m = Some (0, g', m').
Proof.
  intros Hq Eb Eg Ec Eg'. unfold qemu_savevm_state. rewrite quiet_not_blocked, Eb by done. cbn [iterate_loop].
  rewrite Eg, quiet_iterate by done. change (0 =? 0) with true. change (0 <? 1) with true.
  cbn [mbind option_bind]. cbn iota beta. rewrite Eg, Ec. change (0 =? 0) with true.
  cbn [mbind option_bind]. cbn iota beta. by rewrite Eg'.
Qed.
Lemma save_machine n ms md ds f : Forall (section_contract n ms md) ds -> Forall (fun d => valid_entry (src d)) ds ->
  Forall quiet (src <$> ds) -> wready wops f -> stream wops ext written f = [] ->
  exists g, qemu_savevm_state wops ext 1 n (src <$> ds) f ms = Some (0, g, ms) /\
    written (opaque g) = mjoin (item_bytes ext <$> file_items ds).
Proof.
  intros Hd Hv Hq Hf Ef.
  assert (forall l, Forall (item_fits ext) l -> wready wops (foldl (put_item wops ext) f l) /\
    stream wops ext written (foldl (put_item wops ext) f l) = mjoin (item_bytes ext <$> l)) as Hput.
  { intros l Hl. destruct (put_items_spec wops ext written l _ Hf) as [H1 H2]; [by eapply item_fits_ok|].
    by rewrite H2, Ef. }
  pose proof (Hput _ (file_items_fit n ms md ds Hd Hv)) as [Hg Eg].
  eexists. split; [|rewrite (fflush_written wops ext written); exact Eg].
  eapply quiet_rounds; [done|by apply quiet_begin| | |].
  - apply winv_no_error, Hput. by repeat constructor.
  - unfold file_items. rewrite foldl_app. by apply complete_spec with md.
  - apply winv_no_error, (fflush_winv wops ext written), Hg.
Qed.

(** ** Loading *)

(** The entry that the section of [d] is loaded into. *)
Definition found (l : list (SaveStateEntry S)) (d : device) : Prop :=
  find_se l (idstr (src d)) (instance_id (src d)) = Some (dst d) /\
  se_version_id (src d) <= se_version_id (dst d) < 2 ^ 31.

Lemma header_load n l les f m se sd tail : valid_entry se -> find_se l (idstr se) (instance_id se) = Some sd ->
  se_version_id se <= se_version_id sd < 2 ^ 31 -> rinv f ->
  rest remaining f = mjoin (item_bytes ext <$> header_items QEMU_VM_SECTION_FULL se) ++ tail ->
  exists g h les', qemu_get_byte rops f = (QEMU_VM_SECTION_FULL, g) /\ rinv h /\ rest remaining h = tail /\
    last_error h = last_error f /\
    load_section rops stack n l les QEMU_VM_SECTION_FULL g m =
      ('(ret, f, m) ← vmstate_load rops n h m sd (se_version_id se); Some (ret, les', f, m)).
Proof.
  intros [[Hlen Hz] [Hi Hv]] Hfind Hver Hf Hr.
  cbn [header_items fmap list_fmap mjoin list_join item_bytes] in Hr. rewrite <- !app_assoc, app_nil_l in Hr.
  destruct (get_byte_spec rops remaining f _ _ Hf Hr) as (g1 & E1 & H1 & R1 & L1).
  destruct (get_be32_spec rops remaining g1 _ _ H1 R1) as (g2 & E2 & H2 & R2 & L2).
  destruct (get_byte_spec rops remaining g2 _ _ H2 R2) as (g3 & E3 & H3 & R3 & L3).
  destruct (get_buffer_spec rops remaining g3 _ _ H3 R3) as (g4 & E4 & H4 & R4 & L4); [unfold IO_BUF_SIZE; lia|].
  destruct (get_be32_spec rops remaining g4 _ _ H4 R4) as (g5 & E5 & H5 & R5 & L5).
  destruct (get_be32_spec rops remaining g5 _ _ H5 R5) as (g6 & E6 & H6 & R6 & L6).
  exists g1, g6. eexists. split; [exact E1|]. do 2 (split; [done|]). split; [congruence|].
  change (load_section rops stack n l les QEMU_VM_SECTION_FULL g1 m) with (load_start rops stack n l les g1 m).
  unfold load_start, get_section_header.
  rewrite E2, E3. replace (u8 _) with (Z.of_nat (length (idstr se))).
  2:{ symmetry. rewrite Z.shiftr_0_r. apply u8_small. unfold is_u. lia. }
  rewrite E4, E5, E6, take_app_length' by lia. unfold load_entry. rewrite cstr_id, !s32_u32, Hfind by (done || lia).
  rewrite !(u32_small (se_version_id _)) by (unfold is_u; lia). destruct (Z.ltb_spec (se_version_id sd) (se_version_id se)); [lia|].
  done.
Qed.

Lemma load_sections_step k n l les f m : load_sections rops stack (Datatypes.S k) n l les f m =
  (let '(type, f) := qemu_get_byte rops f in
   if type =? QEMU_VM_EOF then Some (0, f, m)
   else
     '(ret, les, f, m) ← load_section rops stack n l les type f m;
     if ret <? 0 then Some (ret, f, m) else load_sections rops stack k n l les f m).
Proof. reflexivity. Qed.

(** The cells of a device are not those of another one, and not its links. *)
Definition apart (d e : device) : Prop := forall x, cells d x -> ~ cells e x /\ ~ links e x.

Lemma sections_load n ms md l ds les f m :
  Forall (section_contract n ms md) ds -> Forall (fun d => valid_entry (src d)) ds -> Forall (found l) ds ->
  ForallOrdPairs (fun d e => apart d e /\ apart e d) ds -> (forall d y, d ∈ ds -> links d y -> m y = md y) ->
  rinv f -> rest remaining f = mjoin (item_bytes ext <$> machine_items ds) ++ [QEMU_VM_EOF] ->
  exists g m', load_sections rops stack (Datatypes.S (length ds)) n l les f m = Some (0, g, m') /\
    last_error g = last_error f /\ Forall (fun d => restored d m') ds /\
    (forall x, Forall (fun d => ~ cells d x) ds -> m' x = m x).
Proof.
  intros Hc Hv Hl Hp. revert les f m. induction Hc as [|d ds Hd Hc IH]; intros les f m Hm Hf Hr.
  { destruct (get_byte_spec rops remaining f _ _ Hf Hr) as (g & E & _ & _ & L). exists g, m. cbn [load_sections length].
    rewrite E. by repeat split. }
  inversion_clear Hv. inversion_clear Hl as [|? ? [Hfind Hver] Hl']. inversion_clear Hp as [|? ? Hap Hp'].
  unfold machine_items in Hr. cbn [fmap list_fmap mjoin list_join] in Hr.
  unfold section_items at 1 in Hr. rewrite !fmap_app, !join_app, <- !app_assoc in Hr.
  destruct (header_load n l les f m (src d) (dst d) _ H Hfind Hver Hf Hr) as (g & h & les' & Eb & Hh & Rh & Lh & Es).
  destruct (sc_load _ _ _ _ Hd h m _ ltac:(intros; by apply (Hm d); [left|]) Hh Rh) as (g' & m1 & El & Hg & Rg & Lg & Hres & Hfr).
  { by destruct ds. }
  rewrite Forall_forall in Hap.
  destruct (IH ltac:(done) ltac:(done) ltac:(done) les' g' m1) as (k & m2 & Ek & Lk & Hall & Hframe); [|done|done|].
  { intros e y He Hy. rewrite Hfr; [apply (Hm e); [by right|done]|]. intros Hcy. by apply (Hap e He) in Hcy as [_ ?]. }
  exists k, m2. cbn [length]. rewrite load_sections_step, Eb. change (QEMU_VM_SECTION_FULL =? QEMU_VM_EOF) with false.
  cbn iota. rewrite Es, El. cbn [mbind option_bind]. cbn iota beta. change (0 <? 0) with false. cbn iota.
  split; [exact Ek|]. split; [congruence|]. split.
  - apply Forall_cons. split; [|done]. apply (sc_stable _ _ _ _ Hd m1); [|done]. intros y Hy. apply Hframe, Forall_forall.
    intros e He Hex. apply (Hap e He) in Hex. tauto.
  - intros y [Hy Hys]%Forall_cons. by rewrite Hframe, Hfr.
Qed.

Lemma load_machine n ms md l ds f :
  Forall (section_contract n ms md) ds -> Forall (fun d => valid_entry (src d)) ds -> Forall (found l) ds ->
  ForallOrdPairs (fun d e => apart d e /\ apart e d) ds -> qemu_savevm_state_blocked l = false ->
  rinv f -> last_error f = 0 -> rest remaining f = mjoin (item_bytes ext <$> file_items ds) ->
  exists g m', qemu_loadvm_state rops stack (Datatypes.S (length ds)) n l f md = Some (0, g, m') /\
    Forall (fun d => restored d m') ds /\ (forall x, Forall (fun d => ~ cells d x) ds -> m' x = md x).
Proof.
  intros Hc Hv Hl Hp Hb Hf He Hr. unfold file_items in Hr. rewrite !fmap_app, !join_app in Hr.
  cbn [fmap list_fmap mjoin list_join item_bytes] in Hr. rewrite <- !app_assoc in Hr.
  destruct (get_be32_spec rops remaining f _ _ Hf Hr) as (g1 & E1 & H1 & R1 & L1).
  destruct (get_be32_spec rops remaining g1 _ _ H1 R1) as (g2 & E2 & H2 & R2 & L2).
  destruct (sections_load n ms md l ds [] g2 md Hc Hv Hl Hp ltac:(done) H2 R2) as (g & m' & E & L & Hall & Hfr).
  exists g, m'. split; [|done]. unfold qemu_loadvm_state. rewrite Hb, E1.
  change (negb (u32 QEMU_VM_FILE_MAGIC =? QEMU_VM_FILE_MAGIC)) with false. cbn iota. rewrite E2.
  change (negb (u32 QEMU_VM_FILE_VERSION =? QEMU_VM_FILE_VERSION)) with false. cbn iota. rewrite E.
  cbn [mbind option_bind]. cbn iota beta. change (0 =? 0) with true. cbn iota. unfold qemu_file_get_error.
  by rewrite L, L2, L1, He.
Qed.

(** ** Devices with a description *)

(** The section of a device whose entry has the plain description [d] of
    nesting at most [n], saved from [a] and loaded into [b]. *)
Definition described (n : nat) (ms md : mem) (d : VMStateDescription S) (se sd : SaveStateEntry S) : device :=
  mkDevice se sd (saved n d ms (se_opaque se)) (.∈ foot n d md (se_opaque sd)) (.∈ ptrs n d md (se_opaque sd))
    (fun m => (forall y, y ∈ ptrs n d md (se_opaque sd) -> m y = md y) /\ content n d m (se_opaque sd) = content n d ms (se_opaque se)).
Lemma described_contract n ms md d se sd :
  se_vmsd se = Some d -> se_vmsd sd = Some d -> se_version_id se = version_id d ->
  plain n d -> fits n d ms (se_opaque se) -> (forall tail, goes_on tail -> separate ext n d ms (se_opaque se) tail) ->
  NoDup (foot n d md (se_opaque sd)) -> (forall y, y ∈ ptrs n d md (se_opaque sd) -> y ∉ foot n d md (se_opaque sd)) ->
  section_contract n ms md (described n ms md d se sd).
Proof.
  intros Es Ed Ev Hp Hv Hsep Hnd Hd. split; cbn [described src dst items cells links restored].
  - unfold stateless. by rewrite Es.
  - intros f. unfold vmstate_save. rewrite Es. by apply (save_spec wops rops ext remaining).
  - apply Forall_forall. intros i Hi. by eapply items_fit.
  - intros f m tail Hm Hf Hr Ht. assert (foot n d md (se_opaque sd) = foot n d m (se_opaque sd)) as Ef.
    { apply foot_ext; [done|]. intros y Hy. symmetry. by apply Hm. }
    assert (ptrs n d md (se_opaque sd) = ptrs n d m (se_opaque sd)) as Ep.
    { apply ptrs_ext; [done|]. intros y Hy. symmetry. by apply Hm. }
    rewrite Ef in *.
    destruct (load_content rops ext remaining n d ms m (se_opaque se) (se_opaque sd) f tail)
      as (g & m' & E & Hg & Rg & Lg & Hcont & Hfr); auto; [by rewrite <- Ep|].
    exists g, m'. unfold vmstate_load. rewrite Ed, Ev. split; [exact E|]. do 3 (split; [done|]). split; [|done].
    split; [|done]. intros y Hy. rewrite Hfr; [by apply Hm|by apply Hd].
  - intros m m' Hm [Hl Hcont]. assert (forall y, y ∈ ptrs n d md (se_opaque sd) -> m' y = md y) as Hl'.
    { intros y Hy. rewrite Hm by (by right). by apply Hl. }
    split; [done|]. rewrite <- Hcont. unfold content.
    rewrite <- (foot_ext n d md m'), <- (foot_ext n d md m) by (done || (intros; symmetry; auto)). apply list_fmap_ext.
    intros i x Hx%list_elem_of_lookup_2. apply Hm. by left.
Qed.

(** A device of the machine: its description, its entry in the machine that is
    saved and the one in the machine that it is loaded into. *)
Record part := mkPart { p_desc : VMStateDescription S; p_src : SaveStateEntry S; p_dst : SaveStateEntry S }.
Implicit Types (p q : part) (ps : list part) (l : list (SaveStateEntry S)).
(** What loading writes, and the pointers it follows. *)
Definition part_foot n (md : mem) p : list Z := foot n (p_desc p) md (se_opaque (p_dst p)).
Definition part_ptrs n (md : mem) p : list Z := ptrs n (p_desc p) md (se_opaque (p_dst p)).
Record part_ok n (ms md : mem) l p : Prop := {
  po_src : se_vmsd (p_src p) = Some (p_desc p);
  po_dst : se_vmsd (p_dst p) = Some (p_desc p);
  po_version : se_version_id (p_src p) = version_id (p_desc p);
  po_plain : plain n (p_desc p);
  po_fits : fits n (p_desc p) ms (se_opaque (p_src p));
  po_separate tail : goes_on tail -> separate ext n (p_desc p) ms (se_opaque (p_src p)) tail;
  po_nodup : NoDup (part_foot n md p);
  po_ptrs y : y ∈ part_ptrs n md p -> y ∉ part_foot n md p;
  po_entry : valid_entry (p_src p);
  po_quiet : quiet (p_src p);
  po_found : find_se l (idstr (p_src p)) (instance_id (p_src p)) = Some (p_dst p);
  po_newer : se_version_id (p_src p) <= se_version_id (p_dst p) < 2 ^ 31
}.
Definition parts_apart n (md : mem) p q : Prop := forall x, x ∈ part_foot n md p -> (x ∉ part_foot n md q) /\ (x ∉ part_ptrs n md q).
Definition part_restored n (ms m' : mem) p : Prop :=
  content n (p_desc p) m' (se_opaque (p_dst p)) = content n (p_desc p) ms (se_opaque (p_src p)).
Definition device_of n (ms md : mem) p : device := described n ms md (p_desc p) (p_src p) (p_dst p).

Lemma parts_contract n ms md l ps : Forall (part_ok n ms md l) ps -> Forall (section_contract n ms md) (device_of n ms md <$> ps).
Proof. intros H. apply Forall_fmap. eapply Forall_impl; [exact H|]. intros p []. by apply described_contract. Qed.
Lemma parts_entries n ms md l ps : Forall (part_ok n ms md l) ps -> Forall (fun d => valid_entry (src d)) (device_of n ms md <$> ps).
Proof. intros H. apply Forall_fmap. eapply Forall_impl; [exact H|]. by intros p []. Qed.
Lemma parts_src n ms md ps : src <$> (device_of n ms md <$> ps) = p_src <$> ps.
Proof. by rewrite <- list_fmap_compose. Qed.
Lemma parts_quiet n ms md l ps : Forall (part_ok n ms md l) ps -> Forall quiet (src <$> (device_of n ms md <$> ps)).
Proof. intros H. rewrite parts_src. apply Forall_fmap. eapply Forall_impl; [exact H|]. by intros p []. Qed.
Lemma parts_found n ms md l ps : Forall (part_ok n ms md l) ps -> Forall (found l) (device_of n ms md <$> ps).
Proof. intros H. apply Forall_fmap. eapply Forall_impl; [exact H|]. by intros p []. Qed.
Lemma parts_pairs n ms md ps : ForallOrdPairs (fun p q => parts_apart n md p q /\ parts_apart n md q p) ps ->
  ForallOrdPairs (fun d e => apart d e /\ apart e d) (device_of n ms md <$> ps).
Proof.
  induction 1 as [|p ps Hp _ IH]; [constructor|]. rewrite fmap_cons. constructor; [|exact IH]. by apply Forall_fmap.
Qed.

End Machine.

(** ** A machine with a real-time timer and a power controller *)

(** The timer device at 0, its timer object at 1000 and its timer at 2000; the
    controller at 10000, its timer object at 11000 and its timer at 12000. *)
Definition demo_vm (vr expiry mor : Z) : mem :=
  upd (upd (upd (upd (upd (upd (upd (upd (fun _ => 0) 32 1000) 1064 2000) 2000 expiry) 16 vr)
    10264 11000) 11064 12000) 12000 (-1)) 10072 mor.
Definition demo_rtt_entry : SaveStateEntry (list Z) :=
  mkEntry (Migrate.cname "rtt_ssp") 0 (-1) 1 0 None (Some Migrate.vmstate_rtt) 0 None false false.
Definition demo_pmc_entry : SaveStateEntry (list Z) :=
  mkEntry (Migrate.cname "pmc_ssp") 0 (-1) 1 1 None (Some Migrate.vmstate_pmc) 10000 None false false.
Definition demo_entries : list (SaveStateEntry (list Z)) := [demo_rtt_entry; demo_pmc_entry].
Abbreviation demo_ms := (demo_vm 0x1234 500 0x37000b).
Abbreviation demo_md := (demo_vm 0 (-1) 0).
Definition no_ext : Z -> list Z := fun _ => [].
Definition demo_stack : list Z := replicate 257 0x55.

(** The values of a description fit when each one does. *)
Ltac fits_check :=
  first [ apply Forall_nil_2
        | apply Forall_cons; split; [|fits_check];
          first [ apply (Migrate.single_fits 1); cbn [info_fits]; apply (bool_decide_unpack _); by vm_compute
                | apply (Migrate.single_fits 0); cbn [info_fits]; apply (bool_decide_unpack _); by vm_compute
                | apply (Migrate.timer_fits 0); cbn [info_fits]; apply (bool_decide_unpack _); by vm_compute
                | apply (Migrate.ptimer_fits 1); fits_check ] ].
Lemma demo_registered :
  (r ← vmstate_register_with_alias_id (mkRegistry [] 0) None (-1) Migrate.vmstate_rtt 0 (-1) 0 false;
   r ← vmstate_register_with_alias_id r None (-1) Migrate.vmstate_pmc 10000 (-1) 0 false;
   Some (savevm_handlers r)) = Some demo_entries.
Proof. reflexivity. Qed.
Lemma demo_fits_rtt : fits 2 (Migrate.vmstate_rtt (S := list Z)) demo_ms 0.
Proof. fits_check. Qed.
Lemma demo_fits_pmc : fits 2 (Migrate.vmstate_pmc (S := list Z)) demo_ms 10000.
Proof. fits_check. Qed.
Definition demo_parts : list (part (S := list Z)) :=
  [mkPart Migrate.vmstate_rtt demo_rtt_entry demo_rtt_entry; mkPart Migrate.vmstate_pmc demo_pmc_entry demo_pmc_entry].
Ltac entry_check := split; [split; [by apply (bool_decide_unpack _)|apply (bool_decide_unpack _); by vm_compute]|cbn; lia].
Lemma demo_ok : Forall (part_ok no_ext 2 demo_ms demo_md demo_entries) demo_parts.
Proof.
  apply Forall_cons. split; [|apply Forall_singleton].
  - split; [done..|apply Migrate.vmstate_rtt_plain|apply demo_fits_rtt|apply Migrate.rtt_separate| | |entry_check|done|done|cbn; lia].
    + apply (bool_decide_unpack _). by vm_compute.
    + apply Forall_forall, (bool_decide_unpack _). by vm_compute.
  - split; [done..|apply Migrate.vmstate_pmc_plain|apply demo_fits_pmc|apply Migrate.pmc_separate| | |entry_check|done|done|cbn; lia].
    + apply (bool_decide_unpack _). by vm_compute.
    + apply Forall_forall, (bool_decide_unpack _). by vm_compute.
Qed.
Lemma demo_apart : ForallOrdPairs (fun p q => parts_apart 2 demo_md p q /\ parts_apart 2 demo_md q p) demo_parts.
Proof.
  constructor; [|do 2 constructor]. apply Forall_singleton. split; unfold parts_apart; apply Forall_forall, (bool_decide_unpack _); by vm_compute.
Qed.
(** What is written for this machine. *)
Definition demo_bytes : list Z :=
  match qemu_savevm_state Pipe.put_ops no_ext 1 2 demo_entries (qemu_fopen_ops []) demo_ms with
  | Some (_, f, _) => opaque f
  | None => []
  end.


(** ** The registry *)

Section Registry.
Context {S : Type}.
Implicit Types (se : SaveStateEntry S) (r : registry S) (l : list (SaveStateEntry S)).

(** Registration with automatic instance ids and without a device path. *)
Inductive reg_step r : registry S -> Prop :=
| step_handlers id version h opq r' :
    register_savevm_live r None id (-1) version h opq = Some r' -> reg_step r r'
| step_description d opq required blocked r' :
    vmstate_register_with_alias_id r None (-1) d opq (-1) required blocked = Some r' -> reg_step r r'
| step_unregister id opq : reg_step r (unregister_savevm r None id opq)
| step_undescribe same opq : reg_step r (vmstate_unregister r same opq).

(** Entries of the same name have growing instance ids. *)
Definition entry_ok (next : Z) se : Prop :=
  compat se = None /\ (alias_id se = 0 \/ alias_id se = -1) /\ 0 <= instance_id se /\ section_id se < next /\
  (length (idstr se) <= 255)%nat.
Definition before se se' : Prop :=
  section_id se < section_id se' /\ (idstr se = idstr se' -> instance_id se < instance_id se').
Record reg_inv r : Prop := {
  reg_entries : Forall (entry_ok (global_section_id r)) (savevm_handlers r);
  reg_order : ForallOrdPairs before (savevm_handlers r)
}.

Lemma new_instance_spec l id :
  0 <= calculate_new_instance_id l id /\
  Forall (fun se => idstr se = id -> instance_id se < calculate_new_instance_id l id) l.
Proof.
  unfold calculate_new_instance_id. induction l as [|se l [H0 IH]] using rev_ind; [by split|]. rewrite foldl_snoc.
  rewrite Forall_app, Forall_singleton. set (i := foldl _ 0 l) in *. case_bool_decide as Hid; cbn [andb].
  - destruct (Z.leb_spec i (instance_id se)); (split; [lia|split; [|intros; lia]]);
      (eapply Forall_impl; [exact IH|]); cbn; intros x Hx Hi; specialize (Hx Hi); lia.
  - split; [done|]. split; [done|]. intros E. by symmetry in E.
Qed.

Lemma ord_pairs_snoc {A} (R : A -> A -> Prop) (l : list A) x : ForallOrdPairs R l -> Forall (fun y => R y x) l -> ForallOrdPairs R (l ++ [x]).
Proof.
  induction 1 as [|y l Hy Hl IH]; intros H; [repeat constructor|]. inversion_clear H. cbn. constructor; [|by apply IH].
  apply Forall_app. split; [done|]. by apply Forall_singleton.
Qed.
Lemma ord_pairs_filter {A} (R : A -> A -> Prop) (P : A -> Prop) `{!forall x, Decision (P x)} (l : list A) :
  ForallOrdPairs R l -> ForallOrdPairs R (filter P l).
Proof.
  induction 1 as [|y l Hy Hl IH]; [constructor|]. rewrite filter_cons. case_decide; [|done]. constructor; [|done].
  rewrite Forall_forall in *. intros x [_ Hx]%list_elem_of_filter. by apply Hy.
Qed.

Lemma register_inv r id alias version h d opq blocked live r' :
  reg_inv r -> alias = 0 \/ alias = -1 ->
  register_entry r None id (-1) alias version h d opq blocked live = Some r' -> reg_inv r'.
Proof.
  intros [He Ho] Ha [= <-]. set (id' := pstrcat [] id). destruct (new_instance_spec (savevm_handlers r) id') as [H0 Hn].
  split; cbn [savevm_handlers global_section_id].
  - apply Forall_app. split.
    + eapply Forall_impl; [exact He|]. intros se (? & ? & ? & ? & ?). repeat split; try done. lia.
    + apply Forall_singleton. split; [done|]. split; [done|]. split; [done|]. split; [cbn; lia|].
      cbn. unfold pstrcat. rewrite length_take. lia.
  - apply ord_pairs_snoc; [done|]. rewrite Forall_forall in *. intros se Hse. destruct (He se Hse) as (_ & _ & _ & Hs & _).
    split; [done|]. intros E. by apply Hn.
Qed.
Lemma filter_inv r (P : SaveStateEntry S -> Prop) `{!forall se, Decision (P se)} : reg_inv r ->
  reg_inv (mkRegistry (filter P (savevm_handlers r)) (global_section_id r)).
Proof.
  intros [He Ho]. split; cbn [savevm_handlers global_section_id].
  - rewrite Forall_forall in *. intros se [_ Hse]%list_elem_of_filter. by apply He.
  - by apply ord_pairs_filter.
Qed.
Lemma reg_step_inv r r' : reg_inv r -> reg_step r r' -> reg_inv r'.
Proof.
  intros Hr Hs. destruct Hs as [id version h opq r' E|d opq required blocked r' E|id opq|same opq].
  - eapply register_inv; [done|by left|exact E].
  - unfold vmstate_register_with_alias_id in E. change (-1 =? -1) with true in E. cbn [orb] in E.
    eapply register_inv; [done|by right|exact E].
  - by apply filter_inv.
  - by apply filter_inv.
Qed.

Lemma find_after {A} (p : A -> bool) (l1 l2 : list A) x : Forall (fun y => p y = false) l1 -> p x = true -> List.find p (l1 ++ x :: l2) = Some x.
Proof. intros H Hx. induction H as [|y l1 Hy _ IH]; cbn; [by rewrite Hx|by rewrite Hy]. Qed.
Lemma ord_pairs_split {A} (R : A -> A -> Prop) (l1 l2 : list A) x : ForallOrdPairs R (l1 ++ x :: l2) -> Forall (fun y => R y x) l1.
Proof.
  induction l1 as [|y l1 IH]; intros H; [done|]. cbn in H. inversion_clear H as [|? ? Hy Hl]. constructor; [|by apply IH].
  apply Forall_app in Hy as [_ Hy]. by inversion_clear Hy.
Qed.
Lemma ord_pairs_nodup l : ForallOrdPairs before l -> NoDup (section_id <$> l).
Proof.
  induction 1 as [|se l Hse Hl IH]; [constructor|]. cbn. apply NoDup_cons. split; [|done].
  intros (se' & E & Hin)%list_elem_of_fmap. rewrite Forall_forall in Hse. destruct (Hse se' Hin). lia.
Qed.

(** However devices are registered and unregistered with automatic instance
    ids, section ids are distinct, names fit their length byte, and
    [find_se] finds each entry by its name and instance. *)
Theorem registered_found r : rtc reg_step (mkRegistry [] 0) r ->
  NoDup (section_id <$> savevm_handlers r) /\
  forall se, se ∈ savevm_handlers r -> (length (idstr se) <= 255)%nat /\
    find_se (savevm_handlers r) (idstr se) (instance_id se) = Some se.
Proof.
  intros Hr. assert (reg_inv r) as [He Ho].
  { assert (reg_inv (mkRegistry [] 0)) as H0 by (split; constructor). revert H0.
    induction Hr as [|r1 r2 r3 Hs _ IH]; [done|]. intros H. by apply IH, (reg_step_inv r1). }
  split; [by apply ord_pairs_nodup|]. intros se Hse. rewrite Forall_forall in He.
  destruct (He se Hse) as (Hc & _ & H0 & _ & Hlen). split; [done|]. apply list_elem_of_split in Hse as (l1 & l2 & E).
  rewrite E in *. unfold find_se. apply find_after.
  - pose proof (ord_pairs_split _ _ _ _ Ho) as Hb. rewrite Forall_forall in *. intros y Hy.
    destruct (He y) as (Hyc & Hya & Hy0 & _); [set_solver|]. destruct (Hb y Hy) as [_ Hlt].
    unfold matches, id_matches. rewrite Hyc, orb_false_r. case_bool_decide as Hid; [|done]. specialize (Hlt Hid).
    cbn [andb]. apply orb_false_iff. split; apply Z.eqb_neq; lia.
  - unfold matches, id_matches. by rewrite bool_decide_true, Z.eqb_refl.
Qed.
End Registry.

(** An entry registered with handlers has alias 0: with explicit instance ids
    its section takes what was saved for instance 0 of the same name. *)
Lemma alias_zero_captures :
  let h := mkHandlers (S := list Z) None (Some (fun f m _ => (f, m))) None None None None None None (Some (fun f m _ _ => (0, f, m))) in
  exists r, (r ← register_savevm_live (mkRegistry [] 0) None [120] 5 1 h 100; register_savevm_live r None [120] 0 1 h 200) = Some r /\
    se_opaque <$> savevm_handlers r = [100; 200] /\ instance_id <$> savevm_handlers r = [5; 0] /\
    se_opaque <$> find_se (savevm_handlers r) [120] 0 = Some 100.
Proof. intros h. eexists. split; [reflexivity|]. by vm_compute. Qed.

Definition demo_registry : registry (list Z) := mkRegistry demo_entries 2.
Lemma registered_found_witness : find_se demo_entries (Migrate.cname "pmc_ssp") 0 = Some demo_pmc_entry.
Proof.
  refine (proj2 (proj2 (registered_found demo_registry _) demo_pmc_entry _)).
  - eapply rtc_l; [apply (step_description _ Migrate.vmstate_rtt 0 0 false); reflexivity|].
    eapply rtc_l; [apply (step_description _ Migrate.vmstate_pmc 10000 0 false); reflexivity|]. apply rtc_refl.
  - right. left.
Defined.
End SavevmProps.
