(* ===== verification/Truncated.v ===== *)
(** * Streams that end early

    The state of a machine of devices with plain descriptions, cut off anywhere,
    is never accepted by a machine of such devices: once the bytes run out
    the file is dead (it has an error and delivers zeros), reading goes on to
    the end of its section, and the next section type reads as the end mark,
    so that [qemu_loadvm_state] returns the error. *)

From stdpp Require Import sets.
From S2P Require Import Prelude QemuFile QemuFileProps VmState VmStateProps Migrate Savevm SavevmProps.

Module Truncated.
Import QemuFile QemuFileProps VmState VmStateProps Savevm SavevmProps.

(** ** Gets on a short stream *)

Section Short.
Context {S : Type} (rops : QEMUFileOps S) (remaining : S -> list Z) `{!Source rops remaining}.
Implicit Types (f g : QEMUFile S).

(** Nothing left and an error. *)
Definition dead f : Prop := rinv f /\ rest remaining f = [] /\ last_error f <> 0.

(** [act] takes [k] bytes, or what is left and then fails. *)
Record drains (act : QEMUFile S -> QEMUFile S) (k : nat) : Prop := {
  drains_enough f : rinv f -> (k <= length (rest remaining f))%nat ->
    rinv (act f) /\ rest remaining (act f) = drop k (rest remaining f) /\ last_error (act f) = last_error f;
  drains_short f : rinv f -> (length (rest remaining f) < k)%nat -> dead (act f);
  drains_dead f : dead f -> dead (act f)
}.

Lemma drains_id : drains id 0.
Proof. split; [done|intros; lia|done]. Qed.
Lemma drains_seq act1 act2 k1 k2 : drains act1 k1 -> drains act2 k2 -> drains (fun f => act2 (act1 f)) (k1 + k2).
Proof.
  intros D1 D2. split.
  - intros f Hf Hk. destruct (drains_enough _ _ D1 f) as (H1 & R1 & E1); [done|lia|].
    destruct (drains_enough _ _ D2 (act1 f)) as (H2 & R2 & E2); [done|rewrite R1, length_drop; lia|].
    by rewrite R2, R1, drop_drop, E2, E1.
  - intros f Hf Hk. destruct (decide (k1 <= length (rest remaining f))%nat) as [Hl|Hl].
    + destruct (drains_enough _ _ D1 f) as (H1 & R1 & E1); [done|lia|].
      apply (drains_short _ _ D2); [done|]. rewrite R1, length_drop. lia.
    + apply (drains_dead _ _ D2), (drains_short _ _ D1); [done|lia].
  - intros f Hf. by apply (drains_dead _ _ D2), (drains_dead _ _ D1).
Qed.
Lemma drains_ext act act' k : (forall f, act f = act' f) -> drains act' k -> drains act k.
Proof. intros He D. split; intros f; rewrite He; apply D. Qed.

Lemma get_byte_dead f : rinv f -> rest remaining f = [] -> exists g, qemu_get_byte rops f = (0, g) /\ dead g.
Proof.
  intros Hf Hr. destruct (peek_byte_eof rops remaining f Hf Hr) as (g & E & Hg & Hrg & Herr).
  unfold qemu_get_byte. rewrite E. exists g. split; [|done]. f_equal. unfold qemu_file_skip.
  pose proof (length_buffered g Hg) as Hl.
  assert (buffered g = []) as Hb by (by apply app_eq_nil in Hrg as [? _]). rewrite Hb in Hl. cbn in Hl.
  by destruct (Z.leb_spec (buf_index g + 1) (buf_size g)); [lia|].
Qed.
Lemma get_byte_drains : drains (fun f => snd (qemu_get_byte rops f)) 1.
Proof.
  split.
  - intros f Hf Hk. destruct (rest remaining f) as [|v l] eqn:E; [cbn in Hk; lia|].
    destruct (get_byte_spec rops remaining f v l Hf E) as (g & -> & H). done.
  - intros f Hf Hk. destruct (get_byte_dead f Hf) as (g & -> & Hg); [by apply length_zero_iff_nil; lia|done].
  - intros f (Hf & Hr & _). by destruct (get_byte_dead f Hf Hr) as (g & -> & Hg).
Qed.
Lemma get_be16_drains : drains (fun f => snd (qemu_get_be16 rops f)) 2.
Proof.
  eapply drains_ext, (drains_seq _ _ 1 1 get_byte_drains get_byte_drains). intros f. unfold qemu_get_be16.
  destruct (qemu_get_byte rops f) as [a f1]. cbn [snd]. by destruct (qemu_get_byte rops f1).
Qed.
Lemma get_be32_drains : drains (fun f => snd (qemu_get_be32 rops f)) 4.
Proof.
  eapply drains_ext, (drains_seq _ _ 2 2 get_be16_drains get_be16_drains). intros f. unfold qemu_get_be32, qemu_get_be16.
  destruct (qemu_get_byte rops f) as [a f1]. destruct (qemu_get_byte rops f1) as [b f2]. cbn [snd].
  destruct (qemu_get_byte rops f2) as [c f3]. by destruct (qemu_get_byte rops f3).
Qed.
Lemma get_be64_drains : drains (fun f => snd (qemu_get_be64 rops f)) 8.
Proof.
  eapply drains_ext, (drains_seq _ _ 4 4 get_be32_drains get_be32_drains). intros f. unfold qemu_get_be64.
  destruct (qemu_get_be32 rops f) as [a f1]. cbn [snd]. by destruct (qemu_get_be32 rops f1).
Qed.

Lemma peek_buffer_dead f n : rinv f -> 0 < n -> rest remaining f = [] ->
  exists g, qemu_peek_buffer rops f n 0 = ([], g) /\ dead g.
Proof.
  intros Hf Hn Hr. destruct (refill_spec rops remaining f n Hf Hn) as (H1 & H2 & _ & H4 & _). revert H1 H2 H4.
  unfold qemu_peek_buffer. rewrite !Z.add_0_r. cbv zeta. set (g := if _ <? n then _ else _). intros H1 H2 H4.
  rewrite Hr in H2. pose proof (length_buffered g H1) as Hl. assert (buffered g = []) as Hb by (by apply app_eq_nil in H2 as [? _]).
  rewrite Hb in Hl. cbn in Hl. destruct (Z.leb_spec (buf_size g - buf_index g) 0); [|lia].
  exists g. split; [done|]. split; [done|]. split; [done|]. by apply H4.
Qed.
Lemma get_loop_short k f n : (Z.to_nat n <= k)%nat -> rinv f -> Z.of_nat (length (rest remaining f)) < n ->
  dead (snd (get_loop rops k f n)).
Proof.
  revert f n. induction k as [|k IH]; intros f n Hk Hf Hn; [lia|]. cbn [get_loop].
  destruct (Z.ltb_spec 0 n) as [H0|H0]; [|lia]. destruct (decide (rest remaining f = [])) as [Er|Er].
  { destruct (peek_buffer_dead f n Hf H0 Er) as (g & -> & Hg). done. }
  destruct (peek_buffer_spec rops remaining f n Hf H0 Er) as (d & g & E & Hg & Hrg & Hd & Htake & Hle & Hsz & _).
  rewrite E. destruct d as [|v d'] eqn:Ed; [done|]. rewrite <- Ed in *. cbv zeta.
  destruct (skip_spec remaining g (Z.of_nat (length d)) Hg) as (S1 & S2 & S3); [lia|].
  assert (0 < length d)%nat by (rewrite Ed; cbn; lia).
  assert (length d <= length (rest remaining f))%nat by (rewrite Htake at 1; rewrite length_take; lia).
  specialize (IH (qemu_file_skip g (Z.of_nat (length d))) (n - Z.of_nat (length d))).
  destruct (get_loop rops k _ _). cbn [snd] in *. apply IH; [lia|done|rewrite S2, Hrg, length_drop; lia].
Qed.
Lemma get_buffer_drains n : 0 <= n <= IO_BUF_SIZE -> drains (fun f => snd (qemu_get_buffer rops f n)) (Z.to_nat n).
Proof.
  intros Hn. unfold qemu_get_buffer. split.
  - intros f Hf Hk. destruct (get_loop_spec rops remaining (Z.to_nat n) f n) as (g & -> & Hg & Rg & Eg); [lia|done|lia|].
    cbn [snd]. rewrite Eg by lia. done.
  - intros f Hf Hk. apply get_loop_short; [done|done|lia].
  - intros f (Hf & Hr & He). destruct (decide (n = 0)) as [->|]; [by split|].
    apply get_loop_short; [done|done|rewrite Hr; cbn; lia].
Qed.
Lemma get_unused_dead k f n : dead f -> dead (get_unused rops k f n).
Proof.
  revert f n. induction k as [|k IH]; intros f n Hf; [done|]. cbn [get_unused]. destruct (Z.ltb_spec 0 n); [|done].
  apply IH. refine (drains_dead _ _ (get_buffer_drains (Z.min 1024 n) _) _ Hf). unfold IO_BUF_SIZE. lia.
Qed.

(** ** Descriptions on a short stream *)

(** What [info_get] does to the file. *)
Definition info_file (I : VMStateInfo) (m : mem) (pv size : Z) f : QEMUFile S := snd (fst (info_get rops I f m pv size)).
Lemma store_file (r : Z * QEMUFile S) m pv conv : snd (fst (store r m pv conv)) = snd r.
Proof. by destruct r. Qed.
Lemma expect_file (r : Z * QEMUFile S) m conv ok : snd (fst (expect r m conv ok)) = snd r.
Proof. by destruct r. Qed.
Lemma timer_file f m pv : fst (qemu_get_timer rops f m pv) = snd (qemu_get_be64 rops f).
Proof. unfold qemu_get_timer. destruct (qemu_get_be64 rops f) as [v g]. by destruct (negb _). Qed.
Lemma info_dead I m pv size f : 0 <= size <= IO_BUF_SIZE -> dead f -> dead (info_file I m pv size f).
Proof.
  intros Hs Hf. unfold info_file. destruct I; cbn [info_get]; rewrite ?store_file, ?expect_file;
    try exact (drains_dead _ _ get_byte_drains _ Hf); try exact (drains_dead _ _ get_be16_drains _ Hf);
    try exact (drains_dead _ _ get_be32_drains _ Hf); try exact (drains_dead _ _ get_be64_drains _ Hf).
  - pose proof (timer_file f m pv) as Ht. destruct (qemu_get_timer rops f m pv). cbn in *. subst.
    exact (drains_dead _ _ get_be64_drains _ Hf).
  - pose proof (drains_dead _ _ (get_buffer_drains size Hs) _ Hf) as Hd. cbn beta in Hd. by destruct (qemu_get_buffer rops f size).
  - by apply get_unused_dead.
Qed.
Lemma info_drains ext ms I pv' v m pv size : 0 <= size <= IO_BUF_SIZE -> info_fits I v ->
  drains (info_file I m pv size) (length (mjoin (item_bytes ext <$> info_items I ms pv' size))).
Proof.
  intros Hs Hi. unfold info_file. destruct I; cbn [info_fits] in Hi; try done;
    cbn [info_items fmap list_fmap mjoin list_join item_bytes]; rewrite app_nil_r; cbn [info_get];
    first [ eapply drains_ext; [intros f; apply store_file|];
            first [exact get_byte_drains | exact get_be16_drains | exact get_be32_drains | exact get_be64_drains]
          | idtac ].
  - eapply drains_ext; [|exact get_be64_drains]. intros f.
    transitivity (fst (qemu_get_timer rops f m pv)); [by destruct (qemu_get_timer rops f m pv)|apply timer_file].
  - rewrite length_bytes_at. eapply drains_ext; [|apply (get_buffer_drains size Hs)]. intros f. cbn beta.
    by destruct (qemu_get_buffer rops f size).
Qed.

(** A file that is dead stays dead, and loading returns. *)
Definition survives (act : QEMUFile S -> mem -> option (Z * QEMUFile S * mem)) : Prop :=
  forall f m, dead f -> exists r g m', act f m = Some (r, g, m') /\ dead g.
Lemma survives_seq act1 act2 : survives act1 -> survives act2 ->
  survives (fun f m => '(r, f, m) ← act1 f m; if r <? 0 then Some (r, f, m) else act2 f m).
Proof.
  intros H1 H2 f m Hf. destruct (H1 f m Hf) as (r & g & m' & -> & Hg). cbn [mbind option_bind].
  destruct (r <? 0); [eauto|]. by apply H2.
Qed.

Definition field_plain (n : nat) (fd : VMStateField S) : Prop :=
  0 <= size fd <= IO_BUF_SIZE /\ VMS_VBUFFER (flags fd) = false /\
  (VMS_STRUCT (flags fd) = true -> exists d', vmsd fd = Some d' /\ plain n d').
Lemma load_elem_survives n rec fd (x : mem -> Z) :
  (forall d x, plain n d -> survives (fun f m => rec d f m x (version_id d))) -> field_plain n fd ->
  survives (fun f m => load_elem rops rec fd f m (x m) (size fd)).
Proof.
  intros IH (Hs & _ & Hst) f m Hf. unfold load_elem. destruct (VMS_STRUCT (flags fd)).
  - destruct Hst as (d' & -> & Hd'); [done|]. by apply IH.
  - pose proof (info_dead (info fd) m (x m) (size fd) f Hs Hf) as Hd. unfold info_file in Hd.
    destruct (info_get rops (info fd) f m (x m) (size fd)) as [[r g] m']. cbn in Hd. eauto.
Qed.
Lemma load_elems_survives n rec fd base k i :
  (forall d x, plain n d -> survives (fun f m => rec d f m x (version_id d))) -> field_plain n fd ->
  survives (load_elems rops rec fd base (size fd) k i).
Proof.
  intros IH Hfd. revert i. induction k as [|k IHk]; intros i f m Hf; [cbn; eauto|].
  refine (survives_seq (fun f m => load_elem rops rec fd f m (elem_addr fd m base (size fd) i) (size fd)) _ _ (IHk (i + 1)) f m Hf).
  by apply (load_elem_survives n rec fd (fun m => elem_addr fd m base (size fd) i)).
Qed.
Lemma load_list_survives n rec fd L :
  (forall d x, plain n d -> survives (fun f m => rec d f m x (version_id d))) -> field_plain n fd ->
  survives (load_list rops rec fd L).
Proof.
  intros IH Hfd. induction L as [|x L IHL]; intros f m Hf; [cbn; eauto|].
  refine (survives_seq (fun f m => load_elem rops rec fd f m x (size fd)) _ _ IHL f m Hf).
  by apply (load_elem_survives n rec fd (fun _ => x)).
Qed.
Lemma load_fields_survives n rec l v b :
  (forall d x, plain n d -> survives (fun f m => rec d f m x (version_id d))) -> Forall (field_plain n) l ->
  survives (fun f m => load_fields rops rec l v f m b).
Proof.
  intros IH Hl. induction Hl as [|fd l Hfd _ IHl]; intros f m Hf; [cbn; eauto|]. cbn [load_fields].
  destruct (load_exists fd m b v); [|by apply IHl]. unfold field_size. pose proof Hfd as (_ & -> & _).
  refine (survives_seq (load_elems rops rec fd (base_addr fd m b) (size fd) (Z.to_nat (n_elems fd m b)) 0) _ _ IHl f m Hf).
  by apply load_elems_survives with n.
Qed.
Lemma subsection_at_end rec n d b f m : rinv f -> rest remaining f = [] ->
  exists g, vmstate_subsection_load rops rec (Datatypes.S n) d f m b = Some (0, g, m) /\ dead g.
Proof.
  intros Hf Hr. destruct (peek_byte_eof rops remaining f Hf Hr) as (g & E & Hg).
  cbn [vmstate_subsection_load]. unfold peek_subsection. rewrite E. change (0 =? QEMU_VM_SUBSECTION) with false. cbn iota. eauto.
Qed.
Lemma plain_fields n d : plain (Datatypes.S n) d -> Forall (field_plain n) (fields d).
Proof.
  cbn [plain]. intros (_ & _ & _ & _ & _ & _ & Hp). eapply Forall_impl; [exact Hp|].
  intros fd ((_ & Hv & _ & _ & Hs) & _ & Hst). done.
Qed.

(** Loading an older version than the description knows needs its old handler. *)
Definition no_old (d : VMStateDescription S) : Prop := minimum_version_id d <= minimum_version_id_old d.
Lemma load_survives_version n d b v :
  (forall d' x, plain n d' -> survives (fun f m => vmstate_load_state rops n d' f m x (version_id d'))) ->
  plain (Datatypes.S n) d -> no_old d \/ v = version_id d ->
  survives (fun f m => vmstate_load_state rops (Datatypes.S n) d f m b v).
Proof.
  intros IH Hp Hv f m Hf. cbn [vmstate_load_state]. pose proof Hp as (Hpre & Hpost & _ & _ & Hmin & Hmin' & _).
  destruct (version_id d <? v); [eauto|]. destruct (Z.ltb_spec v (minimum_version_id_old d)); [eauto|].
  destruct (Z.ltb_spec v (minimum_version_id d)) as [Hlt|]; [unfold no_old in Hv; lia|].
  rewrite Hpre, Hpost. change (truth 0) with false. cbn iota.
  destruct (load_fields_survives n _ (fields d) v b IH (plain_fields n d Hp) f m Hf) as (r & g & m' & -> & Hg).
  cbn [mbind option_bind]. cbn iota beta. destruct (r <? 0); [eauto|].
  destruct (subsection_at_end (vmstate_load_state rops n) n d b g m') as (h & -> & Hh); [apply Hg..|].
  cbn [mbind option_bind]. cbn iota beta. eauto.
Qed.
Lemma load_survives n d b : plain n d -> survives (fun f m => vmstate_load_state rops n d f m b (version_id d)).
Proof. revert d b. induction n as [|n IH]; intros d b Hp; [done|]. apply load_survives_version; auto. Qed.

(** Separation looks at the next byte only. *)
Section Prefix.
Context (ext : Z -> list Z).
Lemma goes_on_prefix t u : goes_on (t ++ u) -> t <> [] -> goes_on t.
Proof. by destruct t. Qed.
Lemma elems_sep_prefix srec seprec fd (m : mem) l t u :
  (forall x t, elem_sep seprec fd m x (t ++ u) -> t <> [] -> elem_sep seprec fd m x t) ->
  elems_sep (S := S) ext srec seprec fd m l (t ++ u) -> t <> [] -> elems_sep ext srec seprec fd m l t.
Proof.
  intros He. induction l as [|x l IH]; [done|]. cbn [elems_sep]. intros [Hx Hl] Ht. split; [|by apply IH].
  apply He; [by rewrite <- app_assoc|]. by intros [_ ?]%app_eq_nil.
Qed.
Lemma fields_sep_prefix srec seprec l (m : mem) a t u :
  (forall fd x t, elem_sep seprec fd m x (t ++ u) -> t <> [] -> elem_sep seprec fd m x t) ->
  fields_sep (S := S) ext srec seprec l m a (t ++ u) -> t <> [] -> fields_sep ext srec seprec l m a t.
Proof.
  intros He. induction l as [|fd l IH]; [done|]. cbn [fields_sep]. intros [Hx Hl] Ht. split; [|by apply IH].
  apply (elems_sep_prefix _ _ _ _ _ _ u); [apply He|by rewrite <- app_assoc|by intros [_ ?]%app_eq_nil].
Qed.
Lemma separate_prefix n d (m : mem) a t u : separate (S := S) ext n d m a (t ++ u) -> t <> [] -> separate ext n d m a t.
Proof.
  revert d a t. induction n as [|n IH]; intros d a t; [done|]. cbn [separate]. intros [Hf Hg] Ht.
  split; [|by eapply goes_on_prefix]. eapply fields_sep_prefix; [|exact Hf|done].
  intros fd x t' He Ht'. unfold elem_sep in *. destruct (VMS_STRUCT (flags fd)); [|done]. destruct (vmsd fd); [|done]. by apply IH.
Qed.
Lemma elem_sep_prefix n fd (m : mem) x t u : elem_sep (S := S) (separate ext n) fd m x (t ++ u) -> t <> [] ->
  elem_sep (separate ext n) fd m x t.
Proof.
  unfold elem_sep. destruct (VMS_STRUCT (flags fd)); [|done]. destruct (vmsd fd); [|done]. apply separate_prefix.
Qed.
End Prefix.

(** [act] reads [items]: from what is left of them it either reads all of it
    and nothing follows, or the file is dead. *)
Section Shorts.
Context (ext : Z -> list Z) (md ms : mem) (P : Z -> Prop).
Definition ends f (x : list Z) (mf : mem) (r : Z) g (m' : mem) : Prop :=
  dead g \/ x = [] /\ r = 0 /\ m' = mf /\ rinv g /\ rest remaining g = [] /\ last_error g = last_error f.
Definition shorts (act : QEMUFile S -> mem -> option (Z * QEMUFile S * mem)) (items : list item) (ft fs : list Z) : Prop :=
  forall f m p x, rinv f -> (forall y, P y -> m y = md y) -> rest remaining f = p ->
    p ++ x = mjoin (item_bytes ext <$> items) ->
    exists r g m', act f m = Some (r, g, m') /\
      ends f x (write_cells ft (ms <$> fs) m) r g m'.

Lemma shorts_nil : shorts (fun f m => Some (0, f, m)) [] [] [].
Proof.
  intros f m p x Hf _ Hr E. apply app_eq_nil in E as [-> ->]. exists 0, f, m. split; [done|]. right. done.
Qed.
Lemma shorts_seq act1 act2 i1 i2 ft1 ft2 fs1 fs2 sep :
  loads ext remaining md ms P act1 i1 ft1 fs1 sep -> shorts act1 i1 ft1 fs1 -> shorts act2 i2 ft2 fs2 -> survives act2 ->
  length ft1 = length fs1 -> (forall y, y ∈ ft1 -> ~ P y) ->
  (forall p x, p <> [] -> p ++ x = mjoin (item_bytes ext <$> i2) -> sep p) ->
  shorts (fun f m => '(r, f, m) ← act1 f m; if r <? 0 then Some (r, f, m) else act2 f m) (i1 ++ i2) (ft1 ++ ft2) (fs1 ++ fs2).
Proof.
  intros L1 S1 S2 V2 Hlen Hd Hsep f m p x Hf Hm Hr E. rewrite fmap_app, join_app in E.
  assert (forall y, P y -> write_cells ft1 (ms <$> fs1) m y = md y) as Hm'.
  { intros y Hy. rewrite write_cells_frame; [by apply Hm|]. intros Hin. by apply (Hd y). }
  assert (forall g y p2, rinv g -> last_error g = last_error f -> rest remaining g = p2 -> p2 ++ x = mjoin (item_bytes ext <$> i2) ->
    y = write_cells ft1 (ms <$> fs1) m -> exists r h m', act2 g y = Some (r, h, m') /\
      ends f x (write_cells (ft1 ++ ft2) (ms <$> fs1 ++ fs2) m) r h m') as Hnext.
  { intros g y p2 Hg Eg Rg E2 ->. destruct (S2 g _ p2 x Hg Hm' Rg E2) as (r & h & m' & Eh & [Hh|(-> & -> & -> & Hh & Rh & Lh)]);
      [by exists r, h, m'; split; [|left]|]. exists 0, h. eexists. split; [exact Eh|]. right.
    rewrite fmap_app, write_cells_app by (by rewrite length_fmap). rewrite Lh. done. }
  assert (forall r g m', dead g -> exists r' h m'', (if r <? 0 then Some (r, g, m') else act2 g m') = Some (r', h, m'') /\
      ends f x (write_cells (ft1 ++ ft2) (ms <$> fs1 ++ fs2) m) r' h m'') as Hdead.
  { intros r g m' Hg. destruct (V2 g m' Hg) as (r' & h & m'' & E' & Hh). destruct (r <? 0); [by exists r, g, m'; split; [|left]|].
    exists r', h, m''. unfold ends. auto. }
  destruct (app_eq_inv _ _ _ _ E) as [(p2 & Hp & E2)|(x1 & E1 & Hx)].
  - destruct (decide (p2 = [])) as [->|Hne].
    + rewrite app_nil_r in Hp. destruct (S1 f m p [] Hf Hm Hr) as (r & g & m' & -> & [Hg|(_ & -> & -> & Hg & Rg & Lg)]);
        [by rewrite app_nil_r| |]; cbn [mbind option_bind]; cbn iota beta.
      * by apply Hdead.
      * change (0 <? 0) with false. cbn iota. by eapply Hnext.
    + destruct (L1 f m p2 Hf Hm) as (g & -> & Hg & Rg & Lg); [by eapply Hsep|by rewrite Hr, Hp|].
      cbn [mbind option_bind]. cbn iota beta. change (0 <? 0) with false. cbn iota. by eapply Hnext.
  - destruct (S1 f m p x1 Hf Hm Hr) as (r & g & m' & -> & [Hg|(-> & -> & -> & Hg & Rg & Lg)]); [done| |];
      cbn [mbind option_bind]; cbn iota beta.
    + by apply Hdead.
    + change (0 <? 0) with false. cbn iota. rewrite app_nil_l in Hx. by eapply Hnext.
Qed.
Lemma shorts_ext act act' i ft fs : (forall f m, (forall y, P y -> m y = md y) -> act f m = act' f m) ->
  shorts act' i ft fs -> shorts act i ft fs.
Proof. intros He Hs f m p x Hf Hm. rewrite He by done. by apply Hs. Qed.

Lemma load_list_short n rec srec frec seprec fd L L' tail :
  (forall d x, plain n d -> survives (fun f m => rec d f m x (version_id d))) -> field_plain n fd ->
  (forall x' t u, elem_sep seprec fd ms x' (t ++ u) -> t <> [] -> elem_sep seprec fd ms x' t) ->
  Forall2 (fun x x' => loads ext remaining md ms P (fun f m => load_elem rops rec fd f m x (size fd)) (elem_items srec fd ms x')
    (elem_foot frec fd md x) (elem_foot frec fd ms x') (elem_sep seprec fd ms x') /\
    (forall t, elem_sep seprec fd ms x' t ->
       shorts (fun f m => load_elem rops rec fd f m x (size fd)) (elem_items srec fd ms x') (elem_foot frec fd md x) (elem_foot frec fd ms x')) /\
    length (elem_foot frec fd md x) = length (elem_foot frec fd ms x')) L L' ->
  (forall y, y ∈ mjoin (elem_foot frec fd md <$> L) -> ~ P y) -> elems_sep ext srec seprec fd ms L' tail ->
  shorts (load_list rops rec fd L) (mjoin (elem_items srec fd ms <$> L')) (mjoin (elem_foot frec fd md <$> L))
    (mjoin (elem_foot frec fd ms <$> L')).
Proof.
  intros IH Hfd Hpre HL. induction HL as [|x x' L L' (Hx & Hs & Hlen) HL IHL]; intros Hd Hsep; [apply shorts_nil|].
  cbn [elems_sep] in Hsep. destruct Hsep as [Hsx HsL]. cbn in Hd.
  apply (shorts_seq (fun f m => load_elem rops rec fd f m x (size fd)) (load_list rops rec fd L) _ _ _ _ _ _ (elem_sep seprec fd ms x'));
    [done|by eapply Hs| |by apply load_list_survives with n|done| |].
  - apply IHL; [|done]. intros y Hy. apply Hd. set_solver.
  - intros y Hy. apply Hd. set_solver.
  - intros p u Hp E. apply (Hpre x' p (u ++ tail)); [|done]. rewrite app_assoc, E. exact Hsx.
Qed.

Lemma load_elem_short n fd x x' t :
  (forall d, plain n d -> fits n d ms x' -> (forall y, y ∈ ptrs n d md x -> P y) -> (forall y, y ∈ foot n d md x -> ~ P y) ->
    separate ext n d ms x' t ->
    shorts (fun f m => vmstate_load_state rops n d f m x (version_id d)) (saved n d ms x') (foot n d md x) (foot n d ms x')) ->
  fixed_layout fd -> (VMS_STRUCT (flags fd) = true -> exists d', vmsd fd = Some d' /\ plain n d') ->
  elem_fits (fits n) fd ms x' -> (forall y, y ∈ elem_ptrs (ptrs n) fd md x -> P y) ->
  (forall y, y ∈ elem_foot (foot n) fd md x -> ~ P y) -> elem_sep (separate ext n) fd ms x' t ->
  shorts (fun f m => load_elem rops (vmstate_load_state rops n) fd f m x (size fd)) (elem_items (saved n) fd ms x')
    (elem_foot (foot n) fd md x) (elem_foot (foot n) fd ms x').
Proof.
  intros IH Hfix Hst Hv Hp Hd Hsep. unfold load_elem, elem_items, elem_foot, elem_sep, elem_fits, elem_ptrs in *.
  destruct (VMS_STRUCT (flags fd)).
  - destruct Hst as (d' & E & Hd'); [done|]. rewrite E in *. by apply IH.
  - intros f m p u Hf Hm Hr E. pose proof Hfix as (_ & _ & _ & _ & Hs). destruct u as [|c u].
    + rewrite app_nil_r in E. rewrite <- app_nil_r, E in Hr.
      destruct (info_get_spec rops ext remaining (info fd) f m ms x x' (size fd) [] Hf Hs Hv Hr) as (g & -> & H).
      exists 0, g. eexists. split; [done|]. right. tauto.
    + pose proof (drains_short _ _ (info_drains ext ms (info fd) x' (ms x') m x (size fd) Hs Hv) f Hf) as Hdead.
      unfold info_file in Hdead. destruct (info_get rops (info fd) f m x (size fd)) as [[r g] m'].
      exists r, g, m'. split; [done|]. left. apply Hdead. rewrite Hr, <- E, length_app. cbn. lia.
Qed.

Lemma load_fields_short n a b v l tail :
  (forall d x x' t, plain n d -> fits n d ms x' -> (forall y, y ∈ ptrs n d md x -> P y) -> (forall y, y ∈ foot n d md x -> ~ P y) ->
    separate ext n d ms x' t ->
    shorts (fun f m => vmstate_load_state rops n d f m x (version_id d)) (saved n d ms x') (foot n d md x) (foot n d ms x')) ->
  Forall (fun fd => fixed_layout fd /\ field_version fd <= v /\
    (VMS_STRUCT (flags fd) = true -> exists d', vmsd fd = Some d' /\ plain n d')) l ->
  fields_fit (fits n) l ms a -> (forall y, y ∈ fields_ptrs (ptrs n) l md b -> P y) ->
  (forall y, y ∈ fields_foot (foot n) l md b -> ~ P y) -> fields_sep ext (saved n) (separate ext n) l ms a tail ->
  shorts (fun f m => load_fields rops (vmstate_load_state rops n) l v f m b) (fields_items (saved n) l ms a)
    (fields_foot (foot n) l md b) (fields_foot (foot n) l ms a).
Proof.
  intros IH Hp Hv. induction Hp as [|fd l (Hfix & Hver & Hst) Hpl IHl]; intros HP HF Hsep; [apply shorts_nil|].
  inversion_clear Hv as [|? ? Hfd Hvl]. unfold fields_ptrs, fields_foot in HP, HF. cbn in HP, HF.
  cbn [fields_sep] in Hsep. destruct Hsep as [Hs1 Hs2].
  assert (field_plain n fd) as Hplain by (destruct Hfix as (_ & ? & _ & _ & ?); done).
  assert (forall d x, plain n d -> survives (fun f m => vmstate_load_state rops n d f m x (version_id d))) as Hsurv
    by (intros; by apply load_survives).
  assert (forall x, x ∈ addrs fd md b -> (forall y, y ∈ elem_ptrs (ptrs n) fd md x -> P y) /\
    (forall y, y ∈ elem_foot (foot n) fd md x -> ~ P y)) as Hx.
  { intros x Hx. split; intros y Hy; [apply HP; unfold field_ptrs|apply HF]; unfold over; apply elem_of_app; left;
      [apply elem_of_app; right|]; apply list_elem_of_join; (eexists; split; [exact Hy|]); apply list_elem_of_fmap; eauto. }
  eapply (shorts_ext _ (fun f m => '(r, f, m) ← load_list rops (vmstate_load_state rops n) fd (addrs fd md b) f m;
    if r <? 0 then Some (r, f, m) else load_fields rops (vmstate_load_state rops n) l v f m b)).
  { intros f m Hm. apply load_fields_list; [done|done|]. intros Hptr. apply Hm, HP. unfold field_ptrs. rewrite Hptr. set_solver. }
  rewrite Forall_forall in Hfd.
  assert (forall x x', x ∈ addrs fd md b /\ x' ∈ addrs fd ms a ->
    loads ext remaining md ms P (fun f m => load_elem rops (vmstate_load_state rops n) fd f m x (size fd))
      (elem_items (saved n) fd ms x') (elem_foot (foot n) fd md x) (elem_foot (foot n) fd ms x') (elem_sep (separate ext n) fd ms x') /\
    length (elem_foot (foot n) fd md x) = length (elem_foot (foot n) fd ms x')) as Hload.
  { intros x x' [Hx1 Hx2]. split; [|apply elem_foot_length; [intros; by apply foot_length|done]].
    destruct (Hx x Hx1). apply load_elem_spec; auto. intros. by apply load_spec. }
  pose proof (addrs_pairs fd md ms b a Hfix) as Hpairs.
  eapply (shorts_seq (load_list rops (vmstate_load_state rops n) fd (addrs fd md b)) _ _ _ _ _ _ _
    (elems_sep ext (saved n) (separate ext n) fd ms (addrs fd ms a))).
  - apply (load_list_spec rops ext remaining md ms P _ (saved n) (foot n) (separate ext n)); [by eapply Forall2_impl|]. intros y Hy. apply HF. set_solver.
  - eapply (load_list_short n); [done|done|apply elem_sep_prefix| |intros y Hy; apply HF; set_solver|exact Hs1].
    eapply Forall2_impl; [exact Hpairs|]. intros x x' Hxx. destruct (Hload x x' Hxx). split; [done|]. split; [|done].
    intros t Ht. destruct Hxx as [Hx1 Hx2]. destruct (Hx x Hx1). eapply load_elem_short; eauto.
  - apply IHl; [done| | |done]; intros y Hy; [apply HP|apply HF]; set_solver.
  - apply (load_fields_survives n); [done|]. eapply Forall_impl; [exact Hpl|].
    intros fd' ((_ & ? & _ & _ & ?) & _ & ?). done.
  - unfold over. apply over_foot_length; [by apply length_addrs|].
    intros x x'. by apply elem_foot_length; [intros; apply foot_length|].
  - intros y Hy. apply HF. set_solver.
  - intros p u Hp E. apply (elems_sep_prefix ext _ _ _ _ _ p (u ++ tail)); [intros; by eapply elem_sep_prefix| |done].
    rewrite app_assoc, E. exact Hs1.
Qed.

(** A description never ends alive: it looks for a subsection. *)
Lemma load_short n d a b tail : plain n d -> fits n d ms a -> (forall y, y ∈ ptrs n d md b -> P y) ->
  (forall y, y ∈ foot n d md b -> ~ P y) -> separate ext n d ms a tail ->
  shorts (fun f m => vmstate_load_state rops n d f m b (version_id d)) (saved n d ms a) (foot n d md b) (foot n d ms a).
Proof.
  revert d a b tail. induction n as [|n IH]; intros d a b tail; [done|].
  cbn [plain fits ptrs foot saved separate]. intros (Hpre & Hpost & _ & Hsub & Hmin & Hmin' & Hp) Hv HP HF [Hs Ht].
  intros f m p x Hf Hm Hr E.
  destruct (load_fields_short n a b (version_id d) (fields d) tail (fun d x x' t => IH d x' x t) Hp Hv HP HF Hs f m p x Hf Hm Hr E)
    as (r & g & m' & El & Hend).
  assert (rinv g /\ rest remaining g = []) as [Hg Rg] by (destruct Hend as [(? & ? & _)|(_ & _ & _ & ? & ? & _)]; done).
  destruct (subsection_at_end (vmstate_load_state rops n) n d b g m' Hg Rg) as (h & Eh & Hh).
  cbn [vmstate_load_state]. destruct (Z.ltb_spec (version_id d) (version_id d)); [lia|].
  destruct (Z.ltb_spec (version_id d) (minimum_version_id_old d)); [lia|].
  destruct (Z.ltb_spec (version_id d) (minimum_version_id d)); [lia|].
  rewrite Hpre, Hpost. change (truth 0) with false. cbn iota. rewrite El. cbn [mbind option_bind]. cbn iota beta.
  destruct (Z.ltb_spec r 0) as [Hneg|].
  - exists r, g, m'. split; [done|]. left. by destruct Hend as [?|(_ & -> & _)].
  - rewrite Eh. cbn [mbind option_bind]. cbn iota beta. exists 0, h, m'. split; [done|]. by left.
Qed.
End Shorts.
End Short.

(** ** The machine *)

Section Machine.
Context {S : Type} (wops rops : QEMUFileOps S) (ext : Z -> list Z) (stack : list Z) (written remaining : S -> list Z).
Context `{!Sink wops written} `{!Source rops remaining}.
Implicit Types (f g : QEMUFile S) (m : mem) (se : SaveStateEntry S).

(** What the section of a device does when its items are cut off. *)
Definition short_contract (n : nat) (md : mem) (d : device) : Prop :=
  forall f m p x, (forall y, links d y -> m y = md y) -> rinv f -> rest remaining f = p ->
    p ++ x = mjoin (item_bytes ext <$> items d) ->
    exists r g m', vmstate_load rops n f m (dst d) (se_version_id (src d)) = Some (r, g, m') /\
      (dead remaining g \/ x = [] /\ rinv g /\ rest remaining g = []).
(** Any entry may be asked to load from a file that is dead. *)
Definition robust (n : nat) se : Prop := forall v, survives remaining (fun f m => vmstate_load rops n f m se v).

Lemma described_short n ms md d se sd :
  se_vmsd sd = Some d -> se_version_id se = version_id d ->
  plain n d -> fits n d ms (se_opaque se) -> (forall tail, goes_on tail -> separate ext n d ms (se_opaque se) tail) ->
  (forall y, y ∈ ptrs n d md (se_opaque sd) -> y ∉ foot n d md (se_opaque sd)) ->
  short_contract n md (described n ms md d se sd).
Proof.
  intros Ed Ev Hp Hv Hsep Hd f m p x. cbn [described src dst items cells links restored]. intros Hm Hf Hr E.
  unfold vmstate_load. rewrite Ed, Ev.
  destruct (load_short rops remaining ext md ms (.∈ ptrs n d md (se_opaque sd)) n d (se_opaque se) (se_opaque sd) [QEMU_VM_EOF]
    Hp Hv) with (f := f) (m := m) (p := p) (x := x) as (r & g & m' & El & Hend); auto.
  - intros y Hy Hy'. by apply (Hd y).
  - by apply Hsep.
  - exists r, g, m'. split; [done|]. destruct Hend as [?|(? & _ & _ & ? & ? & _)]; auto.
Qed.
Lemma described_robust n d se : se_vmsd se = Some d -> plain n d -> no_old d -> robust n se.
Proof.
  intros Ed Hp Ho v f m Hf. unfold vmstate_load. rewrite Ed. destruct n as [|n]; [done|].
  apply load_survives_version; auto. intros. by apply load_survives.
Qed.

(** Without the end of the header the file is dead. *)
Lemma length_be_bytes k v : length (be_bytes k v) = k.
Proof. unfold be_bytes. by rewrite length_fmap, length_reverse, length_seq. Qed.
Lemma prefix_split {A} (p x b r : list A) : p ++ x = b ++ r -> (length b <= length p)%nat ->
  exists p1, p = b ++ p1 /\ p1 ++ x = r.
Proof.
  intros E Hl. apply app_eq_inv in E as [(p1 & ? & ?)|(x1 & -> & ->)]; [by exists p1|]. exists [].
  rewrite length_app in Hl. destruct x1; [by rewrite !app_nil_r|cbn in Hl; lia].
Qed.
Lemma name_drains len : 0 <= len <= IO_BUF_SIZE ->
  drains remaining (fun f => snd (qemu_get_be32 rops (snd (qemu_get_be32 rops (snd (qemu_get_buffer rops f len)))))) (Z.to_nat len + (4 + 4)).
Proof.
  intros Hl. apply (drains_seq remaining (fun f => snd (qemu_get_buffer rops f len)) (fun f => snd (qemu_get_be32 rops (snd (qemu_get_be32 rops f)))));
    [by apply get_buffer_drains|].
  apply (drains_seq remaining (fun f => snd (qemu_get_be32 rops f)) (fun f => snd (qemu_get_be32 rops f))); by apply get_be32_drains.
Qed.
Lemma header_file f : snd (get_section_header rops stack f) =
  let '(len, g) := qemu_get_byte rops (snd (qemu_get_be32 rops f)) in
  snd (qemu_get_be32 rops (snd (qemu_get_be32 rops (snd (qemu_get_buffer rops g len))))).
Proof.
  unfold get_section_header. destruct (qemu_get_be32 rops f) as [a f1]. cbn [snd].
  destruct (qemu_get_byte rops f1) as [len f2]. destruct (qemu_get_buffer rops f2 len) as [d f3]. cbn [snd].
  destruct (qemu_get_be32 rops f3) as [b f4]. cbn [snd]. by destruct (qemu_get_be32 rops f4) as [c f5].
Qed.
Lemma header_short f se p x : valid_entry se -> rinv f -> rest remaining f = p ->
  p ++ x = mjoin (item_bytes ext <$> tail (header_items QEMU_VM_SECTION_FULL se)) -> x <> [] ->
  dead remaining (snd (get_section_header rops stack f)).
Proof.
  intros [[Hlen _] _] Hf Hr E Hx. cbn [header_items tail fmap list_fmap mjoin list_join item_bytes] in E.
  rewrite app_nil_r in E. rewrite header_file. pose proof (get_be32_drains rops remaining) as D4.
  assert (forall g, rinv g -> rest remaining g = [] -> dead remaining (let '(len, g) := qemu_get_byte rops g in
    snd (qemu_get_be32 rops (snd (qemu_get_be32 rops (snd (qemu_get_buffer rops g len))))))) as Hend.
  { intros g Hg Rg. destruct (get_byte_dead rops remaining g Hg Rg) as (h & -> & Hh).
    refine (drains_dead _ _ _ (name_drains 0 _) h Hh). unfold IO_BUF_SIZE. lia. }
  destruct (decide (length p < 4)%nat) as [H4|H4].
  { destruct (drains_short _ _ _ D4 f Hf) as (H & R & _); [by rewrite Hr|]. by apply Hend. }
  apply prefix_split in E as (p1 & -> & E'); [|rewrite length_be_bytes; lia].
  destruct (get_be32_spec rops remaining f _ _ Hf Hr) as (g1 & E1 & H1 & R1 & _). rewrite E1. cbn [snd].
  pose proof (f_equal length E') as El. rewrite !length_app, !length_be_bytes in El.
  destruct p1 as [|c p2]; [by apply Hend|]. injection E' as -> _.
  destruct (get_byte_spec rops remaining g1 _ _ H1 R1) as (g2 & -> & H2 & R2 & _).
  rewrite Z.shiftr_0_r, u8_small by (unfold is_u; lia).
  refine (drains_short _ _ _ (name_drains (Z.of_nat (length (idstr se))) _) g2 H2 _); [unfold IO_BUF_SIZE; lia|].
  rewrite R2. destruct x; [done|]. cbn in El. lia.
Qed.
Lemma entry_dead n l les section id instance version f m : Forall (robust n) l -> dead remaining f ->
  exists r les' g m', load_entry rops n l les section id instance version f m = Some (r, les', g, m') /\ dead remaining g.
Proof.
  intros Hl Hf. unfold load_entry. destruct (find_se l id instance) as [se|] eqn:E; [|eauto 6].
  destruct (_ <? version); [eauto 6|]. apply find_some in E as [Hin _]. rewrite Forall_forall in Hl.
  destruct (Hl se ltac:(by apply list_elem_of_In) (s32 version) f m Hf) as (r & g & m' & -> & Hg). cbn. eauto 6.
Qed.

(** Nothing left to read is the end mark. *)
Lemma sections_end k n l les f m : rinv f -> rest remaining f = [] ->
  exists g, load_sections rops stack (Datatypes.S k) n l les f m = Some (0, g, m) /\ dead remaining g.
Proof.
  intros Hf Hr. destruct (get_byte_dead rops remaining f Hf Hr) as (g & E & Hg). exists g.
  rewrite load_sections_step, E. done.
Qed.
Lemma sections_after k n l les f m r g m' les' type h : qemu_get_byte rops f = (type, h) -> type <> QEMU_VM_EOF ->
  load_section rops stack n l les type h m = Some (r, les', g, m') -> rinv g -> rest remaining g = [] ->
  exists r g m', load_sections rops stack (Datatypes.S (Datatypes.S k)) n l les f m = Some (r, g, m') /\ (r <> 0 \/ dead remaining g).
Proof.
  intros Eb Ht El Hg Rg. rewrite load_sections_step, Eb. destruct (Z.eqb_spec type QEMU_VM_EOF); [done|].
  rewrite El. cbn [mbind option_bind]. cbn iota beta. destruct (Z.ltb_spec r 0) as [Hneg|].
  - exists r, g, m'. split; [done|]. left. lia.
  - destruct (sections_end k n l les' g m' Hg Rg) as (g' & -> & Hg'). eauto 6.
Qed.

(** The header is cut off. *)
Lemma section_head_short k n l les f m se p x : valid_entry se -> Forall (robust n) l -> rinv f -> rest remaining f = p ->
  p ++ x = mjoin (item_bytes ext <$> header_items QEMU_VM_SECTION_FULL se) -> x <> [] ->
  exists r g m', load_sections rops stack (Datatypes.S (Datatypes.S k)) n l les f m = Some (r, g, m') /\ (r <> 0 \/ dead remaining g).
Proof.
  intros Hv Hl Hf Hr E Hx. destruct p as [|c p].
  { destruct (sections_end (Datatypes.S k) n l les f m Hf Hr) as (g & -> & Hg). eauto 6. }
  injection E as Ec E. destruct (get_byte_spec rops remaining f c p Hf Hr) as (g & Eb & Hg & Rg & _).
  pose proof (header_short g se p x Hv Hg Rg E Hx) as Hdead.
  destruct (get_section_header rops stack g) as [[[[section id] instance] version] h] eqn:Eh. cbn [snd] in Hdead.
  destruct (entry_dead n l les section id instance version h m Hl Hdead) as (r & les' & g' & m' & El & (? & ? & _)).
  apply (sections_after k n l les f m r g' m' les' c g Eb); [by rewrite Ec| |done|done].
  rewrite Ec. change (load_section rops stack n l les _ g m) with (load_start rops stack n l les g m). unfold load_start. by rewrite Eh.
Qed.
(** The items are cut off. *)
Lemma section_body_short k n md l les f m d p x : valid_entry (src d) -> found l d -> short_contract n md d ->
  (forall y, links d y -> m y = md y) -> rinv f ->
  rest remaining f = mjoin (item_bytes ext <$> header_items QEMU_VM_SECTION_FULL (src d)) ++ p ->
  p ++ x = mjoin (item_bytes ext <$> items d) ->
  exists r g m', load_sections rops stack (Datatypes.S (Datatypes.S k)) n l les f m = Some (r, g, m') /\ (r <> 0 \/ dead remaining g).
Proof.
  intros Hv [Hfind Hver] Hs Hm Hf Hr E.
  destruct (header_load rops ext stack remaining n l les f m (src d) (dst d) p Hv Hfind Hver Hf Hr) as (g & h & les' & Eb & Hh & Rh & _ & El).
  destruct (Hs h m p x Hm Hh Rh E) as (r & g' & m' & Ev & Hend). rewrite Ev in El. cbn [mbind option_bind] in El. cbn iota beta in El.
  eapply sections_after; [exact Eb|done|exact El|..]; destruct Hend as [(? & ? & _)|(_ & ? & ?)]; done.
Qed.

(** The loop over the sections of a file that ends in the middle of them. *)
Lemma sections_short n ms md l ds les f m p x :
  Forall (section_contract wops rops ext remaining n ms md) ds -> Forall (short_contract n md) ds -> Forall (robust n) l ->
  Forall (fun d => valid_entry (src d)) ds -> Forall (found l) ds ->
  ForallOrdPairs (fun d e => apart d e /\ apart e d) ds -> (forall d y, d ∈ ds -> links d y -> m y = md y) ->
  rinv f -> rest remaining f = p -> p ++ x = mjoin (item_bytes ext <$> machine_items ds) ++ [QEMU_VM_EOF] -> x <> [] ->
  exists r g m', load_sections rops stack (Datatypes.S (length ds)) n l les f m = Some (r, g, m') /\ (r <> 0 \/ dead remaining g).
Proof.
  intros Hc Hs Hrob Hv Hl Hp. revert les f m p. induction Hc as [|d ds Hd Hc IH]; intros les f m p Hm Hf Hr E Hx.
  { cbn in E. destruct p as [|c p]; [|destruct p, x; done].
    destruct (sections_end 0 n l les f m Hf Hr) as (g & Eg & Hg). exists 0, g, m. auto. }
  inversion_clear Hs as [|? ? Hsd Hs']. inversion_clear Hv as [|? ? Hvd Hv']. inversion_clear Hl as [|? ? Hld Hl'].
  inversion_clear Hp as [|? ? Hap Hp']. rewrite Forall_forall in Hap. cbn [length].
  unfold machine_items in E. cbn [fmap list_fmap mjoin list_join] in E.
  unfold section_items at 1 in E. rewrite !fmap_app, !join_app, <- !app_assoc in E.
  assert (forall y, links d y -> m y = md y) as Hmd by (intros; by apply (Hm d); [left|]).
  apply app_eq_inv in E as [(p1 & -> & E)|(x1 & E & Ex)].
  2:{ destruct x1 as [|c x1]; [|by eapply section_head_short]. rewrite app_nil_r in E. 
      eapply (section_body_short _ _ _ _ _ _ _ d []); [done..|by rewrite app_nil_r, E|done]. }
  apply app_eq_inv in E as [(x1 & E & Ex)|(p2 & -> & E)]; [by eapply section_body_short|].
  destruct (decide (p2 = [])) as [->|Hne].
  { rewrite app_nil_r in Hr. eapply (section_body_short _ _ _ _ _ _ _ d _ []); [done..|by rewrite app_nil_r]. }
  destruct Hld as [Hfind Hver].
  destruct (header_load rops ext stack remaining n l les f m (src d) (dst d) _ Hvd Hfind Hver Hf Hr) as (g & h & les' & Eb & Hh & Rh & _ & Es).
  destruct (sc_load _ _ _ _ _ _ _ _ Hd h m p2 Hmd Hh Rh) as (g' & m1 & El & Hg & Rg & _ & _ & Hfr).
  { destruct p2 as [|c p2]; [done|]. destruct ds; injection E as <- _; done. }
  rewrite load_sections_step, Eb. change (QEMU_VM_SECTION_FULL =? QEMU_VM_EOF) with false. cbn iota.
  rewrite Es, El. cbn [mbind option_bind]. cbn iota beta. change (0 <? 0) with false. cbn iota.
  eapply IH; eauto. intros e y He Hy. rewrite Hfr; [apply (Hm e); [by right|done]|].
  intros Hcy. by apply (Hap e He) in Hcy as [_ ?].
Qed.

Lemma load_truncated n ms md l ds f p x :
  Forall (section_contract wops rops ext remaining n ms md) ds -> Forall (short_contract n md) ds -> Forall (robust n) l ->
  Forall (fun d => valid_entry (src d)) ds -> Forall (found l) ds ->
  ForallOrdPairs (fun d e => apart d e /\ apart e d) ds -> rinv f -> rest remaining f = p ->
  p ++ x = mjoin (item_bytes ext <$> file_items ds) -> x <> [] ->
  exists r g m', qemu_loadvm_state rops stack (Datatypes.S (length ds)) n l f md = Some (r, g, m') /\ r <> 0.
Proof.
  intros Hc Hs Hrob Hv Hl Hp Hf Hr E Hx. unfold qemu_loadvm_state.
  destruct (qemu_savevm_state_blocked l); [by exists (- EINVAL), f, md|].
  unfold file_items in E. rewrite !fmap_app, !join_app in E. cbn [fmap list_fmap mjoin list_join item_bytes] in E.
  rewrite <- !app_assoc in E.
  set (finish g := '(ret, f, m) ← load_sections rops stack (Datatypes.S (length ds)) n l [] g md;
      Some (if ret =? 0 then qemu_file_get_error f else ret, f, m)).
  assert (forall g, dead remaining g -> exists r h m', finish g = Some (r, h, m') /\ r <> 0) as Hdead.
  { intros g (Hg & Rg & _). destruct (sections_end (length ds) n l [] g md Hg Rg) as (h & Eh & (_ & _ & Hh)).
    unfold finish. rewrite Eh. by exists (last_error h), h, md. }
  assert (forall p g, rinv g -> rest remaining g = p -> p ++ x = mjoin (item_bytes ext <$> machine_items ds) ++ [QEMU_VM_EOF] ->
    exists r h m', finish g = Some (r, h, m') /\ r <> 0) as Hrest.
  { intros q g Hg Rg Eq. unfold finish. destruct (sections_short n ms md l ds [] g md q x) as (r & h & m' & -> & Hend); auto.
    cbn. eexists _, h, m'. split; [done|]. unfold qemu_file_get_error. destruct (Z.eqb_spec r 0); [|done].
    destruct Hend as [?|(_ & _ & ?)]; done. }
  pose proof (get_be32_drains rops remaining) as D.
  pose proof (drains_short _ _ _ D f Hf) as D1. cbn beta in D1. destruct (qemu_get_be32 rops f) as [v1 f1] eqn:E1. cbn [snd] in D1.
  destruct (decide (length p < 4)%nat) as [H4|H4].
  { rewrite <- Hr in H4. specialize (D1 H4). destruct (negb _); [by exists (- EINVAL), f1, md|].
    pose proof (drains_dead _ _ _ D f1 D1) as D2. cbn beta in D2. destruct (qemu_get_be32 rops f1) as [v2 f2]. cbn [snd] in D2.
    destruct (negb _); [by exists (- ENOTSUP), f2, md|]. by apply Hdead. }
  apply prefix_split in E as (p1 & -> & E'); [|rewrite length_be_bytes; lia].
  destruct (get_be32_spec rops remaining f _ _ Hf Hr) as (f1' & E1' & H1 & R1 & _).
  rewrite E1 in E1'. injection E1' as -> <-. destruct (negb _); [by exists (- EINVAL), f1, md|].
  pose proof (drains_short _ _ _ D f1 H1) as D2. cbn beta in D2. destruct (qemu_get_be32 rops f1) as [v2 f2] eqn:E2. cbn [snd] in D2.
  destruct (negb _); [by exists (- ENOTSUP), f2, md|].
  destruct (decide (length p1 < 4)%nat) as [H5|H5]; [apply Hdead, D2; by rewrite R1|].
  apply prefix_split in E' as (p2 & -> & E'); [|rewrite length_be_bytes; lia].
  destruct (get_be32_spec rops remaining f1 _ _ H1 R1) as (f2' & E2' & H2 & R2 & _).
  rewrite E2 in E2'. injection E2' as -> <-. by apply (Hrest p2).
Qed.

Lemma parts_short n ms md l (ps : list part) : Forall (part_ok ext n ms md l) ps -> Forall (short_contract n md) (device_of n ms md <$> ps).
Proof. intros H. apply Forall_fmap. eapply Forall_impl; [exact H|]. intros p []. by apply described_short. Qed.
(** An entry of the machine that loads: it has a plain description, which has
    no handler for old versions. *)
Definition loadable n se : Prop := exists d, se_vmsd se = Some d /\ plain n d /\ no_old d.
Lemma loadable_robust n se : loadable n se -> robust n se.
Proof. intros (d & Ed & Hp & Ho). by eapply described_robust. Qed.

End Machine.

(** The first fifty bytes of the demonstration machine: its timer device ends
    within its fields. *)
Lemma demo_loadable : Forall (loadable 2) demo_entries.
Proof.
  apply Forall_cons. split; [|apply Forall_singleton].
  - exists Migrate.vmstate_rtt. split; [done|]. split; [apply Migrate.vmstate_rtt_plain|]. unfold no_old. cbn. lia.
  - exists Migrate.vmstate_pmc. split; [done|]. split; [apply Migrate.vmstate_pmc_plain|]. unfold no_old. cbn. lia.
Qed.
End Truncated.
