(* ===== verification/Xbzrle.v ===== *)
(** * Delta encoding of pages (xbzrle.c, util/cutils.c)

    [xbzrle_encode_buffer] writes a page as alternating lengths of unchanged
    and changed runs, with the bytes of the changed ones; it compares a word
    at a time and finds the end of a changed run with a bit trick.
    [xbzrle_decode_buffer] applies such a delta to the old page. *)

From S2P Require Import Prelude.

Module Xbzrle.

(** ** Lengths (util/cutils.c) *)

(** The assertion [n <= 0x3fff] is the [None]. *)
Definition uleb128_encode_small (n : Z) : option (list Z) :=
  if 0x3fff <? n then None
  else if n <? 0x80 then Some [u8 n]
  else Some [u8 ((n .& 0x7f) .| 0x80); u8 (n .>> 7)].
(** The result and the number; it reads one byte or two. *)
Definition uleb128_decode_small (b0 b1 : Z) : Z * Z :=
  if negb (b0 .&? 0x80) then (1, b0)
  else if b1 .&? 0x80 then (-1, b0 .& 0x7f)
  else (2, (b0 .& 0x7f) .| (b1 .<< 7)).

(** ** Encoding *)

Section Encode.
Context (old new : list Z) (slen : Z).

Definition same (i : Z) : bool := aget 0 old i =? aget 0 new i.
(** The little-endian word at [i]. *)
Fixpoint word (l : list Z) (i : Z) (n : nat) : Z :=
  match n with O => 0 | S n => aget 0 l i .| (word l (i + 1) n .<< 8) end.
Definition long (l : list Z) (i : Z) : Z := word l i 8.

(** Each loop has the variables it changes as its state; the run length grows
    with the index. *)
Fixpoint head_same (fuel : nat) (res i len : Z) : Z * Z * Z :=
  match fuel with
  | O => (res, i, len)
  | S fuel => if negb (res =? 0) && same i then head_same fuel (res - 1) (i + 1) (u32 (len + 1)) else (res, i, len)
  end.
Fixpoint words_same (fuel : nat) (i len : Z) : Z * Z :=
  match fuel with
  | O => (i, len)
  | S fuel => if (i <? slen) && (long old i =? long new i) then words_same fuel (i + 8) (u32 (len + 8)) else (i, len)
  end.
Fixpoint tail_same (fuel : nat) (i len : Z) : Z * Z :=
  match fuel with
  | O => (i, len)
  | S fuel => if (i <? slen) && same i then tail_same fuel (i + 1) (u32 (len + 1)) else (i, len)
  end.
Definition zero_run (i len : Z) : Z * Z :=
  let n := Z.to_nat slen in
  let '(res, i, len) := head_same n ((slen - i) mod 8) i len in
  if res =? 0 then
    let '(i, len) := words_same n i len in
    tail_same n i len
  else (i, len).

Fixpoint head_diff (fuel : nat) (res i len : Z) : Z * Z * Z :=
  match fuel with
  | O => (res, i, len)
  | S fuel => if negb (res =? 0) && negb (same i) then head_diff fuel (res - 1) (i + 1) (u32 (len + 1)) else (res, i, len)
  end.
Fixpoint bytes_diff (fuel : nat) (i len : Z) : Z * Z :=
  match fuel with
  | O => (i, len)
  | S fuel => if negb (same i) then bytes_diff fuel (i + 1) (u32 (len + 1)) else (i, len)
  end.
Definition mask := 0x0101010101010101.
(** Some byte of the word is zero. *)
Definition has_zero (x : Z) : bool := (u64 (x - mask) .& u64 (Z.lnot x)) .&? u64 (mask .<< 7).
Fixpoint words_diff (fuel : nat) (i len : Z) : Z * Z :=
  match fuel with
  | O => (i, len)
  | S fuel =>
      if i <? slen then
        if has_zero (long old i .^ long new i) then bytes_diff (Z.to_nat slen) i len
        else words_diff fuel (i + 8) (u32 (len + 8))
      else (i, len)
  end.
Definition nonzero_run (i len : Z) : Z * Z :=
  let n := Z.to_nat slen in
  let '(res, i, len) := head_diff n ((slen - i) mod 8) i len in
  if res =? 0 then words_diff n i len else (i, len).

(** The result of the function and the bytes stored at [dst]; [None] is a
    failed assertion. *)
Inductive outcome := Overflow | Encoded (out : list Z).
Definition ret (o : outcome) : Z := match o with Overflow => -1 | Encoded out => Z.of_nat (length out) end.

Fixpoint encode_loop (fuel : nat) (dlen i : Z) (out : list Z) : option outcome :=
  match fuel with
  | O => None
  | S fuel =>
      if i <? slen then
        if dlen <? Z.of_nat (length out) + 2 then Some Overflow
        else
          let '(i, zrun_len) := zero_run i 0 in
          if zrun_len =? slen then Some (Encoded [])
          else if i =? slen then Some (Encoded out)
          else
            z ← uleb128_encode_small zrun_len;
            let out := out ++ z in
            let start := i in
            if dlen <? Z.of_nat (length out) + 2 then Some Overflow
            else
              let '(i, nzrun_len) := nonzero_run i 0 in
              z ← uleb128_encode_small nzrun_len;
              let out := out ++ z in
              if dlen <? Z.of_nat (length out) + nzrun_len then Some Overflow
              else encode_loop fuel dlen i (out ++ slice new start nzrun_len)
      else Some (Encoded out)
  end.
Definition xbzrle_encode_buffer (dlen : Z) : option outcome :=
  if negb (slen mod 8 =? 0) then None else encode_loop (S (Z.to_nat slen)) dlen 0 [].
End Encode.

(** ** Decoding *)

Section Decode.
Context (src : list Z) (slen dlen : Z).

Record cursor := mkCursor { ci : Z; cd : Z; cdst : list Z }.
(** One round of the loop; [None] is the result -1.  [count] is unsigned, so
    the sums with it are, and stored back they are signed. *)
Definition decode_round (c : cursor) : option cursor :=
  let i := ci c in let d := cd c in
  if slen - i <? 2 then None
  else
    let '(r, count) := uleb128_decode_small (aget 0 src i) (aget 0 src (i + 1)) in
    if (r <? 0) || (negb (i =? 0) && (count =? 0)) then None
    else
      let i := i + r in
      let d := s32 (d + count) in
      if dlen <? d then None
      else if slen - i <? 2 then None
      else
        let '(r, count) := uleb128_decode_small (aget 0 src i) (aget 0 src (i + 1)) in
        if (r <? 0) || (count =? 0) then None
        else
          let i := i + r in
          if (u32 dlen <? u32 (d + count)) || (u32 slen <? u32 (i + count)) then None
          else Some (mkCursor (s32 (i + count)) (s32 (d + count)) (memcpy (cdst c) d (slice src i count))).
(** The result of the function and the page; a round that fails leaves the
    page as the rounds before it did. *)
Fixpoint decode_loop (fuel : nat) (c : cursor) : option (Z * list Z) :=
  match fuel with
  | O => None
  | S fuel => if ci c <? slen then
                match decode_round c with None => Some (-1, cdst c) | Some c => decode_loop fuel c end
              else Some (cd c, cdst c)
  end.
End Decode.
(** A round consumes at least two bytes. *)
Definition xbzrle_decode_buffer (src : list Z) (slen : Z) (dst : list Z) (dlen : Z) : option (Z * list Z) :=
  decode_loop src slen dlen (S (Z.to_nat slen)) (mkCursor 0 0 dst).
End Xbzrle.
