(* ===== verification/XbzrleProps.v ===== *)
(** * The delta encoding is exact

    The word-wise encoder computes the maximal runs a byte-wise one would, and
    decoding its output over the old page yields the new page; the decoder
    stays inside its buffers whatever it is given. *)

From S2P Require Import Prelude Xbzrle.

Module XbzrleProps.
Import Xbzrle.

(** ** Bytes of words *)

Lemma testbit_cons b q k : is_u 8 b -> 0 <= k ->
  Z.testbit (b + 2 ^ 8 * q) k = if k <? 8 then Z.testbit b k else Z.testbit q (k - 8).
Proof.
  intros [Hb1 Hb2] Hk. destruct (Z.ltb_spec k 8).
  - rewrite <- (Z.mod_pow2_bits_low (b + 2 ^ 8 * q) 8) by lia.
    rewrite Z.mul_comm, Z.mod_add, Z.mod_small by lia. done.
  - replace k with (k - 8 + 8) at 1 by lia. rewrite <- Z.div_pow2_bits by lia.
    rewrite Z.mul_comm, Z.div_add, Z.div_small by lia. done.
Qed.

Lemma byte_u l i : Forall (is_u 8) l -> is_u 8 (aget 0 l i).
Proof. intros Hl. apply (Forall_aget (is_u 8)); [by vm_compute|done]. Qed.
Lemma word_cons l i n : Forall (is_u 8) l -> word l i (S n) = aget 0 l i + 2 ^ 8 * word l (i + 1) n.
Proof.
  intros Hl. cbn [word]. pose proof (byte_u l i Hl) as [? ?]. rewrite Z.lor_comm, lor_shiftl_add by lia. lia.
Qed.
Lemma word_range l n : Forall (is_u 8) l -> forall i, 0 <= word l i n < 2 ^ (8 * Z.of_nat n).
Proof.
  intros Hl. induction n as [|n IH]; intros i; [done|]. rewrite word_cons by done.
  pose proof (byte_u l i Hl) as [? ?]. specialize (IH (i + 1)).
  replace (8 * Z.of_nat (S n)) with (8 + 8 * Z.of_nat n) by lia. rewrite Z.pow_add_r by lia. lia.
Qed.

(** Equal words have equal bytes. *)
Lemma word_eq a b n : Forall (is_u 8) a -> Forall (is_u 8) b -> forall i, word a i n = word b i n ->
  forall k, i <= k < i + Z.of_nat n -> aget 0 a k = aget 0 b k.
Proof.
  intros Ha Hb. induction n as [|n IH]; intros i E k Hk; [lia|]. rewrite !word_cons in E by done.
  pose proof (byte_u a i Ha) as [? ?]. pose proof (byte_u b i Hb) as [? ?].
  assert (aget 0 a i = aget 0 b i /\ word a (i + 1) n = word b (i + 1) n) as [E1 E2] by lia.
  destruct (decide (k = i)) as [->|]; [done|]. apply (IH (i + 1)); [done|lia].
Qed.

(** ** The zero-byte test *)

(** [lanes n] is 1 in each of [n] bytes. *)
Fixpoint lanes (n : nat) : Z := match n with O => 0 | S n => 1 + 2 ^ 8 * lanes n end.
(** A lane of the word underflows without having had its top bit. *)
Definition flagged (n : nat) (x : Z) : Prop :=
  exists j, (j < n)%nat /\ Z.testbit (x - lanes n) (8 * Z.of_nat j + 7) = true /\ Z.testbit x (8 * Z.of_nat j + 7) = false.

Lemma flagged_cons n b q : is_u 8 b -> (flagged (S n) (b + 2 ^ 8 * q) <-> b = 0 \/ flagged n q).
Proof.
  intros Hb. pose proof Hb as [Hb1 Hb2]. unfold flagged. cbn [lanes].
  destruct (decide (b = 0)) as [->|Hne].
  - split; [by left|]. intros _. exists 0%nat. split; [lia|]. rewrite Z.add_0_l.
    replace (2 ^ 8 * q - (1 + 2 ^ 8 * lanes n)) with (255 + 2 ^ 8 * (q - lanes n - 1)) by lia.
    replace (2 ^ 8 * q) with (0 + 2 ^ 8 * q) by lia. rewrite !testbit_cons by (done || lia). done.
  - replace (b + 2 ^ 8 * q - (1 + 2 ^ 8 * lanes n)) with ((b - 1) + 2 ^ 8 * (q - lanes n)) by lia.
    assert (is_u 8 (b - 1)) as Hb' by (split; lia). split.
    + intros (j & Hj & H1 & H2). right. rewrite testbit_cons in H1, H2 by (done || lia).
      destruct j as [|j].
      * exfalso. change (8 * Z.of_nat 0 + 7 <? 8) with true in *. cbn iota in H1, H2. change (8 * Z.of_nat 0 + 7) with 7 in *.
        revert H1 H2. rewrite !Z.testbit_true, Z.testbit_false by lia. change (2 ^ 7) with 128. intros H1 H2.
        destruct (Z_lt_le_dec b 128); [rewrite Z.div_small in H1 by lia; done|].
        assert (b / 128 = 1) as E by (symmetry; apply (Z.div_unique b 128 1 (b - 128)); lia). by rewrite E in H2.
      * exists j. split; [lia|]. destruct (Z.ltb_spec (8 * Z.of_nat (S j) + 7) 8); [lia|].
        replace (8 * Z.of_nat (S j) + 7 - 8) with (8 * Z.of_nat j + 7) in * by lia. done.
    + intros [?|(j & Hj & H1 & H2)]; [lia|]. exists (S j). split; [lia|]. rewrite !testbit_cons by (done || lia).
      destruct (Z.ltb_spec (8 * Z.of_nat (S j) + 7) 8); [lia|].
      replace (8 * Z.of_nat (S j) + 7 - 8) with (8 * Z.of_nat j + 7) by lia. done.
Qed.

Lemma land_nonzero x : 0 <= x -> (truth x = true <-> exists k, 0 <= k /\ Z.testbit x k = true).
Proof.
  intros Hx. rewrite truth_true. split.
  - intros Hne. exists (Z.log2 x). split; [apply Z.log2_nonneg|]. apply Z.bit_log2. lia.
  - intros (k & Hk & Hb) ->. by rewrite Z.bits_0 in Hb.
Qed.
(** The top bits of the lanes. *)
Lemma lane_bit k : 0 <= k -> Z.testbit (u64 (mask .<< 7)) k = true -> exists j, (j < 8)%nat /\ k = 8 * Z.of_nat j + 7.
Proof.
  intros Hk Hb. assert (k < 64) as Hlt.
  { destruct (Z_lt_le_dec k 64); [done|]. unfold u64 in Hb. by rewrite Z.mod_pow2_bits_high in Hb by lia. }
  assert (forall j, (j < 64)%nat -> Z.testbit (u64 (mask .<< 7)) (Z.of_nat j) = true -> Nat.modulo j 8 = 7%nat) as H.
  { intros j Hj. assert (Forall (fun j => Z.testbit (u64 (mask .<< 7)) (Z.of_nat j) = true -> Nat.modulo j 8 = 7%nat) (seq 0 64)) as HF
      by (apply (bool_decide_unpack _); by vm_compute).
    rewrite Forall_forall in HF. apply HF. apply elem_of_seq. lia. }
  specialize (H (Z.to_nat k) ltac:(lia)). rewrite Z2Nat.id in H by lia. specialize (H Hb).
  exists (Z.to_nat k / 8)%nat. pose proof (Nat.div_mod (Z.to_nat k) 8 ltac:(lia)). split; [|lia].
  apply Nat.Div0.div_lt_upper_bound. lia.
Qed.
Lemma lane_set j : (j < 8)%nat -> Z.testbit (u64 (mask .<< 7)) (8 * Z.of_nat j + 7) = true.
Proof. intros Hj. do 8 (destruct j as [|j]; [done|]). lia. Qed.
Lemma has_zero_flagged x : is_u 64 x -> (has_zero x = true <-> flagged 8 x).
Proof.
  intros [Hx1 Hx2]. unfold has_zero. rewrite land_nonzero.
  2: { apply Z.land_nonneg. right. unfold u64. apply Z.mod_pos_bound. lia. }
  split.
  - intros (k & Hk & Hb). rewrite !Z.land_spec, !andb_true_iff in Hb. destruct Hb as [[H1 H2] H3].
    destruct (lane_bit k Hk H3) as (j & Hj & ->). exists j. split; [done|]. unfold u64 in *.
    rewrite Z.mod_pow2_bits_low in H1, H2 by lia. rewrite Z.lnot_spec in H2 by lia.
    split; [exact H1|]. by apply negb_true_iff.
  - intros (j & Hj & H1 & H2). exists (8 * Z.of_nat j + 7). split; [lia|]. rewrite !Z.land_spec, lane_set by done.
    unfold u64. rewrite !Z.mod_pow2_bits_low by lia. rewrite Z.lnot_spec, H2 by lia.
    change mask with (lanes 8). by rewrite H1.
Qed.

(** The difference of two words, byte by byte. *)
Lemma lxor_cons a b p q : is_u 8 a -> is_u 8 b -> (a + 2 ^ 8 * p) .^ (b + 2 ^ 8 * q) = (a .^ b) + 2 ^ 8 * (p .^ q).
Proof.
  intros Ha Hb. assert (is_u 8 (a .^ b)) by (apply is_u_lxor; done || lia). apply Z.bits_inj'. intros k Hk.
  rewrite Z.lxor_spec, !testbit_cons by (done || lia). destruct (k <? 8); by rewrite Z.lxor_spec.
Qed.
Lemma flagged_words a b n : Forall (is_u 8) a -> Forall (is_u 8) b -> forall i,
  flagged n (word a i n .^ word b i n) <-> exists k, i <= k < i + Z.of_nat n /\ aget 0 a k = aget 0 b k.
Proof.
  intros Ha Hb. induction n as [|n IH]; intros i.
  - split; [intros (j & ? & _); lia|intros (k & ? & _); lia].
  - rewrite !word_cons, lxor_cons by (done || by apply byte_u).
    rewrite flagged_cons, IH by (apply is_u_lxor; [lia|by apply byte_u..]). rewrite Z.lxor_eq_0_iff. split.
    + intros [E|(k & Hk & E)]; [exists i|exists k]; split; done || lia.
    + intros (k & Hk & E). destruct (decide (k = i)) as [->|]; [by left|]. right. exists k. split; [lia|done].
Qed.
Lemma has_zero_words a b i : Forall (is_u 8) a -> Forall (is_u 8) b ->
  (has_zero (long a i .^ long b i) = true <-> exists k, i <= k < i + 8 /\ aget 0 a k = aget 0 b k).
Proof.
  intros Ha Hb. rewrite has_zero_flagged; [by apply (flagged_words a b 8)|].
  apply is_u_lxor; [lia|apply (word_range a 8 Ha)|apply (word_range b 8 Hb)].
Qed.

(** ** Runs *)

(** [head_same] and [head_diff] for a predicate on positions. *)
Fixpoint head (p : Z -> bool) (fuel : nat) (res i len : Z) : Z * Z * Z :=
  match fuel with
  | O => (res, i, len)
  | S fuel => if negb (res =? 0) && p i then head p fuel (res - 1) (i + 1) (u32 (len + 1)) else (res, i, len)
  end.
Lemma u32_next x n : 0 <= x -> 0 <= n -> x + n < 2 ^ 32 -> u32 (x + n) = x + n.
Proof. intros. apply u32_small. split; lia. Qed.
Lemma head_spec p fuel res i len : 0 <= res <= Z.of_nat fuel -> 0 <= len -> len + res < 2 ^ 32 ->
  exists k, head p fuel res i len = (res - k, i + k, len + k) /\ 0 <= k <= res /\
    (forall x, i <= x < i + k -> p x = true) /\ (k < res -> p (i + k) = false).
Proof.
  revert res i len. induction fuel as [|fuel IH]; intros res i len Hr Hl Hb; cbn [head].
  - exists 0. rewrite Z.sub_0_r, !Z.add_0_r. repeat split; try lia. 
  - destruct (Z.eqb_spec res 0) as [->|Hne]; cbn [negb andb].
    { exists 0. rewrite !Z.add_0_r. repeat split; lia. }
    destruct (p i) eqn:Ep.
    + rewrite u32_next by lia. destruct (IH (res - 1) (i + 1) (len + 1)) as (k & E & Hk & H1 & H2); [lia..|].
      exists (k + 1). rewrite E. split; [f_equal; [f_equal|]; lia|]. split; [lia|]. split.
      * intros x Hx. destruct (decide (x = i)) as [->|]; [done|]. apply H1. lia.
      * intros Hk'. replace (i + (k + 1)) with (i + 1 + k) by lia. apply H2. lia.
    + exists 0. rewrite Z.sub_0_r, !Z.add_0_r. repeat split; try lia. done.
Qed.

Section Encoder.
Context (old new : list Z) (slen : Z).
Context (Hold : Forall (is_u 8) old) (Hnew : Forall (is_u 8) new) (Hs : 0 <= slen < 2 ^ 31) (Ha : slen mod 8 = 0).

Lemma head_same_eq fuel res i len : head_same old new fuel res i len = head (same old new) fuel res i len.
Proof. revert res i len. induction fuel as [|fuel IH]; intros; cbn; [done|]. by rewrite IH. Qed.
Definition differ (i : Z) : bool := negb (same old new i).
Lemma head_diff_eq fuel res i len : head_diff old new fuel res i len = head differ fuel res i len.
Proof. revert res i len. induction fuel as [|fuel IH]; intros; cbn; [done|]. by rewrite IH. Qed.

(** The maximal run of [p] that starts at [i] ends at [j]. *)
Definition run (p : Z -> bool) (i j : Z) : Prop :=
  i <= j <= slen /\ (forall k, i <= k < j -> p k = true) /\ (j < slen -> p j = false).
Lemma run_unique p i j j' : run p i j -> run p i j' -> j = j'.
Proof.
  intros (H1 & H2 & H3) (H1' & H2' & H3'). destruct (Z.lt_total j j') as [H|[H|H]]; [|done|].
  - rewrite H2' in H3 by lia. by discriminate H3; lia.
  - rewrite H2 in H3' by lia. by discriminate H3'; lia.
Qed.
Lemma run_extend p i j k : i <= j -> (forall x, i <= x < j -> p x = true) -> run p j k -> run p i k.
Proof.
  intros Hij Hp (H1 & H2 & H3). split; [lia|]. split; [|done]. intros x Hx.
  destruct (Z_lt_le_dec x j); [apply Hp; lia|apply H2; lia].
Qed.

Lemma tail_same_spec fuel i len : 0 <= i <= slen -> slen - i <= Z.of_nat fuel -> 0 <= len -> len + (slen - i) < 2 ^ 32 ->
  exists j, tail_same old new slen fuel i len = (j, len + (j - i)) /\ run (same old new) i j.
Proof.
  revert i len. induction fuel as [|fuel IH]; intros i len Hi Hf Hl Hb; cbn [tail_same].
  - exists i. split; [f_equal; lia|]. repeat split; lia.
  - destruct (Z.ltb_spec i slen); cbn [andb].
    + destruct (same old new i) eqn:Es.
      * rewrite u32_next by lia. destruct (IH (i + 1) (len + 1)) as (j & E & Hr); [lia..|]. exists j.
        pose proof Hr as (? & _). rewrite E. split; [f_equal; lia|].
        apply (run_extend _ _ (i + 1)); [lia| |done]. intros x Hx. by replace x with i by lia.
      * exists i. split; [f_equal; lia|]. split; [lia|]. split; [lia|done].
    + exists i. split; [f_equal; lia|]. repeat split; lia.
Qed.
Lemma long_same i : long old i = long new i -> forall k, i <= k < i + 8 -> same old new k = true.
Proof. intros E k Hk. apply Z.eqb_eq. by apply (word_eq old new 8 Hold Hnew i). Qed.
Lemma words_same_spec fuel i len : 0 <= i <= slen -> (slen - i) mod 8 = 0 -> 0 <= len -> len + (slen - i) < 2 ^ 32 ->
  exists j, words_same old new slen fuel i len = (j, len + (j - i)) /\ i <= j <= slen /\
    (forall k, i <= k < j -> same old new k = true).
Proof.
  revert i len. induction fuel as [|fuel IH]; intros i len Hi Hm Hl Hb; cbn [words_same].
  - exists i. split; [f_equal; lia|]. split; lia.
  - destruct (Z.ltb_spec i slen); cbn [andb]; [|exists i; split; [f_equal; lia|]; split; lia].
    destruct (Z.eqb_spec (long old i) (long new i)) as [E|E]; [|exists i; split; [f_equal; lia|]; split; lia].
    assert (i + 8 <= slen) by (pose proof (Z.div_mod (slen - i) 8); lia).
    rewrite u32_next by lia. destruct (IH (i + 8) (len + 8)) as (j & Ej & Hj & Hr); [lia| |lia|lia|].
    + replace (slen - (i + 8)) with (slen - i + (-1) * 8) by lia. by rewrite Z.mod_add.
    + exists j. rewrite Ej. split; [f_equal; lia|]. split; [lia|]. intros k Hk.
      destruct (Z_lt_le_dec k (i + 8)); [by apply (long_same i); [|lia]|apply Hr; lia].
Qed.
Lemma zero_run_spec i : 0 <= i <= slen -> exists j, zero_run old new slen i 0 = (j, j - i) /\ run (same old new) i j.
Proof.
  intros Hi. unfold zero_run. cbv zeta. rewrite head_same_eq.
  pose proof (Z.mod_pos_bound (slen - i) 8). pose proof (Z.mod_le (slen - i) 8).
  destruct (head_spec (same old new) (Z.to_nat slen) ((slen - i) mod 8) i 0) as (k & -> & Hk & H1 & H2); [lia..|].
  destruct (Z.eqb_spec ((slen - i) mod 8 - k) 0) as [E|E].
  - destruct (words_same_spec (Z.to_nat slen) (i + k) (0 + k)) as (j & -> & Hj & Hsame); [lia| |lia|lia|].
    { replace (slen - (i + k)) with (slen - i - (slen - i) mod 8) by lia.
      rewrite Zminus_mod_idemp_r, Z.sub_diag. done. }
    destruct (tail_same_spec (Z.to_nat slen) j (0 + k + (j - (i + k)))) as (j' & -> & Hr); [lia..|].
    exists j'. split; [f_equal; lia|]. apply (run_extend _ _ j); [lia| |done]. intros x Hx.
    destruct (Z_lt_le_dec x (i + k)); [apply H1; lia|apply Hsame; lia].
  - exists (i + k). split; [f_equal; lia|]. split; [lia|]. split; [done|]. intros _. apply H2. lia.
Qed.

Lemma bytes_diff_spec fuel i len : 0 <= i -> 0 <= len -> (exists k, i <= k < i + Z.of_nat fuel /\ k < slen /\ same old new k = true) ->
  len + Z.of_nat fuel < 2 ^ 32 ->
  exists j, bytes_diff old new fuel i len = (j, len + (j - i)) /\ run differ i j.
Proof.
  revert i len. induction fuel as [|fuel IH]; intros i len Hi Hl (k & Hk & Hks & Hsame) Hb; [lia|]. cbn [bytes_diff].
  destruct (same old new i) eqn:Es; cbn [negb].
  - exists i. split; [f_equal; lia|]. split; [lia|]. split; [lia|]. intros _. unfold differ. by rewrite Es.
  - assert (k <> i) by congruence. rewrite u32_next by lia.
    destruct (IH (i + 1) (len + 1)) as (j & E & Hr); [lia|lia|exists k; split; [lia|done]|lia|]. exists j.
    pose proof Hr as (? & _). rewrite E. split; [f_equal; lia|]. apply (run_extend _ _ (i + 1)); [lia| |done].
    intros x Hx. replace x with i by lia. unfold differ. by rewrite Es.
Qed.
Lemma words_diff_spec fuel i len : 0 <= i <= slen -> (slen - i) mod 8 = 0 -> slen - i <= Z.of_nat fuel -> 0 <= len <= i ->
  exists j, words_diff old new slen fuel i len = (j, len + (j - i)) /\ run differ i j.
Proof.
  revert i len. induction fuel as [|fuel IH]; intros i len Hi Hm Hf Hl; cbn [words_diff].
  - exists i. split; [f_equal; lia|]. repeat split; lia.
  - destruct (Z.ltb_spec i slen); [|exists i; split; [f_equal; lia|]; repeat split; lia].
    assert (i + 8 <= slen) by (pose proof (Z.div_mod (slen - i) 8); lia).
    destruct (has_zero (long old i .^ long new i)) eqn:Ez.
    + apply has_zero_words in Ez as (k & Hk & E); [|done..].
      apply bytes_diff_spec; [lia|lia| |lia]. exists k. split; [lia|]. split; [lia|]. by apply Z.eqb_eq.
    + rewrite u32_next by lia. destruct (IH (i + 8) (len + 8)) as (j & E & Hr); [lia| |lia|lia|].
      { replace (slen - (i + 8)) with (slen - i + (-1) * 8) by lia. by rewrite Z.mod_add. }
      exists j. pose proof Hr as (? & _). rewrite E. split; [f_equal; lia|]. apply (run_extend _ _ (i + 8)); [lia| |done].
      intros k Hk. unfold differ. destruct (same old new k) eqn:Es; [|done]. apply Z.eqb_eq in Es.
      enough (has_zero (long old i .^ long new i) = true) by congruence. apply has_zero_words; [done..|]. by exists k.
Qed.
Lemma nonzero_run_spec i : 0 <= i < slen -> exists j, nonzero_run old new slen i 0 = (j, j - i) /\ run differ i j.
Proof.
  intros Hi. unfold nonzero_run. cbv zeta. rewrite head_diff_eq.
  pose proof (Z.mod_pos_bound (slen - i) 8). pose proof (Z.mod_le (slen - i) 8).
  destruct (head_spec differ (Z.to_nat slen) ((slen - i) mod 8) i 0) as (k & -> & Hk & H1 & H2); [lia..|].
  destruct (Z.eqb_spec ((slen - i) mod 8 - k) 0) as [E|E].
  - destruct (words_diff_spec (Z.to_nat slen) (i + k) (0 + k)) as (j & -> & Hr); [lia| |lia|lia|].
    { replace (slen - (i + k)) with (slen - i - (slen - i) mod 8) by lia.
      rewrite Zminus_mod_idemp_r, Z.sub_diag. done. }
    pose proof Hr as (? & _). exists j. split; [f_equal; lia|]. by apply (run_extend _ _ (i + k)); [lia| |].
  - exists (i + k). split; [f_equal; lia|]. split; [lia|]. split; [done|]. intros _. apply H2. lia.
Qed.

(** ** The byte-wise reference *)

(** The first position from [i] on where [p] fails. *)
Fixpoint span (p : Z -> bool) (fuel : nat) (i : Z) : Z :=
  match fuel with O => i | S fuel => if (i <? slen) && p i then span p fuel (i + 1) else i end.
Lemma span_run p fuel i : 0 <= i <= slen -> slen - i <= Z.of_nat fuel -> run p i (span p fuel i).
Proof.
  revert i. induction fuel as [|fuel IH]; intros i Hi Hf; cbn [span]; [repeat split; lia|].
  destruct (Z.ltb_spec i slen); cbn [andb]; [|repeat split; lia].
  destruct (p i) eqn:Ep; [|split; [lia|]; split; [lia|done]].
  apply (run_extend _ _ (i + 1)); [lia| |apply IH; lia]. intros x Hx. by replace x with i by lia.
Qed.
Definition next (p : Z -> bool) (i : Z) : Z := span p (Z.to_nat slen) i.
Lemma zero_run_next i : 0 <= i <= slen -> zero_run old new slen i 0 = (next (same old new) i, next (same old new) i - i).
Proof.
  intros Hi. destruct (zero_run_spec i Hi) as (j & -> & Hr).
  by rewrite (run_unique _ _ _ _ Hr (span_run (same old new) (Z.to_nat slen) i Hi ltac:(lia))).
Qed.
Lemma nonzero_run_next i : 0 <= i < slen -> nonzero_run old new slen i 0 = (next differ i, next differ i - i).
Proof.
  intros Hi. destruct (nonzero_run_spec i Hi) as (j & -> & Hr).
  by rewrite (run_unique _ _ _ _ Hr (span_run differ (Z.to_nat slen) i ltac:(lia) ltac:(lia))).
Qed.

Fixpoint reference_loop (fuel : nat) (dlen i : Z) (out : list Z) : option outcome :=
  match fuel with
  | O => None
  | S fuel =>
      if i <? slen then
        if dlen <? Z.of_nat (length out) + 2 then Some Overflow
        else
          let a := next (same old new) i in
          if (i =? 0) && (a =? slen) then Some (Encoded [])
          else if a =? slen then Some (Encoded out)
          else
            z ← uleb128_encode_small (a - i);
            if dlen <? Z.of_nat (length (out ++ z)) + 2 then Some Overflow
            else
              let b := next differ a in
              z' ← uleb128_encode_small (b - a);
              let out := out ++ z ++ z' in
              if dlen <? Z.of_nat (length out) + (b - a) then Some Overflow
              else reference_loop fuel dlen b (out ++ slice new a (b - a))
      else Some (Encoded out)
  end.
Lemma encode_reference fuel dlen i out : 0 <= i <= slen ->
  encode_loop old new slen fuel dlen i out = reference_loop fuel dlen i out.
Proof.
  revert i out. induction fuel as [|fuel IH]; intros i out Hi; [done|]. cbn [encode_loop reference_loop].
  destruct (Z.ltb_spec i slen); [|done]. destruct (dlen <? _); [done|]. rewrite zero_run_next by done. cbv zeta.
  pose proof (span_run (same old new) (Z.to_nat slen) i Hi ltac:(lia)) as Ha'. fold (next (same old new) i) in Ha'.
  set (a := next (same old new) i) in *. destruct Ha' as (Hai & _ & _).
  replace (a - i =? slen) with ((i =? 0) && (a =? slen)).
  2: { destruct (Z.eqb_spec i 0), (Z.eqb_spec a slen), (Z.eqb_spec (a - i) slen); cbn; done || lia. }
  destruct ((i =? 0) && (a =? slen)); [done|]. destruct (Z.eqb_spec a slen); [done|].
  destruct (uleb128_encode_small (a - i)) as [z|]; [|done]. cbn [mbind option_bind].
  destruct (dlen <? _); [done|]. rewrite nonzero_run_next by lia.
  pose proof (span_run differ (Z.to_nat slen) a ltac:(lia) ltac:(lia)) as (Hbi & _ & _). fold (next differ a) in Hbi.
  destruct (uleb128_encode_small (next differ a - a)) as [z'|]; [|done]. cbn [mbind option_bind].
  rewrite <- app_assoc. destruct (dlen <? _); [done|]. apply IH. lia.
Qed.
End Encoder.

(** ** Lengths *)

Lemma uleb_some n : n <= 0x3fff -> exists z, uleb128_encode_small n = Some z.
Proof. intros Hn. unfold uleb128_encode_small. destruct (Z.ltb_spec 0x3fff n); [lia|]. destruct (n <? 0x80); eauto. Qed.
Lemma uleb_length n z : uleb128_encode_small n = Some z -> 1 <= Z.of_nat (length z) <= 2 /\ (n < 0x80 -> length z = 1%nat).
Proof.
  unfold uleb128_encode_small. destruct (0x3fff <? n); [done|]. destruct (Z.ltb_spec n 0x80); intros [= <-]; cbn; lia.
Qed.
(** Checked on each of the lengths that have an encoding. *)
Definition uleb_back (n : Z) : bool :=
  match uleb128_encode_small n with
  | Some [a] => (a =? n) && negb (a .&? 0x80)
  | Some [a; b] => bool_decide (uleb128_decode_small a b = (2, n))
  | _ => false
  end.
Lemma uleb_back_all n : 0 <= n <= 0x3fff -> uleb_back n = true.
Proof.
  intros Hn. assert (forallb (fun h => forallb (fun l => uleb_back (h * 128 + l)) (seqZ 0 128)) (seqZ 0 128) = true) as H by by vm_compute.
  rewrite forallb_forall in H. specialize (H (n / 128)). rewrite forallb_forall in H.
  pose proof (Z.div_mod n 128 ltac:(lia)). pose proof (Z.mod_pos_bound n 128 ltac:(lia)).
  replace n with (n / 128 * 128 + n mod 128) by lia. apply H; apply list_elem_of_In, elem_of_seqZ; [|lia].
  split; [apply Z.div_pos|apply Z.div_lt_upper_bound]; lia.
Qed.
Lemma uleb_decode n z pre post : 0 <= n -> uleb128_encode_small n = Some z ->
  uleb128_decode_small (aget 0 (pre ++ z ++ post) (Z.of_nat (length pre))) (aget 0 (pre ++ z ++ post) (Z.of_nat (length pre) + 1))
  = (Z.of_nat (length z), n).
Proof.
  intros Hn E. assert (n <= 0x3fff) as Hb.
  { unfold uleb128_encode_small in E. destruct (Z.ltb_spec 0x3fff n); [done|lia]. }
  pose proof (uleb_back_all n ltac:(lia)) as Hu. unfold uleb_back in Hu. rewrite E in Hu.
  rewrite <- (Z.add_0_r (Z.of_nat (length pre))) at 1. rewrite !aget_app_r by lia.
  destruct z as [|a [|b [|? ?]]]; [done| | |done].
  - apply andb_true_iff in Hu as [H1%Z.eqb_eq H2]. subst a. unfold uleb128_decode_small.
    change (aget 0 ([n] ++ post) 0) with n. by rewrite H2.
  - by apply bool_decide_eq_true in Hu.
Qed.
(** ** Decoding what was encoded *)

(** A round of the decoder over the delta of one pair of runs. *)
Lemma decode_round_runs pre z z' data post dlen d zrun dst :
  let src := pre ++ z ++ z' ++ data ++ post in
  0 <= zrun -> (pre <> [] -> zrun <> 0) -> data <> [] ->
  uleb128_encode_small zrun = Some z -> uleb128_encode_small (Z.of_nat (length data)) = Some z' ->
  0 <= d -> d + zrun + Z.of_nat (length data) <= dlen < 2 ^ 31 -> Z.of_nat (length src) < 2 ^ 31 ->
  decode_round src (Z.of_nat (length src)) dlen (mkCursor (Z.of_nat (length pre)) d dst)
  = Some (mkCursor (Z.of_nat (length (pre ++ z ++ z' ++ data))) (d + zrun + Z.of_nat (length data)) (memcpy dst (d + zrun) data)).
Proof.
  intros src Hz Hpre Hd E E' Hd0 Hb Hsl. pose proof (uleb_length _ _ E) as [? _]. pose proof (uleb_length _ _ E') as [? _].
  assert (0 < Z.of_nat (length data)) as Hn by (destruct data; [done|cbn [length]; lia]).
  assert (Z.of_nat (length src) = Z.of_nat (length pre) + Z.of_nat (length z) + Z.of_nat (length z') + Z.of_nat (length data) + Z.of_nat (length post)) as Hl
    by (unfold src; rewrite !length_app; lia).
  unfold decode_round. cbn [ci cd cdst]. destruct (Z.ltb_spec (Z.of_nat (length src) - Z.of_nat (length pre)) 2); [lia|].
  unfold src at 1 2. rewrite (uleb_decode _ _ _ _ Hz E).
  assert ((Z.of_nat (length z) <? 0) = false) as -> by (apply Z.ltb_ge; lia). cbn [orb].
  assert (negb (Z.of_nat (length pre) =? 0) && (zrun =? 0) = false) as ->.
  { destruct (Z.eqb_spec zrun 0); [|by rewrite andb_false_r]. destruct pre; [done|]. by destruct Hpre. }
  rewrite (s32_small (d + zrun)) by lia. destruct (Z.ltb_spec dlen (d + zrun)); [lia|].
  destruct (Z.ltb_spec (Z.of_nat (length src) - (Z.of_nat (length pre) + Z.of_nat (length z))) 2); [lia|].
  assert (src = (pre ++ z) ++ z' ++ data ++ post) as Hs by (unfold src; by rewrite <- app_assoc).
  rewrite <- !Nat2Z.inj_add, <- length_app. rewrite Hs at 1 2. rewrite (uleb_decode _ _ _ _ (Nat2Z.is_nonneg _) E').
  assert ((Z.of_nat (length z') <? 0) = false) as -> by (apply Z.ltb_ge; lia).
  destruct (Z.eqb_spec (Z.of_nat (length data)) 0); [lia|]. cbn [orb].
  rewrite <- !Nat2Z.inj_add, <- length_app.
  assert (Z.of_nat (length ((pre ++ z) ++ z') + length data) <= Z.of_nat (length src)) by (rewrite !length_app; lia).
  rewrite !u32_small, !s32_small by (lia || (split; lia)).
  destruct (Z.ltb_spec dlen (d + zrun + Z.of_nat (length data))); [lia|].
  destruct (Z.ltb_spec (Z.of_nat (length src)) (Z.of_nat (length ((pre ++ z) ++ z') + length data))); [lia|].
  cbn [orb]. f_equal. f_equal; [rewrite !length_app; lia|]. f_equal. unfold slice. rewrite !Nat2Z.id.
  replace src with (((pre ++ z) ++ z') ++ data ++ post) by (rewrite Hs; by rewrite <- !app_assoc).
  by rewrite drop_app_length, take_app_length.
Qed.
Section Delta.
Context (old new : list Z) (slen dlen : Z).
Context (Hlo : Z.of_nat (length old) = slen) (Hln : Z.of_nat (length new) = slen) (Hs : slen <= 0x3fff).

(** The page with the first [i] bytes updated. *)
Definition page (i : Z) (dst : list Z) : Prop :=
  length dst = length old /\ forall k, 0 <= k < slen -> aget 0 dst k = aget 0 (if k <? i then new else old) k.
Lemma page_done i dst : page i dst -> (forall k, i <= k < slen -> same old new k = true) -> dst = new.
Proof.
  intros [Hl Hp] Hr. apply (aget_ext 0); [lia|]. intros k Hk. rewrite Hp by lia.
  destruct (Z.ltb_spec k i); [done|]. apply Z.eqb_eq, Hr. lia.
Qed.
Lemma page_step i a b dst : page i dst -> 0 <= i <= a -> a <= b <= slen -> (forall k, i <= k < a -> same old new k = true) ->
  page b (memcpy dst a (slice new a (b - a))).
Proof.
  intros [Hl Hp] Hi Hb Hr. assert (length (slice new a (b - a)) = Z.to_nat (b - a)) as Hn by (apply length_slice; lia).
  split; [rewrite length_memcpy; lia|]. intros k Hk. rewrite aget_memcpy, Hn by lia.
  destruct (Z.leb_spec a k); cbn [andb].
  - replace (a + Z.of_nat (Z.to_nat (b - a))) with b by lia. destruct (Z.ltb_spec k b).
    + rewrite aget_slice by lia. f_equal. lia.
    + rewrite Hp by lia. destruct (Z.ltb_spec k i); [lia|done].
  - rewrite Hp by lia. destruct (Z.ltb_spec k b); [|lia]. destruct (Z.ltb_spec k i); [done|].
    apply Z.eqb_eq, Hr. lia.
Qed.

Lemma next_same i : 0 <= i <= slen -> run slen (same old new) i (next slen (same old new) i).
Proof. intros. apply span_run; lia. Qed.
Lemma next_differ i : 0 <= i <= slen -> run slen (differ old new) i (next slen (differ old new) i).
Proof. intros. apply span_run; lia. Qed.

Lemma differ_advances a : 0 <= a < slen -> same old new a = false -> a < next slen (differ old new) a.
Proof.
  intros Ha Hs'. pose proof (next_differ a ltac:(lia)) as (Hb & _ & He). destruct (decide (next slen (differ old new) a = a)) as [E|]; [|lia].
  rewrite E in He. unfold differ in He. rewrite Hs' in He. by specialize (He ltac:(lia)).
Qed.

(** [out] goes on from [pre], fits, and its rest decodes over the page reached. *)
Definition decodes (pre : list Z) (i : Z) (dst out : list Z) : Prop :=
  exists rest, out = pre ++ rest /\ (Z.of_nat (length pre) <= dlen -> Z.of_nat (length out) <= dlen) /\
    forall f, (length rest < f)%nat -> Z.of_nat (length out) < 2 ^ 31 ->
      exists r, decode_loop out (Z.of_nat (length out)) slen f (mkCursor (Z.of_nat (length pre)) i dst) = Some (r, new) /\ 0 <= r <= slen.
Lemma decodes_end pre i dst : 0 <= i <= slen -> page i dst -> (forall k, i <= k < slen -> same old new k = true) ->
  decodes pre i dst pre.
Proof.
  intros Hi Hp Hr. exists []. rewrite app_nil_r. split; [done|]. split; [done|]. intros [|f] Hf Hout; [lia|].
  exists i. cbn [decode_loop ci cd cdst]. by rewrite Z.ltb_irrefl, (page_done i dst Hp Hr).
Qed.
Lemma decodes_round pre z z' i a b dst out : 0 <= i <= a -> a < b <= slen -> (pre <> [] -> i < a) ->
  uleb128_encode_small (a - i) = Some z -> uleb128_encode_small (b - a) = Some z' ->
  Z.of_nat (length (pre ++ z ++ z')) + (b - a) <= dlen ->
  decodes ((pre ++ z ++ z') ++ slice new a (b - a)) b (memcpy dst a (slice new a (b - a))) out -> decodes pre i dst out.
Proof.
  intros Hi Hb Hpre Ez Ez' Hd (rest & -> & Hf & Hdec).
  set (data := slice new a (b - a)) in *. assert (length data = Z.to_nat (b - a)) as Hn by (apply length_slice; lia).
  exists (z ++ z' ++ data ++ rest). split; [by rewrite <- !app_assoc|].
  split; [intros _; apply Hf; rewrite length_app, Hn; lia|].
  replace (((pre ++ z ++ z') ++ data) ++ rest) with (pre ++ z ++ z' ++ data ++ rest) in * by by rewrite <- !app_assoc.
  replace ((pre ++ z ++ z') ++ data) with (pre ++ z ++ z' ++ data) in * by by rewrite <- !app_assoc.
  pose proof (uleb_length _ _ Ez) as [? _]. intros [|f] Hlt Hout; [lia|]. rewrite !length_app in Hlt.
  cbn [decode_loop]. cbn [ci]. destruct (Z.ltb_spec (Z.of_nat (length pre)) (Z.of_nat (length (pre ++ z ++ z' ++ data ++ rest)))).
  2: { rewrite !length_app in *. lia. }
  rewrite (decode_round_runs pre z z' data rest slen i (a - i)); [|lia|intros Hp%Hpre; lia| |done|rewrite Hn, Z2Nat.id by lia; done|lia|lia|done].
  - rewrite Hn. replace (i + (a - i) + Z.of_nat (Z.to_nat (b - a))) with b by lia.
    replace (i + (a - i)) with a by lia. apply Hdec; [lia|done].
  - intros Hnil. rewrite Hnil in Hn. cbn in Hn. lia.
Qed.
(** What the loop still writes, decoded over the page it has reached. *)
Lemma decode_reference fuel i pre out dst : 0 <= i <= slen -> reference_loop old new slen fuel dlen i pre = Some (Encoded out) ->
  (pre = [] <-> i = 0) -> (0 < i < slen -> same old new i = true) -> page i dst -> decodes pre i dst out.
Proof.
  revert i pre dst. induction fuel as [|fuel IH]; intros i pre dst Hi E Hpre Hsame Hp; [done|]. cbn [reference_loop] in E.
  destruct (Z.ltb_spec i slen); [|injection E as <-; apply decodes_end; [done..|lia]].
  destruct (dlen <? _); [done|]. cbv zeta in E. pose proof (next_same i Hi) as (Ha & Hsm & Hend_a).
  set (a := next slen (same old new) i) in *. destruct ((i =? 0) && (a =? slen)) eqn:E0.
  { apply andb_true_iff in E0 as [?%Z.eqb_eq ?%Z.eqb_eq]. injection E as <-. destruct Hpre as [_ Hpre]. rewrite Hpre by done.
    apply decodes_end; [done..|]. intros. apply Hsm. lia. }
  destruct (Z.eqb_spec a slen); [injection E as <-; apply decodes_end; [done..|intros; apply Hsm; lia]|].
  destruct (uleb128_encode_small (a - i)) as [z|] eqn:Ez; [|done]. cbn [mbind option_bind] in E. destruct (dlen <? _); [done|].
  pose proof (next_differ a ltac:(lia)) as (Hb & Hdf & Hend_b). set (b := next slen (differ old new) a) in *.
  destruct (uleb128_encode_small (b - a)) as [z'|] eqn:Ez'; [|done]. cbn [mbind option_bind] in E.
  destruct (Z.ltb_spec dlen (Z.of_nat (length (pre ++ z ++ z')) + (b - a))) as [|Hd]; [done|].
  assert (a < b) as Hab by (apply differ_advances; [lia|apply Hend_a; lia]).
  apply (decodes_round pre z z' i a b); [lia..| |done|done|done|].
  { intros Hne. destruct (decide (i = a)) as [Ei|]; [|lia]. rewrite <- Ei, Hsame in Hend_a; [by specialize (Hend_a ltac:(lia))|].
    destruct (decide (i = 0)); [|lia]. by destruct Hne; apply Hpre. }
  apply IH; [lia|done| | |apply (page_step i a); [done|lia..|done]].
  - split; [|lia]. intros Hnil%(f_equal length). rewrite !length_app, length_slice in Hnil by lia. cbn in Hnil. lia.
  - intros Hlt. specialize (Hend_b ltac:(lia)). unfold differ in Hend_b. by apply negb_false_iff in Hend_b.
Qed.

(** The loop comes to an end before its fuel does. *)
Lemma reference_total fuel i pre : 0 <= i <= slen -> slen - i < Z.of_nat fuel ->
  exists r, reference_loop old new slen fuel dlen i pre = Some r.
Proof.
  revert i pre. induction fuel as [|fuel IH]; intros i pre Hi Hf; [lia|]. cbn [reference_loop].
  destruct (Z.ltb_spec i slen); [|by eexists]. destruct (dlen <? _); [by eexists|]. cbv zeta.
  pose proof (next_same i Hi) as (Ha & Hsm & Hend_a). set (a := next slen (same old new) i) in *.
  destruct ((i =? 0) && (a =? slen)); [by eexists|]. destruct (Z.eqb_spec a slen); [by eexists|].
  destruct (uleb_some (a - i) ltac:(lia)) as [z ->]. cbn [mbind option_bind]. destruct (dlen <? _); [by eexists|].
  pose proof (next_differ a ltac:(lia)) as (Hb & Hdf & Hend_b). set (b := next slen (differ old new) a) in *.
  destruct (uleb_some (b - a) ltac:(lia)) as [z' ->]. cbn [mbind option_bind]. destruct (dlen <? _); [by eexists|].
  assert (a < b) as Hab by (apply differ_advances; [lia|apply Hend_a; lia]).
  apply IH; lia.
Qed.
(** A delta takes at most two bytes for each byte of the page, and one more. *)
Lemma reference_room fuel i pre r : 0 <= i <= slen -> (i = 0 -> pre = []) -> Z.of_nat (length pre) <= 2 * i + 1 ->
  (0 < i < slen -> same old new i = true) -> 2 * slen + 2 <= dlen ->
  reference_loop old new slen fuel dlen i pre = Some r -> r <> Overflow.
Proof.
  revert i pre. induction fuel as [|fuel IH]; intros i pre Hi Hpre Hl Hsame Hd; [done|]. cbn [reference_loop].
  destruct (Z.ltb_spec i slen); [|by intros [= <-]].
  destruct (Z.ltb_spec dlen (Z.of_nat (length pre) + 2)); [lia|]. cbv zeta.
  pose proof (next_same i Hi) as (Ha & Hsm & Hend_a). set (a := next slen (same old new) i) in *.
  destruct ((i =? 0) && (a =? slen)); [by intros [= <-]|]. destruct (Z.eqb_spec a slen); [by intros [= <-]|].
  destruct (uleb128_encode_small (a - i)) as [z|] eqn:Ez; [|done]. cbn [mbind option_bind].
  pose proof (uleb_length _ _ Ez) as [Hz Hz1].
  assert (Z.of_nat (length (pre ++ z)) <= 2 * a + 1) as Hl'.
  { rewrite length_app. destruct (decide (i = 0)) as [Ei|].
    - rewrite Hpre in * by done. cbn [length] in *. destruct (decide (a = 0)); [rewrite Hz1 by lia|]; lia.
    - assert (i <> a) by (intros Eia; rewrite <- Eia, Hsame in Hend_a; [by specialize (Hend_a ltac:(lia))|lia]). lia. }
  destruct (Z.ltb_spec dlen (Z.of_nat (length (pre ++ z)) + 2)); [lia|].
  pose proof (next_differ a ltac:(lia)) as (Hb & Hdf & Hend_b). set (b := next slen (differ old new) a) in *.
  destruct (uleb128_encode_small (b - a)) as [z'|] eqn:Ez'; [|done]. cbn [mbind option_bind].
  pose proof (uleb_length _ _ Ez') as [Hz' Hz1'].
  assert (a < b) as Hab by (apply differ_advances; [lia|apply Hend_a; lia]).
  assert (Z.of_nat (length (pre ++ z ++ z')) + (b - a) <= 2 * b + 1) as Hl''.
  { rewrite app_assoc, length_app. destruct (decide (b - a = 1)); [rewrite Hz1' by lia|]; lia. }
  destruct (Z.ltb_spec dlen (Z.of_nat (length (pre ++ z ++ z')) + (b - a))); [lia|].
  apply IH; [lia|lia|rewrite length_app, length_slice by lia; lia| |done].
  intros Hlt. specialize (Hend_b ltac:(lia)). unfold differ in Hend_b. by apply negb_false_iff in Hend_b.
Qed.
End Delta.

(** ** The decoder on any input *)

Section AnyInput.
Context (src : list Z) (slen dlen : Z).
Context (Hsrc : Forall (is_u 8) src) (Hs : slen < 2 ^ 31) (Hd : 0 <= dlen < 2 ^ 31 - 2 ^ 15).

Lemma s32_sum d count : 0 <= d <= dlen -> 0 <= count < 2 ^ 15 -> s32 (d + count) = d + count.
Proof. intros. apply s32_small. lia. Qed.
Lemma uleb_range i r count : uleb128_decode_small (aget 0 src i) (aget 0 src (i + 1)) = (r, count) ->
  0 <= count < 2 ^ 15 /\ (r < 0 \/ 1 <= r <= 2).
Proof.
  pose proof (byte_u src i Hsrc) as H0. pose proof (byte_u src (i + 1) Hsrc) as H1. unfold uleb128_decode_small.
  assert (is_u 15 (aget 0 src i .& 0x7f)) as H7 by (apply is_u_land_l; [lia|]; by apply (is_u_mono 8 15); [lia|]).
  assert (is_u 15 ((aget 0 src i .& 0x7f) .| (aget 0 src (i + 1) .<< 7))) as H15.
  { apply is_u_lor; [lia|done|]. destruct H1. rewrite Z.shiftl_mul_pow2 by lia. split; lia. }
  apply (is_u_mono 8 15) in H0; [|lia]. destruct (negb _); [intros [= <- <-]; split; [exact H0|lia]|].
  destruct (_ .&? _); intros [= <- <-]; (split; [done|lia]).
Qed.

(** Where a decoder may be. *)
Record cursor_ok (n : nat) (c : cursor) : Prop := {
  co_i : 0 <= ci c; co_d : 0 <= cd c <= dlen; co_len : length (cdst c) = n
}.
Lemma decode_round_ok n c c' : dlen <= Z.of_nat n -> cursor_ok n c -> decode_round src slen dlen c = Some c' ->
  cursor_ok n c' /\ ci c + 2 <= ci c' <= slen /\ cd c <= cd c' /\
  forall k, 0 <= k -> k < cd c \/ cd c' <= k -> aget 0 (cdst c') k = aget 0 (cdst c) k.
Proof.
  intros Hn [Hi Hcd Hl]. unfold decode_round. destruct (Z.ltb_spec (slen - ci c) 2); [done|].
  destruct (uleb128_decode_small _ _) as [r count] eqn:E. apply uleb_range in E as [Hc Hr].
  destruct (Z.ltb_spec r 0); [done|]. destruct (_ || _); [done|]. rewrite s32_sum by lia.
  destruct (Z.ltb_spec dlen (cd c + count)); [done|].
  destruct (Z.ltb_spec (slen - (ci c + r)) 2); [done|].
  destruct (uleb128_decode_small (aget 0 src (ci c + r)) _) as [r' count'] eqn:E'. apply uleb_range in E' as [Hc' Hr'].
  destruct (Z.ltb_spec r' 0); [done|]. destruct (_ || _); [done|].
  rewrite !u32_small by (split; lia). rewrite (s32_sum (cd c + count) count') by lia.
  destruct (Z.ltb_spec dlen (cd c + count + count')); [done|]. destruct (Z.ltb_spec slen (ci c + r + r' + count')); [done|].
  rewrite s32_small by lia.
  cbn [orb]. intros [= <-]. cbn [ci cd cdst]. pose proof (length_slice_le src (ci c + r + r') count' ltac:(lia)).
  split; [split; cbn [ci cd cdst]; [lia|lia|rewrite length_memcpy; lia]|]. split; [lia|]. split; [lia|].
  intros k Hk Hout. rewrite aget_memcpy by lia.
  destruct (Z.leb_spec (cd c + count) k), (Z.ltb_spec k (cd c + count + Z.of_nat (length (slice src (ci c + r + r') count')))); done || lia.
Qed.
Lemma decode_loop_ok n fuel c : dlen <= Z.of_nat n -> cursor_ok n c -> Z.max 0 (slen - ci c) < Z.of_nat fuel ->
  exists r page, decode_loop src slen dlen fuel c = Some (r, page) /\ -1 <= r <= dlen /\ length page = n /\
    forall k, 0 <= k -> k < cd c \/ dlen <= k -> aget 0 page k = aget 0 (cdst c) k.
Proof.
  intros Hn. revert c. induction fuel as [|fuel IH]; intros c Hc Hf.
  - lia.
  - cbn [decode_loop]. destruct (Z.ltb_spec (ci c) slen).
    + destruct (decode_round src slen dlen c) as [c'|] eqn:E.
      * destruct (decode_round_ok n c c' Hn Hc E) as (Hc' & Hi & Hcd & Hk).
        destruct (IH c' Hc' ltac:(lia)) as (r & p & -> & Hr & Hp & Hk'). exists r, p. do 3 (split; [done|]).
        intros k H0 Hout. destruct Hc'. rewrite Hk' by lia. apply Hk; lia.
      * destruct Hc. exists (-1), (cdst c). repeat split; lia || done.
    + destruct Hc. exists (cd c), (cdst c). repeat split; lia || done.
Qed.

(** Nothing past [slen] is looked at. *)
Lemma slice_take i n : 0 <= i -> 0 <= n -> i + n <= slen -> slice (take (Z.to_nat slen) src) i n = slice src i n.
Proof. intros. unfold slice. rewrite skipn_firstn_comm, take_take. f_equal. lia. Qed.
Lemma aget_take i : 0 <= i < slen -> aget 0 (take (Z.to_nat slen) src) i = aget 0 src i.
Proof. intros Hi. unfold aget. destruct (0 <=? i); [|done]. by rewrite lookup_take_lt by lia. Qed.
Lemma decode_round_take c : 0 <= ci c -> 0 <= cd c <= dlen -> decode_round (take (Z.to_nat slen) src) slen dlen c = decode_round src slen dlen c.
Proof.
  intros Hi Hcd. unfold decode_round. destruct (Z.ltb_spec (slen - ci c) 2); [done|]. rewrite !aget_take by lia.
  destruct (uleb128_decode_small _ _) as [r count] eqn:E. apply uleb_range in E as [Hc Hr].
  destruct (Z.ltb_spec r 0); [done|]. destruct (_ || _); [done|]. rewrite s32_sum by lia.
  destruct (Z.ltb_spec dlen (cd c + count)); [done|].
  destruct (Z.ltb_spec (slen - (ci c + r)) 2); [done|]. rewrite !aget_take by lia.
  destruct (uleb128_decode_small (aget 0 src (ci c + r)) _) as [r' count'] eqn:E'. apply uleb_range in E' as [Hc' Hr'].
  destruct (Z.ltb_spec r' 0); [done|]. destruct (_ || _); [done|].
  rewrite !u32_small by (split; lia). rewrite (s32_sum (cd c + count) count') by lia.
  destruct (Z.ltb_spec dlen (cd c + count + count')); [done|]. destruct (Z.ltb_spec slen (ci c + r + r' + count')); [done|].
  rewrite s32_small by lia.
  cbn [orb]. by rewrite slice_take by lia.
Qed.
Lemma decode_loop_take n fuel c : dlen <= Z.of_nat n -> cursor_ok n c ->
  decode_loop (take (Z.to_nat slen) src) slen dlen fuel c = decode_loop src slen dlen fuel c.
Proof.
  intros Hn. revert c. induction fuel as [|fuel IH]; intros c Hc; [done|]. cbn [decode_loop]. pose proof Hc as [Hi Hcd _].
  rewrite decode_round_take by done. destruct (ci c <? slen); [|done].
  destruct (decode_round src slen dlen c) as [c'|] eqn:E; [|done]. apply IH. by apply (decode_round_ok n c c').
Qed.
End AnyInput.

(** ** The functions *)

(** The encoder with its runs found byte by byte. *)
Definition reference_encode (old new : list Z) (slen dlen : Z) : option outcome :=
  reference_loop old new slen (S (Z.to_nat slen)) dlen 0 [].
Lemma encode_buffer_reference old new slen dlen : Forall (is_u 8) old -> Forall (is_u 8) new -> 0 <= slen < 2 ^ 31 -> slen mod 8 = 0 ->
  xbzrle_encode_buffer old new slen dlen = reference_encode old new slen dlen.
Proof.
  intros Ho Hn Hs Ha. unfold xbzrle_encode_buffer. rewrite Ha. cbn [Z.eqb negb]. by apply encode_reference; [..|lia].
Qed.

Definition page0 := replicate 16 7.
Definition page1 := replicate 5 7 ++ [1; 2; 3] ++ replicate 7 7 ++ [9].
Lemma page0_u : Forall (is_u 8) page0.
Proof. apply (bool_decide_unpack _). by vm_compute. Qed.
Lemma page1_u : Forall (is_u 8) page1.
Proof. apply (bool_decide_unpack _). by vm_compute. Qed.

(** C16. The encoder that compares a word at a time, and finds the end of a changed run by a carry over the
    word, computes for any two pages what the encoder does that compares byte by byte. *)
Theorem xbzrle_encode_reference old new slen dlen :
  Forall (is_u 8) old -> Forall (is_u 8) new -> 0 <= slen < 2 ^ 31 -> slen mod 8 = 0 ->
  xbzrle_encode_buffer old new slen dlen = reference_encode old new slen dlen.
Proof. apply encode_buffer_reference. Qed.

Lemma xbzrle_encode_reference_witness :
  xbzrle_encode_buffer page0 page1 16 32 = reference_encode page0 page1 16 32 /\
  reference_encode page0 page1 16 32 = Some (Encoded [5; 3; 1; 2; 3; 7; 1; 9]).
Proof.
  split; [apply (xbzrle_encode_reference page0 page1 16 32); [apply page0_u|apply page1_u|lia|done]|by vm_compute].
Defined.

(** C10. What is encoded of a page against its old content fits the buffer given, and decoding it over the old
    content yields the new page. *)
Theorem xbzrle_roundtrip old new slen dlen out :
  Forall (is_u 8) old -> Forall (is_u 8) new -> Z.of_nat (length old) = slen -> Z.of_nat (length new) = slen ->
  slen <= 0x3fff -> slen mod 8 = 0 -> 0 <= dlen < 2 ^ 31 ->
  xbzrle_encode_buffer old new slen dlen = Some (Encoded out) ->
  Z.of_nat (length out) <= dlen /\
  exists r, xbzrle_decode_buffer out (Z.of_nat (length out)) old slen = Some (r, new) /\ 0 <= r <= slen.
Proof.
  intros Ho Hn Hlo Hln Hs Ha Hd E. rewrite encode_buffer_reference in E by (done || lia).
  destruct (decode_reference old new slen dlen Hlo Hln Hs (S (Z.to_nat slen)) 0 [] out old) as (rest & -> & Hl & Hdec);
    [lia|done|done|lia| |].
  { split; [done|]. intros k Hk. by destruct (Z.ltb_spec k 0); [lia|]. }
  cbn [app] in *. assert (Z.of_nat (length rest) <= dlen) by (apply Hl; cbn; lia). split; [done|].
  unfold xbzrle_decode_buffer. rewrite Nat2Z.id. apply (Hdec (S (length rest))); lia.
Qed.

Lemma xbzrle_roundtrip_witness :
  xbzrle_encode_buffer page0 page1 16 32 = Some (Encoded [5; 3; 1; 2; 3; 7; 1; 9]) /\
  exists r, xbzrle_decode_buffer [5; 3; 1; 2; 3; 7; 1; 9] 8 page0 16 = Some (r, page1) /\ 0 <= r <= 16.
Proof.
  split; [by vm_compute|]. apply (xbzrle_roundtrip page0 page1 16 32 [5; 3; 1; 2; 3; 7; 1; 9]);
    [apply page0_u|apply page1_u|done|done|done|done|lia|by vm_compute].
Defined.

(** Encoding two pages of up to 0x3fff bytes returns, and with two bytes of room for each byte of the page
    and two more it does not overflow. *)
Theorem xbzrle_encode_returns old new slen dlen :
  Forall (is_u 8) old -> Forall (is_u 8) new -> Z.of_nat (length old) = slen -> Z.of_nat (length new) = slen ->
  slen <= 0x3fff -> slen mod 8 = 0 ->
  exists r, xbzrle_encode_buffer old new slen dlen = Some r /\ (2 * slen + 2 <= dlen -> r <> Overflow).
Proof.
  intros Ho Hn Hlo Hln Hs Ha. rewrite encode_buffer_reference by (done || lia).
  destruct (reference_total old new slen dlen Hs (S (Z.to_nat slen)) 0 [] ltac:(lia) ltac:(lia)) as [r E].
  exists r. split; [done|]. intros Hd. by apply (reference_room old new slen dlen Hln (S (Z.to_nat slen)) 0 []); [lia|done|cbn; lia|lia|done|].
Qed.

Lemma xbzrle_encode_returns_witness :
  exists r, xbzrle_encode_buffer page0 page1 16 34 = Some r /\ (34 <= 34 -> r <> Overflow).
Proof.
  apply (xbzrle_encode_returns page0 page1 16 34); [apply page0_u|apply page1_u|done|done|done|done].
Defined.

End XbzrleProps.
