(* ===== verification/Bitmap.v ===== *)
(** * Bitmaps (util/bitops.c, util/bitmap.c, include/qemu/bitops.h)

    Bits in words of 64 bits, and the search for the next bit that is set,
    which reads whole words and four words at a time: it finds the same bit as
    a search bit by bit. *)

From S2P Require Import Prelude.

Module Bitmap.

Definition not64 (x : Z) : Z := Z.lnot x .& Z.ones 64.
Definition BIT_MASK (nr : Z) : Z := 1 .<< (nr mod 64).
Definition BIT_WORD (nr : Z) : Z := nr / 64.

Definition test_bit (nr : Z) (b : list Z) : bool := truth (1 .& (aget 0 b (BIT_WORD nr) .>> (nr .& 63))).
Definition clear_bit (nr : Z) (b : list Z) : list Z :=
  aset b (BIT_WORD nr) (aget 0 b (BIT_WORD nr) .& not64 (BIT_MASK nr)).
Definition test_and_set_bit (nr : Z) (b : list Z) : bool * list Z :=
  let old := aget 0 b (BIT_WORD nr) in
  (old .&? BIT_MASK nr, aset b (BIT_WORD nr) (old .| BIT_MASK nr)).

Definition bitmap_new (nbits : Z) : list Z := replicate (Z.to_nat ((nbits + 63) / 64)) 0.
Definition BITMAP_FIRST_WORD_MASK (start : Z) : Z := u64 (Z.ones 64 .<< (start mod 64)).
Definition BITMAP_LAST_WORD_MASK (nbits : Z) : Z := if truth (nbits mod 64) then (1 .<< (nbits mod 64)) - 1 else Z.ones 64.
(** The words that are filled; the word, the bits left and the mask of the last. *)
Fixpoint set_words (n : nat) (b : list Z) (p nr bits_to_set mask_to_set : Z) : list Z * Z * Z * Z :=
  match n with
  | O => (b, p, nr, mask_to_set)
  | S n =>
      if 0 <=? nr - bits_to_set then
        set_words n (aset b p (aget 0 b p .| mask_to_set)) (p + 1) (nr - bits_to_set) 64 (Z.ones 64)
      else (b, p, nr, mask_to_set)
  end.
Definition bitmap_set (b : list Z) (start nr : Z) : list Z :=
  let size := start + nr in
  let '(b, p, nr, mask) := set_words (Z.to_nat (nr / 64 + 1)) b (BIT_WORD start) nr (64 - start mod 64) (BITMAP_FIRST_WORD_MASK start) in
  if truth nr then aset b p (aget 0 b p .| (mask .& BITMAP_LAST_WORD_MASK size)) else b.

(** [ctz64] of include/qemu/host-utils.h. *)
Fixpoint ctz_pos (p : positive) : Z := match p with xO p => 1 + ctz_pos p | _ => 0 end.
Definition ctz64 (x : Z) : Z := match x with Zpos p => ctz_pos p | _ => 64 end.

Definition found_middle (result tmp : Z) : Z := result + ctz64 tmp.
Definition found_first (result size tmp : Z) : Z :=
  let tmp := tmp .& (Z.ones 64 .>> (64 - size)) in
  if tmp =? 0 then result + size else found_middle result tmp.
(** The loops go on from a word, or return a bit. *)
Fixpoint scan_quads (n : nat) (b : list Z) (p result size : Z) : Z * Z * Z + Z :=
  match n with
  | O => inl (p, result, size)
  | S n =>
      if 256 <=? size then
        let tmp := aget 0 b p in
        if truth tmp then inr (found_middle result tmp)
        else if truth (aget 0 b (p + 1) .| aget 0 b (p + 2) .| aget 0 b (p + 3)) then inl (p, result, size)
        else scan_quads n b (p + 4) (result + 256) (size - 256)
      else inl (p, result, size)
  end.
Fixpoint scan_words (n : nat) (b : list Z) (p result size : Z) : Z * Z * Z + Z :=
  match n with
  | O => inl (p, result, size)
  | S n =>
      if 64 <=? size then
        let tmp := aget 0 b p in
        if truth tmp then inr (found_middle result tmp) else scan_words n b (p + 1) (result + 64) (size - 64)
      else inl (p, result, size)
  end.
Definition scan (b : list Z) (p result size : Z) : Z :=
  match scan_quads (Z.to_nat (size / 256)) b p result size with
  | inr bit => bit
  | inl (p, result, size) =>
      match scan_words (Z.to_nat (size / 64)) b p result size with
      | inr bit => bit
      | inl (p, result, size) => if size =? 0 then result else found_first result size (aget 0 b p)
      end
  end.
Definition find_next_bit (b : list Z) (size offset : Z) : Z :=
  let p := offset / 64 in
  let result := offset .& not64 63 in
  if size <=? offset then size
  else
    let size := size - result in
    let offset := offset mod 64 in
    if truth offset then
      let tmp := aget 0 b p .& u64 (Z.ones 64 .<< offset) in
      if size <? 64 then found_first result size tmp
      else if truth tmp then found_middle result tmp
      else scan b (p + 1) (result + 64) (size - 64)
    else scan b p result size.

(** ** Bits *)

Definition bit (b : list Z) (i : Z) : bool := Z.testbit (aget 0 b (i / 64)) (i mod 64).
(** The first bit of a range that is set, or its end. *)
Definition first_set (b : list Z) (lo hi r : Z) : Prop :=
  lo <= r <= hi /\ (forall i, lo <= i < r -> bit b i = false) /\ (r < hi -> bit b r = true).

Lemma first_set_unique b lo hi r r' : first_set b lo hi r -> first_set b lo hi r' -> r = r'.
Proof.
  intros (Hr & Hn & Hs) (Hr' & Hn' & Hs'). destruct (Z.lt_trichotomy r r') as [H|[H|H]]; [|done|].
  - rewrite Hn' in Hs by lia. specialize (Hs ltac:(lia)). done.
  - rewrite Hn in Hs' by lia. specialize (Hs' ltac:(lia)). done.
Qed.
Lemma first_set_skip b lo mid hi r : lo <= mid -> (forall i, lo <= i < mid -> bit b i = false) -> first_set b mid hi r -> first_set b lo hi r.
Proof.
  intros Hm Hn (Hr & Hn' & Hs). split; [lia|]. split; [|done]. intros i Hi. destruct (Z.lt_ge_cases i mid); [apply Hn; lia|apply Hn'; lia].
Qed.
Lemma bit_word b p k : 0 <= k < 64 -> bit b (64 * p + k) = Z.testbit (aget 0 b p) k.
Proof.
  intros Hk. unfold bit. rewrite <- (Z.div_unique (64 * p + k) 64 p k), <- (Z.mod_unique (64 * p + k) 64 p k) by lia. done.
Qed.
Lemma word_zero b p i : aget 0 b p = 0 -> 64 * p <= i < 64 * p + 64 -> bit b i = false.
Proof. intros E Hi. replace i with (64 * p + (i - 64 * p)) by lia. by rewrite bit_word, E, Z.bits_0 by lia. Qed.

Lemma ctz_pos_spec p : 0 <= ctz_pos p /\ Z.testbit (Zpos p) (ctz_pos p) = true /\ forall i, 0 <= i < ctz_pos p -> Z.testbit (Zpos p) i = false.
Proof.
  induction p as [p _|p (H0 & H1 & H2)|]; cbn [ctz_pos]; [split; [done|split; [done|lia]]| |split; [done|split; [done|lia]]].
  split; [lia|]. change (Z.pos p~0) with (2 * Z.pos p). split.
  - rewrite Z.add_1_l, Z.double_bits_succ. done.
  - intros i Hi. destruct (Z.eq_dec i 0) as [->|Hne]; [apply Z.testbit_even_0|].
    replace i with (Z.succ (i - 1)) by lia. rewrite Z.double_bits_succ. apply H2. lia.
Qed.
Lemma ctz64_spec x : 0 < x < 2 ^ 64 -> 0 <= ctz64 x < 64 /\ Z.testbit x (ctz64 x) = true /\ forall i, 0 <= i < ctz64 x -> Z.testbit x i = false.
Proof.
  intros Hx. destruct x as [|p|]; try lia. cbn [ctz64]. destruct (ctz_pos_spec p) as (H0 & H1 & H2). split; [|done]. split; [done|].
  apply Z.nle_gt. intros Hge. rewrite Z.bits_above_log2 in H1; [done|done|]. apply Z.log2_lt_pow2; [lia|].
  apply (Z.lt_le_trans _ (2 ^ 64)); [lia|]. apply Z.pow_le_mono_r; lia.
Qed.

(** ** The search *)

Section Search.
Context (b : list Z) (Hb : Forall (is_u 64) b).

Lemma word_u64 p : is_u 64 (aget 0 b p).
Proof. by apply Forall_aget. Qed.
Lemma is_u_pos w x : is_u w x -> truth x = true -> 0 < x < 2 ^ w.
Proof. intros Hx Ht. apply truth_true in Ht. unfold is_u in Hx. lia. Qed.
(** The loop ends where it starts. *)
Ltac stop_here := repeat split; [lia..|intros; lia].
(** A word with a bit set ends the search. *)
Lemma found_middle_spec p hi tmp : is_u 64 tmp -> truth tmp = true ->
  64 * p + 64 <= hi -> forall lo, 64 * p <= lo -> (forall k, 0 <= k < 64 -> lo <= 64 * p + k -> Z.testbit tmp k = bit b (64 * p + k)) ->
  (forall k, 0 <= k -> 64 * p + k < lo -> Z.testbit tmp k = false) ->
  first_set b lo hi (found_middle (64 * p) tmp).
Proof.
  intros Hu Ht Hhi lo Hlo Hsame Hbelow. destruct (ctz64_spec tmp (is_u_pos _ _ Hu Ht)) as (Hr & H1 & H0).
  unfold found_middle. assert (lo <= 64 * p + ctz64 tmp).
  { apply Z.nlt_ge. intros Hlt. rewrite Hbelow in H1 by lia. done. }
  split; [lia|]. split; [|intros _; by rewrite <- Hsame].
  intros i Hi. replace i with (64 * p + (i - 64 * p)) by lia. rewrite <- Hsame by lia. apply H0. lia.
Qed.
Lemma found_word p hi : truth (aget 0 b p) = true -> 64 * p + 64 <= hi -> first_set b (64 * p) hi (found_middle (64 * p) (aget 0 b p)).
Proof.
  intros Ht Hhi. apply found_middle_spec; [apply word_u64|done|done|lia| |lia].
  intros k Hk _. by rewrite bit_word.
Qed.
Lemma scan_words_spec n : forall p size, 0 <= size -> size / 64 <= Z.of_nat n ->
  match scan_words n b p (64 * p) size with
  | inr r => first_set b (64 * p) (64 * p + size) r
  | inl (p', result, size') =>
      result = 64 * p' /\ 0 <= size' < 64 /\ result + size' = 64 * p + size /\ p <= p' /\ forall i, 64 * p <= i < result -> bit b i = false
  end.
Proof.
  induction n as [|n IH]; intros p size Hs Hn; cbn [scan_words].
  { pose proof (Z.div_mod size 64 ltac:(lia)). pose proof (Z.mod_pos_bound size 64 ltac:(lia)). stop_here. }
  destruct (Z.leb_spec 64 size) as [H64|H64]; [|stop_here]. destruct (truth (aget 0 b p)) eqn:Ht; [apply found_word; [done|lia]|].
  apply truth_false in Ht. replace (64 * p + 64) with (64 * (p + 1)) by lia.
  specialize (IH (p + 1) (size - 64) ltac:(lia)). replace (size - 64) with (size + (-1) * 64) in IH by lia.
  rewrite Z.div_add in IH by lia. specialize (IH ltac:(lia)). replace (size + (-1) * 64) with (size - 64) in IH by lia.
  destruct (scan_words n b (p + 1) _ _) as [[[p' result] size']|r].
  - destruct IH as (-> & H1 & H2 & H3 & H4). split; [done|]. split; [done|]. split; [lia|]. split; [lia|].
    intros i Hi. destruct (Z.lt_ge_cases i (64 * p + 64)); [by apply (word_zero b p); [|lia]|apply H4; lia].
  - replace (64 * (p + 1) + (size - 64)) with (64 * p + size) in IH by lia. apply (first_set_skip b _ (64 * (p + 1))); [lia| |done].
    intros i Hi. apply (word_zero b p); [done|lia].
Qed.
Lemma scan_quads_spec n : forall p size, 0 <= size ->
  match scan_quads n b p (64 * p) size with
  | inr r => first_set b (64 * p) (64 * p + size) r
  | inl (p', result, size') =>
      result = 64 * p' /\ 0 <= size' /\ result + size' = 64 * p + size /\ p <= p' /\ forall i, 64 * p <= i < result -> bit b i = false
  end.
Proof.
  induction n as [|n IH]; intros p size Hs; cbn [scan_quads]; [stop_here|].
  destruct (Z.leb_spec 256 size) as [H64|H64]; [|stop_here]. destruct (truth (aget 0 b p)) eqn:Ht; [apply found_word; [done|lia]|].
  destruct (truth (_ .| _)) eqn:Hd; [stop_here|]. rewrite !truth_lor in Hd. apply orb_false_iff in Hd as [[H1 H2]%orb_false_iff H3].
  apply truth_false in Ht, H1, H2, H3.
  assert (forall i, 64 * p <= i < 64 * (p + 4) -> bit b i = false) as Hz.
  { intros i Hi. destruct (Z.lt_ge_cases i (64 * (p + 1))); [apply (word_zero b p); [done|lia]|].
    destruct (Z.lt_ge_cases i (64 * (p + 2))); [apply (word_zero b (p + 1)); [done|lia]|].
    destruct (Z.lt_ge_cases i (64 * (p + 3))); [apply (word_zero b (p + 2)); [done|lia]|apply (word_zero b (p + 3)); [done|lia]]. }
  replace (64 * p + 256) with (64 * (p + 4)) by lia. specialize (IH (p + 4) (size - 256) ltac:(lia)).
  destruct (scan_quads n b (p + 4) _ _) as [[[p' result] size']|r].
  - destruct IH as (-> & E1 & E2 & E3 & E4). split; [done|]. split; [done|]. split; [lia|]. split; [lia|].
    intros i Hi. destruct (Z.lt_ge_cases i (64 * (p + 4))); [apply Hz; lia|apply E4; lia].
  - replace (64 * (p + 4) + (size - 256)) with (64 * p + size) in IH by lia. by apply (first_set_skip b _ (64 * (p + 4))); [lia| |].
Qed.

Lemma ones_shiftr_bit k size : 0 < size < 64 -> 0 <= k -> Z.testbit (Z.ones 64 .>> (64 - size)) k = (k <? size).
Proof. intros Hs Hk. rewrite Z.shiftr_spec, Z.testbit_ones_nonneg by lia. destruct (Z.ltb_spec (k + (64 - size)) 64), (Z.ltb_spec k size); lia. Qed.
(** The last word, of which [size] bits count. *)
Lemma found_first_spec p size lo tmp : is_u 64 tmp -> 0 < size < 64 -> 64 * p <= lo <= 64 * p + size ->
  (forall k, 0 <= k < 64 -> lo <= 64 * p + k -> Z.testbit tmp k = bit b (64 * p + k)) ->
  (forall k, 0 <= k -> 64 * p + k < lo -> Z.testbit tmp k = false) ->
  first_set b lo (64 * p + size) (found_first (64 * p) size tmp).
Proof.
  intros Hu Hs Hlo Hsame Hbelow. unfold found_first. set (t := tmp .& _).
  assert (forall k, 0 <= k -> Z.testbit t k = Z.testbit tmp k && (k <? size)) as Hk.
  { intros k Hk. unfold t. by rewrite Z.land_spec, ones_shiftr_bit. }
  assert (is_u 64 t) as Ht by (apply is_u_land_l; [lia|done]). clearbody t. destruct (Z.eqb_spec t 0) as [->|Hne].
  - split; [lia|]. split; [|lia]. intros i Hi. replace i with (64 * p + (i - 64 * p)) by lia. rewrite <- Hsame by lia.
    specialize (Hk (i - 64 * p) ltac:(lia)). rewrite Z.bits_0 in Hk. destruct (Z.ltb_spec (i - 64 * p) size); [|lia].
    by rewrite andb_true_r in Hk.
  - destruct (ctz64_spec t) as (Hr & H1 & H0); [unfold is_u in Ht; lia|]. unfold found_middle. rewrite Hk in H1 by lia.
    apply andb_true_iff in H1 as [H1 Hlt%Z.ltb_lt]. assert (lo <= 64 * p + ctz64 t).
    { apply Z.nlt_ge. intros Hl. rewrite Hbelow in H1 by lia. done. }
    split; [lia|]. split; [|intros _; by rewrite <- Hsame by lia].
    intros i Hi. replace i with (64 * p + (i - 64 * p)) by lia. rewrite <- Hsame by lia.
    specialize (H0 (i - 64 * p) ltac:(lia)). rewrite Hk in H0 by lia. destruct (Z.ltb_spec (i - 64 * p) size); [|lia].
    by rewrite andb_true_r in H0.
Qed.
Lemma scan_spec p size : 0 <= size -> first_set b (64 * p) (64 * p + size) (scan b p (64 * p) size).
Proof.
  intros Hs. unfold scan. pose proof (scan_quads_spec (Z.to_nat (size / 256)) p size Hs) as Hq.
  destruct (scan_quads _ b p _ size) as [[[q result] size1]|r]; [|done]. destruct Hq as (-> & H0 & E1 & Hpq & Hz).
  pose proof (scan_words_spec (Z.to_nat (size1 / 64)) q size1 H0 ltac:(pose proof (Z.div_pos size1 64); lia)) as Hw.
  rewrite E1 in Hw. destruct (scan_words _ b q _ size1) as [[[q' result] size2]|r].
  - destruct Hw as (-> & H1 & E2 & Hqq & Hz'). apply (first_set_skip b _ (64 * q')); [lia| |].
    { intros i Hi. destruct (Z.lt_ge_cases i (64 * q)); [apply Hz; lia|apply Hz'; lia]. }
    rewrite <- E2. destruct (Z.eqb_spec size2 0) as [->|Hne]; [split; [lia|]; split; lia|].
    apply found_first_spec; [apply word_u64|lia|lia| |lia]. intros k Hk _. by rewrite bit_word.
  - apply (first_set_skip b _ (64 * q)); [lia|done|done].
Qed.
Lemma low_mask x o k : 0 <= o < 64 -> 0 <= k < 64 -> Z.testbit (x .& u64 (Z.ones 64 .<< o)) k = Z.testbit x k && (o <=? k).
Proof.
  intros Ho Hk. unfold u64. rewrite Z.land_spec, Z.mod_pow2_bits_low, Z.shiftl_spec by lia. f_equal.
  destruct (Z.leb_spec o k); [rewrite Z.testbit_ones_nonneg by lia; apply Z.ltb_lt; lia|apply Z.testbit_neg_r; lia].
Qed.
Lemma round_down x : 0 <= x < 2 ^ 64 -> x .& not64 63 = 64 * (x / 64).
Proof.
  intros Hx. unfold not64. change 63 with (Z.ones 6). rewrite (Z.land_comm _ (Z.ones 64)), Z.land_assoc, (Z.land_ones x 64), Z.mod_small by lia.
  rewrite <- Z.ldiff_land, Z.ldiff_ones_r, Z.shiftr_div_pow2, Z.shiftl_mul_pow2 by lia. change (2 ^ 6) with 64. lia.
Qed.

Lemma find_next_bit_spec size offset :
  0 <= offset < size -> size < 2 ^ 64 -> first_set b offset size (find_next_bit b size offset).
Proof.
  intros Ho Hs. unfold find_next_bit. rewrite round_down by lia. destruct (Z.leb_spec size offset); [lia|].
  pose proof (Z.div_mod offset 64 ltac:(lia)) as Ed. pose proof (Z.mod_pos_bound offset 64 ltac:(lia)) as Hm.
  set (p := offset / 64) in *. set (o := offset mod 64) in *. clearbody p o.
  destruct (truth o) eqn:Et.
  - set (tmp := _ .& _). assert (is_u 64 tmp) as Hu by (apply is_u_land_l; [lia|apply word_u64]).
    assert (forall k, 0 <= k < 64 -> Z.testbit tmp k = bit b (64 * p + k) && (o <=? k)) as Hk.
    { intros k Hk. unfold tmp. by rewrite low_mask, bit_word. }
    assert (forall k, 0 <= k < 64 -> offset <= 64 * p + k -> Z.testbit tmp k = bit b (64 * p + k)) as Hsame.
    { intros k H1 H2. rewrite Hk by done. destruct (Z.leb_spec o k); [apply andb_true_r|lia]. }
    assert (forall k, 0 <= k -> 64 * p + k < offset -> Z.testbit tmp k = false) as Hbelow.
    { intros k H1 H2. rewrite Hk by lia. destruct (Z.leb_spec o k); [lia|apply andb_false_r]. }
    clearbody tmp. destruct (Z.ltb_spec (size - 64 * p) 64).
    + replace size with (64 * p + (size - 64 * p)) at 1 by lia. apply found_first_spec; try done; lia.
    + destruct (truth tmp) eqn:Htmp; [apply found_middle_spec; try done; lia|]. apply truth_false in Htmp. subst tmp.
      apply (first_set_skip b _ (64 * (p + 1))); [lia| |].
      * intros i Hi. replace i with (64 * p + (i - 64 * p)) by lia. rewrite <- Hsame by lia. apply Z.bits_0.
      * replace size with (64 * (p + 1) + (size - 64 * p - 64)) at 1 by lia. replace (64 * p + 64) with (64 * (p + 1)) by lia.
        apply scan_spec. lia.
  - apply truth_false in Et. replace offset with (64 * p) by lia. replace size with (64 * p + (size - 64 * p)) at 1 by lia.
    apply scan_spec. lia.
Qed.
End Search.

(** C17. [find_next_bit], which skips zero words and four of them at a time, finds the first bit of the range that is set,
    as a search bit by bit does, and [size] if there is none. *)
Theorem find_next_bit_first b size offset : Forall (is_u 64) b ->
  0 <= offset < size -> size < 2 ^ 64 -> first_set b offset size (find_next_bit b size offset).
Proof. intros. by apply find_next_bit_spec. Qed.

(** ** Updates *)

Definition bits_wf (n : Z) (b : list Z) : Prop := Forall (is_u 64) b /\ n <= 64 * Z.of_nat (length b).
Lemma bit_mask_spec nr k : 0 <= k < 64 -> Z.testbit (BIT_MASK nr) k = (nr mod 64 =? k).
Proof. intros Hk. pose proof (Z.mod_pos_bound nr 64). unfold BIT_MASK. by rewrite Z.shiftl_1_l, Z.pow2_bits_eqb by lia. Qed.
Lemma bit_mask_u64 nr : is_u 64 (BIT_MASK nr).
Proof.
  pose proof (Z.mod_pos_bound nr 64 ltac:(lia)). unfold is_u, BIT_MASK. rewrite Z.shiftl_1_l. split; [lia|].
  apply Z.pow_lt_mono_r; lia.
Qed.
Lemma not64_spec x k : 0 <= k < 64 -> Z.testbit (not64 x) k = negb (Z.testbit x k).
Proof.
  intros Hk. unfold not64. rewrite Z.land_spec, Z.lnot_spec, Z.testbit_ones_nonneg by lia.
  destruct (Z.ltb_spec k 64); [apply andb_true_r|lia].
Qed.
(** A bit of a bitmap of which one word was replaced. *)
Lemma bit_aset b p v i : 0 <= i -> 0 <= p < Z.of_nat (length b) -> bit (aset b p v) i = if i / 64 =? p then Z.testbit v (i mod 64) else bit b i.
Proof.
  intros Hi Hp. pose proof (Z.div_pos i 64 Hi ltac:(lia)). unfold bit. destruct (Z.eqb_spec (i / 64) p) as [->|Hne].
  - by rewrite aget_aset_eq by lia.
  - by rewrite aget_aset_ne by lia.
Qed.
Lemma same_bit i j : i / 64 = j / 64 -> (j mod 64 =? i mod 64) = (i =? j).
Proof.
  intros E. destruct (Z.eqb_spec (j mod 64) (i mod 64)) as [E2|Hne], (Z.eqb_spec i j) as [->|Hij]; try done.
  destruct Hij. rewrite (Z.div_mod i 64), (Z.div_mod j 64) by lia. congruence.
Qed.
Lemma bit_word_range n b nr : bits_wf n b -> 0 <= nr < n -> 0 <= nr / 64 < Z.of_nat (length b).
Proof. intros [_ Hl] Hn. split; [apply Z.div_pos; lia|apply Z.div_lt_upper_bound; lia]. Qed.
Lemma clear_bit_spec n b nr : bits_wf n b -> 0 <= nr < n -> bits_wf n (clear_bit nr b) /\
  forall i, 0 <= i -> bit (clear_bit nr b) i = bit b i && negb (i =? nr).
Proof.
  intros W Hn. pose proof (bit_word_range n b nr W Hn) as Hp. destruct W as [Hu Hl]. unfold clear_bit, BIT_WORD. split.
  - split; [|by rewrite length_aset]. apply Forall_aset; [done|]. apply is_u_land_l; [lia|by apply Forall_aget].
  - intros i Hi. rewrite bit_aset by done. pose proof (Z.mod_pos_bound i 64 ltac:(lia)). destruct (Z.eqb_spec (i / 64) (nr / 64)) as [E|E].
    + rewrite Z.land_spec, not64_spec, bit_mask_spec by lia. unfold bit. rewrite E. by rewrite (same_bit i nr E).
    + destruct (Z.eqb_spec i nr) as [->|]; [done|]. by rewrite andb_true_r.
Qed.
Lemma test_and_set_spec n b nr : bits_wf n b -> 0 <= nr < n ->
  fst (test_and_set_bit nr b) = bit b nr /\ bits_wf n (snd (test_and_set_bit nr b)) /\
  forall i, 0 <= i -> bit (snd (test_and_set_bit nr b)) i = bit b i || (i =? nr).
Proof.
  intros W Hn. pose proof (bit_word_range n b nr W Hn) as Hp. destruct W as [Hu Hl]. unfold test_and_set_bit, BIT_WORD. cbn [fst snd].
  pose proof (Z.mod_pos_bound nr 64 ltac:(lia)). split; [unfold BIT_MASK; by rewrite flag_testbit by lia|]. split.
  - split; [|by rewrite length_aset]. apply Forall_aset; [done|]. apply is_u_lor; [lia|by apply Forall_aget|apply bit_mask_u64].
  - intros i Hi. rewrite bit_aset by done. pose proof (Z.mod_pos_bound i 64 ltac:(lia)). destruct (Z.eqb_spec (i / 64) (nr / 64)) as [E|E].
    + rewrite Z.lor_spec, bit_mask_spec by lia. unfold bit. rewrite E. by rewrite (same_bit i nr E).
    + destruct (Z.eqb_spec i nr) as [->|]; [done|]. by rewrite orb_false_r.
Qed.
Lemma bitmap_new_spec n : 0 <= n -> bits_wf n (bitmap_new n) /\ forall i, bit (bitmap_new n) i = false.
Proof.
  intros Hn. unfold bitmap_new. split.
  - split; [by apply Forall_replicate|]. rewrite length_replicate. pose proof (Z.div_mod (n + 63) 64 ltac:(lia)).
    pose proof (Z.mod_pos_bound (n + 63) 64 ltac:(lia)). pose proof (Z.div_pos (n + 63) 64). lia.
  - intros i. unfold bit. replace (aget 0 _ _) with 0; [apply Z.bits_0|]. unfold aget. destruct (0 <=? i / 64); [|done].
    destruct (replicate _ _ !! _) eqn:E; [|done]. by apply lookup_replicate in E as [-> _].
Qed.
Lemma set_words_spec N n : forall b p nr lo m, bits_wf N b -> 0 <= p -> 64 * p <= lo < 64 * p + 64 -> 0 <= nr -> lo + nr <= N ->
  lo + nr < 64 * (p + Z.of_nat n) + 64 -> is_u 64 m -> (forall k, 0 <= k < 64 -> Z.testbit m k = (lo <=? 64 * p + k)) ->
  let '(b', p', nr', m') := set_words n b p nr (64 * p + 64 - lo) m in
  bits_wf N b' /\ exists lo', 64 * p' <= lo' < 64 * p' + 64 /\ p <= p' /\ lo <= lo' /\ lo' + nr' = lo + nr /\ 0 <= nr' /\ lo' + nr' < 64 * p' + 64 /\
    is_u 64 m' /\ (forall k, 0 <= k < 64 -> Z.testbit m' k = (lo' <=? 64 * p' + k)) /\
    forall i, 0 <= i -> bit b' i = bit b i || ((lo <=? i) && (i <? lo')).
Proof.
  induction n as [|n IH]; intros b p nr lo m W Hp Hlo Hnr HN Hfuel Hu Hm; cbn [set_words].
  { split; [done|]. exists lo. repeat (split; [lia || done|]). intros i Hi.
    destruct (Z.leb_spec lo i), (Z.ltb_spec i lo); try lia; by rewrite orb_false_r. }
  destruct (Z.leb_spec 0 (nr - (64 * p + 64 - lo))) as [Hge|Hlt].
  - set (b1 := aset b p _). assert (0 <= p < Z.of_nat (length b)) as Hpr by (destruct W; lia).
    assert (bits_wf N b1) as W1.
    { destruct W as [Hb Hl]. split; [|unfold b1; by rewrite length_aset]. apply Forall_aset; [done|].
      apply is_u_lor; [lia|by apply Forall_aget|done]. }
    specialize (IH b1 (p + 1) (nr - (64 * p + 64 - lo)) (64 * (p + 1)) (Z.ones 64) W1).
    replace (64 * (p + 1) + 64 - 64 * (p + 1)) with 64 in IH by lia.
    destruct (set_words n b1 _ _ _ _) as [[[b' p'] nr'] m']. destruct IH as [W' (lo' & H1 & H2 & H3 & H4 & H5 & H6 & H7 & H8 & H9)]; try lia; [by vm_compute| |].
    { intros k Hk. rewrite Z.testbit_ones_nonneg by lia. destruct (Z.ltb_spec k 64), (Z.leb_spec (64 * (p + 1)) (64 * (p + 1) + k)); lia. }
    split; [done|]. exists lo'. do 8 (split; [lia || done|]). intros i Hi. rewrite H9 by done. unfold b1. rewrite bit_aset by done.
    destruct (Z.eqb_spec (i / 64) p) as [E|E].
    + pose proof (Z.mod_pos_bound i 64 ltac:(lia)). pose proof (Z.div_mod i 64 ltac:(lia)) as Ed. rewrite E in Ed.
      rewrite Z.lor_spec, Hm by lia. unfold bit. rewrite E, <- Ed. destruct (Z.leb_spec lo i), (Z.leb_spec (64 * (p + 1)) i), (Z.ltb_spec i lo'); try lia; cbn [andb]; by rewrite !orb_false_r || by rewrite ?orb_true_r.
    + f_equal. destruct (Z.leb_spec lo i), (Z.leb_spec (64 * (p + 1)) i); try lia; try done. destruct E.
      symmetry. apply (Z.div_unique i 64 p (i - 64 * p)); lia.
  - split; [done|]. exists lo. repeat (split; [lia || done|]). intros i Hi.
    destruct (Z.leb_spec lo i), (Z.ltb_spec i lo); try lia; by rewrite orb_false_r.
Qed.
Lemma bitmap_set_spec N b start nr : bits_wf N b -> 0 <= start -> 0 <= nr -> start + nr <= N ->
  bits_wf N (bitmap_set b start nr) /\
  forall i, 0 <= i -> bit (bitmap_set b start nr) i = bit b i || ((start <=? i) && (i <? start + nr)).
Proof.
  intros W Hs Hn HN. unfold bitmap_set, BIT_WORD. pose proof (Z.div_mod start 64 ltac:(lia)) as Es. pose proof (Z.mod_pos_bound start 64 ltac:(lia)) as Hm.
  pose proof (Z.div_mod nr 64 ltac:(lia)) as En. pose proof (Z.mod_pos_bound nr 64 ltac:(lia)). pose proof (Z.div_pos nr 64 Hn ltac:(lia)). pose proof (Z.div_pos start 64 Hs ltac:(lia)).
  replace (64 - start mod 64) with (64 * (start / 64) + 64 - start) by lia.
  pose proof (set_words_spec N (Z.to_nat (nr / 64 + 1)) b (start / 64) nr start (BITMAP_FIRST_WORD_MASK start) W) as H2.
  destruct (set_words _ b _ _ _ _) as [[[b' p] nr'] m]. destruct H2 as [W' (lo & H3 & H4 & H5 & H6 & H7 & H8 & H9 & H10 & H11)]; try lia.
  { apply is_u_u64. }
  { intros k Hk. unfold BITMAP_FIRST_WORD_MASK, u64. rewrite Z.mod_pow2_bits_low, Z.shiftl_spec by lia.
    destruct (Z.leb_spec start (64 * (start / 64) + k)); [rewrite Z.testbit_ones_nonneg by lia; apply Z.ltb_lt; lia|apply Z.testbit_neg_r; lia]. }
  destruct (truth nr') eqn:Et; [apply truth_true in Et|apply truth_false in Et; subst nr'; split; [done|]; intros i Hi; rewrite H11 by done; by replace lo with (start + nr) by lia].
  assert (BITMAP_LAST_WORD_MASK (start + nr) = Z.ones (start + nr - 64 * p)) as ->.
  { unfold BITMAP_LAST_WORD_MASK. rewrite <- (Z.mod_unique (start + nr) 64 p (start + nr - 64 * p)) by lia.
    unfold truth. destruct (Z.eqb_spec (start + nr - 64 * p) 0); [lia|]. cbn [negb]. rewrite Z.shiftl_1_l, Z.ones_equiv. lia. }
  assert (0 <= p < Z.of_nat (length b')) as Hp by (destruct W'; lia).
  split.
  - destruct W' as [Hb Hl]. split; [|by rewrite length_aset]. apply Forall_aset; [done|].
    apply is_u_lor; [lia|by apply Forall_aget|by apply is_u_land_l].
  - intros i Hi. rewrite bit_aset by done. pose proof (Z.mod_pos_bound i 64 ltac:(lia)). pose proof (Z.div_mod i 64 ltac:(lia)) as Ed.
    destruct (Z.eqb_spec (i / 64) p) as [E|E].
    + rewrite E in Ed. rewrite Z.lor_spec, Z.land_spec, H10, Z.testbit_ones_nonneg by lia. replace (64 * p + i mod 64) with i by lia.
      replace (Z.testbit (aget 0 b' p) (i mod 64)) with (bit b' i) by (unfold bit; by rewrite E). rewrite H11 by done.
      destruct (Z.leb_spec start i), (Z.ltb_spec i lo), (Z.leb_spec lo i), (Z.ltb_spec (i mod 64) (start + nr - 64 * p)), (Z.ltb_spec i (start + nr));
        try lia; by destruct (bit b i).
    + rewrite H11 by done. destruct (Z.leb_spec start i), (Z.ltb_spec i lo), (Z.ltb_spec i (start + nr)); try lia; done.
Qed.

Lemma find_next_bit_first_witness : first_set [0; 0; 0; 0; 0; 8] 3 400 323.
Proof.
  assert (find_next_bit [0; 0; 0; 0; 0; 8] 400 3 = 323) as <- by by vm_compute.
  apply find_next_bit_first; [by repeat (apply Forall_cons; split; [by vm_compute|])|lia|lia].
Defined.
End Bitmap.
