(* ===== verification/PageCache.v ===== *)
(** * The cache of sent pages (page_cache.c)

    Pages by address, one for each slot.  An insertion evicts what the slot
    held; a change of size keeps the page used last in each slot. *)

From S2P Require Import Prelude Ptimer.

Module PageCache.

(** [it_data] is [None] when the slot has no page; its address is -1 then. *)
Record CacheItem := mkItem { it_addr : Z; it_age : Z; it_data : option (list Z) }.
Record PageCache := mkCache {
  page_cache : list CacheItem; page_size : Z; max_num_items : Z; max_item_age : Z; num_items : Z
}.
#[export] Instance eta_cache : RecEta PageCache := fun c =>
  mkCache (page_cache c) (page_size c) (max_num_items c) (max_item_age c) (num_items c).

Definition empty_item : CacheItem := mkItem (u64 (-1)) 0 None.
Definition is_power_of_2 (value : Z) : bool := if truth value then negb (value .&? (value - 1)) else false.
Definition pow2floor (value : Z) : Z :=
  if is_power_of_2 (u64 value) then value else s64 (0x8000000000000000 .>> Ptimer.clz64 (u64 value)).

Definition cache_init (num_pages page_size : Z) : option PageCache :=
  if num_pages <=? 0 then None
  else
    let num_pages := if is_power_of_2 (u64 num_pages) then num_pages else pow2floor num_pages in
    Some (mkCache (replicate (Z.to_nat num_pages) empty_item) page_size num_pages 0 0).
Definition cache_get_cache_pos (c : PageCache) (addr : Z) : Z := (addr / page_size c) .& (max_num_items c - 1).
Definition cache_get_by_addr (c : PageCache) (addr : Z) : CacheItem := aget empty_item (page_cache c) (cache_get_cache_pos c addr).
Definition cache_is_cached (c : PageCache) (addr : Z) : bool := it_addr (cache_get_by_addr c addr) =? addr.
Definition get_cached_data (c : PageCache) (addr : Z) : option (list Z) := it_data (cache_get_by_addr c addr).
Definition set_item (c : PageCache) (addr : Z) (it : CacheItem) : PageCache :=
  c.[page_cache := aset (page_cache c) (cache_get_cache_pos c addr) it].
Definition cache_insert (c : PageCache) (addr : Z) (pdata : list Z) : PageCache :=
  let it := cache_get_by_addr c addr in
  let c := match it_data it with None => c.[num_items := num_items c + 1] | Some _ => c end in
  let c := c.[max_item_age := u64 (max_item_age c + 1)] in
  set_item c addr (mkItem addr (max_item_age c) (Some pdata)).
(** Write to the page of a slot, as the owner of the pointer does. *)
Definition cache_update (c : PageCache) (addr : Z) (pdata : list Z) : PageCache :=
  let it := cache_get_by_addr c addr in
  set_item c addr (mkItem (it_addr it) (it_age it) (Some pdata)).

(** One item of the old cache goes to the new one. *)
Definition move_item (n : PageCache) (old : CacheItem) : PageCache :=
  if it_addr old =? u64 (-1) then n
  else
    let new := cache_get_by_addr n (it_addr old) in
    match it_data new with
    | Some _ => if it_age old <=? it_age new then n else set_item n (it_addr old) old
    | None => set_item n.[num_items := num_items n + 1] (it_addr old) old
    end.
(** The new number of slots, or -1. *)
Definition cache_resize (c : PageCache) (new_num_pages : Z) : Z * PageCache :=
  if pow2floor new_num_pages =? max_num_items c then (max_num_items c, c)
  else
    match cache_init new_num_pages (page_size c) with
    | None => (-1, c)
    | Some n =>
        let n := foldl move_item n (page_cache c) in
        let c := c.[page_cache := page_cache n].[max_num_items := max_num_items n].[num_items := num_items n] in
        (max_num_items c, c)
    end.

(** ** The cache as a map *)

(** Every slot is empty or has a page of the addresses it is for. *)
Definition item_at (c : PageCache) (pos : Z) (it : CacheItem) : Prop :=
  it = empty_item \/ (it_addr it <> u64 (-1) /\ cache_get_cache_pos c (it_addr it) = pos /\ is_Some (it_data it)).
Record cache_wf (c : PageCache) : Prop := {
  cw_slots : exists k, 0 <= k /\ max_num_items c = 2 ^ k;
  cw_length : Z.of_nat (length (page_cache c)) = max_num_items c;
  cw_page : 0 < page_size c;
  cw_items pos : 0 <= pos < max_num_items c -> item_at c pos (aget empty_item (page_cache c) pos)
}.
(** The page of an address, if it is in the cache. *)
Definition cached (c : PageCache) (addr : Z) : option (list Z) := if cache_is_cached c addr then get_cached_data c addr else None.

Lemma pos_range c addr : cache_wf c -> 0 <= addr -> 0 <= cache_get_cache_pos c addr < max_num_items c.
Proof.
  intros W Ha. destruct (cw_slots c W) as (k & Hk & E). unfold cache_get_cache_pos. rewrite E.
  replace (2 ^ k - 1) with (Z.ones k) by (rewrite Z.ones_equiv; lia). rewrite Z.land_ones by lia. apply Z.mod_pos_bound. lia.
Qed.
Lemma get_by_addr_set c a b it : cache_wf c -> 0 <= a -> 0 <= b ->
  cache_get_by_addr (set_item c a it) b = if cache_get_cache_pos c b =? cache_get_cache_pos c a then it else cache_get_by_addr c b.
Proof.
  intros W Ha Hb. pose proof (pos_range c a W Ha). pose proof (pos_range c b W Hb). pose proof (cw_length c W).
  unfold cache_get_by_addr, set_item. cbn [page_cache set_field]. unfold set_field. cbn [page_cache].
  change (cache_get_cache_pos (mkCache _ _ _ _ _) b) with (cache_get_cache_pos c b).
  destruct (Z.eqb_spec (cache_get_cache_pos c b) (cache_get_cache_pos c a)) as [->|Hne]; [by rewrite aget_aset_eq by lia|].
  by rewrite aget_aset_ne by lia.
Qed.

(** Replacing the item of a slot by one that belongs there. *)
Lemma set_item_wf c a it : cache_wf c -> 0 <= a -> item_at c (cache_get_cache_pos c a) it -> cache_wf (set_item c a it).
Proof.
  intros W Ha Hit. pose proof (pos_range c a W Ha) as Hp. destruct W as [Hs Hl Hpg Hi]. split; [done| |done|].
  - cbn [page_cache max_num_items]. unfold set_item, set_field. cbn [page_cache max_num_items]. by rewrite length_aset.
  - intros pos Hpos. change (item_at c pos (aget empty_item (aset (page_cache c) (cache_get_cache_pos c a) it) pos)).
    change (max_num_items (set_item c a it)) with (max_num_items c) in Hpos.
    destruct (Z.eqb_spec pos (cache_get_cache_pos c a)) as [->|Hne]; [by rewrite aget_aset_eq by lia|].
    rewrite aget_aset_ne by lia. by apply Hi.
Qed.
Lemma with_counters_wf c n age : cache_wf c -> cache_wf c.[num_items := n].[max_item_age := age].
Proof. intros [Hs Hl Hp Hi]. by split. Qed.

(** The cache is a map with one page for each slot: a page inserted is found, those of other slots stay, and what the
    slot held before is no longer in the cache. *)
Theorem insert_lookup c a d : cache_wf c -> 0 <= a < u64 (-1) ->
  cache_wf (cache_insert c a d) /\
  forall b, 0 <= b < u64 (-1) -> cached (cache_insert c a d) b =
    if b =? a then Some d else if cache_get_cache_pos c b =? cache_get_cache_pos c a then None else cached c b.
Proof.
  intros W Ha. unfold cache_insert.
  set (c1 := match it_data _ with None => _ | Some _ => c end). set (c2 := c1.[max_item_age := u64 (max_item_age c1 + 1)]).
  assert (cache_wf c2 /\ (forall x, cache_get_by_addr c2 x = cache_get_by_addr c x) /\ (forall x, cache_get_cache_pos c2 x = cache_get_cache_pos c x)) as (W2 & Hg & Hpos).
  { unfold c2, c1. destruct (it_data _); (split; [destruct W; by split|done]). }
  clearbody c2. split.
  - apply set_item_wf; [done|lia|]. right. cbn. split; [lia|done].
  - intros b Hb. unfold cached, cache_is_cached, get_cached_data. rewrite !get_by_addr_set by (done || lia). rewrite !Hpos, Hg.
    destruct (Z.eqb_spec b a) as [->|Hne]; [by rewrite Z.eqb_refl; cbn; rewrite Z.eqb_refl|].
    destruct (cache_get_cache_pos c b =? cache_get_cache_pos c a); [|done]. cbn. by destruct (Z.eqb_spec a b); [congruence|].
Qed.

(** ** Changing the size *)

Lemma power_of_2 x : 0 < x -> is_power_of_2 x = true -> x = 2 ^ Z.log2 x.
Proof.
  intros Hx. unfold is_power_of_2. destruct (truth x); [|done]. intros E%negb_true_iff%truth_false.
  pose proof (Z.log2_spec x Hx) as [H1 H2]. pose proof (Z.log2_nonneg x). rewrite Z.pow_succ_r in H2 by lia.
  destruct (Z.eq_dec x (2 ^ Z.log2 x)) as [|Hne]; [done|].
  assert (forall r, 0 <= r < 2 ^ Z.log2 x -> Z.testbit (2 ^ Z.log2 x + r) (Z.log2 x) = true) as Hbit.
  { intros r Hr. apply Z.testbit_true; [lia|]. replace (2 ^ Z.log2 x + r) with (r + 1 * 2 ^ Z.log2 x) by lia.
    by rewrite Z.div_add, Z.div_small by lia. }
  pose proof (Hbit (x - 2 ^ Z.log2 x) ltac:(lia)) as B1. pose proof (Hbit (x - 1 - 2 ^ Z.log2 x) ltac:(lia)) as B2.
  replace (2 ^ Z.log2 x + (x - 2 ^ Z.log2 x)) with x in B1 by lia. replace (2 ^ Z.log2 x + (x - 1 - 2 ^ Z.log2 x)) with (x - 1) in B2 by lia.
  apply (f_equal (fun y => Z.testbit y (Z.log2 x))) in E. cbn beta in E. by rewrite Z.land_spec, B1, B2, Z.bits_0 in E.
Qed.
Lemma pow2floor_spec x : 0 < x < 2 ^ 63 -> pow2floor x = 2 ^ Z.log2 x.
Proof.
  intros Hx. unfold pow2floor. rewrite u64_small by (unfold is_u; lia). destruct (is_power_of_2 x) eqn:E; [apply power_of_2; [lia|done]|].
  unfold Ptimer.clz64. destruct (Z.eqb_spec x 0); [lia|]. pose proof (Z.log2_nonneg x).
  assert (Z.log2 x < 63) by (apply Z.log2_lt_pow2; lia). change 0x8000000000000000 with (2 ^ 63).
  rewrite Z.shiftr_div_pow2, <- Z.pow_sub_r by lia. replace (63 - (63 - Z.log2 x)) with (Z.log2 x) by lia.
  unfold s64. apply sN_small; [lia|]. split; [|apply Z.pow_lt_mono_r; lia]. pose proof (Z.pow_pos_nonneg 2 (Z.log2 x)). lia.
Qed.
Lemma init_spec n ps : 0 < n < 2 ^ 63 -> 0 < ps -> exists c, cache_init n ps = Some c /\ cache_wf c /\ max_num_items c = pow2floor n /\ page_size c = ps /\
  forall it, it ∈ page_cache c -> it = empty_item.
Proof.
  intros Hn Hp. unfold cache_init. destruct (Z.leb_spec n 0); [lia|].
  assert ((if is_power_of_2 (u64 n) then n else pow2floor n) = pow2floor n) as ->.
  { unfold pow2floor. by destruct (is_power_of_2 (u64 n)). }
  eexists. split; [reflexivity|]. pose proof (pow2floor_spec n Hn) as E. pose proof (Z.log2_nonneg n). pose proof (Z.pow_pos_nonneg 2 (Z.log2 n)).
  split; [|split; [done|split; [done|]]].
  - split; cbn; [by exists (Z.log2 n)|rewrite length_replicate; lia|done|]. intros pos Hpos. left. unfold aget.
    destruct (0 <=? pos); [|done]. destruct (replicate _ _ !! _) eqn:El; [|done]. by apply lookup_replicate in El as [-> _].
  - cbn. intros it Hit. by apply elem_of_replicate in Hit as [-> _].
Qed.

(** The items of [l] for a position. *)
Definition candidates (c : PageCache) (l : list CacheItem) (pos : Z) : list CacheItem :=
  filter (fun old => it_addr old <> u64 (-1) /\ cache_get_cache_pos c (it_addr old) = pos) l.
(** The slots after the items of [l] were moved. *)
Definition newest (c : PageCache) (l : list CacheItem) : Prop := forall pos, 0 <= pos < max_num_items c ->
  let it := aget empty_item (page_cache c) pos in
  (it = empty_item /\ candidates c l pos = []) \/ (it ∈ candidates c l pos /\ forall old, old ∈ candidates c l pos -> it_age old <= it_age it).
Definition movable (it : CacheItem) : Prop := it = empty_item \/ (0 <= it_addr it < u64 (-1) /\ is_Some (it_data it)).
Lemma candidates_snoc c l old pos : it_addr old <> u64 (-1) ->
  candidates c (l ++ [old]) pos = candidates c l pos ++ if cache_get_cache_pos c (it_addr old) =? pos then [old] else [].
Proof.
  intros Ha. unfold candidates. rewrite filter_app. f_equal. destruct (Z.eqb_spec (cache_get_cache_pos c (it_addr old)) pos).
  - by rewrite filter_cons_True.
  - by rewrite filter_cons_False by tauto.
Qed.
(** The slot of [old] gets [it], and the others stay. *)
Lemma newest_step c c' l old it : newest c l -> it_addr old <> u64 (-1) ->
  let p := cache_get_cache_pos c (it_addr old) in
  max_num_items c' = max_num_items c -> page_size c' = page_size c ->
  (forall pos, 0 <= pos < max_num_items c -> aget empty_item (page_cache c') pos = if pos =? p then it else aget empty_item (page_cache c) pos) ->
  it ∈ candidates c l p ++ [old] -> it_age old <= it_age it -> (forall x, x ∈ candidates c l p -> it_age x <= it_age it) ->
  newest c' (l ++ [old]).
Proof.
  intros Hl Ha p Hn Hps Hslot Hin Hold Hmax pos Hpos. rewrite Hn in Hpos. specialize (Hl pos Hpos).
  assert (forall a, cache_get_cache_pos c' a = cache_get_cache_pos c a) as Hcp by (intros a; unfold cache_get_cache_pos; by rewrite Hn, Hps).
  assert (forall l, candidates c' l pos = candidates c l pos) as Hc by (intros k; unfold candidates; apply list_filter_iff; intros x; by rewrite Hcp).
  cbn zeta in *. fold (candidates c' (l ++ [old]) pos). fold (candidates c l pos) in Hl. rewrite Hslot, Hc, candidates_snoc by done. fold p.
  rewrite Z.eqb_sym. destruct (Z.eqb_spec p pos) as [<-|Hne].
  - right. split; [done|]. intros x Hx. apply elem_of_app in Hx as [Hx|Hx]; [by apply Hmax|]. by apply list_elem_of_singleton in Hx as ->.
  - by rewrite app_nil_r.
Qed.
Lemma move_item_spec c l old : cache_wf c -> movable old -> newest c l ->
  let c' := move_item c old in
  cache_wf c' /\ max_num_items c' = max_num_items c /\ page_size c' = page_size c /\ newest c' (l ++ [old]).
Proof.
  intros W [->|[Ha Hd]] Hl; cbn zeta; unfold move_item.
  { cbn [it_addr empty_item]. rewrite Z.eqb_refl. do 3 (split; [done|]). intros pos Hpos. specialize (Hl pos Hpos). cbn zeta in *. unfold candidates in *.
    rewrite filter_app, filter_cons_False, filter_nil, app_nil_r by (cbn; tauto). done. }
  destruct (Z.eqb_spec (it_addr old) (u64 (-1))) as [|Hne]; [lia|]. set (p := cache_get_cache_pos c (it_addr old)).
  pose proof (pos_range c (it_addr old) W ltac:(lia)) as Hp. fold p in Hp. pose proof (cw_length c W) as Hlen.
  assert (item_at c p old) as Hat by (right; done).
  pose proof (Hl p Hp) as Hcur. cbn zeta in Hcur. fold (candidates c l p) in Hcur.
  pose proof (cw_items c W p Hp) as Hcat. change (cache_get_by_addr c (it_addr old)) with (aget empty_item (page_cache c) p).
  set (cur := aget empty_item (page_cache c) p) in *.
  assert (forall n, let c' := set_item c.[num_items := n] (it_addr old) old in
    (forall x, x ∈ candidates c l p -> it_age x <= it_age old) ->
    cache_wf c' /\ max_num_items c' = max_num_items c /\ page_size c' = page_size c /\ newest c' (l ++ [old])) as Hset.
  { intros n c' Hmax. split; [|split; [done|split; [done|]]].
    - apply (set_item_wf c.[num_items := n]); [by destruct W|lia|done].
    - apply (newest_step c c' l old old); try done; [|apply elem_of_app; right; by apply list_elem_of_singleton].
      intros pos Hpos. change (page_cache c') with (aset (page_cache c) p old). fold p.
      destruct (Z.eqb_spec pos p) as [->|Hpp]; [by rewrite aget_aset_eq by lia|by rewrite aget_aset_ne by lia]. }
  destruct (it_data cur) as [d|] eqn:Ed.
  - destruct Hcur as [[E _]|[Hin Hmax]]; [by rewrite E in Ed|]. destruct (Z.leb_spec (it_age old) (it_age cur)) as [Hle|Hlt].
    + do 3 (split; [done|]). apply (newest_step c c l old cur); try done.
      * intros pos Hpos. fold p. by destruct (Z.eqb_spec pos p) as [->|].
      * apply elem_of_app. by left.
    + apply (Hset (num_items c)). intros x Hx. pose proof (Hmax x Hx). lia.
  - apply Hset. intros x Hx. destruct Hcur as [[_ E]|[Hin _]].
    + rewrite E in Hx. by apply not_elem_of_nil in Hx.
    + destruct Hcat as [E|(_ & _ & [d' Hd'])]; [|congruence]. rewrite E in Hin.
      apply list_elem_of_filter in Hin as [[Hbad _] _]. by destruct Hbad.
Qed.

(** Moved to another number of slots, each slot has the page used last of those that go there. *)
Theorem resize_keeps_newest c n : cache_wf c -> Forall movable (page_cache c) -> 0 < n < 2 ^ 63 -> pow2floor n <> max_num_items c ->
  exists c', cache_resize c n = (pow2floor n, c') /\ cache_wf c' /\ max_num_items c' = pow2floor n /\ newest c' (page_cache c).
Proof.
  intros W Hm Hn Hne. unfold cache_resize. destruct (Z.eqb_spec (pow2floor n) (max_num_items c)); [done|].
  destruct (init_spec n (page_size c) Hn (cw_page c W)) as (c0 & -> & W0 & N0 & P0 & E0).
  assert (newest c0 []) as H0.
  { intros pos Hpos. left. split; [|done]. apply E0. rewrite <- (cw_length c0 W0) in Hpos. unfold aget.
    destruct (Z.leb_spec 0 pos); [|lia]. destruct (lookup_lt_is_Some_2 (page_cache c0) (Z.to_nat pos)) as [x Hx]; [lia|].
    rewrite Hx. by apply list_elem_of_lookup_2 in Hx. }
  assert (forall l done, Forall movable l -> cache_wf c0 -> newest c0 done ->
    let c1 := foldl move_item c0 l in cache_wf c1 /\ max_num_items c1 = max_num_items c0 /\ page_size c1 = page_size c0 /\ newest c1 (done ++ l)) as Hfold.
  { clear -c0. intros l. revert c0. induction l as [|old l IH]; intros c0 l0 Hl W0 H0; [by rewrite app_nil_r|].
    inversion_clear Hl as [|? ? Ho Hl']. destruct (move_item_spec c0 l0 old W0 Ho H0) as (W1 & N1 & P1 & H1).
    destruct (IH (move_item c0 old) (l0 ++ [old]) Hl' W1 H1) as (W2 & N2 & P2 & H2). rewrite <- app_assoc in H2.
    cbn [foldl]. split; [done|]. split; [congruence|]. split; [congruence|done]. }
  destruct (Hfold (page_cache c) [] Hm W0 H0) as (W1 & N1 & P1 & H1). set (c1 := foldl move_item c0 (page_cache c)) in *. clearbody c1.
  exists c.[page_cache := page_cache c1].[max_num_items := max_num_items c1].[num_items := num_items c1].
  split; [f_equal; unfold set_field; cbn; congruence|]. split; [|split; [unfold set_field; cbn; congruence|]].
  - destruct W1 as [S1 L1 _ I1]. split; [done|done|apply W|]. intros pos Hpos. destruct (I1 pos Hpos) as [E|(A1 & A2 & A3)]; [by left|right].
    split; [done|]. split; [|done]. unfold cache_get_cache_pos, set_field in *. cbn. by rewrite P1, P0 in A2.
  - intros pos Hpos. specialize (H1 pos Hpos). cbn zeta in *. unfold candidates, cache_get_cache_pos, set_field in *. cbn in *. by rewrite P1, P0 in H1.
Qed.

(** ** Witnesses *)

Definition cache4 : PageCache := mkCache [mkItem 1024 1 (Some [1]); mkItem 256 3 (Some [3]); empty_item; empty_item] 256 4 3 2.
Lemma cache4_wf : cache_wf cache4.
Proof.
  split; [by exists 2|done|done|]. intros pos Hpos. assert (pos = 0 \/ pos = 1 \/ pos = 2 \/ pos = 3) as Hc by (cbn in Hpos; lia).
  destruct Hc as [->|[->|[->| ->]]]; [right|right|left|left]; by (split; [|split]) || done.
Qed.
Lemma insert_lookup_witness : cached (cache_insert cache4 2048 [5]) 1024 = None /\ cached (cache_insert cache4 2048 [5]) 256 = Some [3].
Proof.
  destruct (insert_lookup cache4 2048 [5] cache4_wf ltac:(by vm_compute)) as [_ H].
  rewrite !H by by vm_compute. done.
Defined.
Lemma resize_keeps_newest_witness : exists c', cache_resize cache4 1 = (1, c') /\ newest c' (page_cache cache4).
Proof.
  destruct (resize_keeps_newest cache4 1 cache4_wf) as (c' & E & _ & _ & H); [|lia|by vm_compute|by exists c'].
  repeat (apply Forall_cons; split; [(by left) || (right; split; [by vm_compute|by eexists])|]). by apply Forall_nil.
Defined.
End PageCache.
