(* ===== verification/Ram.v ===== *)
(** * Migrating memory (arch_init.c, with util/cutils.c, exec.c and memory.c)

    Memory is sent in pages while the guest runs: all pages once, in bulk, and
    then those that the guest wrote since, by a bitmap of dirty pages.  A page
    goes out as zero, as it is, or as a difference from what was sent before.
    The other side finds the block of a page by name and writes it.

    The contents of block [i] are the buffer [ext i] of the file model: pages
    are handed to the file by reference.  The RDMA hooks are absent, and the
    statistics that only slow the guest down are left out. *)

From S2P Require Import Prelude QemuFile VmState Bitmap PageCache Xbzrle.

Module Ram.
Import QemuFile Bitmap PageCache Xbzrle.

Definition TARGET_PAGE_BITS := 10.
Definition TARGET_PAGE_SIZE := 1024.
Definition RAM_SAVE_FLAG_COMPRESS := 0x02.
Definition RAM_SAVE_FLAG_MEM_SIZE := 0x04.
Definition RAM_SAVE_FLAG_PAGE := 0x08.
Definition RAM_SAVE_FLAG_EOS := 0x10.
Definition RAM_SAVE_FLAG_CONTINUE := 0x20.
Definition RAM_SAVE_FLAG_XBZRLE := 0x40.
Definition RAM_SAVE_FLAG_HOOK := 0x80.
Definition ENCODING_FLAG_XBZRLE := 0x1.
Definition DIRTY_MEMORY_MIGRATION := 3.
Definition EINVAL := 22.

(** A block and its memory region. *)
Record RAMBlock := mkBlock { rb_idstr : list Z; rb_offset : Z; rb_length : Z; mr_ram_addr : Z; mr_size : Z }.

Record AccountingInfo := mkAcct {
  dup_pages : Z; skipped_pages : Z; norm_pages : Z; iterations : Z;
  xbzrle_bytes : Z; xbzrle_pages : Z; xbzrle_cache_miss : Z; xbzrle_overflows : Z
}.
#[export] Instance eta_acct : RecEta AccountingInfo := fun a =>
  mkAcct (dup_pages a) (skipped_pages a) (norm_pages a) (iterations a) (xbzrle_bytes a) (xbzrle_pages a) (xbzrle_cache_miss a) (xbzrle_overflows a).

(** The static variables; blocks are given by their position in the list, and
    a bitmap that is not allocated is empty. *)
Record ram_state := mkRam {
  last_seen_block : option nat;
  last_sent_block : option nat;
  last_offset : Z;
  migration_bitmap : list Z;
  migration_dirty_pages : Z;
  last_version : Z;
  ram_bulk_stage : bool;
  cache : option PageCache;
  bytes_transferred : Z;
  acct_info : AccountingInfo;
  phys_dirty : list Z
}.
#[export] Instance eta_ram : RecEta ram_state := fun s =>
  mkRam (last_seen_block s) (last_sent_block s) (last_offset s) (migration_bitmap s) (migration_dirty_pages s)
    (last_version s) (ram_bulk_stage s) (cache s) (bytes_transferred s) (acct_info s) (phys_dirty s).

(** ** Zero pages *)

Section Zero.
(** The bytes of a vector of the host. *)
Context (vec : Z).
Definition vector_zero (p : list Z) (i : Z) : bool := forallb (Z.eqb 0) (slice p (i * vec) vec).
Fixpoint first_vectors (n : nat) (p : list Z) (i : Z) : option Z :=
  match n with
  | O => None
  | Datatypes.S n => if vector_zero p i then first_vectors n p (i + 1) else Some (i * vec)
  end.
Fixpoint more_vectors (n : nat) (p : list Z) (len i : Z) : Z :=
  match n with
  | O => i
  | Datatypes.S n =>
      if i <? len / vec then
        if forallb (fun k => vector_zero p (i + k)) (seqZ 0 8) then more_vectors n p len (i + 8) else i
      else i
  end.
Definition buffer_find_nonzero_offset (p : list Z) (len : Z) : Z :=
  if len =? 0 then 0
  else
    match first_vectors 8 p 0 with
    | Some o => o
    | None => more_vectors (Z.to_nat len) p len 8 * vec
    end.
Definition is_zero_page (p : list Z) : bool := buffer_find_nonzero_offset p TARGET_PAGE_SIZE =? TARGET_PAGE_SIZE.
End Zero.

(** ** Dirty pages *)

Definition migration_bitmap_find_and_reset_dirty (s : ram_state) (b : RAMBlock) (start : Z) : Z * ram_state :=
  let base := mr_ram_addr b .>> TARGET_PAGE_BITS in
  let nr := base + (start .>> TARGET_PAGE_BITS) in
  let size := base + (mr_size b .>> TARGET_PAGE_BITS) in
  let next := if ram_bulk_stage s && (base <? nr) then nr + 1 else find_next_bit (migration_bitmap s) size nr in
  let s := if next <? size
           then s.[migration_bitmap := clear_bit (s32 next) (migration_bitmap s)].[migration_dirty_pages := u64 (migration_dirty_pages s - 1)]
           else s in
  ((next - base) .<< TARGET_PAGE_BITS, s).
Definition migration_bitmap_set_dirty (s : ram_state) (b : RAMBlock) (offset : Z) : ram_state :=
  let nr := s32 ((mr_ram_addr b + offset) .>> TARGET_PAGE_BITS) in
  let '(old, bits) := test_and_set_bit nr (migration_bitmap s) in
  let s := s.[migration_bitmap := bits] in
  if old : bool then s else s.[migration_dirty_pages := u64 (migration_dirty_pages s + 1)].
(** For one page. *)
Definition memory_region_test_and_clear_dirty (dirty : list Z) (b : RAMBlock) (addr client : Z) : bool * list Z :=
  let i := (mr_ram_addr b + addr) .>> TARGET_PAGE_BITS in
  let flags := aget 0 dirty i in
  if flags .&? (1 .<< client) then (true, aset dirty i (flags .& not8 (1 .<< client))) else (false, dirty).
Definition sync_page (b : RAMBlock) (s : ram_state) (addr : Z) : ram_state :=
  let '(dirty, log) := memory_region_test_and_clear_dirty (phys_dirty s) b addr DIRTY_MEMORY_MIGRATION in
  let s := s.[phys_dirty := log] in
  if dirty : bool then migration_bitmap_set_dirty s b addr else s.
Definition pages (b : RAMBlock) : list Z := Z.mul TARGET_PAGE_SIZE <$> seqZ 0 ((rb_length b + TARGET_PAGE_SIZE - 1) / TARGET_PAGE_SIZE).

(** ** Saving *)

Section Save.
Context {S : Type} (ops : QEMUFileOps S) (ext : Z -> list Z) (vec : Z).
(** The blocks, the version of their list, and whether differences are sent. *)
Context (blocks : list RAMBlock) (version : Z) (use_xbzrle : bool) (xbzrle_cache_size : Z).
Implicit Types (f : QEMUFile S) (s : ram_state) (b : RAMBlock).

Definition migration_bitmap_sync s : ram_state := foldl (fun s b => foldl (sync_page b) s (pages b)) s blocks.

Definition save_block_hdr f b (offset cont flag : Z) : Z * QEMUFile S :=
  let f := qemu_put_be64 ops ext f (offset .| cont .| flag) in
  let size := 8 in
  if cont =? 0 then
    let len := Z.of_nat (length (rb_idstr b)) in
    let f := qemu_put_byte ops ext f len in
    let f := qemu_put_buffer ops ext f (rb_idstr b) in
    (size + 1 + len, f)
  else (size, f).

(** The buffer of a block and the one of a slot of the cache. *)
Definition block_buffer (i : nat) : Z := Z.of_nat i.
Definition slot_buffer (c : PageCache) (addr : Z) : Z := -1 - cache_get_cache_pos c addr.

Definition count (g : AccountingInfo -> AccountingInfo) s : ram_state := s.[acct_info := g (acct_info s)].
(** [None] is a failed assertion or a cache that does not exist. *)
Definition save_xbzrle_page f s (current_data : list Z) (current_addr : Z) b (offset cont : Z) (last_stage : bool)
    : option (Z * QEMUFile S * ram_state) :=
  c ← cache s;
  if negb (cache_is_cached c current_addr) then
    let s := if last_stage then s else s.[cache := Some (cache_insert c current_addr current_data)] in
    Some (-1, f, count (fun a => a.[xbzrle_cache_miss := u64 (xbzrle_cache_miss a + 1)]) s)
  else
    prev_cached_page ← get_cached_data c current_addr;
    encoded ← xbzrle_encode_buffer prev_cached_page current_data TARGET_PAGE_SIZE TARGET_PAGE_SIZE;
    match encoded with
    | Encoded [] => Some (0, f, s)
    | Overflow =>
        let s := count (fun a => a.[xbzrle_overflows := u64 (xbzrle_overflows a + 1)]) s in
        Some (-1, f, s.[cache := Some (cache_update c current_addr current_data)])
    | Encoded out =>
        let s := if last_stage then s else s.[cache := Some (cache_update c current_addr current_data)] in
        let '(bytes_sent, f) := save_block_hdr f b offset cont RAM_SAVE_FLAG_XBZRLE in
        let f := qemu_put_byte ops ext f ENCODING_FLAG_XBZRLE in
        let encoded_len := Z.of_nat (length out) in
        let f := qemu_put_be16 ops ext f encoded_len in
        let f := qemu_put_buffer ops ext f out in
        let bytes_sent := bytes_sent + encoded_len + 1 + 2 in
        Some (bytes_sent, f, count (fun a => a.[xbzrle_pages := u64 (xbzrle_pages a + 1)].[xbzrle_bytes := u64 (xbzrle_bytes a + bytes_sent)]) s)
    end.

(** Send one page of block [i]; 0 if it was not modified. *)
Definition save_page f s (i : nat) b (offset : Z) (last_stage : bool) : option (Z * QEMUFile S * ram_state) :=
  let cont := if bool_decide (last_sent_block s = Some i) then RAM_SAVE_FLAG_CONTINUE else 0 in
  let p := slice (ext (block_buffer i)) offset TARGET_PAGE_SIZE in
  if is_zero_page vec p then
    let s := count (fun a => a.[dup_pages := u64 (dup_pages a + 1)]) s in
    let '(bytes_sent, f) := save_block_hdr f b offset cont RAM_SAVE_FLAG_COMPRESS in
    Some (bytes_sent + 1, qemu_put_byte ops ext f 0, s)
  else
    '(bytes_sent, f, s) ←
      (if negb (ram_bulk_stage s) && use_xbzrle then save_xbzrle_page f s p (rb_offset b + offset) b offset cont last_stage
       else Some (-1, f, s));
    if bytes_sent =? -1 then
      let '(bytes_sent, f) := save_block_hdr f b offset cont RAM_SAVE_FLAG_PAGE in
      let f :=
        match cache s with
        | Some c =>
            if negb (ram_bulk_stage s) && use_xbzrle && negb last_stage
            then qemu_put_buffer_async ops ext f (slot_buffer c (rb_offset b + offset)) 0 TARGET_PAGE_SIZE
            else qemu_put_buffer_async ops ext f (block_buffer i) offset TARGET_PAGE_SIZE
        | None => qemu_put_buffer_async ops ext f (block_buffer i) offset TARGET_PAGE_SIZE
        end in
      Some (bytes_sent + TARGET_PAGE_SIZE, f, count (fun a => a.[norm_pages := u64 (norm_pages a + 1)]) s)
    else Some (bytes_sent, f, s).

(** The search for a page to send, from [offset] of block [i]; [None] when
    [n] rounds are not enough or there is no block. *)
Fixpoint save_block_loop (n : nat) f s (i : nat) (offset : Z) (complete_round : bool) (bytes_sent : Z) (last_stage : bool)
    : option (Z * QEMUFile S * ram_state * nat * Z) :=
  match n with
  | O => None
  | Datatypes.S n =>
      b ← blocks !! i;
      let '(offset, s) := migration_bitmap_find_and_reset_dirty s b offset in
      if complete_round && bool_decide (last_seen_block s = Some i) && (last_offset s <=? offset) then
        Some (bytes_sent, f, s, i, offset)
      else if rb_length b <=? offset then
        match blocks !! Datatypes.S i with
        | Some _ => save_block_loop n f s (Datatypes.S i) 0 complete_round bytes_sent last_stage
        | None => save_block_loop n f s.[ram_bulk_stage := false] 0 0 true bytes_sent last_stage
        end
      else
        '(bytes_sent, f, s) ← save_page f s i b offset last_stage;
        if 0 <? bytes_sent then Some (bytes_sent, f, s.[last_sent_block := Some i], i, offset)
        else save_block_loop n f s i offset complete_round bytes_sent last_stage
  end.
Definition ram_save_block (n : nat) f s (last_stage : bool) : option (Z * QEMUFile S * ram_state) :=
  let i := match last_seen_block s with Some i => i | None => O end in
  '(bytes_sent, f, s, i, offset) ← save_block_loop n f s i (last_offset s) false 0 last_stage;
  Some (bytes_sent, f, s.[last_seen_block := Some i].[last_offset := offset]).

Definition last_ram_offset : Z := foldl (fun last b => Z.max last (rb_offset b + rb_length b)) 0 blocks.
Definition ram_bytes_total : Z := foldl (fun total b => u64 (total + rb_length b)) 0 blocks.
Definition ram_save_remaining s : Z := migration_dirty_pages s.

Definition reset_ram_globals s : ram_state :=
  s.[last_seen_block := None].[last_sent_block := None].[last_offset := 0].[last_version := version].[ram_bulk_stage := true].
Definition migration_end s : ram_state := s.[migration_bitmap := []].[cache := None].

Definition put_block f b : QEMUFile S :=
  let f := qemu_put_byte ops ext f (Z.of_nat (length (rb_idstr b))) in
  let f := qemu_put_buffer ops ext f (rb_idstr b) in
  qemu_put_be64 ops ext f (rb_length b).
Definition ram_save_setup f s : Z * QEMUFile S * ram_state :=
  let ram_pages := last_ram_offset .>> TARGET_PAGE_BITS in
  let s := s.[migration_bitmap := bitmap_set (bitmap_new (s32 ram_pages)) 0 (s32 ram_pages)].[migration_dirty_pages := ram_pages] in
  let c := if use_xbzrle then cache_init (xbzrle_cache_size / TARGET_PAGE_SIZE) TARGET_PAGE_SIZE else None in
  if use_xbzrle && bool_decide (c = None) then (-1, f, s.[cache := None])
  else
    let s := if use_xbzrle then s.[cache := c].[acct_info := mkAcct 0 0 0 0 0 0 0 0] else s in
    let s := reset_ram_globals s.[bytes_transferred := 0] in
    let s := migration_bitmap_sync s in
    let f := qemu_put_be64 ops ext f (ram_bytes_total .| RAM_SAVE_FLAG_MEM_SIZE) in
    let f := foldl put_block f blocks in
    (0, qemu_put_be64 ops ext f RAM_SAVE_FLAG_EOS, s).

(** [late i] is whether the time is up when it is looked at in round [i]. *)
Fixpoint iterate_loop (n k : nat) (late : Z -> bool) f s (i total_sent : Z) : option (Z * QEMUFile S * ram_state) :=
  match k with
  | O => None
  | Datatypes.S k =>
      if qemu_file_rate_limit f then Some (total_sent, f, s)
      else
        '(bytes_sent, f, s) ← ram_save_block n f s false;
        if bytes_sent =? 0 then Some (total_sent, f, s)
        else
          let s := count (fun a => a.[iterations := u64 (iterations a + 1)]) s in
          if ((i .& 63) =? 0) && late i then Some (total_sent + bytes_sent, f, s)
          else iterate_loop n k late f s (i + 1) (total_sent + bytes_sent)
  end.
Definition ram_save_iterate (n k : nat) (late : Z -> bool) f s : option (Z * QEMUFile S * ram_state) :=
  let s := if version =? last_version s then s else reset_ram_globals s in
  '(total_sent, f, s) ← iterate_loop n k late f s 0 0;
  let f := qemu_put_be64 ops ext f RAM_SAVE_FLAG_EOS in
  let total_sent := total_sent + 8 in
  Some (total_sent, f, s.[bytes_transferred := u64 (bytes_transferred s + total_sent)]).

Fixpoint complete_loop (n k : nat) f s : option (QEMUFile S * ram_state) :=
  match k with
  | O => None
  | Datatypes.S k =>
      '(bytes_sent, f, s) ← ram_save_block n f s true;
      if bytes_sent =? 0 then Some (f, s)
      else complete_loop n k f s.[bytes_transferred := u64 (bytes_transferred s + bytes_sent)]
  end.
Definition ram_save_complete (n k : nat) f s : option (Z * QEMUFile S * ram_state) :=
  let s := migration_bitmap_sync s in
  '(f, s) ← complete_loop n k f s;
  Some (0, qemu_put_be64 ops ext f RAM_SAVE_FLAG_EOS, migration_end s).
Definition ram_save_pending s (max_size : Z) : Z * ram_state :=
  let remaining_size := u64 (ram_save_remaining s * TARGET_PAGE_SIZE) in
  if remaining_size <? max_size then
    let s := migration_bitmap_sync s in
    (u64 (ram_save_remaining s * TARGET_PAGE_SIZE), s)
  else (remaining_size, s).
End Save.

(** ** Loading *)

Section Load.
Context {S : Type} (ops : QEMUFileOps S) (vec : Z) (blocks : list RAMBlock).
(** What the buffer for names holds before it is read. *)
Context (stack : list Z).
Implicit Types (f : QEMUFile S).

(** The contents of the blocks, the block of the last page, and the buffer for
    differences. *)
Record load_state := mkLoad { contents : list (list Z); block : option nat; decoded_buf : list Z }.
#[local] Instance eta_load : RecEta load_state := fun s => mkLoad (contents s) (block s) (decoded_buf s).
Implicit Types (s : load_state).

Definition get_id f : list Z * QEMUFile S :=
  let '(len, f) := qemu_get_byte ops f in
  let '(id, f) := qemu_get_buffer ops f len in
  (VmState.cstr (take (Z.to_nat len) (id ++ drop (length id) stack)), f).
Definition find_block (id : list Z) : option nat := fst <$> list_find (fun b => rb_idstr b = id) blocks.
(** The block of a page, or [None] for a null pointer. *)
Definition host_from_stream_offset f s (flags : Z) : option nat * QEMUFile S * load_state :=
  if flags .&? RAM_SAVE_FLAG_CONTINUE then (block s, f, s)
  else
    let '(id, f) := get_id f in
    let found := find_block id in
    (found, f, s.[block := found]).
(** The page at [addr] of block [i], and a write to it; [None] is a page outside the block. *)
Definition get_page s (i : nat) (addr : Z) : option (list Z) :=
  c ← contents s !! i;
  if addr + TARGET_PAGE_SIZE <=? Z.of_nat (length c) then Some (slice c addr TARGET_PAGE_SIZE) else None.
Definition put_page s (i : nat) (addr : Z) (p : list Z) : load_state :=
  match contents s !! i with
  | Some c => s.[contents := <[i := memcpy c addr p]> (contents s)]
  | None => s
  end.
Definition ram_handle_compressed (host : list Z) (ch size : Z) : list Z :=
  if truth ch || negb (is_zero_page vec host) then replicate (Z.to_nat size) ch else host.
Definition load_xbzrle f s (host : list Z) : option (Z * QEMUFile S * load_state * list Z) :=
  let '(xh_flags, f) := qemu_get_byte ops f in
  let '(xh_len, f) := qemu_get_be16 ops f in
  if negb (xh_flags =? ENCODING_FLAG_XBZRLE) then Some (-1, f, s, host)
  else if TARGET_PAGE_SIZE <? xh_len then Some (-1, f, s, host)
  else
    let '(d, f) := qemu_get_buffer ops f xh_len in
    let s := s.[decoded_buf := memcpy (decoded_buf s) 0 d] in
    '(ret, host) ← xbzrle_decode_buffer (decoded_buf s) xh_len host TARGET_PAGE_SIZE;
    if ret =? -1 then Some (-1, f, s, host)
    else if TARGET_PAGE_SIZE <? ret then None
    else Some (0, f, s, host).

(** The list of blocks of the sender; [None] is an endless loop. *)
Fixpoint sync_blocks (k : nat) f (total_ram_bytes : Z) : option (Z * QEMUFile S) :=
  match k with
  | O => None
  | Datatypes.S k =>
      if total_ram_bytes =? 0 then Some (0, f)
      else
        let '(id, f) := get_id f in
        let '(length, f) := qemu_get_be64 ops f in
        match find_block id ≫= (fun i => blocks !! i) with
        | None => Some (- EINVAL, f)
        | Some b => if negb (rb_length b =? length) then Some (- EINVAL, f) else sync_blocks k f (u64 (total_ram_bytes - length))
        end
  end.
(** What a header asks for; a result that is not 0 ends the load. *)
Definition load_page f s (addr flags : Z) : option (Z * QEMUFile S * load_state) :=
  if truth (flags .& (RAM_SAVE_FLAG_COMPRESS .| RAM_SAVE_FLAG_PAGE .| RAM_SAVE_FLAG_XBZRLE)) then
    let '(i, f, s) := host_from_stream_offset f s flags in
    match i with
    | None => Some (- EINVAL, f, s)
    | Some i =>
        host ← get_page s i addr;
        if flags .&? RAM_SAVE_FLAG_COMPRESS then
          let '(ch, f) := qemu_get_byte ops f in
          Some (0, f, put_page s i addr (ram_handle_compressed host ch TARGET_PAGE_SIZE))
        else if flags .&? RAM_SAVE_FLAG_PAGE then
          let '(d, f) := qemu_get_buffer ops f TARGET_PAGE_SIZE in
          Some (0, f, put_page s i addr d)
        else
          '(rc, f, s, host) ← load_xbzrle f s host;
          Some (if rc <? 0 then - EINVAL else 0, f, put_page s i addr host)
    end
  else Some (0, f, s).
Fixpoint ram_load_loop (k : nat) f s : option (Z * QEMUFile S * load_state) :=
  match k with
  | O => None
  | Datatypes.S k' =>
      let '(addr, f) := qemu_get_be64 ops f in
      let flags := addr .& (TARGET_PAGE_SIZE - 1) in
      let addr := addr - flags in
      '(ret, f) ← (if flags .&? RAM_SAVE_FLAG_MEM_SIZE then sync_blocks k f addr else Some (0, f));
      if truth ret then Some (ret, f, s)
      else
        '(ret, f, s) ← load_page f s addr flags;
        if truth ret then Some (ret, f, s)
        else
          let error := qemu_file_get_error f in
          if truth error then Some (error, f, s)
          else if flags .&? RAM_SAVE_FLAG_EOS then Some (0, f, s) else ram_load_loop k' f s
  end.
Definition ram_load (k : nat) f s (version_id : Z) : option (Z * QEMUFile S * load_state) :=
  if negb (version_id =? 4) then Some (- EINVAL, f, s) else ram_load_loop k f s.
End Load.
#[export] Existing Instance eta_load.
End Ram.
