(* ===== verification/RamProps.v ===== *)
(** * Sending memory

    [ram_save_block] sends a page that is dirty, and says that there is none
    only when there is none: no dirty page is lost, except the last one of all
    when it is written again before the first round is over. *)

From S2P Require Import Prelude QemuFile QemuFileProps VmState VmStateProps Bitmap PageCache Xbzrle Ram.

Module RamProps.
Import QemuFile QemuFileProps Bitmap PageCache Ram.

(** ** Zero pages *)

Section ZeroPages.
Context (vec : Z) (Hvec : 0 < vec) (Hpage : TARGET_PAGE_SIZE mod (8 * vec) = 0).

Lemma forallb_zero l : forallb (Z.eqb 0) l = true <-> Forall (fun x => x = 0) l.
Proof.
  rewrite forallb_forall, Forall_forall. split; intros H x Hx; specialize (H x).
  - apply list_elem_of_In in Hx. apply H, Z.eqb_eq in Hx. done.
  - apply list_elem_of_In in Hx. apply Z.eqb_eq. symmetry. by apply H.
Qed.
Lemma aget_zero p : Forall (fun x => x = 0) p <-> forall i, 0 <= i < Z.of_nat (length p) -> aget 0 p i = 0.
Proof.
  rewrite Forall_lookup. split.
  - intros H i Hi. unfold aget. destruct (Z.leb_spec 0 i); [|lia]. destruct (lookup_lt_is_Some_2 p (Z.to_nat i)) as [x Hx]; [lia|].
    rewrite Hx. by apply (H (Z.to_nat i)).
  - intros H i x Hx. pose proof (lookup_lt_Some _ _ _ Hx). specialize (H (Z.of_nat i) ltac:(lia)). unfold aget in H.
    destruct (Z.leb_spec 0 (Z.of_nat i)); [|lia]. by rewrite Nat2Z.id, Hx in H.
Qed.
Lemma vector_zero_spec p i : 0 <= i -> (i + 1) * vec <= Z.of_nat (length p) ->
  vector_zero vec p i = true <-> forall j, i * vec <= j < (i + 1) * vec -> aget 0 p j = 0.
Proof.
  intros Hi Hl. unfold vector_zero. rewrite forallb_zero, aget_zero, length_slice by lia. split; intros H j Hj.
  - specialize (H (j - i * vec) ltac:(lia)). rewrite aget_slice in H by lia. by replace (i * vec + (j - i * vec)) with j in H by lia.
  - rewrite aget_slice by lia. apply H. lia.
Qed.
Definition zero_range (p : list Z) (i j : Z) : Prop := forall x, i * vec <= x < j * vec -> aget 0 p x = 0.
Lemma first_vectors_spec n : forall p i, 0 <= i -> (i + Z.of_nat n) * vec <= Z.of_nat (length p) ->
  match first_vectors vec n p i with
  | None => zero_range p i (i + Z.of_nat n)
  | Some o => o < (i + Z.of_nat n) * vec /\ ~ zero_range p i (i + Z.of_nat n)
  end.
Proof.
  induction n as [|n IH]; intros p i Hi Hl; cbn [first_vectors]; [intros x Hx; lia|].
  destruct (vector_zero vec p i) eqn:E.
  - rewrite vector_zero_spec in E by nia. specialize (IH p (i + 1) ltac:(lia) ltac:(lia)).
    replace (i + 1 + Z.of_nat n) with (i + Z.of_nat (Datatypes.S n)) in IH by lia. destruct (first_vectors vec n p (i + 1)).
    + destruct IH as [Ho Hn]. split; [done|]. intros H. apply Hn. intros x Hx. apply H. lia.
    + intros x Hx. destruct (Z.lt_ge_cases x ((i + 1) * vec)); [apply E; lia|apply IH; lia].
  - split; [nia|]. intros H. assert (vector_zero vec p i = true); [|congruence]. rewrite vector_zero_spec by nia. intros j Hj. apply H. nia.
Qed.
Lemma eight_zero p i : 0 <= i -> (i + 8) * vec <= Z.of_nat (length p) ->
  forallb (fun k => vector_zero vec p (i + k)) (seqZ 0 8) = true <-> zero_range p i (i + 8).
Proof.
  intros Hi Hl. rewrite forallb_forall. split.
  - intros H x Hx. pose proof (Z.div_mod x vec ltac:(lia)) as Ed. pose proof (Z.mod_pos_bound x vec Hvec) as Hm.
    assert (i <= x / vec < i + 8) as Hq by nia. specialize (H (x / vec - i)). rewrite <- list_elem_of_In, elem_of_seqZ in H. specialize (H ltac:(lia)).
    replace (i + (x / vec - i)) with (x / vec) in H by lia. apply (proj1 (vector_zero_spec p (x / vec) ltac:(lia) ltac:(nia)) H). nia.
  - intros H k Hk. rewrite <- list_elem_of_In, elem_of_seqZ in Hk. rewrite vector_zero_spec by nia. intros j Hj. apply H. nia.
Qed.
Lemma more_vectors_spec n : forall p len i m, len = 8 * m * vec -> 0 <= i <= m -> m - i <= Z.of_nat n -> Z.of_nat (length p) = len ->
  let r := more_vectors vec n p len (8 * i) in r <= 8 * m /\ (r = 8 * m <-> zero_range p (8 * i) (8 * m)).
Proof.
  induction n as [|n IH]; intros p len i m Hlen Hi Hn Hl; cbn [more_vectors].
  - replace i with m by lia. split; [lia|]. split; [intros _ x Hx; lia|done].
  - assert (len / vec = 8 * m) as -> by (rewrite Hlen; apply Z.div_mul; lia). destruct (Z.ltb_spec (8 * i) (8 * m)) as [Hlt|Hge].
    + destruct (forallb _ _) eqn:E.
      * rewrite eight_zero in E by nia. replace (8 * i + 8) with (8 * (i + 1)) by lia.
        destruct (IH p len (i + 1) m Hlen ltac:(lia) ltac:(lia) Hl) as [H1 H2]. split; [done|]. rewrite H2. split; intros H x Hx.
        -- destruct (Z.lt_ge_cases x ((8 * i + 8) * vec)); [apply E; lia|apply H; nia].
        -- apply H. nia.
      * split; [lia|]. split; [lia|]. intros H. assert (zero_range p (8 * i) (8 * i + 8)) as Hz by (intros x Hx; apply H; nia).
        rewrite <- eight_zero in Hz by nia. congruence.
    + split; [lia|]. split; [intros _ x Hx; nia|lia].
Qed.
Lemma is_zero_page_spec p : Z.of_nat (length p) = TARGET_PAGE_SIZE -> is_zero_page vec p = true <-> Forall (fun x => x = 0) p.
Proof.
  intros Hl. apply Z.mod_divide in Hpage as [m Hm]; [|lia]. assert (0 < m) as Hm0 by (unfold TARGET_PAGE_SIZE in Hm; nia).
  assert (TARGET_PAGE_SIZE = 8 * m * vec) as Hlen by lia. rewrite aget_zero, Hl.
  unfold is_zero_page, buffer_find_nonzero_offset. change (TARGET_PAGE_SIZE =? 0) with false. cbv iota.
  pose proof (first_vectors_spec 8 p 0 ltac:(lia) ltac:(nia)) as H8. rewrite Z.add_0_l in H8. change (Z.of_nat 8) with 8 in H8.
  destruct (first_vectors vec 8 p 0) as [o|].
  - destruct H8 as [Ho Hn]. split; [intros E%Z.eqb_eq; nia|]. intros H. destruct Hn. intros x Hx. apply H. nia.
  - destruct (more_vectors_spec (Z.to_nat TARGET_PAGE_SIZE) p TARGET_PAGE_SIZE 1 m Hlen ltac:(lia) ltac:(unfold TARGET_PAGE_SIZE in *; nia) Hl) as [H1 H2].
    change (8 * 1) with 8 in *. rewrite Z.eqb_eq. split.
    + intros E x Hx. assert (more_vectors vec (Z.to_nat TARGET_PAGE_SIZE) p TARGET_PAGE_SIZE 8 = 8 * m) as Er by nia.
      apply H2 in Er. destruct (Z.lt_ge_cases x (8 * vec)); [apply H8; lia|apply Er; nia].
    + intros H. assert (zero_range p 8 (8 * m)) as Hz by (intros x Hx; apply H; nia). apply H2 in Hz. rewrite Hz. lia.
Qed.
End ZeroPages.

(** ** The blocks *)

Abbreviation PAGE := TARGET_PAGE_SIZE.
Definition base (b : RAMBlock) : Z := rb_offset b / PAGE.
Definition npages (b : RAMBlock) : Z := rb_length b / PAGE.
(** A block of whole pages, whose region is all of it. *)
Record block_ok (b : RAMBlock) : Prop := {
  bo_addr : mr_ram_addr b = rb_offset b;
  bo_size : mr_size b = rb_length b;
  bo_offset : rb_offset b = PAGE * base b /\ 0 <= base b;
  bo_length : rb_length b = PAGE * npages b /\ 0 < npages b;
  bo_name : (length (rb_idstr b) <= 255)%nat /\ Forall (fun c => c <> 0) (rb_idstr b)
}.
Section Blocks.
Context (blocks : list RAMBlock).

(** The pages, and their numbers in the bitmap. *)
Definition number (i : nat) (k : Z) : option Z := b ← blocks !! i; if (0 <=? k) && (k <? npages b) then Some (base b + k) else None.
Definition ram_pages : Z := last_ram_offset blocks .>> TARGET_PAGE_BITS.
Record layout : Prop := {
  lo_blocks : Forall block_ok blocks;
  lo_first : (0 < length blocks)%nat;
  lo_disjoint i k j m nr : number i k = Some nr -> number j m = Some nr -> i = j /\ k = m;
  lo_small : ram_pages < 2 ^ 31
}.

Lemma number_spec i k nr : number i k = Some nr <-> exists b, blocks !! i = Some b /\ 0 <= k < npages b /\ nr = base b + k.
Proof.
  unfold number. destruct (blocks !! i) as [b|]; cbn [mbind option_bind]; [|split; [done|by intros (? & ? & _)]].
  destruct (Z.leb_spec 0 k), (Z.ltb_spec k (npages b)); cbn [andb]; (split; [|intros (b' & [= <-] & Hk & ->); try lia; done]); try done.
  intros [= <-]. by exists b.
Qed.
Lemma last_ram_offset_ge b : b ∈ blocks -> rb_offset b + rb_length b <= last_ram_offset blocks.
Proof.
  unfold last_ram_offset. assert (forall l z, z <= foldl (fun last c => Z.max last (rb_offset c + rb_length c)) z l) as Hmono.
  { induction l as [|c l IH]; intros z; cbn [foldl]; [lia|]. specialize (IH (Z.max z (rb_offset c + rb_length c))). lia. }
  generalize 0. induction blocks as [|c l IH]; intros z Hb; [by apply not_elem_of_nil in Hb|].
  cbn [foldl]. apply elem_of_cons in Hb as [->|Hb]; [|by apply IH]. specialize (Hmono l (Z.max z (rb_offset c + rb_length c))). lia.
Qed.
Lemma block_range b : layout -> b ∈ blocks -> base b + npages b <= ram_pages.
Proof.
  intros L Hb. pose proof (last_ram_offset_ge b Hb) as Hl. pose proof (lo_blocks L) as Hf. rewrite Forall_forall in Hf. specialize (Hf b Hb).
  destruct (bo_offset b Hf) as [E1 _], (bo_length b Hf) as [E2 _]. unfold ram_pages, TARGET_PAGE_BITS, PAGE in *. rewrite Z.shiftr_div_pow2 by lia.
  change (2 ^ 10) with 1024. apply Z.div_le_lower_bound; lia.
Qed.
Lemma number_range i k nr : layout -> number i k = Some nr -> 0 <= nr < ram_pages.
Proof.
  intros L (b & Hb & Hk & ->)%number_spec. pose proof (list_elem_of_lookup_2 _ _ _ Hb) as Hin. pose proof (block_range b L Hin).
  pose proof (lo_blocks L) as Hf. rewrite Forall_forall in Hf. destruct (bo_offset b (Hf b Hin)). lia.
Qed.

(** ** The search for a dirty page *)

Definition dirty (s : ram_state) (i : nat) (k : Z) : bool :=
  match number i k with Some nr => bit (migration_bitmap s) nr | None => false end.
Definition cleared (nr : Z) (s : ram_state) : ram_state :=
  s.[migration_bitmap := clear_bit nr (migration_bitmap s)].[migration_dirty_pages := u64 (migration_dirty_pages s - 1)].
Context (L : layout).
Implicit Types (s : ram_state) (b : RAMBlock).

Lemma block_of i b : blocks !! i = Some b -> block_ok b /\ base b + npages b <= ram_pages.
Proof.
  intros Hb. apply list_elem_of_lookup_2 in Hb. split; [|by apply block_range]. pose proof (lo_blocks L) as H. rewrite Forall_forall in H. by apply H.
Qed.
Lemma dirty_at s i b k : blocks !! i = Some b -> 0 <= k < npages b -> dirty s i k = bit (migration_bitmap s) (base b + k).
Proof. intros Hb Hk. unfold dirty. assert (number i k = Some (base b + k)) as ->; [|done]. apply number_spec. by exists b. Qed.
Lemma dirty_page s i k : dirty s i k = true -> exists b, blocks !! i = Some b /\ 0 <= k < npages b.
Proof. unfold dirty. destruct (number i k) as [nr|] eqn:E; [|done]. apply number_spec in E as (b & ? & ? & _). by exists b. Qed.
Lemma cleared_spec s i b k : bits_wf ram_pages (migration_bitmap s) -> blocks !! i = Some b -> 0 <= k < npages b ->
  bits_wf ram_pages (migration_bitmap (cleared (base b + k) s)) /\
  forall j m, dirty (cleared (base b + k) s) j m = dirty s j m && negb (bool_decide (j = i) && (m =? k)).
Proof.
  intros W Hb Hk. assert (number i k = Some (base b + k)) as Hn by (apply number_spec; by exists b).
  pose proof (number_range _ _ _ L Hn) as Hr. destruct (clear_bit_spec _ _ _ W Hr) as [W' H]. split; [done|].
  intros j m. unfold dirty. destruct (number j m) as [nr|] eqn:E; [|done]. change (migration_bitmap (cleared _ s)) with (clear_bit (base b + k) (migration_bitmap s)).
  pose proof (number_range _ _ _ L E) as Hr'. rewrite H by lia. do 2 f_equal. destruct (Z.eqb_spec nr (base b + k)) as [->|Hne].
  - destruct (lo_disjoint L _ _ _ _ _ E Hn) as [-> ->]. by rewrite bool_decide_eq_true_2, Z.eqb_refl.
  - destruct (Z.eqb_spec m k) as [->|]; [|by rewrite andb_false_r]. rewrite bool_decide_eq_false_2; [done|]. intros ->. congruence.
Qed.

Lemma shift_page x : (PAGE * x) .>> TARGET_PAGE_BITS = x.
Proof. unfold TARGET_PAGE_BITS, PAGE. rewrite Z.shiftr_div_pow2, Z.mul_comm by lia. apply Z.div_mul. lia. Qed.
Lemma page_shift x : x .<< TARGET_PAGE_BITS = PAGE * x.
Proof. unfold TARGET_PAGE_BITS, PAGE. rewrite Z.shiftl_mul_pow2 by lia. change (2 ^ 10) with 1024. lia. Qed.
(** The next page is the first dirty one, or in the first round just the next one. *)
Lemma find_reset_spec s i b k : bits_wf ram_pages (migration_bitmap s) -> blocks !! i = Some b -> 0 <= k <= npages b ->
  (ram_bulk_stage s = true -> k < npages b) ->
  exists k', migration_bitmap_find_and_reset_dirty s b (PAGE * k) = (PAGE * k', if k' <? npages b then cleared (base b + k') s else s) /\
    k <= k' <= npages b /\
    if ram_bulk_stage s && (0 <? k) then k' = k + 1
    else (forall m, k <= m < k' -> dirty s i m = false) /\ (k' < npages b -> dirty s i k' = true).
Proof.
  intros W Hb Hk Hbulk. destruct (block_of i b Hb) as [[Ha Hs [Eo Ho] [El Hl] _] Hr]. unfold migration_bitmap_find_and_reset_dirty.
  rewrite Ha, Hs, Eo, El, !shift_page. set (nx := if ram_bulk_stage s && _ then base b + k + 1 else find_next_bit _ _ _).
  exists (nx - base b). rewrite page_shift. replace (base b + (nx - base b)) with nx by lia.
  assert ((nx <? base b + npages b) = (nx - base b <? npages b)) as -> by (destruct (Z.ltb_spec nx (base b + npages b)), (Z.ltb_spec (nx - base b) (npages b)); lia).
  assert ((base b <? base b + k) = (0 <? k)) as E by (destruct (Z.ltb_spec (base b) (base b + k)), (Z.ltb_spec 0 k); lia).
  assert (k <= nx - base b <= npages b /\ if ram_bulk_stage s && (0 <? k) then nx - base b = k + 1
    else (forall m, k <= m < nx - base b -> dirty s i m = false) /\ (nx - base b < npages b -> dirty s i (nx - base b) = true)) as [H1 H2].
  { unfold nx. rewrite E. clear E nx. destruct (ram_bulk_stage s && (0 <? k)) eqn:Eb.
    - apply andb_true_iff in Eb as [Eb _]. specialize (Hbulk Eb). lia.
    - pose proof (lo_small L). destruct (Z.eq_dec k (npages b)) as [->|Hne].
      + unfold find_next_bit. destruct (Z.leb_spec (base b + npages b) (base b + npages b)); [|lia]. split; [lia|]. split; [intros; lia|lia].
      + destruct (find_next_bit_spec (migration_bitmap s) (proj1 W) (base b + npages b) (base b + k)) as (H1 & H2 & H3); [lia|lia|].
        split; [lia|]. split.
        * intros m Hm. rewrite (dirty_at s i b) by (done || lia). apply H2. lia.
        * intros Hlt. rewrite (dirty_at s i b) by (done || lia). rewrite Zplus_minus. apply H3. lia. }
  split; [|done]. destruct (Z.ltb_spec (nx - base b) (npages b)) as [Hlt|]; [|done]. rewrite s32_small; [done|]. pose proof (lo_small L). lia.
Qed.

(** ** Sending a page *)

Section Sending.
Context {S : Type} (ops : QEMUFileOps S) (ext : Z -> list Z) (vec : Z) (version xbzrle_cache_size : Z).
Implicit Types (f : QEMUFile S).
Abbreviation put := (put_item ops ext).
Abbreviation loop := (save_block_loop ops ext vec blocks false).

Definition hdr_items b (offset cont flag : Z) : list item :=
  IBe64 (offset .| cont .| flag) :: if cont =? 0 then [IByte (Z.of_nat (length (rb_idstr b))); IBuffer (rb_idstr b)] else [].
Definition page (i : nat) (k : Z) : list Z := slice (ext (block_buffer i)) (PAGE * k) PAGE.
(** What is sent for a page, after one of block [prev]. *)
Definition page_items (prev : option nat) (i : nat) (k : Z) : list item :=
  match blocks !! i with
  | None => []
  | Some b =>
      let cont := if bool_decide (prev = Some i) then RAM_SAVE_FLAG_CONTINUE else 0 in
      if is_zero_page vec (page i k) then hdr_items b (PAGE * k) cont RAM_SAVE_FLAG_COMPRESS ++ [IByte 0]
      else hdr_items b (PAGE * k) cont RAM_SAVE_FLAG_PAGE ++ [IAsync (block_buffer i) (PAGE * k) PAGE]
  end.
Lemma hdr_spec f b offset cont flag : exists n, save_block_hdr ops ext f b offset cont flag = (n, foldl put f (hdr_items b offset cont flag)) /\ 0 < n.
Proof.
  unfold save_block_hdr, hdr_items. destruct (cont =? 0); cbn [foldl put_item]; (eexists; split; [reflexivity|]); lia.
Qed.
Lemma save_page_spec f s i b k last : blocks !! i = Some b ->
  exists n a, save_page ops ext vec false f s i b (PAGE * k) last =
    Some (n, foldl put f (page_items (last_sent_block s) i k), s.[acct_info := a]) /\ 0 < n.
Proof.
  intros Hb. unfold save_page, page_items. rewrite Hb. fold (page i k). cbv zeta. set (cont := if bool_decide _ then _ else _). clearbody cont.
  destruct (is_zero_page vec (page i k)).
  - destruct (hdr_spec f b (PAGE * k) cont RAM_SAVE_FLAG_COMPRESS) as (n & -> & Hn). rewrite foldl_app. unfold count. cbn [foldl put_item]. eexists _, _. split; [reflexivity|lia].
  - rewrite andb_false_r. cbn [mbind option_bind]. change (-1 =? -1) with true. cbv iota. rewrite andb_false_r.
    destruct (hdr_spec f b (PAGE * k) cont RAM_SAVE_FLAG_PAGE) as (n & -> & Hn). rewrite foldl_app. unfold count. cbn [andb foldl put_item].
    destruct (cache s); (eexists _, _; split; [reflexivity|unfold PAGE; lia]).
Qed.

(** The loop ends by sending a page that was dirty. *)
Definition sends f s (i : nat) (k : Z) (r : option (Z * QEMUFile S * ram_state * nat * Z)) : Prop :=
  dirty s i k = true /\
  exists n a b, r = Some (n, foldl put f (page_items (last_sent_block s) i k), (cleared (base b + k) s).[acct_info := a].[last_sent_block := Some i], i, PAGE * k) /\
    0 < n /\ blocks !! i = Some b.
Lemma send_found n f s i b k c last : blocks !! i = Some b -> k < npages b -> dirty s i k = true ->
  sends f s i k ('(bytes_sent, f, s) ← save_page ops ext vec false f (cleared (base b + k) s) i b (PAGE * k) last;
    if 0 <? bytes_sent then Some (bytes_sent, f, s.[last_sent_block := Some i], i, PAGE * k)
    else loop n f s i (PAGE * k) c bytes_sent last).
Proof.
  intros Hb Hk Hd. split; [done|]. destruct (save_page_spec f (cleared (base b + k) s) i b k last Hb) as (m & a & -> & Hm).
  cbn [mbind option_bind]. destruct (Z.ltb_spec 0 m); [|lia]. by exists m, a, b.
Qed.

(** From a page to the end: a page is sent, or all are clean and the search starts again at the first block. *)
Lemma scan_on f s last m : bits_wf ram_pages (migration_bitmap s) -> forall i k n b, (i + m = length blocks)%nat -> (m <= n)%nat ->
  blocks !! i = Some b -> 0 <= k <= npages b -> (ram_bulk_stage s = true -> k < npages b) ->
  (ram_bulk_stage s = true -> 0 < k -> k + 1 < npages b -> dirty s i (k + 1) = true) ->
  (exists i' k', sends f s i' k' (loop n f s i (PAGE * k) false 0 last) /\ ((i < i')%nat \/ i' = i /\ k <= k')) \/
  (loop n f s i (PAGE * k) false 0 last = loop (n - m) f s.[ram_bulk_stage := false] 0 0 true 0 last /\
   forall i' k', (i < i')%nat \/ i' = i /\ k <= k' -> ~ (ram_bulk_stage s = true /\ 0 < k /\ i' = i /\ k' = k) -> dirty s i' k' = false).
Proof.
  intros W. induction m as [|m IH]; intros i k n b Hm Hn Hb Hk Hbulk Hnext.
  { apply lookup_lt_Some in Hb. lia. }
  destruct n as [|n]; [lia|]. cbn [save_block_loop]. rewrite Hb. cbn [mbind option_bind]. destruct (block_of i b Hb) as [Bok _].
  destruct (find_reset_spec s i b k W Hb Hk Hbulk) as (k' & -> & Hk' & Hf). cbn [andb].
  destruct (bo_length b Bok) as [El Hl]. rewrite El. destruct (Z.leb_spec (PAGE * npages b) (PAGE * k')) as [Hge|Hlt].
  - assert (k' = npages b) as -> by (unfold PAGE in Hge; lia). rewrite Z.ltb_irrefl.
    assert (forall k', k <= k' -> ~ (ram_bulk_stage s = true /\ 0 < k /\ k' = k) -> dirty s i k' = false) as Hclean.
    { intros x Hx Hnb. destruct (Z.lt_ge_cases x (npages b)) as [Hxl|Hxg].
      - destruct (ram_bulk_stage s); cbn [andb] in Hf; [destruct (Z.ltb_spec 0 k)|]; [|by apply Hf; lia|by apply Hf; lia].
        destruct (Z.eq_dec x k) as [->|]; [by destruct Hnb|lia].
      - destruct (dirty s i x) eqn:E; [|done]. apply dirty_page in E as (b' & Hb' & ?). rewrite Hb in Hb'. injection Hb' as <-. lia. }
    destruct (blocks !! Datatypes.S i) as [b2|] eqn:Eb2.
    + destruct (block_of _ _ Eb2) as [Bok2 _]. destruct (bo_length b2 Bok2) as [_ Hl2].
      specialize (IH (Datatypes.S i) 0 n b2 ltac:(lia) ltac:(lia) Eb2 ltac:(lia) ltac:(lia) ltac:(lia)). rewrite Z.mul_0_r in IH.
      destruct IH as [(i' & x & Hs & Hpos)|[E Hall]].
      * left. exists i', x. split; [exact Hs|lia].
      * right. rewrite E. split; [done|]. intros i' x Hpos Hnb. apply not_true_iff_false. intros Hd. destruct (dirty_page _ _ _ Hd) as (b' & _ & Hx).
        destruct (decide (i' = i)) as [->|]; [rewrite Hclean in Hd; [done|lia|tauto]|]. rewrite Hall in Hd; [done|lia|lia].
    + right. apply lookup_ge_None in Eb2. assert (m = 0%nat) as -> by lia. replace (Datatypes.S n - 1)%nat with n by lia. split; [done|].
      intros i' x Hpos Hnb. destruct (decide (i' = i)) as [->|]; [apply Hclean; [lia|tauto]|]. apply not_true_iff_false. intros Hd.
      destruct (dirty_page _ _ _ Hd) as (b' & Hb' & _). apply lookup_lt_Some in Hb'. lia.
  - left. exists i, k'. split; [|right; lia]. destruct (Z.ltb_spec k' (npages b)); [|unfold PAGE in Hlt; lia]. apply send_found; [done|done|].
    destruct (ram_bulk_stage s); cbn [andb] in Hf; [destruct (Z.ltb_spec 0 k)|]; [|by apply Hf|by apply Hf]. subst k'. by apply Hnext; [|lia|].
Qed.
(** From the first block to where the search began, all pages behind which are clean. *)
Lemma scan_back f s last i0 k0 b0 m : bits_wf ram_pages (migration_bitmap s) -> ram_bulk_stage s = false ->
  last_seen_block s = Some i0 -> last_offset s = PAGE * k0 -> blocks !! i0 = Some b0 -> 0 <= k0 <= npages b0 ->
  (forall k, k0 <= k -> dirty s i0 k = false) -> forall i n, (i + m = i0)%nat -> (m < n)%nat ->
  (exists i' k', sends f s i' k' (loop n f s i 0 true 0 last)) \/
  (loop n f s i 0 true 0 last = Some (0, f, s, i0, PAGE * npages b0) /\ forall i' k', (i <= i' <= i0)%nat -> dirty s i' k' = false).
Proof.
  intros W Hnb Hseen Hoff Hb0 Hk0 Hclean0. induction m as [|m IH]; intros i n Hm Hn; (destruct n as [|n]; [lia|]); cbn [save_block_loop].
  - assert (i = i0) as -> by lia. rewrite Hb0. cbn [mbind option_bind]. destruct (block_of i0 b0 Hb0) as [Bok _]. destruct (bo_length b0 Bok) as [El Hl].
    destruct (find_reset_spec s i0 b0 0 W Hb0 ltac:(lia) ltac:(by rewrite Hnb)) as (k' & E & Hk' & Hf). rewrite Z.mul_0_r in E. rewrite E.
    rewrite andb_false_r in Hf. destruct Hf as [Hf1 Hf2].
    destruct (Z.ltb_spec k' (npages b0)) as [Hlt|Hge].
    + left. exists i0, k'. specialize (Hf2 Hlt). assert (k' < k0) as Hk by (apply Z.nle_gt; intros Hle; by rewrite Hclean0 in Hf2).
      change (last_offset (cleared _ s)) with (last_offset s). change (last_seen_block (cleared _ s)) with (last_seen_block s).
      rewrite Hoff, El. destruct (Z.leb_spec (PAGE * k0) (PAGE * k')) as [Hle|_]; [unfold PAGE in Hle; lia|]. rewrite andb_false_r.
      destruct (Z.leb_spec (PAGE * npages b0) (PAGE * k')) as [Hle|_]; [unfold PAGE in Hle; lia|]. by apply send_found.
    + right. assert (k' = npages b0) as -> by lia. rewrite Hseen, Hoff, bool_decide_eq_true_2 by done.
      destruct (Z.leb_spec (PAGE * k0) (PAGE * npages b0)) as [_|Hgt]; [|unfold PAGE in Hgt; lia]. cbn [andb]. split; [done|].
      intros i' x Hi. assert (i' = i0) as -> by lia. apply not_true_iff_false. intros Hd. destruct (dirty_page _ _ _ Hd) as (b' & Hb' & Hx).
      rewrite Hb0 in Hb'. injection Hb' as <-. rewrite Hf1 in Hd; [done|lia].
  - assert (is_Some (blocks !! i)) as [b Hb] by (apply lookup_lt_is_Some; apply lookup_lt_Some in Hb0; lia).
    rewrite Hb. cbn [mbind option_bind]. destruct (block_of i b Hb) as [Bok _]. destruct (bo_length b Bok) as [El Hl].
    destruct (find_reset_spec s i b 0 W Hb ltac:(lia) ltac:(by rewrite Hnb)) as (k' & E & Hk' & Hf). rewrite Z.mul_0_r in E. rewrite E.
    rewrite andb_false_r in Hf. destruct Hf as [Hf1 Hf2].
    assert (forall t, last_seen_block t = last_seen_block s -> bool_decide (last_seen_block t = Some i) = false) as Hnot.
    { intros t ->. rewrite Hseen. apply bool_decide_eq_false_2. intros [= ->]. lia. }
    destruct (Z.ltb_spec k' (npages b)) as [Hlt|Hge].
    + left. exists i, k'. rewrite Hnot by done. cbn [andb]. rewrite El.
      destruct (Z.leb_spec (PAGE * npages b) (PAGE * k')) as [Hle|_]; [unfold PAGE in Hle; lia|]. apply send_found; auto.
    + assert (k' = npages b) as -> by lia. rewrite Hnot by done. cbn [andb]. rewrite El, Z.leb_refl.
      assert (is_Some (blocks !! Datatypes.S i)) as [b2 ->] by (apply lookup_lt_is_Some; apply lookup_lt_Some in Hb0; lia).
      destruct (IH (Datatypes.S i) n ltac:(lia) ltac:(lia)) as [?|[-> Hall]]; [by left|right]. split; [done|].
      intros i' x Hi. destruct (decide (i' = i)) as [->|]; [|apply Hall; lia]. apply not_true_iff_false. intros Hd.
      destruct (dirty_page _ _ _ Hd) as (b' & Hb' & Hx). rewrite Hb in Hb'. injection Hb' as <-. rewrite Hf1 in Hd; [done|lia].
Qed.

(** ** One block *)

(** Whether a page is behind the last one looked at. *)
Definition after s (i : nat) (k : Z) : Prop :=
  match last_seen_block s with None => True | Some i0 => (i0 < i)%nat \/ i = i0 /\ last_offset s < PAGE * k end.
(** In the first round all pages not yet reached are dirty. *)
Record sinv s : Prop := {
  si_bits : bits_wf ram_pages (migration_bitmap s);
  si_pos : match last_seen_block s with
           | None => last_offset s = 0 /\ ram_bulk_stage s = true
           | Some i => exists b k, blocks !! i = Some b /\ 0 <= k <= npages b /\ last_offset s = PAGE * k /\ (ram_bulk_stage s = true -> k < npages b)
           end;
  si_bulk i k : ram_bulk_stage s = true -> is_Some (number i k) -> after s i k -> dirty s i k = true
}.
(** When the first round has reached the last page, that page was not written again. *)
Definition calm s : Prop := ram_bulk_stage s = true -> (forall i k, is_Some (number i k) -> ~ after s i k) ->
  forall i k, last_seen_block s = Some i -> last_offset s = PAGE * k -> dirty s i k = false.
(** What sending does not touch. *)
Definition same_log s s' : Prop := phys_dirty s' = phys_dirty s /\ last_version s' = last_version s.

Lemma is_number i k b : blocks !! i = Some b -> 0 <= k < npages b -> is_Some (number i k).
Proof. intros Hb Hk. exists (base b + k). apply number_spec. by exists b. Qed.
(** The state after a page was sent. *)
Lemma sent_state s i b k n a : bits_wf ram_pages (migration_bitmap s) -> blocks !! i = Some b -> 0 <= k < npages b ->
  let s' := (cleared (base b + k) s).[acct_info := a].[last_sent_block := n].[last_seen_block := Some i].[last_offset := PAGE * k] in
  (forall j m, ram_bulk_stage s = true -> is_Some (number j m) -> (i < j)%nat \/ j = i /\ k < m -> dirty s j m = true) ->
  sinv s' /\ calm s' /\ forall j m, dirty s' j m = dirty s j m && negb (bool_decide (j = i) && (m =? k)).
Proof.
  intros W Hb Hk s' Hafter. destruct (cleared_spec s i b k W Hb Hk) as [W' Hd].
  assert (forall j m, dirty s' j m = dirty s j m && negb (bool_decide (j = i) && (m =? k))) as Hd' by exact Hd. clear Hd.
  split; [|split; [|done]].
  - split; [exact W'|exists b, k; repeat split; (done || lia)|]. intros j m Hbulk Hnum Ha. cbn in Ha.
    assert ((i < j)%nat \/ j = i /\ k < m) as Hpos by (unfold PAGE in Ha; lia). rewrite Hd', Hafter by done.
    destruct (bool_decide_reflect (j = i)) as [->|]; [|done]. destruct (Z.eqb_spec m k); [lia|done].
  - intros _ _ j m [= <-] Em. assert (m = k) as -> by (cbn in Em; unfold PAGE in Em; lia). rewrite Hd', bool_decide_eq_true_2, Z.eqb_refl by done. apply andb_false_r.
Qed.

Abbreviation save_block := (ram_save_block ops ext vec blocks false).
(** The page sent was dirty, and no other page changes. *)
Definition sent_one n f s last : Prop := exists i k m s',
  save_block n f s last = Some (m, foldl put f (page_items (last_sent_block s) i k), s') /\ 0 < m /\ dirty s i k = true /\
  last_sent_block s' = Some i /\ same_log s s' /\ sinv s' /\ calm s' /\
  forall j x, dirty s' j x = dirty s j x && negb (bool_decide (j = i) && (x =? k)).
(** There was no dirty page. *)
Definition sent_none n f s last : Prop := (forall i k, dirty s i k = false) /\ exists s',
  save_block n f s last = Some (0, f, s') /\ last_sent_block s' = last_sent_block s /\ same_log s s' /\ sinv s' /\ calm s' /\
  (forall i k, dirty s' i k = false) /\ last_seen_block s' <> None.

Lemma sends_one n f s last i k s0 : sinv s -> migration_bitmap s0 = migration_bitmap s -> last_sent_block s0 = last_sent_block s -> same_log s s0 ->
  let start := match last_seen_block s with Some i => i | None => O end in
  sends f s0 i k (loop n f s start (last_offset s) false 0 last) ->
  (forall j m, ram_bulk_stage s0 = true -> is_Some (number j m) -> (i < j)%nat \/ j = i /\ k < m -> dirty s j m = true) ->
  sent_one n f s last.
Proof.
  intros [W _ _] Eb El Eg start (Hd & m & a & b & E & Hm & Hb) Hafter.
  assert (forall j x, dirty s0 j x = dirty s j x) as Hs0 by (intros; unfold dirty; by rewrite Eb).
  destruct (dirty_page _ _ _ Hd) as (b' & Hb' & Hk). rewrite Hb in Hb'. injection Hb' as <-. rewrite Hs0 in Hd.
  rewrite <- Eb in W. destruct (sent_state s0 i b k (Some i) a W Hb Hk) as (I & C & D).
  { intros j x. rewrite Hs0. apply Hafter. }
  exists i, k, m. eexists. split; [unfold ram_save_block; fold start; rewrite E, El; reflexivity|]. split; [done|]. split; [done|].
  split; [done|]. split; [exact Eg|]. split; [exact I|]. split; [exact C|]. intros j x. rewrite <- Hs0. apply D.
Qed.
Lemma ram_save_block_spec n f s last : sinv s -> calm s -> (2 * length blocks < n)%nat -> sent_one n f s last \/ sent_none n f s last.
Proof.
  intros I C Hn. pose proof I as [W Hpos Hbulk].
  assert (exists i0 b0 k0, match last_seen_block s with Some i => i | None => O end = i0 /\ blocks !! i0 = Some b0 /\ 0 <= k0 <= npages b0 /\
    last_offset s = PAGE * k0 /\ (ram_bulk_stage s = true -> k0 < npages b0)) as (i0 & b0 & k0 & Ei & Hb0 & Hk0 & Eo & Hb).
  { destruct (last_seen_block s) as [i|]; [destruct Hpos as (b & k & ?); by exists i, b, k|].
    destruct (lookup_lt_is_Some_2 blocks 0 (lo_first L)) as [b Hb]. destruct (block_of _ _ Hb) as [[_ _ _ [_ Hl] _] _].
    exists 0%nat, b, 0. destruct Hpos as [-> _]. repeat split; (done || lia). }
  assert (forall i k, (i0 < i)%nat \/ i = i0 /\ k0 < k -> after s i k) as Haft.
  { intros i k H. unfold after. destruct (last_seen_block s); [|done]. subst i0. rewrite Eo. unfold PAGE. lia. }
  pose proof (lookup_lt_Some _ _ _ Hb0) as Hi0.
  destruct (scan_on f s last (length blocks - i0) W i0 k0 n b0 ltac:(lia) ltac:(lia) Hb0 Hk0 Hb) as [(i & k & Hs & Hge)|[E Hclean]].
  { intros B H0 H1. apply Hbulk; [done|apply (is_number _ _ b0); [done|lia]|apply Haft; lia]. }
  - left. apply (sends_one n f s last i k s I eq_refl eq_refl); [done|rewrite Ei, Eo; exact Hs|].
    intros j m B Hnum Hj. apply Hbulk; [done|done|]. apply Haft. lia.
  - destruct (last_seen_block s) as [i|] eqn:Eseen.
    2: { subst i0. destruct Hpos as [E0 B]. assert (k0 = 0) as -> by (unfold PAGE in Eo; lia). destruct (block_of _ _ Hb0) as [[_ _ _ [_ Hl] _] _].
         pose proof (Hbulk 0%nat 0 B (is_number 0%nat 0 b0 Hb0 ltac:(lia))) as Hd. unfold after in Hd. rewrite Eseen in Hd. rewrite Hclean in Hd by (lia || tauto). by specialize (Hd Logic.I). }
    subst i. assert (forall k, k0 <= k -> dirty s i0 k = false) as Hclean0.
    { intros k Hk. destruct (decide (ram_bulk_stage s = true /\ 0 < k0 /\ k = k0)) as [(B & _ & ->)|Hno]; [|apply Hclean; [lia|tauto]].
      apply (C B); [|done|done]. intros j x Hnum Hj. pose proof (Hbulk j x B Hnum Hj) as Hd. unfold after in Hj. rewrite Eseen, Eo in Hj.
      rewrite Hclean in Hd; [done|unfold PAGE in Hj; lia|unfold PAGE in Hj; lia]. }
    set (s0 := s.[ram_bulk_stage := false]) in *.
    destruct (scan_back f s0 last i0 k0 b0 i0 W eq_refl Eseen Eo Hb0 Hk0 Hclean0 0%nat (n - (length blocks - i0))%nat ltac:(lia) ltac:(lia)) as [(i & k & Hs)|[E2 Hall]].
    + left. apply (sends_one n f s last i k s0 I eq_refl eq_refl); [done|rewrite Eseen, Eo, E; exact Hs|done].
    + right. assert (forall i k, dirty s i k = false) as Hnone.
      { intros i k. destruct (decide (i <= i0)%nat); [by apply Hall; lia|]. apply Hclean; [lia|lia]. }
      split; [done|]. eexists. split; [unfold ram_save_block; rewrite Eseen, Eo, E, E2; reflexivity|]. do 2 (split; [done|]).
      split; [|split; [done|split; [exact Hnone|done]]]. split; [exact W| |done]. exists b0, (npages b0). repeat split; (done || lia).
Qed.

(** ** Several blocks *)

Fixpoint chain_items (prev : option nat) (l : list (nat * Z)) : list item :=
  match l with [] => [] | (i, k) :: l => page_items prev i k ++ chain_items (Some i) l end.
Definition last_block (prev : option nat) (l : list (nat * Z)) : option nat := match last l with Some (i, _) => Some i | None => prev end.
Lemma last_block_cons prev i k l : last_block prev ((i, k) :: l) = last_block (Some i) l.
Proof. unfold last_block. rewrite last_cons. by destruct (last l) as [[]|]. Qed.
(** The pages of [l] were sent. *)
Record progress s (l : list (nat * Z)) s' : Prop := {
  pr_inv : sinv s'; pr_calm : calm s';
  pr_dirty i k : dirty s' i k = dirty s i k && bool_decide ((i, k) ∉ l);
  pr_sent i k : (i, k) ∈ l -> dirty s i k = true;
  pr_last : last_sent_block s' = last_block (last_sent_block s) l;
  pr_log : same_log s s'
}.
Lemma progress_nil s s' : sinv s' -> calm s' -> (forall i k, dirty s' i k = dirty s i k) -> last_sent_block s' = last_sent_block s -> same_log s s' ->
  progress s [] s'.
Proof.
  intros. split; try done.
  - intros i k. rewrite bool_decide_eq_true_2, andb_true_r by (apply not_elem_of_nil). done.
  - intros i k Hin. by apply not_elem_of_nil in Hin.
Qed.
(** One more page in front. *)
Lemma progress_cons s i k s1 l s' : dirty s i k = true -> last_sent_block s1 = Some i -> same_log s s1 ->
  (forall j x, dirty s1 j x = dirty s j x && negb (bool_decide (j = i) && (x =? k))) -> progress s1 l s' -> progress s ((i, k) :: l) s'.
Proof.
  intros Hd Hl [G1 G2] D [P1 P2 P3 P4 P5 [G3 G4]]. split; [done|done| | | |].
  - intros j x. rewrite P3, D, <- andb_assoc. f_equal. apply eq_true_iff_eq. rewrite andb_true_iff, negb_true_iff, andb_false_iff, !bool_decide_eq_true, not_elem_of_cons, bool_decide_eq_false, Z.eqb_neq.
    split; [intros [H1 H2]; split; [|done]; intros [= -> ->]; destruct H1; done|]. intros [H1 H2]. split; [|done].
    destruct (decide (j = i)) as [->|]; [|by left]. right. intros ->. by apply H1.
  - intros j x [[= -> ->]|Hin]%elem_of_cons; [done|]. apply P4 in Hin. rewrite D in Hin. by apply andb_true_iff in Hin as [? _].
  - by rewrite P5, Hl, last_block_cons.
  - split; congruence.
Qed.

(** A bound on the number of pages. *)
Definition all_pages : list (nat * Z) := seq 0 (length blocks) ≫= (fun i => pair i <$> seqZ 0 ram_pages).
Definition todo s : nat := length (filter (fun p => dirty s (fst p) (snd p) = true) all_pages).
Lemma all_pages_dirty s i k : dirty s i k = true -> (i, k) ∈ all_pages.
Proof.
  intros Hd. destruct (dirty_page _ _ _ Hd) as (b & Hb & Hk). destruct (block_of _ _ Hb) as [Bok Hr]. destruct (bo_offset b Bok) as [_ H0].
  apply lookup_lt_Some in Hb. unfold all_pages. apply list_elem_of_bind. exists i. split; [|apply elem_of_seq; lia].
  apply list_elem_of_fmap. exists k. split; [done|]. apply elem_of_seqZ. lia.
Qed.
Lemma filter_strict {A} (P Q : A -> Prop) `{!forall x, Decision (P x), !forall x, Decision (Q x)} (l : list A) x : (forall y, P y -> Q y) ->
  x ∈ l -> Q x -> ~ P x -> (length (filter P l) < length (filter Q l))%nat.
Proof.
  intros HPQ Hx HQ HP. assert (forall l : list A, (length (filter P l) <= length (filter Q l))%nat) as Hle.
  { induction l0 as [|y l0 IH]; [done|]. rewrite !filter_cons. destruct (decide (P y)), (decide (Q y)); cbn [length]; try lia. by destruct n; auto. }
  induction l as [|y l IH]; [by apply not_elem_of_nil in Hx|]. rewrite !filter_cons. apply elem_of_cons in Hx as [->|Hx].
  - destruct (decide (P y)); [done|]. destruct (decide (Q y)); [|done]. cbn [length]. specialize (Hle l). lia.
  - specialize (IH Hx). destruct (decide (P y)), (decide (Q y)); cbn [length]; try lia. by destruct n; auto.
Qed.
Lemma todo_less s s1 i k : dirty s i k = true -> (forall j x, dirty s1 j x = dirty s j x && negb (bool_decide (j = i) && (x =? k))) -> (todo s1 < todo s)%nat.
Proof.
  intros Hd D. apply (filter_strict _ _ _ (i, k)); [|by apply (all_pages_dirty s)|done|].
  - intros [j x]. cbn. rewrite D, andb_true_iff. tauto.
  - cbn. rewrite D, bool_decide_eq_true_2, Z.eqb_refl, andb_false_r by done. done.
Qed.

Lemma counted_progress s s1 l s' : sinv s1 -> calm s1 -> progress s1 l s' -> (forall i k, dirty s1 i k = dirty s i k) -> last_sent_block s1 = last_sent_block s ->
  same_log s s1 -> progress s l s'.
Proof.
  intros I C [P1 P2 P3 P4 P5 [G3 G4]] D El [G1 G2]. split; [done|done| | | |split; congruence].
  - intros i k. by rewrite P3, D.
  - intros i k Hin. rewrite <- D. by apply P4.
  - by rewrite P5, El.
Qed.
(** Counters are no part of the state that matters. *)
Lemma set_acct s a : sinv s -> sinv s.[acct_info := a].
Proof. intros [W P B]. by split. Qed.
Lemma set_bytes s a : sinv s -> sinv s.[bytes_transferred := a].
Proof. intros [W P B]. by split. Qed.

(** A round of the live phase sends dirty pages, some or all. *)
Lemma iterate_loop_spec n k late : (2 * length blocks < n)%nat -> forall f s i total, sinv s -> calm s -> (todo s < k)%nat ->
  exists l m s', iterate_loop ops ext vec blocks false n k late f s i total = Some (m, foldl put f (chain_items (last_sent_block s) l), s') /\ progress s l s'.
Proof.
  intros Hn. induction k as [|k IH]; intros f s i total I C Hk; [lia|]. cbn [iterate_loop].
  destruct (qemu_file_rate_limit f).
  { exists [], total, s. split; [done|]. by apply progress_nil. }
  destruct (ram_save_block_spec n f s false I C Hn) as [(j & x & m & s1 & E & Hm & Hd & El & G & I1 & C1 & D)|(Hnone & s1 & E & El & G & I1 & C1 & D & _)];
    rewrite E; cbn [mbind option_bind].
  - destruct (Z.eqb_spec m 0); [lia|]. set (s2 := count _ s1). pose proof (todo_less s s1 j x Hd D) as Ht.
    assert (sinv s2) as I2 by by apply set_acct. assert (calm s2) as C2 by exact C1. assert (todo s2 = todo s1) as Et by done.
    destruct (_ && late i).
    + exists [(j, x)], (total + m), s2. cbn [chain_items]. rewrite app_nil_r. split; [done|].
      apply (progress_cons s j x s1); [done..|]. by apply progress_nil.
    + destruct (IH (foldl put f (page_items (last_sent_block s) j x)) s2 (i + 1) (total + m) I2 C2 ltac:(lia)) as (l & t & s' & E2 & P).
      exists ((j, x) :: l), t, s'. cbn [chain_items]. rewrite foldl_app. change (last_sent_block s2) with (last_sent_block s1) in E2. rewrite El in E2.
      split; [exact E2|]. apply (progress_cons s j x s1); [done..|]. by apply (counted_progress s1 s2).
  - exists [], total, s1. change (0 =? 0) with true. cbv iota. split; [done|]. apply progress_nil; [done..| |done|done]. intros a b. by rewrite D, Hnone.
Qed.
(** The last round sends all. *)
Lemma complete_loop_spec n k : (2 * length blocks < n)%nat -> forall f s, sinv s -> calm s -> (todo s < k)%nat ->
  exists l s', complete_loop ops ext vec blocks false n k f s = Some (foldl put f (chain_items (last_sent_block s) l), s') /\ progress s l s' /\
    forall i x, dirty s' i x = false.
Proof.
  intros Hn. induction k as [|k IH]; intros f s I C Hk; [lia|]. cbn [complete_loop].
  destruct (ram_save_block_spec n f s true I C Hn) as [(j & x & m & s1 & E & Hm & Hd & El & G & I1 & C1 & D)|(Hnone & s1 & E & El & G & I1 & C1 & D & _)];
    rewrite E; cbn [mbind option_bind].
  - destruct (Z.eqb_spec m 0); [lia|]. set (s2 := s1.[bytes_transferred := _]). pose proof (todo_less s s1 j x Hd D) as Ht.
    assert (sinv s2) as I2 by by apply set_bytes. assert (calm s2) as C2 by exact C1. assert (todo s2 = todo s1) as Et by done.
    destruct (IH (foldl put f (page_items (last_sent_block s) j x)) s2 I2 C2 ltac:(lia)) as (l & s' & E2 & P & Hall).
    exists ((j, x) :: l), s'. cbn [chain_items]. rewrite foldl_app. change (last_sent_block s2) with (last_sent_block s1) in E2. rewrite El in E2.
    split; [exact E2|]. split; [|done]. apply (progress_cons s j x s1); [done..|]. by apply (counted_progress s1 s2).
  - exists [], s1. change (0 =? 0) with true. cbv iota. split; [done|]. split; [|done]. apply progress_nil; [done..| |done|done]. intros a b. by rewrite D, Hnone.
Qed.
End Sending.

(** ** The log of the guest's writes *)

Definition log s (nr : Z) : bool := Z.testbit (aget 0 (phys_dirty s) nr) DIRTY_MEMORY_MIGRATION.
Definition numbers : list Z := blocks ≫= (fun b => Z.add (base b) <$> seqZ 0 (npages b)).
(** The writes to the pages of [l] went from the log to the bitmap. *)
Record synced (l : list Z) s s' : Prop := {
  sy_bits : bits_wf ram_pages (migration_bitmap s');
  sy_log_size : length (phys_dirty s') = length (phys_dirty s);
  sy_bit nr : 0 <= nr -> bit (migration_bitmap s') nr = bit (migration_bitmap s) nr || (bool_decide (nr ∈ l) && log s nr);
  sy_log nr : 0 <= nr -> log s' nr = log s nr && negb (bool_decide (nr ∈ l));
  sy_rest : last_seen_block s' = last_seen_block s /\ last_sent_block s' = last_sent_block s /\ last_offset s' = last_offset s /\
            last_version s' = last_version s /\ ram_bulk_stage s' = ram_bulk_stage s
}.
Lemma mem_nil (x : Z) : bool_decide (x ∈ []) = false.
Proof. apply bool_decide_eq_false_2, not_elem_of_nil. Qed.
Lemma mem_cons (x y : Z) l : bool_decide (x ∈ y :: l) = (x =? y) || bool_decide (x ∈ l).
Proof. apply eq_true_iff_eq. by rewrite orb_true_iff, !bool_decide_eq_true, Z.eqb_eq, elem_of_cons. Qed.
Lemma synced_nil s : bits_wf ram_pages (migration_bitmap s) -> synced [] s s.
Proof. intros W. split; try done; intros nr _; rewrite mem_nil; [by rewrite orb_false_r|by rewrite andb_true_r]. Qed.
Lemma mem_app (x : Z) l l' : bool_decide (x ∈ l ++ l') = bool_decide (x ∈ l) || bool_decide (x ∈ l').
Proof. apply eq_true_iff_eq. by rewrite orb_true_iff, !bool_decide_eq_true, elem_of_app. Qed.
Lemma synced_app s l1 s1 l2 s' : synced l1 s s1 -> synced l2 s1 s' -> synced (l1 ++ l2) s s'.
Proof.
  intros [A1 A2 A3 A4 (A5 & A6 & A7 & A8 & A9)] [B1 B2 B3 B4 (B5 & B6 & B7 & B8 & B9)].
  split; [done|congruence| | |repeat split; congruence]; intros x Hx; [rewrite B3, A3, A4 by done|rewrite B4, A4 by done];
    rewrite mem_app; by destruct (bool_decide (x ∈ l1)), (bool_decide (x ∈ l2)), (log s x), (bit (migration_bitmap s) x).
Qed.
Lemma sync_page_spec s b k : block_ok b -> bits_wf ram_pages (migration_bitmap s) -> ram_pages <= Z.of_nat (length (phys_dirty s)) ->
  0 <= base b + k < ram_pages -> synced [base b + k] s (sync_page b s (PAGE * k)).
Proof.
  intros [Ha _ [Eo Ho] _ _] W Hl Hr. unfold sync_page, memory_region_test_and_clear_dirty.
  assert ((mr_ram_addr b + PAGE * k) .>> TARGET_PAGE_BITS = base b + k) as Enr.
  { rewrite Ha, Eo, <- Z.mul_add_distr_l. apply shift_page. }
  rewrite Enr. set (nr := base b + k) in *. set (flags := aget 0 (phys_dirty s) nr). rewrite flag_testbit by done.
  assert (Z.testbit flags DIRTY_MEMORY_MIGRATION = log s nr) as -> by done. destruct (log s nr) eqn:El.
  - set (d := aset _ _ _). unfold migration_bitmap_set_dirty. rewrite Enr, s32_small by (pose proof (lo_small L); lia).
    assert (forall x, 0 <= x -> Z.testbit (aget 0 d x) DIRTY_MEMORY_MIGRATION = log s x && negb (x =? nr)) as Hd.
    { intros x Hx. unfold d. destruct (Z.eqb_spec x nr) as [->|Hne].
      - rewrite aget_aset_eq, Z.land_spec, not8_spec by (done || lia). by rewrite !andb_false_r.
      - by rewrite aget_aset_ne, andb_true_r by lia. }
    assert (length d = length (phys_dirty s)) as Hld by apply length_aset. clearbody d.
    destruct (test_and_set_spec ram_pages (migration_bitmap s) nr W Hr) as (_ & W' & Hb).
    change (migration_bitmap s.[phys_dirty := d]) with (migration_bitmap s).
    destruct (test_and_set_bit nr (migration_bitmap s)) as [old bits]. cbn [snd] in W', Hb.
    assert (forall x, 0 <= x -> bit bits x = bit (migration_bitmap s) x || (bool_decide (x ∈ [nr]) && log s x)) as Hb'.
    { intros x Hx. rewrite Hb, mem_cons, mem_nil, orb_false_r by done. f_equal. by destruct (Z.eqb_spec x nr) as [->|]. }
    assert (forall x, 0 <= x -> Z.testbit (aget 0 d x) DIRTY_MEMORY_MIGRATION = log s x && negb (bool_decide (x ∈ [nr]))) as Hd'.
    { intros x Hx. by rewrite Hd, mem_cons, mem_nil, orb_false_r. }
    destruct old; by split.
  - assert (forall x, bool_decide (x ∈ [nr]) && log s x = false) as Hz.
    { intros x. rewrite mem_cons, mem_nil, orb_false_r. by destruct (Z.eqb_spec x nr) as [->|]. }
    assert (s.[phys_dirty := phys_dirty s] = s) as -> by by destruct s.
    split; try done; intros x Hx; [by rewrite Hz, orb_false_r|].
    specialize (Hz x). destruct (bool_decide _); cbn [andb negb] in *; [by rewrite Hz|by rewrite andb_true_r].
Qed.
Lemma foldl_synced {A} (step : ram_state -> A -> ram_state) (num : A -> list Z) l :
  (forall s x, x ∈ l -> bits_wf ram_pages (migration_bitmap s) -> ram_pages <= Z.of_nat (length (phys_dirty s)) -> synced (num x) s (step s x)) ->
  forall s, bits_wf ram_pages (migration_bitmap s) -> ram_pages <= Z.of_nat (length (phys_dirty s)) -> synced (l ≫= num) s (foldl step s l).
Proof.
  induction l as [|x l IH]; intros H s W Hl; [by apply synced_nil|]. cbn [foldl]. rewrite bind_cons.
  pose proof (H s x ltac:(by left) W Hl) as H1. apply (synced_app s (num x) (step s x)); [done|]. apply IH.
  - intros t y Hy. apply H. by right.
  - apply (sy_bits _ _ _ H1).
  - by rewrite (sy_log_size _ _ _ H1).
Qed.
Lemma sync_spec s : bits_wf ram_pages (migration_bitmap s) -> ram_pages <= Z.of_nat (length (phys_dirty s)) ->
  synced numbers s (migration_bitmap_sync blocks s).
Proof.
  intros W Hl. unfold migration_bitmap_sync, numbers. apply (foldl_synced (fun s b => foldl (sync_page b) s (pages b))); [|done|done].
  clear s W Hl. intros s b Hb W Hl. apply list_elem_of_lookup in Hb as [i Hb]. destruct (block_of i b Hb) as [Bok Hr].
  destruct (bo_length b Bok) as [El Hp], (bo_offset b Bok) as [_ Ho].
  assert (pages b = Z.mul PAGE <$> seqZ 0 (npages b)) as ->.
  { unfold pages. rewrite El. do 2 f_equal. symmetry. apply (Z.div_unique _ _ _ (PAGE - 1)); unfold PAGE; lia. }
  rewrite foldl_fmap. assert (Z.add (base b) <$> seqZ 0 (npages b) = seqZ 0 (npages b) ≫= (fun k => [base b + k])) as ->.
  { generalize (seqZ 0 (npages b)). induction l as [|k l IH]; [done|]. cbn. by rewrite <- IH. }
  apply (foldl_synced (fun s k => sync_page b s (PAGE * k))); [|done|done]. intros t k Hk W' Hl'. apply elem_of_seqZ in Hk. apply sync_page_spec; (done || lia).
Qed.

Definition logged s (i : nat) (k : Z) : bool := match number i k with Some nr => log s nr | None => false end.
Lemma sync_dirty s : sinv s -> ram_pages <= Z.of_nat (length (phys_dirty s)) -> let s' := migration_bitmap_sync blocks s in
  sinv s' /\ (forall i k, dirty s' i k = dirty s i k || logged s i k) /\ (forall i k, logged s' i k = false) /\
  last_sent_block s' = last_sent_block s /\ last_version s' = last_version s /\ length (phys_dirty s') = length (phys_dirty s).
Proof.
  intros [W P B] Hl s'. destruct (sync_spec s W Hl) as [A1 A2 A3 A4 (A5 & A6 & A7 & A8 & A9)]. fold s' in A1, A2, A3, A4, A5, A6, A7, A8, A9.
  assert (forall i k nr, number i k = Some nr -> nr ∈ numbers) as Hin.
  { intros i k nr (b & Hb & Hk & ->)%number_spec. apply list_elem_of_lookup_2 in Hb. apply list_elem_of_bind. exists b. split; [|done].
    apply list_elem_of_fmap. exists k. split; [done|]. apply elem_of_seqZ. lia. }
  assert (forall i k, dirty s' i k = dirty s i k || logged s i k) as Hd.
  { intros i k. unfold dirty, logged. destruct (number i k) as [nr|] eqn:E; [|done]. pose proof (number_range _ _ _ L E).
    rewrite A3, bool_decide_eq_true_2 by (lia || by apply (Hin i k)). done. }
  split; [|split; [done|split; [|done]]].
  - split; [done|by rewrite A5, A7, A9|]. intros i k Hb Hn Ha. rewrite Hd. apply orb_true_iff. left. rewrite A9 in Hb. apply B; [done|done|].
    unfold after in *. by rewrite A5, A7 in Ha.
  - intros i k. unfold logged. destruct (number i k) as [nr|] eqn:E; [|done]. pose proof (number_range _ _ _ L E).
    rewrite A4, bool_decide_eq_true_2 by (lia || by apply (Hin i k)). apply andb_false_r.
Qed.

(** ** The first and the last call *)

Section Calls.
Context {S : Type} (ops : QEMUFileOps S) (ext : Z -> list Z) (vec version xbzrle_cache_size : Z).
Implicit Types (f : QEMUFile S).
Abbreviation puts := (foldl (put_item ops ext)).

Definition block_items b : list item := [IByte (Z.of_nat (length (rb_idstr b))); IBuffer (rb_idstr b); IBe64 (rb_length b)].
Definition setup_items : list item :=
  IBe64 (ram_bytes_total blocks .| RAM_SAVE_FLAG_MEM_SIZE) :: (blocks ≫= block_items) ++ [IBe64 RAM_SAVE_FLAG_EOS].
Lemma put_blocks_spec l f : foldl (put_block ops ext) f l = puts f (l ≫= block_items).
Proof. revert f. induction l as [|b l IH]; intros f; [done|]. cbn [foldl]. rewrite bind_cons, foldl_app, IH. unfold put_block, block_items. cbn [foldl put_item]. reflexivity. Qed.
Lemma ram_pages_nonneg : 0 <= ram_pages.
Proof.
  unfold ram_pages. apply Z.shiftr_nonneg. unfold last_ram_offset. generalize (Z.le_refl 0). generalize 0 at 2 4.
  induction blocks as [|b l IH]; intros z Hz; [done|]. cbn [foldl]. apply IH. lia.
Qed.
(** The first call marks every page. *)
Lemma setup_spec f s : ram_pages <= Z.of_nat (length (phys_dirty s)) ->
  exists s', ram_save_setup ops ext blocks version false xbzrle_cache_size f s = (0, puts f setup_items, s') /\ sinv s' /\ calm s' /\
    (forall i k, is_Some (number i k) -> dirty s' i k = true) /\ last_sent_block s' = None /\ last_version s' = version /\
    length (phys_dirty s') = length (phys_dirty s).
Proof.
  intros Hl. unfold ram_save_setup. fold ram_pages. cbv zeta. cbn [andb]. pose proof ram_pages_nonneg as HN.
  rewrite (s32_small ram_pages) by (pose proof (lo_small L); lia). set (s1 := reset_ram_globals version _). destruct (bitmap_new_spec ram_pages HN) as [W0 H0].
  destruct (bitmap_set_spec ram_pages (bitmap_new ram_pages) 0 ram_pages W0 ltac:(lia) HN ltac:(lia)) as [W1 H1].
  assert (forall i k, is_Some (number i k) -> dirty s1 i k = true) as Hd1.
  { intros i k [nr E]. unfold dirty. rewrite E. pose proof (number_range _ _ _ L E) as Hr.
    change (migration_bitmap s1) with (bitmap_set (bitmap_new ram_pages) 0 ram_pages). rewrite H1, H0 by lia.
    destruct (Z.leb_spec 0 nr), (Z.ltb_spec nr (0 + ram_pages)); (done || lia). }
  assert (sinv s1) as I1 by (split; [exact W1|done|intros i k _ Hn _; by apply Hd1]).
  destruct (sync_dirty s1 I1 Hl) as (I2 & Hd2 & _ & E3 & E4 & E5). destruct (sync_spec s1 W1 Hl) as [_ _ _ _ (E6 & _)].
  rewrite put_blocks_spec. unfold setup_items. cbn [foldl]. rewrite foldl_app. cbn [foldl put_item]. eexists. split; [reflexivity|]. split; [done|].
  split; [intros _ _ i k Hs; by rewrite E6 in Hs|]. split; [|done]. intros i k Hn. rewrite Hd2, Hd1 by done. done.
Qed.

Definition chunk_items (prev : option nat) (l : list (nat * Z)) : list item := chain_items ext vec prev l ++ [IBe64 RAM_SAVE_FLAG_EOS].
Lemma iterate_spec n k late f s : (2 * length blocks < n)%nat -> sinv s -> calm s -> (todo s < k)%nat -> last_version s = version ->
  exists l m s', ram_save_iterate ops ext vec blocks version false n k late f s = Some (m, puts f (chunk_items (last_sent_block s) l), s') /\ progress s l s'.
Proof.
  intros Hn I C Hk Hv. unfold ram_save_iterate. rewrite Hv, Z.eqb_refl.
  destruct (iterate_loop_spec ops ext vec n k late Hn f s 0 0 I C Hk) as (l & m & s' & -> & P). cbn [mbind option_bind].
  exists l. eexists _, _. split; [unfold chunk_items; rewrite foldl_app; cbn [foldl put_item]; reflexivity|]. destruct P as [P1 P2 P3 P4 P5 P6]. split; try done. by apply set_bytes.
Qed.
(** The last call leaves no page behind. *)
Lemma ram_complete_spec n k f s : (2 * length blocks < n)%nat -> sinv s -> ram_pages <= Z.of_nat (length (phys_dirty s)) ->
  let s1 := migration_bitmap_sync blocks s in calm s1 -> (todo s1 < k)%nat ->
  exists l s', ram_save_complete ops ext vec blocks false n k f s = Some (0, puts f (chunk_items (last_sent_block s) l), s') /\
    forall i x, dirty s i x || logged s i x = true <-> (i, x) ∈ l.
Proof.
  intros Hn I Hl s1 C Hk. destruct (sync_dirty s I Hl) as (I1 & Hd & _ & El & _). fold s1 in I1, Hd, El.
  destruct (complete_loop_spec ops ext vec n k Hn f s1 I1 C Hk) as (l & s' & E & P & Hall). unfold ram_save_complete. fold s1. rewrite E. cbn [mbind option_bind].
  exists l. eexists. split; [unfold chunk_items; rewrite El, foldl_app; cbn [foldl put_item]; reflexivity|]. intros i x. rewrite <- Hd. split; [intros Hx|apply (pr_sent _ _ _ P)].
  pose proof (pr_dirty _ _ _ P i x) as Hp. rewrite Hall, Hx in Hp. cbn [andb] in Hp. symmetry in Hp. apply bool_decide_eq_false in Hp.
  by apply dec_stable in Hp.
Qed.
End Calls.
End Blocks.
End RamProps.
