(* ===== verification/RamLoad.v ===== *)
(** * Loading memory

    The receiver finds the block of each page of a chunk by name and writes
    the page there, and no other; the list of blocks is accepted when each is
    there with its length. *)

From S2P Require Import Prelude QemuFile QemuFileProps VmState VmStateProps Bitmap PageCache Xbzrle Ram RamProps.

Module RamLoad.
Import QemuFile QemuFileProps Ram RamProps.

(** ** Headers *)

Lemma header_flags k fl : 0 <= k -> 0 <= fl < PAGE -> (PAGE * k .| fl) .& (PAGE - 1) = fl /\ PAGE * k .| fl = PAGE * k + fl.
Proof.
  intros Hk Hf. unfold PAGE in *. assert (1024 * k .| fl = 1024 * k + fl) as E.
  { replace (1024 * k) with (k .<< 10) at 1 by (rewrite Z.shiftl_mul_pow2 by lia; change (2 ^ 10) with 1024; lia).
    rewrite lor_shiftl_add by lia. change (2 ^ 10) with 1024. lia. }
  split; [|done]. rewrite E. change (1024 - 1) with (Z.ones 10). rewrite Z.land_ones by lia. change (2 ^ 10) with 1024.
  rewrite Z.add_comm, Z.mul_comm, Z_mod_plus_full. apply Z.mod_small. lia.
Qed.

(** A page as it is sent: a zero page has no contents of its own. *)
Abbreviation sent_page := (nat * Z * option (list Z))%type.

Section Receiver.
Context {R : Type} (rops : QEMUFileOps R) (remaining : R -> list Z) `{!Source rops remaining}.
Context (vec : Z) (Hvec : 0 < vec) (Hpage : PAGE mod (8 * vec) = 0) (stack : list Z).
(** The blocks of the sender and of the receiver. *)
Context (blocks dblocks : list RAMBlock) (L : layout blocks).
Implicit Types (f g : QEMUFile R) (d : load_state).
Abbreviation rest := (rest remaining).

(** Each block of the sender is there, by name and of the same length. *)
Definition dst (i : nat) : option nat := b ← blocks !! i; find_block dblocks (rb_idstr b).
Definition total (l : list RAMBlock) : Z := foldr (fun b t => rb_length b + t) 0 l.
Record same_blocks : Prop := {
  sb_total : total blocks < 2 ^ 64;
  sb_dst i b : blocks !! i = Some b -> exists j c, dst i = Some j /\ dblocks !! j = Some c /\ rb_length c = rb_length b;
  sb_names : NoDup (rb_idstr <$> blocks)
}.
Context (B : same_blocks).
Definition sized d : Prop := forall i b j, blocks !! i = Some b -> dst i = Some j ->
  exists c, contents d !! j = Some c /\ Z.of_nat (length c) = rb_length b.
Definition dpage d (i : nat) (k : Z) : option (list Z) := j ← dst i; c ← contents d !! j; Some (slice c (PAGE * k) PAGE).

Lemma dst_inj i i' j : dst i = Some j -> dst i' = Some j -> i = i'.
Proof.
  unfold dst, find_block. intros H H'. apply bind_Some in H as (b & Hb & H), H' as (b' & Hb' & H').
  apply fmap_Some in H as ([x c] & (Hc & E & _)%list_find_Some & ->), H' as ([x' c'] & (Hc' & E' & _)%list_find_Some & Ex). cbn in *. subst x'.
  rewrite Hc in Hc'. injection Hc' as <-. pose proof (sb_names B) as Hnd.
  apply (NoDup_lookup (rb_idstr <$> blocks) i i' (rb_idstr b) Hnd); rewrite list_lookup_fmap.
  - by rewrite Hb.
  - rewrite Hb'. cbn. congruence.
Qed.
Lemma slice_memcpy_page (c : list Z) k m p : Z.of_nat (length p) = PAGE -> 0 <= k -> 0 <= m -> PAGE * k + PAGE <= Z.of_nat (length c) ->
  PAGE * m + PAGE <= Z.of_nat (length c) -> slice (memcpy c (PAGE * k) p) (PAGE * m) PAGE = if m =? k then p else slice c (PAGE * m) PAGE.
Proof.
  intros Hp Hk Hm Hc Hcm. destruct (Z.eqb_spec m k) as [->|Hne].
  - rewrite <- Hp at 3. apply slice_memcpy_eq; unfold PAGE in *; lia.
  - assert (length (memcpy c (PAGE * k) p) = length c) as Hlen by (apply length_memcpy; unfold PAGE in *; lia).
    apply (aget_ext 0); [rewrite !length_slice; unfold PAGE in *; lia|]. rewrite length_slice by (unfold PAGE in *; lia). intros i Hi.
    assert (0 <= i < PAGE) as Hi' by (unfold PAGE in *; lia). rewrite !aget_slice, aget_memcpy by (unfold PAGE in *; lia).
    destruct (Z.leb_spec (PAGE * k) (PAGE * m + i)), (Z.ltb_spec (PAGE * m + i) (PAGE * k + Z.of_nat (length p))); try done. unfold PAGE in *. lia.
Qed.
(** A write to a page changes that page. *)
Lemma put_page_spec d i b j k p : sized d -> blocks !! i = Some b -> dst i = Some j -> 0 <= k < npages b -> Z.of_nat (length p) = PAGE ->
  let d' := put_page d j (PAGE * k) p in
  sized d' /\ block d' = block d /\ dpage d' i k = Some p /\
  forall i' k' b', blocks !! i' = Some b' -> 0 <= k' < npages b' -> (i', k') <> (i, k) -> dpage d' i' k' = dpage d i' k'.
Proof.
  intros Hs Hb Hj Hk Hp. destruct (Hs i b j Hb Hj) as (c & Hc & Hlen). destruct (block_of blocks L i b Hb) as [[_ _ _ [El Hl] _] _].
  unfold put_page. rewrite Hc. cbn zeta. assert (PAGE * k + PAGE <= Z.of_nat (length c)) as Hin by (unfold PAGE in *; lia).
  pose proof (lookup_lt_Some _ _ _ Hc) as Hjl.
  assert (forall i' j', dst i' = Some j' -> contents d.[contents := <[j := memcpy c (PAGE * k) p]> (contents d)] !! j' =
    if decide (i' = i) then Some (memcpy c (PAGE * k) p) else contents d !! j') as Hlook.
  { intros i' j' Hj'. cbn. destruct (decide (i' = i)) as [->|Hne].
    - rewrite Hj in Hj'. injection Hj' as <-. by apply list_lookup_insert_eq.
    - apply list_lookup_insert_ne. intros ->. destruct Hne. by apply (dst_inj i' i j'). }
  split; [|split; [done|split]].
  - intros i' b' j' Hb' Hj'. rewrite (Hlook i' j' Hj'). destruct (decide (i' = i)) as [->|]; [|exact (Hs i' b' j' Hb' Hj')].
    rewrite Hb in Hb'. injection Hb' as <-. eexists. split; [done|]. rewrite length_memcpy; [done|unfold PAGE in *; lia..].
  - unfold dpage. rewrite Hj. cbn [mbind option_bind]. rewrite (Hlook i j Hj), decide_True by done. cbn [mbind option_bind].
    rewrite slice_memcpy_page, Z.eqb_refl by (done || lia). done.
  - intros i' k' b' Hb' Hk' Hne. unfold dpage. destruct (dst i') as [j'|] eqn:Hj'; [|done]. cbn [mbind option_bind]. rewrite (Hlook i' j' Hj').
    destruct (decide (i' = i)) as [->|]; [|done]. rewrite Hj in Hj'. injection Hj' as <-. rewrite Hc. cbn [mbind option_bind].
    rewrite Hb in Hb'. injection Hb' as <-. rewrite slice_memcpy_page by (done || unfold PAGE in *; lia). destruct (Z.eqb_spec k' k); [congruence|done].
Qed.

(** ** A page *)

Lemma total_nonneg l : Forall block_ok l -> 0 <= total l.
Proof. induction 1 as [|b l [_ _ _ [E H] _] _ IH]; [done|]. change (total (b :: l)) with (rb_length b + total l). unfold PAGE in *. lia. Qed.
Lemma total_ge l i b : Forall block_ok l -> l !! i = Some b -> rb_length b <= total l.
Proof.
  intros Hl. revert i. induction Hl as [|c l [_ _ _ [E H] _] Hl IH]; intros i Hi; [done|]. pose proof (total_nonneg l Hl). change (total (c :: l)) with (rb_length c + total l).
  destruct i as [|i]; [injection Hi as ->; lia|]. specialize (IH i Hi). unfold PAGE in *. lia.
Qed.
(** [g] is [f] after a read that left [tail]. *)
Definition reads f g (tail : list Z) : Prop := rinv g /\ rest g = tail /\ last_error g = last_error f.
Lemma reads_trans f g h t t' : reads f g t -> reads g h t' -> reads f h t'.
Proof. intros (_ & _ & E) (? & ? & E'). split; [done|]. split; [done|]. congruence. Qed.

Lemma get_id_spec f id tail : rinv f -> rest f = be_bytes 1 (Z.of_nat (length id)) ++ id ++ tail -> (length id <= 255)%nat -> Forall (fun c => c <> 0) id ->
  exists g, get_id rops stack f = (id, g) /\ reads f g tail.
Proof.
  intros I E Hl Hz. unfold get_id. change (be_bytes 1 ?v) with [u8 (v .>> 0)] in E. rewrite Z.shiftr_0_r in E. cbn [app] in E.
  destruct (get_byte_spec rops remaining f _ _ I E) as (f1 & -> & I1 & E1 & L1). unfold u8. rewrite Z.mod_small by lia.
  destruct (get_buffer_spec rops remaining f1 id tail I1 E1) as (f2 & -> & I2 & E2 & L2); [unfold IO_BUF_SIZE; lia|].
  exists f2. split; [|split; [done|split; [done|congruence]]]. rewrite Nat2Z.id, take_app_length. by rewrite VmStateProps.cstr_id.
Qed.
Definition cont_flag (prev : option nat) (i : nat) : Z := if bool_decide (prev = Some i) then RAM_SAVE_FLAG_CONTINUE else 0.
Definition name_bytes b (prev : option nat) (i : nat) : list Z :=
  if cont_flag prev i =? 0 then be_bytes 1 (Z.of_nat (length (rb_idstr b))) ++ rb_idstr b else [].
(** The header names the block, or goes on with the last one. *)
Lemma host_spec f d i b j prev flag tail : rinv f -> blocks !! i = Some b -> dst i = Some j -> block d = prev ≫= dst -> flag .& RAM_SAVE_FLAG_CONTINUE = 0 ->
  rest f = name_bytes b prev i ++ tail ->
  exists g, host_from_stream_offset rops dblocks stack f d (cont_flag prev i .| flag) = (Some j, g, d.[block := Some j]) /\ reads f g tail.
Proof.
  intros I Hb Hj Hd Hfl E. unfold host_from_stream_offset, name_bytes, cont_flag in *. destruct (block_of blocks L i b Hb) as [[_ _ _ _ [Hn1 Hn2]] _].
  rewrite Z.land_lor_distr_l, Hfl, Z.lor_0_r. case_bool_decide as Hp.
  - change (truth (RAM_SAVE_FLAG_CONTINUE .& RAM_SAVE_FLAG_CONTINUE)) with true. cbv iota. exists f. subst prev. cbn in Hd. rewrite Hj in Hd.
    split; [|split; [done|split; [exact E|done]]]. rewrite Hd. destruct d; cbn in *. by subst.
  - change (truth (0 .& RAM_SAVE_FLAG_CONTINUE)) with false. cbv iota. change (0 =? 0) with true in E. cbv iota in E. rewrite <- app_assoc in E.
    destruct (get_id_spec f _ _ I E Hn1 Hn2) as (g & -> & G). exists g. split; [|done]. unfold dst in Hj. rewrite Hb in Hj. cbn in Hj. by rewrite Hj.
Qed.

Definition content (c : option (list Z)) : list Z := match c with Some p => p | None => replicate (Z.to_nat PAGE) 0 end.
Definition kind (c : option (list Z)) : Z := match c with Some _ => RAM_SAVE_FLAG_PAGE | None => RAM_SAVE_FLAG_COMPRESS end.
Definition body (c : option (list Z)) : list Z := match c with Some p => p | None => [0] end.
Definition page_bytes (prev : option nat) (r : sent_page) : list Z :=
  let '(i, k, c) := r in
  match blocks !! i with
  | Some b => be_bytes 8 (PAGE * k .| (cont_flag prev i .| kind c)) ++ name_bytes b prev i ++ body c
  | None => []
  end.
Definition is_page (p : nat * Z) : Prop := exists b, blocks !! fst p = Some b /\ 0 <= snd p < npages b.
Definition sent_ok (r : sent_page) : Prop := is_page (fst r) /\ Z.of_nat (length (content (snd r))) = PAGE.

(** The page, and no other, is as it was sent. *)
Definition stored (i : nat) (k : Z) (p : list Z) d d' : Prop :=
  sized d' /\ block d' = dst i /\ dpage d' i k = Some p /\
  forall i' k', is_page (i', k') -> (i', k') <> (i, k) -> dpage d' i' k' = dpage d i' k'.
Definition store d (r : sent_page) : load_state :=
  let '(i, k, c) := r in match dst i with Some j => put_page d.[block := Some j] j (PAGE * k) (content c) | None => d end.

Lemma zeros (p q : list Z) : length p = length q -> Forall (fun x => x = 0) p -> Forall (fun x => x = 0) q -> p = q.
Proof. revert q. induction p as [|x p IH]; intros [|y q] E Hp Hq; try done. cbn in E. inv Hp. inv Hq. f_equal. apply IH; [lia|done..]. Qed.
Lemma compressed_spec host : Z.of_nat (length host) = PAGE -> ram_handle_compressed vec host 0 PAGE = replicate (Z.to_nat PAGE) 0.
Proof.
  intros Hh. unfold ram_handle_compressed. change (truth 0) with false. cbn [orb]. destruct (is_zero_page vec host) eqn:E; cbn [negb]; [|done].
  apply is_zero_page_spec in E; [|done..]. apply zeros; [rewrite length_replicate; unfold PAGE in *; lia|done|]. by apply Forall_replicate.
Qed.
Lemma load_page_spec f d i b k c prev tail : rinv f -> sized d -> blocks !! i = Some b -> 0 <= k < npages b -> Z.of_nat (length (content c)) = PAGE -> block d = prev ≫= dst ->
  rest f = name_bytes b prev i ++ body c ++ tail ->
  exists g, load_page rops vec dblocks stack f d (PAGE * k) (cont_flag prev i .| kind c) = Some (0, g, store d (i, k, c)) /\ reads f g tail.
Proof.
  intros I Hs Hb Hk Hp Hd E. destruct (sb_dst B i b Hb) as (j & x & Hj & Hc & Hlen).
  assert (kind c .& RAM_SAVE_FLAG_CONTINUE = 0) as Hkc by by destruct c.
  destruct (host_spec f d i b j prev (kind c) _ I Hb Hj Hd Hkc E) as (g & Eh & (I1 & E1 & L1)).
  unfold load_page. rewrite Eh. set (d1 := d.[block := Some j]).
  assert (sized d1) as Hs1 by exact Hs. destruct (Hs1 i b j Hb Hj) as (m & Hm & Hml).
  destruct (block_of blocks L i b Hb) as [[_ _ _ [El _] _] _].
  assert (get_page d1 j (PAGE * k) = Some (slice m (PAGE * k) PAGE)) as Eg.
  { unfold get_page. rewrite Hm. cbn [mbind option_bind]. destruct (Z.leb_spec (PAGE * k + PAGE) (Z.of_nat (length m))); [done|unfold PAGE in *; lia]. }
  assert (store d (i, k, c) = put_page d1 j (PAGE * k) (content c)) as -> by (unfold store; by rewrite Hj).
  assert (Z.of_nat (length (slice m (PAGE * k) PAGE)) = PAGE) as Hh by (rewrite length_slice; unfold PAGE in *; lia).
  rewrite Eg. destruct c as [p|]; cbn [kind body content] in *.
  - destruct (get_buffer_spec rops remaining g p tail I1 E1) as (g2 & Eb & I2 & E2 & L2); [rewrite Hp; unfold PAGE, IO_BUF_SIZE; lia|].
    rewrite Hp in Eb. cbn [mbind option_bind]. rewrite Eb.
    exists g2. split; [unfold cont_flag; destruct (bool_decide _); reflexivity|]. split; [done|split; [done|congruence]].
  - destruct (get_byte_spec rops remaining g 0 tail I1 E1) as (g2 & Eb & I2 & E2 & L2). cbn [mbind option_bind]. rewrite Eb, (compressed_spec _ Hh).
    exists g2. split; [unfold cont_flag; destruct (bool_decide _); reflexivity|]. split; [done|split; [done|congruence]].
Qed.
Lemma store_stored d i b k c : sized d -> blocks !! i = Some b -> 0 <= k < npages b -> Z.of_nat (length (content c)) = PAGE -> stored i k (content c) d (store d (i, k, c)).
Proof.
  intros Hs Hb Hk Hp. destruct (sb_dst B i b Hb) as (j & x & Hj & _). unfold store. rewrite Hj.
  set (d1 := d.[block := Some j]). assert (sized d1) as Hs1 by exact Hs.
  destruct (put_page_spec d1 i b j k (content c) Hs1 Hb Hj Hk Hp) as (P1 & P2 & P3 & P4).
  split; [exact P1|]. split; [by rewrite P2, Hj|]. split; [exact P3|]. intros i' k' (b' & Hb' & Hk') Hne. by apply (P4 i' k' b').
Qed.

(** ** A chunk *)

Abbreviation load := (ram_load_loop rops vec dblocks stack).
(** A header read, and the round of the loop it starts. *)
Lemma header_round m f d k fl tail : rinv f -> 0 <= k -> 0 <= fl < PAGE -> PAGE * k + fl < 2 ^ 64 -> fl .& RAM_SAVE_FLAG_MEM_SIZE = 0 ->
  rest f = be_bytes 8 (PAGE * k .| fl) ++ tail ->
  exists g, reads f g tail /\ load (Datatypes.S m) f d =
    '(ret, g, d) ← load_page rops vec dblocks stack g d (PAGE * k) fl;
    if truth ret then Some (ret, g, d) else if truth (last_error g) then Some (last_error g, g, d) else if fl .&? RAM_SAVE_FLAG_EOS then Some (0, g, d) else load m g d.
Proof.
  intros I Hk Hf Hs Hm E. destruct (header_flags k fl Hk Hf) as [Ef Ea].
  destruct (get_be64_spec rops remaining f _ tail I E) as (g & Eg & I1 & E1 & L1). exists g. split; [by split|].
  cbn [ram_load_loop]. rewrite Eg. unfold u64. rewrite (Z.mod_small (PAGE * k .| fl)) by (rewrite Ea; unfold PAGE in *; lia). rewrite Ef, Ea, Hm.
  replace (PAGE * k + fl - fl) with (PAGE * k) by lia. reflexivity.
Qed.
Definition eos : list Z := be_bytes 8 RAM_SAVE_FLAG_EOS.
Lemma eos_load m f d tail : rinv f -> last_error f = 0 -> (0 < m)%nat -> rest f = eos ++ tail -> exists g, load m f d = Some (0, g, d) /\ reads f g tail.
Proof.
  intros I He Hm E. destruct m as [|m]; [lia|].
  destruct (header_round m f d 0 RAM_SAVE_FLAG_EOS tail I) as (g & G & ->); try done.
  exists g. split; [|done]. destruct G as (_ & _ & G). change (load_page _ _ _ _ g d (PAGE * 0) RAM_SAVE_FLAG_EOS) with (Some (0, g, d)). cbn [mbind option_bind]. rewrite G, He. reflexivity.
Qed.
Lemma page_round m f d r prev tail : rinv f -> last_error f = 0 -> sized d -> sent_ok r -> block d = prev ≫= dst -> rest f = page_bytes prev r ++ tail ->
  exists g, load (Datatypes.S m) f d = load m g (store d r) /\ reads f g tail.
Proof.
  destruct r as [[i k] c]. intros I He Hs [(b & Hb & Hk) Hp] Hd E. cbn [fst snd] in *. unfold page_bytes in E. rewrite Hb, <- !app_assoc in E.
  pose proof (total_ge blocks i b (lo_blocks _ L) Hb) as Ht. pose proof (sb_total B) as Ht'. destruct (block_of blocks L i b Hb) as [[_ _ _ [El _] _] _].
  set (fl := cont_flag prev i .| kind c) in *.
  assert (0 <= fl < PAGE /\ fl .& RAM_SAVE_FLAG_MEM_SIZE = 0 /\ truth (fl .& RAM_SAVE_FLAG_EOS) = false) as (F1 & F2 & F3).
  { subst fl. unfold cont_flag, kind. by destruct (bool_decide _), c. }
  destruct (header_round m f d k fl _ I (proj1 Hk) F1 ltac:(unfold PAGE in *; lia) F2 E) as (g & (I1 & E1 & L1) & ->).
  destruct (load_page_spec g d i b k c prev tail I1 Hs Hb Hk Hp Hd E1) as (h & Ep & G2). fold fl in Ep. rewrite Ep. cbn [mbind option_bind].
  destruct G2 as (I2 & E2 & L2). rewrite F3, L2, L1, He. exists h. split; [reflexivity|]. split; [done|]. split; [done|congruence].
Qed.

Fixpoint pages_bytes (prev : option nat) (l : list sent_page) : list Z :=
  match l with [] => [] | r :: l => page_bytes prev r ++ pages_bytes (Some (fst (fst r))) l end.
Definition chunk_bytes (prev : option nat) (l : list sent_page) : list Z := pages_bytes prev l ++ eos.
(** What was sent last for a page. *)
Fixpoint latest {A} (l : list (nat * Z * A)) (p : nat * Z) : option A :=
  match l with [] => None | (q, c) :: l => match latest l p with Some x => Some x | None => if bool_decide (p = q) then Some c else None end end.
Definition updated (l : list sent_page) d d' : Prop := forall i k, is_page (i, k) ->
  dpage d' i k = match latest l (i, k) with Some c => Some (content c) | None => dpage d i k end.
Lemma stores_updated l : forall d prev, sized d -> Forall sent_ok l -> block d = prev ≫= dst ->
  let d' := foldl store d l in sized d' /\ block d' = last_block prev (fst <$> l) ≫= dst /\ updated l d d'.
Proof.
  induction l as [|[[i k] c] l IH]; intros d prev Hs Hl Hd; [done|].
  apply Forall_cons in Hl as [[(b & Hb & Hk) Hp] Hl]. cbn [fst snd] in *. destruct (store_stored d i b k c Hs Hb Hk Hp) as (S1 & S2 & S3 & S4).
  destruct (IH (store d (i, k, c)) (Some i) S1 Hl S2) as (H1 & H2 & H3). cbn [foldl fmap list_fmap fst]. rewrite last_block_cons. split; [done|]. split; [done|].
  intros i' k' P. rewrite (H3 i' k' P). cbn [latest]. destruct (latest l (i', k')); [done|]. case_bool_decide as Hq; [by injection Hq as -> ->|by apply S4].
Qed.
Lemma chunk_load l : forall m f d prev tail, rinv f -> last_error f = 0 -> sized d -> Forall sent_ok l -> block d = prev ≫= dst -> (length l < m)%nat ->
  rest f = chunk_bytes prev l ++ tail -> exists g, load m f d = Some (0, g, foldl store d l) /\ reads f g tail.
Proof.
  induction l as [|r l IH]; intros m f d prev tail I He Hs Hl Hd Hm E; [by apply eos_load|].
  apply Forall_cons in Hl as [Hr Hl]. destruct m as [|m]; [cbn in Hm; lia|]. unfold chunk_bytes in E. cbn [pages_bytes] in E. rewrite <- !app_assoc in E.
  destruct (page_round m f d r prev _ I He Hs Hr Hd E) as (g & -> & (I1 & E1 & L1)).
  destruct r as [[i k] c]. destruct Hr as [(b & Hb & Hk) Hp]. destruct (store_stored d i b k c Hs Hb Hk Hp) as (S1 & S2 & _). cbn [fst] in E1. rewrite app_assoc in E1.
  destruct (IH m g (store d (i, k, c)) (Some i) tail I1 ltac:(congruence) S1 Hl S2 ltac:(cbn in Hm; lia) E1) as (h & Ed & G).
  exists h. split; [done|]. by apply (reads_trans f g h _ _ (conj I1 (conj E1 L1))).
Qed.

(** ** The list of blocks *)

Lemma total_pages l : Forall block_ok l -> exists K, total l = PAGE * K /\ 0 <= K.
Proof.
  induction 1 as [|b l [_ _ _ [E Hb] _] _ (K & EK & HK)]; [by exists 0|]. exists (npages b + K).
  change (total (b :: l)) with (rb_length b + total l). unfold PAGE in *. lia.
Qed.
Lemma foldl_total l : Forall block_ok l -> forall z, 0 <= z -> z + total l < 2 ^ 64 -> foldl (fun t b => u64 (t + rb_length b)) z l = z + total l.
Proof.
  induction 1 as [|b l [_ _ _ [E Hb] _] Hl IH]; intros z Hz Ht; cbn [foldl]; [cbn; lia|].
  change (total (b :: l)) with (rb_length b + total l) in *. pose proof (total_nonneg l Hl). unfold PAGE in *.
  unfold u64 at 2. rewrite Z.mod_small by lia. rewrite IH; lia.
Qed.
Lemma ram_bytes_total_spec : ram_bytes_total blocks = total blocks.
Proof. apply (foldl_total blocks (lo_blocks _ L) 0); [done|]. apply (sb_total B). Qed.
Definition block_bytes b : list Z := be_bytes 1 (Z.of_nat (length (rb_idstr b))) ++ rb_idstr b ++ be_bytes 8 (rb_length b).
Definition setup_bytes : list Z := be_bytes 8 (ram_bytes_total blocks .| RAM_SAVE_FLAG_MEM_SIZE) ++ (blocks ≫= block_bytes) ++ eos.
Lemma sync_blocks_spec l : forall m f tail, (forall b, b ∈ l -> b ∈ blocks) -> total l < 2 ^ 64 -> rinv f -> (length l < m)%nat ->
  rest f = (l ≫= block_bytes) ++ tail -> exists g, sync_blocks rops dblocks stack m f (total l) = Some (0, g) /\ reads f g tail.
Proof.
  induction l as [|b l IH]; intros [|m] f tail Hin Ht I Hm E; try (cbn in Hm; lia).
  - exists f. split; [reflexivity|]. by split.
  - assert (b ∈ blocks) as Hb by (apply Hin, elem_of_cons; by left). assert (Forall block_ok (b :: l)) as Hok.
    { apply Forall_forall. intros c Hc. pose proof (lo_blocks _ L) as Hall. rewrite Forall_forall in Hall. by apply Hall, Hin. }
    apply Forall_cons in Hok as [[_ _ _ [El Hnz] [Hn1 Hn2]] Hok]. pose proof (total_nonneg l Hok) as Hl0.
    change (total (b :: l)) with (rb_length b + total l) in *. rewrite bind_cons in E. unfold block_bytes in E at 1. rewrite <- !app_assoc in E.
    cbn [sync_blocks]. destruct (Z.eqb_spec (rb_length b + total l) 0); [unfold PAGE in *; lia|].
    destruct (get_id_spec f _ _ I E Hn1 Hn2) as (f1 & -> & G1). pose proof G1 as (I1 & E1 & _).
    destruct (get_be64_spec rops remaining f1 _ _ I1 E1) as (f2 & -> & I2 & E2 & L2).
    apply list_elem_of_lookup in Hb as (i & Hi). destruct (sb_dst B i b Hi) as (j & c & Hj & Hc & Hlen). unfold dst in Hj. rewrite Hi in Hj. cbn [mbind option_bind] in Hj.
    rewrite Hj. cbn [mbind option_bind]. rewrite Hc, Hlen. unfold u64. rewrite (Z.mod_small (rb_length b)), Z.eqb_refl by (unfold PAGE in *; lia). cbn [negb].
    replace (rb_length b + total l - rb_length b) with (total l) by lia. rewrite Z.mod_small by (unfold PAGE in *; lia).
    destruct (IH m f2 tail) as (g & -> & G); [intros x Hx; apply Hin, elem_of_cons; by right|unfold PAGE in *; lia|done|cbn in Hm; lia|done|].
    exists g. split; [done|]. apply (reads_trans f f1 g _ _ G1). by apply (reads_trans f1 f2 g ((l ≫= block_bytes) ++ tail)).
Qed.
Lemma setup_load m f d tail : rinv f -> last_error f = 0 -> (S (length blocks) < m)%nat -> rest f = setup_bytes ++ tail ->
  exists g, load m f d = Some (0, g, d) /\ reads f g tail.
Proof.
  intros I He Hm E. destruct m as [|m]; [lia|]. destruct (total_pages blocks (lo_blocks _ L)) as (K & EK & HK). pose proof (sb_total B) as Ht.
  unfold setup_bytes in E. rewrite <- !app_assoc, ram_bytes_total_spec, EK in E.
  destruct (header_flags K RAM_SAVE_FLAG_MEM_SIZE HK) as [Ef Ea]; [done|].
  destruct (get_be64_spec rops remaining f _ _ I E) as (f1 & Eg & I1 & E1 & L1). cbn [ram_load_loop]. rewrite Eg. unfold u64.
  assert (PAGE * K .| RAM_SAVE_FLAG_MEM_SIZE < 2 ^ 64) as Hw.
  { rewrite Ea. change (2 ^ 64) with (PAGE * 2 ^ 54) in *. unfold RAM_SAVE_FLAG_MEM_SIZE, PAGE in *. lia. }
  rewrite (Z.mod_small (PAGE * K .| _)) by (rewrite Ea in *; unfold RAM_SAVE_FLAG_MEM_SIZE, PAGE in *; lia). rewrite Ef, Ea.
  replace (PAGE * K + RAM_SAVE_FLAG_MEM_SIZE - RAM_SAVE_FLAG_MEM_SIZE) with (total blocks) by lia.
  destruct (sync_blocks_spec blocks (Datatypes.S m) f1 (eos ++ tail)) as (f2 & E2 & (I2 & R2 & L2)); [done|done|done|lia|done|].
  change (truth (RAM_SAVE_FLAG_MEM_SIZE .& RAM_SAVE_FLAG_MEM_SIZE)) with true. cbv iota. rewrite E2. cbn [mbind option_bind]. change (truth 0) with false. cbv iota.
  change (load_page _ _ _ _ f2 d _ RAM_SAVE_FLAG_MEM_SIZE) with (Some (0, f2, d)). cbn [mbind option_bind]. change (truth 0) with false. cbv iota.
  unfold qemu_file_get_error. rewrite L2, L1, He. change (truth 0) with false. cbv iota. change (truth (RAM_SAVE_FLAG_MEM_SIZE .& RAM_SAVE_FLAG_EOS)) with false. cbv iota.
  destruct (eos_load m f2 d tail I2 ltac:(congruence) ltac:(lia) R2) as (g & -> & G). exists g. split; [done|].
  apply (reads_trans f f1 g _ _ (conj I1 (conj E1 L1))). by apply (reads_trans f1 f2 g _ _ (conj I2 (conj R2 L2))).
Qed.
End Receiver.
End RamLoad.
