(* ===== verification/RamSent.v ===== *)
(** * The pages of a migration

    What the sender has put so far is a list of pages in chunks.  A page sent
    by reference becomes what its block holds when the file is flushed; what a
    flush writes is what the receiver of [RamLoad] reads. *)

From S2P Require Import Prelude QemuFile QemuFileProps VmState VmStateProps Bitmap PageCache Xbzrle Async Ram RamProps RamLoad.

Module RamSent.
Import QemuFile QemuFileProps Async Ram RamProps RamLoad.

(** ** What was sent *)

(** A page is sent as zero, or as what its block holds when the file is flushed. *)
Inductive copy := CZero | CRef | CFixed (p : list Z).
Abbreviation sym := (nat * Z * copy)%type.
Definition resolve (ext : Z -> list Z) (r : sym) : sent_page :=
  let '(i, k, c) := r in (i, k, match c with CZero => None | CRef => Some (page ext i k) | CFixed p => Some p end).
Definition value ext (i : nat) (k : Z) (c : copy) : list Z := content (snd (resolve ext (i, k, c))).
(** The flush of the file fixes some pages. *)
Definition fixed ext (r r' : sym) : Prop := let '(i, k, c) := r in r' = r \/ c = CRef /\ r' = (i, k, CFixed (page ext i k)).
Lemma fixed_fst ext l l' : Forall2 (fixed ext) l l' -> fst <$> l' = fst <$> l.
Proof. induction 1 as [|[[i k] c] r' l l' H _ IH]; [done|]. rewrite !fmap_cons, IH. f_equal. by destruct H as [->|[_ ->]]. Qed.
Lemma fixed_latest ext l l' i k : Forall2 (fixed ext) l l' ->
  match latest l (i, k), latest l' (i, k) with None, None => True | Some c, Some c' => value ext i k c' = value ext i k c | _, _ => False end.
Proof.
  induction 1 as [|[[j x] c] r' l l' H _ IH]; [done|]. cbn [latest]. destruct H as [->|[-> ->]]; cbn [latest];
    (destruct (latest l (i, k)), (latest l' (i, k)); [done|done|done|]); case_bool_decide as E; [done|done|by injection E as -> ->|done].
Qed.

Section Sym.
Context (blocks : list RAMBlock).
Implicit Types (ext : Z -> list Z).
Definition copy_parts (i : nat) (k : Z) (c : copy) : list part :=
  match c with CZero => raw [0] | CRef => [PRef (block_buffer i) (PAGE * k) PAGE] | CFixed p => [PBytes p] end.
Definition copy_kind (c : copy) : Z := match c with CZero => RAM_SAVE_FLAG_COMPRESS | _ => RAM_SAVE_FLAG_PAGE end.
Definition page_parts (prev : option nat) (r : sym) : list part :=
  let '(i, k, c) := r in
  match blocks !! i with
  | Some b => raw (be_bytes 8 (PAGE * k .| (cont_flag prev i .| copy_kind c)) ++ name_bytes b prev i) ++ copy_parts i k c
  | None => []
  end.
Fixpoint pages_parts (prev : option nat) (l : list sym) : list part :=
  match l with [] => [] | r :: l => page_parts prev r ++ pages_parts (Some (fst (fst r))) l end.
Definition chunk_parts (prev : option nat) (l : list sym) : list part := pages_parts prev l ++ raw eos.
Fixpoint chunks_parts (prev : option nat) (C : list (list sym)) : list part :=
  match C with [] => [] | l :: C => chunk_parts prev l ++ chunks_parts (last_block prev (fst <$> l)) C end.

Lemma last_block_app prev l l' : last_block prev (l ++ l') = last_block (last_block prev l) l'.
Proof. revert prev. induction l as [|[i k] l IH]; intros prev; [done|]. cbn [app]. by rewrite !last_block_cons. Qed.
Lemma chunks_parts_snoc C : forall prev l, chunks_parts prev (C ++ [l]) = chunks_parts prev C ++ chunk_parts (last_block prev (fst <$> mjoin C)) l.
Proof.
  induction C as [|l0 C IH]; intros prev l; [apply app_nil_r|]. cbn [app chunks_parts]. rewrite IH, <- app_assoc. cbn [mjoin list_join]. by rewrite fmap_app, last_block_app.
Qed.

(** *** Flushed *)

Lemma page_refined ext prev r Y : refined ext (page_parts prev r) Y -> exists r', Y = page_parts prev r' /\ fixed ext r r'.
Proof.
  destruct r as [[i k] c]. unfold page_parts at 1. destruct (blocks !! i) as [b|] eqn:Eb.
  - intros (Y1 & Y2 & ->%refined_raw & R & ->)%Forall2_app_inv_l. destruct c as [| |p]; cbn [copy_parts copy_kind] in *.
    + apply refined_raw in R as ->. exists (i, k, CZero). split; [|by left]. unfold page_parts. by rewrite Eb.
    + apply Forall2_cons_inv_l in R as (t & Y' & Ht & ->%Forall2_nil_inv_l & ->). destruct Ht as [->| ->].
      * exists (i, k, CRef). split; [|by left]. unfold page_parts. by rewrite Eb.
      * exists (i, k, CFixed (page ext i k)). split; [|by right]. unfold page_parts. by rewrite Eb.
    + apply Forall2_cons_inv_l in R as (t & Y' & ->%settled_bytes & ->%Forall2_nil_inv_l & ->).
      exists (i, k, CFixed p). split; [|by left]. unfold page_parts. by rewrite Eb.
  - intros ->%Forall2_nil_inv_l. exists (i, k, c). split; [|by left]. unfold page_parts. by rewrite Eb.
Qed.
Lemma pages_refined ext l : forall prev Y, refined ext (pages_parts prev l) Y -> exists l', Y = pages_parts prev l' /\ Forall2 (fixed ext) l l'.
Proof.
  induction l as [|r l IH]; intros prev Y R; [apply Forall2_nil_inv_l in R as ->; by exists []|].
  apply Forall2_app_inv_l in R as (Y1 & Y2 & R1 & R2 & ->). destruct (page_refined ext prev r Y1 R1) as (r' & -> & F). destruct (IH _ Y2 R2) as (l' & -> & F').
  exists (r' :: l'). split; [|by constructor]. cbn [pages_parts]. do 3 f_equal. destruct r as [[i k] c]. by destruct F as [->|[_ ->]].
Qed.
Lemma chunks_refined ext C : forall prev Y, refined ext (chunks_parts prev C) Y -> exists C', Y = chunks_parts prev C' /\ Forall2 (Forall2 (fixed ext)) C C'.
Proof.
  induction C as [|l C IH]; intros prev Y R; [apply Forall2_nil_inv_l in R as ->; by exists []|].
  apply Forall2_app_inv_l in R as (Y1 & Y2 & R1 & R2 & ->). apply Forall2_app_inv_l in R1 as (Y3 & Y4 & R3 & ->%refined_raw & ->).
  destruct (pages_refined ext l prev Y3 R3) as (l' & -> & F). destruct (IH _ Y2 R2) as (C' & -> & F').
  exists (l' :: C'). split; [|by constructor]. cbn [chunks_parts]. unfold chunk_parts. by rewrite (fixed_fst ext l l' F).
Qed.

(** *** Written out *)

Lemma page_renders ext prev r : renders ext (page_parts prev r) = page_bytes blocks prev (resolve ext r).
Proof.
  destruct r as [[i k] c]. unfold page_parts, page_bytes. cbn [resolve]. destruct (blocks !! i); [|done].
  rewrite renders_app, renders_raw, <- app_assoc. destruct c; cbn [copy_kind kind copy_parts body]; do 2 f_equal; unfold renders; cbn; by rewrite app_nil_r.
Qed.
Lemma chunk_renders ext prev l : renders ext (chunk_parts prev l) = chunk_bytes blocks prev (resolve ext <$> l).
Proof.
  unfold chunk_parts, chunk_bytes. rewrite renders_app, renders_raw. f_equal. revert prev. induction l as [|r l IH]; intros prev; [done|].
  cbn [pages_parts fmap list_fmap pages_bytes]. rewrite renders_app, page_renders, IH. do 3 f_equal. by destruct r as [[i k] c].
Qed.
(** What the sender puts for pages [l]. *)
Definition taken (vec : Z) ext (l : list (nat * Z)) : list sym :=
  (fun p => (p, if is_zero_page vec (page ext (fst p) (snd p)) then CZero else CRef)) <$> l.
Lemma items_parts vec ext prev i k b : blocks !! i = Some b ->
  page_items blocks ext vec prev i k ≫= item_parts = page_parts prev (i, k, if is_zero_page vec (page ext i k) then CZero else CRef).
Proof.
  intros Hb. unfold page_items, page_parts, name_bytes. rewrite Hb. cbv zeta. fold (cont_flag prev i). generalize (cont_flag prev i) as c. intros c. rewrite Z.lor_assoc.
  destruct (is_zero_page _ _); rewrite bind_app; unfold hdr_items; cbn [copy_kind copy_parts]; (destruct (c =? 0));
    cbn [mbind list_bind item_parts item_bytes]; rewrite ?app_nil_r, ?raw_app, <- ?app_assoc; done.
Qed.
Lemma chunk_items_parts vec ext l : forall prev, Forall (is_page blocks) l ->
  chunk_items blocks ext vec prev l ≫= item_parts = chunk_parts prev (taken vec ext l).
Proof.
  intros prev Hl. unfold chunk_items, chunk_parts. rewrite bind_app. f_equal. revert prev.
  induction Hl as [|[i k] l (b & Hb & Hk) _ IH]; intros prev; [done|]. cbn [chain_items taken fmap list_fmap pages_parts fst snd]. rewrite bind_app. f_equal; [|apply IH].
  by apply (items_parts vec ext prev i k b).
Qed.
Lemma blocks_parts (l : list RAMBlock) : (l ≫= block_items) ≫= item_parts = raw (l ≫= block_bytes).
Proof.
  induction l as [|b l IH]; [done|]. rewrite !bind_cons, bind_app, raw_app, IH. f_equal. unfold block_items, block_bytes.
  cbn [mbind list_bind item_parts item_bytes]. by rewrite app_nil_r, !raw_app.
Qed.
Lemma setup_parts : setup_items blocks ≫= item_parts = raw (setup_bytes blocks).
Proof. unfold setup_items, setup_bytes. by rewrite bind_cons, bind_app, !raw_app, blocks_parts. Qed.

(** *** Sizes *)

Definition ext_sized ext : Prop := forall i b, blocks !! i = Some b -> Z.of_nat (length (ext (block_buffer i))) = rb_length b.
Lemma length_page ext i k : layout blocks -> ext_sized ext -> is_page blocks (i, k) -> Z.of_nat (length (page ext i k)) = PAGE.
Proof.
  intros L X (b & Hb & Hk). cbn [fst snd] in *. pose proof (X i b Hb). destruct (block_of blocks L i b Hb) as [[_ _ _ [El _] _] _]. unfold page.
  rewrite length_slice; unfold PAGE in *; lia.
Qed.
Definition sym_ok (r : sym) : Prop := is_page blocks (fst r) /\ match snd r with CFixed p => Z.of_nat (length p) = PAGE | _ => True end.
Lemma resolve_ok ext r : layout blocks -> ext_sized ext -> sym_ok r -> sent_ok blocks (resolve ext r).
Proof.
  intros L X [P H]. destruct r as [[i k] [| |p]]; (split; [done|]); cbn [resolve snd fst content] in *; [|by apply length_page|done].
  rewrite length_replicate. unfold PAGE. lia.
Qed.
Lemma fixed_ok ext l l' : layout blocks -> ext_sized ext -> Forall2 (fixed ext) l l' -> Forall sym_ok l -> Forall sym_ok l'.
Proof.
  intros L X. induction 1 as [|[[i k] c] r' l l' H _ IH]; intros Hl; [done|]. apply Forall_cons in Hl as [[P Hr] Hl]. constructor; [|by apply IH].
  destruct H as [->|[-> ->]]; [done|]. split; [done|]. by apply length_page.
Qed.
(** A page taken is the page. *)
Lemma taken_latest vec ext l i k : latest (taken vec ext l) (i, k) =
  if bool_decide ((i, k) ∈ l) then Some (if is_zero_page vec (page ext i k) then CZero else CRef) else None.
Proof.
  induction l as [|p l IH]; [done|]. cbn [taken fmap list_fmap latest]. fold (taken vec ext l). rewrite IH. case_bool_decide as Hin.
  - rewrite bool_decide_eq_true_2 by (apply elem_of_cons; by right). done.
  - case_bool_decide as Hp; [subst p; rewrite bool_decide_eq_true_2 by (apply elem_of_cons; by left); done|].
    rewrite bool_decide_eq_false_2; [done|]. by intros [|]%elem_of_cons.
Qed.
Lemma taken_value vec ext i k : 0 < vec -> PAGE mod (8 * vec) = 0 -> layout blocks -> ext_sized ext -> is_page blocks (i, k) ->
  value ext i k (if is_zero_page vec (page ext i k) then CZero else CRef) = page ext i k.
Proof.
  intros Hv Hp L X P. pose proof (length_page ext i k L X P) as Hl. destruct (is_zero_page vec (page ext i k)) eqn:E; [|done].
  apply is_zero_page_spec in E; [|done..]. unfold value. cbn [resolve snd content]. apply zeros; [rewrite length_replicate; unfold PAGE in *; lia|by apply Forall_replicate|done].
Qed.
Lemma latest_app {A} (l l' : list (nat * Z * A)) p : latest (l ++ l') p = match latest l' p with Some c => Some c | None => latest l p end.
Proof. induction l as [|[q c] l IH]; cbn [latest app]; [by destruct (latest l' p)|]. rewrite IH. by destruct (latest l' p). Qed.
Lemma latest_resolve ext l i k : latest (resolve ext <$> l) (i, k) = (fun c => snd (resolve ext (i, k, c))) <$> latest l (i, k).
Proof.
  induction l as [|[[j x] c] l IH]; [done|]. cbn [fmap list_fmap latest resolve]. rewrite IH. destruct (latest l (i, k)); [done|]. cbn [fmap option_fmap option_map].
  case_bool_decide as E; [|done]. by injection E as -> ->.
Qed.
End Sym.
End RamSent.
