(* ===== verification/RamLive.v ===== *)
(** * Migration while the guest runs

    After the first call, any rounds with writes of the guest between them and
    the last call, the memory of the receiver is that of the sender, if every
    write is logged and the last page is not written while the first round stands
    at it. *)

From S2P Require Import Prelude QemuFile QemuFileProps VmState VmStateProps Bitmap PageCache Xbzrle Async Ram RamProps RamLoad RamSent.

Module RamLive.
Import QemuFile QemuFileProps Async Ram RamProps RamLoad RamSent.

(** ** The migration *)

(** What happens between the first call and the last: the guest runs and its
    memory and the log of its writes become those given, the amount left is
    asked for, a round sends pages. *)
Inductive event := Guest (ext : Z -> list Z) (log : list Z) | Pending (max_size : Z) | Iterate (late : Z -> bool).
Definition is_iterate (e : event) : bool := match e with Iterate _ => true | _ => false end.

Section Runs.
Context {W R : Type} (wops : QEMUFileOps W) (rops : QEMUFileOps R).
Context (use_xbzrle : bool) (vec version xbzrle_cache_size : Z) (stack : list Z) (blocks dblocks : list RAMBlock).
(** The fuel of the loops over blocks and over pages. *)
Context (n k : nat).
Implicit Types (f : QEMUFile W) (g : QEMUFile R) (s : ram_state) (d : load_state) (ext : Z -> list Z).

Definition step (e : event) ext f s : option ((Z -> list Z) * QEMUFile W * ram_state) :=
  match e with
  | Guest ext log => Some (ext, f, s.[phys_dirty := log])
  | Pending max_size => Some (ext, f, snd (ram_save_pending blocks s max_size))
  | Iterate late => '(_, f, s) ← ram_save_iterate wops ext vec blocks version use_xbzrle n k late f s; Some (ext, f, s)
  end.
Fixpoint live (l : list event) ext f s : option ((Z -> list Z) * QEMUFile W * ram_state) :=
  match l with [] => Some (ext, f, s) | e :: l => '(ext, f, s) ← step e ext f s; live l ext f s end.
(** All of it; the memory at the end, and what the backend was given. *)
Definition migrate (w : W) s (l : list event) ext : option ((Z -> list Z) * W) :=
  let '(_, f, s) := ram_save_setup wops ext blocks version use_xbzrle xbzrle_cache_size (qemu_fopen_ops w) s in
  '(ext, f, s) ← live l ext f s;
  '(_, f, s) ← ram_save_complete wops ext vec blocks use_xbzrle n k f s;
  Some (ext, opaque (qemu_fflush wops ext f)).
(** The calls of the receiver, none of which may fail. *)
Fixpoint loads (c m : nat) g d : option (QEMUFile R * load_state) :=
  match c with
  | O => Some (g, d)
  | Datatypes.S c => '(ret, g, d) ← ram_load rops vec dblocks stack m g d 4; if ret =? 0 then loads c m g d else None
  end.

(** The guest's writes are logged, and what was logged stays so. *)
Record honest ext s ext' log' : Prop := {
  ho_size : ext_sized blocks ext';
  ho_log : length log' = length (phys_dirty s);
  ho_logged i x : logged blocks s i x = true -> logged blocks s.[phys_dirty := log'] i x = true;
  ho_writes i x : is_page blocks (i, x) -> page ext' i x <> page ext i x -> logged blocks s.[phys_dirty := log'] i x = true
}.
Definition event_ok (e : event) ext s : Prop :=
  match e with Guest ext' log' => honest ext s ext' log' | Pending _ => True | Iterate _ => calm blocks s end.
Fixpoint fair (l : list event) ext f s : Prop :=
  match l with
  | [] => calm blocks (migration_bitmap_sync blocks s)
  | e :: l => event_ok e ext s /\ match step e ext f s with Some (ext, f, s) => fair l ext f s | None => True end
  end.
Definition fair_run (w : W) s (l : list event) ext : Prop :=
  let '(_, f, s) := ram_save_setup wops ext blocks version use_xbzrle xbzrle_cache_size (qemu_fopen_ops w) s in fair l ext f s.

(** The two conditions on their own: [P] of every event when it comes, and [Q]
    of the state in front of the last call. *)
Fixpoint along (P : event -> (Z -> list Z) -> ram_state -> Prop) (Q : ram_state -> Prop) (l : list event) ext f s : Prop :=
  match l with
  | [] => Q s
  | e :: l => P e ext s /\ match step e ext f s with Some (ext, f, s) => along P Q l ext f s | None => True end
  end.
Definition run_along P Q (w : W) s (l : list event) ext : Prop :=
  let '(_, f, s) := ram_save_setup wops ext blocks version use_xbzrle xbzrle_cache_size (qemu_fopen_ops w) s in along P Q l ext f s.
(** Every write of the guest is logged. *)
Definition writes_logged : W -> ram_state -> list event -> (Z -> list Z) -> Prop :=
  run_along (fun e ext s => match e with Guest ext' log' => honest ext s ext' log' | _ => True end) (fun _ => True).
(** Whenever pages are sent: if the first round has reached the last page and
    has not gone on, that page is not dirty again. *)
Definition last_page_calm : W -> ram_state -> list event -> (Z -> list Z) -> Prop :=
  run_along (fun e ext s => match e with Iterate _ => calm blocks s | _ => True end) (fun s => calm blocks (migration_bitmap_sync blocks s)).
Lemma fair_conditions w s l ext : fair_run w s l ext <-> writes_logged w s l ext /\ last_page_calm w s l ext.
Proof.
  unfold fair_run, writes_logged, last_page_calm, run_along. destruct (ram_save_setup _ _ _ _ _ _ _ s) as [[r f] s0]. clear w s r.
  revert ext f s0. induction l as [|e l IH]; intros ext f s; [by split; [|intros [_ ?]]|]. cbn [fair along]. unfold event_ok.
  destruct (step e ext f s) as [[[ext' f'] s']|]; [rewrite IH|]; destruct e; tauto.
Qed.

End Runs.

Section Live.
Context {W R : Type} (wops : QEMUFileOps W) (rops : QEMUFileOps R) (written : W -> list Z) (remaining : R -> list Z).
Context (vec version xbzrle_cache_size : Z) (stack : list Z) (blocks dblocks : list RAMBlock) (n k : nat).
Implicit Types (f : QEMUFile W) (g : QEMUFile R) (s : ram_state) (d : load_state) (ext : Z -> list Z).
Abbreviation live := (live wops false vec version blocks n k).
Abbreviation fair := (fair wops false vec version blocks n k).
Abbreviation writes_logged := (writes_logged wops false vec version xbzrle_cache_size blocks n k).
Abbreviation last_page_calm := (last_page_calm wops false vec version xbzrle_cache_size blocks n k).
Abbreviation fair_run := (fair_run wops false vec version xbzrle_cache_size blocks n k).
Abbreviation migrate := (migrate wops false vec version xbzrle_cache_size blocks n k).
Abbreviation loads := (loads rops vec stack dblocks).
Abbreviation honest := (honest blocks).
Context `{!Sink wops written, !Source rops remaining} (Hvec : 0 < vec) (Hpage : PAGE mod (8 * vec) = 0).
Context (L : layout blocks) (B : same_blocks blocks dblocks) (Hn : (2 * length blocks < n)%nat) (Hk : (length (all_pages blocks) < k)%nat).
Abbreviation dst := (dst blocks dblocks).
Abbreviation dpage := (dpage blocks dblocks).
Abbreviation sized := (sized blocks dblocks).
Abbreviation sent_last C i x := (latest (mjoin C) (i, x)).

Lemma todo_bound s : (todo blocks s < k)%nat.
Proof. unfold todo. pose proof (length_filter (fun p => dirty blocks s (fst p) (snd p) = true) (all_pages blocks)). lia. Qed.
Lemma number_page i x : is_Some (number blocks i x) <-> is_page blocks (i, x).
Proof.
  split.
  - intros [nr (b & Hb & Hx & _)%number_spec]. by exists b.
  - intros (b & Hb & Hx). exists (base b + x). apply number_spec. by exists b.
Qed.

(** *** The sender *)

(** Of a page not to be sent any more, what was sent last is the page. *)
Record agree ext f s (C : list (list sym)) : Prop := {
  ag_ready : wready wops f; ag_carries : carries wops written f (raw (setup_bytes blocks) ++ chunks_parts blocks None C);
  ag_ok : Forall (sym_ok blocks) (mjoin C); ag_last : last_sent_block s = last_block None (fst <$> mjoin C);
  ag_inv : sinv blocks s; ag_log : ram_pages blocks <= Z.of_nat (length (phys_dirty s)); ag_version : last_version s = version; ag_ext : ext_sized blocks ext;
  ag_page i x : is_page blocks (i, x) -> dirty blocks s i x || logged blocks s i x = true \/ exists c, sent_last C i x = Some c /\ value ext i x c = page ext i x
}.
Lemma guest_agree ext f s C ext' log' : agree ext f s C -> honest ext s ext' log' -> agree ext' f s.[phys_dirty := log'] C.
Proof.
  intros [A1 A2 A3 A4 [I1 I2 I3] A6 A7 A8 A9] [H1 H2 H3 H4]. split; try done; [cbn; lia|].
  intros i x P. change (dirty blocks s.[phys_dirty := log'] i x) with (dirty blocks s i x).
  destruct (decide (page ext' i x = page ext i x)) as [Eq|Hne]; [|left; rewrite (H4 i x P Hne); apply orb_true_r].
  destruct (A9 i x P) as [[Hd|Hl]%orb_true_iff|(c & Ec & Ev)]; [left; by rewrite Hd|left; rewrite (H3 i x Hl); apply orb_true_r|].
  right. exists c. split; [done|]. destruct c; cbn in *; congruence.
Qed.
Lemma pending_agree ext f s C max_size : agree ext f s C -> agree ext f (snd (ram_save_pending blocks s max_size)) C.
Proof.
  intros A. unfold ram_save_pending. destruct (_ <? max_size); [|done]. cbn [snd]. destruct A as [A1 A2 A3 A4 A5 A6 A7 A8 A9].
  destruct (sync_dirty blocks L s A5 A6) as (S1 & S2 & S3 & S4 & S5 & S6). split; try done; [congruence|lia|congruence|].
  intros i x P. rewrite S2, S3, orb_false_r. auto.
Qed.
Lemma sent_pages s l : (forall i x, (i, x) ∈ l -> dirty blocks s i x || logged blocks s i x = true) -> Forall (is_page blocks) l.
Proof.
  intros H. apply Forall_forall. intros [i x] Hin. apply number_page. apply H in Hin. unfold dirty, logged in Hin. destruct (number blocks i x); [done|discriminate].
Qed.
Lemma chunk_ok ext l : forall prev, Forall (is_page blocks) l -> Forall item_ok (chunk_items blocks ext vec prev l).
Proof.
  intros prev Hl. unfold chunk_items. apply Forall_app. split; [|by repeat constructor]. revert prev.
  induction Hl as [|[i x] l (b & Hb & Hx) _ IH]; intros prev; [constructor|]. cbn [chain_items]. apply Forall_app. split; [|apply IH].
  unfold page_items. cbn [fst snd] in *. rewrite Hb. unfold hdr_items. destruct (is_zero_page _ _); (apply Forall_app; split; [destruct (_ =? 0)|]); repeat constructor; unfold PAGE; lia.
Qed.
(** A chunk is put, and pages sent before may become fixed. *)
Lemma chunk_agree ext f s C l : agree ext f s C -> Forall (is_page blocks) l ->
  let f' := foldl (put_item wops ext) f (chunk_items blocks ext vec (last_sent_block s) l) in
  wready wops f' /\ exists C', length C' = S (length C) /\ carries wops written f' (raw (setup_bytes blocks) ++ chunks_parts blocks None C') /\
    Forall (sym_ok blocks) (mjoin C') /\ last_block None (fst <$> mjoin C') = last_block (last_sent_block s) l /\
    forall i x, is_page blocks (i, x) -> ((i, x) ∈ l \/ exists c, sent_last C i x = Some c /\ value ext i x c = page ext i x) ->
      exists c, sent_last C' i x = Some c /\ value ext i x c = page ext i x.
Proof.
  intros [A1 A2 A3 A4 A5 A6 A7 A8 A9] Hl f'. pose proof (chunk_ok ext l (last_sent_block s) Hl) as Hi.
  split; [apply (put_items_spec wops ext written _ f A1 Hi)|]. destruct (items_puts wops written ext _ f A1 Hi _ A2) as (Y & Q & Cy).
  rewrite chunk_items_parts, <- app_assoc, A4, <- chunks_parts_snoc in Q by done. apply Forall2_app_inv_l in Q as (Y1 & Y2 & ->%refined_raw & Q & ->).
  destruct (chunks_refined blocks ext _ _ _ Q) as (C' & -> & F). exists C'. split; [apply Forall2_length in F; rewrite <- F, length_app; cbn; lia|].
  split; [exact Cy|]. apply Forall2_join in F. rewrite join_app in F. cbn [mjoin list_join] in F. rewrite app_nil_r in F.
  split; [|split].
  - apply (fixed_ok blocks ext _ _ L A8 F). apply Forall_app. split; [done|]. apply Forall_fmap. eapply Forall_impl; [done|].
    intros p Hp. split; [done|]. cbn [compose fst snd]. by destruct (is_zero_page _ _).
  - transitivity (last_block None (fst <$> mjoin C ++ taken vec ext l)); [f_equal; exact (fixed_fst ext _ _ F)|].
    rewrite fmap_app, last_block_app, <- A4. f_equal. unfold taken. rewrite <- list_fmap_compose. apply list_fmap_id.
  - intros i x P H. pose proof (fixed_latest ext _ _ i x F) as Hf. rewrite latest_app, taken_latest in Hf. case_bool_decide as Hin.
    + destruct (latest (mjoin C') (i, x)) as [c|]; [|done]. exists c. split; [done|]. rewrite Hf. by apply (taken_value blocks).
    + destruct H as [|(c & Ec & Ev)]; [done|]. rewrite Ec in Hf. destruct (latest (mjoin C') (i, x)) as [c'|]; [|done]. exists c'. split; [done|]. congruence.
Qed.
Lemma iterate_agree ext f s C late : agree ext f s C -> calm blocks s ->
  exists m f' s' C', ram_save_iterate wops ext vec blocks version false n k late f s = Some (m, f', s') /\ agree ext f' s' C' /\ length C' = S (length C).
Proof.
  intros A Hc. destruct (iterate_spec blocks L wops ext vec version n k late f s Hn (ag_inv _ _ _ _ A) Hc (todo_bound s) (ag_version _ _ _ _ A)) as (l & m & s' & -> & [P1 P2 P3 P4 P5 [P6 P7]]).
  assert (Forall (is_page blocks) l) as Hl by (apply (sent_pages s); intros i x Hin; by rewrite (P4 i x Hin)).
  destruct (chunk_agree ext f s C l A Hl) as (R1 & C' & R2 & R3 & R4 & R5 & R6). destruct A as [A1 A2 A3 A4 A5 A6 A7 A8 A9].
  eexists _, _, _, C'. split; [reflexivity|]. split; [|done]. split; [exact R1|exact R3|exact R4|congruence|done|by rewrite P6|congruence|done|].
  intros i x P. rewrite P3. replace (logged blocks s' i x) with (logged blocks s i x) by (unfold logged, log; by rewrite P6).
  destruct (decide ((i, x) ∈ l)) as [Hin|Hin]; [right; by apply R6; [|left]|].
  rewrite (bool_decide_eq_true_2 ((i, x) ∉ l)), andb_true_r by done. destruct (A9 i x P); [by left|right]. by apply R6; [|right].
Qed.
Lemma live_agree l : forall ext f s C, agree ext f s C -> fair l ext f s ->
  exists ext' f' s' C', live l ext f s = Some (ext', f', s') /\ agree ext' f' s' C' /\ length C' = (length C + length (filter is_iterate l))%nat /\ calm blocks (migration_bitmap_sync blocks s').
Proof.
  induction l as [|e l IH]; intros ext f s C A F.
  - exists ext, f, s, C. cbn [filter length]. rewrite Nat.add_0_r. done.
  - destruct F as [He F]. destruct e as [ext' log'|max_size|late]; cbn [RamLive.live RamLive.fair step] in *; cbn [mbind option_bind] in *.
    + exact (IH _ _ _ C (guest_agree ext f s C ext' log' A He) F).
    + exact (IH _ _ _ C (pending_agree ext f s C max_size A) F).
    + destruct (iterate_agree ext f s C late A He) as (m & f' & s' & C' & E & A' & Hl). rewrite E in F |- *. cbn [mbind option_bind] in *.
      destruct (IH _ _ _ _ A' F) as (x1 & x2 & x3 & x4 & Ex & Ax & El & Cx). exists x1, x2, x3, x4. split; [done|]. split; [done|]. split; [|done].
      rewrite filter_cons_True by done. cbn [length]. lia.
Qed.
Lemma setup_agree w ext s : written w = [] -> ram_pages blocks <= Z.of_nat (length (phys_dirty s)) -> ext_sized blocks ext ->
  exists f' s', ram_save_setup wops ext blocks version false xbzrle_cache_size (qemu_fopen_ops w) s = (0, f', s') /\ agree ext f' s' [].
Proof.
  intros Hw Hl Hx. destruct (setup_spec blocks L wops ext version xbzrle_cache_size (qemu_fopen_ops w) s Hl) as (s' & -> & I & _ & Hd & Hsent & Hv & Hlen).
  assert (Forall item_ok (setup_items blocks)) as Hok.
  { unfold setup_items. repeat constructor. apply Forall_app. split; [|by repeat constructor]. apply Forall_bind, Forall_forall. intros b _. repeat constructor. }
  assert (forall e, wready wops (qemu_fopen_ops w) /\ stream wops e written (qemu_fopen_ops w) = []) as Hf by (intros e; rewrite <- Hw; apply fopen_ready).
  destruct (items_puts wops written ext _ (qemu_fopen_ops w) (proj1 (Hf ext)) Hok [] (fun e => proj2 (Hf e))) as (Y & Q & Cy).
  cbn [app] in Q. rewrite setup_parts in Q. apply refined_raw in Q as ->.
  eexists _, _. split; [reflexivity|]. split; try done.
  - by apply (put_items_spec wops ext written _ _ (proj1 (Hf ext)) Hok).
  - cbn [chunks_parts]. by rewrite app_nil_r.
  - lia.
  - intros i x P. left. rewrite Hd by by apply number_page. done.
Qed.

(** *** The receiver *)

Lemma loads_app c c' m g d : loads (c + c') m g d = '(g, d) ← loads c m g d; loads c' m g d.
Proof.
  revert g d. induction c as [|c IH]; intros g d; [done|]. cbn [RamLive.loads Nat.add]. destruct (ram_load _ _ _ _ m g d 4) as [[[ret h] e]|]; [|done].
  cbn [mbind option_bind]. destruct (ret =? 0); [apply IH|done].
Qed.
Lemma load_once m g d h d' : ram_load_loop rops vec dblocks stack m g d = Some (0, h, d') -> loads 1 m g d = Some (h, d').
Proof. intros E. cbn [RamLive.loads]. unfold ram_load. change (negb (4 =? 4)) with false. cbv iota. by rewrite E. Qed.
Abbreviation store := (store blocks dblocks).
Lemma chunks_load ext C : forall prev m g d, ext_sized blocks ext -> rinv g -> last_error g = 0 -> sized d -> Forall (sym_ok blocks) (mjoin C) -> block d = prev ≫= dst ->
  (length (mjoin C) < m)%nat -> rest remaining g = renders ext (chunks_parts blocks prev C) ->
  exists h, loads (length C) m g d = Some (h, foldl store d (resolve ext <$> mjoin C)) /\ rest remaining h = [].
Proof.
  induction C as [|l C IH]; intros prev m g d X I He Hs Hok Hb Hm E; [by exists g|]. cbn [chunks_parts] in E. change (mjoin (l :: C)) with (l ++ mjoin C) in *.
  rewrite renders_app, chunk_renders in E. apply Forall_app in Hok as [Hl Hok]. rewrite length_app in Hm.
  assert (Forall (sent_ok blocks) (resolve ext <$> l)) as Hl'.
  { apply Forall_fmap. eapply Forall_impl; [done|]. intros r Hr. by apply resolve_ok. }
  destruct (chunk_load rops remaining vec Hvec Hpage stack blocks dblocks L B (resolve ext <$> l) m g d prev _ I He Hs Hl' Hb ltac:(rewrite length_fmap; lia) E) as (h & Eh & (I1 & R1 & L1)).
  destruct (stores_updated blocks dblocks L B (resolve ext <$> l) d prev Hs Hl' Hb) as (S1 & S2 & _).
  assert (fst <$> (resolve ext <$> l) = fst <$> l) as Efst.
  { rewrite <- list_fmap_compose. apply list_fmap_ext. by intros ? [[i x] c] _. }
  rewrite Efst in S2. destruct (IH _ m h _ X I1 ltac:(congruence) S1 Hok S2 ltac:(lia) R1) as (h' & E' & R').
  exists h'. split; [|done]. change (length (l :: C)) with (1 + length C)%nat. rewrite loads_app, (load_once m g d h _ Eh). cbn [mbind option_bind].
  rewrite E', fmap_app, foldl_app. done.
Qed.

Lemma pages_eq (c c' : list Z) N : Z.of_nat (length c) = PAGE * N -> length c' = length c ->
  (forall x, 0 <= x < N -> slice c (PAGE * x) PAGE = slice c' (PAGE * x) PAGE) -> c = c'.
Proof.
  intros Hc Hc' H. apply (aget_ext 0); [done|]. intros i Hi. pose proof (Z.div_mod i PAGE ltac:(done)) as Ei. pose proof (Z.mod_pos_bound i PAGE ltac:(done)) as Hm. set (q := i / PAGE) in *. clearbody q.
  specialize (H q ltac:(unfold PAGE in *; nia)). rewrite Ei. rewrite <- !(aget_slice 0 _ _ PAGE) by (unfold PAGE in *; lia). by rewrite H.
Qed.
Definition arrived d ext : Prop := forall i b j, blocks !! i = Some b -> dst i = Some j -> contents d !! j = Some (ext (block_buffer i)).
Lemma arrived_pages d ext : sized d -> ext_sized blocks ext -> (forall i x, is_page blocks (i, x) -> dpage d i x = Some (page ext i x)) -> arrived d ext.
Proof.
  intros Hs Hx H i b j Hb Hj. destruct (Hs i b j Hb Hj) as (c & Hc & Hl). rewrite Hc. f_equal. pose proof (Hx i b Hb) as Hxi.
  destruct (block_of blocks L i b Hb) as [[_ _ _ [El _] _] _]. apply (pages_eq _ _ (npages b)); [lia|lia|]. intros x Hxb.
  specialize (H i x (ex_intro _ b (conj Hb Hxb))). unfold RamLoad.dpage in H. rewrite Hj in H. cbn [mbind option_bind] in H. rewrite Hc in H. cbn [mbind option_bind] in H. by injection H.
Qed.

(** C2. Memory migrates while the guest runs.  Under three conditions: pages are
    sent without differences between their versions (no XBZRLE); every write of
    the guest is logged; and whenever pages are sent, if the first round has
    just reached the last page, this page has not been written again, as the
    code then takes it for clean (see [last_page_lost] below).  Then, whatever
    else the guest writes, and whatever the rate limits, the times at which
    rounds end and those at which the file is flushed, which is when it reads
    the pages it was given, the migration returns, and when its stream is read
    back, each call of the receiver succeeds, nothing is left over, and every
    block has the contents that the block of its name had at the end on the
    sender. *)
Theorem live_migration w s (l : list event) ext d :
  written w = [] -> ram_pages blocks <= Z.of_nat (length (phys_dirty s)) -> ext_sized blocks ext -> sized d -> block d = None ->
  writes_logged w s l ext -> last_page_calm w s l ext ->
  exists ext' w', migrate w s l ext = Some (ext', w') /\
    (forall r, remaining r = written w' -> exists m0, forall m, (m0 <= m)%nat ->
      exists g d', loads (2 + length (filter is_iterate l)) m (qemu_fopen_ops r) d = Some (g, d') /\ rest remaining g = [] /\ arrived d' ext').
Proof.
  intros Hw Hl Hx Hs Hb F1 F2. pose proof (proj2 (fair_conditions wops false vec version xbzrle_cache_size blocks n k w s l ext) (conj F1 F2)) as F. clear F1 F2.
  unfold RamLive.fair_run, RamLive.migrate in *. destruct (setup_agree w ext s Hw Hl Hx) as (f1 & s1 & E1 & A1). rewrite E1 in *.
  destruct (live_agree l ext f1 s1 [] A1 F) as (ext' & f2 & s2 & C & -> & A2 & HC & C2). cbn [mbind option_bind].
  destruct (ram_complete_spec blocks L wops ext' vec n k f2 s2 Hn (ag_inv _ _ _ _ A2) (ag_log _ _ _ _ A2) C2 (todo_bound _)) as (p & s3 & -> & Hp).
  cbn [mbind option_bind]. set (f3 := foldl _ f2 _). exists ext'. eexists. split; [reflexivity|]. rewrite fflush_written by done. intros r Er.
  assert (Forall (is_page blocks) p) as Hpages by (apply (sent_pages s2); intros i x Hin; by apply Hp).
  destruct (chunk_agree ext' f2 s2 C p A2 Hpages) as (_ & C' & R1 & R2 & R3 & _ & R5). fold f3 in R2. exists (S (S (S (length blocks + length (mjoin C'))))). intros m Hm.
  pose proof (ag_ext _ _ _ _ A2) as X. rewrite (R2 ext'), renders_app, renders_raw in Er.
  destruct (fopen_reader remaining r) as [Ir Rr]. rewrite Er in Rr.
  destruct (setup_load rops remaining vec stack blocks dblocks L B m (qemu_fopen_ops r) d _ Ir eq_refl ltac:(lia) Rr) as (g & Eg & (I1 & G1 & L1)).
  destruct (chunks_load ext' C' None m g d X I1 L1 Hs R3 Hb ltac:(lia) G1) as (h & Eh & Rh).
  exists h. eexists. split; [|split; [exact Rh|]].
  - cbn [length] in HC. replace (2 + _)%nat with (1 + length C')%nat by lia. rewrite loads_app, (load_once m _ d g d Eg). exact Eh.
  - assert (Forall (sent_ok blocks) (resolve ext' <$> mjoin C')) as Hok.
    { apply Forall_fmap. eapply Forall_impl; [done|]. intros x Hx'. by apply resolve_ok. }
    destruct (stores_updated blocks dblocks L B (resolve ext' <$> mjoin C') d None Hs Hok Hb) as (S1 & _ & U). apply arrived_pages; [exact S1|done|].
    intros i x P. rewrite (U i x P), latest_resolve. destruct (R5 i x P) as (c & -> & Ev); [|cbn [fmap option_fmap option_map]; f_equal; exact Ev].
    destruct (ag_page _ _ _ _ A2 i x P) as [Hd|]; [left; by apply Hp|by right].
Qed.
End Live.

(** ** An example *)

(** Runs whose conditions are checked by running them. *)
Section Example.
Context {W : Type} (wops : QEMUFileOps W) (vec version : Z) (blocks : list RAMBlock) (n k : nat) (L : layout blocks).
(** After the first round, or before its last block. *)
Definition quiet (s : ram_state) : bool := negb (ram_bulk_stage s) || match last_seen_block s with None => true | Some i => (S i <? length blocks)%nat end.
Lemma quiet_calm s : quiet s = true -> calm blocks s.
Proof.
  unfold quiet. intros [H|H]%orb_true_iff Hb Ha i x Hs; [by rewrite Hb in H|]. rewrite Hs in H. apply Nat.ltb_lt in H.
  destruct (lookup_lt_is_Some_2 blocks (S i) H) as [b Hi]. destruct (block_of blocks L _ b Hi) as [[_ _ _ [_ Hp] _] _]. destruct (Ha (S i) 0).
  - apply (is_number blocks (S i) 0 b Hi). lia.
  - unfold after. rewrite Hs. left. lia.
Qed.
Definition sizes_ok (ext : Z -> list Z) : bool := bool_decide ((fun i => Z.of_nat (length (ext (block_buffer i)))) <$> seq 0 (length blocks) = rb_length <$> blocks).
Lemma sizes_sized ext : sizes_ok ext = true -> ext_sized blocks ext.
Proof.
  intros E%bool_decide_eq_true i b Hb. apply (f_equal (fun l => l !! i)) in E. rewrite !list_lookup_fmap, Hb in E.
  rewrite lookup_seq_lt in E by by apply lookup_lt_Some in Hb. by injection E.
Qed.
(** Everything is logged. *)
Definition full_log (s : ram_state) (log' : list Z) : bool :=
  (length log' =? length (phys_dirty s))%nat && (ram_pages blocks <=? Z.of_nat (length log')) && forallb (fun v => Z.testbit v DIRTY_MEMORY_MIGRATION) log'.
Lemma full_honest ext s ext' log' : sizes_ok ext' = true -> full_log s log' = true -> honest blocks ext s ext' log'.
Proof.
  intros Hs ((H1 & H2)%andb_true_iff & H3)%andb_true_iff. apply Nat.eqb_eq in H1. apply Z.leb_le in H2. rewrite forallb_forall in H3.
  assert (forall i x, is_Some (number blocks i x) -> logged blocks s.[phys_dirty := log'] i x = true) as H.
  { intros i x [nr E]. pose proof (number_range blocks i x nr L E) as Hr. unfold logged, log. rewrite E. cbn. apply H3. unfold aget. rewrite (proj2 (Z.leb_le 0 nr)) by lia.
    destruct (lookup_lt_is_Some_2 log' (Z.to_nat nr) ltac:(lia)) as [v Ev]. rewrite Ev. by apply list_elem_of_In, (list_elem_of_lookup_2 _ (Z.to_nat nr)). }
  split; [by apply sizes_sized|done| |].
  - intros i x Hl. apply H. unfold logged in Hl. destruct (number blocks i x); [done|discriminate].
  - intros i x P _. apply H. by apply number_page.
Qed.
Fixpoint quiet_run (l : list event) (ext : Z -> list Z) (f : QEMUFile W) (s : ram_state) : bool :=
  match l with
  | [] => quiet (migration_bitmap_sync blocks s)
  | e :: l =>
      match e with Guest ext' log' => sizes_ok ext' && full_log s log' | Pending _ => true | Iterate _ => quiet s end &&
      match step wops false vec version blocks n k e ext f s with Some (ext, f, s) => quiet_run l ext f s | None => true end
  end.
Lemma quiet_fair l : forall ext f s, quiet_run l ext f s = true -> fair wops false vec version blocks n k l ext f s.
Proof.
  induction l as [|e l IH]; intros ext f s H; [by apply quiet_calm|]. cbn [quiet_run fair] in *. apply andb_true_iff in H as [H1 H2]. split.
  - destruct e as [ext' log'| |]; [|done|by apply quiet_calm]. apply andb_true_iff in H1 as [H1 H3]. by apply full_honest.
  - destruct (step _ _ _ _ _ _ _ e ext f s) as [[[ext' f'] s']|]; [by apply IH|done].
Qed.
End Example.

Definition demo_blocks : list RAMBlock := [mkBlock [112; 98] 4096 1024 4096 1024; mkBlock [112; 97] 0 2048 0 2048].
Definition demo_dst : list RAMBlock := reverse demo_blocks.
Definition demo_page (v : Z) : list Z := replicate 1024 v.
(** One block of one page, one of two. *)
Definition demo_ext (a b c : Z) (id : Z) : list Z := if id =? 0 then demo_page a else demo_page b ++ demo_page c.
Definition demo_acct : AccountingInfo := mkAcct 0 0 0 0 0 0 0 0.
Definition demo_ram : ram_state := mkRam None None 0 [] 0 0 false None 0 demo_acct (replicate 8 0).
Definition demo_load : load_state := mkLoad [demo_page 7 ++ demo_page 7; demo_page 7] None (demo_page 0).
Definition demo_events : list event :=
  [Iterate (fun _ => true); Pending 100000; Guest (demo_ext 0 6 0) (replicate 8 255); Iterate (fun _ => false); Pending 100000;
   Guest (demo_ext 0 9 0) (replicate 8 255)].
Definition demo_migrate (use_xbzrle : bool) (l : list event) := migrate Pipe.write_ops use_xbzrle 8 1 4096 demo_blocks 10 20 [] demo_ram l (demo_ext 1 2 0).

Lemma demo_layout : layout demo_blocks.
Proof.
  split; [|cbn; lia| |done].
  - repeat constructor; cbn; try (done || lia).
  - intros i k j m nr (b & Hb & Hk & ->)%number_spec (b' & Hb' & Hm & E)%number_spec.
    destruct i as [|[|]]; [..|discriminate]; (destruct j as [|[|]]; [..|discriminate]); injection Hb as <-; injection Hb' as <-; cbv [npages base rb_length rb_offset] in *;
      change (2048 / PAGE) with 2 in *; change (1024 / PAGE) with 1 in *; change (0 / PAGE) with 0 in *; change (4096 / PAGE) with 4 in *; lia.
Qed.
Lemma demo_same : same_blocks demo_blocks demo_dst.
Proof.
  split; [done| |by apply (bool_decide_unpack _)].
  intros [|[|]] b Hb; [..|discriminate]; injection Hb as <-; eexists _, _; (split; [by vm_compute|split; [by vm_compute|done]]).
Qed.
Lemma demo_sized : sized demo_blocks demo_dst demo_load.
Proof.
  intros [|[|]] b j Hb Hj; [..|discriminate]; injection Hb as <-; vm_compute in Hj; injection Hj as <-; eexists; (split; [reflexivity|by vm_compute]).
Qed.
Lemma demo_fair : fair_run Pipe.write_ops false 8 1 4096 demo_blocks 10 20 [] demo_ram demo_events (demo_ext 1 2 0).
Proof. unfold fair_run. apply quiet_fair; [apply demo_layout|]. by vm_compute. Qed.
Lemma live_migration_witness : exists ext' w', demo_migrate false demo_events = Some (ext', w') /\
  exists m0, forall m, (m0 <= m)%nat -> exists g d',
    loads (Pipe.read_ops 500) 8 [] demo_dst 4 m (qemu_fopen_ops w') demo_load = Some (g, d') /\ arrived demo_blocks demo_dst d' ext'.
Proof.
  pose proof (Pipe.read_source 500 eq_refl). pose proof Pipe.write_sink.
  destruct (live_migration Pipe.write_ops (Pipe.read_ops 500) id id 8 1 4096 [] demo_blocks demo_dst 10 20 eq_refl eq_refl demo_layout demo_same
    ltac:(cbn; lia) ltac:(vm_compute; lia) [] demo_ram demo_events (demo_ext 1 2 0) demo_load) as (ext' & w' & E & H2).
  - done.
  - by vm_compute.
  - by apply sizes_sized.
  - apply demo_sized.
  - done.
  - exact (proj1 (proj1 (fair_conditions _ _ _ _ _ _ _ _ _ _ _ _) demo_fair)).
  - exact (proj2 (proj1 (fair_conditions _ _ _ _ _ _ _ _ _ _ _ _) demo_fair)).
  - exists ext', w'. split; [exact E|]. destruct (H2 w' eq_refl) as (m0 & Hm). exists m0. intros m Hle. destruct (Hm m Hle) as (g & d' & E1 & _ & E2).
    exists g, d'. split; [exact E1|exact E2].
Defined.

(** A page is lost when it is the last one, not the first of its block, is
    written again after the first round has sent it, and nothing else is: the
    test for a full round comes after the bit was cleared and before the page
    is sent. *)
Definition demo_outcome (use_xbzrle : bool) (l : list event) : option bool :=
  '(ext, w) ← demo_migrate use_xbzrle l;
  '(_, d) ← loads (Pipe.read_ops 500) 8 [] demo_dst (2 + length (filter is_iterate l)) 20 (qemu_fopen_ops w) demo_load;
  Some (bool_decide (contents d = [ext 1; ext 0])).
Definition page_at_a_time : event := Iterate (fun _ => true).
Lemma last_page_lost :
  demo_outcome false [page_at_a_time; page_at_a_time; page_at_a_time; Guest (demo_ext 1 2 5) (replicate 8 255)] = Some true /\
  demo_outcome false [page_at_a_time; page_at_a_time; page_at_a_time; Guest (demo_ext 1 2 5) [0; 255; 0; 0; 0; 0; 0; 0]] = Some false.
Proof. by vm_compute. Qed.
(** With differences a page can arrive wrong: a zero page is sent without a word
    to the cache, and the next version is sent as a difference to what the
    cache holds. *)
Definition version_ext (p : list Z) (id : Z) : list Z := if id =? -2 then demo_page 5 else if id =? 0 then demo_page 1 else demo_page 2 ++ p.
Definition write_page (p : list Z) : list event := [Guest (version_ext p) [0; 255; 0; 0; 0; 0; 0; 0]; Pending 100000; Iterate (fun _ => false)].
Definition versions (ps : list (list Z)) : list event := Iterate (fun _ => false) :: ps ≫= write_page.
Lemma stale_difference :
  demo_outcome true (versions [demo_page 5; 6 :: replicate 1023 5]) = Some true /\
  demo_outcome true (versions [demo_page 5; demo_page 0; 6 :: replicate 1023 5]) = Some false.
Proof. by vm_compute. Qed.
End RamLive.
