(* ===== verification/Timers.v ===== *)
(** * The timer queues (qemu-timer.c)

    Each clock links its pending timers in the order they expire.  The model
    keeps the links: timers are cells of a heap that point to each other, and
    a list is walked with the address of the link it may have to change.
    [TimersProps] shows that the cells form sorted queues. *)

From stdpp Require Import gmap.
From S2P Require Import Prelude.

Module Timers.
#[local] Open Scope Z_scope.

(** Addresses of QEMUTimer objects, and of the three clocks [init_clocks] allocates. *)
Definition ptr := positive.
Inductive clock_id := rt_clock | vm_clock | host_clock.
#[export] Instance clock_id_dec : EqDecision clock_id.
Proof. solve_decision. Defined.

Definition INT64_MAX := 2 ^ 63 - 1.
Definition INT32_MAX := 2 ^ 31 - 1.

Section State.
(** [C] stands for the callback functions, [W] for the state only they use. *)
Context {C W : Type}.

Record QEMUTimer := mkTimer {
  expire_time : Z;
  clock : clock_id;
  cb : C;
  opaque : Z;
  next : option ptr;
  scale : Z
}.
#[export] Instance eta_timer : RecEta QEMUTimer := fun t =>
  mkTimer (expire_time t) (clock t) (cb t) (opaque t) (next t) (scale t).

(** [notified] lists the times the reset notifiers were called with. *)
Record QEMUClock := mkClock {
  active_timers : option ptr;
  last : Z;
  enabled : bool;
  notified : list Z
}.
#[export] Instance eta_clock : RecEta QEMUClock := fun c =>
  mkClock (active_timers c) (last c) (enabled c) (notified c).

(** struct qemu_alarm_timer; [rearms] lists the delays the host timer was
    armed with, the latest first. *)
Record qemu_alarm_timer := mkAlarm { expired : bool; pending : bool; rearms : list Z }.
#[export] Instance eta_alarm : RecEta qemu_alarm_timer := fun a =>
  mkAlarm (expired a) (pending a) (rearms a).

Record state := mkState {
  timers : gmap ptr QEMUTimer;
  rt : QEMUClock;
  vm : QEMUClock;
  host : QEMUClock;
  alarm : qemu_alarm_timer;
  world : W
}.
#[export] Instance eta_state : RecEta state := fun s =>
  mkState (timers s) (rt s) (vm s) (host s) (alarm s) (world s).

Definition get_clk (c : clock_id) (s : state) : QEMUClock :=
  match c with rt_clock => rt s | vm_clock => vm s | host_clock => host s end.
Definition set_clk (c : clock_id) (k : QEMUClock) (s : state) : state :=
  match c with
  | rt_clock => s.[rt := k]
  | vm_clock => s.[vm := k]
  | host_clock => s.[host := k]
  end.

(** What the host clocks read, and the virtual one (instruction counting is
    off, so it is [cpu_get_clock]). *)
Record times := mkTimes { get_clock : Z; cpu_get_clock : Z; get_clock_realtime : Z }.

Definition qemu_get_clock_ns (now : times) (c : clock_id) (s : state) : Z * state :=
  match c with
  | rt_clock => (get_clock now, s)
  | vm_clock => (cpu_get_clock now, s)
  | host_clock =>
      let n := get_clock_realtime now in
      let last' := last (host s) in
      let k := (host s).[last := n] in
      (n, s.[host := if n <? last' then k.[notified := notified k ++ [n]] else k])
  end.

(** ** Links

    The address of a link: the head of a queue or the [next] of a timer.  A
    timer that does not exist is the [None] of a dereference. *)
Inductive link := Active (c : clock_id) | Next (p : ptr).
#[export] Instance link_dec : EqDecision link.
Proof. solve_decision. Defined.

Definition deref (s : state) (pt : link) : option (option ptr) :=
  match pt with
  | Active c => Some (active_timers (get_clk c s))
  | Next p => next <$> timers s !! p
  end.
Definition store (s : state) (pt : link) (v : option ptr) : option state :=
  match pt with
  | Active c => Some (set_clk c (get_clk c s).[active_timers := v] s)
  | Next p => t ← timers s !! p; Some s.[timers := <[p := t.[next := v]]> (timers s)]
  end.

Definition qemu_timer_expired_ns (s : state) (timer_head : option ptr) (current_time : Z) : option bool :=
  match timer_head with
  | None => Some false
  | Some p => t ← timers s !! p; Some (expire_time t <=? current_time)
  end.

(** ** The host alarm *)

(** The delay until the head of a clock's queue, if that is smaller. *)
Definition nearer (now : times) (c : clock_id) (delta : Z) (s : state) : option (Z * state) :=
  if enabled (get_clk c s) then
    match active_timers (get_clk c s) with
    | None => Some (delta, s)
    | Some p =>
        t ← timers s !! p;
        let '(n, s) := qemu_get_clock_ns now c s in
        let d := s64 (expire_time t - n) in
        Some (if d <? delta then d else delta, s)
    end
  else Some (delta, s).
Definition qemu_next_alarm_deadline (now : times) (s : state) : option (Z * state) :=
  '(delta, s) ← nearer now vm_clock INT64_MAX s;
  '(delta, s) ← nearer now host_clock delta s;
  nearer now rt_clock delta s.
Definition qemu_rearm_alarm_timer (now : times) (s : state) : option state :=
  '(d, s) ← qemu_next_alarm_deadline now s;
  Some (if d <? INT64_MAX then s.[alarm := (alarm s).[rearms := d :: rearms (alarm s)]] else s).
Definition host_alarm_handler (s : state) : state :=
  s.[alarm := (alarm s).[expired := true].[pending := true]].

(** ** Clocks *)

Definition qemu_new_clock : QEMUClock := mkClock None (- 2 ^ 63) true [].
Definition init_clocks (a : qemu_alarm_timer) (w : W) : state :=
  mkState ∅ qemu_new_clock qemu_new_clock qemu_new_clock a w.
Definition qemu_clock_enable (now : times) (c : clock_id) (en : bool) (s : state) : option state :=
  let old := enabled (get_clk c s) in
  let s := set_clk c (get_clk c s).[enabled := en] s in
  if en && negb old then qemu_rearm_alarm_timer now s else Some s.
Definition qemu_clock_has_timers (c : clock_id) (s : state) : bool :=
  match active_timers (get_clk c s) with Some _ => true | None => false end.
Definition qemu_clock_expired (now : times) (c : clock_id) (s : state) : option (bool * state) :=
  match active_timers (get_clk c s) with
  | None => Some (false, s)
  | Some p =>
      t ← timers s !! p;
      let '(n, s) := qemu_get_clock_ns now c s in Some (expire_time t <? n, s)
  end.
Definition qemu_clock_deadline (now : times) (c : clock_id) (s : state) : option (Z * state) :=
  match active_timers (get_clk c s) with
  | None => Some (INT32_MAX, s)
  | Some p =>
      t ← timers s !! p;
      let '(n, s) := qemu_get_clock_ns now c s in
      let delta := s64 (expire_time t - n) in
      Some (if delta <? 0 then 0 else delta, s)
  end.

(** ** Timers *)

(** The new object is at [p], where there is none. *)
Definition qemu_new_timer (p : ptr) (c : clock_id) (scale : Z) (f : C) (o : Z) (s : state) : state :=
  s.[timers := <[p := mkTimer 0 c f o None scale]> (timers s)].
Definition qemu_free_timer (p : ptr) (s : state) : state := s.[timers := delete p (timers s)].

(** A walk meets each timer at most once. *)
Definition fuel (s : state) : nat := S (size (timers s)).

Fixpoint del_loop (n : nat) (s : state) (ts : ptr) (pt : link) : option state :=
  match n with
  | O => None
  | S n =>
      t ← deref s pt;
      match t with
      | None => Some s
      | Some t =>
          if decide (t = ts) then k ← timers s !! t; store s pt (next k)
          else del_loop n s ts (Next t)
      end
  end.
Definition qemu_del_timer (ts : ptr) (s : state) : option state :=
  t ← timers s !! ts; del_loop (fuel s) s ts (Active (clock t)).

Fixpoint find_loop (n : nat) (s : state) (expire : Z) (pt : link) : option link :=
  match n with
  | O => None
  | S n =>
      t ← deref s pt;
      e ← qemu_timer_expired_ns s t expire;
      match t with
      | Some t => if e : bool then find_loop n s expire (Next t) else Some pt
      | None => Some pt
      end
  end.
Definition qemu_mod_timer_ns (now : times) (ts : ptr) (expire : Z) (s : state) : option state :=
  s ← qemu_del_timer ts s;
  t ← timers s !! ts;
  pt ← find_loop (fuel s) s expire (Active (clock t));
  v ← deref s pt;
  let s := s.[timers := <[ts := t.[expire_time := expire].[next := v]]> (timers s)] in
  s ← store s pt (Some ts);
  if decide (pt = Active (clock t)) then
    if pending (alarm s) then Some s else qemu_rearm_alarm_timer now s
  else Some s.
Definition qemu_mod_timer (now : times) (ts : ptr) (expire : Z) (s : state) : option state :=
  t ← timers s !! ts; qemu_mod_timer_ns now ts (s64 (expire * scale t)) s.

Fixpoint pending_loop (n : nat) (s : state) (ts : ptr) (t : option ptr) : option bool :=
  match n with
  | O => None
  | S n =>
      match t with
      | None => Some false
      | Some t => if decide (t = ts) then Some true else k ← timers s !! t; pending_loop n s ts (next k)
      end
  end.
Definition qemu_timer_pending (ts : ptr) (s : state) : option bool :=
  t ← timers s !! ts; pending_loop (fuel s) s ts (active_timers (get_clk (clock t) s)).
Definition qemu_timer_expire_time_ns (ts : ptr) (s : state) : option Z :=
  t ← timers s !! ts;
  b ← qemu_timer_pending ts s;
  Some (if b : bool then u64 (expire_time t) else u64 (-1)).

(** ** Running *)

(** What a callback function does with its argument. *)
Context (run_cb : C -> Z -> state -> option state).

(** The timers run, in order, are a result of the loop. *)
Fixpoint run_loop (n : nat) (c : clock_id) (current_time : Z) (s : state) : option (state * list ptr) :=
  match n with
  | O => None
  | S n =>
      let ts := active_timers (get_clk c s) in
      e ← qemu_timer_expired_ns s ts current_time;
      match ts with
      | Some ts =>
          if e : bool then
            t ← timers s !! ts;
            s ← store s (Active c) (next t);
            s ← store s (Next ts) None;
            s ← run_cb (cb t) (opaque t) s;
            '(s, l) ← run_loop n c current_time s;
            Some (s, ts :: l)
          else Some (s, [])
      | None => Some (s, [])
      end
  end.
Definition qemu_run_timers (n : nat) (now : times) (c : clock_id) (s : state) : option (state * list ptr) :=
  if negb (enabled (get_clk c s)) then Some (s, [])
  else
    let '(current_time, s) := qemu_get_clock_ns now c s in
    run_loop n c current_time s.
Definition qemu_run_all_timers (n : nat) (now : times) (s : state) : option (state * list ptr) :=
  let s := s.[alarm := (alarm s).[pending := false]] in
  '(s, l1) ← qemu_run_timers n now vm_clock s;
  '(s, l2) ← qemu_run_timers n now rt_clock s;
  '(s, l3) ← qemu_run_timers n now host_clock s;
  s ← (if expired (alarm s) then qemu_rearm_alarm_timer now s.[alarm := (alarm s).[expired := false]]
       else Some s);
  Some (s, l1 ++ l2 ++ l3).
End State.
#[global] Arguments QEMUTimer : clear implicits.
#[global] Arguments state : clear implicits.
End Timers.
