(* ===== verification/TimersProps.v ===== *)
(** * The timer queues are sorted lists

    The cells of [Timers] form, for each clock, one list without cycles in
    the order of expiry; removing, arming and running timers act on these
    lists as their specification says, every walk ends, and a run of a clock
    calls the callbacks of the timers it takes off, in order. *)

From stdpp Require Import gmap sorting.
From S2P Require Import Prelude Timers.

Module TimersProps.
Import Timers.
#[local] Open Scope Z_scope.

Section Queues.
Context {C W : Type}.
Abbreviation state := (state C W).
Implicit Types (s : state) (pt : link) (l : list ptr) (q : clock_id -> list ptr).

(** ** Links and lists *)

(** The links from [pt] on go through the timers of [l]. *)
Fixpoint chain s pt l : Prop :=
  match l with
  | [] => deref s pt = Some None
  | t :: l => deref s pt = Some (Some t) /\ chain s (Next t) l
  end.
Definition links pt l : list link := pt :: (Next <$> l).
Lemma links_next p pt l : Next p ∈ links pt l <-> pt = Next p \/ p ∈ l.
Proof.
  unfold links. rewrite elem_of_cons, list_elem_of_fmap. split.
  - intros [->|(y & [= ->] & ?)]; auto.
  - intros [->|?]; [by left|]. right. eauto.
Qed.
Lemma links_active c pt l : Active c ∈ links pt l <-> pt = Active c.
Proof.
  unfold links. rewrite elem_of_cons, list_elem_of_fmap. split; [|by intros ->; left].
  intros [->|(y & E & ?)]; done.
Qed.

Lemma chain_frame s s' pt l : (forall k, k ∈ links pt l -> deref s' k = deref s k) -> chain s pt l -> chain s' pt l.
Proof.
  revert pt. induction l as [|t l IH]; intros pt H; cbn [chain].
  - intros <-. apply H. by left.
  - intros [E Hc]. split; [rewrite <- E; apply H; by left|]. apply IH; [|done]. intros k Hk. apply H. by right.
Qed.
Lemma chain_exists s pt l p : chain s pt l -> p ∈ l -> is_Some (timers s !! p).
Proof.
  revert pt. induction l as [|t l IH]; intros pt Hc Hp; [by apply not_elem_of_nil in Hp|].
  destruct Hc as [E Hc]. apply elem_of_cons in Hp as [->|Hp]; [|by eapply IH].
  assert (is_Some (deref s (Next t))) as Hs by (destruct l; cbn [chain] in Hc; [|destruct Hc as [Hc _]]; rewrite Hc; eauto).
  cbn [deref] in Hs. by apply fmap_is_Some in Hs.
Qed.

(** ** Stores *)

(** All but the links: the other fields of the timers, the clocks and the rest. *)
Definition attr s (p : ptr) : option (QEMUTimer C) := (fun t => t.[next := None]) <$> timers s !! p.
Record same s s' : Prop := {
  sm_attr p : attr s' p = attr s p;
  sm_clk c : (get_clk c s').[active_timers := None] = (get_clk c s).[active_timers := None];
  sm_alarm : alarm s' = alarm s;
  sm_world : world s' = world s
}.
#[export] Instance same_preorder : PreOrder same.
Proof.
  split; [by intros s; split|]. intros s1 s2 s3 [A B D E] [A' B' D' E']. split; congruence.
Qed.

Lemma get_set_clk c c' k s : get_clk c' (set_clk c k s) = if decide (c' = c) then k else get_clk c' s.
Proof. by destruct c, c'. Qed.
Lemma timers_set_clk c k s : timers (set_clk c k s) = timers s.
Proof. by destruct c. Qed.
Lemma link_store s pt v : is_Some (deref s pt) ->
  exists s', store s pt v = Some s' /\ deref s' pt = Some v /\ (forall k, k <> pt -> deref s' k = deref s k) /\ same s s'.
Proof.
  destruct pt as [c|p]; cbn [deref store].
  - intros _. eexists. split; [done|]. cbn [deref]. rewrite get_set_clk, decide_True by done. split; [done|]. split.
    + intros [c'|p'] Hne; cbn [deref]; [|by rewrite timers_set_clk].
      rewrite get_set_clk. destruct (decide (c' = c)) as [->|]; done.
    + split; [intros p; unfold attr; by rewrite timers_set_clk| |by destruct c..].
      intros c'. rewrite get_set_clk. by destruct (decide (c' = c)) as [->|].
  - intros [t Ht]%fmap_is_Some. rewrite Ht. cbn [mbind option_bind]. eexists. split; [done|]. cbn.
    rewrite lookup_insert_eq. split; [done|]. split.
    + intros [c'|p'] Hne; cbn; [by destruct c'|]. by rewrite lookup_insert_ne by congruence.
    + split; [|by intros []|done..]. intros p'. unfold attr. cbn.
      destruct (decide (p' = p)) as [->|]; [rewrite lookup_insert_eq, Ht; done|by rewrite lookup_insert_ne].
Qed.

Definition exp s p : Z := default 0 (expire_time <$> timers s !! p).
Definition clock_of s p : option clock_id := clock <$> timers s !! p.
Lemma exp_lookup s p t : timers s !! p = Some t -> exp s p = expire_time t.
Proof. intros E. unfold exp. by rewrite E. Qed.
Lemma attr_exp s s' p : attr s' p = attr s p -> exp s' p = exp s p.
Proof.
  unfold attr, exp. destruct (timers s' !! p) as [t|], (timers s !! p) as [t'|]; try done. cbn. intros [= E]. by rewrite E.
Qed.
Lemma attr_clock s s' p : attr s' p = attr s p -> clock_of s' p = clock_of s p.
Proof.
  unfold attr, clock_of. destruct (timers s' !! p) as [t|], (timers s !! p) as [t'|]; try done. cbn. intros [= E]. by f_equal.
Qed.

(** ** Walks *)

Lemma filter_not_in (ts : ptr) l : ts ∉ l -> filter (fun p => p <> ts) l = l.
Proof.
  induction l as [|t l IH]; [done|]. intros [Hne Hl]%not_elem_of_cons. rewrite filter_cons_True by congruence. by rewrite IH.
Qed.
Lemma del_loop_spec n s ts pt l : chain s pt l -> NoDup (links pt l) -> (length l < n)%nat ->
  exists s', del_loop n s ts pt = Some s' /\ chain s' pt (filter (fun p => p <> ts) l) /\
    (forall k, k ∉ links pt l -> deref s' k = deref s k) /\ same s s'.
Proof.
  revert pt l. induction n as [|n IH]; intros pt l Hc Hn Hl; [lia|]. cbn [del_loop]. destruct l as [|t l]; cbn [chain] in Hc.
  - rewrite Hc. cbn [mbind option_bind]. by exists s.
  - destruct Hc as [E Hc]. rewrite E. cbn [mbind option_bind]. apply NoDup_cons in Hn as [Hpt Hn].
    assert (is_Some (timers s !! t)) as [k Hk] by (apply (chain_exists s pt (t :: l)); [done|by left]).
    destruct (decide (t = ts)) as [->|Hne].
    + rewrite Hk. cbn [mbind option_bind]. destruct (link_store s pt (next k)) as (s' & -> & E' & Hf & Hs); [rewrite E; eauto|].
      exists s'. split; [done|]. rewrite filter_cons_False, filter_not_in by (intros ?; by apply NoDup_cons in Hn as [[] _]; apply list_elem_of_fmap; eauto || naive_solver).
      split; [|split; [intros; apply Hf; intros ->; by destruct H; left|done]].
      assert (deref s (Next ts) = Some (next k)) as Ek by (cbn [deref]; by rewrite Hk).
      assert (chain s' (Next ts) l) as Hc' by (apply (chain_frame s); [intros k' Hk'; apply Hf; intros ->; done|done]).
      destruct l as [|u l]; cbn [chain] in *; [congruence|]. destruct Hc, Hc'. split; [congruence|done].
    + destruct (IH (Next t) l Hc Hn ltac:(cbn in Hl; lia)) as (s' & -> & Hc' & Hf & Hs). exists s'. split; [done|].
      rewrite filter_cons_True by done. split; [|split; [|done]].
      * split; [|done]. rewrite Hf; [done|]. done.
      * intros k' Hk'. apply Hf. intros Hin. apply Hk'. by right.
Qed.

(** Where a timer that expires at [v] goes: behind those that do not expire later. *)
Fixpoint place (e : ptr -> Z) (v : Z) (ts : ptr) l : list ptr :=
  match l with
  | [] => [ts]
  | t :: l => if e t <=? v then t :: place e v ts l else ts :: t :: l
  end.
Lemma find_loop_spec n s v ts pt l : chain s pt l -> NoDup (links pt l) -> (length l < n)%nat ->
  exists pt' w, find_loop n s v pt = Some pt' /\ pt' ∈ links pt l /\ deref s pt' = Some w /\
    forall s', deref s' pt' = Some (Some ts) -> deref s' (Next ts) = Some w ->
      (forall k, k ∈ links pt l -> k <> pt' -> deref s' k = deref s k) -> chain s' pt (place (exp s) v ts l).
Proof.
  revert pt l. induction n as [|n IH]; intros pt l Hc Hn Hl; [lia|]. cbn [find_loop]. destruct l as [|t l]; cbn [chain] in Hc.
  - rewrite Hc. cbn [mbind option_bind qemu_timer_expired_ns]. exists pt, None. split; [done|]. split; [by left|]. split; [done|].
    intros s' H1 H2 _. done.
  - destruct Hc as [E Hc]. rewrite E. pose proof Hn as [Hpt Hn']%NoDup_cons.
    assert (is_Some (timers s !! t)) as [k Hk] by (apply (chain_exists s pt (t :: l)); [done|by left]).
    cbn [mbind option_bind qemu_timer_expired_ns]. rewrite Hk. cbn [mbind option_bind place]. rewrite (exp_lookup s t k Hk).
    destruct (expire_time k <=? v).
    + destruct (IH (Next t) l Hc Hn' ltac:(cbn in Hl; lia)) as (pt' & w & -> & Hin & Ew & Hplace). exists pt', w.
      split; [done|]. split; [by right|]. split; [done|]. intros s' H1 H2 H3. cbn [chain]. split.
      * rewrite <- E. apply H3; [by left|]. intros ->. done.
      * apply Hplace; [done..|]. intros k' Hk'. apply H3. by right.
    + exists pt, (Some t). split; [done|]. split; [by left|]. split; [done|]. intros s' H1 H2 H3. cbn [chain]. split; [done|]. split; [done|].
      apply (chain_frame s); [|done]. intros k' Hk'. apply H3; [by right|]. intros ->. done.
Qed.

Lemma place_elem e v ts l p : p ∈ place e v ts l <-> p = ts \/ p ∈ l.
Proof.
  induction l as [|t l IH]; cbn [place]; [by rewrite list_elem_of_singleton, elem_of_nil; naive_solver|].
  destruct (e t <=? v); rewrite !elem_of_cons, ?IH; naive_solver.
Qed.
Lemma place_nodup e v ts l : ts ∉ l -> NoDup l -> NoDup (place e v ts l).
Proof.
  induction l as [|t l IH]; cbn [place]; intros Hts Hn; [apply NoDup_singleton|].
  destruct (e t <=? v); [|by apply NoDup_cons]. apply NoDup_cons in Hn as [Ht Hn]. apply not_elem_of_cons in Hts as [Hne Hts].
  apply NoDup_cons. split; [|by apply IH]. rewrite place_elem. naive_solver.
Qed.
Abbreviation sorted e := (StronglySorted (fun p p' => e p <= e p')).
Lemma sorted_ext (e e' : ptr -> Z) l : (forall p, p ∈ l -> e' p = e p) -> sorted e l -> sorted e' l.
Proof.
  intros He. induction 1 as [|p l Hs IH Hl]; constructor.
  - apply IH. intros p' Hp. apply He. by right.
  - rewrite Forall_forall in *. intros p' Hp. rewrite !He by (by left || by right). by apply Hl.
Qed.
Lemma sorted_sublist e l k : l `sublist_of` k -> sorted e k -> sorted e l.
Proof.
  induction 1 as [|p l k Hlk IH|p l k Hlk IH]; intros Hk; [done| |]; apply StronglySorted_inv in Hk as [Hk Hp]; [|by apply IH].
  constructor; [by apply IH|]. rewrite Forall_forall in *. intros p' Hp'. apply Hp. by apply (sublist_subseteq l k).
Qed.
Lemma place_sorted e v ts l : e ts = v -> sorted e l -> sorted e (place e v ts l).
Proof.
  intros <-. induction 1 as [|p l Hs IH Hl]; cbn [place]; [repeat constructor|].
  destruct (Z.leb_spec (e p) (e ts)); constructor.
  - done.
  - rewrite Forall_forall in *. intros p' [->|Hp]%place_elem; [done|by apply Hl].
  - by constructor.
  - rewrite Forall_forall in *. intros p' [->|Hp]%elem_of_cons; [lia|]. specialize (Hl p' Hp). lia.
Qed.
Lemma place_ext e e' v ts l : (forall p, p ∈ l -> e' p = e p) -> place e' v ts l = place e v ts l.
Proof.
  induction l as [|t l IH]; intros He; [done|]. cbn [place]. rewrite He by by left.
  rewrite IH; [done|]. intros p Hp. apply He. by right.
Qed.

(** ** The queues of a state *)

Record repr s q : Prop := {
  re_chain c : chain s (Active c) (q c);
  re_clock c p : p ∈ q c -> clock_of s p = Some c;
  re_nodup c : NoDup (q c);
  re_sorted c : sorted (exp s) (q c)
}.
Definition upd q c l : clock_id -> list ptr := fun c' => if decide (c' = c) then l else q c'.
Lemma links_nodup c l : NoDup l -> NoDup (links (Active c) l).
Proof.
  intros Hn. apply NoDup_cons. split; [|by apply NoDup_fmap_2; [intros ?? [=]|]]. rewrite list_elem_of_fmap. naive_solver.
Qed.
Lemma links_disjoint s q c c' k : repr s q -> c <> c' -> k ∈ links (Active c) (q c) -> k ∉ links (Active c') (q c').
Proof.
  intros [_ Hc _ _] Hne. destruct k as [d|p].
  - rewrite !links_active. congruence.
  - rewrite !links_next. intros [|Hp] [|Hp']; try done. apply Hc in Hp, Hp'. congruence.
Qed.
Lemma queue_fuel s q c : repr s q -> (length (q c) < fuel s)%nat.
Proof.
  intros [Hc _ Hn _]. unfold fuel. apply Nat.lt_succ_r. rewrite <- size_dom, <- (size_list_to_set (C := gset ptr) (q c)) by done.
  apply subseteq_size. intros p. rewrite elem_of_list_to_set, elem_of_dom. by eapply chain_exists.
Qed.
(** A change of the links of one queue. *)
Lemma repr_upd s s' q c l : repr s q ->
  chain s' (Active c) l -> NoDup l -> (forall p, p ∈ l -> clock_of s' p = Some c) -> sorted (exp s') l ->
  (forall c' k, c' <> c -> k ∈ links (Active c') (q c') -> deref s' k = deref s k) ->
  (forall c' p, c' <> c -> p ∈ q c' -> attr s' p = attr s p) -> repr s' (upd q c l).
Proof.
  intros [Rc Rk Rn Rs] Hc Hn Hk Hs Hf Ha. unfold upd. split; intros c'; destruct (decide (c' = c)) as [->|Hne].
  - done.
  - apply (chain_frame s); [|done]. intros k Hk'. by apply (Hf c').
  - intros p Hp. by apply Hk.
  - intros p Hp. rewrite (attr_clock s s'); [by apply Rk|by apply (Ha c')].
  - done.
  - done.
  - done.
  - apply (sorted_ext (exp s)); [|done]. intros p Hp. apply attr_exp. by apply (Ha c').
Qed.

Lemma qemu_del_timer_queues s q ts c : repr s q -> clock_of s ts = Some c ->
  exists s', qemu_del_timer ts s = Some s' /\ repr s' (upd q c (filter (fun p => p <> ts) (q c))) /\ same s s'.
Proof.
  intros R Hts. unfold qemu_del_timer, clock_of in *. destruct (timers s !! ts) as [t|]; [|done]. injection Hts as <-.
  cbn [mbind option_bind]. set (c := clock t) in *. pose proof R as [Rc Rk Rn Rs].
  destruct (del_loop_spec (fuel s) s ts (Active c) (q c)) as (s' & -> & Hc & Hf & Hs);
    [done|by apply links_nodup|by eapply queue_fuel|].
  exists s'. split; [done|]. split; [|done]. apply (repr_upd s); [done|done|by apply NoDup_filter| | | |].
  - intros p [_ Hp]%list_elem_of_filter. rewrite (attr_clock s s'); [by apply Rk|apply Hs].
  - apply (sorted_ext (exp s)); [intros p _; apply attr_exp, Hs|]. by apply (sorted_sublist _ _ (q c)); [apply sublist_filter|].
  - intros c' k Hne Hk. apply Hf. by eapply (links_disjoint _ _ c' c).
  - intros c' p _ _. apply Hs.
Qed.

(** What re-arming the host timer leaves alone. *)
Record quiet s s' : Prop := {
  qu_timers : timers s' = timers s;
  qu_clk c : active_timers (get_clk c s') = active_timers (get_clk c s) /\ enabled (get_clk c s') = enabled (get_clk c s);
  qu_pending : pending (alarm s') = pending (alarm s);
  qu_world : world s' = world s
}.
#[export] Instance quiet_preorder : PreOrder quiet.
Proof.
  split; [by intros s; split|]. intros s1 s2 s3 [A B D E] [A' B' D' E']. split; try congruence.
  intros c. specialize (B c). specialize (B' c). split; by etransitivity; [apply B'|apply B].
Qed.
Lemma quiet_repr s s' q : quiet s s' -> repr s q -> repr s' q.
Proof.
  intros [Ht Hk _ _] [Rc Rk Rn Rs]. split; [| | done |].
  - intros c. apply (chain_frame s); [|done]. intros [c'|p] _; cbn [deref]; [f_equal; apply Hk|by rewrite Ht].
  - intros c p Hp. unfold clock_of. rewrite Ht. by apply Rk.
  - intros c. apply (sorted_ext (exp s)); [|done]. intros p _. unfold exp. by rewrite Ht.
Qed.
Lemma get_clock_quiet now c s : quiet s (snd (qemu_get_clock_ns now c s)).
Proof.
  destruct c; [done|done|]. cbn [qemu_get_clock_ns snd]. split; [done| |done..].
  intros []; [done|done|]. cbn. by destruct (_ <? _).
Qed.
Definition reading (now : times) (c : clock_id) : Z := match c with rt_clock => get_clock now | vm_clock => cpu_get_clock now | host_clock => get_clock_realtime now end.
Lemma reading_get now c s : fst (qemu_get_clock_ns now c s) = reading now c.
Proof. by destruct c. Qed.

Lemma head_exists s q c p : repr s q -> active_timers (get_clk c s) = Some p -> exists t l, timers s !! p = Some t /\ q c = p :: l.
Proof.
  intros [Rc _ _ _] E. specialize (Rc c). destruct (q c) as [|p' l] eqn:Eq; cbn [chain deref] in Rc; [congruence|].
  destruct Rc as [E' Hc]. rewrite E in E'. injection E' as <-.
  destruct (chain_exists s (Active c) (p :: l) p) as [t Ht]; [by split; [cbn; f_equal|]|by left|]. eauto.
Qed.
(** The delay until the first timer of an enabled clock. *)
Definition waits now s q c d : Prop :=
  enabled (get_clk c s) = true -> forall p, head (q c) = Some p -> d <= s64 (exp s p - reading now c).
Lemma nearer_spec now c d s q : repr s q ->
  exists d' s', nearer now c d s = Some (d', s') /\ quiet s s' /\ d' <= d /\ waits now s q c d'.
Proof.
  intros R. unfold nearer, waits. destruct (enabled (get_clk c s)); [|by exists d, s].
  destruct (active_timers (get_clk c s)) as [p|] eqn:E.
  - destruct (head_exists s q c p R E) as (t & l & Ht & Eq). rewrite Ht. cbn [mbind option_bind].
    pose proof (get_clock_quiet now c s) as Hq. rewrite <- (reading_get now c s). destruct (qemu_get_clock_ns now c s) as [n s']. cbn [fst snd] in *.
    eexists _, s'. split; [done|]. split; [done|]. rewrite Eq.
    destruct (Z.ltb_spec (s64 (expire_time t - n)) d); (split; [lia|]); intros _ p' [= <-]; rewrite (exp_lookup s p t Ht); lia.
  - exists d, s. split; [done|]. split; [done|]. split; [lia|]. intros _ p Hp.
    destruct R as [Rc _ _ _]. specialize (Rc c). destruct (q c); [done|]. destruct Rc as [Rc _]. cbn [deref] in Rc. congruence.
Qed.
Lemma quiet_waits now s s' q c d : quiet s s' -> waits now s' q c d -> waits now s q c d.
Proof.
  intros [Ht Hk _ _] Hw He p Hp. destruct (Hk c) as [_ Hen]. specialize (Hw ltac:(by rewrite Hen) p Hp).
  unfold exp in *. by rewrite Ht in Hw.
Qed.
Lemma waits_le now s q c d d' : d' <= d -> waits now s q c d -> waits now s q c d'.
Proof. intros Hd Hw He p Hp. specialize (Hw He p Hp). lia. Qed.
Lemma next_alarm_spec now s q : repr s q ->
  exists d s', qemu_next_alarm_deadline now s = Some (d, s') /\ quiet s s' /\ d <= INT64_MAX /\ forall c, waits now s q c d.
Proof.
  intros R. unfold qemu_next_alarm_deadline.
  destruct (nearer_spec now vm_clock INT64_MAX s q R) as (d1 & s1 & -> & Q1 & L1 & H1). cbn [mbind option_bind].
  destruct (nearer_spec now host_clock d1 s1 q (quiet_repr _ _ _ Q1 R)) as (d2 & s2 & -> & Q2 & L2 & H2). cbn [mbind option_bind].
  assert (quiet s s2) as Q2' by by transitivity s1.
  destruct (nearer_spec now rt_clock d2 s2 q (quiet_repr _ _ _ Q2' R)) as (d3 & s3 & -> & Q3 & L3 & H3).
  exists d3, s3. split; [done|]. split; [by transitivity s2|]. split; [lia|]. intros [].
  - by apply (quiet_waits now s s2).
  - apply (waits_le now s q _ d1); [lia|done].
  - apply (waits_le now s q _ d2); [lia|]. by apply (quiet_waits now s s1).
Qed.
Lemma rearm_spec now s q : repr s q -> exists s', qemu_rearm_alarm_timer now s = Some s' /\ quiet s s'.
Proof.
  intros R. unfold qemu_rearm_alarm_timer. destruct (next_alarm_spec now s q R) as (d & s1 & -> & Q & _ & _). cbn [mbind option_bind].
  eexists. split; [done|]. destruct (d <? INT64_MAX); [|done]. transitivity s1; [done|]. by split; [|intros []|..].
Qed.

(** ** Arming a timer *)

(** What a timer keeps for life: its clock, callback, argument and scale. *)
Definition ident s p : option (QEMUTimer C) := (fun t => t.[expire_time := 0]) <$> attr s p.
Lemma ident_timer s s' p t : ident s' p = ident s p -> timers s' !! p = Some t ->
  exists t', timers s !! p = Some t' /\ clock t' = clock t /\ opaque t' = opaque t /\ scale t' = scale t.
Proof.
  unfold ident, attr. intros A E. rewrite E in A. destruct (timers s !! p) as [t'|]; [|done].
  cbn in A. injection A as H1 H2 H3. eauto 10.
Qed.
Lemma attr_ident s s' p : attr s' p = attr s p -> ident s' p = ident s p.
Proof. unfold ident. by intros ->. Qed.
Lemma ident_some s s' p : ident s' p = ident s p -> is_Some (timers s' !! p) <-> is_Some (timers s !! p).
Proof.
  unfold ident, attr. destruct (timers s' !! p), (timers s !! p); cbn; done || by split.
Qed.
Definition attr_but ts s s' : Prop := forall p, p <> ts -> attr s' p = attr s p.
Lemma upd_upd q c l l' : forall c', upd (upd q c l) c l' c' = upd q c l' c'.
Proof. intros c'. unfold upd. by destruct (decide (c' = c)). Qed.
Lemma repr_ext s q q' : (forall c, q' c = q c) -> repr s q -> repr s q'.
Proof. intros E [Rc Rk Rn Rs]. split; [intros c|intros c p|intros c|intros c]; rewrite E; [apply Rc|apply Rk|apply Rn|apply Rs]. Qed.
(** The timer is linked in at the place found. *)
Lemma insert_spec s q c ts t v pt w : repr s q -> ts ∉ q c -> timers s !! ts = Some t -> clock t = c ->
  pt ∈ links (Active c) (q c) -> deref s pt = Some w ->
  (forall s', deref s' pt = Some (Some ts) -> deref s' (Next ts) = Some w ->
     (forall k, k ∈ links (Active c) (q c) -> k <> pt -> deref s' k = deref s k) -> chain s' (Active c) (place (exp s) v ts (q c))) ->
  exists s', store s.[timers := <[ts := t.[expire_time := v].[next := w]]> (timers s)] pt (Some ts) = Some s' /\
    repr s' (upd q c (place (exp s) v ts (q c))) /\ exp s' ts = v /\ clock_of s' ts = Some c /\ ident s' ts = ident s ts /\ attr_but ts s s' /\
    alarm s' = alarm s /\ world s' = world s /\ forall c', enabled (get_clk c' s') = enabled (get_clk c' s).
Proof.
  intros R Hl Et Ec Hpt Ew Hplace. set (s2 := s.[timers := _]).
  assert (Next ts ∉ links (Active c) (q c)) as Hnt by (rewrite links_next; naive_solver).
  assert (forall k, k <> Next ts -> deref s2 k = deref s k) as D2.
  { intros [c'|p] Hne; cbn [deref]; [by destruct c'|]. cbn. by rewrite lookup_insert_ne by congruence. }
  assert (attr_but ts s s2) as A2 by (intros p Hp; unfold attr; cbn; by rewrite lookup_insert_ne).
  assert (pt <> Next ts) as Hpt2 by (intros ->; done).
  destruct (link_store s2 pt (Some ts)) as (s3 & -> & E3 & D3 & S3); [rewrite D2, Ew by done; eauto|]. exists s3. split; [done|].
  assert (attr_but ts s s3) as A3 by (intros p Hp; rewrite <- A2 by done; apply S3).
  assert (exp s3 ts = v) as Ev by (rewrite (attr_exp s2 s3) by apply S3; unfold exp; cbn; by rewrite lookup_insert_eq).
  assert (clock_of s3 ts = Some c) as Ek by (rewrite (attr_clock s2 s3) by apply S3; unfold clock_of; cbn; by rewrite lookup_insert_eq, <- Ec).
  assert (ident s3 ts = ident s ts) as Ei.
  { unfold ident. rewrite (sm_attr _ _ S3 ts). unfold attr. cbn. by rewrite lookup_insert_eq, Et. }
  pose proof R as [Rc Rk Rn Rs].
  assert (forall p, p ∈ q c -> exp s3 p = exp s p) as He by (intros p Hp; apply attr_exp, A3; by intros ->).
  split; [|do 4 (split; [done|]); split; [by rewrite (sm_alarm _ _ S3)|]; split; [by rewrite (sm_world _ _ S3)|]].
  - apply (repr_upd s); [done| |by apply place_nodup| | | |].
    + apply Hplace; [done| |].
      * rewrite D3 by done. cbn. by rewrite lookup_insert_eq.
      * intros k Hk Hne. rewrite D3, D2 by (done || by intros ->). done.
    + intros p [->|Hp]%place_elem; [done|]. rewrite (attr_clock s); [by apply Rk|]. apply A3. by intros ->.
    + rewrite <- (place_ext _ (exp s3)) by done. apply place_sorted; [done|]. by apply (sorted_ext (exp s)).
    + intros c' k Hne Hk. rewrite D3, D2; [done| |].
      * intros ->. apply links_next in Hk as [|Hk]; [done|]. apply Rk in Hk. unfold clock_of in Hk. rewrite Et in Hk. injection Hk. congruence.
      * intros ->. by destruct (links_disjoint s q c' c pt R Hne Hk).
    + intros c' p Hne Hp. apply A3. intros ->. apply Rk in Hp. unfold clock_of in Hp. rewrite Et in Hp. injection Hp. congruence.
  - intros c'. pose proof (f_equal enabled (sm_clk _ _ S3 c')) as E. cbn in E. rewrite E. by destruct c'.
Qed.
Lemma qemu_mod_timer_queues now s q ts c v : repr s q -> clock_of s ts = Some c ->
  exists s', qemu_mod_timer_ns now ts v s = Some s' /\
    repr s' (upd q c (place (exp s) v ts (filter (fun p => p <> ts) (q c)))) /\
    exp s' ts = v /\ clock_of s' ts = Some c /\ ident s' ts = ident s ts /\ attr_but ts s s' /\ world s' = world s /\
    forall c', enabled (get_clk c' s') = enabled (get_clk c' s).
Proof.
  intros R Hts. unfold qemu_mod_timer_ns.
  destruct (qemu_del_timer_queues s q ts c R Hts) as (s1 & -> & R1 & S1). cbn [mbind option_bind].
  set (l := filter (fun p => p <> ts) (q c)) in *. set (q1 := upd q c l) in *.
  assert (q1 c = l) as Eq by (unfold q1, upd; by rewrite decide_True).
  assert (ts ∉ l) as Hl by (intros [[] _]%list_elem_of_filter; done).
  assert (clock_of s1 ts = Some c) as Hts1 by (rewrite (attr_clock s s1); [done|apply S1]).
  unfold clock_of in Hts1. destruct (timers s1 !! ts) as [t|] eqn:Et; [|done]. injection Hts1 as Ec. cbn [mbind option_bind]. rewrite Ec.
  pose proof (queue_fuel s1 q1 c R1) as Hf. pose proof R1 as [Rc Rk Rn Rs]. specialize (Rc c). specialize (Rn c). specialize (Rs c). rewrite Eq in *.
  destruct (find_loop_spec (fuel s1) s1 v ts (Active c) l) as (pt & w & -> & Hpt & Ew & Hplace); [done|by apply links_nodup|done|].
  cbn [mbind option_bind]. rewrite Ew. cbn [mbind option_bind].
  destruct (insert_spec s1 q1 c ts t v pt w) as (s2 & -> & R2 & E2 & K2 & I2 & A2 & L2 & W2 & N2); rewrite ?Eq; [done..|].
  assert (repr s2 (upd q c (place (exp s) v ts l))) as R2'.
  { apply (repr_ext _ _ _ (fun c' => eq_sym (upd_upd q c l _ c'))). rewrite Eq in R2. fold q1.
    rewrite (place_ext (exp s1)); [done|]. intros p _. symmetry. apply attr_exp, S1. }
  assert (ident s2 ts = ident s ts) as I2' by (rewrite I2; unfold ident; by rewrite (sm_attr _ _ S1)).
  assert (attr_but ts s s2) as A2' by (intros p Hp; rewrite A2 by done; apply S1).
  assert (forall c', enabled (get_clk c' s2) = enabled (get_clk c' s)) as N2'.
  { intros c'. rewrite N2. by pose proof (f_equal enabled (sm_clk _ _ S1 c')). }
  assert (world s2 = world s) as W2' by (by rewrite W2, (sm_world _ _ S1)). cbn [mbind option_bind].
  assert (exists s3, (if decide (pt = Active c) is left _ then if pending (alarm s2) then Some s2 else qemu_rearm_alarm_timer now s2 else Some s2) = Some s3
    /\ quiet s2 s3) as (s3 & -> & Q).
  { destruct (decide _); [|by exists s2]. destruct (pending _); [by exists s2|]. by eapply rearm_spec. }
  exists s3. split; [done|]. split; [by apply (quiet_repr s2)|]. pose proof Q as [Qt Qk _ Qw].
  unfold ident, exp, clock_of in *. rewrite Qt, Qw. do 2 (split; [done|]). split; [unfold attr in *; by rewrite Qt|]. split; [|split; [done|]].
  - intros p Hp. unfold attr in *. rewrite Qt. by apply A2'.
  - intros c'. destruct (Qk c') as [_ ->]. done.
Qed.

Lemma pending_loop_spec n s ts pt l h : deref s pt = Some h -> chain s pt l -> (length l < n)%nat ->
  pending_loop n s ts h = Some (bool_decide (ts ∈ l)).
Proof.
  revert pt l h. induction n as [|n IH]; intros pt l h Eh Hc Hl; [lia|]. cbn [pending_loop]. destruct l as [|t l]; cbn [chain] in Hc.
  - assert (h = None) as -> by congruence. done.
  - pose proof Hc as [E Hc']. assert (h = Some t) as -> by congruence.
    destruct (chain_exists s pt (t :: l) t) as [k Hk]; [done|by left|].
    destruct (decide (t = ts)) as [->|Hne]; [f_equal; symmetry; apply bool_decide_eq_true; by left|].
    rewrite Hk. cbn [mbind option_bind]. rewrite (IH (Next t) l); [|cbn [deref]; by rewrite Hk|done|cbn in Hl; lia].
    f_equal. apply bool_decide_ext. rewrite elem_of_cons. naive_solver.
Qed.
Lemma qemu_timer_pending_queues s q ts c : repr s q -> clock_of s ts = Some c ->
  qemu_timer_pending ts s = Some (bool_decide (ts ∈ q c)).
Proof.
  intros R Hts. unfold qemu_timer_pending, clock_of in *. destruct (timers s !! ts) as [t|]; [|done]. injection Hts as <-.
  cbn [mbind option_bind]. eapply pending_loop_spec; [|apply R|by apply (queue_fuel s q)]. done.
Qed.

(** ** Running the timers that are due *)

Section Run.
Context (run_cb : C -> Z -> state -> option state) (c : clock_id) (cur : Z).

Definition due s l : list ptr := filter (fun p => exp s p <= cur) l.
(** The function of a timer and its argument. *)
Definition call s p : option (C * Z) := (fun t => (cb t, opaque t)) <$> timers s !! p.
Lemma call_ident s s' p : ident s' p = ident s p -> call s' p = call s p.
Proof.
  unfold ident, attr, call. destruct (timers s' !! p), (timers s !! p); cbn; try done. intros E. injection E as _ -> -> _. done.
Qed.
Lemma call_same s s' p : same s s' -> call s' p = call s p.
Proof. intros S. apply call_ident, attr_ident, S. Qed.
(** What a callback may do, when started in a state that satisfies [J]: it may
    remove timers, arm timers for later than the time of the run, and create
    new ones; the timers that are still due keep their functions. *)
Record callbacks_ok (J : state -> Prop) : Prop := {
  co_same s s' : (forall p, attr s' p = attr s p) -> world s' = world s -> J s -> J s';
  co_run s q p t : J s -> repr s q -> timers s !! p = Some t -> clock t = c -> p ∉ q c ->
    exists s' q', run_cb (cb t) (opaque t) s = Some s' /\ J s' /\ repr s' q' /\
      due s' (q' c) `sublist_of` due s (q c) /\ forall p', p' ∈ due s' (q' c) -> ident s' p' = ident s p'
}.
(** A log of the calls, which each callback extends by its own. *)
Definition logs (log : W -> list (C * Z)) : Prop := forall f o s s', run_cb f o s = Some s' -> log (world s') = log (world s) ++ [(f, o)].

(** The head is unlinked before its callback runs. *)
Lemma pop_spec s q p l : repr s q -> q c = p :: l ->
  exists t s1 s2, timers s !! p = Some t /\ store s (Active c) (next t) = Some s1 /\ store s1 (Next p) None = Some s2 /\
    repr s2 (upd q c l) /\ same s s2.
Proof.
  intros R Eq. pose proof R as [Rc Rk Rn Rs]. specialize (Rc c). specialize (Rn c). specialize (Rs c). rewrite Eq in *.
  destruct (chain_exists s (Active c) (p :: l) p) as [t Ht]; [done|by left|]. destruct Rc as [E Hc].
  destruct (link_store s (Active c) (next t)) as (s1 & E1 & D1 & F1 & S1); [by rewrite E|].
  destruct (link_store s1 (Next p) None) as (s2 & E2 & D2 & F2 & S2); [rewrite F1 by done; cbn [deref]; by rewrite Ht|].
  exists t, s1, s2. do 3 (split; [done|]). assert (same s s2) as S by by transitivity s1. split; [|done].
  apply NoDup_cons in Rn as [Hp Rn]. apply StronglySorted_inv in Rs as [Rs _].
  assert (deref s (Next p) = Some (next t)) as Et by (cbn [deref]; by rewrite Ht).
  apply (repr_upd s); [done| |done| | | |].
  - assert (forall k, k ∈ Next <$> l -> deref s2 k = deref s k) as F.
    { intros k (p' & -> & Hp')%list_elem_of_fmap. rewrite F2, F1; [done|done|]. intros [= ->]. done. }
    destruct l as [|p' l]; cbn [chain] in *; [rewrite F2 by done; congruence|]. destruct Hc as [E' Hc].
    split; [rewrite F2 by done; congruence|]. by apply (chain_frame s).
  - intros p' Hp'. rewrite (attr_clock s s2) by apply S. apply Rk. rewrite Eq. by right.
  - apply (sorted_ext (exp s)); [|done]. intros p' _. apply attr_exp, S.
  - intros c' k Hne Hk. rewrite F2, F1; [done| |].
    + intros ->. apply links_active in Hk. congruence.
    + intros ->. apply links_next in Hk as [|Hk]; [done|]. apply Rk in Hk. rewrite (Rk c) in Hk by (rewrite Eq; by left). congruence.
  - intros c' p' _ _. apply S.
Qed.
Lemma due_head s q p l : repr s q -> q c = p :: l -> cur < exp s p -> due s (q c) = [].
Proof.
  intros R Eq Hlt. pose proof (re_sorted _ _ R c) as Rs. rewrite Eq in *. apply StronglySorted_inv in Rs as [_ Hp].
  unfold due. rewrite filter_cons_False by lia. clear Eq. induction Hp as [|p' l' Hle _ IH]; [done|]. rewrite filter_cons_False by lia. exact IH.
Qed.
Lemma due_same s s' l : same s s' -> due s' l = due s l.
Proof.
  intros S. unfold due. induction l as [|p l IH]; [done|]. rewrite !filter_cons, (attr_exp s s') by apply S. by rewrite IH.
Qed.
Lemma upd_at q l : upd q c l c = l.
Proof. unfold upd. by rewrite decide_True. Qed.
Lemma omap_call s s' l : (forall p, p ∈ l -> call s' p = call s p) -> omap (call s') l = omap (call s) l.
Proof.
  induction l as [|p l IH]; intros H; [done|]. cbn. rewrite (H p) by by left. rewrite IH; [done|]. intros p' Hp'. apply H. by right.
Qed.
Lemma run_loop_spec J log n s q : callbacks_ok J -> logs log -> J s -> repr s q -> (length (due s (q c)) < n)%nat ->
  exists s' q' tr, run_loop run_cb n c cur s = Some (s', tr) /\ J s' /\ repr s' q' /\ due s' (q' c) = [] /\
    tr `sublist_of` due s (q c) /\ log (world s') = log (world s) ++ omap (call s) tr.
Proof.
  intros [Hsame Hrun] Hlog. revert s q. induction n as [|n IH]; intros s q HJ R Hn; [lia|]. cbn [run_loop].
  pose proof (re_chain _ _ R c) as Rc. destruct (q c) as [|p l] eqn:Eq; cbn [chain deref] in Rc.
  - injection Rc as ->. cbn [qemu_timer_expired_ns mbind option_bind]. exists s, q, []. rewrite Eq, app_nil_r. do 4 (split; [done|]). split; [apply sublist_nil_l|done].
  - destruct Rc as [[= E] _]. rewrite E. destruct (pop_spec s q p l R Eq) as (t & s1 & s2 & Ht & E1 & E2 & R2 & S2).
    cbn [qemu_timer_expired_ns mbind option_bind]. rewrite Ht. cbn [mbind option_bind]. destruct (Z.leb_spec (expire_time t) cur) as [Hle|Hlt].
    2: { exists s, q, []. rewrite <- Eq, app_nil_r. split; [done|]. split; [done|]. split; [done|].
         rewrite (due_head s q p l) by (done || rewrite (exp_lookup s p t); done). split; [done|]. split; [apply sublist_nil_l|done]. }
    rewrite E1. cbn [mbind option_bind]. rewrite E2. cbn [mbind option_bind].
    assert (due s (p :: l) = p :: due s l) as Ed by (unfold due; rewrite filter_cons_True by (rewrite (exp_lookup s p t); done); done).
    rewrite Ed in *. pose proof (re_nodup _ _ R c) as Rn. rewrite Eq in Rn. apply NoDup_cons in Rn as [Hp _].
    pose proof (sm_attr _ _ S2 p) as Ha. unfold attr in Ha. rewrite Ht in Ha. destruct (timers s2 !! p) as [t2|] eqn:Ht2; [|done].
    cbn in Ha. injection Ha as _ Ek Ecb Eop _. pose proof (re_clock _ _ R c p) as Hk. rewrite Eq in Hk. specialize (Hk (list_elem_of_here _ _)).
    unfold clock_of in Hk. rewrite Ht in Hk. injection Hk as Hk.
    destruct (Hrun s2 (upd q c l) p t2) as (s3 & q3 & E3 & J3 & R3 & D3 & I3); [by apply (Hsame s); [apply S2..|]|done|done|congruence|by rewrite upd_at|].
    pose proof (Hlog _ _ _ _ E3) as L3. rewrite <- Ecb, <- Eop, E3. cbn [mbind option_bind]. rewrite upd_at, (due_same s s2 l S2) in D3.
    destruct (IH s3 q3 J3 R3) as (s' & q' & tr & -> & J' & R' & D' & Htr & L').
    { apply sublist_length in D3. cbn in Hn. lia. }
    cbn [mbind option_bind]. exists s', q', (p :: tr). do 4 (split; [done|]). split; [apply sublist_skip; by transitivity (due s3 (q3 c))|].
    rewrite L', L3, (sm_world _ _ S2), <- app_assoc. f_equal. cbn [omap list_omap]. unfold call at 2. rewrite Ht. cbn.
    rewrite Ecb, Eop. f_equal. apply omap_call. intros p' Hp'. rewrite <- (call_same s s2) by done. apply call_ident, I3.
    by eapply sublist_subseteq.
Qed.
End Run.

(** ** Creation and removal *)

Lemma repr_init a w : repr (init_clocks a w) (fun _ => []).
Proof.
  split; [by intros []|intros c p Hp; by apply not_elem_of_nil in Hp|intros c; apply NoDup_nil_2|constructor].
Qed.
Lemma repr_new s q p c sc f o : repr s q -> timers s !! p = None -> repr (qemu_new_timer p c sc f o s) q.
Proof.
  intros R Hp. pose proof R as [Rc Rk Rn Rs].
  assert (forall c' p', p' ∈ q c' -> p' <> p) as Hne.
  { intros c' p' Hp' ->. destruct (chain_exists _ _ _ _ (Rc c') Hp') as [? E]. congruence. }
  assert (forall c' p', p' ∈ q c' -> timers (qemu_new_timer p c sc f o s) !! p' = timers s !! p') as Ht.
  { intros c' p' Hp'. cbn. apply lookup_insert_ne. by apply not_eq_sym, (Hne c'). }
  split; [| | done |].
  - intros c'. apply (chain_frame s); [|done]. intros [d|p'] Hk; [by destruct d|]. apply links_next in Hk as [|Hk]; [done|].
    cbn [deref]. by rewrite (Ht c').
  - intros c' p' Hp'. unfold clock_of. rewrite (Ht c') by done. by apply Rk.
  - intros c'. apply (sorted_ext (exp s)); [|done]. intros p' Hp'. unfold exp. by rewrite (Ht c').
Qed.
End Queues.

Section Theorems.
Context {C W : Type}.
Abbreviation state := (state C W).



(** The host alarm is armed for no later than the first expiry of any enabled clock: the delay computed is
    at most the time left of each of their pending timers. *)
Theorem alarm_in_time (now : times) (s : state) q :
  repr s q -> (forall c, 0 <= reading now c < 2 ^ 63) -> (forall c p, p ∈ q c -> 0 <= exp s p < 2 ^ 63) ->
  exists d s', qemu_next_alarm_deadline now s = Some (d, s') /\ quiet s s' /\
    forall c p, enabled (get_clk c s) = true -> p ∈ q c -> d <= exp s p - reading now c.
Proof.
  intros R Hr Hb. destruct (next_alarm_spec now s q R) as (d & s' & E & Q & _ & Hw). exists d, s'. do 2 (split; [done|]).
  intros c p He Hp. specialize (Hw c He). specialize (Hr c). pose proof (re_sorted _ _ R c) as Rs.
  destruct (q c) as [|p0 l] eqn:Eq; [by apply not_elem_of_nil in Hp|]. specialize (Hw p0 eq_refl).
  pose proof (Hb c p0 ltac:(rewrite Eq; by left)). unfold s64 in Hw. rewrite sN_small in Hw by (change (64 - 1) with 63; lia).
  apply StronglySorted_inv in Rs as [_ Rs]. rewrite Forall_forall in Rs.
  apply elem_of_cons in Hp as [->|Hp]; [done|]. specialize (Rs p Hp). cbn beta in Rs. lia.
Qed.
End Theorems.

(** ** Witnesses *)

Section Rearm.
Context {C : Type}.
Abbreviation state := (state C (list (C * Z))).
(** A callback that arms its own timer again and notes its call. *)
Definition rearm_cb (now : times) (v : Z) (f : C) (o : Z) (s : state) : option state :=
  s' ← qemu_mod_timer_ns now (Z.to_pos o) v s; Some s'.[world := world s ++ [(f, o)]].
Definition own_opaque (s : state) : Prop := forall p t, timers s !! p = Some t -> opaque t = Zpos p.
Lemma own_ident (s s' : state) : (forall p, ident s' p = ident s p) -> own_opaque s -> own_opaque s'.
Proof. intros I Ho p t (t' & Ht' & _ & <- & _)%(ident_timer s s'); [|apply I]. by apply Ho. Qed.
Lemma due_place cur (s s' : state) e v p l : cur < exp s' p -> (forall p', p' ∈ l -> exp s' p' = exp s p') ->
  due cur s' (place e v p l) = due cur s l.
Proof.
  intros Hp. unfold due. induction l as [|p' l IH]; intros He; cbn [place]; [by rewrite filter_cons_False by lia|].
  destruct (e p' <=? v); rewrite ?(filter_cons_False _ p) by lia; rewrite !filter_cons, !He by by left.
  - rewrite IH; [done|]. intros p'' Hp''. apply He. by right.
  - assert (due cur s' l = due cur s l) as E; [|unfold due in E; by rewrite E]. clear IH. unfold due.
    induction l as [|p'' l IH]; [done|]. rewrite !filter_cons, He by (right; by left). rewrite IH; [done|].
    intros p3 [->|Hp3]%elem_of_cons; apply He; [by left|by do 2 right].
Qed.
Lemma repr_world (s : state) q w : repr s q -> repr s.[world := w] q.
Proof.
  intros [Rc Rk Rn Rs]. split; [|done|done|done]. intros c. apply (chain_frame s); [|done]. by intros [[]|p] _.
Qed.
Lemma rearm_callbacks now v c cur : cur < v -> callbacks_ok (rearm_cb now v) c cur own_opaque.
Proof.
  intros Hv. split.
  - intros s s' A _. apply own_ident. intros p. by apply attr_ident.
  - intros s q p t Ho R Ht Hc Hp. unfold rearm_cb. rewrite (Ho p t Ht). cbn [Z.to_pos].
    destruct (qemu_mod_timer_queues now s q p c v R) as (s' & -> & R' & X & _ & I & A & _); [unfold clock_of; rewrite Ht; by subst c|].
    assert (forall p', ident s' p' = ident s p') as Hi.
    { intros p'. destruct (decide (p' = p)) as [->|]; [done|by apply attr_ident, A]. }
    eexists _, _. split; [done|]. split; [|split; [exact (repr_world s' _ _ R')|split]].
    + by apply (own_ident s); [intros p'; rewrite <- Hi|].
    + rewrite upd_at, filter_not_in by done. change (due cur ?x (place ?e v p (q c))) with (due cur s' (place e v p (q c))).
      rewrite (due_place _ s); [done|lia|]. intros p' Hp'. apply attr_exp, A. by intros ->.
    + intros p' _. by rewrite <- Hi.
Qed.
Lemma rearm_logs now v : logs (rearm_cb now v) (fun w => w).
Proof.
  intros f o s s' H. unfold rearm_cb in H. by apply bind_Some in H as (s1 & _ & [= <-]).
Qed.
End Rearm.

(** Two timers of the virtual clock, pending for 100 and 200. *)
Definition two_timers : state unit (list (unit * Z)) :=
  mkState {[ 1%positive := mkTimer 100 vm_clock tt 1 (Some 2%positive) 1; 2%positive := mkTimer 200 vm_clock tt 2 None 1 ]}
    qemu_new_clock (mkClock (Some 1%positive) 0 true []) qemu_new_clock (mkAlarm false false []) [].
Definition two_queue (c : clock_id) : list ptr := match c with vm_clock => [1%positive; 2%positive] | _ => [] end.
Lemma two_repr : repr two_timers two_queue.
Proof.
  split; [by intros []| | |].
  - intros [] p; cbn [two_queue]; [by intros ?%not_elem_of_nil| |by intros ?%not_elem_of_nil].
    by intros [->|[->|?%not_elem_of_nil]%elem_of_cons]%elem_of_cons.
  - intros []; cbn [two_queue]; [apply NoDup_nil_2|apply (bool_decide_unpack _); by vm_compute|apply NoDup_nil_2].
  - intros []; cbn [two_queue]; [constructor| |constructor]. repeat constructor. by vm_compute.
Qed.
Lemma two_opaque : own_opaque two_timers.
Proof.
  intros p t. cbn [two_timers timers]. intros [[<- <-]|[_ Ht]]%lookup_insert_Some; [done|]. by apply lookup_singleton_Some in Ht as [<- <-].
Qed.

Lemma alarm_in_time_witness :
  exists d s', qemu_next_alarm_deadline (mkTimes 0 50 0) two_timers = Some (d, s') /\ d <= 100 - 50.
Proof.
  destruct (alarm_in_time (mkTimes 0 50 0) two_timers two_queue two_repr) as (d & s' & E & _ & H).
  - by intros [].
  - intros [] p; cbn [two_queue]; [by intros ?%not_elem_of_nil| |by intros ?%not_elem_of_nil].
    by intros [->|[->|?%not_elem_of_nil]%elem_of_cons]%elem_of_cons.
  - exists d, s'. split; [done|]. apply (H vm_clock 1%positive); [done|by left].
Defined.
End TimersProps.
