(* ===== verification/PtimerClock.v ===== *)
(** * Countdown timers on the virtual clock (hw/core/ptimer.c, qemu-timer.c)

    [Ptimer] keeps of its host timer the time it is armed for.  Here the host
    timers are those of [Timers], on the queue of the virtual clock, with
    [ptimer_tick] as their callback: running the queue fires the ptimers as
    [Ptimer.fire] says, and comes to an end however late it is run. *)

From stdpp Require Import gmap.
From S2P Require Import Prelude Ptimer Timers TimersProps.

Module PtimerClock.
Import Timers TimersProps.
#[local] Open Scope Z_scope.
#[local] Existing Instances Ptimer.eta_ptimer Timers.eta_state.

(** The ptimer whose host timer is at [p] is [world s p]. *)
Abbreviation state := (state unit (ptr -> Ptimer.ptimer_state)).
Implicit Types (s : state) (q : clock_id -> list ptr).

Definition set_ptimer s p w : state := s.[world := fun p' => if decide (p' = p) then w else world s p'].
(** [ptimer_tick] called by the queue; what it does with the host timer last is
    to arm it. *)
Definition tick_cb (now : times) (_ : unit) (opaque : Z) s : option state :=
  let p := Z.to_pos opaque in
  let w := Ptimer.ptimer_tick (world s p).[Ptimer.timer := None] in
  let s := set_ptimer s p w in
  match Ptimer.timer w with
  | Some e => qemu_mod_timer now p e s
  | None => Some s
  end.

(** A ptimer set up with a frequency and a limit, whose rounds take at most [B]. *)
Record running (B : Z) (w : Ptimer.ptimer_state) : Prop := {
  ru_period : Ptimer.period_ok w;
  ru_nonzero : Ptimer.period w <> 0;
  ru_limit : 0 < Ptimer.limit w < 2 ^ 64;
  ru_frac : Ptimer.period_frac w * Ptimer.limit w < 2 ^ 64;
  ru_span : Ptimer.span w (Ptimer.limit w) <= B;
  ru_timer e : Ptimer.timer w = Some e ->
    (Ptimer.enabled w = 1 \/ Ptimer.enabled w = 2) /\ Ptimer.next_event w = e /\ 0 <= e
}.

Lemma span_pos B w : running B w -> 1 <= Ptimer.span w (Ptimer.limit w).
Proof.
  intros [(Hp & Hf & _) Hn Hl _ _ _]. rewrite Ptimer.span_split by lia.
  assert (0 <= Ptimer.period_frac w * Ptimer.limit w / 2 ^ 32) by (apply Z.div_pos; destruct Hf; nia). nia.
Qed.
Lemma tick_frame w : let w' := Ptimer.ptimer_tick w in
  Ptimer.limit w' = Ptimer.limit w /\ Ptimer.period w' = Ptimer.period w /\ Ptimer.period_frac w' = Ptimer.period_frac w.
Proof.
  unfold Ptimer.ptimer_tick. destruct (Ptimer.ptimer_trigger_frame w) as (E1 & E2 & E3 & E4 & E5 & E6 & E7).
  destruct (_ =? 2); [cbn; auto|].
  destruct (Ptimer.reload_frame (Ptimer.ptimer_trigger w).[Ptimer.delta := 0]) as (_ & F2 & F3 & F4 & _).
  cbn in F2, F3, F4. by rewrite F2, F3, F4.
Qed.
Lemma tick_running B w e cur : running B w -> Ptimer.timer w = Some e -> e <= cur -> cur + B < 2 ^ 63 ->
  let w' := Ptimer.ptimer_tick w.[Ptimer.timer := None] in
  running B w' /\ (Ptimer.timer w' = None \/ exists e', Ptimer.timer w' = Some e' /\ e < e' < 2 ^ 63).
Proof.
  intros R E Hle Hb. pose proof (span_pos B w R) as Hs. pose proof R as [Hp Hn Hl Hf Hsp Ht]. destruct (Ht e E) as (He & Hne & H0).
  destruct (tick_frame w.[Ptimer.timer := None]) as (F1 & F2 & F3). cbn in F1, F2, F3. intros w'.
  assert (Ptimer.span w' (Ptimer.limit w') = Ptimer.span w (Ptimer.limit w)) as Esp
    by (unfold Ptimer.span, Ptimer.fixed_period; subst w'; by rewrite F1, F2, F3).
  assert (Ptimer.timer w' = None \/ (Ptimer.enabled w' = 1 /\ Ptimer.timer w' = Some (Ptimer.next_event w') /\
            e < Ptimer.next_event w' < 2 ^ 63)) as Hw.
  { destruct He as [He|He].
    - right. destruct (Ptimer.tick_deadline w cur) as (A1 & _ & _ & A4 & A5 & _); try done; [lia..|].
      cbn [Ptimer.exec] in *. fold w' in A1, A4, A5. rewrite A4. split; [done|]. rewrite Hne in *. split; [congruence|lia].
    - left. subst w'. unfold Ptimer.ptimer_tick. destruct (Ptimer.ptimer_trigger_frame w.[Ptimer.timer := None]) as (E1 & _ & _ & _ & _ & _ & E7).
      cbn [Ptimer.enabled set_field]. cbn in E1, E7. rewrite E1, He. cbn. exact E7. }
  split.
  - split; rewrite ?Esp; [unfold Ptimer.period_ok; subst w'; by rewrite F2, F3|subst w'; by rewrite F2|subst w'; by rewrite F1|subst w'; by rewrite F1, F3|done|].
    intros e' E'. destruct Hw as [Hw|(A1 & A2 & A3)]; [congruence|]. split; [by left|]. assert (Ptimer.next_event w' = e') by congruence. lia.
  - destruct Hw as [Hw|(A1 & A2 & A3)]; eauto.
Qed.

(** ** The queue and the ptimers *)

Section Run.
Context (now : times) (cur B : Z) (Hcur : cur + B < 2 ^ 63).

(** Each host timer is that of its ptimer, and pending for the time the ptimer
    says; [but] is left out. *)
Record linked (but : option ptr) s q : Prop := {
  li_timer p t : timers s !! p = Some t -> clock t = vm_clock /\ opaque t = Zpos p /\ scale t = 1;
  li_armed p : is_Some (timers s !! p) -> but <> Some p ->
    Ptimer.timer (world s p) = if decide (p ∈ q vm_clock) then Some (exp s p) else None;
  li_running p : is_Some (timers s !! p) -> running B (world s p)
}.

(** The time by which the pending timers are late. *)
Definition late s l : nat := sum_list_with (fun p => Z.to_nat (cur - exp s p + 1)) l.
Lemma late_ext s s' l : (forall p, p ∈ l -> exp s' p = exp s p) -> late s' l = late s l.
Proof.
  unfold late. induction l as [|p l IH]; intros H; [done|]. cbn. rewrite H by by left. f_equal. apply IH. intros p' Hp. apply H. by right.
Qed.
Lemma place_late s e v p l : late s (place e v p l) = (Z.to_nat (cur - exp s p + 1) + late s l)%nat.
Proof.
  unfold late. induction l as [|p' l IH]; cbn [place]; [done|]. destruct (e p' <=? v); [|done]. cbn. rewrite IH. lia.
Qed.
Lemma set_ptimer_repr s q p w : repr s q -> repr (set_ptimer s p w) q.
Proof.
  intros [Rc Rk Rn Rs]. split; [|exact Rk|exact Rn|exact Rs]. intros c. apply (chain_frame s); [|done]. by intros [[]|p'].
Qed.

(** The callback of a timer that was due. *)
Lemma tick_cb_spec s q p : repr s q -> linked (Some p) s q -> is_Some (timers s !! p) -> p ∉ q vm_clock ->
  Ptimer.timer (world s p) = Some (exp s p) -> exp s p <= cur ->
  exists s' q', tick_cb now tt (Zpos p) s = Some s' /\ repr s' q' /\ linked None s' q' /\
    (forall p', world s' p' = if decide (p' = p) then Ptimer.fire (world s p) cur else world s p') /\
    (late s' (q' vm_clock) <= late s (q vm_clock) + Z.to_nat (cur - exp s p))%nat.
Proof.
  intros R [Lt La Lr] Hp Hq Ew Hle. destruct (tick_running B (world s p) (exp s p) cur) as (Hrun & Hw); [by apply Lr|done|done|done|].
  unfold tick_cb. cbn [Z.to_pos]. set (w := Ptimer.ptimer_tick _) in *.
  assert (Ptimer.fire (world s p) cur = w) as Ef by (unfold Ptimer.fire; rewrite Ew; by destruct (Z.leb_spec (exp s p) cur); [|lia]).
  set (s1 := set_ptimer s p w). assert (forall p', world s1 p' = if decide (p' = p) then w else world s p') as W1 by done.
  assert (repr s1 q) as R1 by by apply set_ptimer_repr.
  assert (forall p', is_Some (timers s !! p') -> running B (world s1 p')) as Lr1.
  { intros p' Hp'. rewrite W1. destruct (decide (p' = p)); [done|by apply Lr]. }
  destruct Hw as [Hw|(e' & Hw & Hlt)]; rewrite Hw.
  - exists s1, q. split; [done|]. split; [done|]. split; [|split; [intros p'; by rewrite Ef|]].
    + split; [done| |done]. intros p' Hp' _. rewrite W1. destruct (decide (p' = p)) as [->|Hne].
      * by rewrite decide_False.
      * rewrite La by (done || congruence). done.
    + rewrite (late_ext s s1) by done. lia.
  - destruct Hp as [t Ht]. destruct (Lt p t Ht) as (Hc & Ho & Hs). unfold qemu_mod_timer. change (timers s1) with (timers s). rewrite Ht. cbn [mbind option_bind].
    destruct (qemu_mod_timer_queues now s1 q p vm_clock e' R1) as (s2 & E2 & R2 & X2 & _ & I2 & A2 & W2 & _).
    { unfold clock_of. change (timers s1) with (timers s). rewrite Ht. cbn. by f_equal. }
    assert (0 <= exp s p) as H0 by (destruct (Lr p ltac:(eauto)) as [_ _ _ _ _ Ht']; by destruct (Ht' _ Ew) as (_ & _ & ?)).
    replace (s64 (e' * scale t)) with e' by (rewrite Hs, Z.mul_1_r; unfold s64; symmetry; apply sN_small; lia).
    rewrite E2. eexists s2, _. split; [done|]. split; [exact R2|]. rewrite filter_not_in in * by done. rewrite upd_at.
    assert (forall p', ident s2 p' = ident s1 p') as I.
    { intros p'. destruct (decide (p' = p)) as [->|Hne]; [done|by apply attr_ident, A2]. }
    assert (forall p', p' <> p -> exp s2 p' = exp s p') as X by (intros p' Hne; by apply (attr_exp s1 s2), A2).
    split; [|split; [intros p'; by rewrite W2, W1, Ef|]].
    + split.
      * intros p' t' (t1 & Ht1 & <- & <- & <-)%(ident_timer s1 s2); [|apply I]. by apply Lt.
      * intros p' Hp'%(ident_some s1 s2) _; [|apply I]. rewrite W2, W1, upd_at. destruct (decide (p' = p)) as [->|Hne].
        -- rewrite decide_True by (apply place_elem; by left). rewrite Hw. by f_equal.
        -- rewrite La, (X p') by (done || congruence). destruct (decide (p' ∈ q vm_clock)) as [Hin|Hin].
           ++ by rewrite decide_True by (apply place_elem; by right).
           ++ rewrite decide_False; [done|]. rewrite place_elem. naive_solver.
      * intros p' Hp'%(ident_some s1 s2); [|apply I]. rewrite W2. by apply Lr1.
    + rewrite place_late, X2, (late_ext s s2); [lia|]. intros p' Hp'. apply X. by intros ->.
Qed.

Definition fires (tr : list ptr) (p : ptr) (w : Ptimer.ptimer_state) : Ptimer.ptimer_state :=
  Nat.iter (length (filter (fun p' => p' = p) tr)) (fun w => Ptimer.fire w cur) w.
Lemma iter_comm {A} (f : A -> A) n x : Nat.iter n f (f x) = f (Nat.iter n f x).
Proof. induction n as [|n IH]; [done|]. simpl. f_equal. exact IH. Qed.
Lemma linked_pop s s2 q p l : linked None s q -> q vm_clock = p :: l -> same s s2 -> linked (Some p) s2 (upd q vm_clock l).
Proof.
  intros [Lt La Lr] Eq S. pose proof (fun p => attr_ident s s2 p (sm_attr _ _ S p)) as I. split.
  - intros p' t' (t1 & Ht1 & <- & <- & <-)%(ident_timer s s2); [|apply I]. by apply Lt.
  - intros p' Hp'%(ident_some s s2) Hne; [|apply I]. rewrite (sm_world _ _ S), La, Eq, upd_at by done.
    rewrite (attr_exp s s2) by apply S. destruct (decide (p' ∈ p :: l)) as [Hin|Hin].
    + apply elem_of_cons in Hin as [->|Hin]; [done|]. by rewrite decide_True.
    + rewrite decide_False; [done|]. intros ?. apply Hin. by right.
  - intros p' Hp'%(ident_some s s2); [|apply I]. rewrite (sm_world _ _ S). by apply Lr.
Qed.
Lemma run_ptimers n s q : repr s q -> linked None s q -> (late s (q vm_clock) < n)%nat ->
  exists s' q' tr, run_loop (tick_cb now) n vm_clock cur s = Some (s', tr) /\ repr s' q' /\ linked None s' q' /\
    (forall p, p ∈ q' vm_clock -> cur < exp s' p) /\ forall p, world s' p = fires tr p (world s p).
Proof.
  revert s q. induction n as [|n IH]; intros s q R L Hn; [lia|]. cbn [run_loop].
  pose proof (re_chain _ _ R vm_clock) as Rc. destruct (q vm_clock) as [|p l] eqn:Eq; cbn [chain deref get_clk] in Rc.
  - injection Rc as Rc. cbn [get_clk]. rewrite Rc. cbn [qemu_timer_expired_ns mbind option_bind]. exists s, q, []. do 3 (split; [done|]). split; [|done].
    rewrite Eq. by intros p Hp%not_elem_of_nil.
  - destruct Rc as [[= E] _]. cbn [get_clk]. rewrite E. destruct (pop_spec vm_clock s q p l R Eq) as (t & s1 & s2 & Ht & E1 & E2 & R2 & S2).
    cbn [qemu_timer_expired_ns mbind option_bind]. rewrite Ht. cbn [mbind option_bind]. destruct (Z.leb_spec (expire_time t) cur) as [Hle|Hlt].
    2: { exists s, q, []. do 3 (split; [done|]). split; [|done]. intros p' Hp'.
         destruct (Z_lt_le_dec cur (exp s p')); [done|]. pose proof (due_head vm_clock cur s q p l R Eq) as Hd.
         rewrite (exp_lookup s p t Ht) in Hd. specialize (Hd Hlt). assert (p' ∈ due cur s (q vm_clock)) as Hin by by apply list_elem_of_filter.
         rewrite Hd in Hin. by apply not_elem_of_nil in Hin. }
    rewrite E1. cbn [mbind option_bind]. rewrite E2. cbn [mbind option_bind]. pose proof L as [Lt La Lr].
    destruct (Lt p t Ht) as (_ & Ho & _). rewrite Ho. destruct (cb t).
    pose proof (re_nodup _ _ R vm_clock) as Rn. rewrite Eq in Rn. apply NoDup_cons in Rn as [Hp _].
    assert (exp s2 p = exp s p) as X2 by apply attr_exp, S2.
    destruct (tick_cb_spec s2 (upd q vm_clock l) p R2 (linked_pop s s2 q p l L Eq S2)) as (s3 & q3 & -> & R3 & L3 & W3 & H3).
    { apply (ident_some s s2); [apply attr_ident, S2|eauto]. }
    { by rewrite upd_at. }
    { rewrite (sm_world _ _ S2), La, Eq, decide_True, X2; [done|by left|eauto|done]. }
    { by rewrite X2, (exp_lookup s p t Ht). }
    cbn [mbind option_bind]. rewrite upd_at, X2, (exp_lookup s p t Ht), (late_ext s s2) in H3 by (intros; apply attr_exp, S2).
    destruct (IH s3 q3 R3 L3) as (s' & q' & tr & -> & R' & L' & D' & W').
    { cbn in Hn. unfold late in *. rewrite (exp_lookup s p t Ht) in Hn. lia. }
    cbn [mbind option_bind]. exists s', q', (p :: tr). do 4 (split; [done|]). intros p'. rewrite W', W3. unfold fires.
    rewrite filter_cons, (sm_world _ _ S2). destruct (decide (p' = p)) as [->|Hne].
    + rewrite decide_True by done. apply (iter_comm (fun w => Ptimer.fire w cur)).
    + by rewrite decide_False by congruence.
Qed.
End Run.

(** C25. However late the main loop runs the virtual clock's queue, the run ends: each ptimer has then fired as
    [Ptimer.fire] says, as often as it was run, its host timer is pending exactly when the ptimer is armed and
    for the time the ptimer says, and none is due any more. *)
Theorem ptimers_catch_up now B s q n :
  repr s q -> linked B None s q -> enabled (vm s) = true -> cpu_get_clock now + B < 2 ^ 63 ->
  (late (cpu_get_clock now) s (q vm_clock) < n)%nat ->
  exists s' q' tr, qemu_run_timers (tick_cb now) n now vm_clock s = Some (s', tr) /\ repr s' q' /\ linked B None s' q' /\
    (forall p, p ∈ q' vm_clock -> cpu_get_clock now < exp s' p) /\
    forall p, world s' p = fires (cpu_get_clock now) tr p (world s p).
Proof.
  intros R L He Hb Hn. unfold qemu_run_timers. cbn [get_clk]. rewrite He. cbn [negb qemu_get_clock_ns]. by apply (run_ptimers now _ B Hb n s q).
Qed.

(** One 10 Hz timer, due at 100 ms, run 250 ns late. *)
Definition w0 : Ptimer.ptimer_state := Ptimer.mkPtimer 1 1 1 0 100000000 0 100000000 (Some false) (Some 100000000).
Definition s0 : state :=
  mkState {[ 1%positive := mkTimer 100000000 vm_clock tt 1 None 1 ]} qemu_new_clock (mkClock (Some 1%positive) 0 true []) qemu_new_clock
    (mkAlarm false false []) (fun _ => w0).
Definition q0 (c : clock_id) : list ptr := match c with vm_clock => [1%positive] | _ => [] end.
Lemma s0_timer p t : timers s0 !! p = Some t -> p = 1%positive /\ t = mkTimer 100000000 vm_clock tt 1 None 1.
Proof. cbn [s0 timers]. rewrite lookup_singleton_Some. naive_solver. Qed.
Lemma s0_repr : repr s0 q0.
Proof.
  split; [by intros []| | |].
  - intros [] p; cbn [q0]; [by intros ?%not_elem_of_nil| |by intros ?%not_elem_of_nil]. by intros ->%list_elem_of_singleton.
  - intros []; cbn [q0]; [apply NoDup_nil_2|apply NoDup_singleton|apply NoDup_nil_2].
  - intros []; cbn [q0]; [constructor|repeat constructor|constructor].
Qed.
Lemma s0_linked : linked 100000000 None s0 q0.
Proof.
  split.
  - intros p t [-> ->]%s0_timer. done.
  - intros p [t [-> _]%s0_timer] _. done.
  - intros p _. split; try by vm_compute.
    + split; [by vm_compute|]. split; [by vm_compute|]. by left.
    + intros e [= <-]. split; [by left|done].
Qed.
Lemma ptimers_catch_up_witness :
  exists s' q' tr, qemu_run_timers (tick_cb (mkTimes 0 100000250 0)) 1000 (mkTimes 0 100000250 0) vm_clock s0 = Some (s', tr) /\ repr s' q' /\
    linked 100000000 None s' q' /\ (forall p, p ∈ q' vm_clock -> 100000250 < exp s' p) /\ forall p, world s' p = fires 100000250 tr p (world s0 p).
Proof.
  apply (ptimers_catch_up (mkTimes 0 100000250 0) 100000000 s0 q0 1000); [apply s0_repr|apply s0_linked|done|done|].
  apply Nat.ltb_lt. by vm_compute.
Defined.
End PtimerClock.
