(* ===== verification/Gic.v ===== *)
(** * The interrupt controller (hw/intc/arm_gic.c, arm_gic_common.c, gic_internal.h)

    The distributor and the CPU interfaces of the GIC, which the NVIC is built
    on.  The state has the arrays of [GICState]; the lines to the CPUs are the
    levels last driven.  The CPU that accesses a register is an argument. *)

From S2P Require Import Prelude.

Module Gic.

Definition GIC_MAXIRQ := 1020.
Definition GIC_INTERNAL := 32.
Definition NCPU := 8.
Definition ALL_CPU_MASK := 0xff.
Definition REV_11MPCORE := 0.
Definition REV_NVIC := 0xffffffff.

Record gic_irq_state := mkIrqState {
  i_enabled : Z;
  i_pending : Z;
  i_active : Z;
  i_level : Z;
  i_model : bool;    (* 0 = N:N, 1 = 1:N *)
  i_trigger : bool   (* nonzero = edge triggered *)
}.
#[export] Instance eta_irq_state : RecEta gic_irq_state := fun i =>
  mkIrqState (i_enabled i) (i_pending i) (i_active i) (i_level i) (i_model i) (i_trigger i).
Definition irq_zero := mkIrqState 0 0 0 0 false false.

Record GICState := mkGic {
  parent_irq : list Z;
  enabled : bool;
  cpu_enabled : list bool;
  irq_state : list gic_irq_state;
  irq_target : list Z;
  priority1 : list (list Z);
  priority2 : list Z;
  last_active : list (list Z);
  priority_mask : list Z;
  running_irq : list Z;
  running_priority : list Z;
  current_pending : list Z;
  num_cpu : Z;
  num_irq : Z;
  revision : Z
}.
#[export] Instance eta_gic : RecEta GICState := fun s =>
  mkGic (parent_irq s) (enabled s) (cpu_enabled s) (irq_state s) (irq_target s) (priority1 s) (priority2 s)
        (last_active s) (priority_mask s) (running_irq s) (running_priority s) (current_pending s)
        (num_cpu s) (num_irq s) (revision s).

(** ** The macros of gic_internal.h *)

Definition GIC_BASE_IRQ (s : GICState) : Z := if revision s =? REV_NVIC then 32 else 0.
Definition irq_at (s : GICState) (irq : Z) : gic_irq_state := aget irq_zero (irq_state s) irq.
(** A store behind the end of an array changes nothing here, where C has
    undefined behaviour; GicBounds shows which accesses make no such store. *)
Definition with_irq (s : GICState) (irq : Z) (f : gic_irq_state -> gic_irq_state) : GICState :=
  s.[irq_state := aset (irq_state s) irq (f (irq_at s irq))].

Definition GIC_SET_ENABLED (s : GICState) (irq cm : Z) := with_irq s irq (fun i => i.[i_enabled := u8 (i_enabled i .| cm)]).
Definition GIC_CLEAR_ENABLED (s : GICState) (irq cm : Z) := with_irq s irq (fun i => i.[i_enabled := i_enabled i .& not8 cm]).
Definition GIC_TEST_ENABLED (s : GICState) (irq cm : Z) : bool := i_enabled (irq_at s irq) .&? cm.
Definition GIC_SET_PENDING (s : GICState) (irq cm : Z) := with_irq s irq (fun i => i.[i_pending := u8 (i_pending i .| cm)]).
Definition GIC_CLEAR_PENDING (s : GICState) (irq cm : Z) := with_irq s irq (fun i => i.[i_pending := i_pending i .& not8 cm]).
Definition GIC_TEST_PENDING (s : GICState) (irq cm : Z) : bool := i_pending (irq_at s irq) .&? cm.
Definition GIC_TEST_ACTIVE (s : GICState) (irq cm : Z) : bool := i_active (irq_at s irq) .&? cm.
Definition GIC_SET_MODEL (s : GICState) (irq : Z) (b : bool) := with_irq s irq (fun i => i.[i_model := b]).
Definition GIC_TEST_MODEL (s : GICState) (irq : Z) : bool := i_model (irq_at s irq).
Definition GIC_SET_LEVEL (s : GICState) (irq cm : Z) := with_irq s irq (fun i => i.[i_level := u8 cm]).
Definition GIC_CLEAR_LEVEL (s : GICState) (irq cm : Z) := with_irq s irq (fun i => i.[i_level := i_level i .& not8 cm]).
Definition GIC_TEST_LEVEL (s : GICState) (irq cm : Z) : bool := i_level (irq_at s irq) .&? cm.
Definition GIC_SET_TRIGGER (s : GICState) (irq : Z) (b : bool) := with_irq s irq (fun i => i.[i_trigger := b]).
Definition GIC_TEST_TRIGGER (s : GICState) (irq : Z) : bool := i_trigger (irq_at s irq).
Definition aget2 (l : list (list Z)) (i j : Z) : Z := aget 0 (aget [] l i) j.
Definition aset2 (l : list (list Z)) (i j v : Z) : list (list Z) := aset l i (aset (aget [] l i) j v).
Definition GIC_GET_PRIORITY (s : GICState) (irq cpu : Z) : Z :=
  if irq <? GIC_INTERNAL then aget2 (priority1 s) irq cpu else aget 0 (priority2 s) (irq - GIC_INTERNAL).
Definition GIC_TARGET (s : GICState) (irq : Z) : Z := aget 0 (irq_target s) irq.

(** ** Which interrupt is signalled *)

Definition set_parent (s : GICState) (cpu level : Z) : GICState := s.[parent_irq := aset (parent_irq s) cpu level].

(** The inner loop: the best priority and its interrupt so far. *)
Definition best_step (s : GICState) (cpu : Z) (best : Z * Z) (irq : Z) : Z * Z :=
  if GIC_TEST_ENABLED s irq (1 .<< cpu) && GIC_TEST_PENDING s irq (1 .<< cpu) then
    if GIC_GET_PRIORITY s irq cpu <? fst best then (GIC_GET_PRIORITY s irq cpu, irq) else best
  else best.
Definition best_pending (s : GICState) (cpu : Z) : Z * Z :=
  foldl (best_step s cpu) (0x100, 1023) (seqZ 0 (num_irq s)).
(** One round of the outer loop; [false] is the early return. *)
Definition update_cpu (s : GICState) (cpu : Z) : bool * GICState :=
  let s := s.[current_pending := aset (current_pending s) cpu 1023] in
  if negb (enabled s) || negb (aget false (cpu_enabled s) cpu) then (false, set_parent s cpu 0)
  else
    let '(best_prio, best_irq) := best_pending s cpu in
    if best_prio <? aget 0 (priority_mask s) cpu then
      let s := s.[current_pending := aset (current_pending s) cpu best_irq] in
      (true, set_parent s cpu (b2z (best_prio <? aget 0 (running_priority s) cpu)))
    else (true, set_parent s cpu 0).
Fixpoint update_cpus (s : GICState) (cpus : list Z) : GICState :=
  match cpus with
  | [] => s
  | cpu :: cpus => let '(go_on, s) := update_cpu s cpu in if go_on then update_cpus s cpus else s
  end.
Definition gic_update (s : GICState) : GICState := update_cpus s (seqZ 0 (num_cpu s)).

Definition gic_set_pending_private (s : GICState) (cpu irq : Z) : GICState :=
  let cm := 1 .<< cpu in
  if GIC_TEST_PENDING s irq cm then s else gic_update (GIC_SET_PENDING s irq cm).

(** A change of an input line. *)
Definition line_irq (s : GICState) (irq : Z) : Z * Z * Z :=
  if irq <? num_irq s - GIC_INTERNAL then
    let irq := irq + GIC_INTERNAL in (irq, ALL_CPU_MASK, GIC_TARGET s irq)
  else
    let irq := irq - (num_irq s - GIC_INTERNAL) in
    let cm := 1 .<< Z.quot irq GIC_INTERNAL in (Z.rem irq GIC_INTERNAL, cm, cm).
Definition gic_set_irq (s : GICState) (irq level : Z) : GICState :=
  let '(irq, cm, target) := line_irq s irq in
  if level =? b2z (GIC_TEST_LEVEL s irq cm) then s
  else if truth level then
    let s := GIC_SET_LEVEL s irq cm in
    gic_update (if GIC_TEST_TRIGGER s irq || GIC_TEST_ENABLED s irq cm then GIC_SET_PENDING s irq target else s)
  else gic_update (GIC_CLEAR_LEVEL s irq cm).

(** ** Acknowledge and end of interrupt *)

Definition gic_set_running_irq (s : GICState) (cpu irq : Z) : GICState :=
  let s := s.[running_irq := aset (running_irq s) cpu irq] in
  gic_update s.[running_priority := aset (running_priority s) cpu (if irq =? 1023 then 0x100 else GIC_GET_PRIORITY s irq cpu)].
Definition gic_acknowledge_irq (s : GICState) (cpu : Z) : Z * GICState :=
  let new_irq := aget 0 (current_pending s) cpu in
  if (new_irq =? 1023) || (aget 0 (running_priority s) cpu <=? GIC_GET_PRIORITY s new_irq cpu) then (1023, s)
  else
    let s := s.[last_active := aset2 (last_active s) new_irq cpu (aget 0 (running_irq s) cpu)] in
    let s := GIC_CLEAR_PENDING s new_irq (if GIC_TEST_MODEL s new_irq then ALL_CPU_MASK else 1 .<< cpu) in
    (new_irq, gic_set_running_irq s cpu new_irq).

(** The search for an interrupt that is not the running one; the C loop has
    no bound. *)
Fixpoint unlink_loop (fuel : nat) (s : GICState) (cpu irq tmp : Z) : option GICState :=
  match fuel with
  | O => None
  | S fuel =>
      let next := aget2 (last_active s) tmp cpu in
      if next =? 1023 then Some s
      else if next =? irq then Some s.[last_active := aset2 (last_active s) tmp cpu (aget2 (last_active s) irq cpu)]
      else unlink_loop fuel s cpu irq next
  end.
Definition gic_complete_irq (fuel : nat) (s : GICState) (cpu irq : Z) : option GICState :=
  let cm := 1 .<< cpu in
  if num_irq s <=? irq then Some s
  else if aget 0 (running_irq s) cpu =? 1023 then Some s
  else
    let update := negb (GIC_TEST_TRIGGER s irq) && GIC_TEST_ENABLED s irq cm && GIC_TEST_LEVEL s irq cm &&
                  (GIC_TARGET s irq .&? cm) in
    let s := if update then GIC_SET_PENDING s irq cm else s in
    let running := aget 0 (running_irq s) cpu in
    if negb (irq =? running) then
      s ← unlink_loop fuel s cpu irq running;
      Some (if update then gic_update s else s)
    else Some (gic_set_running_irq s cpu (aget2 (last_active s) running cpu)).

(** ** The distributor registers *)

Definition gic_id : list Z := [0x90; 0x13; 0x04; 0x00; 0x0d; 0xf0; 0x05; 0xb1].

(** The bits a test gives for the [n] interrupts from [irq] on. *)
Definition gather (test : Z -> bool) (irq n : Z) : Z :=
  foldl (fun res i => if test (irq + i) then res .| (1 .<< i) else res) 0 (seqZ 0 n).
Definition irq_mask (irq cm : Z) : Z := if irq <? GIC_INTERNAL then cm else ALL_CPU_MASK.

(** A bad offset reads as zero. *)
Definition gic_dist_readb (s : GICState) (cpu offset : Z) : Z :=
  let cm := 1 .<< cpu in
  let base := GIC_BASE_IRQ s in
  if offset <? 0x100 then
    if offset =? 0 then b2z (enabled s)
    else if offset =? 4 then (Z.quot (num_irq s) 32 - 1) .| ((num_cpu s - 1) .<< 5)
    else 0
  else if offset <? 0x200 then
    let irq := (if offset <? 0x180 then (offset - 0x100) * 8 else (offset - 0x180) * 8) + base in
    if num_irq s <=? irq then 0 else gather (fun irq => GIC_TEST_ENABLED s irq cm) irq 8
  else if offset <? 0x300 then
    let irq := (if offset <? 0x280 then (offset - 0x200) * 8 else (offset - 0x280) * 8) + base in
    if num_irq s <=? irq then 0 else let mask := irq_mask irq cm in gather (fun irq => GIC_TEST_PENDING s irq mask) irq 8
  else if offset <? 0x400 then
    let irq := (offset - 0x300) * 8 + base in
    if num_irq s <=? irq then 0 else let mask := irq_mask irq cm in gather (fun irq => GIC_TEST_ACTIVE s irq mask) irq 8
  else if offset <? 0x800 then
    let irq := offset - 0x400 + base in
    if num_irq s <=? irq then 0 else GIC_GET_PRIORITY s irq cpu
  else if offset <? 0xc00 then
    if (num_cpu s =? 1) && negb (revision s =? REV_11MPCORE) then 0
    else
      let irq := offset - 0x800 + base in
      if num_irq s <=? irq then 0
      else if (29 <=? irq) && (irq <=? 31) then cm else GIC_TARGET s irq
  else if offset <? 0xf00 then
    let irq := (offset - 0xc00) * 2 + base in
    if num_irq s <=? irq then 0
    else foldl (fun res i =>
      let res := if GIC_TEST_MODEL s (irq + i) then res .| (1 .<< (i * 2)) else res in
      if GIC_TEST_TRIGGER s (irq + i) then res .| (2 .<< (i * 2)) else res) 0 (seqZ 0 4)
  else if offset <? 0xfe0 then 0
  else if offset .&? 3 then 0 else aget 0 gic_id ((offset - 0xfe0) .>> 2).
Definition gic_dist_readw (s : GICState) (cpu offset : Z) : Z :=
  gic_dist_readb s cpu offset .| u32 (gic_dist_readb s cpu (offset + 1) .<< 8).
Definition gic_dist_readl (s : GICState) (cpu offset : Z) : Z :=
  gic_dist_readw s cpu offset .| u32 (gic_dist_readw s cpu (offset + 2) .<< 16).

(** What a write does with the [n] interrupts from [irq] on whose bit is set. *)
Definition scatter (f : GICState -> Z -> GICState) (s : GICState) (value irq n : Z) : GICState :=
  foldl (fun s i => if value .&? (1 .<< i) then f s (irq + i) else s) s (seqZ 0 n).
Definition set_enable (cpu first : Z) (s : GICState) (irq : Z) : GICState :=
  let mask := if first <? GIC_INTERNAL then 1 .<< cpu else GIC_TARGET s irq in
  let s := GIC_SET_ENABLED s irq (irq_mask first (1 .<< cpu)) in
  if GIC_TEST_LEVEL s irq mask && negb (GIC_TEST_TRIGGER s irq) then GIC_SET_PENDING s irq mask else s.
Definition configure (value irq : Z) (s : GICState) (i : Z) : GICState :=
  let s := GIC_SET_MODEL s (irq + i) (value .&? (1 .<< (i * 2))) in
  GIC_SET_TRIGGER s (irq + i) (value .&? (2 .<< (i * 2))).

(** [None] is a bad offset, which changes nothing. *)
Definition dist_write (s : GICState) (cpu offset value : Z) : option GICState :=
  let base := GIC_BASE_IRQ s in
  if offset <? 0x100 then
    if offset =? 0 then Some s.[enabled := value .&? 1]
    else if (offset <? 4) || (0x80 <=? offset) then Some s
    else None
  else if offset <? 0x180 then
    let irq := (offset - 0x100) * 8 + base in
    if num_irq s <=? irq then None
    else Some (scatter (set_enable cpu irq) s (if irq <? 16 then 0xff else value) irq 8)
  else if offset <? 0x200 then
    let irq := (offset - 0x180) * 8 + base in
    if num_irq s <=? irq then None
    else Some (scatter (fun s i => GIC_CLEAR_ENABLED s i (irq_mask irq (1 .<< cpu))) s (if irq <? 16 then 0 else value) irq 8)
  else if offset <? 0x280 then
    let irq := (offset - 0x200) * 8 + base in
    if num_irq s <=? irq then None
    else Some (scatter (fun s i => GIC_SET_PENDING s i (GIC_TARGET s i)) s value (if irq <? 16 then 0 else irq) 8)
  else if offset <? 0x300 then
    let irq := (offset - 0x280) * 8 + base in
    if num_irq s <=? irq then None
    else Some (scatter (fun s i => GIC_CLEAR_PENDING s i ALL_CPU_MASK) s value irq 8)
  else if offset <? 0x400 then None
  else if offset <? 0x800 then
    let irq := offset - 0x400 + base in
    if num_irq s <=? irq then None
    else if irq <? GIC_INTERNAL then Some s.[priority1 := aset2 (priority1 s) irq cpu (u8 value)]
    else Some s.[priority2 := aset (priority2 s) (irq - GIC_INTERNAL) (u8 value)]
  else if offset <? 0xc00 then
    if negb (num_cpu s =? 1) || (revision s =? REV_11MPCORE) then
      let irq := offset - 0x800 + base in
      if num_irq s <=? irq then None
      else
        let value := if irq <? 29 then 0 else if irq <? GIC_INTERNAL then ALL_CPU_MASK else value in
        Some s.[irq_target := aset (irq_target s) irq (value .& ALL_CPU_MASK)]
    else Some s
  else if offset <? 0xf00 then
    let irq := (offset - 0xc00) * 4 + base in
    if num_irq s <=? irq then None
    else
      let value := if irq <? GIC_INTERNAL then value .| 0xaa else value in
      Some (foldl (configure value irq) s (seqZ 0 4))
  else None.
Definition gic_dist_writeb (s : GICState) (cpu offset value : Z) : GICState :=
  match dist_write s cpu offset value with Some s => gic_update s | None => s end.
Definition gic_dist_writew (s : GICState) (cpu offset value : Z) : GICState :=
  let s := gic_dist_writeb s cpu offset (value .& 0xff) in
  gic_dist_writeb s cpu (offset + 1) (value .>> 8).
Definition sgi_mask (cpu value : Z) : Z :=
  let filter := (value .>> 24) .& 3 in
  if filter =? 0 then (value .>> 16) .& ALL_CPU_MASK
  else if filter =? 1 then ALL_CPU_MASK .^ (1 .<< cpu)
  else if filter =? 2 then 1 .<< cpu
  else ALL_CPU_MASK.
(** The number of a software interrupt is not checked against the number of
    interrupts ([GicBounds.sgi_out_of_bounds]). *)
Definition gic_dist_writel (s : GICState) (cpu offset value : Z) : GICState :=
  if offset =? 0xf00 then gic_update (GIC_SET_PENDING s (value .& 0x3ff) (sgi_mask cpu value))
  else
    let s := gic_dist_writew s cpu offset (value .& 0xffff) in
    gic_dist_writew s cpu (offset + 2) (value .>> 16).

(** ** The CPU interfaces *)

Definition gic_cpu_read (s : GICState) (cpu offset : Z) : Z * GICState :=
  if offset =? 0x00 then (b2z (aget false (cpu_enabled s) cpu), s)
  else if offset =? 0x04 then (aget 0 (priority_mask s) cpu, s)
  else if offset =? 0x0c then gic_acknowledge_irq s cpu
  else if offset =? 0x14 then (aget 0 (running_priority s) cpu, s)
  else if offset =? 0x18 then (aget 0 (current_pending s) cpu, s)
  else (0, s).
Definition gic_cpu_write (fuel : nat) (s : GICState) (cpu offset value : Z) : option GICState :=
  if offset =? 0x00 then Some (gic_update s.[cpu_enabled := aset (cpu_enabled s) cpu (value .&? 1)])
  else if offset =? 0x04 then Some (gic_update s.[priority_mask := aset (priority_mask s) cpu (value .& 0xff)])
  else if offset =? 0x08 then Some (gic_update s)
  else if offset =? 0x10 then gic_complete_irq fuel s cpu (value .& 0x3ff)
  else Some s.

(** ** Creation and reset *)

(** [false] is an error: too many CPUs, too many lines, or not a multiple of 32. *)
Definition arm_gic_common_realize (s : GICState) : bool * GICState :=
  if NCPU <? num_cpu s then (false, s)
  else
    let s := s.[num_irq := u32 (num_irq s + GIC_BASE_IRQ s)] in
    if GIC_MAXIRQ <? num_irq s then (false, s)
    else if (num_irq s <? 32) || negb (num_irq s mod 32 =? 0) then (false, s)
    else (true, s).
Definition reset_cpu (s : GICState) (i : Z) : GICState :=
  let s := s.[priority_mask := aset (priority_mask s) i (if revision s =? REV_11MPCORE then 0xf0 else 0)] in
  let s := s.[current_pending := aset (current_pending s) i 1023] in
  let s := s.[running_irq := aset (running_irq s) i 1023] in
  let s := s.[running_priority := aset (running_priority s) i 0x100] in
  s.[cpu_enabled := aset (cpu_enabled s) i false].
Definition reset_sgi (s : GICState) (i : Z) : GICState := GIC_SET_TRIGGER (GIC_SET_ENABLED s i ALL_CPU_MASK) i true.
Definition reset_targets (s : GICState) : GICState :=
  if num_cpu s =? 1 then s.[irq_target := replicate (Z.to_nat GIC_MAXIRQ) 1] else s.
Definition arm_gic_common_reset (s : GICState) : GICState :=
  let s := s.[irq_state := replicate (Z.to_nat GIC_MAXIRQ) irq_zero] in
  let s := foldl reset_cpu s (seqZ 0 (num_cpu s)) in
  let s := foldl reset_sgi s (seqZ 0 16) in
  let s := reset_targets s in
  s.[enabled := false].
(** The zeroed object with its properties set. *)
Definition gic_new (cpus irqs rev : Z) : GICState :=
  let n := Z.to_nat NCPU in
  mkGic (replicate n 0) false (replicate n false) (replicate (Z.to_nat GIC_MAXIRQ) irq_zero)
    (replicate (Z.to_nat GIC_MAXIRQ) 0) (replicate (Z.to_nat GIC_INTERNAL) (replicate n 0))
    (replicate (Z.to_nat (GIC_MAXIRQ - GIC_INTERNAL)) 0) (replicate (Z.to_nat GIC_MAXIRQ) (replicate n 0))
    (replicate n 0) (replicate n 0) (replicate n 0) (replicate n 0) cpus irqs rev.
End Gic.
