(* ===== verification/GicProps.v ===== *)
(** * Correctness of the interrupt controller

    The arrays keep their sizes and widths; an update signals, to each CPU,
    the enabled pending interrupt of the best priority, as far as the CPUs are
    enabled; and interrupts nest:
    the active ones form a stack that acknowledging pushes to and the end of an
    interrupt removes from. *)

From stdpp Require Import sorting.
From S2P Require Import Prelude Gic.

Module GicProps.
Import Gic.
#[local] Open Scope Z_scope.

(** ** Sizes and widths *)

Record irq_ok (i : gic_irq_state) : Prop := {
  io_enabled : is_u 8 (i_enabled i); io_pending : is_u 8 (i_pending i);
  io_active : is_u 8 (i_active i); io_level : is_u 8 (i_level i)
}.
Definition rows (n m : Z) (P : Z -> Prop) (l : list (list Z)) : Prop :=
  Z.of_nat (length l) = n /\ Forall (fun r => Z.of_nat (length r) = m /\ Forall P r) l.
Definition sized (n : Z) (P : Z -> Prop) (l : list Z) : Prop := Z.of_nat (length l) = n /\ Forall P l.
(** An interrupt or 1023, which is none. *)
Definition irq_ref (n i : Z) : Prop := i = 1023 \/ 0 <= i < n.
Definition prio_range (p : Z) : Prop := 0 <= p <= 0x100.
Record wf (s : GICState) : Prop := {
  wf_parent : sized NCPU (is_u 1) (parent_irq s);
  wf_cpu_enabled : Z.of_nat (length (cpu_enabled s)) = NCPU;
  wf_irq : Z.of_nat (length (irq_state s)) = GIC_MAXIRQ /\ Forall irq_ok (irq_state s);
  wf_target : sized GIC_MAXIRQ (is_u 8) (irq_target s);
  wf_prio1 : rows GIC_INTERNAL NCPU (is_u 8) (priority1 s);
  wf_prio2 : sized (GIC_MAXIRQ - GIC_INTERNAL) (is_u 8) (priority2 s);
  wf_last : rows GIC_MAXIRQ NCPU (irq_ref (num_irq s)) (last_active s);
  wf_mask : sized NCPU prio_range (priority_mask s);
  wf_running : sized NCPU (irq_ref (num_irq s)) (running_irq s);
  wf_running_prio : sized NCPU prio_range (running_priority s);
  wf_current : sized NCPU (irq_ref (num_irq s)) (current_pending s);
  wf_cpus : 1 <= num_cpu s <= NCPU;
  wf_irqs : 32 <= num_irq s <= GIC_MAXIRQ
}.

Lemma sized_aset n P l i v : sized n P l -> P v -> sized n P (aset l i v).
Proof. intros [Hl Hf] Hv. split; [by rewrite length_aset|by apply Forall_aset]. Qed.
Lemma sized_aget n P d l i : sized n P l -> P d -> P (aget d l i).
Proof. intros [_ Hf] Hd. by apply Forall_aget. Qed.
Lemma aset_out {A} (l : list A) i v : Z.of_nat (length l) <= i -> aset l i v = l.
Proof. intros Hi. unfold aset. destruct (Z.leb_spec 0 i); [|done]. apply list_insert_ge. lia. Qed.
Lemma aset_neg {A} (l : list A) i v : i < 0 -> aset l i v = l.
Proof. intros Hi. unfold aset. by destruct (Z.leb_spec 0 i); [lia|]. Qed.
Lemma Forall_aget_in {A} (P : A -> Prop) d l i : 0 <= i < Z.of_nat (length l) -> Forall P l -> P (aget d l i).
Proof.
  intros Hi Hl. unfold aget. destruct (Z.leb_spec 0 i); [|lia]. destruct (lookup_lt_is_Some_2 l (Z.to_nat i)) as [x Hx]; [lia|].
  rewrite Hx. by eapply Forall_lookup_1.
Qed.
Lemma rows_aset2 n m P l i j v : rows n m P l -> P v -> rows n m P (aset2 l i j v).
Proof.
  intros [Hl Hf] Hv. unfold aset2. destruct (Z_lt_le_dec i 0); [by rewrite aset_neg|].
  destruct (Z_lt_le_dec i (Z.of_nat (length l))) as [Hi|Hi]; [|by rewrite aset_out].
  split; [by rewrite length_aset|]. apply Forall_aset; [done|].
  pose proof (Forall_aget_in _ [] l i ltac:(lia) Hf) as [H1 H2]. split; [by rewrite length_aset|by apply Forall_aset].
Qed.
Lemma rows_aget2 n m P l i j : rows n m P l -> P 0 -> P (aget2 l i j).
Proof.
  intros [Hl Hf] H0. unfold aget2. apply Forall_aget; [done|]. destruct (Z_lt_le_dec i 0).
  { unfold aget. by destruct (Z.leb_spec 0 i); [lia|apply Forall_nil_2]. }
  destruct (Z_lt_le_dec i (Z.of_nat (length l))) as [Hi|Hi]; [by apply (Forall_aget_in _ [] l i ltac:(lia) Hf)|].
  unfold aget. destruct (0 <=? i); [|apply Forall_nil_2]. rewrite lookup_ge_None_2 by lia. apply Forall_nil_2.
Qed.
Lemma aget2_aset2 n m P l i j i' j' v : rows n m P l -> 0 <= i < n -> 0 <= j < m -> 0 <= i' -> 0 <= j' ->
  aget2 (aset2 l i j v) i' j' = if (i' =? i) && (j' =? j) then v else aget2 l i' j'.
Proof.
  intros [Hl Hf] Hi Hj Hi' Hj'. unfold aget2, aset2. pose proof (Forall_aget_in _ [] l i ltac:(lia) Hf) as [H1 _].
  destruct (Z.eqb_spec i' i) as [->|]; cbn [andb]; [|by rewrite aget_aset_ne by lia]. rewrite aget_aset_eq by lia.
  destruct (Z.eqb_spec j' j) as [->|]; [by rewrite aget_aset_eq by lia|by rewrite aget_aset_ne by lia].
Qed.

Create HintDb gic.
#[export] Hint Resolve sized_aset rows_aset2 : gic.
#[export] Hint Extern 1 (is_u _ _) => (by vm_compute) : gic.
#[export] Hint Extern 1 (prio_range _) => (by vm_compute) : gic.
#[export] Hint Extern 1 (irq_ref _ 1023) => (by left) : gic.

Lemma ref_zero s : wf s -> irq_ref (num_irq s) 0.
Proof. intros W. right. pose proof (wf_irqs _ W). lia. Qed.
Lemma irq_at_ok s irq : wf s -> irq_ok (irq_at s irq).
Proof. intros W. unfold irq_at. apply (Forall_aget irq_ok); [split; by vm_compute|apply (wf_irq _ W)]. Qed.
Lemma with_irq_wf s irq f : wf s -> (forall i, irq_ok i -> irq_ok (f i)) -> wf (with_irq s irq f).
Proof.
  intros W Hf. pose proof (irq_at_ok s irq W). destruct W as [? ? [? ?] ? ? ? ? ? ? ? ? ? ?]. split; try done. cbn.
  split; [by rewrite length_aset|]. apply Forall_aset; auto.
Qed.
Lemma prio_u8 s irq cpu : wf s -> is_u 8 (GIC_GET_PRIORITY s irq cpu).
Proof.
  intros W. unfold GIC_GET_PRIORITY. destruct (irq <? _).
  - eapply rows_aget2; [apply (wf_prio1 _ W)|by vm_compute].
  - eapply sized_aget; [apply (wf_prio2 _ W)|by vm_compute].
Qed.

(** ** What an update signals *)

Definition cand (s : GICState) (cpu irq : Z) : bool := GIC_TEST_ENABLED s irq (1 .<< cpu) && GIC_TEST_PENDING s irq (1 .<< cpu).
(** [i] is the interrupt to take among those below [k]: no candidate has a
    better priority, nor the same and a lower number. *)
Definition highest (s : GICState) (cpu k i : Z) : Prop :=
  0 <= i < k /\ cand s cpu i = true /\
  forall j, 0 <= j < k -> cand s cpu j = true ->
    GIC_GET_PRIORITY s i cpu <= GIC_GET_PRIORITY s j cpu /\ (j < i -> GIC_GET_PRIORITY s i cpu < GIC_GET_PRIORITY s j cpu).
Definition best_of (s : GICState) (cpu k : Z) (best : Z * Z) : Prop :=
  (best = (0x100, 1023) /\ forall j, 0 <= j < k -> cand s cpu j = false) \/
  (exists i, best = (GIC_GET_PRIORITY s i cpu, i) /\ highest s cpu k i).
Lemma best_step_of s cpu k best : wf s -> 0 <= k -> best_of s cpu k best -> best_of s cpu (k + 1) (best_step s cpu best k).
Proof.
  intros W Hk Hb. unfold best_step. fold (cand s cpu k). pose proof (prio_u8 s k cpu W) as [Hp0 Hp1].
  destruct (cand s cpu k) eqn:Ek.
  - destruct Hb as [[-> Hno]|(i & -> & Hi & Hci & Hbest)]; cbn [fst].
    + destruct (Z.ltb_spec (GIC_GET_PRIORITY s k cpu) 0x100); [|lia]. right. exists k. split; [done|]. split; [lia|]. split; [done|].
      intros j Hj Hcj. destruct (decide (j = k)) as [->|]; [lia|]. rewrite Hno in Hcj by lia. done.
    + right. destruct (Z.ltb_spec (GIC_GET_PRIORITY s k cpu) (GIC_GET_PRIORITY s i cpu)); [exists k|exists i]; (split; [done|]);
        (split; [lia|]); (split; [done|]); intros j Hj Hcj; (destruct (decide (j = k)) as [->|]; [lia|]);
        destruct (Hbest j ltac:(lia) Hcj); lia.
  - destruct Hb as [[-> Hno]|(i & -> & Hi & Hci & Hbest)]; [left|right].
    + split; [done|]. intros j Hj. destruct (decide (j = k)) as [->|]; [done|]. apply Hno. lia.
    + exists i. split; [done|]. split; [lia|]. split; [done|]. intros j Hj Hcj. destruct (decide (j = k)) as [->|]; [congruence|].
      apply Hbest; [lia|done].
Qed.
Lemma best_pending_of s cpu : wf s -> best_of s cpu (num_irq s) (best_pending s cpu).
Proof.
  intros W. unfold best_pending. pose proof (wf_irqs _ W) as Hn. rewrite <- (Z2Nat.id (num_irq s)) by lia.
  generalize (Z.to_nat (num_irq s)). intros k. induction k as [|k IH]; [left; split; [done|lia]|].
  replace (Z.of_nat (S k)) with (Z.of_nat k + 1) by lia. rewrite seqZ_app, foldl_app by lia. cbn [seqZ]. 
  apply best_step_of; [done|lia|done].
Qed.

(** The fields an update reads are not those it writes. *)
Definition core (s : GICState) : GICState := s.[current_pending := []].[parent_irq := []].
Lemma core_tests s s' : core s' = core s ->
  irq_state s' = irq_state s /\ enabled s' = enabled s /\ cpu_enabled s' = cpu_enabled s /\ priority_mask s' = priority_mask s /\
  running_priority s' = running_priority s /\ num_irq s' = num_irq s /\ num_cpu s' = num_cpu s /\
  priority1 s' = priority1 s /\ priority2 s' = priority2 s /\ running_irq s' = running_irq s /\ last_active s' = last_active s /\
  irq_target s' = irq_target s /\ revision s' = revision s.
Proof. unfold core. cbn. intros [= ]. repeat split; congruence. Qed.
Lemma update_cpu_core s cpu : core (snd (update_cpu s cpu)) = core s.
Proof. unfold update_cpu. destruct (_ || _); [done|]. destruct (best_pending _ cpu). by destruct (_ <? _). Qed.
Lemma gic_update_core s : core (gic_update s) = core s.
Proof.
  unfold gic_update. generalize (seqZ 0 (num_cpu s)). intros l. revert s. induction l as [|cpu l IH]; intros s; [done|]. cbn [update_cpus].
  pose proof (update_cpu_core s cpu) as E. destruct (update_cpu s cpu) as [[] s']; [|exact E]. rewrite IH. exact E.
Qed.
Lemma core_best s s' cpu : core s' = core s -> best_pending s' cpu = best_pending s cpu.
Proof.
  intros E%core_tests. destruct E as (E1 & _ & _ & _ & _ & E2 & _ & E3 & E4 & _). unfold best_pending. rewrite E2.
  assert (best_step s' cpu = best_step s cpu) as ->; [|done].
  unfold best_step, GIC_TEST_ENABLED, GIC_TEST_PENDING, GIC_GET_PRIORITY, irq_at. by rewrite E1, E3, E4.
Qed.

(** What one CPU is told. *)
Definition told (s : GICState) (cpu : Z) : Z * Z :=
  let '(best_prio, best_irq) := best_pending s cpu in
  if best_prio <? aget 0 (priority_mask s) cpu then (best_irq, b2z (best_prio <? aget 0 (running_priority s) cpu)) else (1023, 0).
Definition tells (s : GICState) (cpu : Z) : Z * Z := (aget 0 (current_pending s) cpu, aget 0 (parent_irq s) cpu).
Lemma core_told s s' cpu : core s' = core s -> told s' cpu = told s cpu.
Proof. intros E. unfold told. rewrite (core_best s s' cpu E). apply core_tests in E as (_ & _ & _ & -> & -> & _). done. Qed.

Lemma told_range s cpu : wf s -> irq_ref (num_irq s) (fst (told s cpu)) /\ is_u 1 (snd (told s cpu)).
Proof.
  intros W. unfold told. pose proof (best_pending_of s cpu W) as Hb. pose proof (wf_irqs _ W) as [_ Hn]. unfold GIC_MAXIRQ in Hn.
  destruct (best_pending s cpu) as [p i]. assert (irq_ref (num_irq s) i) as Hi.
  { destruct Hb as [[[= -> ->] _]|(j & [= -> ->] & Hj & _)]; [by left|by right]. }
  destruct (_ <? _); cbn; [split; [done|]|split; [by left|by vm_compute]]. by destruct (_ <? _).
Qed.
Lemma update_cpu_wf s cpu : wf s -> wf (snd (update_cpu s cpu)).
Proof.
  intros W. pose proof (told_range s.[current_pending := aset (current_pending s) cpu 1023] cpu) as Ht. unfold update_cpu.
  assert (wf s.[current_pending := aset (current_pending s) cpu 1023]) as W1 by (destruct W; split; cbn; auto with gic).
  specialize (Ht W1). unfold told in Ht. set (s1 := s.[current_pending := _]) in *. clearbody s1.
  destruct (_ || _); [destruct W1; split; cbn; auto with gic|]. destruct (best_pending s1 cpu) as [p i].
  destruct (_ <? _); destruct Ht as [H1 H2], W1; split; cbn; auto with gic.
Qed.
Lemma gic_update_wf s : wf s -> wf (gic_update s).
Proof.
  unfold gic_update. generalize (seqZ 0 (num_cpu s)). intros l. revert s. induction l as [|cpu l IH]; intros s W; [done|]. cbn [update_cpus].
  pose proof (update_cpu_wf s cpu W) as W'. destruct (update_cpu s cpu) as [[] s']; [by apply IH|done].
Qed.
Lemma update_cpu_told s cpu : wf s -> 0 <= cpu < NCPU -> enabled s = true -> aget false (cpu_enabled s) cpu = true ->
  exists s', update_cpu s cpu = (true, s') /\ tells s' cpu = told s cpu /\ forall c, 0 <= c -> c <> cpu -> tells s' c = tells s c.
Proof.
  intros W Hc He Hce. unfold update_cpu. cbn. rewrite He, Hce. cbn [negb orb]. unfold told.
  change (best_pending s.[current_pending := aset (current_pending s) cpu 1023] cpu) with (best_pending s cpu).
  destruct (wf_parent _ W) as [Hp _], (wf_current _ W) as [Hq _]. destruct (best_pending s cpu) as [p i].
  destruct (_ <? _); eexists; (split; [done|]); unfold tells; cbn; (split; [rewrite !aget_aset_eq; rewrite ?length_aset; done || lia|]);
    intros c Hc0 Hne; by rewrite !aget_aset_ne by lia.
Qed.
Lemma update_cpus_told l : forall s, wf s -> NoDup l -> enabled s = true ->
  (forall c, c ∈ l -> 0 <= c < NCPU /\ aget false (cpu_enabled s) c = true) ->
  (forall c, c ∈ l -> tells (update_cpus s l) c = told s c) /\ forall c, 0 <= c -> c ∉ l -> tells (update_cpus s l) c = tells s c.
Proof.
  induction l as [|cpu l IH]; intros s W Hn He Hl; [split; [by intros c ?%not_elem_of_nil|done]|].
  apply NoDup_cons in Hn as [Hcpu Hn]. destruct (Hl cpu ltac:(by left)) as [Hr Hen]. cbn [update_cpus].
  pose proof (update_cpu_core s cpu) as Ec. pose proof (update_cpu_wf s cpu W) as W'.
  destruct (update_cpu_told s cpu W Hr He Hen) as (s' & E & Ht & Hf). rewrite E in *. cbn [snd] in *.
  pose proof (core_tests s s' Ec) as (_ & E1 & E2 & _). destruct (IH s' W' Hn ltac:(congruence)) as [H1 H2].
  { intros c Hc. rewrite E2. apply Hl. by right. }
  split.
  - intros c [->|Hc]%elem_of_cons; [rewrite H2 by (done || lia); done|]. rewrite H1 by done. by apply core_told.
  - intros c H0 [Hne Hc]%not_elem_of_cons. rewrite H2 by done. by apply Hf.
Qed.
Lemma gic_update_told s cpu : wf s -> enabled s = true -> (forall c, 0 <= c < num_cpu s -> aget false (cpu_enabled s) c = true) ->
  0 <= cpu < num_cpu s -> tells (gic_update s) cpu = told s cpu.
Proof.
  intros W He Hen Hc. pose proof (wf_cpus _ W). apply (update_cpus_told (seqZ 0 (num_cpu s)) s W); [apply NoDup_seqZ|done| |apply elem_of_seqZ; lia].
  intros c Hin%elem_of_seqZ. split; [lia|]. apply Hen. lia.
Qed.

(** ** An update in every case *)

(** The update goes on past the CPU. *)
Definition serves (s : GICState) (cpu : Z) : bool := enabled s && aget false (cpu_enabled s) cpu.
Lemma core_serves s s' cpu : core s' = core s -> serves s' cpu = serves s cpu.
Proof. intros (_ & E1 & E2 & _)%core_tests. unfold serves. by rewrite E1, E2. Qed.
Lemma update_cpu_stops s cpu : wf s -> 0 <= cpu < NCPU -> serves s cpu = false ->
  exists s', update_cpu s cpu = (false, s') /\ tells s' cpu = (1023, 0) /\ forall c, 0 <= c -> c <> cpu -> tells s' c = tells s c.
Proof.
  intros W Hc Hs. unfold update_cpu, serves in *. cbn. replace (_ || _) with true by (destruct (enabled s), (aget false (cpu_enabled s) cpu); done).
  destruct (wf_parent _ W) as [Hp _], (wf_current _ W) as [Hq _]. eexists. split; [done|]. unfold tells. cbn.
  split; [by rewrite !aget_aset_eq by lia|]. intros c Hc0 Hne. by rewrite !aget_aset_ne by lia.
Qed.
Lemma update_cpu_serves s cpu : wf s -> 0 <= cpu < NCPU -> exists s', update_cpu s cpu = (serves s cpu, s') /\ core s' = core s /\ wf s' /\
  tells s' cpu = (if serves s cpu then told s cpu else (1023, 0)) /\ forall c, 0 <= c -> c <> cpu -> tells s' c = tells s c.
Proof.
  intros W Hc. pose proof (update_cpu_core s cpu) as Ec. pose proof (update_cpu_wf s cpu W) as W'. destruct (serves s cpu) eqn:Es.
  - apply andb_true_iff in Es as [He Hce]. destruct (update_cpu_told s cpu W Hc He Hce) as (s' & E & ? & ?). rewrite E in *. by exists s'.
  - destruct (update_cpu_stops s cpu W Hc Es) as (s' & E & ? & ?). rewrite E in *. by exists s'.
Qed.
Lemma update_cpus_frame l : forall s c, wf s -> Forall (fun x => 0 <= x < NCPU) l -> 0 <= c -> c ∉ l -> tells (update_cpus s l) c = tells s c.
Proof.
  induction l as [|cpu l IH]; intros s c W Hl H0 Hc; [done|]. apply Forall_cons in Hl as [Hr Hl].
  apply not_elem_of_cons in Hc as [Hne Hc]. cbn [update_cpus]. destruct (update_cpu_serves s cpu W Hr) as (s' & -> & _ & W' & _ & Hf).
  destruct (serves s cpu); [|by apply Hf]. rewrite IH by done. by apply Hf.
Qed.
Lemma update_cpus_at l1 : forall s c l2, wf s -> NoDup (l1 ++ c :: l2) -> Forall (fun x => 0 <= x < NCPU) (l1 ++ c :: l2) ->
  tells (update_cpus s (l1 ++ c :: l2)) c =
  (if forallb (serves s) l1 then (if serves s c then told s c else (1023, 0)) else tells s c).
Proof.
  induction l1 as [|x l1 IH]; intros s c l2 W Hn Hr; cbn [app update_cpus forallb] in *; apply NoDup_cons in Hn as [Hx Hn]; apply Forall_cons in Hr as [Hrx Hr].
  - destruct (update_cpu_serves s c W Hrx) as (s' & -> & _ & W' & Ht & _). destruct (serves s c); [|done]. by rewrite update_cpus_frame by (done || lia).
  - destruct (update_cpu_serves s x W Hrx) as (s' & -> & Ec & W' & _ & Hf).
    assert (0 <= c /\ c <> x) as [H0 Hne].
    { split; [rewrite Forall_app, Forall_cons in Hr; lia|]. intros ->. apply Hx, elem_of_app. right. by left. }
    destruct (serves s x); cbn [andb]; [|by apply Hf]. rewrite IH by done. rewrite (core_serves s s') by done. rewrite (core_told s s') by done. rewrite Hf by done.
    assert (forallb (serves s') l1 = forallb (serves s) l1) as ->; [|done]. clear -Ec. induction l1 as [|y l1 IH]; [done|]. cbn. by rewrite IH, (core_serves s s').
Qed.
Lemma gic_update_at s cpu : wf s -> 0 <= cpu < num_cpu s -> tells (gic_update s) cpu =
  (if forallb (serves s) (seqZ 0 cpu) then (if serves s cpu then told s cpu else (1023, 0)) else tells s cpu).
Proof.
  intros W Hc. pose proof (wf_cpus _ W). unfold gic_update.
  assert (seqZ 0 (num_cpu s) = seqZ 0 cpu ++ cpu :: seqZ (cpu + 1) (num_cpu s - cpu - 1)) as E.
  { replace (num_cpu s) with (cpu + (1 + (num_cpu s - cpu - 1))) at 1 by lia. by rewrite !seqZ_app by lia. }
  rewrite E. apply update_cpus_at; [done|rewrite <- E; apply NoDup_seqZ|]. rewrite <- E. apply Forall_forall. intros x Hx%elem_of_seqZ. lia.
Qed.
Lemma told_highest s cpu : wf s ->
  (told s cpu = (1023, 0) /\
   forall j, 0 <= j < num_irq s -> cand s cpu j = true -> aget 0 (priority_mask s) cpu <= GIC_GET_PRIORITY s j cpu) \/
  (exists i, highest s cpu (num_irq s) i /\ GIC_GET_PRIORITY s i cpu < aget 0 (priority_mask s) cpu /\
   told s cpu = (i, b2z (GIC_GET_PRIORITY s i cpu <? aget 0 (running_priority s) cpu))).
Proof.
  intros W. unfold told. destruct (best_pending_of s cpu W) as [[E Hno]|(j & E & Hj)]; rewrite E.
  - pose proof (sized_aget _ _ 0 _ cpu (wf_mask _ W) ltac:(by vm_compute)) as [_ Hm].
    destruct (Z.ltb_spec 0x100 (aget 0 (priority_mask s) cpu)); [lia|]. left. split; [done|]. intros j Hj Hcj. by rewrite Hno in Hcj.
  - destruct (Z.ltb_spec (GIC_GET_PRIORITY s j cpu) (aget 0 (priority_mask s) cpu)) as [Hlt|Hge]; [right; by exists j|].
    left. split; [done|]. intros k Hk Hck. destruct Hj as (_ & _ & Hbest). destruct (Hbest k Hk Hck). lia.
Qed.

(** C19. What an update tells a CPU, in every case.  If the distributor and the interfaces of the CPU and of those in
    front of it are enabled: among the enabled pending interrupts the one of the lowest priority value, the lowest
    number among equals, provided the CPU's mask lets it through, and the line of the CPU is raised exactly when that
    interrupt preempts the running one.  If the CPU is the first that is not served: no interrupt, and the line is
    lowered.  The CPUs behind it keep what they were told before. *)
Theorem update_signals_highest s cpu :
  wf s -> 0 <= cpu < num_cpu s ->
  let s' := gic_update s in
  let i := aget 0 (current_pending s') cpu in
  let line := aget 0 (parent_irq s') cpu in
  ((forall c, 0 <= c <= cpu -> serves s c = true) ->
   (i = 1023 /\ line = 0 /\
    forall j, 0 <= j < num_irq s -> cand s cpu j = true -> aget 0 (priority_mask s) cpu <= GIC_GET_PRIORITY s j cpu) \/
   (highest s cpu (num_irq s) i /\ GIC_GET_PRIORITY s i cpu < aget 0 (priority_mask s) cpu /\
    line = b2z (GIC_GET_PRIORITY s i cpu <? aget 0 (running_priority s) cpu))) /\
  ((forall c, 0 <= c < cpu -> serves s c = true) -> serves s cpu = false -> i = 1023 /\ line = 0) /\
  ((exists c, 0 <= c < cpu /\ serves s c = false) -> i = aget 0 (current_pending s) cpu /\ line = aget 0 (parent_irq s) cpu).
Proof.
  intros W Hc s' i line. pose proof (gic_update_at s cpu W Hc) as Ht. unfold tells in Ht. fold s' in Ht. fold i line in Ht.
  assert ((forall c, 0 <= c < cpu -> serves s c = true) -> forallb (serves s) (seqZ 0 cpu) = true) as Hall.
  { intros H. apply forallb_forall. intros c Hin%list_elem_of_In%elem_of_seqZ. apply H. lia. }
  split; [|split].
  - intros H. rewrite Hall, H in Ht by (intros; apply H || lia; lia).
    destruct (told_highest s cpu W) as [[E Hno]|(k & Hk & Hlt & E)]; rewrite E in Ht; injection Ht as Hi Hl; [by left|right]. by rewrite Hi.
  - intros H Hs. rewrite Hall, Hs in Ht by done. by injection Ht.
  - intros (c & Hc' & Hs). assert (forallb (serves s) (seqZ 0 cpu) = false) as E.
    { apply not_true_iff_false. intros H. rewrite forallb_forall in H. rewrite H in Hs; [done|]. apply list_elem_of_In, elem_of_seqZ. lia. }
    rewrite E in Ht. by injection Ht.
Qed.

(** ** Every access keeps the sizes and widths *)

Lemma irq_fields_ok i : irq_ok i -> forall c b,
  irq_ok i.[i_enabled := u8 (i_enabled i .| c)] /\ irq_ok i.[i_enabled := i_enabled i .& not8 c] /\
  irq_ok i.[i_pending := u8 (i_pending i .| c)] /\ irq_ok i.[i_pending := i_pending i .& not8 c] /\
  irq_ok i.[i_level := u8 c] /\ irq_ok i.[i_level := i_level i .& not8 c] /\ irq_ok i.[i_model := b] /\ irq_ok i.[i_trigger := b].
Proof. intros [? ? ? ?] c b. do 7 (split; [split; cbn; auto with cint|]). split; cbn; auto with cint. Qed.
Ltac irq_op := intros; apply with_irq_wf; [assumption|]; intros ? ?; apply irq_fields_ok; [assumption|..]; exact 0 || exact true.
Lemma set_enabled_wf s irq cm : wf s -> wf (GIC_SET_ENABLED s irq cm). Proof. irq_op. Qed.
Lemma clear_enabled_wf s irq cm : wf s -> wf (GIC_CLEAR_ENABLED s irq cm). Proof. irq_op. Qed.
Lemma set_pending_wf s irq cm : wf s -> wf (GIC_SET_PENDING s irq cm). Proof. irq_op. Qed.
Lemma clear_pending_wf s irq cm : wf s -> wf (GIC_CLEAR_PENDING s irq cm). Proof. irq_op. Qed.
Lemma set_model_wf s irq b : wf s -> wf (GIC_SET_MODEL s irq b). Proof. irq_op. Qed.
Lemma set_level_wf s irq cm : wf s -> wf (GIC_SET_LEVEL s irq cm). Proof. irq_op. Qed.
Lemma clear_level_wf s irq cm : wf s -> wf (GIC_CLEAR_LEVEL s irq cm). Proof. irq_op. Qed.
Lemma set_trigger_wf s irq b : wf s -> wf (GIC_SET_TRIGGER s irq b). Proof. irq_op. Qed.
Create HintDb gicwf.
#[local] Hint Resolve set_enabled_wf clear_enabled_wf set_pending_wf clear_pending_wf set_model_wf set_level_wf clear_level_wf
  set_trigger_wf gic_update_wf : gicwf.

Lemma foldl_wf {A} (f : GICState -> A -> GICState) l : (forall s x, wf s -> wf (f s x)) -> forall s, wf s -> wf (foldl f s l).
Proof. intros Hf. induction l as [|x l IH]; intros s W; [done|]. apply IH, Hf, W. Qed.
Lemma gic_set_irq_wf s irq level : wf s -> wf (gic_set_irq s irq level).
Proof.
  intros W. unfold gic_set_irq. destruct (line_irq s irq) as [[i cm] target]. destruct (_ =? _); [done|].
  destruct (truth level); [|auto with gicwf]. destruct (_ || _); auto with gicwf.
Qed.
Lemma set_running_wf s cpu irq : wf s -> irq_ref (num_irq s) irq -> wf (gic_set_running_irq s cpu irq).
Proof.
  intros W Hi. unfold gic_set_running_irq. apply gic_update_wf.
  assert (prio_range (if irq =? 1023 then 0x100 else GIC_GET_PRIORITY s irq cpu)) as Hp.
  { destruct (irq =? 1023); [by vm_compute|]. destruct (prio_u8 s irq cpu W). split; lia. }
  destruct W. split; cbn; auto with gic.
Qed.
Lemma ack_wf s cpu : wf s -> wf (snd (gic_acknowledge_irq s cpu)).
Proof.
  intros W. unfold gic_acknowledge_irq. destruct (_ || _); [done|]. cbn [snd].
  pose proof (ref_zero s W) as H0. pose proof (sized_aget _ _ 0 _ cpu (wf_running _ W) H0). pose proof (sized_aget _ _ 0 _ cpu (wf_current _ W) H0).
  apply set_running_wf; [|done]. apply clear_pending_wf. destruct W. split; cbn; auto with gic.
Qed.
Lemma unlink_wf n s cpu irq tmp s' : wf s -> unlink_loop n s cpu irq tmp = Some s' -> wf s'.
Proof.
  intros W. revert tmp. induction n as [|n IH]; intros tmp; cbn [unlink_loop]; [done|]. destruct (_ =? 1023); [by intros [= <-]|].
  destruct (_ =? irq); [|apply IH]. intros [= <-]. pose proof (rows_aget2 _ _ _ _ irq cpu (wf_last _ W) (ref_zero s W)).
  destruct W. split; cbn; auto with gic.
Qed.
Lemma complete_wf n s cpu irq s' : wf s -> gic_complete_irq n s cpu irq = Some s' -> wf s'.
Proof.
  intros W. unfold gic_complete_irq. destruct (_ <=? _); [by intros [= <-]|]. destruct (_ =? 1023); [by intros [= <-]|]. cbv zeta.
  set (upd := _ && _). assert (wf (if upd then GIC_SET_PENDING s irq (1 .<< cpu) else s)) as W1 by (destruct upd; auto with gicwf).
  set (s1 := if upd then _ else _) in *. clearbody s1. destruct (negb (irq =? _)).
  - destruct (unlink_loop n s1 cpu irq _) as [s2|] eqn:E; cbn [mbind option_bind]; [|done]. apply unlink_wf in E; [|done]. intros [= <-]. destruct upd; auto with gicwf.
  - intros [= <-]. apply set_running_wf; [done|]. eapply rows_aget2; [apply (wf_last _ W1)|by apply ref_zero].
Qed.
Lemma scatter_wf f s v irq n : (forall s i, wf s -> wf (f s i)) -> wf s -> wf (scatter f s v irq n).
Proof. intros Hf. apply foldl_wf. intros s' i W. destruct (_ .&? _); auto. Qed.
Lemma dist_write_wf s cpu off v s' : wf s -> dist_write s cpu off v = Some s' -> wf s'.
Proof.
  intros W. unfold dist_write. cbv zeta. repeat (case_match; try done); intros [= <-]; try done;
    try (apply scatter_wf; [|done]; intros; unfold set_enable; repeat case_match; by auto with gicwf);
    try (destruct W; split; cbn; auto with gic cint; fail).
  all: unfold configure; auto 20 with gicwf.
Qed.
Lemma writeb_wf s cpu off v : wf s -> wf (gic_dist_writeb s cpu off v).
Proof.
  intros W. unfold gic_dist_writeb. destruct (dist_write s cpu off v) eqn:E; [|done]. by eapply gic_update_wf, dist_write_wf.
Qed.
Lemma writel_wf s cpu off v : wf s -> wf (gic_dist_writel s cpu off v).
Proof.
  intros W. unfold gic_dist_writel, gic_dist_writew. destruct (off =? 0xf00); [auto with gicwf|]. by do 4 apply writeb_wf.
Qed.
Lemma cpu_write_wf n s cpu off v s' : wf s -> gic_cpu_write n s cpu off v = Some s' -> wf s'.
Proof.
  intros W. unfold gic_cpu_write. assert (prio_range (v .& 0xff)) as Hv.
  { assert (is_u 8 (v .& 0xff)) as [? ?] by (apply is_u_land_r; [lia|by vm_compute]). split; lia. }
  destruct (off =? 0); [intros [= <-]; apply gic_update_wf; destruct W; split; cbn; rewrite ?length_aset; auto with gic|].
  destruct (off =? 4); [intros [= <-]; apply gic_update_wf; destruct W; split; cbn; auto with gic|].
  destruct (off =? 8); [intros [= <-]; auto with gicwf|]. destruct (off =? 16); [by apply complete_wf|]. by intros [= <-].
Qed.
Lemma cpu_read_wf s cpu off : wf s -> wf (snd (gic_cpu_read s cpu off)).
Proof. intros W. unfold gic_cpu_read. repeat (case_match; try done). by apply ack_wf. Qed.
Lemma cleared_wf s : wf s -> wf s.[irq_state := replicate (Z.to_nat GIC_MAXIRQ) irq_zero].
Proof.
  intros W. destruct W. split; try assumption. cbn [irq_state set_field].
  split; [by rewrite length_replicate|]. apply Forall_replicate. split; by vm_compute.
Qed.
Lemma reset_cpu_wf s i : wf s -> wf (reset_cpu s i).
Proof.
  intros W. unfold reset_cpu. destruct W. split; cbn; rewrite ?length_aset; auto 10 with gic. destruct (_ =? _); auto 10 with gic.
Qed.
Lemma reset_targets_wf s : wf s -> wf (reset_targets s).
Proof.
  intros W. unfold reset_targets. destruct (num_cpu s =? 1); [|done]. destruct W. split; try assumption.
  cbn [irq_target set_field]. split; [by rewrite length_replicate|]. apply Forall_replicate. by vm_compute.
Qed.
Lemma disabled_wf s : wf s -> wf s.[enabled := false].
Proof. intros W. destruct W. by split. Qed.
Lemma reset_wf s : wf s -> wf (arm_gic_common_reset s).
Proof.
  intros W. unfold arm_gic_common_reset. apply disabled_wf, reset_targets_wf, foldl_wf.
  - intros s' x W'. unfold reset_sgi. auto with gicwf.
  - apply foldl_wf; [intros; by apply reset_cpu_wf|]. by apply cleared_wf.
Qed.
Lemma realize_spec s s' : arm_gic_common_realize s = (true, s') ->
  num_cpu s <= NCPU /\ exists n, s' = s.[num_irq := n] /\ 32 <= n <= GIC_MAXIRQ /\ n mod 32 = 0.
Proof.
  unfold arm_gic_common_realize. destruct (Z.ltb_spec NCPU (num_cpu s)) as [|H1]; [done|]. cbn. set (n := u32 _). clearbody n.
  destruct (Z.ltb_spec GIC_MAXIRQ n) as [|H2]; [done|]. destruct (Z.ltb_spec n 32) as [|H3]; [done|].
  destruct (Z.eqb_spec (n mod 32) 0); [|done]. intros [= <-]. split; [done|]. by exists n.
Qed.
Lemma sized_replicate n P x : 0 <= n -> P x -> sized n P (replicate (Z.to_nat n) x).
Proof. intros Hn Hx. split; [rewrite length_replicate; lia|by apply Forall_replicate]. Qed.
Lemma rows_replicate n m P x : 0 <= n -> 0 <= m -> P x -> rows n m P (replicate (Z.to_nat n) (replicate (Z.to_nat m) x)).
Proof.
  intros Hn Hm Hx. split; [rewrite length_replicate; lia|]. apply Forall_replicate. by apply (sized_replicate m P x Hm).
Qed.
Lemma zeroed_wf cpus n rev : 1 <= cpus <= NCPU -> 32 <= n <= GIC_MAXIRQ -> wf (gic_new cpus n rev).
Proof.
  intros Hc Hn. assert (irq_ref n 0) by (right; lia).
  split; try (apply sized_replicate; by vm_compute); try (apply sized_replicate; [by vm_compute|done]);
    try (apply rows_replicate; by vm_compute); try (apply rows_replicate; [by vm_compute..|done]); try done.
  cbn [gic_new irq_state]. split; [rewrite length_replicate; by vm_compute|apply Forall_replicate; split; by vm_compute].
Qed.
Lemma new_wf cpus irqs rev s : 1 <= cpus -> arm_gic_common_realize (gic_new cpus irqs rev) = (true, s) -> wf s.
Proof.
  intros Hc (Hn & n & -> & H1 & H2)%realize_spec. change (num_cpu _) with cpus in Hn.
  change (wf (gic_new cpus n rev)). by apply zeroed_wf.
Qed.

(** The accesses of guest, lines and CPU; [None] is an end of interrupt whose
    search outlasts the fuel. *)
Inductive access :=
| SetIrq (irq level : Z) | SetPending (cpu irq : Z) | Acknowledge (cpu : Z) | Complete (cpu irq : Z)
| Writeb (cpu off v : Z) | Writew (cpu off v : Z) | Writel (cpu off v : Z) | CpuRead (cpu off : Z) | CpuWrite (cpu off v : Z) | Reset.
Definition exec (fuel : nat) (a : access) (s : GICState) : option GICState :=
  match a with
  | SetIrq irq level => Some (gic_set_irq s irq level)
  | SetPending cpu irq => Some (gic_set_pending_private s cpu irq)
  | Acknowledge cpu => Some (snd (gic_acknowledge_irq s cpu))
  | Complete cpu irq => gic_complete_irq fuel s cpu irq
  | Writeb cpu off v => Some (gic_dist_writeb s cpu off v)
  | Writew cpu off v => Some (gic_dist_writew s cpu off v)
  | Writel cpu off v => Some (gic_dist_writel s cpu off v)
  | CpuRead cpu off => Some (snd (gic_cpu_read s cpu off))
  | CpuWrite cpu off v => gic_cpu_write fuel s cpu off v
  | Reset => Some (arm_gic_common_reset s)
  end.
Lemma access_wf n a s s' : wf s -> exec n a s = Some s' -> wf s'.
Proof.
  intros W. destruct a; cbn [exec]; try (intros [= <-]).
  - by apply gic_set_irq_wf.
  - unfold gic_set_pending_private. destruct (GIC_TEST_PENDING _ _ _); auto with gicwf.
  - by apply ack_wf.
  - by apply complete_wf.
  - by apply writeb_wf.
  - unfold gic_dist_writew. by do 2 apply writeb_wf.
  - by apply writel_wf.
  - by apply cpu_read_wf.
  - by apply cpu_write_wf.
  - by apply reset_wf.
Qed.
Fixpoint run (fuel : nat) (l : list access) (s : GICState) : option GICState :=
  match l with [] => Some s | a :: l => s ← exec fuel a s; run fuel l s end.
Lemma run_wf n l : forall s s', wf s -> run n l s = Some s' -> wf s'.
Proof.
  induction l as [|a l IH]; intros s s' W; cbn [run]; [by intros [= <-]|].
  destruct (exec n a s) as [s1|] eqn:E; cbn [mbind option_bind]; [|done]. apply IH. by eapply access_wf.
Qed.

(** From creation on, whatever accesses the guest, the lines and the CPUs make, with any operands, every
    array of the controller keeps its size and every cell its width. *)
Theorem gic_reachable_wf cpus irqs rev s0 n l s :
  1 <= cpus -> arm_gic_common_realize (gic_new cpus irqs rev) = (true, s0) ->
  run n l (arm_gic_common_reset s0) = Some s -> wf s.
Proof. intros Hc E Hr. eapply run_wf; [|done]. apply reset_wf. by eapply new_wf. Qed.

(** ** Nested interrupts *)

Section Nesting.
Context (cpu : Z) (Hcpu : 0 <= cpu < NCPU).

(** The active interrupts, the running one first: each preempted the next. *)
Fixpoint stack (s : GICState) (top : Z) (l : list Z) : Prop :=
  match l with
  | [] => top = 1023
  | i :: l => top = i /\ 0 <= i < num_irq s /\ stack s (aget2 (last_active s) i cpu) l
  end.
Abbreviation prio s i := (GIC_GET_PRIORITY s i cpu).
Record nested (s : GICState) (l : list Z) : Prop := {
  ne_stack : stack s (aget 0 (running_irq s) cpu) l;
  ne_order : StronglySorted (fun i j => prio s i < prio s j) l;
  ne_running : aget 0 (running_priority s) cpu = match l with [] => 0x100 | i :: _ => prio s i end
}.
Lemma stack_ext s s' l : (forall i, i ∈ l -> aget2 (last_active s') i cpu = aget2 (last_active s) i cpu) -> num_irq s' = num_irq s ->
  forall top, stack s top l -> stack s' top l.
Proof.
  intros Hl Hn. induction l as [|i l IH]; intros top; cbn [stack]; [done|]. intros (-> & Hi & Hs). rewrite Hn. do 2 (split; [done|]).
  rewrite Hl by by left. apply IH; [|done]. intros j Hj. apply Hl. by right.
Qed.
(** What the nesting depends on. *)
Record column (s s' : GICState) : Prop := {
  cl_cpus : num_cpu s' = num_cpu s;
  cl_irqs : num_irq s' = num_irq s;
  cl_last i : 0 <= i -> aget2 (last_active s') i cpu = aget2 (last_active s) i cpu;
  cl_running : aget 0 (running_irq s') cpu = aget 0 (running_irq s) cpu;
  cl_prio : aget 0 (running_priority s') cpu = aget 0 (running_priority s) cpu;
  cl_prios i : prio s' i = prio s i
}.
#[export] Instance column_preorder : PreOrder column.
Proof.
  split; [by intros s; split|]. intros s1 s2 s3 [Z A B D E F] [Z' A' B' D' E' F'].
  split; [congruence|congruence|intros i Hi; rewrite B' by done; by apply B|congruence|congruence|intros i; by rewrite F', F].
Qed.
Lemma nested_column s s' l : column s s' -> nested s l -> nested s' l.
Proof.
  intros [_ E2 E1 E3 E4 E5] [Hs Ho Hr]. split.
  - rewrite E3. clear Ho Hr. revert Hs. generalize (aget 0 (running_irq s) cpu). induction l as [|i l IH]; intros top; [done|].
    cbn [stack]. intros (-> & Hi & Hs). rewrite E2, E1 by lia. do 2 (split; [done|]). by apply IH.
  - clear Hs Hr. induction Ho as [|i l Ho IH Hi]; constructor; [done|]. rewrite Forall_forall in *. intros j Hj. rewrite !E5. by apply Hi.
  - rewrite E4, Hr. destruct l; [done|]. by rewrite E5.
Qed.
Lemma column_core s s' : core s' = core s -> column s s'.
Proof.
  intros (E1 & E2 & E3 & E4 & E5 & E6 & E7 & E8 & E9 & E10 & E11 & E12 & E13)%core_tests.
  split; [done|done|by intros; rewrite E11|by rewrite E10|by rewrite E5|]. intros i. unfold GIC_GET_PRIORITY. by rewrite E8, E9.
Qed.
Lemma column_irqs s l : column s s.[irq_state := l].
Proof. by split. Qed.
Lemma nested_range s l i : nested s l -> i ∈ l -> 0 <= i < num_irq s.
Proof.
  intros [Hs _ _] Hi. revert Hs. generalize (aget 0 (running_irq s) cpu). induction l as [|j l IH]; intros top; [by apply not_elem_of_nil in Hi|].
  intros (-> & Hj & Hs). apply elem_of_cons in Hi as [->|Hi]; [done|]. by eapply IH.
Qed.
Lemma nested_top s l i : nested s l -> i ∈ l -> aget 0 (running_priority s) cpu <= prio s i.
Proof.
  intros [_ Ho Hr] Hi. rewrite Hr. destruct l as [|j l]; [by apply not_elem_of_nil in Hi|].
  apply StronglySorted_inv in Ho as [_ Ho]. rewrite Forall_forall in Ho. apply elem_of_cons in Hi as [->|Hi]; [lia|].
  specialize (Ho i Hi). cbn beta in Ho. lia.
Qed.
(** Strictly increasing byte priorities: at most 256 interrupts are active. *)
Lemma nested_depth s l : wf s -> nested s l -> (length l <= 256)%nat.
Proof.
  intros W [_ Ho _]. assert (forall b l, StronglySorted (fun i j => prio s i < prio s j) l -> Forall (fun i => b <= prio s i) l -> b <= 256 ->
    Z.of_nat (length l) <= 256 - b) as H.
  { intros b k. revert b. induction k as [|i k IH]; intros b Hk Hb H0; cbn [length]; [lia|].
    apply StronglySorted_inv in Hk as [Hk Hi]. apply Forall_cons in Hb as [Hb _]. destruct (prio_u8 s i cpu W).
    specialize (IH (prio s i + 1) Hk). rewrite Nat2Z.inj_succ. assert (Z.of_nat (length k) <= 256 - (prio s i + 1)); [|lia].
    apply IH; [|lia]. rewrite Forall_forall in *. intros j Hj. specialize (Hi j Hj). cbn beta in Hi. lia. }
  specialize (H 0 l Ho). assert (Z.of_nat (length l) <= 256 - 0); [|lia]. apply H; [|lia]. apply Forall_forall. intros i _. apply (prio_u8 s i cpu W).
Qed.

Lemma set_pending_nested s irq cm l : nested s l -> nested (GIC_SET_PENDING s irq cm) l.
Proof. apply nested_column, column_irqs. Qed.
Lemma gic_update_nested s l : nested s l -> nested (gic_update s) l.
Proof. apply nested_column, column_core, gic_update_core. Qed.

(** Acknowledging takes an interrupt that preempts all active ones. *)
Lemma ack_nested s l : wf s -> nested s l ->
  let '(irq, s') := gic_acknowledge_irq s cpu in
  (irq = 1023 /\ s' = s) \/ (0 <= irq < num_irq s /\ (irq ∉ l) /\ prio s irq < aget 0 (running_priority s) cpu /\ nested s' (irq :: l)).
Proof.
  intros W N. unfold gic_acknowledge_irq. set (irq := aget 0 (current_pending s) cpu).
  pose proof (sized_aget _ _ 0 _ cpu (wf_current _ W) (ref_zero s W)) as Hirq. fold irq in Hirq.
  destruct (Z.eqb_spec irq 1023) as [E|E]; [by left|]. destruct Hirq as [|Hirq]; [done|]. cbn [orb].
  destruct (Z.leb_spec (aget 0 (running_priority s) cpu) (prio s irq)) as [|Hlt]; [by left|]. right. split; [done|].
  assert (irq ∉ l) as Hl by (intros Hin; pose proof (nested_top s l irq N Hin); lia). do 2 (split; [done|]).
  pose proof (wf_irqs _ W) as Hn. unfold gic_set_running_irq. destruct (Z.eqb_spec irq 1023); [done|]. apply gic_update_nested.
  destruct N as [Ns No Nr]. pose proof (wf_last _ W) as Hla. destruct (wf_running _ W) as [Hrl _], (wf_running_prio _ W) as [Hpl _].
  split.
  - cbn [stack]. cbn -[aset2 aget2 stack]. rewrite aget_aset_eq by lia. do 2 (split; [done|]).
    rewrite (aget2_aset2 _ _ _ _ _ _ _ _ _ Hla) by (lia || (unfold GIC_MAXIRQ in *; lia)). rewrite !Z.eqb_refl. cbn [andb].
    apply (stack_ext s); [|done|done]. intros i Hi. cbn -[aset2 aget2].
    pose proof (nested_range s l i {| ne_stack := Ns; ne_order := No; ne_running := Nr |} Hi).
    rewrite (aget2_aset2 _ _ _ _ _ _ _ _ _ Hla) by (lia || (unfold GIC_MAXIRQ in *; lia)).
    destruct (Z.eqb_spec i irq) as [->|]; [done|]. done.
  - constructor; [exact No|]. apply Forall_forall. intros i Hi.
    pose proof (nested_top s l i {| ne_stack := Ns; ne_order := No; ne_running := Nr |} Hi).
    change (prio s irq < prio s i). lia.
  - cbn -[GIC_GET_PRIORITY]. by rewrite aget_aset_eq by lia.
Qed.

Lemma unlink_spec n : forall s irq tmp l, wf s -> NoDup (tmp :: l) -> 0 <= tmp < num_irq s -> 0 <= irq < num_irq s ->
  stack s (aget2 (last_active s) tmp cpu) l -> (length l < n)%nat ->
  exists la, unlink_loop n s cpu irq tmp = Some s.[last_active := la] /\
    stack s.[last_active := la] (aget2 la tmp cpu) (filter (fun i => i <> irq) l) /\
    forall i, 0 <= i -> i ∉ tmp :: l -> aget2 la i cpu = aget2 (last_active s) i cpu.
Proof.
  induction n as [|n IH]; intros s irq tmp l W Hnd Ht Hirq Hst Hn; [lia|]. cbn [unlink_loop].
  pose proof (wf_irqs _ W) as Hni. pose proof (wf_last _ W) as Hla. unfold GIC_MAXIRQ in *. destruct l as [|j l]; cbn [stack] in Hst.
  - rewrite Hst. cbn [Z.eqb]. exists (last_active s). change (1023 =? 1023) with true. cbv iota.
    split; [by destruct s|]. split; [exact Hst|done].
  - destruct Hst as (Ej & Hj & Hst). rewrite Ej. destruct (Z.eqb_spec j 1023); [lia|].
    apply NoDup_cons in Hnd as [Htj Hnd]. pose proof Hnd as [Hjl Hnd']%NoDup_cons. destruct (Z.eqb_spec j irq) as [->|Hne].
    + eexists. split; [done|]. rewrite (aget2_aset2 _ _ _ _ _ _ _ _ _ Hla) by lia. rewrite !Z.eqb_refl. cbn [andb].
      rewrite filter_cons_False by (intros []; done). split.
      * assert (filter (fun i => i <> irq) l = l) as ->.
        { clear -Hjl. induction l as [|x l IH]; [done|]. apply not_elem_of_cons in Hjl as [? ?]. rewrite filter_cons_True by congruence. by rewrite IH. }
        apply (stack_ext s); [|done|done]. intros i Hi. cbn -[aset2 aget2].
        assert (i <> tmp) by (intros ->; apply Htj; by right). destruct (Z_lt_le_dec i 0) as [H0|H0].
        { exfalso. revert Hst Hi H0. clear. generalize (aget2 (last_active s) irq cpu). induction l as [|x l IH]; intros top Hst Hi H0; [by apply not_elem_of_nil in Hi|].
          destruct Hst as (-> & ? & Hst). apply elem_of_cons in Hi as [->|Hi]; [lia|by eapply IH]. }
        rewrite (aget2_aset2 _ _ _ _ _ _ _ _ _ Hla) by lia. by destruct (Z.eqb_spec i tmp).
      * intros i H0 [Hi _]%not_elem_of_cons. rewrite (aget2_aset2 _ _ _ _ _ _ _ _ _ Hla) by lia. by destruct (Z.eqb_spec i tmp).
    + destruct (IH s irq j l W Hnd Hj Hirq Hst ltac:(cbn in Hn; lia)) as (la & -> & Hs' & Hf). exists la. split; [done|].
      rewrite filter_cons_True by done. assert (aget2 la tmp cpu = j) as Et by (rewrite Hf; [done|lia|done]).
      split; [|intros i H0 [_ Hi]%not_elem_of_cons; by apply Hf]. cbn [stack]. split; [done|]. split; [done|]. exact Hs'.
Qed.

Lemma nested_nodup s l : nested s l -> NoDup l.
Proof.
  intros [_ Ho _]. induction Ho as [|i l Ho IH Hi]; [apply NoDup_nil_2|]. apply NoDup_cons. split; [|done].
  intros Hin. rewrite Forall_forall in Hi. specialize (Hi i Hin). cbn beta in Hi. lia.
Qed.
Lemma filter_all (irq : Z) (l : list Z) : irq ∉ l -> filter (fun i => i <> irq) l = l.
Proof.
  induction l as [|x l IH]; [done|]. intros [? ?]%not_elem_of_cons. rewrite filter_cons_True by congruence. by rewrite IH.
Qed.
Lemma order_filter s irq l : StronglySorted (fun i j => prio s i < prio s j) l ->
  StronglySorted (fun i j => prio s i < prio s j) (filter (fun i => i <> irq) l).
Proof.
  induction 1 as [|i l Ho IH Hi]; [constructor|]. rewrite filter_cons. destruct (decide (i <> irq)); [|done].
  constructor; [done|]. rewrite Forall_forall in *. intros j [_ Hj]%list_elem_of_filter. by apply Hi.
Qed.
(** The end of the running interrupt resumes the one it preempted. *)
Lemma resume_nested s i l : wf s -> nested s (i :: l) -> nested (gic_set_running_irq s cpu (aget2 (last_active s) i cpu)) l.
Proof.
  intros W [Ns No Nr]. destruct (wf_running _ W) as [Hrl _], (wf_running_prio _ W) as [Hpl _]. pose proof (wf_irqs _ W). unfold GIC_MAXIRQ in *.
  cbn [stack] in Ns. destruct Ns as (_ & Hi & Ns). apply StronglySorted_inv in No as [No _].
  unfold gic_set_running_irq. apply gic_update_nested. split.
  - cbn -[aget2]. rewrite aget_aset_eq by lia. by apply (stack_ext s).
  - exact No.
  - cbn -[GIC_GET_PRIORITY aget2]. rewrite aget_aset_eq by lia. destruct l as [|j l]; cbn [stack] in Ns; [by rewrite Ns|].
    destruct Ns as (-> & Hj & _). destruct (Z.eqb_spec j 1023); [lia|]. done.
Qed.
Lemma complete_nested n s irq l : wf s -> nested s l -> 0 <= irq -> (length l < n)%nat ->
  exists s', gic_complete_irq n s cpu irq = Some s' /\ nested s' (filter (fun i => i <> irq) l).
Proof.
  intros W N H0 Hn. unfold gic_complete_irq. destruct (Z.leb_spec (num_irq s) irq).
  { exists s. split; [done|]. rewrite filter_all; [done|]. intros Hin. pose proof (nested_range s l irq N Hin). lia. }
  pose proof N as [Ns _ _]. destruct (Z.eqb_spec (aget 0 (running_irq s) cpu) 1023) as [Er|Er].
  { exists s. split; [done|]. destruct l as [|j l]; [done|]. destruct Ns as (Ej & Hj & _). pose proof (wf_irqs _ W). unfold GIC_MAXIRQ in *. lia. }
  cbv zeta. set (upd := _ && _). set (s1 := if upd then _ else s).
  assert (wf s1 /\ nested s1 l /\ num_irq s1 = num_irq s /\ running_irq s1 = running_irq s) as (W1 & N1 & En & Eri).
  { subst s1. destruct upd; [|done]. split; [by apply set_pending_wf|]. split; [by apply set_pending_nested|done]. }
  clearbody s1. rewrite Eri. destruct l as [|j l]; cbn [stack] in Ns; [done|]. destruct Ns as (Ej & Hj & _). rewrite Ej.
  pose proof (nested_nodup s1 _ N1) as Hnd. destruct (Z.eqb_spec irq j) as [->|Hne]; cbn [negb].
  - eexists. split; [done|]. rewrite filter_cons_False by (intros []; done). apply NoDup_cons in Hnd as [Hjl _]. rewrite filter_all by done.
    by apply resume_nested.
  - pose proof N1 as [Ns1 No1 Nr1]. cbn [stack] in Ns1. destruct Ns1 as (Ej1 & Hj1 & Ns1).
    destruct (unlink_spec n s1 irq j l W1 Hnd Hj1 ltac:(lia) Ns1 ltac:(cbn in Hn; lia)) as (la & -> & Hst & Hf). cbn [mbind option_bind].
    rewrite filter_cons_True by done. assert (nested s1.[last_active := la] (j :: filter (fun i => i <> irq) l)) as N2.
    { split.
      - cbn [stack]. split; [exact Ej1|]. split; [exact Hj1|]. exact Hst.
      - apply (order_filter s1 irq) in No1. rewrite filter_cons_True in No1 by done. exact No1.
      - exact Nr1. }
    eexists. split; [done|]. destruct upd; [by apply gic_update_nested|done].
Qed.

(** *** The other accesses leave the nesting alone *)

Lemma column_with s irq f : column s (with_irq s irq f).
Proof. apply column_irqs. Qed.
Lemma column_update s : column s (gic_update s).
Proof. apply column_core, gic_update_core. Qed.
Lemma column_foldl {A} (f : GICState -> A -> GICState) l : (forall s x, column s (f s x)) -> forall s, column s (foldl f s l).
Proof. intros Hf. induction l as [|x l IH]; intros s; [done|]. cbn. transitivity (f s x); [apply Hf|apply IH]. Qed.
Ltac columns := repeat first [apply column_with | etransitivity; [|apply column_update] | etransitivity; [|apply column_with]].
Lemma column_set_irq s irq level : column s (gic_set_irq s irq level).
Proof.
  unfold gic_set_irq. destruct (line_irq s irq) as [[i cm] target]. destruct (_ =? _); [done|].
  destruct (truth level); [destruct (_ || _)|]; by columns.
Qed.
Definition outside_priorities (off : Z) : Prop := off < 0x400 \/ 0x800 <= off.
Lemma column_dist_write s c off v s' : outside_priorities off -> dist_write s c off v = Some s' -> column s s'.
Proof.
  intros Hoff. unfold dist_write. cbv zeta.
  destruct (Z.ltb_spec off 0x400) as [H4|H4], (Z.ltb_spec off 0x800) as [H8|H8]; try (destruct Hoff; lia).
  all: repeat (case_match; try done); intros [= <-]; try done; try lia; try (by split);
    try (apply column_foldl; intros s0 x; case_match; [|done]; unfold set_enable; repeat case_match; by columns); unfold configure; by columns.
Qed.
Lemma column_writeb s c off v : outside_priorities off -> column s (gic_dist_writeb s c off v).
Proof.
  intros Hoff. unfold gic_dist_writeb. destruct (dist_write s c off v) as [s'|] eqn:E; [|done].
  transitivity s'; [by eapply column_dist_write|apply column_update].
Qed.

Lemma aset2_other l i c i' v : 0 <= c -> c <> cpu -> 0 <= i' -> aget2 (aset2 l i c v) i' cpu = aget2 l i' cpu.
Proof.
  intros Hc Hne Hi'. unfold aget2, aset2. destruct (Z_lt_le_dec i 0); [by rewrite aset_neg|].
  destruct (Z_lt_le_dec i (Z.of_nat (length l))); [|by rewrite aset_out].
  destruct (decide (i = i')) as [->|]; [rewrite aget_aset_eq, aget_aset_ne by lia; done|by rewrite aget_aset_ne by lia].
Qed.
Lemma column_set_running s c irq : 0 <= c -> c <> cpu -> column s (gic_set_running_irq s c irq).
Proof.
  intros Hc Hne. unfold gic_set_running_irq. etransitivity; [|apply column_update].
  split; [done|done|done|cbn; by rewrite aget_aset_ne by lia|cbn -[GIC_GET_PRIORITY]; by rewrite aget_aset_ne by lia|done].
Qed.
Lemma column_last s i c v : 0 <= c -> c <> cpu -> column s s.[last_active := aset2 (last_active s) i c v].
Proof. intros Hc Hne. split; try done. intros i' Hi'. cbn -[aset2 aget2]. by apply aset2_other. Qed.
Lemma column_ack s c : 0 <= c -> c <> cpu -> column s (snd (gic_acknowledge_irq s c)).
Proof.
  intros Hc Hne. unfold gic_acknowledge_irq. destruct (_ || _); [done|]. cbn [snd].
  etransitivity; [|by apply column_set_running]. etransitivity; [|apply column_with]. by apply column_last.
Qed.
Lemma column_unlink n s c irq tmp s' : 0 <= c -> c <> cpu -> unlink_loop n s c irq tmp = Some s' -> column s s'.
Proof.
  intros Hc Hne. revert tmp. induction n as [|n IH]; intros tmp; cbn [unlink_loop]; [done|]. destruct (_ =? 1023); [by intros [= <-]|].
  destruct (_ =? irq); [|apply IH]. intros [= <-]. by apply column_last.
Qed.
Lemma column_complete n s c irq s' : 0 <= c -> c <> cpu -> gic_complete_irq n s c irq = Some s' -> column s s'.
Proof.
  intros Hc Hne. unfold gic_complete_irq. destruct (_ <=? _); [by intros [= <-]|]. destruct (_ =? 1023); [by intros [= <-]|]. cbv zeta.
  set (upd := _ && _). set (s1 := if upd then _ else s). assert (column s s1) as C1 by (subst s1; destruct upd; by columns).
  clearbody s1. destruct (negb (irq =? _)).
  - destruct (unlink_loop n s1 c irq _) as [s2|] eqn:E; cbn [mbind option_bind]; [|done]. intros [= <-].
    transitivity s1; [done|]. transitivity s2; [by eapply column_unlink|]. destruct upd; by columns.
  - intros [= <-]. transitivity s1; [done|]. by apply column_set_running.
Qed.
End Nesting.

(** Every CPU has its stack of active interrupts. *)
Definition nesting (s : GICState) : Prop := forall c, 0 <= c < num_cpu s -> exists l, nested c s l.
(** CPUs that exist, and no change of priorities. *)
Definition access_ok (cpus : Z) (a : access) : Prop :=
  match a with
  | SetPending c _ | Acknowledge c | CpuRead c _ | CpuWrite c _ _ => 0 <= c < cpus
  | Complete c irq => 0 <= c < cpus /\ 0 <= irq
  | Writeb _ off _ => outside_priorities off
  | Writew _ off _ => outside_priorities off /\ outside_priorities (off + 1)
  | Writel _ off _ => forall k, 0 <= k < 4 -> outside_priorities (off + k)
  | SetIrq _ _ => True
  | Reset => False
  end.
Lemma nesting_columns s s' : wf s -> (forall c, 0 <= c < num_cpu s -> column c s s') -> nesting s -> nesting s' /\ num_cpu s' = num_cpu s.
Proof.
  intros W Hc N. assert (num_cpu s' = num_cpu s) as E by (pose proof (wf_cpus _ W); apply (Hc 0); lia). split; [|done].
  intros c Hr. rewrite E in Hr. destruct (N c Hr) as [l Hl]. exists l. by apply (nested_column c s); [apply Hc|].
Qed.
Lemma num_cpu_update s : num_cpu (gic_update s) = num_cpu s.
Proof. apply (column_update 0). Qed.
Lemma ack_nesting s c : wf s -> 0 <= c < num_cpu s -> nesting s ->
  nesting (snd (gic_acknowledge_irq s c)) /\ num_cpu (snd (gic_acknowledge_irq s c)) = num_cpu s.
Proof.
  intros W Hc N. pose proof (wf_cpus _ W). assert (num_cpu (snd (gic_acknowledge_irq s c)) = num_cpu s) as E.
  { unfold gic_acknowledge_irq. destruct (_ || _); [done|]. cbn [snd]. unfold gic_set_running_irq. by rewrite num_cpu_update. }
  split; [|done]. intros c' Hc'. rewrite E in Hc'. destruct (N c' Hc') as [l Hl]. destruct (decide (c' = c)) as [->|Hne].
  - pose proof (ack_nested c ltac:(lia) s l W Hl) as Ha. destruct (gic_acknowledge_irq s c) as [irq s']. cbn [snd].
    destruct Ha as [[_ ->]|(_ & _ & _ & ?)]; eauto.
  - exists l. apply (nested_column c' s); [|done]. apply column_ack; lia.
Qed.
Lemma complete_num_cpu n s c irq s' : gic_complete_irq n s c irq = Some s' -> num_cpu s' = num_cpu s.
Proof.
  unfold gic_complete_irq. destruct (_ <=? _); [by intros [= <-]|]. destruct (_ =? 1023); [by intros [= <-]|]. cbv zeta.
  set (upd := _ && _). set (s1 := if upd then _ else s). assert (num_cpu s1 = num_cpu s) as E1 by (subst s1; by destruct upd).
  clearbody s1. destruct (negb (irq =? _)).
  - destruct (unlink_loop n s1 c irq _) as [s2|] eqn:E; cbn [mbind option_bind]; [|done]. intros [= <-].
    assert (num_cpu s2 = num_cpu s1) as E2.
    { revert E. generalize (aget 0 (running_irq s1) c). induction n as [|n IH]; intros tmp; cbn [unlink_loop]; [done|].
      destruct (_ =? 1023); [by intros [= <-]|]. destruct (_ =? irq); [by intros [= <-]|apply IH]. }
    destruct upd; [rewrite num_cpu_update|]; congruence.
  - intros [= <-]. unfold gic_set_running_irq. by rewrite num_cpu_update.
Qed.
Lemma complete_nesting s c irq : wf s -> 0 <= c < num_cpu s -> 0 <= irq -> nesting s ->
  exists s', gic_complete_irq 257 s c irq = Some s' /\ nesting s' /\ num_cpu s' = num_cpu s.
Proof.
  intros W Hc Hi N. pose proof (wf_cpus _ W). destruct (N c Hc) as [l Hl]. pose proof (nested_depth c s l W Hl).
  destruct (complete_nested c ltac:(lia) 257 s irq l W Hl Hi ltac:(lia)) as (s' & E & Hs'). exists s'. split; [done|].
  pose proof (complete_num_cpu _ _ _ _ _ E) as En. split; [|done]. intros c' Hc'. rewrite En in Hc'. destruct (decide (c' = c)) as [->|Hne]; [eauto|].
  destruct (N c' Hc') as [l' Hl']. exists l'. apply (nested_column c' s); [|done]. eapply column_complete; try exact E; lia.
Qed.
Lemma exec_nesting a s : wf s -> nesting s -> access_ok (num_cpu s) a ->
  exists s', exec 257 a s = Some s' /\ nesting s' /\ num_cpu s' = num_cpu s.
Proof.
  intros W N Ha. destruct a; cbn [exec access_ok] in *; try (eexists; split; [done|]).
  - apply nesting_columns; [done| |done]. intros c _. apply column_set_irq.
  - apply nesting_columns; [done| |done]. intros c _. unfold gic_set_pending_private. destruct (GIC_TEST_PENDING _ _ _); [done|].
    etransitivity; [|apply column_update]. apply column_with.
  - by apply ack_nesting.
  - destruct Ha. by apply complete_nesting.
  - apply nesting_columns; [done| |done]. intros c _. by apply column_writeb.
  - apply nesting_columns; [done| |done]. intros c _. unfold gic_dist_writew. destruct Ha. etransitivity; by apply column_writeb.
  - apply nesting_columns; [done| |done]. intros c _. unfold gic_dist_writel. destruct (_ =? 0xf00).
    { etransitivity; [|apply column_update]. apply column_with. }
    unfold gic_dist_writew. rewrite <- (Z.add_0_r off) at 1. do 3 (etransitivity; [|apply column_writeb; rewrite <- ?Z.add_assoc; apply Ha; lia]).
    apply column_writeb, Ha. lia.
  - unfold gic_cpu_read. repeat (case_match; try done). by apply ack_nesting.
  - unfold gic_cpu_write. destruct (off =? 0); [|destruct (off =? 4); [|destruct (off =? 8); [|destruct (off =? 16)]]].
    + eexists. split; [done|]. apply nesting_columns; [done| |done]. intros c _. etransitivity; [|apply column_update]. by split.
    + eexists. split; [done|]. apply nesting_columns; [done| |done]. intros c _. etransitivity; [|apply column_update]. by split.
    + eexists. split; [done|]. apply nesting_columns; [done| |done]. intros c _. apply column_update.
    + apply complete_nesting; [done|done| |done]. apply Z.land_nonneg. by right.
    + by eexists.
  - done.
Qed.
Lemma run_nesting l : forall s, wf s -> nesting s -> Forall (access_ok (num_cpu s)) l -> exists s', run 257 l s = Some s' /\ nesting s'.
Proof.
  induction l as [|a l IH]; intros s W N Hl; cbn [run]; [by exists s|]. apply Forall_cons in Hl as [Ha Hl].
  destruct (exec_nesting a s W N Ha) as (s1 & E & N1 & En). rewrite E. cbn [mbind option_bind]. apply IH; [by eapply access_wf|done|by rewrite En].
Qed.
Lemma idle_nesting s : (forall c, 0 <= c < num_cpu s -> aget 0 (running_irq s) c = 1023 /\ aget 0 (running_priority s) c = 0x100) -> nesting s.
Proof. intros H c Hc. destruct (H c Hc) as [H1 H2]. exists []. split; [done|constructor|done]. Qed.

(** C15. From any state in which no interrupt is active, and as long as the priorities are not changed, every
    access returns: the active interrupts of each CPU always form a finite chain of preempted interrupts of
    strictly falling urgency, which the search at the end of an interrupt walks. *)
Theorem gic_nesting s l :
  wf s -> (forall c, 0 <= c < num_cpu s -> aget 0 (running_irq s) c = 1023 /\ aget 0 (running_priority s) c = 0x100) ->
  Forall (access_ok (num_cpu s)) l -> exists s', run 257 l s = Some s' /\ nesting s'.
Proof. intros W Hi. apply run_nesting; [done|]. by apply idle_nesting. Qed.

(** Acknowledging an interrupt makes it the running one on top of those active; ending it resumes the one it
    preempted, with the priority that had. *)
Theorem ack_then_complete s cpu l irq s1 :
  0 <= cpu < NCPU -> wf s -> nested cpu s l -> gic_acknowledge_irq s cpu = (irq, s1) -> irq <> 1023 ->
  aget 0 (running_irq s1) cpu = irq /\ aget 0 (running_priority s1) cpu = GIC_GET_PRIORITY s1 irq cpu /\
  exists s2, gic_complete_irq 257 s1 cpu irq = Some s2 /\ nested cpu s2 l /\
    aget 0 (running_irq s2) cpu = aget 0 (running_irq s) cpu.
Proof.
  intros Hc W N E Hirq. pose proof (ack_nested cpu Hc s l W N) as Ha. pose proof (ack_wf s cpu W) as W1. rewrite E in Ha, W1. cbn [snd] in W1.
  destruct Ha as [[? _]|(Hr & Hl & Hlt & N1)]; [done|]. pose proof N1 as [[E1 _] _ E2]. split; [done|]. split; [done|].
  pose proof (nested_depth cpu s1 _ W1 N1) as Hd.
  destruct (complete_nested cpu Hc 257 s1 irq (irq :: l) W1 N1 ltac:(lia) ltac:(lia)) as (s2 & E3 & N2).
  rewrite filter_cons_False, filter_all in N2 by (done || (intros []; done)). exists s2. split; [done|]. split; [done|].
  destruct N as [Hs _ _], N2 as [Hs2 _ _]. destruct l as [|j l]; cbn [stack] in Hs, Hs2; [congruence|]. destruct Hs, Hs2. congruence.
Qed.

(** ** What the sources get wrong *)

(** An update stops at the first CPU interface that is disabled: the CPUs behind it are told nothing. *)
Theorem update_stops_at_disabled s : wf s -> aget false (cpu_enabled s) 0 = false ->
  forall c, 1 <= c -> tells (gic_update s) c = tells s c.
Proof.
  intros W He c Hc. unfold gic_update. pose proof (wf_cpus _ W). rewrite (seqZ_cons 0 (num_cpu s)) by lia. cbn [update_cpus].
  unfold update_cpu. cbn -[set_parent]. rewrite He, orb_true_r. unfold tells. cbn. by rewrite !aget_aset_ne by lia.
Qed.

(** The search for an interrupt goes round a cycle it is not part of. *)
Lemma unlink_cycle n s cpu irq tmp : aget2 (last_active s) tmp cpu = tmp -> tmp <> 1023 -> tmp <> irq -> unlink_loop n s cpu irq tmp = None.
Proof.
  intros E H1 H2. induction n as [|n IH]; [done|]. cbn [unlink_loop]. rewrite E.
  destruct (Z.eqb_spec tmp 1023); [done|]. by destruct (Z.eqb_spec tmp irq).
Qed.
Lemma complete_cycle n s cpu irq : irq < num_irq s -> GIC_TEST_LEVEL s irq (1 .<< cpu) = false ->
  let r := aget 0 (running_irq s) cpu in
  r <> 1023 -> r <> irq -> aget2 (last_active s) r cpu = r -> gic_complete_irq n s cpu irq = None.
Proof.
  intros Hi Hl r H1 H2 H3. unfold gic_complete_irq. destruct (Z.leb_spec (num_irq s) irq); [lia|]. fold r.
  destruct (Z.eqb_spec r 1023); [done|]. rewrite Hl, andb_false_r. cbn [andb]. fold r. destruct (Z.eqb_spec irq r); [congruence|]. cbn [negb].
  by rewrite unlink_cycle.
Qed.
(** A software interrupt is taken, made more urgent while it runs, raised and taken again. *)
Definition retake : list access :=
  [Writeb 0 0 1; CpuWrite 0 0 1; CpuWrite 0 4 0xff; Writeb 0 0x401 0x80; Writel 0 0xf00 0x02000001; CpuRead 0 0x0c;
   Writeb 0 0x401 0x40; Writel 0 0xf00 0x02000001; CpuRead 0 0x0c].
Definition new_gic : GICState := arm_gic_common_reset (snd (arm_gic_common_realize (gic_new 1 64 1))).
Definition retaken : GICState := default new_gic (run 257 retake new_gic).
(** A guest can make the end of an interrupt never return: an interrupt taken twice follows itself in the chain
    of active interrupts, and the search for another one goes round. *)
Theorem eoi_never_returns : run 257 retake new_gic = Some retaken /\ forall n, gic_cpu_write n retaken 0 0x10 2 = None.
Proof.
  split.
  - unfold retaken. destruct (run 257 retake new_gic) as [s|] eqn:E; [done|].
    assert (match run 257 retake new_gic with Some _ => true | None => false end = true) as H by by vm_compute. by rewrite E in H.
  - intros n. change (gic_complete_irq n retaken 0 2 = None). apply complete_cycle; by vm_compute.
Qed.

(** A configuration register reads back other interrupts than it configures: the byte at 0xc08 configures the
    four from 32 on and reads those from 16 on. *)
Theorem config_reads_other_interrupts :
  let s := gic_dist_writeb new_gic 0 0xc08 0x55 in
  GIC_TEST_MODEL s 32 = true /\ GIC_TEST_MODEL s 35 = true /\ gic_dist_readb s 0 0xc08 = 0.
Proof. by vm_compute. Qed.

(** ** Witnesses *)

Lemma new_gic_wf : wf new_gic.
Proof.
  unfold new_gic. destruct (arm_gic_common_realize (gic_new 1 64 1)) as [b s] eqn:E. cbn [snd]. apply reset_wf.
  apply (new_wf 1 64 1); [lia|]. rewrite E. f_equal. assert (fst (arm_gic_common_realize (gic_new 1 64 1)) = true) as H by by vm_compute.
  by rewrite E in H.
Qed.
Lemma gic_reachable_wf_witness : wf retaken.
Proof.
  apply (gic_reachable_wf 1 64 1 (snd (arm_gic_common_realize (gic_new 1 64 1))) 257 retake); [lia| |].
  - destruct (arm_gic_common_realize (gic_new 1 64 1)) as [b s] eqn:E. cbn [snd]. f_equal.
    assert (fst (arm_gic_common_realize (gic_new 1 64 1)) = true) as H by by vm_compute. by rewrite E in H.
  - fold new_gic. unfold retaken. destruct (run 257 retake new_gic) as [s|] eqn:E; [done|].
    assert (match run 257 retake new_gic with Some _ => true | None => false end = true) as H by by vm_compute. by rewrite E in H.
Defined.
(** Interrupt 1 is pending and let through. *)
Definition raise : list access := [Writeb 0 0 1; CpuWrite 0 0 1; CpuWrite 0 4 0xff; Writel 0 0xf00 0x02000001].
Definition raised : GICState := default new_gic (run 257 raise new_gic).
Lemma raised_wf : wf raised.
Proof. unfold raised. destruct (run 257 raise new_gic) as [s|] eqn:E; [|apply new_gic_wf]. eapply run_wf; [apply new_gic_wf|done]. Qed.
Lemma raised_cpus : num_cpu raised = 1.
Proof. by vm_compute. Qed.
Lemma update_signals_highest_witness : aget 0 (current_pending (gic_update raised)) 0 = 1 /\ highest raised 0 (num_irq raised) 1.
Proof.
  assert (aget 0 (current_pending (gic_update raised)) 0 = 1) as E by by vm_compute. split; [done|].
  destruct (update_signals_highest raised 0 raised_wf) as [Ht _]; [rewrite raised_cpus; lia|]. destruct Ht as [[H _]|[H _]].
  - intros c Hc. replace c with 0 by lia. by vm_compute.
  - exfalso. rewrite E in H. done.
  - by rewrite E in H.
Defined.
Lemma gic_nesting_witness : exists s', run 257 [CpuRead 0 0x0c; CpuWrite 0 0x10 1] raised = Some s' /\ nesting s'.
Proof.
  apply (gic_nesting raised [CpuRead 0 0x0c; CpuWrite 0 0x10 1] raised_wf).
  - intros c [H0 H1]. replace c with 0; [by vm_compute|]. rewrite raised_cpus in H1. lia.
  - rewrite raised_cpus. do 2 (apply Forall_cons; split; [by vm_compute|]). apply Forall_nil_2.
Defined.
Lemma ack_then_complete_witness :
  let s1 := snd (gic_acknowledge_irq raised 0) in
  aget 0 (running_irq s1) 0 = 1 /\ exists s2, gic_complete_irq 257 s1 0 1 = Some s2 /\ nested 0 s2 [].
Proof.
  destruct (ack_then_complete raised 0 [] 1 (snd (gic_acknowledge_irq raised 0))) as (H1 & _ & s2 & H2 & H3 & _).
  - done.
  - apply raised_wf.
  - split; [by vm_compute|constructor|by vm_compute].
  - rewrite (surjective_pairing (gic_acknowledge_irq raised 0)) at 1. by f_equal.
  - done.
  - split; [exact H1|]. exists s2. exact (conj H2 H3).
Defined.
End GicProps.
