(* ===== verification/GicBounds.v ===== *)
(** * Bounds of the accesses to the interrupt controller (arm_gic.c)

    The arrays of the controller have room for 1020 interrupts and 8 CPUs; the
    guards of the register accesses keep the numbers below those that the
    controller has.  The statements are about arrays of any length, so that a
    store behind the interrupts or the CPUs would show. *)

From S2P Require Import Prelude Gic GicProps.

Module GicBounds.
Import Gic GicProps.
#[local] Open Scope Z_scope.

(** ** Stores in front of a bound *)

(** The cells from [k] on are the same. *)
Definition kept {A} (k : Z) (l l' : list A) : Prop := length l' = length l /\ drop (Z.to_nat k) l' = drop (Z.to_nat k) l.
Definition kept2 (n m : Z) (l l' : list (list Z)) : Prop := kept n l l' /\ Forall2 (kept m) l l'.
#[export] Instance kept_preorder {A} k : PreOrder (@kept A k).
Proof. split; [by intros l|]. intros l1 l2 l3 [H1 H2] [H3 H4]. split; congruence. Qed.
#[export] Instance kept2_preorder n m : PreOrder (kept2 n m).
Proof.
  split; [intros l; split; [done|]; induction l; by constructor|]. intros l1 l2 l3 [H1 H2] [H3 H4]. split; [by transitivity l2|].
  clear H1 H3. revert l3 H4. induction H2 as [|x y l1 l2 Hx H2 IH]; intros l3 H4; inversion H4; subst; constructor; [by transitivity y|by apply IH].
Qed.
Lemma kept_aset {A} k (l : list A) i v : i < k -> kept k l (aset l i v).
Proof.
  intros Hi. split; [apply length_aset|]. unfold aset. destruct (Z.leb_spec 0 i); [|done]. apply drop_insert_lt. lia.
Qed.
Lemma kept2_aset2 n m l i j v : i < n -> j < m -> kept2 n m l (aset2 l i j v).
Proof.
  intros Hi Hj. split; [by apply kept_aset|]. unfold aset2, aset at 1, aget. destruct (Z.leb_spec 0 i) as [H0|]; [|done].
  apply Forall2_lookup. intros p. destruct (decide (p = Z.to_nat i)) as [->|Hne].
  - destruct (l !! Z.to_nat i) as [r|] eqn:E; [|rewrite lookup_ge_None in E; rewrite list_insert_ge, lookup_ge_None_2 by lia; constructor].
    rewrite list_lookup_insert_eq by by apply lookup_lt_Some in E. constructor. cbn. by apply kept_aset.
  - rewrite list_lookup_insert_ne by done. destruct (l !! p); by constructor.
Qed.

(** No store from [s] to [s'] is behind the interrupts or the CPUs. *)
Record stores (s s' : GICState) : Prop := {
  st_irqs : num_irq s' = num_irq s;
  st_cpus : num_cpu s' = num_cpu s;
  st_revision : revision s' = revision s;
  st_irq_state : kept (num_irq s) (irq_state s) (irq_state s');
  st_target : kept (num_irq s) (irq_target s) (irq_target s');
  st_priority1 : kept2 GIC_INTERNAL (num_cpu s) (priority1 s) (priority1 s');
  st_priority2 : kept (num_irq s - GIC_INTERNAL) (priority2 s) (priority2 s');
  st_last : kept2 (num_irq s) (num_cpu s) (last_active s) (last_active s');
  st_parent : kept (num_cpu s) (parent_irq s) (parent_irq s');
  st_cpu_enabled : kept (num_cpu s) (cpu_enabled s) (cpu_enabled s');
  st_mask : kept (num_cpu s) (priority_mask s) (priority_mask s');
  st_running : kept (num_cpu s) (running_irq s) (running_irq s');
  st_running_prio : kept (num_cpu s) (running_priority s) (running_priority s');
  st_current : kept (num_cpu s) (current_pending s) (current_pending s')
}.
#[export] Instance stores_preorder : PreOrder stores.
Proof.
  split; [by intros s; split|]. intros s1 s2 s3 [A1 A2 A3 A4 A5 A6 A7 A8 A9 A10 A11 A12 A13 A14] [B1 B2 B3 B4 B5 B6 B7 B8 B9 B10 B11 B12 B13 B14].
  rewrite A1, A2 in *. split; congruence || (etransitivity; eassumption).
Qed.

(** Numbers of interrupts that the controller has, or none. *)
Record refs (s : GICState) : Prop := {
  rf_irqs : 32 <= num_irq s;
  rf_mult : num_irq s mod 32 = 0;
  rf_cpus : 1 <= num_cpu s;
  rf_running : Forall (irq_ref (num_irq s)) (running_irq s);
  rf_current : Forall (irq_ref (num_irq s)) (current_pending s);
  rf_last : Forall (Forall (irq_ref (num_irq s))) (last_active s)
}.
Lemma rf_pos s : refs s -> 0 < num_irq s.
Proof. intros R. pose proof (rf_irqs _ R). lia. Qed.
Definition good (s s' : GICState) : Prop := stores s s' /\ refs s'.
Lemma good_same s : refs s -> good s s.
Proof. intros R. by split. Qed.
Lemma good_trans s s1 s2 : good s s1 -> (refs s1 -> good s1 s2) -> good s s2.
Proof. intros [H1 R1] H. destruct (H R1) as [H2 R2]. split; [by transitivity s1|done]. Qed.

Create HintDb bounds.
#[export] Hint Extern 1 (kept _ ?l ?l) => reflexivity : bounds.
#[export] Hint Extern 1 (kept2 _ _ ?l ?l) => reflexivity : bounds.
#[export] Hint Extern 1 (kept _ _ (aset _ _ _)) => (apply kept_aset; lia) : bounds.
#[export] Hint Extern 1 (kept2 _ _ _ (aset2 _ _ _ _)) => (apply kept2_aset2; lia) : bounds.
#[export] Hint Extern 1 (irq_ref _ 1023) => (by left) : bounds.
#[export] Hint Resolve Forall_aset : bounds.
Ltac stored := cbn; auto with bounds; try lia.

Lemma ref_aget n l i : 0 < n -> Forall (irq_ref n) l -> irq_ref n (aget 0 l i).
Proof. intros Hn Hl. apply Forall_aget; [right; lia|done]. Qed.
Lemma ref_aget2 n l i j : 0 < n -> Forall (Forall (irq_ref n)) l -> irq_ref n (aget2 l i j).
Proof.
  intros Hn Hl. unfold aget2. apply ref_aget; [done|]. unfold aget. destruct (0 <=? i); [|constructor].
  destruct (l !! Z.to_nat i) eqn:E; [|constructor]. by apply (Forall_lookup_1 _ _ _ _ Hl E).
Qed.
Lemma refs_aset2 n l i j v : 0 < n -> irq_ref n v -> Forall (Forall (irq_ref n)) l -> Forall (Forall (irq_ref n)) (aset2 l i j v).
Proof.
  intros Hn Hv Hl. unfold aset2. apply Forall_aset; [done|]. apply Forall_aset; [|done]. unfold aget. destruct (0 <=? i); [|constructor].
  destruct (l !! Z.to_nat i) eqn:E; [|constructor]. by apply (Forall_lookup_1 _ _ _ _ Hl E).
Qed.

(** ** The operations *)

Lemma with_irq_good s irq f : refs s -> irq < num_irq s -> good s (with_irq s irq f).
Proof. intros R Hi. split; [split; stored|]. by destruct R. Qed.
Lemma best_ref s cpu : irq_ref (num_irq s) (snd (best_pending s cpu)).
Proof.
  unfold best_pending. assert (Forall (fun i => 0 <= i < num_irq s) (seqZ 0 (num_irq s))) as Hl.
  { apply Forall_forall. intros i Hi%elem_of_seqZ. lia. }
  assert (irq_ref (num_irq s) (snd (0x100, 1023))) as H0 by by left. revert H0. generalize (0x100, 1023).
  induction Hl as [|i l Hi Hl IH]; intros b Hb; [done|]. cbn [foldl]. apply IH. unfold best_step. repeat case_match; [by right|done|done].
Qed.
Lemma update_cpu_good s cpu : refs s -> cpu < num_cpu s -> good s (snd (update_cpu s cpu)).
Proof.
  intros R Hc. unfold update_cpu. set (s1 := s.[current_pending := _]). pose proof (best_ref s1 cpu) as Hb.
  assert (good s s1) as G1. { split; [split; stored|]. destruct R. split; stored. }
  eapply good_trans; [exact G1|]. intros R1. change (num_cpu s) with (num_cpu s1) in Hc. clearbody s1. clear G1 R s.
  destruct (_ || _); [split; [split; stored|by destruct R1]|]. destruct (best_pending s1 cpu) as [p i]. cbn [snd] in Hb.
  destruct (_ <? _); (split; [split; stored|]); destruct R1; split; stored.
Qed.
Lemma gic_update_good s : refs s -> good s (gic_update s).
Proof.
  unfold gic_update. assert (Forall (fun c => c < num_cpu s) (seqZ 0 (num_cpu s))) as Hl.
  { apply Forall_forall. intros i Hi%elem_of_seqZ. lia. }
  revert Hl. generalize (seqZ 0 (num_cpu s)). intros l. revert s. induction l as [|c l IH]; intros s Hl R; [by apply good_same|].
  apply Forall_cons in Hl as [Hc Hl]. cbn [update_cpus]. pose proof (update_cpu_good s c R Hc) as G. destruct (update_cpu s c) as [[] s']; [|done].
  cbn [snd] in G. eapply good_trans; [exact G|]. apply IH. destruct G as [[_ -> _ _ _ _ _ _ _ _ _ _ _ _] _]. done.
Qed.
Lemma then_update s s1 : good s s1 -> good s (gic_update s1).
Proof. intros G. eapply good_trans; [exact G|]. apply gic_update_good. Qed.
Lemma set_running_good s cpu irq : refs s -> cpu < num_cpu s -> irq_ref (num_irq s) irq -> good s (gic_set_running_irq s cpu irq).
Proof.
  intros R Hc Hi. unfold gic_set_running_irq. apply then_update. split; [split; stored|]. destruct R. split; stored.
Qed.
Lemma ack_good s cpu : refs s -> cpu < num_cpu s -> good s (snd (gic_acknowledge_irq s cpu)).
Proof.
  intros R Hc. unfold gic_acknowledge_irq. pose proof (ref_aget _ _ cpu (rf_pos _ R) (rf_current _ R)) as Hi.
  pose proof (ref_aget _ _ cpu (rf_pos _ R) (rf_running _ R)) as Hr.
  destruct (Z.eqb_spec (aget 0 (current_pending s) cpu) 1023); cbn [orb snd]; [by apply good_same|]. destruct (_ <=? _); [by apply good_same|].
  destruct Hi as [|Hi]; [done|]. cbn [snd]. set (i := aget 0 (current_pending s) cpu) in *. set (s1 := s.[last_active := _]).
  assert (good s s1) as G1. { split; [split; stored|]. pose proof (rf_irqs _ R). destruct R. split; stored. apply refs_aset2; [lia|done|done]. }
  eapply good_trans; [exact G1|]. intros R1. change (num_cpu s) with (num_cpu s1) in Hc. change (num_irq s) with (num_irq s1) in Hi. clearbody s1. clear G1.
  eapply good_trans; [apply with_irq_good; [done|exact (proj2 Hi)]|]. intros R2. apply set_running_good; [done|done|by right].
Qed.
Lemma unlink_good n s cpu irq : forall tmp s', refs s -> cpu < num_cpu s -> 0 <= tmp < num_irq s -> unlink_loop n s cpu irq tmp = Some s' -> good s s'.
Proof.
  induction n as [|n IH]; intros tmp s' R Hc Ht H; cbn [unlink_loop] in H; [done|]. pose proof (rf_irqs _ R) as Hn.
  pose proof (ref_aget2 _ _ tmp cpu (rf_pos _ R) (rf_last _ R)) as Hx. set (x := aget2 (last_active s) tmp cpu) in *.
  destruct (Z.eqb_spec x 1023); [injection H as <-; by apply good_same|]. destruct Hx as [|Hx]; [done|].
  destruct (x =? irq); [|by apply (IH x)]. injection H as <-. split; [split; stored|]. destruct R. split; stored.
  apply refs_aset2; [lia|apply ref_aget2; [lia|done]|done].
Qed.
Lemma complete_good n s cpu irq s' : refs s -> cpu < num_cpu s -> gic_complete_irq n s cpu irq = Some s' -> good s s'.
Proof.
  intros R Hc. unfold gic_complete_irq. destruct (Z.leb_spec (num_irq s) irq) as [|Hlt]; [intros [= <-]; by apply good_same|].
  destruct (Z.eqb_spec (aget 0 (running_irq s) cpu) 1023) as [|Hne]; [intros [= <-]; by apply good_same|]. cbv zeta.
  set (upd := _ && _). assert (good s (if upd then GIC_SET_PENDING s irq (1 .<< cpu) else s)) as G1 by (destruct upd; [by apply with_irq_good|by apply good_same]).
  assert (aget 0 (running_irq (if upd then GIC_SET_PENDING s irq (1 .<< cpu) else s)) cpu = aget 0 (running_irq s) cpu) as Er by by destruct upd.
  set (s1 := if upd then _ else _) in *. clearbody s1. intros H. eapply good_trans; [exact G1|]. intros R1.
  pose proof (rf_irqs _ R1) as Hn. destruct G1 as [[Ei Ec _ _ _ _ _ _ _ _ _ _ _ _] _].
  destruct (negb (irq =? _)).
  - apply bind_Some in H as (s2 & H2 & [= <-]). apply unlink_good in H2; [|done|lia|].
    + destruct upd; [by apply then_update|done].
    + rewrite Er. pose proof (ref_aget _ _ cpu (rf_pos _ R) (rf_running _ R)) as [|?]; [done|lia].
  - injection H as <-. apply set_running_good; [done|lia|apply ref_aget2; [lia|apply R1]].
Qed.
Lemma foldl_good {A} (f : GICState -> A -> GICState) l : forall s, refs s ->
  (forall s' x, refs s' -> num_irq s' = num_irq s -> x ∈ l -> good s' (f s' x)) -> good s (foldl f s l).
Proof.
  induction l as [|x l IH]; intros s R Hf; [by apply good_same|]. cbn [foldl]. pose proof (Hf s x R eq_refl ltac:(left)) as G.
  eapply good_trans; [exact G|]. intros R'. apply IH; [done|]. intros s' y R2 E Hy. apply Hf; [done| |by right]. by rewrite E, (st_irqs _ _ (proj1 G)).
Qed.
(** Eight interrupts from a multiple of eight on. *)
Lemma scatter_good f s v irq : refs s -> irq mod 8 = 0 -> irq < num_irq s -> (forall s' i, refs s' -> i < num_irq s' -> good s' (f s' i)) ->
  good s (scatter f s v irq 8).
Proof.
  intros R Hm Hi Hf. unfold scatter. apply foldl_good; [done|]. intros s' x R' E Hx%elem_of_seqZ. destruct (_ .&? _); [|by apply good_same].
  apply Hf; [done|]. rewrite E. pose proof (rf_mult _ R). pose proof (Z.div_mod (num_irq s) 32 ltac:(lia)). pose proof (Z.div_mod irq 8 ltac:(lia)). lia.
Qed.
Lemma set_enable_good cpu first s irq : refs s -> irq < num_irq s -> good s (set_enable cpu first s irq).
Proof.
  intros R Hi. unfold set_enable. eapply good_trans; [by apply with_irq_good|]. intros R1. destruct (_ && _); [by apply with_irq_good|by apply good_same].
Qed.
Lemma configure_good v irq s : refs s -> irq mod 4 = 0 -> irq < num_irq s -> good s (foldl (configure v irq) s (seqZ 0 4)).
Proof.
  intros R Hm Hi. apply foldl_good; [done|]. intros s' x R' E Hx%elem_of_seqZ.
  assert (irq + x < num_irq s').
  { rewrite E. pose proof (rf_mult _ R). pose proof (Z.div_mod (num_irq s) 32 ltac:(lia)). pose proof (Z.div_mod irq 4 ltac:(lia)). lia. }
  unfold configure. eapply good_trans; [by apply with_irq_good|]. intros R1. by apply with_irq_good.
Qed.
Lemma base_cases s : GIC_BASE_IRQ s = 32 \/ GIC_BASE_IRQ s = 0.
Proof. unfold GIC_BASE_IRQ. destruct (_ =? _); auto. Qed.
Lemma dist_write_good s cpu off v s' : refs s -> cpu < num_cpu s -> dist_write s cpu off v = Some s' -> good s s'.
Proof.
  intros R Hc. unfold dist_write. cbv zeta. pose proof (base_cases s) as Hb. pose proof (rf_irqs _ R) as Hn. set (base := GIC_BASE_IRQ s) in *. clearbody base.
  assert (forall k, ((off - k) * 8 + base) mod 8 = 0) as Hm8 by (intros k; destruct Hb as [-> | ->]; Z.div_mod_to_equations; lia).
  destruct (off <? 0x100).
  { destruct (off =? 0); [intros [= <-]; split; [split; stored|by destruct R]|]. destruct (_ || _); [intros [= <-]; by apply good_same|done]. }
  destruct (off <? 0x180).
  { destruct (Z.leb_spec (num_irq s) ((off - 0x100) * 8 + base)); [done|]. intros [= <-]. apply scatter_good; [done|done|lia|]. intros; by apply set_enable_good. }
  destruct (off <? 0x200).
  { destruct (Z.leb_spec (num_irq s) ((off - 0x180) * 8 + base)); [done|]. intros [= <-]. apply scatter_good; [done|done|lia|]. intros; by apply with_irq_good. }
  destruct (off <? 0x280).
  { destruct (Z.leb_spec (num_irq s) ((off - 0x200) * 8 + base)); [done|]. intros [= <-].
    apply scatter_good; [done|by destruct (_ <? 16)|destruct (_ <? 16); lia|]. intros; by apply with_irq_good. }
  destruct (off <? 0x300).
  { destruct (Z.leb_spec (num_irq s) ((off - 0x280) * 8 + base)); [done|]. intros [= <-]. apply scatter_good; [done|done|lia|]. intros; by apply with_irq_good. }
  destruct (off <? 0x400); [done|]. destruct (off <? 0x800).
  { destruct (Z.leb_spec (num_irq s) (off - 0x400 + base)); [done|]. destruct (Z.ltb_spec (off - 0x400 + base) GIC_INTERNAL); intros [= <-];
      (split; [split; stored|by destruct R]). }
  destruct (off <? 0xc00).
  { destruct (_ || _); [|intros [= <-]; by apply good_same]. destruct (Z.leb_spec (num_irq s) (off - 0x800 + base)); [done|]. intros [= <-].
    split; [split; stored|by destruct R]. }
  destruct (off <? 0xf00); [|done]. destruct (Z.leb_spec (num_irq s) ((off - 0xc00) * 4 + base)); [done|]. intros [= <-].
  apply configure_good; [done| |lia]. destruct Hb as [-> | ->]; Z.div_mod_to_equations; lia.
Qed.
Lemma writeb_good s cpu off v : refs s -> cpu < num_cpu s -> good s (gic_dist_writeb s cpu off v).
Proof.
  intros R Hc. unfold gic_dist_writeb. destruct (dist_write s cpu off v) as [s'|] eqn:E; [|by apply good_same]. apply then_update. by eapply dist_write_good.
Qed.
Lemma writew_good s cpu off v : refs s -> cpu < num_cpu s -> good s (gic_dist_writew s cpu off v).
Proof.
  intros R Hc. unfold gic_dist_writew. pose proof (writeb_good s cpu off (v .& 0xff) R Hc) as G. eapply good_trans; [exact G|]. intros R1.
  apply writeb_good; [done|]. by rewrite (st_cpus _ _ (proj1 G)).
Qed.
Lemma cpu_write_good n s cpu off v s' : refs s -> cpu < num_cpu s -> gic_cpu_write n s cpu off v = Some s' -> good s s'.
Proof.
  intros R Hc. unfold gic_cpu_write. destruct (off =? 0); [intros [= <-]; apply then_update; split; [split; stored|by destruct R]|].
  destruct (off =? 4); [intros [= <-]; apply then_update; split; [split; stored|by destruct R]|].
  destruct (off =? 8); [intros [= <-]; by apply gic_update_good|]. destruct (off =? 16); [by apply complete_good|]. intros [= <-]. by apply good_same.
Qed.
Lemma set_irq_good s irq level : refs s -> 0 <= irq -> good s (gic_set_irq s irq level).
Proof.
  intros R Hi. unfold gic_set_irq. destruct (line_irq s irq) as [[i cm] target] eqn:E. pose proof (rf_irqs _ R) as Hn.
  assert (i < num_irq s) as Hlt.
  { unfold line_irq in E. destruct (Z.ltb_spec irq (num_irq s - GIC_INTERNAL)); injection E as <- _ _; [unfold GIC_INTERNAL in *; lia|].
    pose proof (Z.rem_bound_pos (irq - (num_irq s - GIC_INTERNAL)) GIC_INTERNAL ltac:(lia) ltac:(by vm_compute)). unfold GIC_INTERNAL in *. lia. }
  destruct (_ =? _); [by apply good_same|]. destruct (truth level); [|by apply then_update, with_irq_good]. apply then_update.
  eapply good_trans; [by apply with_irq_good|]. intros R1. destruct (_ || _); [by apply with_irq_good|by apply good_same].
Qed.

(** ** Every access *)

(** The lines, interrupts and CPUs that exist.  The number of a software
    interrupt comes from the guest, and the code does not check it. *)
Definition legal (s : GICState) (a : access) : Prop :=
  match a with
  | SetIrq irq _ => 0 <= irq < num_irq s - GIC_INTERNAL + num_cpu s * GIC_INTERNAL
  | SetPending cpu irq => 0 <= cpu < num_cpu s /\ 0 <= irq < num_irq s
  | Acknowledge cpu | Complete cpu _ | Writeb cpu _ _ | Writew cpu _ _ | CpuRead cpu _ | CpuWrite cpu _ _ => 0 <= cpu < num_cpu s
  | Writel cpu off v => 0 <= cpu < num_cpu s /\ (off = 0xf00 -> v .& 0x3ff < num_irq s)
  | Reset => False
  end.
(** An end of interrupt, whose search need not end. *)
Definition searches (a : access) : bool :=
  match a with Complete _ _ => true | CpuWrite _ off _ => off =? 0x10 | _ => false end.

Lemma access_good n a s s' : refs s -> legal s a -> exec n a s = Some s' -> good s s'.
Proof.
  intros R L. destruct a; cbn [exec legal] in *; try (intros [= <-]); try done.
  - apply set_irq_good; [done|lia].
  - unfold gic_set_pending_private. destruct (GIC_TEST_PENDING _ _ _); [by apply good_same|]. apply then_update, with_irq_good; [done|lia].
  - apply ack_good; [done|lia].
  - apply complete_good; [done|lia].
  - apply writeb_good; [done|lia].
  - apply writew_good; [done|lia].
  - destruct L as [Hc Hsgi]. unfold gic_dist_writel. destruct (Z.eqb_spec off 0xf00) as [E|]; [apply then_update, with_irq_good; [done|by apply Hsgi]|].
    pose proof (writew_good s cpu off (v .& 0xffff) R ltac:(lia)) as G. eapply good_trans; [exact G|]. intros R1.
    apply writew_good; [done|]. rewrite (st_cpus _ _ (proj1 G)). lia.
  - unfold gic_cpu_read. repeat (case_match; try (by apply good_same)). apply ack_good; [done|lia].
  - apply cpu_write_good; [done|lia].
Qed.

(** C27. An access to a controller whose arrays have any length, by a CPU, a line or a software interrupt number that the
    controller has: it returns, unless it is an end of interrupt, whose search is not bounded; no store is behind
    the interrupts and the CPUs that the controller has, so none is outside the arrays; and the interrupts that the
    state names, running, pending and preempted, are again ones that the controller has. *)
Theorem gic_stores_in_bounds n a s : refs s -> legal s a ->
  (searches a = false -> is_Some (exec n a s)) /\ forall s', exec n a s = Some s' -> stores s s' /\ refs s'.
Proof.
  intros R L. split; [|intros s' H; by apply (access_good n a)].
  destruct a; cbn [searches exec]; try done. unfold gic_cpu_write. intros ->. repeat case_match; done.
Qed.

(** ** From creation on *)

Lemma wf_refs s : wf s -> num_irq s mod 32 = 0 -> refs s.
Proof.
  intros W Hm. split; [apply (wf_irqs _ W)|done|apply (wf_cpus _ W)|apply (wf_running _ W)|apply (wf_current _ W)|].
  destruct (wf_last _ W) as [_ Hl]. apply (Forall_impl _ _ _ Hl). by intros r [_ ?].
Qed.
Lemma reset_irqs s : num_irq (arm_gic_common_reset s) = num_irq s.
Proof.
  assert (forall (f : GICState -> Z -> GICState) l s, (forall s x, num_irq (f s x) = num_irq s) -> num_irq (foldl f s l) = num_irq s) as Hf.
  { intros f l. induction l as [|x l IH]; intros s0 H; [done|]. cbn. by rewrite IH, H. }
  unfold arm_gic_common_reset, reset_targets. cbv zeta. cbn [num_irq set_field]. destruct (_ =? 1); cbn; by rewrite !Hf.
Qed.
Inductive reached (n : nat) : GICState -> Prop :=
| reached_new cpus irqs rev s : 1 <= cpus -> arm_gic_common_realize (gic_new cpus irqs rev) = (true, s) -> reached n (arm_gic_common_reset s)
| reached_access a s s' : reached n s -> legal s a -> exec n a s = Some s' -> reached n s'
| reached_reset s : reached n s -> reached n (arm_gic_common_reset s).
Lemma reached_refs n s : reached n s -> wf s /\ refs s.
Proof.
  induction 1 as [cpus irqs rev s Hc H|a s s' _ [W R] L H|s _ [W R]].
  - assert (wf (arm_gic_common_reset s)) as W by by eapply reset_wf, new_wf. split; [done|]. apply wf_refs; [done|].
    rewrite reset_irqs. by apply realize_spec in H as (_ & k & -> & _ & ?).
  - split; [by eapply access_wf|]. by eapply access_good.
  - assert (wf (arm_gic_common_reset s)) as W' by by apply reset_wf. split; [done|]. apply wf_refs; [done|]. rewrite reset_irqs. apply R.
Qed.
Lemma gic_stores_in_bounds_witness : exists s', exec 257 (Writel 0 0x100 0xffff0000) raised = Some s' /\ stores raised s'.
Proof.
  destruct (gic_stores_in_bounds 257 (Writel 0 0x100 0xffff0000) raised) as [Hs Hb].
  - apply wf_refs; [apply raised_wf|by vm_compute].
  - split; [by vm_compute|done].
  - destruct (Hs eq_refl) as [s' Hs']. exists s'. split; [exact Hs'|]. by apply Hb.
Defined.

(** The number of a software interrupt is taken as it is: up to 1023, behind
    the interrupts of the controller and behind the array. *)
Lemma sgi_out_of_bounds s cpu i : 0 <= i < 1024 -> i < Z.of_nat (length (irq_state s)) ->
  irq_state (gic_dist_writel s cpu 0xf00 (0x02000000 .| i)) =
  aset (irq_state s) i (irq_at s i).[i_pending := u8 (i_pending (irq_at s i) .| (1 .<< cpu))].
Proof.
  intros Hi Hl. unfold gic_dist_writel. cbn [Z.eqb]. rewrite Z.eqb_refl.
  assert ((0x02000000 .| i) .& 0x3ff = i) as E1.
  { rewrite Z.land_lor_distr_l. change 0x3ff with (Z.ones 10) at 2. rewrite (Z.land_ones i) by lia. rewrite Z.mod_small by lia. done. }
  assert (sgi_mask cpu (0x02000000 .| i) = 1 .<< cpu) as E2.
  { unfold sgi_mask. replace (((0x02000000 .| i) .>> 24) .& 3) with 2; [done|].
    rewrite Z.shiftr_lor. rewrite (Z.shiftr_div_pow2 i) by lia. rewrite (Z.div_small i) by lia. done. }
  rewrite E1, E2. pose proof (gic_update_core (GIC_SET_PENDING s i (1 .<< cpu))) as Hc. apply core_tests in Hc as [-> _]. done.
Qed.
End GicBounds.
