(* ===== verification/Nvic.v ===== *)
(** * The vectored interrupt controller and SysTick (hw/intc/armv7m_nvic.c)

    The NVIC is a GIC with one CPU whose first 32 interrupts stand for the
    exceptions of the core, with the SysTick timer and the system control
    registers.  The host timer is the time it is armed for, as in [Ptimer]. *)

From S2P Require Import Prelude Gic.

Module Nvic.
#[local] Existing Instances Gic.eta_gic Gic.eta_irq_state.

Record nvic_state := mkNvic {
  gic : Gic.GICState;
  control : Z;
  reload : Z;
  tick : Z;
  timer : option Z;
  num_irq : Z;
  cpuid : Z;     (* env.cp15.c0_cpuid of the CPU *)
  vecbase : Z    (* env.v7m.vecbase *)
}.
#[export] Instance eta_nvic : RecEta nvic_state := fun s =>
  mkNvic (gic s) (control s) (reload s) (tick s) (timer s) (num_irq s) (cpuid s) (vecbase s).

Definition SYSTICK_ENABLE := 0x1.
Definition SYSTICK_TICKINT := 0x2.
Definition SYSTICK_CLKSOURCE := 0x4.
Definition SYSTICK_COUNTFLAG := 0x10000.
Definition ARMV7M_EXCP_NMI := 2.
Definition ARMV7M_EXCP_MEM := 4.
Definition ARMV7M_EXCP_BUS := 5.
Definition ARMV7M_EXCP_USAGE := 6.
Definition ARMV7M_EXCP_SVC := 11.
Definition ARMV7M_EXCP_DEBUG := 12.
Definition ARMV7M_EXCP_PENDSV := 14.
Definition ARMV7M_EXCP_SYSTICK := 15.
Definition nvic_id : list Z := [0x00; 0xb0; 0x1b; 0x00; 0x0d; 0xe0; 0x05; 0xb1].

(** ** Exceptions *)

(** Vector 16 is the first interrupt, which the GIC numbers 32. *)
Definition gic_number (irq : Z) : Z := if 16 <=? irq then irq + 16 else irq.
Definition armv7m_nvic_set_pending (s : nvic_state) (irq : Z) : nvic_state :=
  s.[gic := Gic.gic_set_pending_private (gic s) 0 (gic_number irq)].
(** [None] is the fatal error of an interrupt without a vector. *)
Definition armv7m_nvic_acknowledge_irq (s : nvic_state) : option (Z * nvic_state) :=
  let '(irq, g) := Gic.gic_acknowledge_irq (gic s) 0 in
  if irq =? 1023 then None
  else Some (if 32 <=? irq then irq - 16 else irq, s.[gic := g]).
Definition armv7m_nvic_complete_irq (fuel : nat) (s : nvic_state) (irq : Z) : option nvic_state :=
  g ← Gic.gic_complete_irq fuel (gic s) 0 (gic_number irq);
  Some s.[gic := g].

Section Systick.
(** The global the board sets to the period of the processor clock. *)
Context (system_clock_scale : Z).

Definition systick_scale (s : nvic_state) : Z := if control s .&? SYSTICK_CLKSOURCE then system_clock_scale else 1000.
Definition systick_reload (s : nvic_state) (reset : bool) (now : Z) : nvic_state :=
  let s := if reset then s.[tick := now] else s in
  let s := s.[tick := s64 (tick s + s64 (u32 (reload s + 1) * systick_scale s))] in
  s.[timer := Some (tick s)].
Definition systick_timer_tick (s : nvic_state) : nvic_state :=
  let s := s.[control := control s .| SYSTICK_COUNTFLAG] in
  let s := if control s .&? SYSTICK_TICKINT then armv7m_nvic_set_pending s ARMV7M_EXCP_SYSTICK else s in
  if reload s =? 0 then s.[control := control s .& not32 SYSTICK_ENABLE] else systick_reload s false 0.
Definition systick_reset (s : nvic_state) : nvic_state := s.[control := 0].[reload := 0].[tick := 0].[timer := None].

(** ** System registers *)

Definition irq_bit (s : nvic_state) (f : Gic.gic_irq_state -> Z) (irq bit : Z) : Z :=
  if truth (f (Gic.irq_at (gic s) irq)) then 1 .<< bit else 0.
(** The value of SysTick at [t]; [None] is the division by a zero scale. *)
Definition systick_current (s : nvic_state) (t : Z) : option Z :=
  if negb (control s .&? SYSTICK_ENABLE) then Some 0
  else if tick s <=? t then Some 0
  else if systick_scale s =? 0 then None
  else
    let val := u32 (Z.quot (tick s - (t + 1)) (systick_scale s) + 1) in
    Some (if reload s <? val then 0 else val).
Definition interrupt_state (s : nvic_state) : Z :=
  let running := aget 0 (Gic.running_irq (gic s)) 0 in
  let val := if running =? 1023 then 0 else if 32 <=? running then running - 16 else running in
  let val := if (running =? 1023) || (Gic.aget2 (Gic.last_active (gic s)) running 0 =? 1023) then val .| (1 .<< 11) else val in
  let current := aget 0 (Gic.current_pending (gic s)) 0 in
  let val := if negb (current =? 1023) then val .| (current .<< 12) else val in
  let val := if existsb (fun irq => truth (Gic.i_pending (Gic.irq_at (gic s) irq))) (seqZ 32 (num_irq s - 32)) then val .| (1 .<< 22) else val in
  val .| irq_bit s Gic.i_pending ARMV7M_EXCP_SYSTICK 26 .| irq_bit s Gic.i_pending ARMV7M_EXCP_PENDSV 28
      .| irq_bit s Gic.i_pending ARMV7M_EXCP_NMI 31.
Definition handler_status (s : nvic_state) : Z :=
  irq_bit s Gic.i_active ARMV7M_EXCP_MEM 0 .| irq_bit s Gic.i_active ARMV7M_EXCP_BUS 1 .|
  irq_bit s Gic.i_active ARMV7M_EXCP_USAGE 3 .| irq_bit s Gic.i_active ARMV7M_EXCP_SVC 7 .|
  irq_bit s Gic.i_active ARMV7M_EXCP_DEBUG 8 .| irq_bit s Gic.i_active ARMV7M_EXCP_PENDSV 10 .|
  irq_bit s Gic.i_active ARMV7M_EXCP_SYSTICK 11 .| irq_bit s Gic.i_pending ARMV7M_EXCP_USAGE 12 .|
  irq_bit s Gic.i_pending ARMV7M_EXCP_MEM 13 .| irq_bit s Gic.i_pending ARMV7M_EXCP_BUS 14 .|
  irq_bit s Gic.i_pending ARMV7M_EXCP_SVC 15 .| irq_bit s Gic.i_enabled ARMV7M_EXCP_MEM 16 .|
  irq_bit s Gic.i_enabled ARMV7M_EXCP_BUS 17 .| irq_bit s Gic.i_enabled ARMV7M_EXCP_USAGE 18.
(** The registers that read as constants; the others not named read as zero. *)
Definition constant_reg (offset : Z) : Z :=
  if offset =? 0x1c then 10000 else if offset =? 0xd0c then 0xfa05000
  else if offset =? 0xd40 then 0x00000030 else if offset =? 0xd44 then 0x00000200
  else if offset =? 0xd48 then 0x00100000 else if offset =? 0xd50 then 0x00000030
  else if offset =? 0xd60 then 0x01141110 else if offset =? 0xd64 then 0x02111000
  else if offset =? 0xd68 then 0x21112231 else if offset =? 0xd6c then 0x01111110
  else if offset =? 0xd70 then 0x01310102 else 0.
Definition nvic_readl (s : nvic_state) (offset now : Z) : option (Z * nvic_state) :=
  if offset =? 4 then Some (u32 (Z.quot (num_irq s) 32 - 1), s)
  else if offset =? 0x10 then Some (control s, s.[control := control s .& not32 SYSTICK_COUNTFLAG])
  else if offset =? 0x14 then Some (reload s, s)
  else if offset =? 0x18 then v ← systick_current s now; Some (v, s)
  else if offset =? 0xd00 then Some (cpuid s, s)
  else if offset =? 0xd04 then Some (interrupt_state s, s)
  else if offset =? 0xd08 then Some (vecbase s, s)
  else if offset =? 0xd24 then Some (handler_status s, s)
  else Some (constant_reg offset, s).

Definition write_control (s : nvic_state) (value now : Z) : nvic_state :=
  let oldval := control s in
  let s := s.[control := (control s .& 0xfffffff8) .| (value .& 7)] in
  if (oldval .^ value) .&? SYSTICK_ENABLE then
    if value .&? SYSTICK_ENABLE then
      if truth (tick s) then
        let s := s.[tick := s64 (tick s + now)] in s.[timer := Some (tick s)]
      else systick_reload s true now
    else
      let s := s.[timer := None] in
      let s := s.[tick := s64 (tick s - now)] in
      if tick s <? 0 then s.[tick := 0] else s
  else if (oldval .^ value) .&? SYSTICK_CLKSOURCE then systick_reload s true now
  else s.
Definition clear_pending (s : nvic_state) (irq : Z) : nvic_state :=
  s.[gic := Gic.gic_update (Gic.with_irq (gic s) irq (fun i => i.[Gic.i_pending := 0]))].
Definition write_interrupt_state (s : nvic_state) (value : Z) : nvic_state :=
  let s := if value .&? (1 .<< 31) then armv7m_nvic_set_pending s ARMV7M_EXCP_NMI else s in
  let s := if value .&? (1 .<< 28) then armv7m_nvic_set_pending s ARMV7M_EXCP_PENDSV
           else if value .&? (1 .<< 27) then clear_pending s ARMV7M_EXCP_PENDSV else s in
  if value .&? (1 .<< 26) then armv7m_nvic_set_pending s ARMV7M_EXCP_SYSTICK
  else if value .&? (1 .<< 25) then clear_pending s ARMV7M_EXCP_SYSTICK else s.
Definition enable_handler (s : nvic_state) (irq value bit : Z) : nvic_state :=
  s.[gic := Gic.with_irq (gic s) irq (fun i => i.[Gic.i_enabled := b2z (value .&? (1 .<< bit))])].
Definition nvic_writel (s : nvic_state) (offset value now : Z) : nvic_state :=
  if offset =? 0x10 then write_control s value now
  else if offset =? 0x14 then s.[reload := value]
  else if offset =? 0x18 then
    let s := systick_reload s true now in s.[control := control s .& not32 SYSTICK_COUNTFLAG]
  else if offset =? 0xd04 then write_interrupt_state s value
  else if offset =? 0xd08 then s.[vecbase := value .& 0xffffff80]
  else if offset =? 0xd24 then
    enable_handler (enable_handler (enable_handler s ARMV7M_EXCP_MEM value 16) ARMV7M_EXCP_BUS value 17) ARMV7M_EXCP_USAGE value 18
  else if offset =? 0xf00 then
    if value .& 0x1ff <? num_irq s then s.[gic := Gic.gic_set_pending_private (gic s) 0 (value .& 0x1ff)] else s
  else s.

Definition nvic_sysreg_read (s : nvic_state) (offset size now : Z) : option (Z * nvic_state) :=
  if (0xd18 <=? offset) && (offset <=? 0xd23) then
    Some (foldl (fun val i => val .| u32 (Gic.aget2 (Gic.priority1 (gic s)) (offset - 0xd14 + i) 0 .<< (i * 8))) 0 (seqZ 0 size), s)
  else if (0xfe0 <=? offset) && (offset <=? 0xfff) then
    Some (if offset .&? 3 then 0 else aget 0 nvic_id ((offset - 0xfe0) .>> 2), s)
  else if size =? 4 then nvic_readl s offset now
  else Some (0, s).
Definition set_priority (s : nvic_state) (irq value : Z) : nvic_state :=
  s.[gic := (gic s).[Gic.priority1 := Gic.aset2 (Gic.priority1 (gic s)) irq 0 value]].
Definition nvic_sysreg_write (s : nvic_state) (offset value size now : Z) : nvic_state :=
  if (0xd18 <=? offset) && (offset <=? 0xd23) then
    let s := foldl (fun s i => set_priority s (offset - 0xd14 + i) ((value .>> (i * 8)) .& 0xff)) s (seqZ 0 size) in
    s.[gic := Gic.gic_update (gic s)]
  else if size =? 4 then nvic_writel s offset (u32 value) now
  else s.

(** ** Creation and reset *)

Definition armv7m_nvic_reset (s : nvic_state) : nvic_state :=
  let g := Gic.arm_gic_common_reset (gic s) in
  let g := g.[Gic.cpu_enabled := aset (Gic.cpu_enabled g) 0 true] in
  let g := g.[Gic.priority_mask := aset (Gic.priority_mask g) 0 0x100] in
  systick_reset s.[gic := g.[Gic.enabled := true]].
(** [lines] is the num-irq property; [false] is the error of the parent class. *)
Definition armv7m_nvic_realize (lines id : Z) : bool * nvic_state :=
  let g := Gic.gic_new 1 lines Gic.REV_NVIC in
  let '(ok, g') := Gic.arm_gic_common_realize g in
  (ok, mkNvic g' 0 0 0 None (Gic.num_irq g) id 0).
End Systick.
(** The default of the property. *)
Definition armv7m_nvic_instance_init := 64.
End Nvic.
