(* ===== verification/NvicProps.v ===== *)
(** * SysTick and the delivery of exceptions

    SysTick counts down and fires without drift when its clock has a period;
    an interrupt line or SysTick reaches the core as the vector with its
    number; and on this machine, whose processor clock has no period, a guest
    that uses that clock stops the main loop. *)

From stdpp Require Import gmap sorting.
From S2P Require Import Prelude Timers TimersProps Gic GicProps Nvic.

Module NvicProps.
Import Nvic.
Import (hints) GicProps.
#[local] Open Scope Z_scope.
#[local] Existing Instances Gic.eta_gic Gic.eta_irq_state Timers.eta_state.

(** ** Counting *)

Lemma clksource_countflag c : (c .| SYSTICK_COUNTFLAG) .&? SYSTICK_CLKSOURCE = (c .&? SYSTICK_CLKSOURCE).
Proof.
  change SYSTICK_CLKSOURCE with (1 .<< 2). rewrite !flag_testbit by lia. rewrite Z.lor_spec. by rewrite orb_false_r.
Qed.
Lemma set_pending_frame s irq : let s' := armv7m_nvic_set_pending s irq in
  control s' = control s /\ reload s' = reload s /\ tick s' = tick s /\ timer s' = timer s.
Proof. done. Qed.

(** What a tick does to the timer. *)
Lemma timer_tick_spec scale s : let s' := systick_timer_tick scale s in
  reload s' = reload s /\ systick_scale scale s' = systick_scale scale s /\
  (reload s <> 0 -> tick s' = s64 (tick s + s64 (u32 (reload s + 1) * systick_scale scale s)) /\ timer s' = Some (tick s') /\
                    control s' = control s .| SYSTICK_COUNTFLAG).
Proof.
  unfold systick_timer_tick. set (s1 := if _ .&? _ then _ else _).
  assert (control s1 = control s .| SYSTICK_COUNTFLAG /\ reload s1 = reload s /\ tick s1 = tick s) as (E1 & E2 & E3)
    by (subst s1; by destruct (_ .&? _)).
  assert (systick_scale scale s1 = systick_scale scale s) as E4 by (unfold systick_scale; by rewrite E1, clksource_countflag).
  clearbody s1. rewrite E2. destruct (Z.eqb_spec (reload s) 0) as [Er|Er]; cbv zeta.
  - split; [done|]. split; [|done]. rewrite <- E4. unfold systick_scale. cbn [control set_field].
    assert ((control s1 .& not32 SYSTICK_ENABLE) .&? SYSTICK_CLKSOURCE = (control s1 .&? SYSTICK_CLKSOURCE)) as E.
    { change SYSTICK_CLKSOURCE with (1 .<< 2). rewrite !flag_testbit by lia. rewrite Z.land_spec. by rewrite andb_true_r. }
    cbn. by rewrite E.
  - unfold systick_reload. cbn. rewrite E2, E3. split; [done|].
    assert (systick_scale scale s1.[tick := s64 (tick s + s64 (u32 (reload s + 1) * systick_scale scale s1))] = systick_scale scale s1) as E5 by done.
    split; [by rewrite <- E4|]. intros _. by rewrite E4.
Qed.

(** With a reload value and a clock period that keep the sums in range, SysTick fires every (reload + 1)
    periods without drift: whatever the time it is run at, it is armed again for its last deadline plus one
    round, its count flag is set and the SysTick exception is pended if it is to interrupt. *)
Theorem systick_periodic scale s :
  0 < reload s < 2 ^ 32 - 1 -> 0 <= tick s -> 0 < systick_scale scale s ->
  tick s + (reload s + 1) * systick_scale scale s < 2 ^ 63 ->
  let s' := systick_timer_tick scale s in
  tick s' = tick s + (reload s + 1) * systick_scale scale s /\ timer s' = Some (tick s') /\
  control s' .&? SYSTICK_COUNTFLAG = true /\
  gic s' = (if (control s .| SYSTICK_COUNTFLAG) .&? SYSTICK_TICKINT then Gic.gic_set_pending_private (gic s) 0 ARMV7M_EXCP_SYSTICK else gic s).
Proof.
  intros Hr Ht Hs Hb. destruct (timer_tick_spec scale s) as (_ & _ & H). destruct (H ltac:(lia)) as (E1 & E2 & E3). cbv zeta.
  rewrite E1, E2, E3, E1. rewrite u32_small by (split; lia).
  assert (0 <= (reload s + 1) * systick_scale scale s) by nia. unfold s64.
  rewrite (sN_small 64 ((reload s + 1) * systick_scale scale s)) by (change (64 - 1) with 63; lia).
  rewrite sN_small by (change (64 - 1) with 63; lia).
  split; [done|]. split; [done|]. split.
  - change SYSTICK_COUNTFLAG with (1 .<< 16). rewrite flag_testbit, Z.lor_spec by lia. by rewrite orb_true_r.
  - unfold systick_timer_tick. set (s1 := if _ .&? _ then _ else _).
    assert (gic s1 = (if (control s .| SYSTICK_COUNTFLAG) .&? SYSTICK_TICKINT then Gic.gic_set_pending_private (gic s) 0 ARMV7M_EXCP_SYSTICK else gic s)) as E
      by (subst s1; cbn; by destruct (_ .&? _)).
    clearbody s1. rewrite <- E. by destruct (reload s1 =? 0).
Qed.

(** The current value counts down one per clock period: [k] periods or less before the deadline it reads
    [k], and in the first period of a round, before the counter is reloaded, it reads 0. *)
Theorem systick_counts_down scale s k t :
  control s .&? SYSTICK_ENABLE = true -> 0 < systick_scale scale s -> 0 <= reload s < 2 ^ 32 - 1 ->
  1 <= k <= reload s + 1 -> tick s - k * systick_scale scale s <= t < tick s - (k - 1) * systick_scale scale s ->
  systick_current scale s t = Some (if k =? reload s + 1 then 0 else k).
Proof.
  intros He Hs Hr Hk Ht. unfold systick_current. rewrite He. cbn [negb]. destruct (Z.leb_spec (tick s) t); [nia|].
  destruct (Z.eqb_spec (systick_scale scale s) 0); [lia|].
  assert (Z.quot (tick s - (t + 1)) (systick_scale scale s) = k - 1) as ->.
  { rewrite Z.quot_div_nonneg by lia. symmetry. apply (Z.div_unique _ _ _ (tick s - (t + 1) - (k - 1) * systick_scale scale s)); nia. }
  replace (k - 1 + 1) with k by lia. rewrite u32_small by (split; lia).
  destruct (Z.ltb_spec (reload s) k), (Z.eqb_spec k (reload s + 1)); done || lia.
Qed.

(** ** SysTick on the queue of the virtual clock *)

Abbreviation state := (Timers.state unit nvic_state).
(** [systick_timer_tick] called by the queue, for the timer its argument gives. *)
Definition systick_cb (scale : Z) (now : Timers.times) (_ : unit) (opaque : Z) (s : state) : option state :=
  let w := systick_timer_tick scale (Timers.world s).[timer := None] in
  let s := s.[Timers.world := w] in
  match timer w with
  | Some e => Timers.qemu_mod_timer now (Z.to_pos opaque) e s
  | None => Some s
  end.

(** A round that takes no time. *)
Definition no_time (scale : Z) (w : nvic_state) : Prop :=
  reload w <> 0 /\ s64 (u32 (reload w + 1) * systick_scale scale w) = 0 /\ 0 <= tick w < 2 ^ 63.
Lemma tick_no_time scale w : no_time scale w -> let w' := systick_timer_tick scale w.[timer := None] in
  no_time scale w' /\ tick w' = tick w /\ timer w' = Some (tick w).
Proof.
  intros (Hr & Hz & Ht). destruct (timer_tick_spec scale w.[timer := None]) as (E1 & E2 & H). destruct (H Hr) as (E3 & E4 & _).
  change (reload w.[timer := None]) with (reload w) in *. change (tick w.[timer := None]) with (tick w) in *.
  change (systick_scale scale w.[timer := None]) with (systick_scale scale w) in *. cbv zeta.
  assert (tick (systick_timer_tick scale w.[timer := None]) = tick w) as E by (rewrite E3, Hz, Z.add_0_r; unfold s64; apply sN_small; lia).
  split; [|split; [done|congruence]]. split; [by rewrite E1|]. split; [by rewrite E1, E2|by rewrite E].
Qed.

(** One SysTick timer is pending, and due. *)
Record due_systick (scale cur : Z) (p : Timers.ptr) (s : state) : Prop := {
  ds_queue : exists q, TimersProps.repr s q /\ q Timers.vm_clock = [p];
  ds_timer t : Timers.timers s !! p = Some t -> Timers.clock t = Timers.vm_clock /\ Timers.opaque t = Zpos p /\ Timers.scale t = 1;
  ds_exp : TimersProps.exp s p = tick (Timers.world s);
  ds_due : tick (Timers.world s) <= cur;
  ds_time : no_time scale (Timers.world s)
}.
Lemma due_systick_again scale now cur p s t s1 s2 : due_systick scale cur p s -> Timers.timers s !! p = Some t ->
  Timers.store s (Timers.Active Timers.vm_clock) (Timers.next t) = Some s1 -> Timers.store s1 (Timers.Next p) None = Some s2 ->
  exists s3, systick_cb scale now (Timers.cb t) (Timers.opaque t) s2 = Some s3 /\ due_systick scale cur p s3.
Proof.
  intros [(q & R & Eq) Ht Hx Hd Hz] Et E1 E2. destruct (Ht t Et) as (Hc & Ho & Hs).
  destruct (TimersProps.pop_spec Timers.vm_clock s q p [] R Eq) as (t' & s1' & s2' & Et' & E1' & E2' & R2 & S2).
  assert (t' = t) as -> by congruence. assert (s1' = s1) as -> by congruence. assert (s2' = s2) as -> by congruence.
  destruct (tick_no_time scale (Timers.world s) Hz) as (Hz' & Hk & Htm). unfold systick_cb.
  rewrite (TimersProps.sm_world _ _ S2), Ho. set (w := systick_timer_tick _ _) in *. rewrite Htm. cbn [Z.to_pos].
  set (s2w := s2.[Timers.world := w]). set (q2 := TimersProps.upd q Timers.vm_clock []) in *.
  assert (TimersProps.repr s2w q2) as R2w.
  { destruct R2 as [Rc Rk Rn Rs]. split; [|exact Rk|exact Rn|exact Rs]. intros c. apply (TimersProps.chain_frame s2); [|done]. by intros [[]|p']. }
  pose proof (TimersProps.sm_attr _ _ S2 p) as Ha. unfold TimersProps.attr in Ha. rewrite Et in Ha.
  destruct (Timers.timers s2 !! p) as [t2|] eqn:Et2; [|done]. cbn in Ha. injection Ha as _ Ek _ Eo Es.
  unfold Timers.qemu_mod_timer. change (Timers.timers s2w) with (Timers.timers s2). rewrite Et2. cbn [mbind option_bind].
  rewrite Es, Hs, Z.mul_1_r. replace (s64 (tick (Timers.world s))) with (tick (Timers.world s)) by (unfold s64; symmetry; apply sN_small; destruct Hz as (_ & _ & ?); lia).
  destruct (TimersProps.qemu_mod_timer_queues now s2w q2 p Timers.vm_clock (tick (Timers.world s)) R2w) as (s3 & -> & R3 & X3 & K3 & I3 & A3 & W3 & _).
  { unfold TimersProps.clock_of. change (Timers.timers s2w) with (Timers.timers s2). rewrite Et2. cbn. congruence. }
  exists s3. split; [done|]. assert (Timers.world s3 = w) as W by by rewrite W3. split.
  - eexists. split; [exact R3|]. rewrite TimersProps.upd_at. unfold q2. by rewrite TimersProps.upd_at.
  - intros t3 (t4 & Et4 & <- & <- & <-)%(TimersProps.ident_timer s2w s3); [|done].
    change (Timers.timers s2w) with (Timers.timers s2) in Et4. rewrite Et2 in Et4. injection Et4 as <-. rewrite Ek, Eo, Es. done.
  - rewrite W, Hk. done.
  - rewrite W, Hk. done.
  - by rewrite W.
Qed.
Lemma run_no_time scale now cur p n : forall s, due_systick scale cur p s ->
  Timers.run_loop (systick_cb scale now) n Timers.vm_clock cur s = None.
Proof.
  induction n as [|n IH]; intros s D; [done|]. cbn [Timers.run_loop]. pose proof D as [(q & R & Eq) Ht Hx Hd Hz].
  destruct (TimersProps.pop_spec Timers.vm_clock s q p [] R Eq) as (t & s1 & s2 & Et & E1 & E2 & _ & _).
  pose proof (TimersProps.re_chain _ _ R Timers.vm_clock) as Rc. rewrite Eq in Rc. destruct Rc as [[= Ea] _]. cbn in Ea.
  cbn [Timers.get_clk]. rewrite Ea. cbn [Timers.qemu_timer_expired_ns]. rewrite Et. cbn [mbind option_bind].
  assert ((Timers.expire_time t <=? cur) = true) as ->.
  { apply Z.leb_le. rewrite <- (TimersProps.exp_lookup s p t Et), Hx. done. }
  rewrite E1. cbn [mbind option_bind]. rewrite E2. cbn [mbind option_bind].
  destruct (due_systick_again scale now cur p s t s1 s2 D Et E1 E2) as (s3 & -> & D3). cbn [mbind option_bind]. by rewrite (IH s3 D3).
Qed.

Lemma enable_processor_clock w v now0 : control w = 0 -> tick w = 0 -> 0 <= now0 < 2 ^ 63 ->
  v .&? SYSTICK_ENABLE = true -> v .&? SYSTICK_CLKSOURCE = true ->
  let w' := nvic_writel 0 w 0x10 v now0 in tick w' = now0 /\ timer w' = Some now0 /\ reload w' = reload w /\ systick_scale 0 w' = 0.
Proof.
  intros Hc Ht Hn He Hk. assert ((v .& 7) .&? SYSTICK_CLKSOURCE = true) as Hk'.
  { revert Hk. change SYSTICK_CLKSOURCE with (1 .<< 2). rewrite !flag_testbit by lia. intros E. by rewrite Z.land_spec, E. }
  unfold nvic_writel. change (0x10 =? 0x10) with true. cbv iota. unfold write_control. rewrite Hc, Z.lxor_0_l, He, Z.land_0_l, Z.lor_0_l.
  cbn [tick set_field]. rewrite Ht. change (truth 0) with false. cbv iota. cbv zeta. unfold systick_reload. cbn. unfold systick_scale. cbn. rewrite Hk', Z.mul_0_r.
  change (s64 0) with 0. rewrite Z.add_0_r. assert (s64 now0 = now0) as -> by (unfold s64; apply sN_small; lia). done.
Qed.
(** On this machine nothing sets the period of the processor clock, so it is 0.  When a guest has set a reload
    value and enables SysTick on that clock, the timer is armed for the current time, and from then on running
    the virtual clock's timers never returns: each tick arms the timer again for the time it is due at. *)
Theorem systick_never_returns w v now0 now (s : state) q p t :
  control w = 0 -> tick w = 0 -> reload w <> 0 -> is_u 32 (reload w) -> 0 <= now0 < 2 ^ 63 ->
  v .&? SYSTICK_ENABLE = true -> v .&? SYSTICK_CLKSOURCE = true ->
  Timers.world s = nvic_writel 0 w 0x10 v now0 -> timer (Timers.world s) = Some (TimersProps.exp s p) ->
  TimersProps.repr s q -> q Timers.vm_clock = [p] ->
  Timers.timers s !! p = Some t -> Timers.clock t = Timers.vm_clock -> Timers.opaque t = Zpos p -> Timers.scale t = 1 ->
  Timers.enabled (Timers.vm s) = true -> now0 <= Timers.cpu_get_clock now ->
  forall n, Timers.qemu_run_timers (systick_cb 0 now) n now Timers.vm_clock s = None.
Proof.
  intros Hc Ht Hr Hru Hn He Hk Hw Hx R Eq Et Hck Ho Hsc Hen Hle n.
  unfold Timers.qemu_run_timers. cbn [Timers.get_clk]. rewrite Hen. cbn [negb Timers.qemu_get_clock_ns]. apply (run_no_time 0 now _ p).
  destruct (enable_processor_clock w v now0) as (E1 & E2 & E3 & E4); [done..|]. rewrite Hw, E2 in Hx. injection Hx as Hx. split.
  - eauto.
  - intros t' Et'. assert (t' = t) as -> by congruence. done.
  - by rewrite Hw, E1.
  - by rewrite Hw, E1.
  - rewrite Hw. split; [by rewrite E3|]. split; [by rewrite E4, Z.mul_0_r|]. by rewrite E1.
Qed.

(** ** Delivery *)

(** The interrupt an update puts first is the one the core takes. *)
Lemma take_highest g i : GicProps.wf g -> Gic.enabled g = true -> (forall c, 0 <= c < Gic.num_cpu g -> aget false (Gic.cpu_enabled g) c = true) ->
  GicProps.highest g 0 (Gic.num_irq g) i ->
  Gic.GIC_GET_PRIORITY g i 0 < aget 0 (Gic.priority_mask g) 0 -> Gic.GIC_GET_PRIORITY g i 0 < aget 0 (Gic.running_priority g) 0 ->
  fst (Gic.gic_acknowledge_irq (Gic.gic_update g) 0) = i.
Proof.
  intros W He Hc Hi Hm Hr. pose proof (GicProps.wf_cpus _ W) as Hn.
  pose proof (GicProps.gic_update_told g 0 W He Hc ltac:(lia)) as Ht. unfold GicProps.tells, GicProps.told in Ht.
  destruct (GicProps.best_pending_of g 0 W) as [[_ Hno]|(j & E & Hj)].
  { destruct Hi as (Hi & Hci & _). by rewrite Hno in Hci. }
  assert (j = i) as ->.
  { destruct Hi as (Hi & Hci & Hbi), Hj as (Hj & Hcj & Hbj). destruct (Hbi j Hj Hcj), (Hbj i Hi Hci).
    destruct (Z.lt_total i j) as [?|[?|?]]; [|done|]; lia. }
  rewrite E in Ht. destruct (Z.ltb_spec (Gic.GIC_GET_PRIORITY g i 0) (aget 0 (Gic.priority_mask g) 0)); [|lia]. injection Ht as Ht _.
  pose proof (GicProps.core_tests g _ (GicProps.gic_update_core g)) as (_ & _ & _ & _ & E5 & _ & _ & E8 & E9 & _).
  unfold Gic.gic_acknowledge_irq. rewrite Ht. destruct Hi as (Hi & _). pose proof (GicProps.wf_irqs _ W). unfold Gic.GIC_MAXIRQ in *.
  destruct (Z.eqb_spec i 1023); [lia|]. cbn [orb].
  assert (Gic.GIC_GET_PRIORITY (Gic.gic_update g) i 0 = Gic.GIC_GET_PRIORITY g i 0) as -> by (unfold Gic.GIC_GET_PRIORITY; by rewrite E8, E9).
  rewrite E5. by destruct (Z.leb_spec (aget 0 (Gic.running_priority g) 0) (Gic.GIC_GET_PRIORITY g i 0)); [lia|].
Qed.

Lemma irq_at_with g i f j : GicProps.wf g -> 0 <= i < Gic.num_irq g -> 0 <= j ->
  Gic.irq_at (Gic.with_irq g i f) j = if j =? i then f (Gic.irq_at g i) else Gic.irq_at g j.
Proof.
  intros W Hi Hj. unfold Gic.irq_at at 1, Gic.with_irq. cbn. destruct (GicProps.wf_irq _ W) as [Hl _]. pose proof (GicProps.wf_irqs _ W).
  destruct (Z.eqb_spec j i) as [->|]; [rewrite aget_aset_eq by lia; done|by rewrite aget_aset_ne by lia].
Qed.
Lemma u8_bit0 x : (u8 x .&? (1 .<< 0)) = (x .&? (1 .<< 0)).
Proof. rewrite !flag_testbit by lia. unfold u8. by rewrite Z.mod_pow2_bits_low by lia. Qed.
Lemma lor_bit0 x y : ((x .| y) .&? (1 .<< 0)) = (x .&? (1 .<< 0)) || (y .&? (1 .<< 0)).
Proof. rewrite !flag_testbit by lia. by rewrite Z.lor_spec. Qed.

(** A controller that can deliver interrupt [i]: it is enabled, let through, and
    nothing pending is more urgent. *)
Record deliverable (g : Gic.GICState) (i : Z) : Prop := {
  de_wf : GicProps.wf g;
  de_cpu : Gic.num_cpu g = 1;
  de_on : Gic.enabled g = true;
  de_cpu_on : aget false (Gic.cpu_enabled g) 0 = true;
  de_range : 0 <= i < Gic.num_irq g;
  de_enabled : Gic.GIC_TEST_ENABLED g i (1 .<< 0) = true;
  de_mask : Gic.GIC_GET_PRIORITY g i 0 < aget 0 (Gic.priority_mask g) 0;
  de_running : Gic.GIC_GET_PRIORITY g i 0 < aget 0 (Gic.running_priority g) 0;
  de_first j : 0 <= j < Gic.num_irq g -> GicProps.cand g 0 j = true ->
    Gic.GIC_GET_PRIORITY g i 0 < Gic.GIC_GET_PRIORITY g j 0 \/ (Gic.GIC_GET_PRIORITY g i 0 = Gic.GIC_GET_PRIORITY g j 0 /\ i <= j)
}.
(** Pending it is enough. *)
Lemma deliver g g' i : deliverable g i -> GicProps.wf g' ->
  (exists f, g' = Gic.with_irq g i f /\ Gic.i_enabled (f (Gic.irq_at g i)) = Gic.i_enabled (Gic.irq_at g i) /\
             (Gic.i_pending (f (Gic.irq_at g i)) .&? (1 .<< 0)) = true) ->
  fst (Gic.gic_acknowledge_irq (Gic.gic_update g') 0) = i.
Proof.
  intros [W Hn He Hce Hi Hen Hm Hr Hf] W' (f & -> & Hfe & Hfp). apply take_highest; try done.
  - intros c Hc. change (Gic.num_cpu _) with (Gic.num_cpu g) in Hc. replace c with 0 by lia. done.
  - assert (forall j, 0 <= j -> Gic.GIC_GET_PRIORITY (Gic.with_irq g i f) j 0 = Gic.GIC_GET_PRIORITY g j 0) as Ep by done.
    assert (GicProps.cand (Gic.with_irq g i f) 0 i = true) as Hci.
    { unfold GicProps.cand, Gic.GIC_TEST_ENABLED, Gic.GIC_TEST_PENDING in *. rewrite irq_at_with, Z.eqb_refl, Hfe, Hfp by (done || lia). by rewrite Hen. }
    split; [done|]. split; [done|]. intros j Hj Hcj. change (Gic.num_irq _) with (Gic.num_irq g) in Hj. rewrite !Ep by lia.
    destruct (decide (j = i)) as [->|Hne]; [lia|]. assert (GicProps.cand g 0 j = true) as Hcj'.
    { revert Hcj. unfold GicProps.cand, Gic.GIC_TEST_ENABLED, Gic.GIC_TEST_PENDING. rewrite irq_at_with by (done || lia). by destruct (Z.eqb_spec j i). }
    destruct (Hf j Hj Hcj'); lia.
Qed.

Lemma with_with g i f h : GicProps.wf g -> 0 <= i < Gic.num_irq g ->
  Gic.with_irq (Gic.with_irq g i f) i h = Gic.with_irq g i (fun x => h (f x)).
Proof.
  intros W Hi. unfold Gic.with_irq at 1. rewrite irq_at_with, Z.eqb_refl by (done || lia). unfold Gic.with_irq. cbn.
  unfold aset. destruct (Z.leb_spec 0 i); [|lia]. by rewrite list_insert_insert_eq.
Qed.
Lemma nvic_takes s g n : 0 <= n -> n + 32 < 1020 -> fst (Gic.gic_acknowledge_irq g 0) = n + 32 ->
  exists s', armv7m_nvic_acknowledge_irq s.[gic := g] = Some (n + 16, s').
Proof.
  intros H0 H1 E. unfold armv7m_nvic_acknowledge_irq. cbn [gic set_field]. cbn. destruct (Gic.gic_acknowledge_irq g 0) as [irq g']. cbn [fst] in E. subst irq.
  destruct (Z.eqb_spec (n + 32) 1023); [lia|]. destruct (Z.leb_spec 32 (n + 32)); [|lia]. eexists. do 2 f_equal. lia.
Qed.

(** C38. A rising interrupt line reaches the core as the exception with its number: when line [n] of the controller
    goes up, its interrupt being enabled, targeted at the core and the most urgent, the exception the core takes
    is vector [n] + 16. *)
Theorem line_to_vector s n :
  let i := n + 32 in
  0 <= n < Gic.num_irq (gic s) - 32 -> deliverable (gic s) i ->
  Gic.GIC_TEST_LEVEL (gic s) i Gic.ALL_CPU_MASK = false -> (Gic.GIC_TARGET (gic s) i .&? (1 .<< 0)) = true ->
  exists s', armv7m_nvic_acknowledge_irq s.[gic := Gic.gic_set_irq (gic s) n 1] = Some (n + 16, s').
Proof.
  intros i Hn D Hl Ht. pose proof (de_wf _ _ D) as W. pose proof (GicProps.wf_irqs _ W) as Hni. unfold Gic.GIC_MAXIRQ in Hni.
  assert (fst (Gic.gic_acknowledge_irq (Gic.gic_set_irq (gic s) n 1) 0) = i) as E.
  { unfold Gic.gic_set_irq, Gic.line_irq. destruct (Z.ltb_spec n (Gic.num_irq (gic s) - Gic.GIC_INTERNAL)) as [_|Hge]; [|unfold Gic.GIC_INTERNAL in Hge; lia].
    change (n + Gic.GIC_INTERNAL) with i. rewrite Hl. change (1 =? b2z false) with false. change (truth 1) with true. cbv iota.
    set (g1 := Gic.GIC_SET_LEVEL (gic s) i Gic.ALL_CPU_MASK).
    assert (Gic.GIC_TEST_ENABLED g1 i Gic.ALL_CPU_MASK = true) as Hen.
    { pose proof (de_enabled _ _ D) as He. unfold Gic.GIC_TEST_ENABLED in *. unfold g1, Gic.GIC_SET_LEVEL.
      rewrite irq_at_with, Z.eqb_refl by (done || lia). cbn [Gic.i_enabled set_field].
      apply truth_true in He. apply truth_true. intros H0. apply He. apply Z.bits_inj'. intros k Hk.
      pose proof (f_equal (fun x => Z.testbit x k) H0) as Hb. cbn beta in Hb. revert Hb. cbn.
      rewrite !Z.land_spec, !Z.bits_0. intros Hb. destruct (decide (k = 0)) as [->|].
      - rewrite andb_true_r in Hb |- *. done.
      - change (1 .<< 0) with (2 ^ 0). rewrite Z.pow2_bits_false by lia. apply andb_false_r. }
    rewrite Hen, orb_true_r. apply (deliver (gic s)); [done|by apply GicProps.set_pending_wf, GicProps.set_level_wf|].
    eexists. unfold g1, Gic.GIC_SET_PENDING, Gic.GIC_SET_LEVEL. rewrite with_with by (done || lia). split; [done|]. cbn.
    split; [done|]. by rewrite u8_bit0, lor_bit0, Ht, orb_true_r. }
  apply nvic_takes; [lia..|exact E].
Qed.

(** A SysTick that is to interrupt reaches the core as exception 15 when it fires, if that is the most urgent. *)
Theorem systick_to_vector scale s :
  deliverable (gic s) ARMV7M_EXCP_SYSTICK -> Gic.GIC_TEST_PENDING (gic s) ARMV7M_EXCP_SYSTICK (1 .<< 0) = false ->
  (control s .| SYSTICK_COUNTFLAG) .&? SYSTICK_TICKINT = true ->
  exists s', armv7m_nvic_acknowledge_irq (systick_timer_tick scale s) = Some (ARMV7M_EXCP_SYSTICK, s').
Proof.
  intros D Hp Hc. pose proof (de_range _ _ D) as Hr. unfold ARMV7M_EXCP_SYSTICK in *.
  assert (gic (systick_timer_tick scale s) = Gic.gic_set_pending_private (gic s) 0 15) as Eg.
  { unfold systick_timer_tick. cbn [control set_field]. cbn. rewrite Hc. cbn. by destruct (reload s =? 0). }
  assert (fst (Gic.gic_acknowledge_irq (gic (systick_timer_tick scale s)) 0) = 15) as E.
  { rewrite Eg. unfold Gic.gic_set_pending_private. rewrite Hp. apply (deliver (gic s)); [done|by apply GicProps.set_pending_wf, (de_wf _ _ D)|].
    eexists. unfold Gic.GIC_SET_PENDING. split; [done|]. cbn. split; [done|]. by rewrite u8_bit0, lor_bit0, orb_true_r. }
  revert E. generalize (systick_timer_tick scale s). intros s1 E. unfold armv7m_nvic_acknowledge_irq.
  destruct (Gic.gic_acknowledge_irq (gic s1) 0) as [irq g]. cbn [fst] in E. subst irq. by eexists.
Qed.

(** ** What the sources get wrong *)

Definition nvic0 : nvic_state := armv7m_nvic_reset (snd (armv7m_nvic_realize armv7m_nvic_instance_init 0)).
(** A SysTick stopped on the reference clock and started on the processor clock, whose period is 0 on this
    machine, divides by zero when its current value is read. *)
Theorem systick_divides_by_zero :
  let s := nvic_writel 0 nvic0 0x14 100 0 in
  let s := nvic_writel 0 s 0x10 1 0 in
  let s := nvic_writel 0 s 0x10 0 1000 in
  let s := nvic_writel 0 s 0x10 5 2000 in
  nvic_readl 0 s 0x18 3000 = None.
Proof. by vm_compute. Qed.
(** The state register misses pending interrupts: the NVIC counts its lines without the 32 the GIC adds. *)
Theorem pending_lines_missed :
  let s := nvic0.[gic := Gic.GIC_SET_PENDING (gic nvic0) 64 1] in
  Gic.num_irq (gic s) = 96 /\ num_irq s = 64 /\ interrupt_state s .& (1 .<< 22) = 0.
Proof. by vm_compute. Qed.

(** ** Witnesses *)

Lemma nvic0_wf : GicProps.wf (gic nvic0).
Proof.
  assert (GicProps.wf (Gic.arm_gic_common_reset (gic (snd (armv7m_nvic_realize armv7m_nvic_instance_init 0))))) as W.
  { apply GicProps.reset_wf. unfold armv7m_nvic_realize. destruct (Gic.arm_gic_common_realize _) as [b g] eqn:E. cbn [snd gic].
    apply (GicProps.new_wf 1 64 Gic.REV_NVIC); [lia|]. change (Gic.gic_new 1 armv7m_nvic_instance_init Gic.REV_NVIC) with (Gic.gic_new 1 64 Gic.REV_NVIC) in E.
    rewrite E. f_equal. assert (fst (Gic.arm_gic_common_realize (Gic.gic_new 1 64 Gic.REV_NVIC)) = true) as H by by vm_compute. by rewrite E in H. }
  unfold nvic0, armv7m_nvic_reset. revert W. generalize (Gic.arm_gic_common_reset (gic (snd (armv7m_nvic_realize armv7m_nvic_instance_init 0)))). intros g W.
  cbn. destruct W. split; cbn; rewrite ?length_aset; auto with gic.
Qed.
(** Line 3 and SysTick, at priority 0x40, with nothing else pending. *)
Definition nvic1 : nvic_state :=
  nvic0.[gic := Gic.gic_dist_writeb (Gic.gic_dist_writeb (gic nvic0) 0 0x100 8) 0 0x403 0x40].
Lemma nvic1_wf : GicProps.wf (gic nvic1).
Proof. apply GicProps.writeb_wf, GicProps.writeb_wf, nvic0_wf. Qed.
Lemma nvic1_idle j : 0 <= j < Gic.num_irq (gic nvic1) -> GicProps.cand (gic nvic1) 0 j = true -> False.
Proof.
  assert (Gic.num_irq (gic nvic1) = 96) as E by by vm_compute.
  assert (forallb (fun j => negb (GicProps.cand (gic nvic1) 0 j)) (seqZ 0 96) = true) as H by by vm_compute.
  rewrite E. clear E. revert H. generalize (gic nvic1). intros g H Hj Hc. rewrite forallb_forall in H.
  specialize (H j ltac:(apply list_elem_of_In, elem_of_seqZ; lia)). by rewrite Hc in H.
Qed.
Lemma nvic1_deliverable i : i = 15 \/ i = 35 -> deliverable (gic nvic1) i.
Proof.
  intros Hi. split; [apply nvic1_wf| | | | | | | |]; try (destruct Hi as [-> | ->]; by vm_compute).
  intros j Hj Hc. by destruct (nvic1_idle j Hj Hc).
Qed.
Lemma line_to_vector_witness : exists s', armv7m_nvic_acknowledge_irq nvic1.[gic := Gic.gic_set_irq (gic nvic1) 3 1] = Some (19, s').
Proof. apply (line_to_vector nvic1 3); [by vm_compute|apply nvic1_deliverable; by right|by vm_compute|by vm_compute]. Defined.
Lemma gic_control s c : gic s.[control := c] = gic s.
Proof. done. Qed.
Lemma systick_to_vector_witness : exists s', armv7m_nvic_acknowledge_irq (systick_timer_tick 0 nvic1.[control := 3]) = Some (ARMV7M_EXCP_SYSTICK, s').
Proof.
  refine (systick_to_vector 0 nvic1.[control := 3] _ _ _).
  - rewrite gic_control. apply nvic1_deliverable. by left.
  - by vm_compute.
  - by vm_compute.
Defined.
Definition ticking : nvic_state := nvic0.[control := 1].[reload := 9].[tick := 50000].
Lemma systick_periodic_witness : tick (systick_timer_tick 0 ticking) = 60000.
Proof. refine (proj1 (systick_periodic 0 ticking _ _ _ _)); by vm_compute. Defined.
Lemma systick_counts_down_witness : systick_current 0 ticking 46500 = Some 4.
Proof. apply (systick_counts_down 0 ticking 4 46500); by vm_compute. Defined.

Definition stuck_world : nvic_state := nvic_writel 0 nvic0.[reload := 9] 0x10 5 100.
Definition stuck_state : state :=
  Timers.mkState {[ 1%positive := Timers.mkTimer 100 Timers.vm_clock tt 1 None 1 ]} Timers.qemu_new_clock
    (Timers.mkClock (Some 1%positive) 0 true []) Timers.qemu_new_clock (Timers.mkAlarm false false []) stuck_world.
Definition stuck_queue (c : Timers.clock_id) : list Timers.ptr := match c with Timers.vm_clock => [1%positive] | _ => [] end.
Lemma stuck_repr : TimersProps.repr stuck_state stuck_queue.
Proof.
  split; [by intros []| | |].
  - intros [] p; cbn [stuck_queue]; [by intros ?%not_elem_of_nil| |by intros ?%not_elem_of_nil]. by intros ->%list_elem_of_singleton.
  - intros []; cbn [stuck_queue]; [apply NoDup_nil_2|apply NoDup_singleton|apply NoDup_nil_2].
  - intros []; cbn [stuck_queue]; [constructor|repeat constructor|constructor].
Qed.
Lemma systick_never_returns_witness :
  Timers.qemu_run_timers (systick_cb 0 (Timers.mkTimes 0 150 0)) 1000 (Timers.mkTimes 0 150 0) Timers.vm_clock stuck_state = None.
Proof.
  apply (systick_never_returns nvic0.[reload := 9] 5 100 (Timers.mkTimes 0 150 0) stuck_state stuck_queue 1%positive
    (Timers.mkTimer 100 Timers.vm_clock tt 1 None 1)); try apply stuck_repr; try by vm_compute.
Defined.
End NvicProps.
