(* ===== verification/Cpu.v ===== *)
(** * The Cortex-M core (target-arm/helper.c, target-arm/cpu.h, target-arm/cpu.c, cpu-exec.c)

    The registers and flags of the core, the program status register, the
    special registers, exception entry and return, and when an interrupt is
    taken.  The core acknowledges and ends interrupts at the NVIC and saves
    registers through physical memory, which is an interface here. *)

From S2P Require Import Prelude Gic Nvic.

Module Cpu.
#[local] Existing Instances Gic.eta_gic Nvic.eta_nvic.

(** Flags are cached: N and V are bit 31 of their fields, Z is set when its
    field is zero.  [control], [current_sp], [other_sp] and [exception] are in
    the member [v7m]; its [vecbase] is in the state of the NVIC. *)
Record CPUARMState := mkCpu {
  regs : list Z;
  CF : Z; VF : Z; NF : Z; ZF : Z; QF : Z; GE : Z;
  thumb : Z;
  condexec_bits : Z;
  uncached_cpsr : Z;
  other_sp : Z;
  basepri : Z;
  control : Z;
  current_sp : Z;
  exception : Z;
  exception_index : Z
}.
#[export] Instance eta_cpu : RecEta CPUARMState := fun s =>
  mkCpu (regs s) (CF s) (VF s) (NF s) (ZF s) (QF s) (GE s) (thumb s) (condexec_bits s) (uncached_cpsr s) (other_sp s)
    (basepri s) (control s) (current_sp s) (exception s) (exception_index s).

Definition EXCP_UDEF := 1.
Definition EXCP_SWI := 2.
Definition EXCP_PREFETCH_ABORT := 3.
Definition EXCP_DATA_ABORT := 4.
Definition EXCP_IRQ := 5.
Definition EXCP_FIQ := 6.
Definition EXCP_BKPT := 7.
Definition EXCP_EXCEPTION_EXIT := 8.
Definition ARM_CPU_MODE_SVC := 0x13.
Definition CPSR_F := 1 .<< 6.
Definition CPSR_I := 1 .<< 7.
Definition CPSR_A := 1 .<< 8.
Definition CPSR_IT_2_7 := 0xfc00.
Definition CPSR_IT_0_1 := 3 .<< 25.
Definition CPSR_Q := 1 .<< 27.
Definition CPSR_Z := 1 .<< 30.
Definition CPSR_NZCV := (1 .<< 31) .| CPSR_Z .| (1 .<< 29) .| (1 .<< 28).

Definition reg (s : CPUARMState) (i : Z) : Z := aget 0 (regs s) i.
Definition set_reg (s : CPUARMState) (i v : Z) : CPUARMState := s.[regs := aset (regs s) i (u32 v)].

(** ** The program status register *)

Definition xpsr_read (s : CPUARMState) : Z :=
  let zf := b2z (ZF s =? 0) in
  u32 ((NF s .& 0x80000000) .| (zf .<< 30) .| (CF s .<< 29) .| ((VF s .& 0x80000000) .>> 3) .| (QF s .<< 27)
       .| (thumb s .<< 24) .| ((condexec_bits s .& 3) .<< 25) .| ((condexec_bits s .& 0xfc) .<< 8) .| exception s).
Definition write_flags (s : CPUARMState) (val : Z) : CPUARMState :=
  s.[ZF := not32 val .& CPSR_Z].[NF := val].[CF := (val .>> 29) .& 1].[VF := u32 (val .<< 3) .& 0x80000000].
Definition xpsr_write (s : CPUARMState) (val mask : Z) : CPUARMState :=
  let s := if mask .&? CPSR_NZCV then write_flags s val else s in
  let s := if mask .&? CPSR_Q then s.[QF := b2z (val .&? CPSR_Q)] else s in
  let s := if mask .&? (1 .<< 24) then s.[thumb := b2z (val .&? (1 .<< 24))] else s in
  let s := if mask .&? CPSR_IT_0_1 then s.[condexec_bits := (condexec_bits s .& not32 3) .| ((val .>> 25) .& 3)] else s in
  let s := if mask .&? CPSR_IT_2_7 then s.[condexec_bits := (condexec_bits s .& 3) .| ((val .>> 8) .& 0xfc)] else s in
  if mask .&? 0x1ff then s.[exception := val .& 0x1ff] else s.

(** ** Special registers *)

(** Switch to the main or the process stack pointer. *)
Definition switch_v7m_sp (s : CPUARMState) (process : Z) : CPUARMState :=
  if negb (current_sp s =? process) then
    let tmp := other_sp s in
    let s := s.[other_sp := reg s 13] in
    (set_reg s 13 tmp).[current_sp := process]
  else s.

(** [None] is the abort on a register that is not implemented. *)
Definition v7m_mrs (s : CPUARMState) (r : Z) : option Z :=
  if r =? 0 then Some (xpsr_read s .& 0xf8000000)
  else if r =? 1 then Some (xpsr_read s .& 0xf80001ff)
  else if r =? 2 then Some (xpsr_read s .& 0xff00fc00)
  else if r =? 3 then Some (xpsr_read s .& 0xff00fdff)
  else if r =? 5 then Some (xpsr_read s .& 0x000001ff)
  else if r =? 6 then Some (xpsr_read s .& 0x0700fc00)
  else if r =? 7 then Some (xpsr_read s .& 0x0700edff)
  else if r =? 8 then Some (if truth (current_sp s) then other_sp s else reg s 13)
  else if r =? 9 then Some (if truth (current_sp s) then reg s 13 else other_sp s)
  else if r =? 16 then Some (b2z (uncached_cpsr s .&? CPSR_I))
  else if (r =? 17) || (r =? 18) then Some (basepri s)
  else if r =? 19 then Some (b2z (uncached_cpsr s .&? CPSR_F))
  else if r =? 20 then Some (control s)
  else None.
Definition set_mask (s : CPUARMState) (bit val : Z) : CPUARMState :=
  s.[uncached_cpsr := if val .&? 1 then uncached_cpsr s .| bit else uncached_cpsr s .& not32 bit].
Definition v7m_msr (s : CPUARMState) (r val : Z) : option CPUARMState :=
  if (r =? 0) || (r =? 1) then Some (xpsr_write s val 0xf8000000)
  else if (r =? 2) || (r =? 3) then Some (xpsr_write s val 0xfe00fc00)
  else if r =? 5 then Some s
  else if (r =? 6) || (r =? 7) then Some (xpsr_write s val 0x0600fc00)
  else if r =? 8 then Some (if truth (current_sp s) then s.[other_sp := val] else set_reg s 13 val)
  else if r =? 9 then Some (if truth (current_sp s) then set_reg s 13 val else s.[other_sp := val])
  else if r =? 16 then Some (set_mask s CPSR_I val)
  else if r =? 17 then Some s.[basepri := val .& 0xff]
  else if r =? 18 then
    let val := val .& 0xff in
    Some (if truth val && ((val <? basepri s) || (basepri s =? 0)) then s.[basepri := val] else s)
  else if r =? 19 then Some (set_mask s CPSR_F val)
  else if r =? 20 then Some (switch_v7m_sp s.[control := val .& 3] (b2z (val .&? 2)))
  else None.

(** ** Exceptions *)

(** Words of physical memory. *)
Class PhysMem (M : Type) := { ldl_phys : M -> Z -> Z; stl_phys : M -> Z -> Z -> M }.

Section Exceptions.
Context {M : Type} `{!PhysMem M}.

Record machine := mkMachine { env : CPUARMState; nvic : Nvic.nvic_state; ram : M }.
#[local] Instance eta_machine : RecEta machine := fun s => mkMachine (env s) (nvic s) (ram s).
Definition set_env (s : machine) (i v : Z) : machine := s.[env := set_reg (env s) i v].

Definition v7m_push (s : machine) (val : Z) : machine :=
  let s := set_env s 13 (reg (env s) 13 - 4) in
  s.[ram := stl_phys (ram s) (reg (env s) 13) val].
Definition v7m_pop (s : machine) : Z * machine :=
  let val := ldl_phys (ram s) (reg (env s) 13) in
  (val, set_env s 13 (reg (env s) 13 + 4)).
(** [env->regs[i] = v7m_pop(env)]. *)
Definition pop_reg (s : machine) (i : Z) : machine := let '(val, s) := v7m_pop s in set_env s i val.

(** [fuel] bounds the search of the interrupt controller; [None] is a lack of it. *)
Definition do_v7m_exception_exit (fuel : nat) (s : machine) : option machine :=
  let type := reg (env s) 15 in
  nv ← (if negb (exception (env s) =? 0) then Nvic.armv7m_nvic_complete_irq fuel (nvic s) (exception (env s))
        else Some (nvic s));
  let s := s.[nvic := nv] in
  let s := s.[env := switch_v7m_sp (env s) (b2z (type .&? 4))] in
  let s := pop_reg s 0 in
  let s := pop_reg s 1 in
  let s := pop_reg s 2 in
  let s := pop_reg s 3 in
  let s := pop_reg s 12 in
  let s := pop_reg s 14 in
  let s := pop_reg s 15 in
  let '(xpsr, s) := v7m_pop s in
  let s := s.[env := xpsr_write (env s) xpsr 0xfffffdff] in
  Some (if xpsr .&? 0x200 then set_env s 13 (reg (env s) 13 .| 4) else s).

(** The magic value of the link register. *)
Definition exc_return (s : CPUARMState) : Z :=
  let lr := 0xfffffff1 in
  let lr := if truth (current_sp s) then lr .| 4 else lr in
  if exception s =? 0 then lr .| 8 else lr.
(** Save the registers and enter the handler of the exception. *)
Definition push_frame (s : machine) (xpsr : Z) : machine :=
  let s := v7m_push s xpsr in
  let s := v7m_push s (reg (env s) 15) in
  let s := v7m_push s (reg (env s) 14) in
  let s := v7m_push s (reg (env s) 12) in
  let s := v7m_push s (reg (env s) 3) in
  let s := v7m_push s (reg (env s) 2) in
  let s := v7m_push s (reg (env s) 1) in
  v7m_push s (reg (env s) 0).
Definition enter_handler (s : machine) (xpsr lr : Z) : machine :=
  let '(s, xpsr) :=
    if reg (env s) 13 .&? 4 then (set_env s 13 (reg (env s) 13 - 4), xpsr .| 0x200) else (s, xpsr) in
  let s := push_frame s xpsr in
  let s := s.[env := switch_v7m_sp (env s) 0] in
  let s := s.[env := (env s).[condexec_bits := 0]] in
  let s := set_env s 14 lr in
  let addr := ldl_phys (ram s) (u32 (Nvic.vecbase (nvic s) + exception (env s) * 4)) in
  let s := set_env s 15 (addr .& 0xfffffffe) in
  s.[env := (env s).[thumb := addr .& 1]].

(** Semihosting, when it is on, answers a breakpoint numbered 0xab: it gives
    the value of register 0 and the machine. *)
Context (semihosting_enabled : bool) (arm_lduw_code : machine -> Z -> Z) (do_arm_semihosting : machine -> Z * machine).
Definition set_pending (s : machine) (n : Z) : machine := s.[nvic := Nvic.armv7m_nvic_set_pending (nvic s) n].
Definition arm_v7m_cpu_do_interrupt (fuel : nat) (s : machine) : option machine :=
  let xpsr := xpsr_read (env s) in
  let lr := exc_return (env s) in
  let idx := exception_index (env s) in
  if idx =? EXCP_UDEF then Some (set_pending s Nvic.ARMV7M_EXCP_USAGE)
  else if idx =? EXCP_SWI then Some (set_pending s Nvic.ARMV7M_EXCP_SVC)
  else if (idx =? EXCP_PREFETCH_ABORT) || (idx =? EXCP_DATA_ABORT) then Some (set_pending s Nvic.ARMV7M_EXCP_MEM)
  else if idx =? EXCP_BKPT then
    if semihosting_enabled && ((arm_lduw_code s (reg (env s) 15) .& 0xff) =? 0xab) then
      let s := set_env s 15 (reg (env s) 15 + 2) in
      let '(r0, s) := do_arm_semihosting s in
      Some (set_env s 0 r0)
    else Some (set_pending s Nvic.ARMV7M_EXCP_DEBUG)
  else if idx =? EXCP_IRQ then
    '(n, nv) ← Nvic.armv7m_nvic_acknowledge_irq (nvic s);
    Some (enter_handler s.[env := (env s).[exception := n]].[nvic := nv] xpsr lr)
  else if idx =? EXCP_EXCEPTION_EXIT then do_v7m_exception_exit fuel s
  else None.

(** Whether the main loop takes the interrupt that is signalled. *)
Definition takes_irq (s : CPUARMState) : bool :=
  (reg s 15 <? 0xfffffff0) || negb (uncached_cpsr s .&? CPSR_I).

(** Reset; [rom] are the two words at the start of the image, if there is one.
    The registers of other profiles and of the floating point unit are not in
    the record. *)
Definition arm_cpu_reset (rom : option (Z * Z)) (s : CPUARMState) : CPUARMState :=
  let s := mkCpu (replicate 16 0) 0 0 0 0 0 0 0 0 0 0 0 0 0 0 (exception_index s) in
  let s := s.[uncached_cpsr := ARM_CPU_MODE_SVC .| CPSR_A .| CPSR_F .| CPSR_I] in
  let s := s.[uncached_cpsr := uncached_cpsr s .& not32 CPSR_I] in
  match rom with
  | Some (sp, pc) => set_reg (set_reg s 13 sp).[thumb := pc .& 1] 15 (pc .& not32 1)
  | None => s
  end.
End Exceptions.
#[export] Existing Instance eta_machine.
Arguments machine M : clear implicits.
End Cpu.
