(* ===== verification/CpuProps.v ===== *)
(** * Exceptions of the core

    The registers, flags and stack pointers come back after an exception, for
    any handler that follows the calling convention; the special registers
    read what was written.  [RamLaws] is what the exception model asks of
    memory. *)

From S2P Require Import Prelude Gic GicProps Nvic NvicProps Cpu.

Module CpuProps.
Import Cpu.
#[local] Existing Instances Gic.eta_gic Nvic.eta_nvic Cpu.eta_cpu.

(** ** Well-formed states *)

Record wf (s : CPUARMState) : Prop := {
  wf_regs : length (regs s) = 16%nat;
  wf_reg : Forall (is_u 32) (regs s);
  wf_CF : is_u 1 (CF s); wf_QF : is_u 1 (QF s); wf_thumb : is_u 1 (thumb s);
  wf_VF : is_u 32 (VF s); wf_NF : is_u 32 (NF s); wf_ZF : is_u 32 (ZF s);
  wf_IT : is_u 8 (condexec_bits s); wf_exception : is_u 9 (exception s);
  wf_other : is_u 32 (other_sp s); wf_current : current_sp s = 0 \/ current_sp s = 1;
  wf_basepri : is_u 8 (basepri s); wf_control : is_u 2 (control s); wf_cpsr : is_u 32 (uncached_cpsr s)
}.

(** ** The program status register, bit by bit *)

Lemma bit_index i : 0 <= i < 32 ->
  i = 0 \/ i = 1 \/ i = 2 \/ i = 3 \/ i = 4 \/ i = 5 \/ i = 6 \/ i = 7 \/ i = 8 \/ i = 9 \/ i = 10 \/ i = 11 \/ i = 12 \/
  i = 13 \/ i = 14 \/ i = 15 \/ i = 16 \/ i = 17 \/ i = 18 \/ i = 19 \/ i = 20 \/ i = 21 \/ i = 22 \/ i = 23 \/ i = 24 \/
  i = 25 \/ i = 26 \/ i = 27 \/ i = 28 \/ i = 29 \/ i = 30 \/ i = 31.
Proof. lia. Qed.
(** One goal for each bit of a word. *)
Ltac each_bit H := apply bit_index in H; repeat (destruct H as [->|H]); [..|subst].
(** Bits at literal positions: of literals, at negative positions, and above the width of a field. *)
Ltac literal_bits :=
  repeat match goal with
    | |- context [Z.testbit ?x ?n] =>
        closed_term n; let v := eval vm_compute in n in progress change (Z.testbit x n) with (Z.testbit x v)
    | |- context [Z.testbit ?x (Z.neg ?p)] => change (Z.testbit x (Z.neg p)) with false
    | H : forall n, _ <= n -> Z.testbit ?f n = false |- context [Z.testbit ?f _] => rewrite H by lia
    end; ground_bits; rewrite ?andb_true_r, ?andb_false_r, ?orb_true_r, ?orb_false_r; cbn [orb andb].
Lemma above w x : 0 <= w -> is_u w x -> forall n, w <= n -> Z.testbit x n = false.
Proof. intros Hw Hx. by apply is_u_bits in Hx as [_ ?]. Qed.

Definition xpsr_bit (s : CPUARMState) (i : Z) : bool :=
  if i =? 31 then Z.testbit (NF s) 31
  else if i =? 30 then ZF s =? 0
  else if i =? 29 then Z.testbit (CF s) 0
  else if i =? 28 then Z.testbit (VF s) 31
  else if i =? 27 then Z.testbit (QF s) 0
  else if 25 <=? i then Z.testbit (condexec_bits s) (i - 25)
  else if i =? 24 then Z.testbit (thumb s) 0
  else if 16 <=? i then false
  else if 10 <=? i then Z.testbit (condexec_bits s) (i - 8)
  else if i =? 9 then false
  else Z.testbit (exception s) i.
Lemma xpsr_spec s i : wf s -> 0 <= i < 32 -> Z.testbit (xpsr_read s) i = xpsr_bit s i.
Proof.
  intros [_ _ Hc Hq Ht _ _ _ Hit He _ _ _ _ _] Hi. unfold xpsr_read, u32. rewrite Z.mod_pow2_bits_low by lia.
  pose proof (above 1 _ ltac:(done) Hc). pose proof (above 1 _ ltac:(done) Hq). pose proof (above 1 _ ltac:(done) Ht).
  pose proof (above 8 _ ltac:(done) Hit). pose proof (above 9 _ ltac:(done) He). unfold b2z.
  rewrite !Z.lor_spec, !Z.shiftl_spec, Z.shiftr_spec, !Z.land_spec by lia.
  each_bit Hi; unfold xpsr_bit; switch; literal_bits; try done; destruct (ZF s =? 0); literal_bits; done.
Qed.
Lemma xpsr_u32 s : is_u 32 (xpsr_read s).
Proof. apply is_u_u32. Qed.

(** Writing with every bit enabled, as a return from an exception does. *)
Lemma xpsr_write_all s v : xpsr_write s v 0xfffffdff =
  s.[ZF := not32 v .& CPSR_Z].[NF := v].[CF := (v .>> 29) .& 1].[VF := u32 (v .<< 3) .& 0x80000000]
   .[QF := b2z (v .&? CPSR_Q)].[thumb := b2z (v .&? (1 .<< 24))]
   .[condexec_bits := (((condexec_bits s .& not32 3) .| ((v .>> 25) .& 3)) .& 3) .| ((v .>> 8) .& 0xfc)]
   .[exception := v .& 0x1ff].
Proof. reflexivity. Qed.
Lemma is_u_b2z b : is_u 1 (b2z b).
Proof. by destruct b. Qed.
Lemma xpsr_write_all_wf s v : wf s -> is_u 32 v -> wf (xpsr_write s v 0xfffffdff).
Proof.
  intros [] Hv. rewrite xpsr_write_all. split; cbn; auto using is_u_b2z; auto with cint.
Qed.
Lemma mask_zero x k : 0 <= k -> ((x .& (1 .<< k)) =? 0) = negb (Z.testbit x k).
Proof. intros Hk. rewrite <- (flag_testbit x k Hk). unfold truth. by rewrite negb_involutive. Qed.
Lemma xpsr_write_bit s v i : is_u 32 v -> 0 <= i < 32 -> i <> 9 -> ~ 16 <= i < 24 ->
  xpsr_bit (xpsr_write s v 0xfffffdff) i = Z.testbit v i.
Proof.
  intros Hv Hi H9 H16. rewrite xpsr_write_all. unfold xpsr_bit. cbn -[Z.testbit CPSR_Z CPSR_Q Z.sub]. unfold u32, CPSR_Z, CPSR_Q.
  rewrite mask_zero, !flag_testbit, not32_spec, negb_involutive by lia.
  assert (forall b, Z.testbit (b2z b) 0 = b) as Hb by by intros [].
  rewrite !Hb. each_bit Hi; switch; try lia;
    rewrite ?Z.lor_spec, ?Z.land_spec, ?Z.lor_spec, ?Z.shiftr_spec, ?Z.mod_pow2_bits_low, ?Z.shiftl_spec by lia; literal_bits; try done.
  all: rewrite !Z.land_spec, Z.shiftr_spec, not32_spec by lia; literal_bits; done.
Qed.
Lemma xpsr_restored s s0 v : wf s -> wf s0 -> is_u 32 v ->
  (forall i, 0 <= i < 32 -> i <> 9 -> Z.testbit v i = Z.testbit (xpsr_read s0) i) ->
  xpsr_read (xpsr_write s v 0xfffffdff) = xpsr_read s0.
Proof.
  intros W W0 Hv Hb. apply Z.bits_inj'. intros i Hi. destruct (Z.lt_ge_cases i 32) as [H32|H32].
  - rewrite (xpsr_spec _ i (xpsr_write_all_wf s v W Hv)) by lia.
    destruct (decide (i = 9)) as [->|H9]; [by rewrite xpsr_spec|].
    destruct (decide (16 <= i < 24)) as [H16|H16].
    + rewrite (xpsr_spec s0 i W0) by lia. unfold xpsr_bit.
      repeat match goal with |- context [?a =? ?b] => destruct (Z.eqb_spec a b); [lia|] end.
      destruct (Z.leb_spec 25 i); [lia|]. by destruct (Z.leb_spec 16 i); [|lia].
    + rewrite xpsr_write_bit by done. apply Hb; [lia|done].
  - by rewrite !(above 32) by (done || apply xpsr_u32).
Qed.

(** ** Registers *)

Lemma reg_set_eq s i v : length (regs s) = 16%nat -> 0 <= i < 16 -> reg (set_reg s i v) i = u32 v.
Proof. intros Hl Hi. unfold reg, set_reg. cbn. rewrite aget_aset_eq by lia. done. Qed.
Lemma reg_set_ne s i j v : i <> j -> 0 <= i -> 0 <= j -> reg (set_reg s i v) j = reg s j.
Proof. intros. unfold reg, set_reg. cbn. by rewrite aget_aset_ne. Qed.
Lemma set_reg_twice s i v w : 0 <= i -> set_reg (set_reg s i v) i w = set_reg s i w.
Proof.
  intros Hi. unfold set_reg. cbn. unfold aset. destruct (Z.leb_spec 0 i); [|lia]. by rewrite list_insert_insert_eq.
Qed.
Lemma length_set_reg s i v : length (regs (set_reg s i v)) = length (regs s).
Proof. apply length_aset. Qed.
Lemma reg_u32 s i : wf s -> 0 <= i < 16 -> is_u 32 (reg s i).
Proof.
  intros W Hi. unfold reg, aget. destruct (Z.leb_spec 0 i); [|lia]. pose proof (wf_regs s W) as Hl.
  destruct (lookup_lt_is_Some_2 (regs s) (Z.to_nat i)) as [x Hx]; [lia|]. rewrite Hx. pose proof (wf_reg s W) as Hr.
  rewrite Forall_lookup in Hr. by apply (Hr (Z.to_nat i)).
Qed.
Lemma regs_ext s t : length (regs s) = 16%nat -> length (regs t) = 16%nat -> (forall i, 0 <= i < 16 -> reg s i = reg t i) -> regs s = regs t.
Proof.
  intros Hs Ht H. apply list_eq. intros i. destruct (decide (i < 16)%nat) as [Hi|Hi].
  - specialize (H (Z.of_nat i) ltac:(lia)). unfold reg, aget in H. destruct (Z.leb_spec 0 (Z.of_nat i)); [|lia].
    rewrite Nat2Z.id in H. destruct (lookup_lt_is_Some_2 (regs s) i) as [x Hx]; [lia|].
    destruct (lookup_lt_is_Some_2 (regs t) i) as [y Hy]; [lia|]. rewrite Hx, Hy in *. cbn in H. by subst.
  - by rewrite !lookup_ge_None_2 by lia.
Qed.
Lemma set_reg_wf s i v : wf s -> wf (set_reg s i v).
Proof.
  intros []. split; cbn; auto; [by rewrite length_aset|]. unfold aset. destruct (0 <=? i); [|done].
  apply Forall_insert; [done|apply is_u_u32].
Qed.
Lemma switch_wf s p : wf s -> p = 0 \/ p = 1 -> wf (switch_v7m_sp s p).
Proof.
  intros W Hp. unfold switch_v7m_sp. destruct (negb _); [|done].
  assert (wf s.[other_sp := reg s 13]) as W1.
  { pose proof (reg_u32 s 13 W ltac:(lia)). destruct W. by split. }
  apply (set_reg_wf _ 13 (other_sp s)) in W1. destruct W1. by split.
Qed.

(** ** Stacking *)

(** What the core relies on: words of RAM are independent. *)
Class RamLaws (M : Type) `{!PhysMem M} (ram_word : Z -> Prop) : Prop := {
  ldl_stl_eq (m : M) a v : ram_word a -> ldl_phys (stl_phys m a v) a = u32 v;
  ldl_stl_ne (m : M) a b v : ram_word a -> ram_word b -> a <> b -> ldl_phys (stl_phys m a v) b = ldl_phys m b
}.

Section Stacking.
Context {M : Type} `{!PhysMem M} (ram_word : Z -> Prop) `{!RamLaws M ram_word}.
Implicit Types (e : CPUARMState) (m : M).

(** The words of [l] from [b] upwards, the last one stored first. *)
Fixpoint store_words m (b : Z) (l : list Z) : M :=
  match l with [] => m | v :: l => stl_phys (store_words m (b + 4) l) b v end.
Lemma store_words_frame m b l a : (forall k, 0 <= k < Z.of_nat (length l) -> ram_word (b + 4 * k)) -> ram_word a ->
  (forall k, 0 <= k < Z.of_nat (length l) -> a <> b + 4 * k) -> ldl_phys (store_words m b l) a = ldl_phys m a.
Proof.
  revert b. induction l as [|v l IH]; intros b Hb Ha Hne; [done|]. cbn [store_words length] in *.
  rewrite ldl_stl_ne; [|specialize (Hb 0); rewrite Z.mul_0_r, Z.add_0_r in Hb; apply Hb; lia|done|].
  - apply IH; [|done|]; intros k Hk.
    + replace (b + 4 + 4 * k) with (b + 4 * (k + 1)) by lia. apply Hb. lia.
    + replace (b + 4 + 4 * k) with (b + 4 * (k + 1)) by lia. apply Hne. lia.
  - specialize (Hne 0). lia.
Qed.
Lemma store_words_load m b l k v : (forall k, 0 <= k < Z.of_nat (length l) -> ram_word (b + 4 * k)) ->
  0 <= k -> l !! Z.to_nat k = Some v -> ldl_phys (store_words m b l) (b + 4 * k) = u32 v.
Proof.
  revert b k. induction l as [|x l IH]; intros b k Hb Hk Hl; [done|]. cbn [store_words length] in *.
  assert (ram_word b) as Hb0 by (specialize (Hb 0); rewrite Z.mul_0_r, Z.add_0_r in Hb; apply Hb; lia).
  destruct (decide (k = 0)) as [->|Hne].
  - injection Hl as ->. rewrite Z.mul_0_r, Z.add_0_r. by apply ldl_stl_eq.
  - pose proof (lookup_lt_Some _ _ _ Hl) as Hlen. cbn in Hlen.
    rewrite ldl_stl_ne; [|done|apply Hb; lia|lia]. replace (b + 4 * k) with (b + 4 + 4 * (k - 1)) by lia. apply IH; [|lia|].
    + intros j Hj. replace (b + 4 + 4 * j) with (b + 4 * (j + 1)) by lia. apply Hb. lia.
    + replace (Z.to_nat k) with (S (Z.to_nat (k - 1))) in Hl by lia. done.
Qed.

Lemma push_spec e nv m v : length (regs e) = 16%nat -> 4 <= reg e 13 < 2 ^ 32 ->
  v7m_push (mkMachine e nv m) v = mkMachine (set_reg e 13 (reg e 13 - 4)) nv (stl_phys m (reg e 13 - 4) v).
Proof.
  intros Hl Hs. unfold v7m_push, set_env. cbn. rewrite reg_set_eq, u32_small by (done || unfold is_u; lia). done.
Qed.
Lemma push_at e nv m b v : length (regs e) = 16%nat -> 4 <= b < 2 ^ 32 ->
  v7m_push (mkMachine (set_reg e 13 b) nv m) v = mkMachine (set_reg e 13 (b - 4)) nv (stl_phys m (b - 4) v).
Proof.
  intros Hl Hs. rewrite push_spec; rewrite ?length_set_reg, ?reg_set_eq, ?u32_small by (done || unfold is_u; lia); [|done|lia].
  by rewrite set_reg_twice.
Qed.
(** The registers of a frame, from its lowest word. *)
Definition frame e (xpsr : Z) : list Z := [reg e 0; reg e 1; reg e 2; reg e 3; reg e 12; reg e 14; reg e 15; xpsr].
Lemma push_frame_spec e nv m x b : length (regs e) = 16%nat -> 32 <= b < 2 ^ 32 ->
  push_frame (mkMachine (set_reg e 13 b) nv m) x = mkMachine (set_reg e 13 (b - 32)) nv (store_words m (b - 32) (frame e x)).
Proof.
  intros Hl Hs. unfold push_frame, frame. cbn [store_words].
  rewrite push_at by (done || lia). cbn [env]. rewrite (reg_set_ne e 13 15) by lia.
  rewrite push_at by (done || lia). cbn [env]. rewrite (reg_set_ne e 13 14) by lia.
  rewrite push_at by (done || lia). cbn [env]. rewrite (reg_set_ne e 13 12) by lia.
  rewrite push_at by (done || lia). cbn [env]. rewrite (reg_set_ne e 13 3) by lia.
  rewrite push_at by (done || lia). cbn [env]. rewrite (reg_set_ne e 13 2) by lia.
  rewrite push_at by (done || lia). cbn [env]. rewrite (reg_set_ne e 13 1) by lia.
  rewrite push_at by (done || lia). cbn [env]. rewrite (reg_set_ne e 13 0) by lia.
  rewrite push_at by (done || lia). f_equal; [f_equal; lia|]. repeat (f_equal; [|lia]). f_equal. lia.
Qed.

Lemma set_reg_comm e i j v w : i <> j -> 0 <= i -> 0 <= j -> set_reg (set_reg e i v) j w = set_reg (set_reg e j w) i v.
Proof.
  intros Hne Hi Hj. unfold set_reg, set_field. cbn. f_equal. unfold aset. destruct (Z.leb_spec 0 i), (Z.leb_spec 0 j); try lia.
  apply list_insert_insert_ne. lia.
Qed.
Lemma set_reg_same e i : wf e -> 0 <= i < 16 -> set_reg e i (reg e i) = e.
Proof.
  intros W Hi. unfold set_reg. rewrite u32_small by by apply reg_u32. destruct e. unfold set_field. cbn. f_equal.
  unfold reg, aget, aset. destruct (Z.leb_spec 0 i); [|lia]. apply list_insert_id. cbn.
  pose proof (wf_regs _ W) as Hl. cbn in Hl. destruct (lookup_lt_is_Some_2 regs0 (Z.to_nat i)) as [x Hx]; [lia|]. by rewrite Hx.
Qed.
Lemma pop_at e nv m b : length (regs e) = 16%nat -> is_u 32 b ->
  v7m_pop (mkMachine (set_reg e 13 b) nv m) = (ldl_phys m b, mkMachine (set_reg e 13 (b + 4)) nv m).
Proof.
  intros Hl Hb. unfold v7m_pop, set_env. cbn. rewrite reg_set_eq, u32_small by (done || lia). by rewrite set_reg_twice.
Qed.
Lemma pop_reg_at e nv m b i : length (regs e) = 16%nat -> is_u 32 b -> 0 <= i -> i <> 13 ->
  pop_reg (mkMachine (set_reg e 13 b) nv m) i = mkMachine (set_reg (set_reg e i (ldl_phys m b)) 13 (b + 4)) nv m.
Proof.
  intros Hl Hb Hi Hne. unfold pop_reg. rewrite pop_at by done. unfold set_env. cbn. by rewrite set_reg_comm.
Qed.

(** The registers popped from [b]. *)
Definition popped e m (b : Z) : CPUARMState :=
  set_reg (set_reg (set_reg (set_reg (set_reg (set_reg (set_reg e 0 (ldl_phys m b)) 1 (ldl_phys m (b + 4)))
    2 (ldl_phys m (b + 8))) 3 (ldl_phys m (b + 12))) 12 (ldl_phys m (b + 16))) 14 (ldl_phys m (b + 20))) 15 (ldl_phys m (b + 24)).
Lemma pop_frame_spec e nv m b : length (regs e) = 16%nat -> is_u 32 b -> is_u 32 (b + 28) ->
  pop_reg (pop_reg (pop_reg (pop_reg (pop_reg (pop_reg (pop_reg (mkMachine (set_reg e 13 b) nv m) 0) 1) 2) 3) 12) 14) 15 =
  mkMachine (set_reg (popped e m b) 13 (b + 28)) nv m.
Proof.
  unfold is_u. intros Hl Hb Hb'. unfold popped.
  do 7 rewrite pop_reg_at by (rewrite ?length_set_reg; (done || unfold is_u; lia)).
  by rewrite <- !Z.add_assoc.
Qed.

Lemma exit_spec fuel e nv nv' m b :
  wf e -> exception e <> 0 -> Nvic.armv7m_nvic_complete_irq fuel nv (exception e) = Some nv' ->
  let e' := switch_v7m_sp e (b2z (reg e 15 .&? 4)) in
  reg e' 13 = b -> is_u 32 (b + 28) ->
  do_v7m_exception_exit fuel (mkMachine e nv m) =
    (let x := ldl_phys m (b + 28) in
     let e3 := xpsr_write (set_reg (popped e' m b) 13 (b + 32)) x 0xfffffdff in
     Some (mkMachine (if x .&? 0x200 then set_reg e3 13 (reg e3 13 .| 4) else e3) nv' m)).
Proof.
  intros W Hex Hc e' Hb Hb28. assert (wf e') as W' by (apply switch_wf; [done|destruct (_ .&? 4); cbn; auto]).
  assert (is_u 32 b) as Hb0 by (rewrite <- Hb; by apply reg_u32).
  unfold do_v7m_exception_exit. cbn [env nvic]. destruct (Z.eqb_spec (exception e) 0); [done|]. cbn [negb]. rewrite Hc.
  cbn [mbind option_bind]. change ((mkMachine e nv m).[nvic := nv'].[env := switch_v7m_sp _ _]) with (mkMachine e' nv' m).
  replace (mkMachine e' nv' m) with (mkMachine (set_reg e' 13 b) nv' m) by (rewrite <- Hb, set_reg_same by (done || lia); done).
  rewrite pop_frame_spec by (done || apply W').
  rewrite pop_at; [|unfold popped; rewrite !length_set_reg; apply W'|done]. rewrite <- Z.add_assoc.
  change (28 + 4) with 32. cbv beta zeta iota. by destruct (ldl_phys m (b + 28) .&? 0x200).
Qed.

(** Where the frame of an interrupted state goes and what its last word is. *)
Definition aligned_sp e : Z := if reg e 13 .&? 4 then reg e 13 - 4 else reg e 13.
Definition frame_base e : Z := aligned_sp e - 32.
Definition saved_xpsr e : Z := if reg e 13 .&? 4 then xpsr_read e .| 0x200 else xpsr_read e.
Lemma frame_base_u32 e k : wf e -> 36 <= reg e 13 -> 0 <= k <= 32 -> is_u 32 (frame_base e + k).
Proof.
  intros W Hsp Hk. pose proof (reg_u32 e 13 W ltac:(lia)) as [_ Hlt]. unfold frame_base, aligned_sp, is_u.
  destruct (_ .&? 4); lia.
Qed.

Lemma aligned_le e : aligned_sp e <= reg e 13.
Proof. unfold aligned_sp. destruct (_ .&? 4); lia. Qed.

Lemma enter_spec e n nv m lr : wf e -> 36 <= reg e 13 ->
  exists addr, enter_handler (mkMachine e.[exception := n] nv m) (xpsr_read e) lr =
    mkMachine (set_reg (set_reg (switch_v7m_sp (set_reg e.[exception := n] 13 (frame_base e)) 0).[condexec_bits := 0] 14 lr)
                 15 (addr .& 0xfffffffe)).[thumb := addr .& 1]
      nv (store_words m (frame_base e) (frame e (saved_xpsr e))).
Proof.
  intros W Hsp. pose proof (reg_u32 e 13 W ltac:(lia)) as [_ Hlt]. unfold enter_handler. cbn [env].
  set (e1 := e.[exception := n]). assert ((if reg e1 13 .&? 4
    then (set_env (mkMachine e1 nv m) 13 (reg e1 13 - 4), xpsr_read e .| 0x200) else (mkMachine e1 nv m, xpsr_read e)) =
    (mkMachine (set_reg e1 13 (aligned_sp e)) nv m, saved_xpsr e)) as ->.
  { unfold aligned_sp, saved_xpsr. change (reg e1 13) with (reg e 13). destruct (reg e 13 .&? 4); [reflexivity|].
    do 2 f_equal. transitivity ((set_reg e 13 (reg e 13)).[exception := n]); [by rewrite set_reg_same by (done || lia)|reflexivity]. }
  assert (32 <= aligned_sp e < 2 ^ 32) as Ha by (unfold aligned_sp; destruct (_ .&? 4); lia).
  rewrite push_frame_spec by (done || apply W). fold (frame_base e). eexists. reflexivity.
Qed.

Lemma switch_spec e p : wf e -> p = 0 \/ p = 1 ->
  wf (switch_v7m_sp e p) /\ current_sp (switch_v7m_sp e p) = p /\ exception (switch_v7m_sp e p) = exception e /\
  (forall i, 0 <= i -> i <> 13 -> reg (switch_v7m_sp e p) i = reg e i) /\
  (if current_sp e =? p then reg (switch_v7m_sp e p) 13 = reg e 13 /\ other_sp (switch_v7m_sp e p) = other_sp e
   else reg (switch_v7m_sp e p) 13 = other_sp e /\ other_sp (switch_v7m_sp e p) = reg e 13).
Proof.
  intros W Hp. split; [by apply switch_wf|]. unfold switch_v7m_sp. destruct (Z.eqb_spec (current_sp e) p) as [E|E]; cbn [negb]; [done|].
  do 2 (split; [done|]). split.
  - intros i Hi Hne. change (reg (set_reg e.[other_sp := reg e 13] 13 (other_sp e)) i = reg e i). by rewrite reg_set_ne by lia.
  - split; [|done]. change (reg (set_reg e.[other_sp := reg e 13] 13 (other_sp e)) 13 = other_sp e).
    rewrite reg_set_eq, u32_small by (lia || apply W). done.
Qed.

(** What a handler entered in [s1] has done when it branches to its return
    address in [s2]: by the calling convention it keeps registers 4 to 11, the
    stack pointers and the frame. *)
Record returns (base : Z) (s1 s2 : machine M) : Prop := {
  ret_wf : wf (env s2);
  ret_pc : reg (env s2) 15 = reg (env s1) 14 .& not32 1;
  ret_saved : forall i, 4 <= i <= 11 -> reg (env s2) i = reg (env s1) i;
  ret_sp : reg (env s2) 13 = reg (env s1) 13;
  ret_other : other_sp (env s2) = other_sp (env s1);
  ret_current : current_sp (env s2) = current_sp (env s1);
  ret_exception : exception (env s2) = exception (env s1);
  ret_frame : forall k, 0 <= k < 8 -> ldl_phys (ram s2) (base + 4 * k) = ldl_phys (ram s1) (base + 4 * k)
}.

(** The state of the core once the handler runs. *)
Record entered e n (e1 : CPUARMState) : Prop := {
  en_wf : wf e1;
  en_lr : reg e1 14 = exc_return e;
  en_saved : forall i, 4 <= i <= 11 -> reg e1 i = reg e i;
  en_current : current_sp e1 = 0;
  en_exception : exception e1 = n;
  en_it : condexec_bits e1 = 0;
  en_stack : if current_sp e =? 0 then reg e1 13 = frame_base e /\ other_sp e1 = other_sp e
             else reg e1 13 = other_sp e /\ other_sp e1 = frame_base e
}.
Lemma exc_return_u32 e : is_u 32 (exc_return e).
Proof. unfold exc_return. destruct (truth (current_sp e)), (exception e =? 0); by vm_compute. Qed.
Lemma enter_entered e n addr : wf e -> is_u 9 n -> 36 <= reg e 13 ->
  entered e n (set_reg (set_reg (switch_v7m_sp (set_reg e.[exception := n] 13 (frame_base e)) 0).[condexec_bits := 0] 14 (exc_return e))
                 15 (addr .& 0xfffffffe)).[thumb := addr .& 1].
Proof.
  intros W Hn Hsp. pose proof (reg_u32 e 13 W ltac:(lia)) as [_ Hlt].
  pose proof (frame_base_u32 e 0 W Hsp ltac:(lia)) as Hb. rewrite Z.add_0_r in Hb.
  assert (wf e.[exception := n]) as W1 by (destruct W; split; done).
  apply (set_reg_wf _ 13 (frame_base e)) in W1. set (e2 := set_reg _ 13 _) in *.
  assert (length (regs e2) = 16%nat) as Hl by apply W1.
  assert (reg e2 13 = frame_base e) as H13.
  { unfold e2. rewrite reg_set_eq, u32_small by (done || lia || apply W). done. }
  assert (forall i, 0 <= i -> i <> 13 -> reg e2 i = reg e i) as Hr by (intros; unfold e2; by rewrite reg_set_ne by lia).
  assert (current_sp e2 = current_sp e) as Hc by done. assert (other_sp e2 = other_sp e) as Ho by done.
  assert (exception e2 = n) as He by done. clearbody e2.
  destruct (switch_spec e2 0 W1 ltac:(auto)) as (W2 & C2 & X2 & R2 & S2). rewrite Hc, H13, Ho in S2.
  set (e3 := switch_v7m_sp e2 0) in *. clearbody e3. assert (length (regs e3) = 16%nat) as Hl3 by apply W2.
  set (e4 := e3.[condexec_bits := 0]). assert (wf e4) as W4 by (destruct W2; split; done).
  split; cbn [exception condexec_bits].
  - apply (set_reg_wf _ 14 (exc_return e)), (set_reg_wf _ 15 (addr .& 0xfffffffe)) in W4. destruct W4. split; cbn; auto with cint.
  - change (reg (set_reg (set_reg e4 14 (exc_return e)) 15 (addr .& 0xfffffffe)) 14 = exc_return e).
    rewrite reg_set_ne, reg_set_eq, u32_small by (lia || done || apply exc_return_u32). done.
  - intros i Hi. change (reg (set_reg (set_reg e4 14 (exc_return e)) 15 (addr .& 0xfffffffe)) i = reg e i).
    rewrite !reg_set_ne by lia. change (reg e4 i) with (reg e3 i). rewrite R2, Hr by lia. done.
  - exact C2.
  - change (exception e3 = n). by rewrite X2.
  - done.
  - change (reg _ 13) with (reg (set_reg (set_reg e4 14 (exc_return e)) 15 (addr .& 0xfffffffe)) 13).
    rewrite !reg_set_ne by lia. exact S2.
Qed.

Lemma saved_xpsr_bit e i : wf e -> 0 <= i < 32 -> i <> 9 -> Z.testbit (saved_xpsr e) i = Z.testbit (xpsr_read e) i.
Proof.
  intros W Hi H9. unfold saved_xpsr. destruct (_ .&? 4); [|done]. rewrite Z.lor_spec. change 0x200 with (2 ^ 9).
  rewrite Z.pow2_bits_eqb by lia. destruct (Z.eqb_spec 9 i); [lia|]. apply orb_false_r.
Qed.
Lemma saved_xpsr_align e : wf e -> (saved_xpsr e .&? 0x200) = (reg e 13 .&? 4).
Proof.
  intros W. change 0x200 with (1 .<< 9). rewrite flag_testbit by lia. unfold saved_xpsr. destruct (reg e 13 .&? 4) eqn:E.
  - rewrite Z.lor_spec. apply orb_true_r.
  - by rewrite xpsr_spec by (done || lia).
Qed.
Lemma saved_xpsr_u32 e : is_u 32 (saved_xpsr e).
Proof. unfold saved_xpsr. pose proof (xpsr_u32 e). destruct (_ .&? 4); [|done]. by apply is_u_lor; [lia|..]. Qed.
Lemma exc_return_process e : current_sp e = 0 \/ current_sp e = 1 -> b2z ((exc_return e .& not32 1) .&? 4) = current_sp e.
Proof. intros H. unfold exc_return. destruct H as [-> | ->], (exception e =? 0); by vm_compute. Qed.
(** The stack pointer after the frame is popped and the alignment is undone. *)
Lemma realigned e : wf e -> 36 <= reg e 13 ->
  (if reg e 13 .&? 4 then (frame_base e + 32) .| 4 else frame_base e + 32) = reg e 13.
Proof.
  intros W Hsp. unfold frame_base, aligned_sp. change 4 with (1 .<< 2) at 1. rewrite flag_testbit by lia.
  destruct (reg e 13 .&? 4) eqn:E; change 4 with (1 .<< 2) in E; rewrite flag_testbit in E by lia; rewrite E; [|lia].
  replace (reg e 13 - 4 - 32 + 32) with (reg e 13 - 4) by lia.
  assert (forall i, Z.testbit 4 i = (2 =? i)) as H4 by (intros; change 4 with (2 ^ 2); by rewrite Z.pow2_bits_eqb).
  assert (reg e 13 - 4 = Z.ldiff (reg e 13) 4) as ->.
  { apply Z.sub_nocarry_ldiff, Z.bits_inj'. intros i Hi. rewrite Z.ldiff_spec, Z.bits_0, H4.
    destruct (Z.eqb_spec 2 i) as [<-|]; [by rewrite E|done]. }
  apply Z.bits_inj'. intros i Hi. rewrite Z.lor_spec, Z.ldiff_spec, H4.
  destruct (Z.eqb_spec 2 i) as [<-|]; [by rewrite E|]. by rewrite andb_true_r, orb_false_r.
Qed.

(** The registers once the frame has been popped. *)
Lemma popped_regs e e' m : wf e -> wf e' -> (forall i, 4 <= i <= 11 -> reg e' i = reg e i) ->
  (forall k v, 0 <= k < 8 -> frame e (saved_xpsr e) !! Z.to_nat k = Some v -> ldl_phys m (frame_base e + 4 * k) = u32 v) ->
  forall i, 0 <= i < 16 -> i <> 13 -> reg (popped e' m (frame_base e)) i = reg e i.
Proof.
  intros W W' Hs Hf i Hi Hne. assert (length (regs e') = 16%nat) as Hl by apply W'.
  assert (forall k v, 0 <= k < 8 -> frame e (saved_xpsr e) !! Z.to_nat k = Some v -> is_u 32 v ->
    u32 (ldl_phys m (frame_base e + 4 * k)) = v) as Hv.
  { intros k v Hk Hv Hu. by rewrite (Hf k v Hk Hv), u32_u32, u32_small. }
  pose proof (fun i H => reg_u32 e i W H) as Hu. unfold popped.
  pose proof (Hv 0 (reg e 0) ltac:(lia) eq_refl) as H0. rewrite Z.mul_0_r, Z.add_0_r in H0.
  assert (i = 0 \/ i = 1 \/ i = 2 \/ i = 3 \/ 4 <= i <= 11 \/ i = 12 \/ i = 14 \/ i = 15) as Hcase by lia.
  repeat destruct Hcase as [->|Hcase]; [..|destruct Hcase as [Hcase|Hcase]; [|repeat destruct Hcase as [->|Hcase]; [..|subst]]];
    repeat first [rewrite reg_set_ne by lia | rewrite reg_set_eq by (rewrite ?length_set_reg; (done || lia))].
  - apply H0, Hu. lia.
  - apply (Hv 1 (reg e 1)); [lia|done|apply Hu; lia].
  - apply (Hv 2 (reg e 2)); [lia|done|apply Hu; lia].
  - apply (Hv 3 (reg e 3)); [lia|done|apply Hu; lia].
  - by apply Hs.
  - apply (Hv 4 (reg e 12)); [lia|done|apply Hu; lia].
  - apply (Hv 5 (reg e 14)); [lia|done|apply Hu; lia].
  - apply (Hv 6 (reg e 15)); [lia|done|apply Hu; lia].
Qed.

(** The core [e4] goes on as [e] would have. *)
Record resumed e (e4 : CPUARMState) : Prop := {
  res_wf : wf e4;
  res_regs : regs e4 = regs e;
  res_xpsr : xpsr_read e4 = xpsr_read e;
  res_exception : exception e4 = exception e;
  res_current : current_sp e4 = current_sp e;
  res_other : other_sp e4 = other_sp e
}.
Lemma popped_wf e m b : wf e -> wf (popped e m b).
Proof. intros W. unfold popped. by do 7 apply set_reg_wf. Qed.
Lemma exception_of_xpsr e e4 : wf e -> wf e4 -> xpsr_read e4 = xpsr_read e -> exception e4 = exception e.
Proof.
  intros W W4 E. apply Z.bits_inj'. intros i Hi. destruct (Z.lt_ge_cases i 9) as [H9|H9].
  - pose proof (f_equal (fun x => Z.testbit x i) E) as Eb. cbn beta in Eb. rewrite !xpsr_spec in Eb by (done || lia).
    unfold xpsr_bit in Eb.
    repeat match type of Eb with context [?a =? ?b] => destruct (Z.eqb_spec a b); [lia|] end.
    destruct (Z.leb_spec 25 i), (Z.leb_spec 16 i), (Z.leb_spec 10 i); try lia. done.
  - by rewrite !(above 9) by (done || lia || apply wf_exception; done).
Qed.
Lemma xpsr_write_keeps e v mask :
  regs (xpsr_write e v mask) = regs e /\ current_sp (xpsr_write e v mask) = current_sp e /\ other_sp (xpsr_write e v mask) = other_sp e.
Proof.
  unfold xpsr_write. destruct (mask .&? CPSR_NZCV), (mask .&? CPSR_Q), (mask .&? (1 .<< 24)), (mask .&? CPSR_IT_0_1),
    (mask .&? CPSR_IT_2_7), (mask .&? 0x1ff); repeat split; reflexivity.
Qed.
Lemma set_reg_keeps e i v : current_sp (set_reg e i v) = current_sp e /\ other_sp (set_reg e i v) = other_sp e /\
  xpsr_read (set_reg e i v) = xpsr_read e.
Proof. by repeat split. Qed.
Lemma popped_keeps e m b : current_sp (popped e m b) = current_sp e /\ other_sp (popped e m b) = other_sp e.
Proof. by repeat split. Qed.
(** The status register is back and the stack pointer is below the word that
    aligned it. *)
Lemma restored_spec e p x : wf e -> 36 <= reg e 13 -> wf p -> x = saved_xpsr e ->
  (forall i, 0 <= i < 16 -> i <> 13 -> reg p i = reg e i) -> current_sp p = current_sp e -> other_sp p = other_sp e ->
  let e3 := xpsr_write (set_reg p 13 (frame_base e + 32)) x 0xfffffdff in
  wf e3 /\ reg e3 13 = frame_base e + 32 /\ (forall i, 0 <= i < 16 -> i <> 13 -> reg e3 i = reg e i) /\
  xpsr_read e3 = xpsr_read e /\ current_sp e3 = current_sp e /\ other_sp e3 = other_sp e.
Proof.
  intros W Hsp Wp -> Hr Hc Ho. pose proof (reg_u32 e 13 W ltac:(lia)) as [_ Hlt].
  pose proof (frame_base_u32 e 32 W Hsp ltac:(lia)) as Hb.
  pose proof (set_reg_wf p 13 (frame_base e + 32) Wp) as Wq. destruct (set_reg_keeps p 13 (frame_base e + 32)) as (Hcq & Hoq & _).
  assert (reg (set_reg p 13 (frame_base e + 32)) 13 = frame_base e + 32) as H13 by (rewrite reg_set_eq, u32_small by (done || lia || apply Wp); done).
  assert (forall i, 0 <= i < 16 -> i <> 13 -> reg (set_reg p 13 (frame_base e + 32)) i = reg e i) as Hq by (intros; rewrite reg_set_ne by lia; auto).
  rewrite <- Hcq in Hc. rewrite <- Hoq in Ho. set (q := set_reg p 13 (frame_base e + 32)) in *. clearbody q.
  destruct (xpsr_write_keeps q (saved_xpsr e) 0xfffffdff) as (Hregs & Hc3 & Ho3).
  assert (forall i, reg (xpsr_write q (saved_xpsr e) 0xfffffdff) i = reg q i) as Hr3 by (intros; unfold reg; by rewrite Hregs).
  split; [apply xpsr_write_all_wf; [done|apply saved_xpsr_u32]|]. rewrite Hr3, Hc3, Ho3. split; [done|].
  split; [intros; rewrite Hr3; auto|]. split; [|done].
  apply xpsr_restored; [done|done|apply saved_xpsr_u32|]. intros. by apply saved_xpsr_bit.
Qed.
Lemma resume_spec e e' m : wf e -> 36 <= reg e 13 -> wf e' -> (forall i, 4 <= i <= 11 -> reg e' i = reg e i) ->
  current_sp e' = current_sp e -> other_sp e' = other_sp e ->
  (forall k v, 0 <= k < 8 -> frame e (saved_xpsr e) !! Z.to_nat k = Some v -> ldl_phys m (frame_base e + 4 * k) = u32 v) ->
  let x := ldl_phys m (frame_base e + 28) in
  let e3 := xpsr_write (set_reg (popped e' m (frame_base e)) 13 (frame_base e + 32)) x 0xfffffdff in
  resumed e (if x .&? 0x200 then set_reg e3 13 (reg e3 13 .| 4) else e3).
Proof.
  intros W Hsp W' Hs Hc Ho Hf x.
  assert (x = saved_xpsr e) as Hx.
  { transitivity (u32 (saved_xpsr e)); [exact (Hf 7 (saved_xpsr e) ltac:(lia) eq_refl)|apply u32_small, saved_xpsr_u32]. }
  clearbody x. destruct (popped_keeps e' m (frame_base e)) as [Hcp Hop]. rewrite <- Hcp in Hc. rewrite <- Hop in Ho.
  pose proof (popped_regs e e' m W W' Hs Hf) as Hp. pose proof (popped_wf e' m (frame_base e) W') as Wp.
  set (p := popped e' m (frame_base e)) in *. clearbody p. intros e3.
  destruct (restored_spec e p x W Hsp Wp Hx Hp Hc Ho) as (W3 & H13 & Hr3 & Hpsr & Hc3 & Ho3). fold e3 in W3, H13, Hr3, Hpsr, Hc3, Ho3.
  clearbody e3. subst x. rewrite saved_xpsr_align by done. destruct (set_reg_keeps e3 13 (reg e3 13 .| 4)) as (Hc4 & Ho4 & Hx4).
  assert (regs (if reg e 13 .&? 4 then set_reg e3 13 (reg e3 13 .| 4) else e3) = regs e) as Hregs.
  { apply regs_ext; [destruct (_ .&? 4); [apply set_reg_wf|]; apply W3|apply W|]. intros i Hi. destruct (decide (i = 13)) as [->|Hne].
    - etransitivity; [|exact (realigned e W Hsp)]. pose proof (reg_u32 e3 13 W3 ltac:(lia)) as H32. rewrite H13 in *. destruct (reg e 13 .&? 4); [|done].
      rewrite reg_set_eq, u32_small; [done|..|apply W3|lia]. apply is_u_lor; [lia|done|done].
    - rewrite <- (Hr3 i) by done. destruct (_ .&? 4); [|done]. by rewrite reg_set_ne by lia. }
  destruct (reg e 13 .&? 4).
  - assert (wf (set_reg e3 13 (reg e3 13 .| 4))) as W4 by by apply set_reg_wf.
    split; [done|done|congruence| |congruence..]. apply exception_of_xpsr; [done|done|congruence].
  - split; [done|done|congruence| |congruence..]. apply exception_of_xpsr; [done|done|congruence].
Qed.

Lemma return_switch e n base s1 s2 : wf e -> entered e n (env s1) -> returns base s1 s2 -> base = frame_base e ->
  let e' := switch_v7m_sp (env s2) (b2z (reg (env s2) 15 .&? 4)) in
  wf e' /\ reg e' 13 = frame_base e /\ current_sp e' = current_sp e /\ other_sp e' = other_sp e /\
  (forall i, 4 <= i <= 11 -> reg e' i = reg e i).
Proof.
  intros W En R -> e'. pose proof (wf_current e W) as Hcur. unfold e'. rewrite (ret_pc _ _ _ R), (en_lr _ _ _ En), exc_return_process by done.
  destruct (switch_spec (env s2) (current_sp e) (ret_wf _ _ _ R) Hcur) as (W' & C & _ & Hr & Hst).
  rewrite (ret_current _ _ _ R), (en_current _ _ _ En) in Hst. pose proof (en_stack _ _ _ En) as Hs.
  rewrite (ret_sp _ _ _ R), (ret_other _ _ _ R) in Hst.
  split; [done|]. assert (forall i, 4 <= i <= 11 -> reg (switch_v7m_sp (env s2) (current_sp e)) i = reg e i) as Hsv.
  { intros i Hi. by rewrite Hr, (ret_saved _ _ _ R), (en_saved _ _ _ En) by lia. }
  destruct Hcur as [E|E]; rewrite E in *; cbn in Hst, Hs; destruct Hst as [-> ->], Hs as [-> ->]; done.
Qed.
End Stacking.

(** ** Entry and return *)

(** The interrupt controller takes and ends the exception. *)
Definition takes (nv0 : Nvic.nvic_state) (l : list Z) (n : Z) (nv : Nvic.nvic_state) : Prop :=
  GicProps.wf (Nvic.gic nv0) /\ GicProps.nested 0 (Nvic.gic nv0) l /\ Nvic.armv7m_nvic_acknowledge_irq nv0 = Some (n, nv) /\
  ~ 16 <= aget 0 (Gic.running_irq (Nvic.gic nv)) 0 < 32.
Lemma takes_nested nv0 l n nv : takes nv0 l n nv ->
  GicProps.wf (Nvic.gic nv) /\ GicProps.nested 0 (Nvic.gic nv) (Nvic.gic_number n :: l) /\ Nvic.gic_number n ∉ l.
Proof.
  intros (W & N & Hack & Hline). unfold Nvic.armv7m_nvic_acknowledge_irq in Hack.
  pose proof (GicProps.ack_wf (Nvic.gic nv0) 0 W) as W1.
  pose proof (GicProps.ack_nested 0 ltac:(done) (Nvic.gic nv0) l W N) as Ha.
  destruct (Gic.gic_acknowledge_irq (Nvic.gic nv0) 0) as [irq g]. destruct (Z.eqb_spec irq 1023) as [|Hne]; [done|].
  injection Hack as Hn Hnv. subst nv. cbn [Nvic.gic set_field snd] in *. destruct Ha as [[? _]|(Hr & Hl & _ & N1)]; [done|].
  pose proof N1 as [[E _] _ _]. change (Nvic.gic nv0.[Nvic.gic := g]) with g in *. rewrite E in Hline.
  assert (Nvic.gic_number n = irq) as ->; [|done]. subst n. unfold Nvic.gic_number. destruct (Z.leb_spec 32 irq).
  - destruct (Z.leb_spec 16 (irq - 16)); lia.
  - destruct (Z.leb_spec 16 irq); lia.
Qed.
Lemma ends nv l n : GicProps.wf (Nvic.gic nv) -> GicProps.nested 0 (Nvic.gic nv) (Nvic.gic_number n :: l) -> 0 < n ->
  exists nv', Nvic.armv7m_nvic_complete_irq 257 nv n = Some nv' /\ GicProps.nested 0 (Nvic.gic nv') l.
Proof.
  intros W N Hn. pose proof (GicProps.nested_depth 0 _ _ W N) as Hd. pose proof (GicProps.nested_nodup 0 _ _ N) as Hnd.
  apply NoDup_cons in Hnd as [Hnl _].
  assert (0 <= Nvic.gic_number n) as Hn0 by (unfold Nvic.gic_number; destruct (16 <=? n); lia).
  destruct (GicProps.complete_nested 0 ltac:(done) 257 _ (Nvic.gic_number n) _ W N Hn0 ltac:(lia)) as (g & E & N').
  rewrite filter_cons_False, GicProps.filter_all in N' by (done || (intros []; done)).
  unfold Nvic.armv7m_nvic_complete_irq. rewrite E. eexists. split; [reflexivity|]. exact N'.
Qed.
Lemma nested_running g g' l : GicProps.nested 0 g l -> GicProps.nested 0 g' l -> aget 0 (Gic.running_irq g') 0 = aget 0 (Gic.running_irq g) 0.
Proof. intros [S _ _] [S' _ _]. destruct l as [|j l]; cbn [GicProps.stack] in S, S'; [congruence|]. destruct S, S'. congruence. Qed.

Section Exception.
Context {M : Type} `{!PhysMem M} (ram_word : Z -> Prop) `{!RamLaws M ram_word}.
Context (semi : bool) (lduw : machine M -> Z -> Z) (semihost : machine M -> Z * machine M).
Abbreviation do_interrupt := (arm_v7m_cpu_do_interrupt semi lduw semihost 257).

(** Entry alone. *)
Lemma entry_spec (s : machine M) n nv :
  wf (env s) -> exception_index (env s) = EXCP_IRQ -> Nvic.armv7m_nvic_acknowledge_irq (nvic s) = Some (n, nv) ->
  0 < n < 512 -> 36 <= reg (env s) 13 ->
  exists e1, do_interrupt s = Some (mkMachine e1 nv (store_words (ram s) (frame_base (env s)) (frame (env s) (saved_xpsr (env s))))) /\
    entered (env s) n e1.
Proof.
  intros W Hidx Hack Hn Hsp. destruct s as [e nv0 m]. cbn [env nvic ram] in *.
  destruct (enter_spec e n nv m (exc_return e) W Hsp) as [addr Henter].
  pose proof (enter_entered e n addr W ltac:(unfold is_u; lia) Hsp) as En.
  eexists. split; [|exact En]. unfold arm_v7m_cpu_do_interrupt. cbn [env nvic]. rewrite Hidx. switch. rewrite Hack.
  etransitivity; [|exact (f_equal Some Henter)]. reflexivity.
Qed.
(** Return alone. *)
Lemma return_spec e n s1 (s2 : machine M) nv' : wf e -> 36 <= reg e 13 -> 0 < n -> entered e n (env s1) -> returns (frame_base e) s1 s2 ->
  (forall k v, 0 <= k < 8 -> frame e (saved_xpsr e) !! Z.to_nat k = Some v -> ldl_phys (ram s1) (frame_base e + 4 * k) = u32 v) ->
  exception_index (env s2) = EXCP_EXCEPTION_EXIT -> Nvic.armv7m_nvic_complete_irq 257 (nvic s2) n = Some nv' ->
  exists e4, do_interrupt s2 = Some (mkMachine e4 nv' (ram s2)) /\ resumed e e4.
Proof.
  intros W Hsp Hn En R Hf Hidx2 Hc. destruct (return_switch e n _ s1 s2 W En R eq_refl) as (W' & H13 & Hcur & Hoth & Hsv).
  pose proof (ret_exception _ _ _ R) as Hex. rewrite (en_exception _ _ _ En) in Hex.
  pose proof (frame_base_u32 e 28 W Hsp ltac:(lia)) as Hb. destruct s2 as [e2 nv2 m2]. cbn [env nvic ram] in *.
  eexists. split.
  - unfold arm_v7m_cpu_do_interrupt. cbn [env nvic]. rewrite Hidx2. switch.
    apply (exit_spec 257 e2 nv2 nv' m2 (frame_base e) (ret_wf _ _ _ R)); [lia|by rewrite Hex|done|done].
  - apply resume_spec; try done. intros k v Hk Hv. rewrite (ret_frame _ _ _ R) by done. by apply Hf.
Qed.

(** C4. An exception is transparent to the code it interrupts.  The core stacks a frame below the stack pointer and writes
    nothing else; the handler starts on the main stack, with the interrupt on top of those active.  When the handler
    branches to its return address, having kept to the calling convention and ended every interrupt that preempted it,
    the core resumes: the sixteen registers, the status register, both stack pointers and the exception number are
    those of the interrupted code, whichever stack it used and however that was aligned, and the interrupts active are
    those it ran under. *)
Theorem exception_transparent (s : machine M) l n nv :
  wf (env s) -> exception_index (env s) = EXCP_IRQ -> takes (nvic s) l n nv -> 0 < n < 512 ->
  36 <= reg (env s) 13 -> (forall k, 0 <= k < 8 -> ram_word (frame_base (env s) + 4 * k)) ->
  exists s1, do_interrupt s = Some s1 /\ entered (env s) n (env s1) /\ nvic s1 = nv /\
    GicProps.nested 0 (Nvic.gic nv) (Nvic.gic_number n :: l) /\
    (forall a, ram_word a -> ~ frame_base (env s) <= a < reg (env s) 13 -> ldl_phys (ram s1) a = ldl_phys (ram s) a) /\
    forall s2, returns (frame_base (env s)) s1 s2 -> exception_index (env s2) = EXCP_EXCEPTION_EXIT ->
      GicProps.wf (Nvic.gic (nvic s2)) -> GicProps.nested 0 (Nvic.gic (nvic s2)) (Nvic.gic_number n :: l) ->
      exists s3, do_interrupt s2 = Some s3 /\ resumed (env s) (env s3) /\ ram s3 = ram s2 /\
        GicProps.nested 0 (Nvic.gic (nvic s3)) l /\
        aget 0 (Gic.running_irq (Nvic.gic (nvic s3))) 0 = aget 0 (Gic.running_irq (Nvic.gic (nvic s))) 0.
Proof.
  intros W Hidx Ht Hn Hsp Hram. pose proof Ht as (_ & N & Hack & _). destruct (takes_nested _ _ _ _ Ht) as (_ & N1 & _).
  destruct (entry_spec s n nv W Hidx Hack Hn Hsp) as (e1 & Hint & En). eexists. split; [exact Hint|]. cbn [env nvic ram].
  do 3 (split; [done|]). split.
  { intros a Ha Hout. apply (store_words_frame ram_word); [done|done|]. cbn. intros k Hk ->. apply Hout.
    pose proof (aligned_le (env s)). unfold frame_base in *. lia. }
  intros s2 R Hidx2 W2 N2. destruct (ends _ _ _ W2 N2 ltac:(lia)) as (nv' & Hc & N3).
  destruct (return_spec (env s) n (mkMachine e1 nv _) s2 nv' W Hsp ltac:(lia) En R) as (e4 & Hi & Hres); [|done|done|].
  { intros k v Hk Hv. cbn [ram]. by apply (store_words_load ram_word); [|lia|]. }
  eexists. split; [exact Hi|]. cbn [env nvic ram]. do 3 (split; [done|]). exact (nested_running _ _ _ N N3).
Qed.
End Exception.

(** ** Special registers *)

(** What a write of [v] to a register leaves in it. *)
Definition written (s : CPUARMState) (r v : Z) : Z :=
  if r =? 0 then v .& 0xf8000000
  else if (r =? 16) || (r =? 19) then v .& 1
  else if r =? 17 then v .& 0xff
  else if r =? 18 then if truth (v .& 0xff) && ((v .& 0xff <? basepri s) || (basepri s =? 0)) then v .& 0xff else basepri s
  else if r =? 20 then v .& 3
  else v.
(** The registers that keep a value of their own; 18 is another name of 17. *)
Definition special : list Z := [0; 8; 9; 16; 17; 18; 19; 20].
Definition same_special (r q : Z) : Prop := r = q \/ (r ∈ [17; 18] /\ q ∈ [17; 18]).

Lemma flags_bit s v i : is_u 32 v -> 27 <= i < 32 -> xpsr_bit (xpsr_write s v 0xf8000000) i = Z.testbit v i.
Proof.
  intros Hv Hi. change (xpsr_write s v 0xf8000000) with (write_flags s v).[QF := b2z (v .&? CPSR_Q)].
  unfold xpsr_bit, write_flags. cbn -[Z.testbit CPSR_Z CPSR_Q]. unfold u32, CPSR_Z, CPSR_Q.
  rewrite mask_zero, flag_testbit, not32_spec, negb_involutive by lia.
  assert (forall b, Z.testbit (b2z b) 0 = b) as -> by by intros [].
  assert (i = 27 \/ i = 28 \/ i = 29 \/ i = 30 \/ i = 31) as [-> |[-> |[-> |[-> | ->]]]] by lia; switch;
    rewrite ?Z.land_spec, ?Z.mod_pow2_bits_low, ?Z.shiftl_spec, ?Z.shiftr_spec by lia; literal_bits; done.
Qed.
Lemma flags_wf s v : wf s -> is_u 32 v -> wf (xpsr_write s v 0xf8000000).
Proof.
  intros [] Hv. change (xpsr_write s v 0xf8000000) with (write_flags s v).[QF := b2z (v .&? CPSR_Q)].
  split; cbn; auto using is_u_b2z; auto with cint.
Qed.
Lemma flags_read s v : wf s -> is_u 32 v -> xpsr_read (xpsr_write s v 0xf8000000) .& 0xf8000000 = v .& 0xf8000000.
Proof.
  intros W Hv. apply Z.bits_inj'. intros i Hi. rewrite !Z.land_spec. destruct (Z.lt_ge_cases i 27) as [H27|H27].
  - change 0xf8000000 with (0x1f .<< 27). rewrite !(Z.shiftl_spec _ _ i), !(Z.testbit_neg_r _ (i - 27)), !andb_false_r by lia. done.
  - destruct (Z.lt_ge_cases i 32) as [H32|H32].
    + rewrite (xpsr_spec _ i (flags_wf s v W Hv)), flags_bit by (done || lia). done.
    + by rewrite !(above 32 0xf8000000), !andb_false_r by done.
Qed.
Lemma set_mask_bit s k v : 0 <= k < 32 -> wf s ->
  wf (set_mask s (1 .<< k) v) /\ forall j, 0 <= j < 32 ->
    (uncached_cpsr (set_mask s (1 .<< k) v) .&? (1 .<< j)) = if j =? k then v .&? 1 else uncached_cpsr s .&? (1 .<< j).
Proof.
  intros Hk W. assert (is_u 32 (1 .<< k)) as Hu.
  { unfold is_u. rewrite Z.shiftl_1_l. split; [lia|apply Z.pow_lt_mono_r; lia]. }
  split.
  - destruct W. split; cbn; auto. destruct (v .&? 1); auto with cint.
  - intros j Hj. unfold set_mask. cbn. rewrite (flag_testbit (uncached_cpsr s) j), flag_testbit by lia.
    assert (Z.testbit (1 .<< k) j = (j =? k)) as Hb.
    { rewrite Z.shiftl_1_l, Z.pow2_bits_eqb by lia. apply Z.eqb_sym. }
    destruct (v .&? 1).
    + rewrite Z.lor_spec, Hb. destruct (j =? k); [apply orb_true_r|apply orb_false_r].
    + rewrite Z.land_spec, not32_spec, Hb by lia. destruct (j =? k); [apply andb_false_r|apply andb_true_r].
Qed.
Lemma masks s v :
  wf s -> (wf (set_mask s CPSR_I v) /\ v7m_mrs (set_mask s CPSR_I v) 16 = Some (v .& 1) /\ v7m_mrs (set_mask s CPSR_I v) 19 = v7m_mrs s 19) /\
  (wf (set_mask s CPSR_F v) /\ v7m_mrs (set_mask s CPSR_F v) 19 = Some (v .& 1) /\ v7m_mrs (set_mask s CPSR_F v) 16 = v7m_mrs s 16).
Proof.
  intros W. assert (b2z (v .&? 1) = v .& 1) as Hb.
  { change 1 with (Z.ones 1). rewrite Z.land_ones by lia. change (2 ^ 1) with 2.
    pose proof (Z.mod_pos_bound v 2 ltac:(lia)). assert (v mod 2 = 0 \/ v mod 2 = 1) as [-> | ->] by lia; done. }
  destruct (set_mask_bit s 7 v ltac:(lia) W) as [W7 H7], (set_mask_bit s 6 v ltac:(lia) W) as [W6 H6].
  unfold v7m_mrs. switch. unfold CPSR_I, CPSR_F. rewrite !H7, !H6 by lia. switch. rewrite Hb. done.
Qed.
(** Switching stacks changes which one is current and neither pointer. *)
Lemma switch_mrs s p q : wf s -> p = 0 \/ p = 1 -> q ∈ special -> v7m_mrs (switch_v7m_sp s p) q = v7m_mrs s q.
Proof.
  intros W Hp Hq. destruct (switch_spec s p W Hp) as (_ & Hc & _ & _ & Hst). pose proof (wf_current s W) as Hcur.
  assert (q = 8 \/ q = 9 \/ v7m_mrs (switch_v7m_sp s p) q = v7m_mrs s q) as [->|[->|?]]; [|unfold v7m_mrs; switch..|done].
  - unfold special in Hq. rewrite !elem_of_cons, elem_of_nil in Hq. unfold switch_v7m_sp. destruct (negb _); [|auto].
    destruct_or!; subst; auto; done.
  - rewrite Hc. destruct Hp as [-> | ->], Hcur as [E|E]; rewrite E in *; cbn in Hst; destruct Hst as [-> ->]; done.
  - rewrite Hc. destruct Hp as [-> | ->], Hcur as [E|E]; rewrite E in *; cbn in Hst; destruct Hst as [-> ->]; done.
Qed.
Ltac each_special H := unfold special in H; rewrite !elem_of_cons, elem_of_nil in H; destruct_or! H; subst.
Lemma msr_written s r v : wf s -> is_u 32 v -> r ∈ special ->
  exists s', v7m_msr s r v = Some s' /\ wf s' /\ v7m_mrs s' r = Some (written s r v).
Proof.
  intros W Hv Hr. each_special Hr; unfold v7m_msr, written; switch; (eexists; split; [reflexivity|]).
  - split; [by apply flags_wf|]. unfold v7m_mrs. switch. by rewrite flags_read.
  - pose proof (set_reg_wf s 13 v W). unfold v7m_mrs. switch. destruct W, (truth (current_sp s)) eqn:E; (split; [first [done | by split]|]).
    + change (current_sp s.[other_sp := v]) with (current_sp s). by rewrite E.
    + change (current_sp (set_reg s 13 v)) with (current_sp s). rewrite E, reg_set_eq, u32_small by (done || lia). done.
  - pose proof (set_reg_wf s 13 v W). unfold v7m_mrs. switch. destruct W, (truth (current_sp s)) eqn:E; (split; [first [done | by split]|]).
    + change (current_sp (set_reg s 13 v)) with (current_sp s). rewrite E, reg_set_eq, u32_small by (done || lia). done.
    + change (current_sp s.[other_sp := v]) with (current_sp s). by rewrite E.
  - by destruct (masks s v W) as [(? & ? & _) _].
  - split; [|done]. destruct W. split; cbn; auto with cint.
  - split; [|by destruct (_ && _)]. destruct (_ && _); [|done]. destruct W. split; cbn; auto with cint.
  - by destruct (masks s v W) as [_ (? & ? & _)].
  - assert (wf s.[control := v .& 3]) as W1 by (destruct W; split; cbn; auto with cint).
    split; [apply switch_wf; [done|destruct (v .&? 2); cbn; auto]|]. rewrite switch_mrs; [done|done|destruct (v .&? 2); cbn; auto|].
    apply (bool_decide_unpack _). by vm_compute.
Qed.
Lemma msr_frame s r v s' q : wf s -> is_u 32 v -> r ∈ special -> q ∈ special -> ~ same_special r q ->
  v7m_msr s r v = Some s' -> v7m_mrs s' q = v7m_mrs s q.
Proof.
  intros W Hv Hr Hq Hne. each_special Hr; unfold v7m_msr; switch; intros [= <-].
  - each_special Hq; [by destruct Hne; left|done..].
  - each_special Hq; unfold v7m_mrs; switch; destruct (truth (current_sp s)) eqn:E; try done; try (by destruct Hne; left).
    + change (current_sp s.[other_sp := v]) with (current_sp s). by rewrite E.
    + change (current_sp (set_reg s 13 v)) with (current_sp s). by rewrite E.
  - each_special Hq; unfold v7m_mrs; switch; destruct (truth (current_sp s)) eqn:E; try done; try (by destruct Hne; left).
    + change (current_sp (set_reg s 13 v)) with (current_sp s). by rewrite E.
    + change (current_sp s.[other_sp := v]) with (current_sp s). by rewrite E.
  - each_special Hq; try done; [by destruct Hne; left|by destruct (masks s v W) as [(_ & _ & ?) _]].
  - each_special Hq; try done; destruct Hne; [by left|right; by rewrite !elem_of_cons; auto].
  - each_special Hq; try (by destruct (_ && _)); destruct Hne; [right; by rewrite !elem_of_cons; auto|by left].
  - each_special Hq; try done; [by destruct (masks s v W) as [_ (_ & _ & ?)]|by destruct Hne; left].
  - assert (wf s.[control := v .& 3]) as W1 by (destruct W; split; cbn; auto with cint).
    rewrite switch_mrs; [|done|destruct (v .&? 2); cbn; auto|done]. each_special Hq; try done. by destruct Hne; left.
Qed.

(** A special register reads what was written to it, within its width, and a write to one changes no other: the
    switch of stacks that a write to CONTROL makes keeps both stack pointers. *)
Theorem msr_mrs s r v :
  wf s -> is_u 32 v -> r ∈ special ->
  exists s', v7m_msr s r v = Some s' /\ wf s' /\ v7m_mrs s' r = Some (written s r v) /\
    forall q, q ∈ special -> ~ same_special r q -> v7m_mrs s' q = v7m_mrs s q.
Proof.
  intros W Hv Hr. destruct (msr_written s r v W Hv Hr) as (s' & E & W' & H). exists s'. do 3 (split; [done|]).
  intros q Hq Hne. by apply (msr_frame s r v s').
Qed.

(** ** What the sources get wrong *)

(** PRIMASK does not mask: the main loop looks at it only at a magic address. *)
Lemma primask_ignored s s' : v7m_msr s 16 1 = Some s' -> reg s 15 < 0xfffffff0 -> v7m_mrs s' 16 = Some 1 -> takes_irq s' = true.
Proof.
  intros [= <-] Hpc _. unfold takes_irq. change (reg (set_mask s CPSR_I 1) 15) with (reg s 15).
  destruct (Z.ltb_spec (reg s 15) 0xfffffff0); [done|lia].
Qed.
(** An interrupt is taken at a magic address unless PRIMASK is set. *)
Lemma magic_interrupted s : Z.testbit (uncached_cpsr s) 7 = false -> takes_irq s = true.
Proof. intros H. unfold takes_irq, CPSR_I. rewrite flag_testbit, H by lia. apply orb_true_r. Qed.
(** IEPSR has no bit 12, which EPSR has. *)
Lemma iepsr_loses_bit s : wf s -> Z.testbit (condexec_bits s) 4 = true ->
  (forall x, v7m_mrs s 6 = Some x -> Z.testbit x 12 = true) /\ (forall x, v7m_mrs s 7 = Some x -> Z.testbit x 12 = false).
Proof.
  intros W H. unfold v7m_mrs. switch. split; intros x [= <-]; rewrite Z.land_spec.
  - by rewrite (xpsr_spec s 12 W), andb_true_r by lia.
  - apply andb_false_r.
Qed.

(** ** Witnesses *)

(** Memory as words at addresses. *)
#[local] Instance words_mem : PhysMem (Z -> Z) := {
  ldl_phys m a := m a;
  stl_phys m a v := fun b => if b =? a then u32 v else m b
}.
#[local] Instance words_ram : RamLaws (Z -> Z) (fun a => a mod 4 = 0).
Proof.
  split; intros m a; cbn.
  - intros v _. by rewrite Z.eqb_refl.
  - intros b v _ _ Hne. by destruct (Z.eqb_spec b a); [subst|].
Qed.
(** Thread mode on a process stack that is not aligned to eight bytes; line 3 is up. *)
Definition thread : CPUARMState :=
  mkCpu [100; 101; 102; 103; 104; 105; 106; 107; 108; 109; 110; 111; 112; 0x20001004; 0x8001; 0x8234] 1 0x80000000 0 0 1 0 1 0x2c CPSR_F 0x20008000 0 2 1 0 EXCP_IRQ.
Definition nvic2 : Nvic.nvic_state := NvicProps.nvic1.[Nvic.gic := Gic.gic_set_irq (Nvic.gic NvicProps.nvic1) 3 1].
Definition nvic3 : Nvic.nvic_state := nvic2.[Nvic.gic := snd (Gic.gic_acknowledge_irq (Nvic.gic nvic2) 0)].
Definition machine1 : machine (Z -> Z) := mkMachine thread nvic2 (fun _ => 0x8401).
(** The handler returns at once. *)
Definition returned (s : machine (Z -> Z)) : machine (Z -> Z) :=
  mkMachine (set_reg (env s) 15 (reg (env s) 14 .& not32 1)).[exception_index := EXCP_EXCEPTION_EXIT] (nvic s) (ram s).
Lemma thread_wf : wf thread.
Proof.
  split; cbn [regs CF QF thumb VF NF ZF condexec_bits exception other_sp current_sp basepri control uncached_cpsr thread]; try done; [|by right].
  repeat (apply Forall_cons; split; [by vm_compute|]). by apply Forall_nil.
Qed.
Lemma takes_line : takes nvic2 [] 19 nvic3.
Proof.
  split; [apply GicProps.gic_set_irq_wf, NvicProps.nvic1_wf|]. split; [split; [by vm_compute|constructor|by vm_compute]|].
  split; [|by vm_compute; intros []]. unfold Nvic.armv7m_nvic_acknowledge_irq, nvic3.
  assert (fst (Gic.gic_acknowledge_irq (Nvic.gic nvic2) 0) = 35) as E by by vm_compute.
  destruct (Gic.gic_acknowledge_irq (Nvic.gic nvic2) 0) as [irq g]. cbn [fst] in E. by subst irq.
Qed.
Lemma returned_returns e n base s1 : entered e n (env s1) -> returns base s1 (returned s1).
Proof.
  intros En. pose proof (en_wf _ _ _ En) as W. pose proof (wf_regs _ W) as Hl.
  assert (forall i, 0 <= i -> i <> 15 -> reg (env (returned s1)) i = reg (env s1) i) as Hr.
  { intros i Hi Hne. change (reg (set_reg (env s1) 15 (reg (env s1) 14 .& not32 1)) i = reg (env s1) i). by rewrite reg_set_ne by lia. }
  split; try done; [| |intros i Hi; apply Hr; lia|apply Hr; lia].
  - pose proof (set_reg_wf (env s1) 15 (reg (env s1) 14 .& not32 1) W) as []. by split.
  - change (reg (set_reg (env s1) 15 (reg (env s1) 14 .& not32 1)) 15 = reg (env s1) 14 .& not32 1).
    rewrite reg_set_eq, u32_small by (done || lia || auto with cint). done.
Qed.
Lemma exception_transparent_witness :
  exists s1 s3, arm_v7m_cpu_do_interrupt false (fun _ _ => 0) (fun s => (0, s)) 257 machine1 = Some s1 /\
    arm_v7m_cpu_do_interrupt false (fun _ _ => 0) (fun s => (0, s)) 257 (returned s1) = Some s3 /\ resumed thread (env s3).
Proof.
  destruct (takes_nested _ _ _ _ takes_line) as (W3 & N3 & _).
  destruct (exception_transparent (fun a => a mod 4 = 0) false (fun _ _ => 0) (fun s => (0, s)) machine1 [] 19 nvic3
    thread_wf ltac:(done) takes_line ltac:(lia) ltac:(by vm_compute)) as (s1 & E1 & En & Hnv & _ & _ & Hret).
  { intros k Hk. change (frame_base (env machine1)) with 536874976. rewrite Z.add_comm, Z.mul_comm.
    by rewrite Z.add_mod, Z_mod_mult. }
  destruct (Hret (returned s1)) as (s3 & E3 & Hres & _).
  - by apply (returned_returns thread 19).
  - done.
  - change (nvic (returned s1)) with (nvic s1). by rewrite Hnv.
  - change (nvic (returned s1)) with (nvic s1). by rewrite Hnv.
  - exists s1, s3. exact (conj E1 (conj E3 Hres)).
Defined.
Lemma msr_mrs_witness : exists s', v7m_msr thread 20 0 = Some s' /\ v7m_mrs s' 20 = Some 0 /\ v7m_mrs s' 9 = Some 0x20001004.
Proof.
  destruct (msr_mrs thread 20 0 thread_wf ltac:(done)) as (s' & E & _ & H & Hq); [apply (bool_decide_unpack _); by vm_compute|].
  exists s'. do 2 (split; [done|]). rewrite Hq; [done|apply (bool_decide_unpack _); by vm_compute|].
  intros [?|[Hr _]]; [done|]. revert Hr. apply (bool_decide_unpack _). by vm_compute.
Defined.
End CpuProps.
