(* ===== verification/Memory.v ===== *)
(** * Memory regions and the flat view (memory.c)

    The regions are a heap of records; a region has an alias or subregions, in
    the order of their priority.  [render_memory_region] flattens them into the
    sorted list of ranges that guest accesses are looked up in.  The 128-bit
    integers of the ranges are unbounded here: a sum of 64-bit offsets along a
    path of regions does not reach 128 bits. *)

From stdpp Require Import gmap sorting.
From S2P Require Import Prelude.

Module Memory.
#[local] Open Scope Z_scope.

Definition ptr := positive.
Definition int128_2_64 := 2 ^ 64.
(** [None]: the assertion that the upper half is zero fails. *)
Definition int128_get64 (a : Z) : option Z := if (0 <=? a) && (a <? int128_2_64) then Some a else None.
Definition UINT64_MAX := 2 ^ 64 - 1.

(** ** Ranges *)

Record AddrRange := mkRange { start : Z; size : Z }.
#[export] Instance eta_range : RecEta AddrRange := fun r => mkRange (start r) (size r).
Definition addrrange_end (r : AddrRange) : Z := start r + size r.
Definition addrrange_contains (r : AddrRange) (addr : Z) : bool := (start r <=? addr) && (addr <? addrrange_end r).
Definition addrrange_intersects (r1 r2 : AddrRange) : bool :=
  addrrange_contains r1 (start r2) || addrrange_contains r2 (start r1).
Definition addrrange_intersection (r1 r2 : AddrRange) : AddrRange :=
  let start := Z.max (start r1) (start r2) in
  let end' := Z.min (addrrange_end r1) (addrrange_end r2) in
  mkRange start (end' - start).

(** ** Regions *)

Record MemoryRegion := mkRegion {
  parent : option ptr;
  mr_size : Z;
  mr_addr : Z;
  terminates : bool;
  romd_mode : bool;
  ram : bool;
  readonly : bool;
  enabled : bool;
  alias : option ptr;
  alias_offset : Z;
  priority : Z;
  may_overlap : bool;
  subregions : list ptr;
  dirty_log_mask : Z
}.
#[export] Instance eta_region : RecEta MemoryRegion := fun r =>
  mkRegion (parent r) (mr_size r) (mr_addr r) (terminates r) (romd_mode r) (ram r) (readonly r) (enabled r)
           (alias r) (alias_offset r) (priority r) (may_overlap r) (subregions r) (dirty_log_mask r).
Abbreviation heap := (gmap ptr MemoryRegion).

Definition memory_region_init (sz : Z) : MemoryRegion :=
  mkRegion None (if u64 sz =? UINT64_MAX then int128_2_64 else u64 sz) 0 false true false false true None 0 0 false [] 0.
Definition memory_region_init_io (sz : Z) : MemoryRegion := (memory_region_init sz).[terminates := true].
Definition memory_region_init_ram (sz : Z) : MemoryRegion := (memory_region_init sz).[ram := true].[terminates := true].
Definition memory_region_init_alias (orig : ptr) (offset sz : Z) : MemoryRegion :=
  (memory_region_init sz).[alias := Some orig].[alias_offset := offset].

(** The result [None] is a failed assertion or a region that does not exist. *)
Definition set_region (h : heap) (p : ptr) (f : MemoryRegion -> MemoryRegion) : option heap :=
  r ← h !! p; Some (<[p := f r]> h).
Definition memory_region_set_readonly (h : heap) (p : ptr) (b : bool) : option heap :=
  set_region h p (fun r => r.[readonly := b]).
Definition memory_region_set_enabled (h : heap) (p : ptr) (b : bool) : option heap :=
  set_region h p (fun r => r.[enabled := b]).
Definition memory_region_set_alias_offset (h : heap) (p : ptr) (offset : Z) : option heap :=
  r ← h !! p; _ ← alias r; set_region h p (fun r => r.[alias_offset := offset]).

(** In front of the first subregion of no higher priority. *)
Fixpoint insert_subregion (h : heap) (prio : Z) (p : ptr) (l : list ptr) : option (list ptr) :=
  match l with
  | [] => Some [p]
  | other :: l' =>
      o ← h !! other;
      if priority o <=? prio then Some (p :: l) else l'' ← insert_subregion h prio p l'; Some (other :: l'')
  end.
Definition memory_region_add_subregion_common (h : heap) (mr : ptr) (offset : Z) (subregion : ptr) : option heap :=
  s ← h !! subregion;
  match parent s with
  | Some _ => None
  | None =>
      let h := <[subregion := s.[parent := Some mr].[mr_addr := offset]]> h in
      m ← h !! mr;
      l ← insert_subregion h (priority s) subregion (subregions m);
      Some (<[mr := m.[subregions := l]]> h)
  end.
Definition memory_region_add_subregion (h : heap) (mr : ptr) (offset : Z) (subregion : ptr) : option heap :=
  h ← set_region h subregion (fun s => s.[may_overlap := false].[priority := 0]);
  memory_region_add_subregion_common h mr offset subregion.
Definition memory_region_add_subregion_overlap (h : heap) (mr : ptr) (offset : Z) (subregion : ptr) (prio : Z) : option heap :=
  h ← set_region h subregion (fun s => s.[may_overlap := true].[priority := prio]);
  memory_region_add_subregion_common h mr offset subregion.
Definition memory_region_del_subregion (h : heap) (mr subregion : ptr) : option heap :=
  s ← h !! subregion;
  if decide (parent s = Some mr) then
    let h := <[subregion := s.[parent := None]]> h in
    m ← h !! mr;
    Some (<[mr := m.[subregions := filter (fun p => p <> subregion) (subregions m)]]> h)
  else None.
Definition memory_region_set_address (h : heap) (mr : ptr) (addr : Z) : option heap :=
  r ← h !! mr;
  match parent r with
  | Some parent =>
      if addr =? mr_addr r then set_region h mr (fun r => r.[mr_addr := addr])
      else
        h ← memory_region_del_subregion h parent mr;
        if may_overlap r then memory_region_add_subregion_overlap h parent addr mr (priority r)
        else memory_region_add_subregion h parent addr mr
  | None => set_region h mr (fun r => r.[mr_addr := addr])
  end.

(** ** The flat view *)

Record FlatRange := mkFlat {
  mr : ptr;
  offset_in_region : Z;
  addr : AddrRange;
  fr_dirty_log_mask : Z;
  fr_romd_mode : bool;
  fr_readonly : bool
}.
#[export] Instance eta_flat : RecEta FlatRange := fun r =>
  mkFlat (mr r) (offset_in_region r) (addr r) (fr_dirty_log_mask r) (fr_romd_mode r) (fr_readonly r).

Definition can_merge (r1 r2 : FlatRange) : bool :=
  (addrrange_end (addr r1) =? start (addr r2)) && bool_decide (mr r1 = mr r2) &&
  (offset_in_region r1 + size (addr r1) =? offset_in_region r2) &&
  (fr_dirty_log_mask r1 =? fr_dirty_log_mask r2) &&
  Bool.eqb (fr_romd_mode r1) (fr_romd_mode r2) && Bool.eqb (fr_readonly r1) (fr_readonly r2).

(** [acc] is the range that grows, [prev] the last one merged into it. *)
Fixpoint simplify_from (acc prev : FlatRange) (l : list FlatRange) : list FlatRange :=
  match l with
  | [] => [acc]
  | r :: l =>
      if can_merge prev r then simplify_from acc.[addr := (addr acc).[size := size (addr acc) + size (addr r)]] r l
      else acc :: simplify_from r r l
  end.
Definition flatview_simplify (view : list FlatRange) : list FlatRange :=
  match view with [] => [] | r :: l => simplify_from r r l end.

(** The region itself goes into the gaps of the view: the part [base],
    [remain] of it is left, which starts at [offset] of the region.  [None]:
    the number of bytes passed in one step does not fit 64 bits. *)
Fixpoint fill_gaps (fr : Z -> AddrRange -> FlatRange) (base offset remain : Z) (view : list FlatRange) : option (list FlatRange) :=
  match view with
  | [] => Some (if remain =? 0 then [] else [fr offset (mkRange base remain)])
  | r :: l =>
      if remain =? 0 then Some (r :: l)
      else if addrrange_end (addr r) <=? base then l' ← fill_gaps fr base offset remain l; Some (r :: l')
      else
        '(ins, base, offset, remain) ←
          (if base <? start (addr r) then
             let now := Z.min remain (start (addr r) - base) in
             now64 ← int128_get64 now;
             Some ([fr offset (mkRange base now)], base + now, u64 (offset + now64), remain - now)
           else Some ([], base, offset, remain));
        let now := Z.min (base + remain) (addrrange_end (addr r)) - base in
        now64 ← int128_get64 now;
        l' ← fill_gaps fr (base + now) (u64 (offset + now64)) (remain - now) l;
        Some (ins ++ r :: l')
  end.

(** [None]: the depth of the regions exceeds [n], a region does not exist, or
    an assertion fails. *)
Fixpoint render_memory_region (n : nat) (h : heap) (view : list FlatRange) (p : ptr) (base : Z) (clip : AddrRange) (ro : bool)
    : option (list FlatRange) :=
  match n with
  | O => None
  | S n =>
      m ← h !! p;
      if negb (enabled m) then Some view
      else
        let base := base + mr_addr m in
        let ro := ro || readonly m in
        let tmp := mkRange base (mr_size m) in
        if negb (addrrange_intersects tmp clip) then Some view
        else
          let clip := addrrange_intersection tmp clip in
          match alias m with
          | Some q =>
              a ← h !! q;
              render_memory_region n h view q (base - mr_addr a - alias_offset m) clip ro
          | None =>
              view ← foldl (fun v q => view ← v; render_memory_region n h view q base clip ro) (Some view) (subregions m);
              if negb (terminates m) then Some view
              else
                offset ← int128_get64 (start clip - base);
                fill_gaps (fun o r => mkFlat p o r (dirty_log_mask m) (romd_mode m) ro) (start clip) offset (size clip) view
          end
  end.
Definition generate_memory_topology (n : nat) (h : heap) (root : ptr) : option (list FlatRange) :=
  view ← render_memory_region n h [] root 0 (mkRange 0 int128_2_64) false;
  Some (flatview_simplify view).

(** ** Looking up a range *)

(** What the C library promises of [bsearch]: in an array that the comparison
    splits in order, it finds an element that compares equal if there is one. *)
Class BSearch := {
  bsearch {A} : (A -> Z) -> list A -> option nat;
  bsearch_found {A} (cmp : A -> Z) (l : list A) k : bsearch cmp l = Some k -> exists x, l !! k = Some x /\ cmp x = 0;
  bsearch_complete {A} (cmp : A -> Z) (l : list A) : StronglySorted (fun x y => cmp y <= cmp x) l ->
    bsearch cmp l = None -> Forall (fun x => cmp x <> 0) l
}.

Definition cmp_flatrange_addr (r : AddrRange) (fr : FlatRange) : Z :=
  if addrrange_end r <=? start (addr fr) then -1
  else if addrrange_end (addr fr) <=? start r then 1
  else 0.

Record MemoryRegionSection := mkSection {
  sec_mr : ptr;
  offset_within_region : Z;
  sec_size : Z;
  offset_within_address_space : Z;
  sec_readonly : bool
}.

Section Find.
Context `{!BSearch}.

Definition flatview_lookup (view : list FlatRange) (r : AddrRange) : option nat := bsearch (cmp_flatrange_addr r) view.

(** Back to the first range that intersects. *)
Fixpoint first_range (view : list FlatRange) (r : AddrRange) (k : nat) : nat :=
  match k with
  | O => O
  | S k' => match view !! k' with
            | Some fr => if addrrange_intersects (addr fr) r then first_range view r k' else k
            | None => k
            end
  end.

(** The root of [p], and the address there of [a] in [p]. *)
Fixpoint to_root (n : nat) (h : heap) (p : ptr) (a : Z) : option (ptr * Z) :=
  match n with
  | O => None
  | S n =>
      r ← h !! p;
      let a := u64 (a + mr_addr r) in
      match parent r with None => Some (p, a) | Some q => to_root n h q a end
  end.

(** The view of each root is the one last generated from it. *)
Definition memory_region_find (n : nat) (h : heap) (views : ptr -> option (list FlatRange)) (p : ptr) (a sz : Z)
    : option (option MemoryRegionSection) :=
  '(root, a) ← to_root n h p a;
  view ← views root;
  let range := mkRange a sz in
  match flatview_lookup view range with
  | None => Some None
  | Some k =>
      fr ← view !! first_range view range k;
      let range := addrrange_intersection range (addr fr) in
      Some (Some (mkSection (mr fr) (u64 (offset_in_region fr + (start range - start (addr fr)))) (size range)
                            (start range) (fr_readonly fr)))
  end.
End Find.

(** ** Accesses to a device *)

Inductive device_endian := DEVICE_NATIVE_ENDIAN | DEVICE_BIG_ENDIAN | DEVICE_LITTLE_ENDIAN.

Section Access.
Context {S : Type}.

Record MemoryRegionOps := mkOps {
  read : option (S -> Z -> Z -> Z * S);
  write : option (S -> Z -> Z -> Z -> S);
  endianness : device_endian;
  valid_min : Z; valid_max : Z; valid_unaligned : bool;
  accepts : option (S -> Z -> Z -> bool -> bool);
  impl_min : Z; impl_max : Z;
  old_read : Z -> S -> Z -> Z * S;
  old_write : Z -> S -> Z -> Z -> S
}.
Context (ops : MemoryRegionOps).

(** The target is little-endian. *)
Definition memory_region_big_endian : bool :=
  match endianness ops with DEVICE_BIG_ENDIAN => true | _ => false end.
Fixpoint bswap (n : nat) (x : Z) : Z :=
  match n with O => 0 | Datatypes.S n => ((x .& 0xff) .<< (8 * Z.of_nat n)) .| bswap n (x .>> 8) end.
Definition adjust_endianness (data sz : Z) : Z := if memory_region_big_endian then bswap (Z.to_nat sz) data else data.

(** The values of [i] in [for (i = 0; i < size; i += access_size)]. *)
Definition steps (sz access_size : Z) : list Z :=
  (fun k => k * access_size) <$> seqZ 0 ((sz + access_size - 1) / access_size).
Definition access_size (sz lo hi : Z) : Z :=
  let lo := if lo =? 0 then 1 else lo in
  let hi := if hi =? 0 then 4 else hi in
  Z.max (Z.min sz hi) lo.
Definition access_mask (n : Z) : Z := u64 (-1) .>> (64 - n * 8).
Definition access_shift (sz n i : Z) : Z := if memory_region_big_endian then (sz - n - i) * 8 else i * 8.

Definition read_with_adjusted_size (s : S) (a sz lo hi : Z) (rd : S -> Z -> Z -> Z * S) : Z * S :=
  let n := access_size sz lo hi in
  foldl (fun '(value, s) i =>
           let '(tmp, s) := rd s (a + i) n in
           (value .| u64 ((tmp .& access_mask n) .<< access_shift sz n i), s)) (0, s) (steps sz n).
Definition write_with_adjusted_size (s : S) (a value sz lo hi : Z) (wr : S -> Z -> Z -> Z -> S) : S :=
  let n := access_size sz lo hi in
  foldl (fun s i => wr s (a + i) ((value .>> access_shift sz n i) .& access_mask n) n) s (steps sz n).

Definition memory_region_access_valid (s : S) (a sz : Z) (is_write : bool) : bool :=
  if negb (valid_unaligned ops) && (a .&? (sz - 1)) then false
  else
    match accepts ops with
    | None => true
    | Some accepts =>
        let n := access_size sz (valid_min ops) (valid_max ops) in
        forallb (fun i => accepts s (a + i) n is_write) (steps sz n)
    end.

(** The index of an old accessor is the logarithm of the size. *)
Definition memory_region_dispatch_read1 (s : S) (a sz : Z) : Z * S :=
  match read ops with
  | Some rd => read_with_adjusted_size s a sz (impl_min ops) (impl_max ops) rd
  | None => read_with_adjusted_size s a sz 1 4 (fun s a n => old_read ops (Z.log2 n) s a)
  end.
(** The flag is an error; the value of a refused read is all ones. *)
Definition memory_region_dispatch_read (s : S) (a sz : Z) : bool * Z * S :=
  if negb (memory_region_access_valid s a sz false) then (true, u64 (-1), s)
  else let '(v, s) := memory_region_dispatch_read1 s a sz in (false, adjust_endianness v sz, s).
Definition memory_region_dispatch_write (s : S) (a data sz : Z) : bool * S :=
  if negb (memory_region_access_valid s a sz true) then (true, s)
  else
    let data := adjust_endianness data sz in
    (false, match write ops with
            | Some wr => write_with_adjusted_size s a data sz (impl_min ops) (impl_max ops) wr
            | None => write_with_adjusted_size s a data sz 1 4 (fun s a v n => old_write ops (Z.log2 n) s a v)
            end).
End Access.
Arguments MemoryRegionOps : clear implicits.
End Memory.
