(* ===== verification/MemoryProps.v ===== *)
(** * What the flat view means

    [resolve] says directly which region answers an address: the first of the
    subregions that answers, the target of an alias, or the region itself.  The
    rendered view is ordered and disjoint and answers every address in the same
    way; lookups in it and split accesses to a device are exact. *)

From stdpp Require Import gmap sorting.
From S2P Require Import Prelude Memory.

Module MemoryProps.
Import Memory.
#[local] Open Scope Z_scope.

(** ** Reading a view and the specification *)

Definition hit : Type := ptr * Z * Z * bool * bool.
Definition orelse {A} (x y : option A) : option A := match x with Some _ => x | None => y end.

Definition range_at (r : FlatRange) (a : Z) : option hit :=
  if addrrange_contains (addr r) a
  then Some (mr r, offset_in_region r + (a - start (addr r)), fr_dirty_log_mask r, fr_romd_mode r, fr_readonly r)
  else None.
Fixpoint view_at (v : list FlatRange) (a : Z) : option hit :=
  match v with [] => None | r :: v => orelse (range_at r a) (view_at v a) end.

Fixpoint first_hit (f : ptr -> option hit) (l : list ptr) : option hit :=
  match l with [] => None | p :: l => orelse (f p) (first_hit f l) end.

(** The region that answers [a] when [p] is mapped at [base]. *)
Fixpoint resolve (n : nat) (h : heap) (p : ptr) (base : Z) (ro : bool) (a : Z) : option hit :=
  match n with
  | O => None
  | S n =>
      m ← h !! p;
      let base := base + mr_addr m in
      let ro := ro || readonly m in
      if enabled m && (base <=? a) && (a <? base + mr_size m) then
        match alias m with
        | Some q => t ← h !! q; resolve n h q (base - mr_addr t - alias_offset m) ro a
        | None =>
            orelse (first_hit (fun q => resolve n h q base ro a) (subregions m))
                   (if terminates m then Some (p, a - base, dirty_log_mask m, romd_mode m, ro) else None)
        end
      else None
  end.

(** Ranges in ascending order, disjoint and not empty, from [lo] on. *)
Fixpoint ordered (lo : Z) (v : list FlatRange) : Prop :=
  match v with
  | [] => True
  | r :: v => lo <= start (addr r) /\ 0 < size (addr r) /\ ordered (addrrange_end (addr r)) v
  end.

Lemma orelse_assoc {A} (x y z : option A) : orelse (orelse x y) z = orelse x (orelse y z).
Proof. by destruct x. Qed.
Lemma orelse_none {A} (x : option A) : orelse x None = x.
Proof. by destruct x. Qed.
Lemma ordered_mono lo lo' v : lo' <= lo -> ordered lo v -> ordered lo' v.
Proof. destruct v; simpl; [done|]. intros ? (? & ? & ?). repeat split; [lia|done|done]. Qed.
Lemma view_at_app v w a : view_at (v ++ w) a = orelse (view_at v a) (view_at w a).
Proof. induction v as [|r v IH]; simpl; [done|]. by rewrite IH, orelse_assoc. Qed.
Lemma ordered_below lo v a : ordered lo v -> a < lo -> view_at v a = None.
Proof.
  revert lo. induction v as [|r v IH]; simpl; intros lo Hv Ha; [done|]. destruct Hv as (Hl & Hs & Hv).
  unfold range_at, addrrange_contains, addrrange_end in *.
  destruct (Z.leb_spec (start (addr r)) a); [lia|]. simpl. apply (IH _ Hv). lia.
Qed.

Ltac ends := unfold addrrange_end in *; simpl in *; lia.

(** Case analysis of the comparisons with [a]. *)
Ltac cut_ranges a :=
  repeat match goal with
         | |- context [?x <=? a] => destruct (Z.leb_spec x a)
         | |- context [a <? ?x] => destruct (Z.ltb_spec a x)
         end.

(** ** Filling the gaps *)

Section Fill.
Context (p : ptr) (mask : Z) (romd ro : bool).
#[local] Abbreviation fr := (fun o r => mkFlat p o r mask romd ro).
(** The rest of the region to place. *)
Definition rest_at (base offset remain a : Z) : option hit :=
  if (base <=? a) && (a <? base + remain) then Some (p, offset + (a - base), mask, romd, ro) else None.

Lemma get64_some x : 0 <= x < 2 ^ 64 -> int128_get64 x = Some x.
Proof. intros H. unfold int128_get64, int128_2_64. by replace (_ && _) with true by lia. Qed.
Lemma get64_inv x y : int128_get64 x = Some y -> y = x /\ 0 <= x < 2 ^ 64.
Proof. unfold int128_get64, int128_2_64. destruct (_ && _) eqn:E; [|done]. intros [= <-]. split; [done|lia]. Qed.

Lemma u64_upto x : 0 <= x <= 2 ^ 64 -> 0 <= u64 x <= x /\ (x = 2 ^ 64 \/ u64 x = x).
Proof.
  intros Hx. destruct (decide (x = 2 ^ 64)) as [->|]; [by split; [|left]|]. rewrite u64_small by (unfold is_u; lia). split; [lia|by right].
Qed.
(** One round: the gap in front of [r] and the part behind [r]. *)
Lemma fill_cons r l base offset remain v' : fill_gaps fr base offset remain (r :: l) = Some v' -> remain <> 0 -> base < addrrange_end (addr r) ->
  0 <= remain -> 0 < size (addr r) -> 0 <= offset -> offset + remain <= 2 ^ 64 ->
  let gap := Z.min remain (Z.max 0 (start (addr r) - base)) in
  let now := Z.min (base + remain) (addrrange_end (addr r)) - base in
  exists w o, fill_gaps fr (base + now) o (remain - now) l = Some w /\ 0 <= now <= remain /\ 0 <= o /\ o + (remain - now) <= 2 ^ 64 /\
    (remain - now = 0 \/ o = offset + now) /\
    v' = (if base <? start (addr r) then [fr offset (mkRange base gap)] else []) ++ r :: w.
Proof.
  cbn [fill_gaps]. intros H Hr Hb H0 Hs Ho Hsz. destruct (Z.eqb_spec remain 0); [done|].
  destruct (Z.leb_spec (addrrange_end (addr r)) base); [lia|]. unfold addrrange_end in *. cbv zeta.
  destruct (Z.ltb_spec base (start (addr r))).
  - set (gap := Z.min remain (start (addr r) - base)) in *. replace (Z.min remain (Z.max _ _)) with gap by lia.
    apply bind_Some in H as ([[[ins b1] o1] r1] & Hq & H). apply bind_Some in Hq as (n1 & [-> Hn1]%get64_inv & [= <- <- <- <-]).
    apply bind_Some in H as (n2 & [-> Hn2]%get64_inv & H). apply bind_Some in H as (w & Hw & [= <-]).
    set (now := Z.min (base + remain) (start (addr r) + size (addr r)) - base).
    replace (base + gap + (Z.min (base + gap + (remain - gap)) _ - (base + gap))) with (base + now) in Hw by lia.
    replace (remain - gap - (Z.min (base + gap + (remain - gap)) _ - (base + gap))) with (remain - now) in Hw by lia.
    exists w, (u64 (u64 (offset + gap) + (now - gap))).
    replace (Z.min (base + gap + (remain - gap)) (start (addr r) + size (addr r)) - (base + gap)) with (now - gap) in Hw by lia.
    destruct (u64_upto (offset + gap) ltac:(lia)) as [Hg1 Hg2]. destruct (u64_upto (u64 (offset + gap) + (now - gap)) ltac:(lia)) as [Hn3 Hn4].
    split; [done|]. split; [lia|]. split; [lia|]. split; [lia|]. split; [lia|done].
  - cbn [mbind option_bind] in H. apply bind_Some in H as (n2 & [-> Hn2]%get64_inv & H). apply bind_Some in H as (w & Hw & [= <-]).
    set (now := Z.min (base + remain) (start (addr r) + size (addr r)) - base) in *. exists w, (u64 (offset + now)). split; [done|].
    destruct (u64_upto (offset + now) ltac:(lia)) as [Hg1 Hg2]. split; [lia|]. split; [lia|]. split; [lia|]. split; [lia|done].
Qed.
Lemma fill_skip r l base offset remain v' : fill_gaps fr base offset remain (r :: l) = Some v' -> remain <> 0 -> addrrange_end (addr r) <= base ->
  exists w, fill_gaps fr base offset remain l = Some w /\ v' = r :: w.
Proof.
  cbn [fill_gaps]. intros H Hr Hb. destruct (Z.eqb_spec remain 0); [done|]. destruct (Z.leb_spec (addrrange_end (addr r)) base); [|lia].
  apply bind_Some in H as (w & Hw & [= <-]). by exists w.
Qed.
Lemma fill_done l base offset v' : fill_gaps fr base offset 0 l = Some v' -> v' = l.
Proof. destruct l; by intros [= <-]. Qed.

Lemma fill_ordered v : forall lo base offset remain v', fill_gaps fr base offset remain v = Some v' ->
  ordered lo v -> lo <= base \/ remain = 0 -> 0 <= remain -> 0 <= offset -> offset + remain <= 2 ^ 64 -> ordered lo v'.
Proof.
  induction v as [|r v IH]; intros lo base offset remain v' H Hv Hb Hr Ho Hsz.
  { injection H as <-. destruct (Z.eqb_spec remain 0); simpl; [done|]. repeat split; simpl; lia. }
  destruct (decide (remain = 0)) as [->|Hn]; [by rewrite (fill_done _ _ _ _ H)|]. destruct Hv as (Hl & Hs & Hv).
  destruct (Z.le_gt_cases (addrrange_end (addr r)) base) as [Hle|Hgt].
  { destruct (fill_skip _ _ _ _ _ _ H Hn Hle) as (w & Hw & ->). simpl. repeat split; [done..|]. eapply (IH _ _ _ _ _ Hw); [done|ends|lia..]. }
  destruct (fill_cons _ _ _ _ _ _ H Hn Hgt Hr Hs Ho Hsz) as (w & o & Hw & Hnow & Ho' & Hsz' & _ & ->).
  assert (ordered (addrrange_end (addr r)) w) as Hw'. { eapply (IH _ _ _ _ _ Hw); [done|ends|lia..]. }
  destruct (Z.ltb_spec base (start (addr r))); simpl; repeat split; try done; ends.
Qed.

Lemma fill_at v a : forall lo base offset remain v', fill_gaps fr base offset remain v = Some v' -> ordered lo v -> 0 <= remain ->
  0 <= offset -> offset + remain <= 2 ^ 64 -> view_at v' a = orelse (view_at v a) (rest_at base offset remain a).
Proof.
  assert (forall b o, rest_at b o 0 a = None) as Hnone. { intros b o. unfold rest_at. by replace (_ && _) with false by lia. }
  induction v as [|r v IH]; intros lo base offset remain v' H Hv Hr Ho Hsz.
  { injection H as <-. destruct (Z.eqb_spec remain 0) as [->|]; [by rewrite Hnone|]. simpl.
    unfold rest_at, range_at, addrrange_contains, addrrange_end. simpl. by rewrite orelse_none. }
  destruct (decide (remain = 0)) as [->|Hn]; [by rewrite (fill_done _ _ _ _ H), Hnone, orelse_none|]. destruct Hv as (Hl & Hs & Hv).
  destruct (Z.le_gt_cases (addrrange_end (addr r)) base) as [Hle|Hgt].
  { destruct (fill_skip _ _ _ _ _ _ H Hn Hle) as (w & Hw & ->). simpl. by rewrite (IH _ _ _ _ _ Hw Hv), orelse_assoc. }
  destruct (fill_cons _ _ _ _ _ _ H Hn Hgt Hr Hs Ho Hsz) as (w & o & Hw & Hnow & Ho' & Hsz' & Hoff & ->).
  pose proof (ordered_below _ _ a Hv) as Hbelow. rewrite view_at_app. simpl. rewrite (IH _ _ _ _ _ Hw Hv) by lia.
  set (now := Z.min (base + remain) (addrrange_end (addr r)) - base) in *.
  assert (rest_at (base + now) o (remain - now) a = rest_at (base + now) (offset + now) (remain - now) a) as ->.
  { destruct Hoff as [-> | ->]; [by rewrite !Hnone|done]. }
  clear IH Hw H Hoff Hnone. destruct (Z.ltb_spec base (start (addr r))); simpl;
    unfold rest_at, range_at, addrrange_contains, addrrange_end in *; simpl.
  all: cut_ranges a; try (rewrite Hbelow by lia); simpl; rewrite ?orelse_none;
    first [done | lia | do 5 f_equal; lia | do 6 f_equal; lia].
Qed.

(** The assertions hold if less than the 2^64 bytes are left, ... *)
Lemma fill_some v : forall lo base offset remain, ordered lo v -> 0 <= remain < 2 ^ 64 -> is_Some (fill_gaps fr base offset remain v).
Proof.
  induction v as [|r v IH]; intros lo base offset remain Hv Hr; [by eexists|]. destruct Hv as (Hl & Hs & Hv). cbn [fill_gaps].
  destruct (Z.eqb_spec remain 0); [by eexists|]. destruct (Z.leb_spec (addrrange_end (addr r)) base) as [|Hgt].
  { destruct (IH _ base offset remain Hv Hr) as [w ->]. by eexists. }
  unfold addrrange_end in *. destruct (Z.ltb_spec base (start (addr r))); cbn [mbind option_bind].
  - rewrite get64_some by lia. cbn [mbind option_bind]. rewrite get64_some by lia. cbn [mbind option_bind]. edestruct IH as [w ->]; [done| |by eexists]. lia.
  - rewrite get64_some by lia. cbn [mbind option_bind]. edestruct IH as [w ->]; [done| |by eexists]. lia.
Qed.
(** ... and also if all are, unless one range has all addresses already. *)
Lemma fill_whole v offset : ordered 0 v -> Forall (fun r => addrrange_end (addr r) <= 2 ^ 64 /\ size (addr r) < 2 ^ 64) v ->
  is_Some (fill_gaps fr 0 offset (2 ^ 64) v).
Proof.
  destruct v as [|r v]; [by eexists|]. intros (Hl & Hs & Hv) [[He Hsz] _]%Forall_cons. cbn [fill_gaps]. unfold addrrange_end in *.
  destruct (Z.eqb_spec (2 ^ 64) 0); [lia|]. destruct (Z.leb_spec (start (addr r) + size (addr r)) 0); [lia|].
  destruct (Z.ltb_spec 0 (start (addr r))); cbn [mbind option_bind].
  - rewrite get64_some by lia. cbn [mbind option_bind]. rewrite get64_some by lia. cbn [mbind option_bind]. edestruct fill_some as [w ->]; [done| |by eexists]. lia.
  - rewrite get64_some by lia. cbn [mbind option_bind]. edestruct fill_some as [w ->]; [done| |by eexists]. lia.
Qed.
End Fill.

(** ** Rendering *)

Definition sized (h : heap) : Prop := forall p m, h !! p = Some m -> 0 <= mr_size m <= 2 ^ 64.
Definition clipped {A} (clip : AddrRange) (a : Z) (x : option A) : option A :=
  if addrrange_contains clip a then x else None.
(** [v'] is [v] with what [f] answers inside the clip where [v] answers nothing. *)
Definition adds (lo : Z) (clip : AddrRange) (f : Z -> option hit) (v v' : list FlatRange) : Prop :=
  ordered lo v' /\ forall a, view_at v' a = orelse (view_at v a) (clipped clip a (f a)).

Lemma contains_spec r a : addrrange_contains r a = true <-> start r <= a < addrrange_end r.
Proof. unfold addrrange_contains. lia. Qed.
Lemma intersection_spec r1 r2 : addrrange_intersects r1 r2 = true -> 0 <= size r1 -> 0 <= size r2 ->
  0 <= size (addrrange_intersection r1 r2) /\ start r2 <= start (addrrange_intersection r1 r2) /\
  forall a, addrrange_contains (addrrange_intersection r1 r2) a = addrrange_contains r1 a && addrrange_contains r2 a.
Proof.
  unfold addrrange_intersects. rewrite orb_true_iff, !contains_spec. unfold addrrange_intersection, addrrange_end. simpl.
  intros Hi H1 H2. split; [lia|]. split; [lia|]. intros a. apply eq_true_iff_eq.
  rewrite andb_true_iff, !contains_spec. unfold addrrange_end. simpl. lia.
Qed.
Lemma intersection_start r1 r2 : addrrange_intersects r1 r2 = true -> start (addrrange_intersection r1 r2) - start r1 < Z.max 1 (size r1).
Proof. unfold addrrange_intersects. rewrite orb_true_iff, !contains_spec. unfold addrrange_intersection, addrrange_end. simpl. lia. Qed.
Lemma intersection_inside r1 r2 : start r1 <= start (addrrange_intersection r1 r2) /\
  addrrange_end (addrrange_intersection r1 r2) <= addrrange_end r1 /\ addrrange_end (addrrange_intersection r1 r2) <= addrrange_end r2.
Proof. unfold addrrange_intersection, addrrange_end. simpl. lia. Qed.
Lemma disjoint_spec r1 r2 a : addrrange_intersects r1 r2 = false -> addrrange_contains r1 a && addrrange_contains r2 a = false.
Proof.
  unfold addrrange_intersects. rewrite orb_false_iff. intros [H1 H2]. apply not_true_is_false. intros H.
  apply not_true_iff_false in H1, H2. rewrite andb_true_iff, !contains_spec in *. unfold addrrange_end in *. lia.
Qed.

Lemma fold_none {A} (g : list FlatRange -> A -> option (list FlatRange)) l :
  foldl (fun v q => view ← v; g view q) None l = None.
Proof. by induction l. Qed.
Lemma render_children lo clip (g : list FlatRange -> ptr -> option (list FlatRange)) f :
  (forall q v v', ordered lo v -> g v q = Some v' -> adds lo clip (f q) v v') ->
  forall l v v', ordered lo v -> foldl (fun v q => view ← v; g view q) (Some v) l = Some v' ->
  adds lo clip (fun a => first_hit (fun q => f q a) l) v v'.
Proof.
  intros Hg. induction l as [|q l IH]; intros v v' Hv Hl; simpl in Hl.
  - injection Hl as <-. split; [done|]. intros a. unfold clipped. destruct (addrrange_contains clip a); simpl; by rewrite orelse_none.
  - destruct (g v q) as [w|] eqn:Hw; simpl in Hl; [|by rewrite fold_none in Hl].
    destruct (Hg _ _ _ Hv Hw) as [Ow Aw]. destruct (IH _ _ Ow Hl) as [Ov Av]. split; [done|]. intros a.
    rewrite Av, Aw. unfold clipped. simpl. destruct (addrrange_contains clip a); simpl; rewrite ?orelse_none; [by rewrite orelse_assoc|done].
Qed.

(** The region itself behind its subregions. *)
Lemma adds_self lo c f v w w' p base mask romd ro : 0 <= size c -> lo <= start c -> 0 <= start c - base -> start c - base + size c <= 2 ^ 64 ->
  adds lo c f v w -> fill_gaps (fun o r => mkFlat p o r mask romd ro) (start c) (start c - base) (size c) w = Some w' ->
  adds lo c (fun a => orelse (f a) (Some (p, a - base, mask, romd, ro))) v w'.
Proof.
  intros Hs Hlo Hb Hsz [Ow Aw] Hw'. split; [eapply fill_ordered; [done|done|by left|done..]|]. intros a.
  rewrite (fill_at _ _ _ _ _ _ lo _ _ _ _ Hw') by done. rewrite Aw, orelse_assoc. f_equal. unfold rest_at, clipped, addrrange_contains, addrrange_end.
  destruct ((start c <=? a) && (a <? start c + size c)); simpl; [|done]. f_equal. do 5 f_equal. lia.
Qed.

Lemma render_adds h : sized h -> forall n lo v p base clip ro v',
  0 <= size clip -> lo <= start clip -> ordered lo v -> render_memory_region n h v p base clip ro = Some v' ->
  adds lo clip (resolve n h p base ro) v v'.
Proof.
  intros Hh. induction n as [|n IH]; intros lo v p base clip ro v' Hc Hlo Hv; simpl; [done|].
  destruct (h !! p) as [m|] eqn:Hp; simpl; [|done]. pose proof (Hh _ _ Hp) as Hm.
  assert (Hnone : forall f : Z -> option hit, (forall a, clipped clip a (f a) = None) -> adds lo clip f v v).
  { intros f Hf. split; [done|]. intros a. by rewrite Hf, orelse_none. }
  destruct (enabled m); simpl; [|intros [= <-]; apply Hnone; intros a; unfold clipped; by destruct (addrrange_contains clip a)].
  set (tmp := mkRange (base + mr_addr m) (mr_size m)).
  assert (Ht : forall a, addrrange_contains tmp a = (base + mr_addr m <=? a) && (a <? base + mr_addr m + mr_size m)) by done.
  destruct (addrrange_intersects tmp clip) eqn:Hi; simpl.
  2: { intros [= <-]. apply Hnone. intros a. unfold clipped. rewrite <-Ht. apply (disjoint_spec _ _ a) in Hi. revert Hi.
       destruct (addrrange_contains tmp a), (addrrange_contains clip a); done. }
  destruct (intersection_spec _ _ Hi) as (Hs & Hst & Hin); [simpl; lia|done|]. destruct (intersection_inside tmp clip) as (Hc1 & Hc2 & _).
  set (c := addrrange_intersection tmp clip) in *.
  change (base + mr_addr m <= start c) in Hc1. change (start c + size c <= base + mr_addr m + mr_size m) in Hc2.
  assert (Hclip : forall f : Z -> option hit, forall w, adds lo c f v w -> adds lo clip (fun a => if addrrange_contains tmp a then f a else None) v w).
  { intros f w [Ow Aw]. split; [done|]. intros a. rewrite Aw. unfold clipped. rewrite Hin.
    destruct (addrrange_contains tmp a), (addrrange_contains clip a); done. }
  destruct (alias m) as [q|].
  { destruct (h !! q) as [t|]; simpl; [|done]. intros Hr. refine (Hclip _ _ (IH lo v _ _ c _ _ Hs _ Hv Hr)). lia. }
  destruct (foldl _ (Some v) (subregions m)) as [w|] eqn:Hw; simpl; [|done].
  apply (render_children lo c _ (fun q => resolve n h q (base + mr_addr m) (ro || readonly m))) in Hw; [|intros; apply IH; [done|lia|done|done]|done].
  destruct (terminates m); simpl.
  - intros H. apply bind_Some in H as (o & [-> Ho]%get64_inv & H). apply (Hclip (fun a => orelse _ _)). eapply (adds_self _ _ _ _ _ _ _ (base + mr_addr m)); [done|lia..|exact Hw|exact H].
  - intros [= <-]. apply (Hclip (fun a => orelse _ _)). destruct Hw as [Ow Aw]. split; [done|]. intros a. rewrite Aw. by rewrite orelse_none.
Qed.

Lemma resolve_inside h n : forall p base ro a q o mask romd r, resolve n h p base ro a = Some (q, o, mask, romd, r) ->
  exists m, h !! q = Some m /\ 0 <= o < mr_size m.
Proof.
  induction n as [|n IH]; intros p base ro a q o mask romd r; simpl; [done|]. destruct (h !! p) as [m|] eqn:Hp; simpl; [|done].
  destruct (enabled m && _ && _) eqn:Hc; [|done]. destruct (alias m) as [t|].
  { destruct (h !! t); simpl; [|done]. apply IH. }
  assert (Hl : forall l x, first_hit (fun q => resolve n h q (base + mr_addr m) (ro || readonly m) a) l = Some x ->
    exists p', resolve n h p' (base + mr_addr m) (ro || readonly m) a = Some x).
  { induction l as [|p' l IHl]; intros x; simpl; [done|]. destruct (resolve n h p' _ _ _) eqn:Hr; simpl; [intros [= <-]; by exists p'|apply IHl]. }
  destruct (first_hit _ _) as [x|] eqn:Hf; simpl.
  - intros [= ->]. destruct (Hl _ _ Hf) as [p' Hp']. by apply IH in Hp'.
  - destruct (terminates m); [|done]. intros [= -> <- _ _ _]. exists m. split; [done|]. lia.
Qed.
(** Regions that form no cycle: the rank falls along aliases and subregions. *)
Definition ranked (h : heap) (rank : ptr -> nat) : Prop := forall p m, h !! p = Some m ->
  forall q, alias m = Some q \/ q ∈ subregions m -> is_Some (h !! q) /\ (rank q < rank p)%nat.

Lemma ranked_check h (r : ptr -> nat) :
  map_Forall (fun p m => Forall (fun q => is_Some (h !! q) /\ (r q < r p)%nat) (option_list (alias m) ++ subregions m)) h -> ranked h r.
Proof.
  intros H p m Hp q Hq. specialize (H p m Hp). apply (proj1 (Forall_forall _ _) H), elem_of_app. destruct Hq as [->|Hq]; [left|by right].
  by apply list_elem_of_singleton.
Qed.
Lemma ordered_forall lo v : ordered lo v -> Forall (fun x => lo <= start (addr x) /\ 0 < size (addr x)) v.
Proof.
  revert lo. induction v as [|r v IH]; intros lo; simpl; [constructor|]. intros (H1 & H2 & H3). constructor; [done|].
  apply (Forall_impl _ _ _ (IH _ H3)). intros x [? ?]. split; [ends|done].
Qed.
Lemma range_bytes lo v : ordered lo v -> Forall (fun fr => forall x, start (addr fr) <= x < addrrange_end (addr fr) ->
  view_at v x = range_at fr x) v.
Proof.
  revert lo. induction v as [|r v IH]; intros lo Hv; [constructor|]. destruct Hv as (Hlo & Hs & Hv). constructor.
  - intros x Hx. cbn [view_at]. unfold range_at. replace (addrrange_contains _ x) with true; [done|].
    symmetry. by apply contains_spec.
  - pose proof (ordered_forall _ _ Hv) as Hf. specialize (IH _ Hv). rewrite Forall_forall in *. intros fr Hfr x Hx. cbn [view_at].
    destruct (Hf fr Hfr) as [Hge _]. unfold range_at at 1. replace (addrrange_contains (addr r) x) with false; [by apply IH|].
    symmetry. apply not_true_iff_false. rewrite contains_spec. lia.
Qed.
(** The address is not answered by a region that has all 2^64 bytes. *)
Definition small (h : heap) (x : option hit) : Prop := forall q o mask romd ro m,
  x = Some (q, o, mask, romd, ro) -> h !! q = Some m -> mr_size m < 2 ^ 64.
(** A view of parts of regions, of the 2^64 addresses. *)
Definition proper (h : heap) (v : list FlatRange) : Prop := ordered 0 v /\ forall a q o mask romd ro,
  view_at v a = Some (q, o, mask, romd, ro) -> 0 <= a < 2 ^ 64 /\ exists m, h !! q = Some m /\ 0 <= o < mr_size m.
Definition inside (clip : AddrRange) : Prop := 0 <= start clip /\ 0 <= size clip /\ addrrange_end clip <= 2 ^ 64.

Lemma proper_ranges h v a : proper h v -> 0 <= a < 2 ^ 64 -> small h (view_at v a) ->
  Forall (fun r => addrrange_end (addr r) <= 2 ^ 64 /\ size (addr r) < 2 ^ 64) v.
Proof.
  intros [Ho Hv] Ha Hs. pose proof (range_bytes 0 v Ho) as Hb. pose proof (ordered_forall _ _ Ho) as Hf. rewrite Forall_forall in *. intros r Hr.
  destruct (Hf r Hr) as [H0 Hsz]. specialize (Hb r Hr).
  assert (forall x, start (addr r) <= x < addrrange_end (addr r) -> view_at v x =
    Some (mr r, offset_in_region r + (x - start (addr r)), fr_dirty_log_mask r, fr_romd_mode r, fr_readonly r)) as Hat.
  { intros x Hx. rewrite (Hb x Hx). unfold range_at. by rewrite (proj2 (contains_spec _ _) Hx). }
  clear Hb. unfold addrrange_end in *. destruct (Hv _ _ _ _ _ _ (Hat (start (addr r) + size (addr r) - 1) ltac:(lia))) as (He & m & Hm & Hoff).
  split; [lia|]. destruct (Z.lt_ge_cases (size (addr r)) (2 ^ 64)) as [|Hge]; [done|].
  destruct (Hv _ _ _ _ _ _ (Hat (start (addr r)) ltac:(lia))) as (_ & m' & Hm' & Hoff'). rewrite Hm in Hm'. injection Hm' as <-.
  pose proof (Hs _ _ _ _ _ _ (Hat a ltac:(lia)) Hm). lia.
Qed.
Lemma proper_adds h n clip p base ro v v' : inside clip -> proper h v -> adds 0 clip (resolve n h p base ro) v v' -> proper h v'.
Proof.
  intros (H1 & H2 & H3) [_ Hv] [Ho Ha]. split; [done|]. intros a q o mask romd ro' H. rewrite Ha in H. specialize (Hv a q o mask romd ro').
  destruct (view_at v a) as [x|]; simpl in H; [by apply Hv|]. unfold clipped in H. destruct (addrrange_contains clip a) eqn:Hc; [|done].
  apply contains_spec in Hc. split; [lia|]. by eapply resolve_inside.
Qed.
Lemma small_split h (x y z : option hit) : small h (orelse x (orelse y z)) -> small h (orelse x y).
Proof. destruct x, y; simpl; [done..|]. by intros _ q. Qed.
Lemma clipped_orelse {A} clip a (x y : option A) : clipped clip a (orelse x y) = orelse (clipped clip a x) (clipped clip a y).
Proof. unfold clipped. by destruct (addrrange_contains clip a). Qed.

(** All subregions, one by one. *)
Lemma children_return h n clip base ro a (P : ptr -> Prop) : sized h -> inside clip ->
  (forall v q, proper h v -> small h (orelse (view_at v a) (clipped clip a (resolve n h q base ro a))) ->
    P q -> is_Some (render_memory_region n h v q base clip ro)) ->
  forall l v, Forall P l -> proper h v ->
  small h (orelse (view_at v a) (clipped clip a (first_hit (fun q => resolve n h q base ro a) l))) ->
  exists w, foldl (fun v q => view ← v; render_memory_region n h view q base clip ro) (Some v) l = Some w /\ proper h w /\
    view_at w a = orelse (view_at v a) (clipped clip a (first_hit (fun q => resolve n h q base ro a) l)).
Proof.
  intros Hh Hc IH. induction l as [|q l IHl]; intros v Hl Hv Hs.
  { exists v. split; [done|]. split; [done|]. unfold clipped. simpl. destruct (addrrange_contains clip a); by rewrite orelse_none. }
  apply Forall_cons in Hl as [Hq Hl]. cbn [first_hit] in *. rewrite clipped_orelse in *.
  destruct (IH v q Hv (small_split _ _ _ _ Hs) Hq) as [w Hw].
  pose proof (render_adds h Hh n 0 v q base clip ro w (proj1 (proj2 Hc)) (proj1 Hc) (proj1 Hv) Hw) as Ha.
  cbn [foldl mbind option_bind]. rewrite Hw. rewrite <- orelse_assoc in *. pose proof (proj2 Ha a) as E. rewrite <- E in *.
  apply IHl; [done|by eapply proper_adds|done].
Qed.

Lemma render_returns h rank a : sized h -> ranked h rank -> 0 <= a < 2 ^ 64 -> forall n v p base clip ro, inside clip -> proper h v ->
  small h (orelse (view_at v a) (clipped clip a (resolve n h p base ro a))) ->
  is_Some (h !! p) -> (rank p < n)%nat -> is_Some (render_memory_region n h v p base clip ro).
Proof.
  intros Hh Hr Ha. induction n as [|n IH]; intros v p base clip ro Hc Hv Hs [m Hp] Hn; [lia|]. pose proof (Hh _ _ Hp) as Hm.
  cbn [render_memory_region resolve] in *. rewrite Hp in *. cbn [mbind option_bind] in *. destruct (enabled m); simpl negb in *; [|done]. cbn [andb] in Hs.
  set (tmp := mkRange (base + mr_addr m) (mr_size m)) in *. destruct (addrrange_intersects tmp clip) eqn:Hi; simpl negb; [|done].
  destruct Hc as (C1 & C2 & C3). destruct (intersection_spec _ _ Hi) as (I1 & I2 & I3); [simpl; lia|done|]. destruct (intersection_inside tmp clip) as (I4 & I5 & I6).
  set (c := addrrange_intersection tmp clip) in *. assert (inside c) as Hc by (unfold inside; lia).
  assert (forall x : option hit, clipped clip a (if addrrange_contains tmp a then x else None) = clipped c a x) as Hx.
  { intros x. unfold clipped. rewrite I3. by destruct (addrrange_contains tmp a), (addrrange_contains clip a). }
  change ((base + mr_addr m <=? a) && (a <? base + mr_addr m + mr_size m)) with (addrrange_contains tmp a) in Hs. rewrite Hx in Hs.
  destruct (alias m) as [q|] eqn:Hal.
  { destruct (Hr _ _ Hp q (or_introl Hal)) as [[t Ht] Hq]. rewrite Ht in *. apply IH; [done|done|done|by exists t|lia]. }
  rewrite clipped_orelse in Hs.
  destruct (children_return h n c (base + mr_addr m) (ro || readonly m) a (fun q => q ∈ subregions m) Hh Hc) with (l := subregions m) (v := v)
    as (w & Hw & Pw & Aw).
  { intros v' q Pv Hsq Hq. destruct (Hr _ _ Hp q (or_intror Hq)) as [Hq1 Hq2]. apply IH; [done..|lia]. }
  { by apply Forall_forall. }
  { done. }
  { by eapply small_split. }
  rewrite Hw. cbn [mbind option_bind]. destruct (terminates m); simpl negb; cbn iota; [|done].
  pose proof (intersection_start _ _ Hi) as I7. fold c in I7. change (start c - (base + mr_addr m) < Z.max 1 (mr_size m)) in I7.
  change (base + mr_addr m <= start c) in I4. change (start c + size c <= base + mr_addr m + mr_size m) in I5.
  rewrite get64_some by lia. cbn [mbind option_bind]. destruct (Z.lt_ge_cases (size c) (2 ^ 64)) as [Hlt|Hge]; [by eapply fill_some; [apply Pw|]|].
  destruct Hc as (D1 & D2 & D3). unfold addrrange_end in D3. replace (start c) with 0 at 1 by lia. replace (size c) with (2 ^ 64) by lia.
  apply fill_whole; [apply Pw|]. eapply proper_ranges; [done|exact Ha|]. rewrite Aw. rewrite <- orelse_assoc in Hs. 
  intros q o mask romd ro' mq Hq. apply (Hs q o mask romd ro'). by rewrite Hq.
Qed.

(** ** Merging *)

(** [acc] ends as [prev] does and continues in the same way. *)
Definition continues (acc prev : FlatRange) : Prop :=
  addrrange_end (addr acc) = addrrange_end (addr prev) /\ mr acc = mr prev /\
  offset_in_region acc + size (addr acc) = offset_in_region prev + size (addr prev) /\
  fr_dirty_log_mask acc = fr_dirty_log_mask prev /\ fr_romd_mode acc = fr_romd_mode prev /\ fr_readonly acc = fr_readonly prev.
(** No two neighbours can be merged. *)
Fixpoint merged (v : list FlatRange) : Prop :=
  match v with
  | [] => True
  | r :: l => match l with [] => True | r' :: _ => can_merge r r' = false end /\ merged l
  end.

Lemma can_merge_spec r1 r2 : can_merge r1 r2 = true <->
  addrrange_end (addr r1) = start (addr r2) /\ mr r1 = mr r2 /\ offset_in_region r1 + size (addr r1) = offset_in_region r2 /\
  fr_dirty_log_mask r1 = fr_dirty_log_mask r2 /\ fr_romd_mode r1 = fr_romd_mode r2 /\ fr_readonly r1 = fr_readonly r2.
Proof. unfold can_merge. rewrite !andb_true_iff, !Z.eqb_eq, bool_decide_eq_true, !Bool.eqb_true_iff. tauto. Qed.

Lemma continues_merge acc prev r : continues acc prev -> can_merge prev r = true ->
  continues acc.[addr := (addr acc).[size := size (addr acc) + size (addr r)]] r.
Proof.
  rewrite can_merge_spec. unfold continues, addrrange_end. simpl. intros (? & ? & ? & ? & ? & ?) (? & ? & ? & ? & ? & ?).
  repeat split; try congruence; lia.
Qed.
Lemma range_at_merge acc prev r a : continues acc prev -> can_merge prev r = true -> 0 < size (addr acc) -> 0 < size (addr r) ->
  range_at acc.[addr := (addr acc).[size := size (addr acc) + size (addr r)]] a = orelse (range_at acc a) (range_at r a).
Proof.
  rewrite can_merge_spec. unfold continues, range_at, addrrange_contains, addrrange_end. simpl.
  intros (? & -> & ? & -> & -> & ->) (? & -> & ? & -> & -> & ->) ? ?. cut_ranges a; simpl; first [done|lia|do 5 f_equal; lia].
Qed.

Lemma continues_can_merge acc prev r : continues acc prev -> can_merge acc r = can_merge prev r.
Proof.
  intros (H1 & H2 & H3 & H4 & H5 & H6). apply eq_true_iff_eq. rewrite !can_merge_spec, H1, H2, H3, H4, H5, H6. done.
Qed.

(** The head of a simplified view begins as the view did. *)
Lemma simplify_head l : forall acc prev, exists r v, simplify_from acc prev l = r :: v /\ forall s, can_merge s r = can_merge s acc.
Proof.
  induction l as [|r l IH]; intros acc prev; simpl; [by exists acc, []|]. destruct (can_merge prev r); [|by eexists acc, _].
  destruct (IH acc.[addr := (addr acc).[size := size (addr acc) + size (addr r)]] r) as (x & v & -> & Hx).
  exists x, v. split; [done|]. intros s. by rewrite Hx.
Qed.
Lemma simplify_ok l : forall lo acc prev, continues acc prev -> ordered lo (acc :: l) ->
  let v := simplify_from acc prev l in ordered lo v /\ merged v /\ forall a, view_at v a = view_at (acc :: l) a.
Proof.
  induction l as [|r l IH]; intros lo acc prev Hc (Hlo & Hs & Hl); simpl; [done|]. destruct Hl as (Hr & Hrs & Hl).
  destruct (can_merge prev r) eqn:Hm.
  - destruct (IH lo _ _ (continues_merge _ _ _ Hc Hm)) as (Ho & Hg & Ha).
    { simpl. pose proof (proj1 (can_merge_spec _ _) Hm) as (He & _). destruct Hc as [Hc _].
      unfold addrrange_end in *; simpl in *. repeat split; [done|lia|]. by replace (start (addr acc) + _) with (start (addr r) + size (addr r)) by lia. }
    split; [done|]. split; [done|]. intros a. rewrite Ha. simpl. rewrite (range_at_merge _ _ _ _ Hc Hm) by done. by rewrite orelse_assoc.
  - destruct (IH (addrrange_end (addr acc)) r r) as (Ho & Hg & Ha); [done|done|].
    split; [done|]. split; [|intros a; simpl; by rewrite Ha].
    destruct (simplify_head l r r) as (x & v & Hx & Hs'). rewrite Hx in *. split; [|done].
    by rewrite Hs', (continues_can_merge _ _ _ Hc).
Qed.

(** Some address is not answered by a region of 2^64 bytes; two such regions
    over each other fail an assertion. *)
Definition spare (n : nat) (h : heap) (root : ptr) : Prop := exists a, 0 <= a < 2 ^ 64 /\ small h (resolve n h root 0 false a).
Lemma proper_nil h : proper h [].
Proof. by split. Qed.
Lemma topology_ok h rank root n :
  sized h -> ranked h rank -> is_Some (h !! root) -> (rank root < n)%nat -> spare n h root ->
  exists v, generate_memory_topology n h root = Some v /\ ordered 0 v /\ merged v /\
    forall a, 0 <= a < 2 ^ 64 -> view_at v a = resolve n h root 0 false a.
Proof.
  intros Hh Hr Hroot Hn (a0 & Ha0 & Hs). unfold generate_memory_topology.
  assert (Hc : forall a, 0 <= a < 2 ^ 64 -> addrrange_contains (mkRange 0 int128_2_64) a = true).
  { intros a Hb. apply contains_spec. unfold addrrange_end, int128_2_64. simpl. lia. }
  destruct (render_returns h rank a0 Hh Hr Ha0 n [] root 0 (mkRange 0 int128_2_64) false) as [v Hv]; [done|apply proper_nil| |done|done|].
  { simpl. unfold clipped. by rewrite Hc. }
  rewrite Hv. cbn [mbind option_bind].
  destruct (render_adds h Hh n 0 [] root 0 (mkRange 0 int128_2_64) false v) as [Ho Ha]; [done|done|done|done|].
  exists (flatview_simplify v). split; [done|]. destruct v as [|r v]; simpl.
  - split; [done|]. split; [done|]. intros a Hb. specialize (Ha a). simpl in Ha. rewrite Ha. unfold clipped. by rewrite Hc.
  - destruct (simplify_ok v 0 r r) as (Ho' & Hm & Ha'); [done|done|]. split; [done|]. split; [done|]. intros a Hb.
    rewrite Ha', Ha. simpl. unfold clipped. by rewrite Hc.
Qed.
(** C5. If the regions form no cycle and not every address is answered by a region of all 2^64 bytes, generating the
    view returns, with no assertion failing; the view is ordered, disjoint and as short as merging makes it, and each
    of the 2^64 addresses is answered by the region that answers it in the tree: the first subregion that does, the
    target of an alias, or the region itself. *)
Theorem topology_resolves h rank root n :
  sized h -> ranked h rank -> is_Some (h !! root) -> (rank root < n)%nat -> spare n h root ->
  exists v, generate_memory_topology n h root = Some v /\ ordered 0 v /\ merged v /\
    forall a, 0 <= a < 2 ^ 64 -> view_at v a = resolve n h root 0 false a.
Proof. apply topology_ok. Qed.

(** Regions with memory or operations of less than 2^64 bytes. *)
Definition bounded (h : heap) : Prop := forall p m, h !! p = Some m -> terminates m = true -> mr_size m < 2 ^ 64.
Lemma resolve_terminates h n : forall p base ro a q o mask romd r m, resolve n h p base ro a = Some (q, o, mask, romd, r) ->
  h !! q = Some m -> terminates m = true.
Proof.
  induction n as [|n IH]; intros p base ro a q o mask romd r m H Hq; [done|]. cbn [resolve] in H.
  apply bind_Some in H as (m' & Hm & H). destruct (_ && _); [|done]. destruct (alias m') as [t|].
  { apply bind_Some in H as (mt & _ & H). by eapply IH. }
  destruct (first_hit _ _) as [x|] eqn:Hf; simpl in H.
  - injection H as ->. induction (subregions m') as [|p' l IHl]; [done|]. simpl in Hf.
    destruct (resolve n h p' _ _ _) eqn:Hr; simpl in Hf; [|by apply IHl]. injection Hf as ->. by eapply IH.
  - destruct (terminates m') eqn:Ht; [|done]. injection H as -> _ _ _ _. rewrite Hm in Hq. by injection Hq as <-.
Qed.
Lemma bounded_spare n h root : bounded h -> spare n h root.
Proof. intros Hb. exists 0. split; [lia|]. intros q o mask romd ro m Hq Hm. eapply Hb; [done|]. by eapply resolve_terminates. Qed.
(** Two regions of 2^64 bytes over each other: the assertion fails. *)
Lemma overlapping_abort h : h = <[1%positive := (memory_region_init UINT64_MAX).[subregions := [2%positive; 3%positive]]]>
    (<[2%positive := memory_region_init_io UINT64_MAX]> (<[3%positive := memory_region_init_io UINT64_MAX]> ∅)) ->
  generate_memory_topology 2 h 1%positive = None /\
  is_Some (generate_memory_topology 2 (<[1%positive := (memory_region_init UINT64_MAX).[subregions := [2%positive]]]> h) 1%positive).
Proof. intros ->. split; [by vm_compute|by eexists; vm_compute]. Qed.

(** ** Lookups *)

Lemma intersects_spec r1 r2 : 0 < size r1 -> 0 < size r2 ->
  addrrange_intersects r1 r2 = true <-> start r1 < addrrange_end r2 /\ start r2 < addrrange_end r1.
Proof. intros H1 H2. unfold addrrange_intersects. rewrite orb_true_iff, !contains_spec. unfold addrrange_end. lia. Qed.

Lemma ordered_app lo l1 r l2 : ordered lo (l1 ++ r :: l2) ->
  Forall (fun x => 0 < size (addr x) /\ addrrange_end (addr x) <= start (addr r)) l1 /\ ordered (start (addr r)) (r :: l2) /\ lo <= start (addr r).
Proof.
  revert lo. induction l1 as [|x l1 IH]; intros lo; simpl.
  - intros (H1 & H2 & H3). repeat split; [constructor|lia|done|done|done].
  - intros (H1 & H2 & H3). destruct (IH _ H3) as (Hf & Ho & Hl). split; [|split; [done|ends]].
    constructor; [|done]. split; [done|]. ends.
Qed.
Lemma cmp_spec r fr : 0 < size r -> 0 < size (addr fr) ->
  cmp_flatrange_addr r fr = 0 <-> addrrange_intersects (addr fr) r = true.
Proof.
  intros H1 H2. rewrite intersects_spec by done. unfold cmp_flatrange_addr.
  destruct (Z.leb_spec (addrrange_end r) (start (addr fr))); [lia|].
  destruct (Z.leb_spec (addrrange_end (addr fr)) (start r)); lia.
Qed.
(** ** The ends of a view *)

Lemma topology_outside n h root v x : sized h -> generate_memory_topology n h root = Some v -> ~ 0 <= x < 2 ^ 64 ->
  view_at v x = None.
Proof.
  intros Hh Hv Hx. unfold generate_memory_topology in Hv. apply bind_Some in Hv as (w & Hw & [= <-]).
  destruct (render_adds h Hh n 0 [] root 0 (mkRange 0 int128_2_64) false w) as [Ho Ha]; [done..|].
  assert (view_at w x = None) as Hn.
  { rewrite Ha. simpl. unfold clipped. destruct (addrrange_contains _ x) eqn:E; [|done].
    apply contains_spec in E. unfold addrrange_end, int128_2_64 in E. simpl in E. lia. }
  destruct w as [|r w]; [done|]. simpl. destruct (simplify_ok w 0 r r) as (_ & _ & E); [done|done|]. by rewrite E.
Qed.
Lemma topology_starts n h root v : sized h -> generate_memory_topology n h root = Some v -> ordered 0 v ->
  Forall (fun fr => is_u 64 (start (addr fr))) v.
Proof.
  intros Hh Hv Ho. pose proof (range_bytes 0 v Ho) as Hb. pose proof (ordered_forall _ _ Ho) as Hf. rewrite Forall_forall in *. intros fr Hfr.
  destruct (Hf fr Hfr) as [H0 Hs]. specialize (Hb fr Hfr (start (addr fr))). unfold is_u.
  destruct (decide (0 <= start (addr fr) < 2 ^ 64)) as [|Hout]; [done|]. rewrite (topology_outside _ _ _ _ _ Hh Hv Hout) in Hb.
  unfold range_at, addrrange_contains, addrrange_end in Hb. rewrite Z.leb_refl in Hb. replace (_ <? _) with true in Hb by lia. by specialize (Hb ltac:(lia)).
Qed.

Lemma cmp_sorted r lo v : 0 < size r -> ordered lo v ->
  StronglySorted (fun x y => cmp_flatrange_addr r y <= cmp_flatrange_addr r x) v.
Proof.
  intros Hr. revert lo. induction v as [|x v IH]; intros lo; simpl; [constructor|]. intros (H1 & H2 & H3).
  constructor; [by apply (IH _ H3)|]. apply (Forall_impl _ _ _ (ordered_forall _ _ H3)). intros y [Hy Hs].
  unfold cmp_flatrange_addr. unfold addrrange_end in *.
  repeat match goal with |- context [?a <=? ?b] => destruct (Z.leb_spec a b) end; lia.
Qed.

Lemma first_range_spec lo v r : 0 < size r -> ordered lo v -> forall k fr, v !! k = Some fr -> addrrange_intersects (addr fr) r = true ->
  exists l1 fr' l2, v = l1 ++ fr' :: l2 /\ v !! first_range v r k = Some fr' /\ addrrange_intersects (addr fr') r = true /\
    Forall (fun x => addrrange_end (addr x) <= start r) l1.
Proof.
  intros Hr Hv. induction k as [|k IH]; intros fr Hk Hi; simpl.
  - destruct v as [|x v]; [done|]. injection Hk as ->. exists [], fr, v. repeat split; done.
  - destruct (v !! k) as [g|] eqn:Hg; [|apply lookup_ge_None in Hg; apply lookup_lt_Some in Hk; lia].
    destruct (addrrange_intersects (addr g) r) eqn:Hgi; [by apply (IH g)|].
    pose proof (take_drop_middle _ _ _ Hk) as Hsplit. rewrite (take_S_r _ _ _ Hg) in Hsplit.
    exists (take k v ++ [g]), fr, (drop (S (S k)) v). split; [done|]. split; [done|]. split; [done|].
    pose proof Hv as Hv'. rewrite <-Hsplit in Hv'. destruct (ordered_app _ _ _ _ Hv') as (Hf & (_ & Hs & _) & _).
    apply Forall_app in Hf as [_ Hf]. inversion Hf as [|? ? [Hgs Hge] _]; subst.
    rewrite <-app_assoc in Hv'. simpl in Hv'. destruct (ordered_app _ _ _ _ Hv') as (Hf' & _ & _).
    apply not_true_iff_false in Hgi. rewrite intersects_spec in Hi, Hgi by done. unfold addrrange_end in *.
    apply Forall_app. split; [apply (Forall_impl _ _ _ Hf'); intros x [? ?]; lia|]. constructor; [lia|constructor].
Qed.

Lemma view_at_before v a : Forall (fun x => addrrange_end (addr x) <= a) v -> view_at v a = None.
Proof.
  induction 1 as [|x v Hx _ IH]; simpl; [done|]. rewrite IH. unfold range_at.
  destruct (addrrange_contains (addr x) a) eqn:Hc; [|done]. apply contains_spec in Hc. lia.
Qed.
Lemma view_at_none lo v r : 0 < size r -> ordered lo v -> Forall (fun x => addrrange_intersects (addr x) r <> true) v ->
  forall a, addrrange_contains r a = true -> view_at v a = None.
Proof.
  intros Hr Hv Hf a Ha. apply contains_spec in Ha. revert lo Hv. induction Hf as [|x v Hx _ IH]; intros lo; simpl; [done|].
  intros (H1 & H2 & H3). rewrite (IH _ H3), orelse_none. unfold range_at. destruct (addrrange_contains (addr x) a) eqn:Hc; [|done].
  apply contains_spec in Hc. rewrite intersects_spec in Hx by done. lia.
Qed.

(** The first part of the range [r] that the view answers, as [s]: nothing
    before it is answered, and all of it by one region in a row. *)
Definition first_part (ask : Z -> option hit) (r : AddrRange) (s : MemoryRegionSection) : Prop :=
  let o := offset_within_address_space s in
  start r <= o /\ 0 < sec_size s /\ o + sec_size s <= addrrange_end r /\ (forall b, start r <= b < o -> ask b = None) /\
  exists mask romd, forall k, 0 <= k < sec_size s -> ask (o + k) = Some (sec_mr s, offset_within_region s + k, mask, romd, sec_readonly s).

Lemma split_part lo l1 fr l2 r : 0 < size r -> ordered lo (l1 ++ fr :: l2) -> addrrange_intersects (addr fr) r = true ->
  Forall (fun x => addrrange_end (addr x) <= start r) l1 ->
  let c := addrrange_intersection r (addr fr) in
  first_part (view_at (l1 ++ fr :: l2)) r
    (mkSection (mr fr) (offset_in_region fr + (start c - start (addr fr))) (size c) (start c) (fr_readonly fr)).
Proof.
  intros Hr Hv Hi Hf. destruct (ordered_app _ _ _ _ Hv) as (_ & (_ & Hs & Ho) & _). simpl.
  rewrite intersects_spec in Hi by done. unfold first_part. simpl. unfold addrrange_end in *.
  assert (Hat : forall b, start r <= b < start r + size r -> view_at (l1 ++ fr :: l2) b = orelse (range_at fr b) (view_at l2 b)).
  { intros b Hb. rewrite view_at_app, (view_at_before l1); [done|]. apply (Forall_impl _ _ _ Hf). intros x. unfold addrrange_end. lia. }
  split; [lia|]. split; [lia|]. split; [lia|]. split.
  - intros b Hb. rewrite Hat by lia. rewrite (ordered_below _ _ b Ho), orelse_none by lia.
    unfold range_at, addrrange_contains, addrrange_end. cut_ranges b; simpl; try done; lia.
  - exists (fr_dirty_log_mask fr), (fr_romd_mode fr). intros k Hk. rewrite Hat by lia.
    unfold range_at. rewrite (proj2 (contains_spec _ _)) by (unfold addrrange_end; lia). simpl. do 5 f_equal. lia.
Qed.

(** The offset a region answers at is inside it. *)

Lemma to_root_range k h : forall p a root a', to_root k h p a = Some (root, a') -> 0 <= a' < 2 ^ 64.
Proof.
  induction k as [|k IH]; intros p a root a'; simpl; [done|]. destruct (h !! p) as [m|]; simpl; [|done].
  destruct (parent m); [apply IH|]. intros [= _ <-]. apply is_u_u64.
Qed.

(** C21. Finding a range of addresses in a region, for any searching library that keeps its promise, in regions that form no
    cycle and of which none of 2^64 bytes answers every address: it is looked up in the view of the
    region's root at the sum of the offsets on the way, and the section returned is the first part of the range
    that any region answers, with the region that does and the offset in it; if there is none, no address of
    the range is answered. *)
Theorem find_resolves `{!BSearch} h rank n k p a sz root a' :
  (forall q m, h !! q = Some m -> 0 <= mr_size m <= 2 ^ 64) -> ranked h rank -> is_Some (h !! root) -> (rank root < n)%nat -> spare n h root ->
  to_root k h p a = Some (root, a') -> 0 < sz -> a' + sz <= 2 ^ 64 ->
  exists r, memory_region_find k h (generate_memory_topology n h) p a sz = Some r /\
    match r with
    | None => forall b, a' <= b < a' + sz -> resolve n h root 0 false b = None
    | Some s => first_part (resolve n h root 0 false) (mkRange a' sz) s
    end.
Proof.
  intros Hh Hr Hroot Hn Hspare Hto Hsz Hend. pose proof (to_root_range _ _ _ _ _ _ Hto) as Ha.
  destruct (topology_ok h rank root n) as (v & Hv & Ho & _ & Hat); [done..|].
  unfold memory_region_find. rewrite Hto. simpl. rewrite Hv. simpl. unfold flatview_lookup.
  destruct (bsearch (cmp_flatrange_addr (mkRange a' sz)) v) as [j|] eqn:Hj.
  - destruct (bsearch_found _ _ _ Hj) as (fr & Hfr & Hc).
    pose proof (proj2 (proj1 (Forall_lookup _ _) (ordered_forall _ _ Ho) _ _ Hfr)) as Hfs. apply cmp_spec in Hc; [|done|done].
    destruct (first_range_spec 0 v (mkRange a' sz) Hsz Ho j fr Hfr Hc) as (l1 & fr' & l2 & -> & Hk & Hi & Hf). rewrite Hk. simpl.
    pose proof (split_part _ _ _ _ (mkRange a' sz) Hsz Ho Hi Hf) as (Q1 & Q2 & Q3 & Q4 & mask & romd & Q5). unfold addrrange_end in Q3; simpl in *. set (c := Z.max a' (start (addr fr'))) in *.
    pose proof (Q5 0 ltac:(lia)) as Q0. rewrite Hat in Q0 by lia. apply resolve_inside in Q0 as (m & Hm & Hoff). apply Hh in Hm.
    eexists. split; [reflexivity|]. rewrite u64_small by (unfold is_u; lia).
    split; [done|]. split; [done|]. split; [done|]. split; [intros b Hb; rewrite <-Hat by (simpl in *; lia); by apply Q4|].
    exists mask, romd. simpl. intros k0 Hk0. rewrite <-Hat by lia. by apply Q5.
  - exists None. split; [done|]. intros b Hb. rewrite <-Hat by lia.
    pose proof (bsearch_complete _ _ (cmp_sorted (mkRange a' sz) _ _ Hsz Ho) Hj) as Hf.
    apply (view_at_none 0 v (mkRange a' sz) Hsz Ho); [|apply contains_spec; unfold addrrange_end; simpl; lia].
    apply Forall_lookup. intros i x Hx Hi. pose proof (proj2 (proj1 (Forall_lookup _ _) (ordered_forall _ _ Ho) _ _ Hx)) as Hxs.
    apply (proj1 (Forall_lookup _ _) Hf _ _ Hx). by apply cmp_spec.
Qed.

(** ** Accesses split to the size a device implements *)

Lemma foldl_steps {A} (P : Z -> A -> Prop) (f : A -> Z -> A) n q a0 : 0 <= q -> P 0 a0 ->
  (forall k a, 0 <= k < q -> P k a -> P (k + 1) (f a (k * n))) -> P q (foldl f a0 ((fun k => k * n) <$> seqZ 0 q)).
Proof.
  intros Hq H0 Hs. assert (H : forall m, 0 <= m -> m <= q -> P m (foldl f a0 ((fun k => k * n) <$> seqZ 0 m))); [|by apply H].
  apply (natlike_ind (fun m => m <= q -> _)); [done|]. intros m Hm IH Hmq. unfold Z.succ.
  rewrite seqZ_app, fmap_app, foldl_app by lia. replace (seqZ (0 + m) 1) with [m] by (by rewrite Z.add_0_l). simpl.
  apply Hs; [lia|]. apply IH. lia.
Qed.

(** The word of [n] bytes of [f] from [a] on. *)
Fixpoint le_word (f : Z -> Z) (a : Z) (n : nat) : Z :=
  match n with O => 0 | S n => f a + 2 ^ 8 * le_word f (a + 1) n end.
Fixpoint be_word (f : Z -> Z) (a : Z) (n : nat) : Z :=
  match n with O => 0 | S n => f a * 2 ^ (8 * Z.of_nat n) + be_word f (a + 1) n end.

Section Words.
Context (f : Z -> Z) (Hf : forall a, 0 <= f a < 2 ^ 8).
Lemma le_word_range n : forall a, 0 <= le_word f a n < 2 ^ (8 * Z.of_nat n).
Proof.
  induction n as [|n IH]; intros a; simpl le_word; [done|]. pose proof (Hf a). pose proof (IH (a + 1)).
  replace (8 * Z.of_nat (S n)) with (8 + 8 * Z.of_nat n) by lia. rewrite Z.pow_add_r by lia. nia.
Qed.
Lemma be_word_range n : forall a, 0 <= be_word f a n < 2 ^ (8 * Z.of_nat n).
Proof.
  induction n as [|n IH]; intros a; simpl be_word; [done|]. pose proof (Hf a). pose proof (IH (a + 1)).
  replace (8 * Z.of_nat (S n)) with (8 + 8 * Z.of_nat n) by lia. rewrite Z.pow_add_r by lia. nia.
Qed.
Lemma le_word_app m n : forall a, le_word f a (m + n) = le_word f a m + 2 ^ (8 * Z.of_nat m) * le_word f (a + Z.of_nat m) n.
Proof.
  induction m as [|m IH]; intros a; simpl le_word.
  - replace (a + Z.of_nat 0) with a by lia. change (2 ^ (8 * Z.of_nat 0)) with 1. lia.
  - rewrite IH. replace (8 * Z.of_nat (S m)) with (8 + 8 * Z.of_nat m) by lia. rewrite Z.pow_add_r by lia.
    replace (a + 1 + Z.of_nat m) with (a + Z.of_nat (S m)) by lia. lia.
Qed.
Lemma be_word_app m n : forall a, be_word f a (m + n) = be_word f a m * 2 ^ (8 * Z.of_nat n) + be_word f (a + Z.of_nat m) n.
Proof.
  induction m as [|m IH]; intros a; simpl be_word.
  - replace (a + Z.of_nat 0) with a by lia. lia.
  - rewrite IH. replace (8 * Z.of_nat (m + n)) with (8 * Z.of_nat m + 8 * Z.of_nat n) by lia. rewrite Z.pow_add_r by lia.
    replace (a + 1 + Z.of_nat m) with (a + Z.of_nat (S m)) by lia. lia.
Qed.
(** Swapping the bytes of a big-endian word. *)
Lemma bswap_be n : forall a, bswap n (be_word f a n) = le_word f a n.
Proof.
  induction n as [|n IH]; intros a; [done|]. cbn [bswap].
  replace (be_word f a (S n)) with (be_word f a (n + 1)) by (f_equal; lia). rewrite be_word_app.
  simpl (be_word f (a + Z.of_nat n) 1). rewrite Z.mul_1_r, Z.add_0_r. change (8 * Z.of_nat 1) with 8.
  pose proof (Hf (a + Z.of_nat n)) as Hb.
  rewrite (Z.land_ones _ 8), Z.add_comm, Z.mod_add, Z.mod_small by lia.
  rewrite Z.shiftr_div_pow2, Z.div_add, Z.div_small, Z.add_0_l, IH by lia.
  replace (S n) with (n + 1)%nat by lia. rewrite le_word_app, lor_shiftl_add by (try lia; apply le_word_range).
  simpl. lia.
Qed.
End Words.

Definition word_sizes : list Z := [1; 2; 4; 8].
(** The size of the single accesses divides that of the access. *)
Lemma access_size_divides sz lo hi : sz ∈ word_sizes -> lo ∈ 0 :: word_sizes -> hi ∈ 0 :: word_sizes -> lo <= sz ->
  access_size sz lo hi ∈ word_sizes /\ exists q, 1 <= q /\ sz = q * access_size sz lo hi.
Proof.
  intros Hsz Hlo Hhi Hle.
  assert (Hb : forallb (fun sz => forallb (fun lo => forallb (fun hi => (sz <? lo) ||
    let n := access_size sz lo hi in bool_decide (n ∈ word_sizes) && (1 <=? sz / n) && (sz =? sz / n * n))
    (0 :: word_sizes)) (0 :: word_sizes)) word_sizes = true) by by vm_compute.
  rewrite forallb_forall in Hb. specialize (Hb sz (proj1 (list_elem_of_In _ _) Hsz)). rewrite forallb_forall in Hb.
  specialize (Hb lo (proj1 (list_elem_of_In _ _) Hlo)). rewrite forallb_forall in Hb.
  specialize (Hb hi (proj1 (list_elem_of_In _ _) Hhi)). destruct (Z.ltb_spec sz lo); [lia|]. simpl in Hb.
  apply andb_true_iff in Hb as [Hb Hq]. apply andb_true_iff in Hb as [Hn H1]. apply bool_decide_eq_true in Hn.
  split; [done|]. exists (sz / access_size sz lo hi). lia.
Qed.
Lemma steps_exact q n : 1 <= n -> 0 <= q -> steps (q * n) n = (fun k => k * n) <$> seqZ 0 q.
Proof.
  intros Hn Hq. unfold steps. do 2 f_equal. replace (q * n + n - 1) with (q * n + (n - 1)) by lia.
  rewrite Z.add_comm, Z.div_add, Z.div_small by lia. lia.
Qed.
Lemma access_mask_ones n : n ∈ word_sizes -> access_mask n = Z.ones (8 * n).
Proof. unfold word_sizes. rewrite !elem_of_cons, elem_of_nil. by intros [->|[->|[->|[->|[]]]]]. Qed.
Lemma word_size_range n : n ∈ word_sizes -> 1 <= n <= 8.
Proof. unfold word_sizes. rewrite !elem_of_cons, elem_of_nil. lia. Qed.

(** A part above what is read already, and one below. *)
Lemma lor_above W w m n : 0 <= m -> 0 <= n -> m + n <= 8 -> 0 <= W < 2 ^ (8 * m) -> 0 <= w < 2 ^ (8 * n) ->
  W .| u64 (w .<< (m * 8)) = W + 2 ^ (8 * m) * w.
Proof.
  intros Hm Hn Hs HW Hw. pose proof (Z.pow_le_mono_r 2 (8 * m + 8 * n) 64 ltac:(lia) ltac:(lia)) as Hp. rewrite Z.pow_add_r in Hp by lia.
  rewrite Z.shiftl_mul_pow2, (Z.mul_comm m 8) by lia. rewrite u64_small by (unfold is_u; nia).
  rewrite <-Z.shiftl_mul_pow2, Z.lor_comm, lor_shiftl_add by lia. lia.
Qed.
Lemma lor_below W w m n sz : 0 <= m -> 0 <= n -> m + n <= sz -> sz <= 8 -> 0 <= w < 2 ^ (8 * n) ->
  W * 2 ^ (8 * (sz - m)) .| u64 (w .<< ((sz - n - m) * 8)) = (W * 2 ^ (8 * n) + w) * 2 ^ (8 * (sz - (m + n))).
Proof.
  intros Hm Hn Hs H8 Hw. replace ((sz - n - m) * 8) with (8 * (sz - (m + n))) by lia.
  replace (8 * (sz - m)) with (8 * n + 8 * (sz - (m + n))) by lia.
  pose proof (Z.pow_le_mono_r 2 (8 * n + 8 * (sz - (m + n))) 64 ltac:(lia) ltac:(lia)) as Hp.
  pose proof (Z.pow_pos_nonneg 2 (8 * (sz - (m + n))) ltac:(lia) ltac:(lia)) as H2.
  rewrite (Z.shiftl_mul_pow2 w), <-(Z.shiftl_mul_pow2 W) by lia. rewrite Z.pow_add_r in Hp by lia.
  rewrite u64_small by (unfold is_u; nia). rewrite lor_shiftl_add by (rewrite ?Z.pow_add_r; nia). rewrite Z.pow_add_r by lia. lia.
Qed.

Lemma part_byte v sh n j : 0 <= sh -> 0 <= j < n ->
  (((v .>> sh) .& Z.ones (8 * n)) .>> (8 * j)) .& 0xff = (v .>> (sh + 8 * j)) .& 0xff.
Proof.
  intros Hsh Hj. change 0xff with (Z.ones 8). apply Z.bits_inj'. intros i Hi.
  rewrite !Z.land_spec, !Z.shiftr_spec, Z.land_spec, Z.shiftr_spec by lia.
  destruct (Z.ltb_spec i 8); [|rewrite (Z.ones_spec_high 8) by lia; by rewrite !andb_false_r].
  rewrite (Z.ones_spec_low (8 * n)), andb_true_r by lia. do 2 f_equal. lia.
Qed.

(** The bytes of a swapped word. *)
Lemma bswap_step n x : 0 <= bswap n (x .>> 8) < 2 ^ (8 * Z.of_nat n) ->
  bswap (S n) x = (x .& 0xff) * 2 ^ (8 * Z.of_nat n) + bswap n (x .>> 8).
Proof. intros H. cbn [bswap]. by rewrite lor_shiftl_add by lia. Qed.
Lemma byte_range x : 0 <= x .& 0xff < 2 ^ 8.
Proof. change 0xff with (Z.ones 8). rewrite Z.land_ones by lia. by apply Z.mod_pos_bound. Qed.
Lemma bswap_range n : forall x, 0 <= bswap n x < 2 ^ (8 * Z.of_nat n).
Proof.
  induction n as [|n IH]; intros x; [done|]. rewrite bswap_step by apply IH. pose proof (IH (x .>> 8)). pose proof (byte_range x).
  replace (8 * Z.of_nat (S n)) with (8 + 8 * Z.of_nat n) by lia. rewrite Z.pow_add_r by lia. nia.
Qed.
Lemma bswap_byte n : forall x i, 0 <= i < Z.of_nat n ->
  (bswap n x .>> (8 * (Z.of_nat n - 1 - i))) .& 0xff = (x .>> (8 * i)) .& 0xff.
Proof.
  induction n as [|n IH]; intros x i Hi; [lia|]. rewrite bswap_step by apply bswap_range. pose proof (bswap_range n (x .>> 8)) as Hr.
  destruct (Z.eq_dec i 0) as [->|Hi0].
  - replace (8 * (Z.of_nat (S n) - 1 - 0)) with (8 * Z.of_nat n) by lia.
    rewrite Z.shiftr_div_pow2, Z.add_comm, Z.div_add, Z.div_small, Z.add_0_l by lia. by rewrite <-Z.land_assoc.
  - specialize (IH (x .>> 8) (i - 1) ltac:(lia)). rewrite Z.shiftr_shiftr in IH by lia.
    replace (8 + 8 * (i - 1)) with (8 * i) in IH by lia. rewrite <-IH. set (j := 8 * (Z.of_nat n - 1 - (i - 1))) in *.
    replace (8 * (Z.of_nat (S n) - 1 - i)) with j by lia. replace (8 * Z.of_nat n) with (8 * i + j) by lia.
    change 0xff with (Z.ones 8) at 2 3. rewrite !Z.shiftr_div_pow2, !Z.land_ones, Z.pow_add_r by lia.
    rewrite Z.mul_assoc, Z.add_comm, Z.div_add by lia. replace (8 * i) with (8 * (i - 1) + 8) by lia.
    rewrite Z.pow_add_r, Z.mul_assoc, Z.mod_add by lia. done.
Qed.

Section Device.
Context {S : Type} (ops : MemoryRegionOps S) (rd : S -> Z -> Z -> Z * S) (wr : S -> Z -> Z -> Z -> S) (byte : S -> Z -> Z).
#[local] Abbreviation big := (memory_region_big_endian ops).

Definition dev_word (f : Z -> Z) (a n : Z) : Z := (if big then be_word else le_word) f a (Z.to_nat n).
(** Byte [i] of a word of [n] bytes as the device stores it. *)
Definition dev_byte (v n i : Z) : Z := (v .>> (8 * (if big then n - 1 - i else i))) .& 0xff.

(** The device is a store of bytes that it accesses by words of its own order. *)
Record byte_device : Prop := {
  bd_read : read ops = Some rd;
  bd_write : write ops = Some wr;
  bd_sizes : impl_min ops ∈ 0 :: word_sizes /\ impl_max ops ∈ 0 :: word_sizes;
  bd_byte s a : 0 <= byte s a < 2 ^ 8;
  bd_rd s a n : n ∈ word_sizes -> rd s a n = (dev_word (byte s) a n, s);
  bd_wr s a v n b : n ∈ word_sizes -> 0 <= v < 2 ^ (8 * n) ->
    byte (wr s a v n) b = if (a <=? b) && (b <? a + n) then dev_byte v n (b - a) else byte s b
}.
Context (D : byte_device).

Lemma dev_word_range s a n : 0 <= n -> 0 <= dev_word (byte s) a n < 2 ^ (8 * n).
Proof.
  intros Hn. unfold dev_word. replace (8 * n) with (8 * Z.of_nat (Z.to_nat n)) by lia.
  destruct big; [apply be_word_range|apply le_word_range]; intros; apply (bd_byte D).
Qed.
Lemma dev_word_app s a m n : 0 <= m -> 0 <= n -> dev_word (byte s) a (m + n) =
  if big then dev_word (byte s) a m * 2 ^ (8 * n) + dev_word (byte s) (a + m) n
  else dev_word (byte s) a m + 2 ^ (8 * m) * dev_word (byte s) (a + m) n.
Proof.
  intros Hm Hn. unfold dev_word. rewrite Z2Nat.inj_add by done. destruct big; [rewrite be_word_app|rewrite le_word_app]; by rewrite !Z2Nat.id.
Qed.

Lemma read_split s a sz lo hi : sz ∈ word_sizes -> lo ∈ 0 :: word_sizes -> hi ∈ 0 :: word_sizes -> lo <= sz ->
  read_with_adjusted_size ops s a sz lo hi rd = (dev_word (byte s) a sz, s).
Proof.
  intros Hsz Hlo Hhi Hle. unfold read_with_adjusted_size. destruct (access_size_divides sz lo hi) as (Hn & q & Hq & Hsq); [done..|].
  set (n := access_size sz lo hi) in *. clearbody n. pose proof (word_size_range _ Hn) as Rn. pose proof (word_size_range _ Hsz) as Rs.
  replace (steps sz n) with ((fun k => k * n) <$> seqZ 0 q) by (rewrite Hsq; symmetry; apply steps_exact; lia).
  assert (H : forall x : Z * S, x = ((if big then dev_word (byte s) a (q * n) * 2 ^ (8 * (sz - q * n)) else dev_word (byte s) a (q * n)), s) ->
    x = (dev_word (byte s) a sz, s)).
  { intros x ->. rewrite <-Hsq, Z.sub_diag. by destruct big; rewrite ?Z.mul_1_r. }
  apply H. apply (foldl_steps (fun k x => x = ((if big then dev_word (byte s) a (k * n) * 2 ^ (8 * (sz - k * n)) else dev_word (byte s) a (k * n)), s)));
    [lia|by unfold dev_word; destruct big|]. clear H.
  intros k x Hk ->. rewrite (bd_rd D) by done. f_equal. rewrite access_mask_ones, Z.land_ones by (done || lia).
  pose proof (dev_word_range s (a + k * n) n ltac:(lia)) as Rw. rewrite Z.mod_small by done.
  replace ((k + 1) * n) with (k * n + n) by lia. rewrite dev_word_app by nia. unfold access_shift.
  assert (Hkn : k * n + n <= sz) by nia. destruct big eqn:Hbig; [apply lor_below; lia||nia|].
  apply (lor_above _ _ _ n); [nia|lia|lia|apply dev_word_range; nia|done].
Qed.
Lemma write_split s a v sz lo hi b : sz ∈ word_sizes -> lo ∈ 0 :: word_sizes -> hi ∈ 0 :: word_sizes -> lo <= sz ->
  0 <= v < 2 ^ (8 * sz) ->
  byte (write_with_adjusted_size ops s a v sz lo hi wr) b =
  if (a <=? b) && (b <? a + sz) then dev_byte v sz (b - a) else byte s b.
Proof.
  intros Hsz Hlo Hhi Hle Hv. unfold write_with_adjusted_size. destruct (access_size_divides sz lo hi) as (Hn & q & Hq & Hsq); [done..|].
  set (n := access_size sz lo hi) in *. clearbody n. pose proof (word_size_range _ Hn) as Rn. pose proof (word_size_range _ Hsz) as Rs.
  replace (steps sz n) with ((fun k => k * n) <$> seqZ 0 q) by (rewrite Hsq; symmetry; apply steps_exact; lia).
  replace (a + sz) with (a + q * n) by lia.
  apply (foldl_steps (fun k s' => byte s' b = if (a <=? b) && (b <? a + k * n) then dev_byte v sz (b - a) else byte s b)); [lia| |].
  { destruct (Z.leb_spec a b), (Z.ltb_spec b (a + 0 * n)); simpl; try done; lia. }
  intros k s' Hk IH. assert (Hkn : k * n + n <= sz) by nia. rewrite access_mask_ones by done.
  rewrite (bd_wr D) by (done || rewrite Z.land_ones by lia; apply Z.mod_pos_bound; apply Z.pow_pos_nonneg; lia). rewrite IH.
  replace ((k + 1) * n) with (k * n + n) by lia. assert (0 <= k * n) by nia. set (m := k * n) in *. clearbody m.
  assert (Hpart : 0 <= b - (a + m) < n -> dev_byte ((v .>> access_shift ops sz n m) .& Z.ones (8 * n)) n (b - (a + m)) = dev_byte v sz (b - a)).
  { intros Hj. unfold dev_byte, access_shift. destruct big; rewrite part_byte by lia; do 2 f_equal; lia. }
  destruct (Z.leb_spec (a + m) b), (Z.ltb_spec b (a + m + n)), (Z.leb_spec a b), (Z.ltb_spec b (a + (m + n))), (Z.ltb_spec b (a + m));
    simpl; try lia; try done; apply Hpart; lia.
Qed.

(** An access of less than the device implements is one access of the smallest
    size; the device is little-endian here. *)
Lemma access_size_small sz lo hi : sz ∈ word_sizes -> sz < lo -> access_size sz lo hi = lo.
Proof. intros Hsz%word_size_range Hlt. unfold access_size. destruct (Z.eqb_spec lo 0); lia. Qed.
Lemma steps_small sz lo : sz ∈ word_sizes -> sz < lo -> steps sz lo = [0].
Proof.
  intros Hsz%word_size_range Hlt. unfold steps. replace ((sz + lo - 1) / lo) with 1; [by cbn|].
  apply (Z.div_unique _ _ _ (sz - 1)); lia.
Qed.
Lemma read_wide s a sz lo hi : sz ∈ word_sizes -> lo ∈ word_sizes -> sz < lo -> big = false ->
  read_with_adjusted_size ops s a sz lo hi rd = (dev_word (byte s) a lo, s).
Proof.
  intros Hsz Hlo Hlt Hbig. unfold read_with_adjusted_size. rewrite access_size_small, steps_small by done. simpl.
  rewrite Z.add_0_r, (bd_rd D) by done. f_equal. unfold access_shift. rewrite Hbig. pose proof (word_size_range _ Hlo).
  pose proof (dev_word_range s a lo ltac:(lia)). rewrite access_mask_ones, Z.land_ones, Z.mod_small by (done || lia).
  pose proof (Z.pow_le_mono_r 2 (8 * lo) 64 ltac:(lia) ltac:(lia)). change (0 * 8) with 0. rewrite Z.shiftl_0_r, Z.lor_0_l. apply u64_small. unfold is_u. lia.
Qed.
Lemma write_wide s a v sz lo hi b : sz ∈ word_sizes -> lo ∈ word_sizes -> sz < lo -> big = false -> 0 <= v < 2 ^ (8 * sz) ->
  byte (write_with_adjusted_size ops s a v sz lo hi wr) b = if (a <=? b) && (b <? a + lo) then dev_byte v lo (b - a) else byte s b.
Proof.
  intros Hsz Hlo Hlt Hbig Hv. unfold write_with_adjusted_size. rewrite access_size_small, steps_small by done. simpl. unfold access_shift. rewrite Hbig.
  rewrite Z.add_0_r. simpl. rewrite Z.shiftr_0_r. pose proof (word_size_range _ Hlo). pose proof (word_size_range _ Hsz).
  pose proof (Z.pow_le_mono_r 2 (8 * sz) (8 * lo) ltac:(lia) ltac:(lia)).
  rewrite access_mask_ones, Z.land_ones, Z.mod_small by (done || lia). apply (bd_wr D); [done|lia].
Qed.

End Device.

(** A big-endian device that implements accesses of one or two bytes. *)
Definition store_rd (s : Z -> Z) (a n : Z) : Z * (Z -> Z) := (be_word (fun a => u8 (s a)) a (Z.to_nat n), s).
Definition store_wr (s : Z -> Z) (a v n : Z) : Z -> Z := fun b =>
  if (a <=? b) && (b <? a + n) then (v .>> (8 * (n - 1 - (b - a)))) .& 0xff else s b.
Definition store_ops : MemoryRegionOps (Z -> Z) :=
  mkOps (Some store_rd) (Some store_wr) DEVICE_BIG_ENDIAN 0 0 false None 1 2 (fun _ s _ => (0, s)) (fun _ s _ _ => s).
Lemma store_device : byte_device store_ops store_rd store_wr (fun s a => u8 (s a)).
Proof.
  split; [done|done|split; by apply (bool_decide_unpack _); vm_compute|intros; apply is_u_u8|done|].
  intros s a v n b Hn Hv. unfold store_wr. destruct ((a <=? b) && (b <? a + n)); [|done].
  unfold dev_byte. simpl. apply u8_small, byte_range.
Qed.

(** A search from the front keeps the promise of the library. *)
Definition scan {A} (cmp : A -> Z) (l : list A) : option nat := fst <$> list_find (fun x => cmp x = 0) l.
#[export, refine] Instance scan_search : BSearch := {| bsearch := @scan |}.
Proof.
  - intros A cmp l k. unfold scan. destruct (list_find _ l) as [[i x]|] eqn:Hf; [|done]. intros [= <-].
    apply list_find_Some in Hf as (Hi & Hx & _). by exists x.
  - intros A cmp l _. unfold scan. destruct (list_find _ l) as [|] eqn:Hf; [done|]. intros _. by apply list_find_None in Hf.
Defined.
End MemoryProps.
