(* ===== verification/Board.v ===== *)
(** * The memory map of the SAM3 machine (hw/arm/atmel.c, hw/arm/armv7m.c)

    The machine as its initialisation builds it out of memory regions and
    interrupt lines: flash, RAM, the bit-band windows, the NVIC with the GIC
    registers laid over its own, and the devices in the order of their
    creation.  The CPU object, the kernel image and the slaves of the serial bus
    are not part of it. *)

From stdpp Require Import gmap sorting.
From S2P Require Import Prelude Memory MemoryProps.

Module Board.
Import Memory MemoryProps.
#[local] Open Scope Z_scope.

(** The regions, by the variable that holds each of them. *)
Definition system_memory : ptr := 1%positive.
Definition flash : ptr := 2%positive.
Definition sram : ptr := 3%positive.
Definition bitband_ram : ptr := 4%positive.
Definition bitband_io : ptr := 5%positive.
Definition nvic_container : ptr := 6%positive.
Definition nvic_sysregs : ptr := 7%positive.
Definition gic_dist : ptr := 8%positive.
Definition gic_iomem_alias : ptr := 9%positive.
Definition hack : ptr := 10%positive.
Definition ssys : ptr := 11%positive.
Definition pl061 (i : Z) : ptr := Z.to_pos (12 + i).
Definition pl011 (i : Z) : ptr := Z.to_pos (15 + i).
Definition spi : ptr := 17%positive.
Definition rtt : ptr := 18%positive.
Definition pmc : ptr := 19%positive.

(** The regions, and the line of the NVIC that each device drives. *)
Record machine := mkMachine { mem : heap; wires : list (ptr * Z) }.
(** A device with one region, mapped on the system bus. *)
Definition sysbus_mmio_map (h : heap) (dev : ptr) (sz a : Z) : option heap :=
  memory_region_add_subregion (<[dev := memory_region_init_io sz]> h) system_memory a dev.

Definition armv7m_bitband_init (h : heap) : option heap :=
  h ← sysbus_mmio_map h bitband_ram 0x02000000 0x22000000;
  sysbus_mmio_map h bitband_io 0x02000000 0x42000000.
Definition armv7m_nvic_realize (h : heap) : option heap :=
  let h := <[gic_dist := memory_region_init_io 0x1000]> h in
  let h := <[nvic_container := memory_region_init 0x1000]> h in
  let h := <[nvic_sysregs := memory_region_init_io 0x1000]> h in
  h ← memory_region_add_subregion h nvic_container 0 nvic_sysregs;
  let h := <[gic_iomem_alias := memory_region_init_alias gic_dist 0x100 0xc00]> h in
  h ← memory_region_add_subregion_overlap h nvic_container 0x100 gic_iomem_alias 1;
  memory_region_add_subregion h system_memory 0xe000e000 nvic_container.
(** The sizes are [int]s in kilobytes. *)
Definition armv7m_init (h : heap) (flash_size sram_size : Z) : option heap :=
  let flash_size := s32 (flash_size * 1024) in
  let sram_size := s32 (sram_size * 1024) in
  let h := <[flash := memory_region_init_ram flash_size]> h in
  h ← memory_region_set_readonly h flash true;
  h ← memory_region_add_subregion h system_memory 0 flash;
  let h := <[sram := memory_region_init_ram sram_size]> h in
  h ← memory_region_add_subregion h system_memory 0x20000000 sram;
  h ← armv7m_bitband_init h;
  h ← armv7m_nvic_realize h;
  let h := <[hack := memory_region_init_ram 0x1000]> h in
  memory_region_add_subregion h system_memory 0xfffff000 hack.

Definition gpio_addr : list Z := [0x400e0e00; 0x400e1000; 0x400e1200].
Definition gpio_irq : list Z := [11; 12; 13].
Definition uart_irq : list Z := [8; 9].
Definition rtt_irq := 3.
Definition sysbus_create_simple (m : machine) (dev : ptr) (sz a irq : Z) : option machine :=
  h ← sysbus_mmio_map (mem m) dev sz a; Some (mkMachine h (wires m ++ [(dev, irq)])).
Definition atmel_sys_init (m : machine) (base irq : Z) : option machine := sysbus_create_simple m ssys 0x1000 base irq.
Definition atmel_init : option machine :=
  let h := {[ system_memory := memory_region_init (2 ^ 63 - 1) ]} in
  let flash_size := 512 * 1024 in
  let sram_size := 64 in
  h ← armv7m_init h flash_size sram_size;
  m ← atmel_sys_init (mkMachine h []) 0x400e0740 28;
  m ← foldl (fun m i => m ← m; sysbus_create_simple m (pl061 i) 0x1000 (aget 0 gpio_addr i) (aget 0 gpio_irq i)) (Some m) [0; 1; 2];
  m ← foldl (fun m i => m ← m; sysbus_create_simple m (pl011 i) 0x1000 (0x400e0600 + i * 0x200) (aget 0 uart_irq i)) (Some m) [0; 1];
  m ← sysbus_create_simple m spi 0x1000 0x40008000 21;
  m ← sysbus_create_simple m rtt 0x20 0x400e1430 rtt_irq;
  sysbus_create_simple m pmc 0x200 0x400e0400 5.

(** ** The map the guest sees *)

Definition window (a b : Z) (p : ptr) (off : Z) (ro : bool) : FlatRange := mkFlat p off (mkRange a (b - a)) 0 true ro.
Definition guest_map : list FlatRange :=
  [ window 0x00000000 0x20000000 flash 0 true;
    window 0x20000000 0x20010000 sram 0 false;
    window 0x22000000 0x24000000 bitband_ram 0 false;
    window 0x40008000 0x40009000 spi 0 false;
    window 0x400e0400 0x400e0600 pmc 0 false;
    window 0x400e0600 0x400e0800 (pl011 0) 0 false;
    window 0x400e0800 0x400e1430 (pl011 1) 0 false;
    window 0x400e1430 0x400e1450 rtt 0 false;
    window 0x400e1450 0x400e1800 (pl011 1) 0xc50 false;
    window 0x400e1800 0x400e2200 (pl061 2) 0x600 false;
    window 0x42000000 0x44000000 bitband_io 0 false;
    window 0xe000e000 0xe000e100 nvic_sysregs 0 false;
    window 0xe000e100 0xe000ed00 gic_dist 0x100 false;
    window 0xe000ed00 0xe000f000 nvic_sysregs 0xd00 false;
    window 0xfffff000 0x100000000 hack 0 false ].

Definition board : heap := default ∅ (mem <$> atmel_init).
Definition rank (p : ptr) : nat :=
  if bool_decide (p = system_memory) then 3 else if bool_decide (p = nvic_container) then 2
  else if bool_decide (p = gic_iomem_alias) then 1 else 0.
#[local] Abbreviation depth := 4%nat.

Lemma board_ranked : ranked board rank.
Proof. apply ranked_check, (bool_decide_unpack _). by vm_compute. Qed.
Lemma board_sizes : map_Forall (fun _ m => 0 <= mr_size m <= 2 ^ 64) board.
Proof. apply (bool_decide_unpack _). by vm_compute. Qed.
Lemma board_bounded : map_Forall (fun _ m => terminates m = true -> mr_size m < 2 ^ 64) board.
Proof. apply (bool_decide_unpack _). by vm_compute. Qed.
Lemma board_spare : spare depth board system_memory.
Proof. apply bounded_spare. exact board_bounded. Qed.
Lemma board_map : generate_memory_topology depth board system_memory = Some guest_map.
Proof. by vm_compute. Qed.
Lemma board_resolves a : 0 <= a < 2 ^ 64 -> resolve depth board system_memory 0 false a = view_at guest_map a.
Proof.
  intros Ha. destruct (topology_ok board rank system_memory depth) as (v & Hv & _ & _ & Hat).
  - exact board_sizes.
  - apply board_ranked.
  - apply (bool_decide_unpack _). by vm_compute.
  - apply (bool_decide_unpack _). by vm_compute.
  - exact board_spare.
  - rewrite board_map in Hv. injection Hv as <-. by rewrite Hat.
Qed.

Lemma topology_resolves_witness : exists v, generate_memory_topology depth board system_memory = Some v /\ ordered 0 v /\ merged v /\
  forall a, 0 <= a < 2 ^ 64 -> view_at v a = resolve depth board system_memory 0 false a.
Proof.
  apply (topology_resolves board rank).
  - exact board_sizes.
  - apply board_ranked.
  - apply (bool_decide_unpack _). by vm_compute.
  - apply (bool_decide_unpack _). by vm_compute.
  - exact board_spare.
Defined.
Lemma find_resolves_witness : exists r,
  memory_region_find depth board (generate_memory_topology depth board) nvic_container 0xff 4 = Some r /\
  match r with
  | None => forall b, 0xe000e0ff <= b < 0xe000e0ff + 4 -> resolve depth board system_memory 0 false b = None
  | Some s => first_part (resolve depth board system_memory 0 false) (mkRange 0xe000e0ff 4) s
  end.
Proof.
  apply (find_resolves board rank).
  - apply board_sizes.
  - apply board_ranked.
  - apply (bool_decide_unpack _). by vm_compute.
  - apply (bool_decide_unpack _). by vm_compute.
  - exact board_spare.
  - by vm_compute.
  - done.
  - done.
Defined.

(** C39. The machine's initialisation succeeds, each device has a line of its own, and every address is answered by
    the device of this map, at the offset the map gives, or by none. *)
Theorem sam3_memory_map : (exists m, atmel_init = Some m /\ NoDup (snd <$> wires m)) /\
  forall a, 0 <= a < 2 ^ 64 -> resolve depth board system_memory 0 false a = view_at guest_map a.
Proof.
  split; [|apply board_resolves].
  assert (Hs : is_Some atmel_init) by (apply (bool_decide_unpack _); by vm_compute).
  assert (Hd : NoDup (snd <$> default [] (wires <$> atmel_init))) by (apply (bool_decide_unpack _); by vm_compute).
  destruct Hs as [m Hm]. exists m. rewrite Hm in Hd. split; [exact Hm|exact Hd].
Qed.

Lemma view_at_in v a q o mask romd ro : view_at v a = Some (q, o, mask, romd, ro) ->
  exists r, r ∈ v /\ mr r = q /\ o = offset_in_region r + (a - start (addr r)) /\ start (addr r) <= a.
Proof.
  induction v as [|r v IH]; simpl; [done|]. unfold range_at at 1. destruct (addrrange_contains (addr r) a) eqn:Hc; simpl.
  - intros [= <- <- _ _ _]. apply contains_spec in Hc. exists r. split; [left|]. split; [done|]. lia.
  - intros H. destruct (IH H) as (r' & Hr & H'). exists r'. split; [by right|done].
Qed.

(** The devices created later hide the GPIO ports: no address reaches ports A and B or the system controller,
    and port C answers only from offset 0x600 on, behind its registers. *)
Theorem gpio_hidden a q o mask romd ro : 0 <= a < 2 ^ 64 -> resolve depth board system_memory 0 false a = Some (q, o, mask, romd, ro) ->
  q <> pl061 0 /\ q <> pl061 1 /\ q <> ssys /\ (q = pl061 2 -> 0x600 <= o).
Proof.
  intros Ha. rewrite board_resolves by done. intros H. destruct (view_at_in _ _ _ _ _ _ _ H) as (r & Hr & <- & -> & Hs).
  assert (Hall : Forall (fun r => mr r <> pl061 0 /\ mr r <> pl061 1 /\ mr r <> ssys /\ (mr r = pl061 2 -> 0x600 <= offset_in_region r)) guest_map)
    by (apply (bool_decide_unpack _); by vm_compute).
  destruct (proj1 (Forall_forall _ _) Hall r Hr) as (H1 & H2 & H3 & H4). repeat split; [done..|]. intros H5. specialize (H4 H5). lia.
Qed.
Lemma gpio_hidden_witness : pl061 2 <> pl061 0 /\ pl061 2 <> pl061 1 /\ pl061 2 <> ssys /\ (pl061 2 = pl061 2 -> 0x600 <= 0x610).
Proof. apply (gpio_hidden 0x400e1810 (pl061 2) 0x610 0 true false); [lia|by vm_compute]. Defined.
End Board.
