(* ===== verification/Bitband.v ===== *)
(** * The bit-band windows (hw/arm/armv7m.c)

    Each word of a window stands for one bit of the memory behind it.  The
    memory is a store of bytes, as the RAM of the machine is; the three widths
    of access are the instances of one definition for 1, 2 and 4 bytes, which
    for one byte has nothing to align. *)

From S2P Require Import Prelude.

Module Bitband.

(** The value of [n] bytes of the memory, and a store of one. *)
Fixpoint cpu_physical_memory_read (m : Z -> Z) (a : Z) (n : nat) : Z :=
  match n with O => 0 | S n => m a .| (cpu_physical_memory_read m (a + 1) n .<< 8) end.
Definition cpu_physical_memory_write (m : Z -> Z) (a : Z) (n : nat) (v : Z) : Z -> Z := fun b =>
  if (a <=? b) && (b <? a + Z.of_nat n) then (v .>> (8 * (b - a))) .& 0xff else m b.

Definition bitband_addr (base addr : Z) : Z := u32 (base .| ((addr .& 0x1ffffff) .>> 5)).
Definition word_addr (n base offset : Z) : Z := bitband_addr base offset .& u32 (Z.lnot (n - 1)).
Definition bit_mask (n offset : Z) : Z := 1 .<< ((offset .>> 2) .& (8 * n - 1)).

Definition bitband_read (n : Z) (m : Z -> Z) (base offset : Z) : Z :=
  b2z (cpu_physical_memory_read m (word_addr n base offset) (Z.to_nat n) .&? bit_mask n offset).
Definition bitband_write (n : Z) (m : Z -> Z) (base offset value : Z) : Z -> Z :=
  let addr := word_addr n base offset in
  let mask := bit_mask n offset in
  let v := cpu_physical_memory_read m addr (Z.to_nat n) in
  let v := if value .&? 1 then v .| mask else v .& Z.lnot mask in
  cpu_physical_memory_write m addr (Z.to_nat n) v.

Definition bitband_readb := bitband_read 1.
Definition bitband_readw := bitband_read 2.
Definition bitband_readl := bitband_read 4.
Definition bitband_writeb := bitband_write 1.
Definition bitband_writew := bitband_write 2.
Definition bitband_writel := bitband_write 4.

(** ** The bit of a word *)

Definition widths : list Z := [1; 2; 4].
Definition byte_index (offset : Z) : Z := offset / 32.
Definition bit_index (offset : Z) : Z := (offset / 4) mod 8.

Lemma read_bit m n : (forall a, 0 <= m a < 2 ^ 8) -> forall a k j, 0 <= k < Z.of_nat n -> 0 <= j < 8 ->
  Z.testbit (cpu_physical_memory_read m a n) (8 * k + j) = Z.testbit (m (a + k)) j.
Proof.
  intros Hm. induction n as [|n IH]; intros a k j Hk Hj; [lia|]. cbn [cpu_physical_memory_read]. rewrite Z.lor_spec, Z.shiftl_spec by lia.
  destruct (Z.eq_dec k 0) as [->|Hk0].
  - rewrite (Z.testbit_neg_r _ (8 * 0 + j - 8)), orb_false_r by lia. by rewrite !Z.add_0_r, Z.add_0_l.
  - rewrite (Z.bits_above_log2 (m a)), orb_false_l.
    + replace (8 * k + j - 8) with (8 * (k - 1) + j) by lia. rewrite IH by lia. do 2 f_equal. lia.
    + apply Hm.
    + apply (Z.lt_le_trans _ 8); [|lia]. pose proof (Hm a). destruct (Z.eq_dec (m a) 0) as [->|]; [done|]. apply Z.log2_lt_pow2; lia.
Qed.

Lemma widths_pow n : n ∈ widths -> exists e, 0 <= e <= 2 /\ n = 2 ^ e /\ u32 (Z.lnot (n - 1)) = Z.ldiff (Z.ones 32) (Z.ones e).
Proof.
  unfold widths. rewrite !elem_of_cons, elem_of_nil. intros [->|[->|[->|[]]]]; [exists 0|exists 1|exists 2]; done.
Qed.
Lemma align_down x e : 0 <= e -> 0 <= x < 2 ^ 32 -> x .& Z.ldiff (Z.ones 32) (Z.ones e) = x - x mod 2 ^ e.
Proof.
  intros He Hx. rewrite Z.ldiff_land, Z.land_assoc, Z.land_ones, Z.mod_small, <-Z.ldiff_land, Z.ldiff_ones_r by lia.
  rewrite Z.shiftl_mul_pow2, Z.shiftr_div_pow2 by lia. pose proof (Z.div_mod x (2 ^ e) ltac:(lia)). lia.
Qed.
Lemma band_addr base offset : 0 <= base < 2 ^ 32 -> base mod 2 ^ 25 = 0 -> 0 <= offset < 2 ^ 25 ->
  bitband_addr base offset = base + byte_index offset /\ 0 <= base + byte_index offset < 2 ^ 32.
Proof.
  intros Hb Hal Ho. unfold bitband_addr, byte_index. change 0x1ffffff with (Z.ones 25).
  rewrite Z.land_ones, Z.mod_small, Z.shiftr_div_pow2 by lia. change (2 ^ 5) with 32.
  assert (Hi : 0 <= offset / 32 < 2 ^ 20) by (split; [apply Z.div_pos; lia|apply Z.div_lt_upper_bound; lia]).
  pose proof (Z.div_mod base (2 ^ 25) ltac:(lia)) as Hd.
  assert (Hr : 0 <= base + offset / 32 < 2 ^ 32) by lia.
  replace base with ((base / 2 ^ 25) .<< 25) at 1 by (rewrite Z.shiftl_mul_pow2; lia).
  rewrite lor_shiftl_add by lia. replace (base / 2 ^ 25 * 2 ^ 25) with base by lia. rewrite u32_small by done. done.
Qed.

(** The aligned word and the bit in it. *)
Lemma word_of_offset n base offset : n ∈ widths -> 0 <= base < 2 ^ 32 -> base mod 2 ^ 25 = 0 -> 0 <= offset < 2 ^ 25 ->
  exists k, 0 <= k < n /\ word_addr n base offset + k = base + byte_index offset /\
    bit_mask n offset = 1 .<< (8 * k + bit_index offset).
Proof.
  intros Hn Hb Hal Ho. destruct (widths_pow n Hn) as (e & He & -> & Hm). unfold word_addr, bit_mask. rewrite Hm.
  destruct (band_addr base offset Hb Hal Ho) as [-> Hr]. rewrite align_down by lia.
  exists ((base + byte_index offset) mod 2 ^ e). split; [apply Z.mod_pos_bound; lia|]. split; [lia|]. f_equal.
  replace (8 * 2 ^ e - 1) with (Z.ones (3 + e)) by (rewrite Z.ones_equiv, Z.pow_add_r; lia).
  rewrite Z.land_ones, Z.shiftr_div_pow2, Z.pow_add_r by lia. change (2 ^ 2) with 4. change (2 ^ 3) with 8.
  rewrite Z.rem_mul_r, Z.div_div by lia. unfold bit_index, byte_index. change (4 * 8) with 32.
  assert (Hbe : base mod 2 ^ e = 0).
  { rewrite <-(Z.mod_mod_divide base (2 ^ 25)), Hal; [apply Z.mod_0_l; lia|]. exists (2 ^ (25 - e)). rewrite <-Z.pow_add_r by lia. f_equal. lia. }
  rewrite (Z.add_mod base), Hbe, Z.add_0_l, Z.mod_mod by lia. lia.
Qed.

Lemma byte_high x i : 0 <= x < 2 ^ 8 -> 8 <= i -> Z.testbit x i = false.
Proof. intros Hx Hi. rewrite <-(Z.mod_small x (2 ^ 8)) by done. by apply Z.mod_pow2_bits_high. Qed.
Lemma byte_bits x c i : 0 <= c -> 0 <= i -> Z.testbit ((x .>> (8 * c)) .& 0xff) i = (i <? 8) && Z.testbit x (8 * c + i).
Proof.
  intros Hc Hi. change 0xff with (Z.ones 8). rewrite Z.land_spec, Z.shiftr_spec, Z.add_comm by lia.
  destruct (Z.ltb_spec i 8); [rewrite Z.ones_spec_low by lia; by rewrite andb_true_r|].
  rewrite Z.ones_spec_high by lia. by rewrite andb_false_r.
Qed.
Lemma mask_bit p i : 0 <= p -> 0 <= i -> Z.testbit (1 .<< p) i = (i =? p).
Proof. intros Hp Hi. rewrite Z.shiftl_1_l, Z.pow2_bits_eqb by lia. apply Z.eqb_sym. Qed.
(** Setting or clearing bit [j] of byte [k] of a word, seen in byte [c]. *)
Lemma write_bit m w n k j c (v : bool) : (forall a, 0 <= m a < 2 ^ 8) -> 0 <= k < Z.of_nat n -> 0 <= c < Z.of_nat n -> 0 <= j < 8 ->
  let R := cpu_physical_memory_read m w n in
  ((if v then R .| (1 .<< (8 * k + j)) else R .& Z.lnot (1 .<< (8 * k + j))) .>> (8 * c)) .& 0xff =
  if c =? k then (if v then Z.setbit (m (w + c)) j else Z.clearbit (m (w + c)) j) else m (w + c).
Proof.
  intros Hm Hk Hc Hj R. apply Z.bits_inj'. intros i Hi. rewrite byte_bits by lia.
  assert (HR : i < 8 -> Z.testbit R (8 * c + i) = Z.testbit (m (w + c)) i) by (intros; apply read_bit; [done|lia|lia]).
  destruct (Z.ltb_spec i 8); simpl.
  - destruct v; rewrite ?Z.lor_spec, ?Z.land_spec, ?Z.lnot_spec, mask_bit, HR by lia;
      destruct (Z.eqb_spec (8 * c + i) (8 * k + j)), (Z.eqb_spec c k); try lia;
      rewrite ?Z.setbit_eqb, ?Z.clearbit_eqb by lia; destruct (Z.eqb_spec j i); try lia; by destruct (Z.testbit _ i).
  - pose proof (byte_high _ i (Hm (w + c)) ltac:(lia)) as Hh.
    destruct (Z.eqb_spec c k), v; rewrite ?Z.setbit_eqb, ?Z.clearbit_eqb, Hh by lia; destruct (Z.eqb_spec j i); done || lia.
Qed.

(** C40. In all three widths a word of the window is one bit of the memory: reading gives the bit, and writing
    sets or clears it with the lowest bit of the value and changes no other. *)
Theorem bitband_bit n m base offset : n ∈ widths -> 0 <= base < 2 ^ 32 -> base mod 2 ^ 25 = 0 -> 0 <= offset < 2 ^ 25 ->
  (forall a, 0 <= m a < 2 ^ 8) ->
  let a := base + byte_index offset in
  let j := bit_index offset in
  bitband_read n m base offset = b2z (Z.testbit (m a) j) /\
  forall value b, bitband_write n m base offset value b =
    if b =? a then (if Z.odd value then Z.setbit (m a) j else Z.clearbit (m a) j) else m b.
Proof.
  intros Hn Hb Hal Ho Hm a j. destruct (word_of_offset n base offset) as (k & Hk & Ha & Hmask); [done..|].
  assert (Hj : 0 <= j < 8) by (apply Z.mod_pos_bound; lia). split.
  - unfold bitband_read. rewrite Hmask, flag_testbit by lia. fold j. rewrite read_bit by (done || lia). by rewrite Ha.
  - intros value b. unfold bitband_write, cpu_physical_memory_write. rewrite Hmask. fold j. rewrite Z2Nat.id by lia.
    set (w := word_addr n base offset) in *. clearbody w. change (value .&? 1) with (value .&? (1 .<< 0)). rewrite (flag_testbit value 0), Z.bit0_odd by lia.
    destruct (Z.leb_spec w b), (Z.ltb_spec b (w + n)), (Z.eqb_spec b a); simpl; try lia; try done.
    all: rewrite (write_bit m w (Z.to_nat n) k j (b - w) (Z.odd value) Hm) by lia; destruct (Z.eqb_spec (b - w) k); try lia;
      replace (w + (b - w)) with b by lia; subst; done.
Qed.
Lemma bitband_bit_witness : bitband_readl (fun a => u8 a) 0x20000000 0x28 = 0 /\
  bitband_writew (fun a => u8 a) 0x20000000 0x28 1 0x20000001 = 5.
Proof.
  destruct (bitband_bit 4 (fun a => u8 a) 0x20000000 0x28) as [Hr _];
    [by apply (bool_decide_unpack _); vm_compute|done|done|done|intros; apply is_u_u8|].
  destruct (bitband_bit 2 (fun a => u8 a) 0x20000000 0x28) as [_ Hw];
    [by apply (bool_decide_unpack _); vm_compute|done|done|done|intros; apply is_u_u8|].
  split; [exact Hr|exact (Hw 1 0x20000001)].
Defined.
End Bitband.
