(* ===== verification/Pl011.v ===== *)
(** * The UART (hw/char/pl011.c)

    Received characters wait in a ring of sixteen words.  The character
    backend is the list of the bytes written to it, if there is one; what it
    delivers enters through [pl011_receive] and [pl011_event].  A read tells
    the backend that there is room, which is the last thing it does: what the
    backend then delivers comes after it. *)

From S2P Require Import Prelude Irq.

Module Pl011.

Record PL011State := mkPl011 {
  flags : Z; lcr : Z; cr : Z; dmacr : Z;
  int_enabled : Z; int_level : Z;
  read_fifo : list Z;
  ilpr : Z; ibrd : Z; fbrd : Z; ifl : Z;
  read_pos : Z; read_count : Z; read_trigger : Z;
  chr : option (list Z);
  irq : Irq.line_log;
  id : list Z
}.
#[export] Instance eta_pl011 : RecEta PL011State := fun s =>
  mkPl011 (flags s) (lcr s) (cr s) (dmacr s) (int_enabled s) (int_level s) (read_fifo s) (ilpr s) (ibrd s) (fbrd s) (ifl s)
          (read_pos s) (read_count s) (read_trigger s) (chr s) (irq s) (id s).

Definition PL011_INT_TX := 0x20.
Definition PL011_INT_RX := 0x10.
Definition PL011_FLAG_RXFF := 0x40.
Definition PL011_FLAG_RXFE := 0x10.
Definition pl011_id_luminary : list Z := [0x11; 0x00; 0x18; 0x01; 0x0d; 0xf0; 0x05; 0xb1].

Definition pl011_update (s : PL011State) : PL011State :=
  s.[irq := Irq.drive (irq s) (b2z (int_level s .&? int_enabled s))].

Definition pop_fifo (s : PL011State) : PL011State :=
  if 0 <? read_count s then
    let s := s.[read_count := read_count s - 1] in
    let s := s.[read_pos := read_pos s + 1] in
    if read_pos s =? 16 then s.[read_pos := 0] else s
  else s.
Definition read_data (s : PL011State) : Z * PL011State :=
  let s := s.[flags := flags s .& not32 PL011_FLAG_RXFF] in
  let c := aget 0 (read_fifo s) (read_pos s) in
  let s := pop_fifo s in
  let s := if read_count s =? 0 then s.[flags := flags s .| PL011_FLAG_RXFE] else s in
  let s := if read_count s =? read_trigger s - 1 then s.[int_level := int_level s .& not32 PL011_INT_RX] else s in
  (c, pl011_update s).
Definition pl011_read (s : PL011State) (offset : Z) : Z * PL011State :=
  if (0xfe0 <=? offset) && (offset <? 0x1000) then (aget 0 (id s) ((offset - 0xfe0) .>> 2), s)
  else
    let r := offset .>> 2 in
    if r =? 0 then read_data s
    else (if r =? 6 then flags s
          else if r =? 8 then ilpr s
          else if r =? 9 then ibrd s
          else if r =? 10 then fbrd s
          else if r =? 11 then lcr s
          else if r =? 12 then cr s
          else if r =? 13 then ifl s
          else if r =? 14 then int_enabled s
          else if r =? 15 then int_level s
          else if r =? 16 then int_level s .& int_enabled s
          else if r =? 18 then dmacr s
          else 0, s).

Definition pl011_set_read_trigger (s : PL011State) : PL011State := s.[read_trigger := 1].

Definition qemu_chr_fe_write (s : PL011State) (ch : Z) : PL011State :=
  match chr s with Some l => s.[chr := Some (l ++ [ch])] | None => s end.
(** The registers are 32 bits wide, [value] has 64. *)
Definition pl011_write (s : PL011State) (offset value : Z) : PL011State :=
  let r := offset .>> 2 in
  if r =? 0 then
    let s := qemu_chr_fe_write s (u8 value) in
    pl011_update s.[int_level := int_level s .| PL011_INT_TX]
  else if r =? 1 then s.[cr := u32 value]
  else if r =? 8 then s.[ilpr := u32 value]
  else if r =? 9 then s.[ibrd := u32 value]
  else if r =? 10 then s.[fbrd := u32 value]
  else if r =? 11 then pl011_set_read_trigger s.[lcr := u32 value]
  else if r =? 12 then s.[cr := u32 value]
  else if r =? 13 then pl011_set_read_trigger s.[ifl := u32 value]
  else if r =? 14 then pl011_update s.[int_enabled := u32 value]
  else if r =? 17 then pl011_update s.[int_level := int_level s .& not32 value]
  else if r =? 18 then s.[dmacr := u32 value]
  else s.

Definition pl011_can_receive (s : PL011State) : bool :=
  if lcr s .&? 0x10 then read_count s <? 16 else read_count s <? 1.

Definition pl011_put_fifo (s : PL011State) (value : Z) : PL011State :=
  let slot := read_pos s + read_count s in
  let slot := if 16 <=? slot then slot - 16 else slot in
  let s := s.[read_fifo := aset (read_fifo s) slot value] in
  let s := s.[read_count := read_count s + 1] in
  let s := s.[flags := flags s .& not32 PL011_FLAG_RXFE] in
  let s := if (cr s .&? 0x10) || (read_count s =? 16) then s.[flags := flags s .| PL011_FLAG_RXFF] else s in
  if read_count s =? read_trigger s then pl011_update s.[int_level := int_level s .| PL011_INT_RX] else s.
Definition pl011_receive (s : PL011State) (buf : Z) : PL011State := pl011_put_fifo s buf.
(** The event of a break on the line. *)
Definition pl011_event (s : PL011State) (is_break : bool) : PL011State := if is_break then pl011_put_fifo s 0x400 else s.

(** A new object of the type [pl011_luminary], with its backend. *)
Definition pl011_init (chr : option (list Z)) : PL011State :=
  mkPl011 0x90 0 0x300 0 0 0 (replicate 16 0) 0 0 0 0x12 0 0 1 chr [] pl011_id_luminary.

(** ** The queue of received characters *)

Inductive event := Read (offset : Z) | Write (offset value : Z) | Receive (c : Z) | Break.
Definition exec (s : PL011State) (e : event) : Z * PL011State :=
  match e with
  | Read offset => pl011_read s offset
  | Write offset value => (0, pl011_write s offset value)
  | Receive c => (0, pl011_receive s c)
  | Break => (0, pl011_event s true)
  end.
(** The backend delivers a character when it may; a break comes at any time. *)
Definition allowed (s : PL011State) (e : event) : Prop :=
  match e with Receive c => pl011_can_receive s = true /\ is_u 8 c | _ => True end.
Definition fits (q : list Z) (e : event) : Prop := match e with Break => (length q < 16)%nat | _ => True end.
(** A read of the data register takes the first character. *)
Definition is_data (e : event) : bool := match e with Read offset => offset .>> 2 =? 0 | _ => false end.
Definition queue_step (q : list Z) (e : event) : list Z :=
  match e with Receive c => q ++ [c] | Break => q ++ [0x400] | _ => if is_data e then tail q else q end.

Record represents (s : PL011State) (q : list Z) : Prop := {
  r_fifo : length (read_fifo s) = 16%nat;
  r_pos : 0 <= read_pos s < 16;
  r_count : read_count s = Z.of_nat (length q) /\ read_count s <= 16;
  r_queue : ring 16 (read_fifo s) (read_pos s) (read_count s) = q;
  r_empty : Z.testbit (flags s) 4 = (read_count s =? 0);
  r_full : read_count s = 16 -> Z.testbit (flags s) 6 = true;
  r_trigger : read_trigger s = 1;
  r_pending : Z.testbit (int_level s) 4 = true -> 0 < read_count s;
  r_irq : Irq.level (irq s) = b2z (int_level s .&? int_enabled s)
}.

Lemma init_represents c : represents (pl011_init c) [].
Proof. by split. Qed.

Lemma put_represents s q v : represents s q -> (length q < 16)%nat ->
  represents (pl011_put_fifo s v) (q ++ [v]) /\
  (q = [] -> Z.testbit (int_level (pl011_put_fifo s v)) 4 = true).
Proof.
  intros R Hq. destruct (r_count _ _ R) as [Hc _]. pose proof (r_pos _ _ R). unfold pl011_put_fifo.
  set (slot := if 16 <=? read_pos s + read_count s then _ else _).
  assert (Hslot : slot = (read_pos s + read_count s) mod 16).
  { subst slot. destruct (Z.leb_spec 16 (read_pos s + read_count s)); [|by rewrite Z.mod_small by lia].
    replace (read_pos s + read_count s) with (read_pos s + read_count s - 16 + 1 * 16) at 2 by lia.
    by rewrite Z.mod_add, Z.mod_small by lia. }
  pose proof (r_full _ _ R). pose proof (r_trigger _ _ R) as Ht. pose proof (r_empty _ _ R) as He.
  assert (Hring : ring 16 (aset (read_fifo s) slot v) (read_pos s) (read_count s + 1) = q ++ [v]).
  { rewrite Hslot, ring_push, (r_queue _ _ R); [done|lia|]. by rewrite (r_fifo _ _ R). }
  clearbody slot. simpl.
  assert (Hbits : forall f, (f = flags s .& not32 PL011_FLAG_RXFE \/ f = (flags s .& not32 PL011_FLAG_RXFE) .| PL011_FLAG_RXFF) ->
    Z.testbit f 4 = false).
  { intros f [-> | ->]; rewrite ?Z.lor_spec, Z.land_spec, not32_spec by lia; by rewrite !andb_false_r. }
  assert (Hcount : Z.of_nat (length (q ++ [v])) = read_count s + 1) by (rewrite length_app; simpl; lia).
  assert (Hfull : forall f, (cr s .&? 16) || (read_count s + 1 =? 16) = false -> read_count s + 1 = 16 -> Z.testbit f 6 = true) by lia.
  destruct ((cr s .&? 16) || (read_count s + 1 =? 16)); simpl; rewrite Ht; destruct (Z.eqb_spec (read_count s + 1) 1); simpl.
  all: split; [split; simpl|].
  all: first
    [ by rewrite length_aset, (r_fifo _ _ R) | done | lia | by apply (r_irq _ _ R)
    | rewrite Hbits by auto; symmetry; apply Z.eqb_neq; lia
    | intros _; rewrite Z.lor_spec; by rewrite orb_true_r
    | by apply Hfull
    | intros ->; simpl in Hc; lia ].
Qed.

Lemma pop_fifo_spec s q : 0 <= read_pos s < 16 -> read_count s = Z.of_nat (length q) -> read_count s <= 16 ->
  ring 16 (read_fifo s) (read_pos s) (read_count s) = q -> exists p n,
  pop_fifo s = s.[read_pos := p].[read_count := n] /\ 0 <= p < 16 /\ n = Z.of_nat (length (tail q)) /\ n < 16 /\
  ring 16 (read_fifo s) p n = tail q /\ (forall c q', q = c :: q' -> aget 0 (read_fifo s) (read_pos s) = c).
Proof.
  intros Hp Hc Hc16 Hring. unfold pop_fifo. destruct (Z.ltb_spec 0 (read_count s)) as [Hpos|Hz].
  - rewrite ring_pop in Hring by done. rewrite Z.mod_small in Hring by lia. destruct q as [|c q]; [simpl in Hc; lia|].
    injection Hring as Hhead Htail. simpl in Hc |- *. destruct (Z.eqb_spec (read_pos s + 1) 16) as [He|He].
    + exists 0, (read_count s - 1). split; [done|]. split; [lia|]. split; [lia|]. split; [lia|].
      split; [|intros ? ? [= <- <-]; done]. rewrite <-Htail, He. by rewrite <-(ring_mod 16 (read_fifo s) 16).
    + exists (read_pos s + 1), (read_count s - 1). split; [done|]. split; [lia|]. split; [lia|]. split; [lia|].
      split; [done|intros ? ? [= <- <-]; done].
  - destruct q as [|c q]; [|simpl in Hc; lia]. exists (read_pos s), (read_count s). split; [by destruct s|]. simpl in *.
    split; [done|]. split; [done|]. split; [lia|]. split; [|done]. by rewrite Hc, ring_nil.
Qed.

Lemma read_represents s q : represents s q ->
  represents (snd (read_data s)) (tail q) /\ (forall c q', q = c :: q' -> fst (read_data s) = c).
Proof.
  intros R. pose proof (r_empty _ _ R) as He. pose proof (r_trigger _ _ R) as Ht. pose proof (r_pending _ _ R) as Hi.
  set (s1 := s.[flags := flags s .& not32 PL011_FLAG_RXFF]).
  destruct (pop_fifo_spec s1 q (r_pos _ _ R) (proj1 (r_count _ _ R)) (proj2 (r_count _ _ R)) (r_queue _ _ R))
    as (p & n & Hs & Hp & Hn & Hn16 & Hring & Hhead). unfold read_data. fold s1. rewrite Hs. simpl.
  split; [|done].
  assert (Hneg : forall x, Z.testbit (x .& not32 PL011_INT_RX) 4 = false).
  { intros x. rewrite Z.land_spec, not32_spec by lia. by rewrite andb_false_r. }
  destruct (Z.eqb_spec n 0) as [Hz|Hz]; simpl; rewrite Ht; change (1 - 1) with 0.
  - rewrite (proj2 (Z.eqb_eq n 0) Hz). split; simpl; try done; try lia.
    + apply (r_fifo _ _ R).
    + rewrite Z.lor_spec, orb_true_r. symmetry. by apply Z.eqb_eq.
    + by rewrite Hneg.
  - rewrite (proj2 (Z.eqb_neq n 0) Hz). split; simpl; try done; try lia.
    + apply (r_fifo _ _ R).
    + rewrite Z.land_spec, He, not32_spec by lia. rewrite (proj2 (Z.eqb_neq n 0) Hz).
      destruct (r_count _ _ R) as [Hc _]. destruct q; [done|]. simpl in Hc. destruct (Z.eqb_spec (read_count s) 0); [lia|done].
Qed.

Lemma chr_represents s q c : represents s q -> represents (qemu_chr_fe_write s c) q.
Proof. intros R. unfold qemu_chr_fe_write. destruct (chr s); [|done]. split; apply R. Qed.
Lemma level_represents s q v e : represents s q -> (Z.testbit v 4 = true -> Z.testbit (int_level s) 4 = true) ->
  represents (pl011_update s.[int_level := v].[int_enabled := e]) q.
Proof. intros R Hv. split; simpl; try apply R. - intros H. apply (r_pending _ _ R), Hv, H. - done. Qed.
Lemma write_represents s q offset value : represents s q -> represents (pl011_write s offset value) q.
Proof.
  intros R. unfold pl011_write. pose proof (chr_represents s q (u8 value) R) as Rc. pose proof (r_trigger _ _ R) as Ht.
  set (r := offset .>> 2). clearbody r.
  destruct (r =? 0).
  { set (s1 := qemu_chr_fe_write s (u8 value)) in *. apply (level_represents s1 q (int_level s1 .| PL011_INT_TX) (int_enabled s1) Rc). rewrite Z.lor_spec, orb_false_r. done. }
  repeat match goal with |- context [r =? ?k] => destruct (r =? k); [try by (split; simpl; first [done | apply R])|] end; [|done].
  apply (level_represents s q (int_level s .& not32 value) (int_enabled s) R). rewrite Z.land_spec. by intros [H _]%andb_true_iff.
Qed.


(** A break is put into the queue without asking whether there is room: after thirty-two of them the next is
    stored behind the end of the sixteen words. *)
Theorem break_overruns :
  let s := Nat.iter 32 (fun s => pl011_event s true) (pl011_init None) in
  length (read_fifo s) = 16%nat /\ read_pos s + read_count s - 16 = 16.
Proof. by vm_compute. Qed.
End Pl011.
