(* ===== verification/Pl061.v ===== *)
(** * The GPIO port (hw/gpio/pl061.c)

    Eight lines, each an input or an output by its bit of [dir].  The address
    of an access to the data selects the lines it touches. *)

From S2P Require Import Prelude Irq.

Module Pl061.

Record PL061State := mkPl061 {
  locked : Z; data : Z; old_data : Z; dir : Z;
  isense : Z; ibe : Z; iev : Z; im : Z; istate : Z;
  afsel : Z; dr2r : Z; dr4r : Z; dr8r : Z; odr : Z; pur : Z; pdr : Z; slr : Z; den : Z;
  cr : Z; amsel : Z;
  out : list Irq.line_log;
  id : list Z
}.
#[export] Instance eta_pl061 : RecEta PL061State := fun s =>
  mkPl061 (locked s) (data s) (old_data s) (dir s) (isense s) (ibe s) (iev s) (im s) (istate s) (afsel s) (dr2r s) (dr4r s)
          (dr8r s) (odr s) (pur s) (pdr s) (slr s) (den s) (cr s) (amsel s) (out s) (id s).

Definition pl061_id_luminary : list Z := [0x00; 0x00; 0x00; 0x00; 0x61; 0x00; 0x18; 0x01; 0x0d; 0xf0; 0x05; 0xb1].

Definition set_output (o : Z) (changed : Z) (l : list Irq.line_log) (i : Z) : list Irq.line_log :=
  if changed .&? (1 .<< i) then aset l i (Irq.drive (aget [] l i) (b2z (o .&? (1 .<< i)))) else l.
(** [out] and [changed] are bytes. *)
Definition pl061_update (s : PL061State) : PL061State :=
  let o := u8 ((data s .& dir s) .| Z.lnot (dir s)) in
  let changed := u8 (old_data s .^ o) in
  if changed =? 0 then s
  else
    let s := s.[old_data := o] in
    s.[out := foldl (set_output o changed) (out s) (seqZ 0 8)].

Definition pl061_read (s : PL061State) (offset : Z) : Z :=
  if (0xfd0 <=? offset) && (offset <? 0x1000) then aget 0 (id s) ((offset - 0xfd0) .>> 2)
  else if offset <? 0x400 then data s .& (offset .>> 2)
  else if offset =? 0x400 then dir s
  else if offset =? 0x404 then isense s
  else if offset =? 0x408 then ibe s
  else if offset =? 0x40c then iev s
  else if offset =? 0x410 then im s
  else if offset =? 0x414 then istate s
  else if offset =? 0x418 then istate s .| im s
  else if offset =? 0x420 then afsel s
  else if offset =? 0x500 then dr2r s
  else if offset =? 0x504 then dr4r s
  else if offset =? 0x508 then dr8r s
  else if offset =? 0x50c then odr s
  else if offset =? 0x510 then pur s
  else if offset =? 0x514 then pdr s
  else if offset =? 0x518 then slr s
  else if offset =? 0x51c then den s
  else if offset =? 0x520 then locked s
  else if offset =? 0x524 then cr s
  else if offset =? 0x528 then amsel s
  else 0.

(** The bits of [mask] from [value], the others kept. *)
Definition merge (old mask value : Z) : Z := u32 ((old .& Z.lnot mask) .| (value .& mask)).
Definition pl061_write (s : PL061State) (offset value : Z) : PL061State :=
  if offset <? 0x400 then
    let mask := u8 ((offset .>> 2) .& dir s) in
    pl061_update s.[data := merge (data s) mask value]
  else
    let v := value .& 0xff in
    pl061_update
      (if offset =? 0x400 then s.[dir := v]
       else if offset =? 0x404 then s.[isense := v]
       else if offset =? 0x408 then s.[ibe := v]
       else if offset =? 0x40c then s.[iev := v]
       else if offset =? 0x410 then s.[im := v]
       else if offset =? 0x41c then s.[istate := u32 (istate s .& Z.lnot value)]
       else if offset =? 0x420 then s.[afsel := merge (afsel s) (u8 (cr s)) value]
       else if offset =? 0x500 then s.[dr2r := v]
       else if offset =? 0x504 then s.[dr4r := v]
       else if offset =? 0x508 then s.[dr8r := v]
       else if offset =? 0x50c then s.[odr := v]
       else if offset =? 0x510 then s.[pur := v]
       else if offset =? 0x514 then s.[pdr := v]
       else if offset =? 0x518 then s.[slr := v]
       else if offset =? 0x51c then s.[den := v]
       else if offset =? 0x520 then s.[locked := b2z (negb (value =? 0xacce551))]
       else if offset =? 0x524 then if locked s =? 0 then s.[cr := v] else s
       else if offset =? 0x528 then s.[amsel := v]
       else s).

Definition pl061_reset (s : PL061State) : PL061State := s.[locked := 1].[cr := 0xff].
Definition pl061_set_irq (s : PL061State) (irq level : Z) : PL061State :=
  let mask := u8 (1 .<< irq) in
  if dir s .& mask =? 0 then
    let s := s.[data := data s .& Z.lnot mask] in
    let s := if truth level then s.[data := data s .| mask] else s in
    pl061_update s
  else s.
(** A new object of the type [pl061_luminary]; nothing has been driven. *)
Definition pl061_initfn : PL061State :=
  pl061_reset (mkPl061 0 0 0 0 0 0 0 0 0 0 0 0 0 0 0 0 0 0 0 0 (replicate 8 []) pl061_id_luminary).

(** ** The lines *)

(** What line [i] of the port drives: its data bit if it is an output, and it floats high if not. *)
Definition pin (s : PL061State) (i : Z) : bool := if Z.testbit (dir s) i then Z.testbit (data s) i else true.
(** The lines have the levels last computed. *)
Record wired (s : PL061State) : Prop := {
  w_out : length (out s) = 8%nat;
  w_old : is_u 8 (old_data s);
  w_level i : 0 <= i < 8 -> Irq.level (aget [] (out s) i) = b2z (Z.testbit (old_data s) i)
}.

Lemma outputs_length o c l n : length (foldl (set_output o c) l n) = length l.
Proof. revert l. induction n as [|i n IH]; intros l; simpl; [done|]. rewrite IH. unfold set_output. destruct (_ .&? _); [by rewrite length_aset|done]. Qed.
Lemma outputs_level o c l i : 0 <= i < 8 -> length l = 8%nat -> forall n, 0 <= n -> n <= 8 ->
  Irq.level (aget [] (foldl (set_output o c) l (seqZ 0 n)) i) =
  if (i <? n) && Z.testbit c i then b2z (Z.testbit o i) else Irq.level (aget [] l i).
Proof.
  intros Hi Hl. apply (natlike_ind (fun n => n <= 8 -> _)); [intros _; destruct (Z.ltb_spec i 0); [lia|done]|].
  intros n Hn IH Hn8. unfold Z.succ. rewrite seqZ_app, foldl_app by lia.
  replace (seqZ (0 + n) 1) with [n] by (by rewrite Z.add_0_l). cbn [foldl]. unfold set_output at 1. rewrite !flag_testbit by lia.
  pose proof (outputs_length o c l (seqZ 0 n)) as Hlen. specialize (IH ltac:(lia)).
  destruct (Z.eq_dec i n) as [->|Hne].
  - rewrite (proj2 (Z.ltb_lt n (n + 1))) by lia. rewrite (proj2 (Z.ltb_ge n n)) in IH by lia. cbn [andb] in IH |- *.
    destruct (Z.testbit c n); [|done]. rewrite aget_aset_eq by (unfold Irq.line_log in *; lia). done.
  - replace (i <? n + 1) with (i <? n) by lia. rewrite <-IH. destruct (Z.testbit c n); [|done]. by rewrite aget_aset_ne by lia.
Qed.

Lemma update_wired s : wired s ->
  wired (pl061_update s) /\ forall i, 0 <= i < 8 -> Irq.level (aget [] (out (pl061_update s)) i) = b2z (pin s i).
Proof.
  intros W. unfold pl061_update. set (o := u8 ((data s .& dir s) .| Z.lnot (dir s))).
  assert (Ho : forall i, 0 <= i < 8 -> Z.testbit o i = pin s i).
  { intros i Hi. unfold o, pin. unfold u8. rewrite Z.mod_pow2_bits_low, Z.lor_spec, Z.land_spec, Z.lnot_spec by lia.
    by destruct (Z.testbit (dir s) i), (Z.testbit (data s) i). }
  assert (Hu : is_u 8 o) by apply is_u_u8. clearbody o.
  assert (Hx : forall i, 0 <= i < 8 -> Z.testbit (u8 (old_data s .^ o)) i = xorb (Z.testbit (old_data s) i) (Z.testbit o i)).
  { intros i Hi. unfold u8. by rewrite Z.mod_pow2_bits_low, Z.lxor_spec by lia. }
  destruct (Z.eqb_spec (u8 (old_data s .^ o)) 0) as [Hz|Hz].
  - split; [done|]. intros i Hi. rewrite (w_level _ W) by done. rewrite <-Ho by done. f_equal. specialize (Hx i Hi).
    rewrite Hz, Z.bits_0 in Hx. by destruct (Z.testbit (old_data s) i), (Z.testbit o i).
  - assert (Hl : forall i, 0 <= i < 8 -> Irq.level (aget [] (foldl (set_output o (u8 (old_data s .^ o))) (out s) (seqZ 0 8)) i) = b2z (Z.testbit o i)).
    { intros i Hi. rewrite outputs_level by (done || apply (w_out _ W) || lia). rewrite (proj2 (Z.ltb_lt i 8)), Hx, (w_level _ W) by lia.
      by destruct (Z.testbit (old_data s) i), (Z.testbit o i). }
    split; [split; [exact (eq_trans (outputs_length _ _ _ _) (w_out _ W))|exact Hu|exact Hl]|].
    intros i Hi. rewrite <-Ho by done. exact (Hl i Hi).
Qed.
Lemma update_fields s : data (pl061_update s) = data s /\ dir (pl061_update s) = dir s.
Proof. unfold pl061_update. by destruct (_ =? 0). Qed.
Lemma wired_frame s s' : wired s -> out s' = out s -> old_data s' = old_data s -> wired s'.
Proof. intros W Ho Hd. split; rewrite ?Ho, ?Hd; apply W. Qed.

Definition settled (s : PL061State) : Prop :=
  wired s /\ forall i, 0 <= i < 8 -> Irq.level (aget [] (out s) i) = b2z (pin s i).
Lemma update_settled s : wired s -> settled (pl061_update s).
Proof.
  intros W. destruct (update_wired s W) as [H1 H2]. split; [done|]. intros i Hi. rewrite H2 by done. unfold pin.
  by destruct (update_fields s) as [-> ->].
Qed.

(** After every write and every change of an input the lines have the levels the registers say: an output
    drives its data bit, an input floats high.  A write to the data changes the outputs that its address
    selects, and an input line changes the data bit of its number if that is an input. *)
Theorem gpio_lines s : wired s ->
  (forall offset value, let s' := pl061_write s offset value in
    settled s' /\
    (offset < 0x400 -> forall i, 0 <= i < 8 -> Z.testbit (data s') i =
      if Z.testbit (offset .>> 2) i && Z.testbit (dir s) i then Z.testbit value i else Z.testbit (data s) i)) /\
  (forall n level, 0 <= n < 8 -> Z.testbit (dir s) n = false -> let s' := pl061_set_irq s n level in
    settled s' /\
    (forall i, 0 <= i < 8 -> Z.testbit (data s') i = if i =? n then truth level else Z.testbit (data s) i)).
Proof.
  intros W. split.
  - intros offset value.
    unfold pl061_write. destruct (Z.ltb_spec offset 0x400) as [Ho|Ho].
    + set (t := s.[data := _]). assert (Wt : wired t) by (by apply (wired_frame s)).
      split; [by apply update_settled|]. intros _ i Hi. rewrite (proj1 (update_fields t)). simpl. unfold merge, u32.
      rewrite Z.mod_pow2_bits_low, Z.lor_spec, !Z.land_spec, Z.lnot_spec by lia. unfold u8. rewrite !Z.mod_pow2_bits_low, !Z.land_spec by lia.
      destruct (Z.testbit (offset .>> 2) i), (Z.testbit (dir s) i), (Z.testbit (data s) i), (Z.testbit value i); done.
    + cut (forall t, out t = out s -> old_data t = old_data s -> let s' := pl061_update t in
        settled s' /\ (offset < 0x400 ->
        forall i, 0 <= i < 8 -> Z.testbit (data s') i = if Z.testbit (offset .>> 2) i && Z.testbit (dir s) i then Z.testbit value i else Z.testbit (data s) i)).
      { intros Hall. apply Hall; repeat match goal with |- context [if ?b then _ else _] => destruct b end; done. }
      intros t H1 H2. split; [by apply update_settled, (wired_frame s)|lia].
  - intros n level Hn Hd. unfold pl061_set_irq.
    assert (Hm : forall i, 0 <= i < 8 -> Z.testbit (u8 (1 .<< n)) i = (i =? n)).
    { intros i Hi. unfold u8. rewrite Z.mod_pow2_bits_low, Z.shiftl_1_l, Z.pow2_bits_eqb by lia. apply Z.eqb_sym. }
    assert (Hz : dir s .& u8 (1 .<< n) = 0).
    { rewrite u8_small by (unfold is_u; rewrite Z.shiftl_1_l; split; [apply Z.pow_nonneg; lia|apply Z.pow_lt_mono_r; lia]).
      apply flag_clear; [lia|done]. }
    rewrite Hz. simpl. set (t := if truth level then _ else _).
    assert (Wt : wired t) by (apply (wired_frame s); [done|subst t; by destruct (truth level)..]).
    split; [by apply update_settled|]. intros i Hi. rewrite (proj1 (update_fields t)). subst t.
    destruct (truth level); simpl; rewrite ?Z.lor_spec, Z.land_spec, Z.lnot_spec, Hm by lia; destruct (i =? n); simpl;
      by rewrite ?andb_false_r, ?andb_true_r, ?orb_true_r, ?orb_false_r.
Qed.
Lemma init_wired : wired pl061_initfn.
Proof.
  split; [done|done|]. intros i Hi. assert (Hc : i ∈ seqZ 0 8) by (apply elem_of_seqZ; lia).
  clear Hi. revert i Hc. apply Forall_forall, (bool_decide_unpack _). by vm_compute.
Qed.
Lemma gpio_lines_witness : let s := pl061_write pl061_initfn 0x400 0x0f in
  settled s /\ settled (pl061_write s 0x3fc 0x05) /\ Z.testbit (data (pl061_write s 0x3fc 0x05)) 2 = true /\
  Irq.level (aget [] (out (pl061_write s 0x3fc 0x05)) 2) = 1.
Proof.
  destruct (gpio_lines pl061_initfn init_wired) as [H _]. destruct (H 0x400 0x0f) as [H1 _].
  destruct (gpio_lines (pl061_write pl061_initfn 0x400 0x0f) (proj1 H1)) as [H' _]. destruct (H' 0x3fc 0x05) as [H2 H3].
  split; [exact H1|]. split; [exact H2|]. split; [by rewrite (H3 ltac:(done) 2 ltac:(done))|by vm_compute].
Defined.
End Pl061.
