(* ===== verification/Dispatch.v ===== *)
(** * The physical page map (exec.c)

    Guest addresses are looked up in a radix tree over page numbers, whose
    leaves are numbers of sections.  A page that holds more than one section
    has a subpage, with a section number for each byte.  The map is built anew
    in each memory transaction: [core_begin] empties it, [mem_begin] gives each
    address space an empty tree, [mem_add] adds a section of the flat view, and
    [mem_commit] makes the new tree the current one.  The constants are those
    of the ARM target (target-arm/cpu.h, translate-all.h). *)

From stdpp Require Import gmap.
From S2P Require Import Prelude Memory.

Module Dispatch.
#[local] Open Scope Z_scope.

Definition TARGET_PAGE_BITS := 10.
Definition TARGET_PAGE_SIZE := 1 .<< TARGET_PAGE_BITS.
Definition TARGET_PAGE_MASK := Z.lnot (TARGET_PAGE_SIZE - 1).
Definition TARGET_PAGE_ALIGN (a : Z) : Z := u64 (a + TARGET_PAGE_SIZE - 1) .& TARGET_PAGE_MASK.
Definition L2_BITS := 10.
Definition L2_SIZE : nat := 1024.
Definition P_L2_LEVELS : nat := 3.

(** ** Data *)

Record PhysPageEntry := mkEntry { is_leaf : bool; ptr : Z }.
#[export] Instance eta_entry : RecEta PhysPageEntry := fun e => mkEntry (is_leaf e) (ptr e).
Abbreviation Node := (list PhysPageEntry).
Definition PHYS_MAP_NODE_NIL := u16 (Z.lnot 0) .>> 1.

Definition PHYS_SECTION_UNASSIGNED := 0.
Definition PHYS_SECTION_NOTDIRTY := 1.
Definition PHYS_SECTION_ROM := 2.
Definition PHYS_SECTION_WATCH := 3.

(** A region by its address: one of the memory tree, one of exec.c's own, or
    that of a subpage. *)
Inductive region :=
  Mr (p : Memory.ptr) | io_mem_unassigned | io_mem_notdirty | io_mem_rom | io_mem_watch | subpage_iomem (k : nat).
#[export] Instance region_eq_dec : EqDecision region.
Proof. solve_decision. Defined.
Record MemoryRegionSection := mkSection {
  mr : region; offset_within_region : Z; size : Z; offset_within_address_space : Z; readonly : bool
}.
#[export] Instance eta_section : RecEta MemoryRegionSection := fun s =>
  mkSection (mr s) (offset_within_region s) (size s) (offset_within_address_space s) (readonly s).
Record subpage_t := mkSubpage { as_of : positive; base : Z; sub_section : list Z }.
#[export] Instance eta_subpage : RecEta subpage_t := fun s => mkSubpage (as_of s) (base s) (sub_section s).

Record PhysPageMap := mkMap { nodes : list Node; nodes_nb_alloc : Z; sections : list MemoryRegionSection }.
#[export] Instance eta_map : RecEta PhysPageMap := fun m => mkMap (nodes m) (nodes_nb_alloc m) (sections m).
Record AddressSpaceDispatch := mkDispatch { phys_map : PhysPageEntry; d_nodes : list Node; d_sections : list MemoryRegionSection }.

(** The map that is built with the trees in it, the current trees, and the
    subpages that were allocated. *)
Record exec := mkExec {
  next_map : PhysPageMap;
  next_dispatch : gmap positive PhysPageEntry;
  dispatch : gmap positive AddressSpaceDispatch;
  subpages : list subpage_t
}.
#[export] Instance eta_exec : RecEta exec := fun d => mkExec (next_map d) (next_dispatch d) (dispatch d) (subpages d).
Implicit Types (d : exec) (e : PhysPageEntry) (s : MemoryRegionSection) (space : positive).

(** ** The tree *)

(** Where an entry is: the root of an address space, or a cell of a node. *)
Inductive place := root (space : positive) | cell (n i : nat).
Definition load d (lp : place) : option PhysPageEntry :=
  match lp with root a => next_dispatch d !! a | cell n i => row ← nodes (next_map d) !! n; row !! i end.
Definition store d (lp : place) e : exec :=
  match lp with
  | root a => d.[next_dispatch := <[a := e]> (next_dispatch d)]
  | cell n i => d.[next_map := (next_map d).[nodes := alter (<[i := e]>) n (nodes (next_map d))]]
  end.

(** The array of nodes has room for [nodes_nb_alloc]. *)
Definition phys_map_node_reserve d (n : Z) : exec :=
  let m := next_map d in
  let nb := Z.of_nat (length (nodes m)) in
  if nodes_nb_alloc m <? nb + n
  then d.[next_map := m.[nodes_nb_alloc := Z.max (Z.max (nodes_nb_alloc m * 2) 16) (nb + n)]]
  else d.
Definition phys_map_node_alloc d : option (exec * Z) :=
  let m := next_map d in
  let ret := u16 (Z.of_nat (length (nodes m))) in
  if (ret =? PHYS_MAP_NODE_NIL) || (ret =? nodes_nb_alloc m) then None
  else Some (d.[next_map := m.[nodes := nodes m ++ [replicate L2_SIZE (mkEntry false PHYS_MAP_NODE_NIL)]]], ret).

Definition digit (index : Z) (level : nat) : nat := Z.to_nat ((index .>> (Z.of_nat level * L2_BITS)) .& (Z.of_nat L2_SIZE - 1)).
(** The loop over the entries of node [p] from entry [i], of which [k] are
    left; [down] is the call for the level below. *)
Fixpoint set_entries (down : exec -> place -> Z -> Z -> option (exec * Z * Z)) (step leaf : Z) (p k i : nat) d (index nb : Z)
  : option (exec * Z * Z) :=
  match k with
  | O => Some (d, index, nb)
  | S k =>
      if nb =? 0 then Some (d, index, nb)
      else if ((index .& (step - 1)) =? 0) && (step <=? nb) then
        set_entries down step leaf p k (S i) (store d (cell p i) (mkEntry true leaf)) (u64 (index + step)) (nb - step)
      else '(d, index, nb) ← down d (cell p i) index nb; set_entries down step leaf p k (S i) d index nb
  end.
(** The node below an entry, which is made if there is none. *)
Definition node_below (level : nat) d (lp : place) : option (exec * nat) :=
  e ← load d lp;
  if negb (is_leaf e) && (ptr e =? PHYS_MAP_NODE_NIL) then
    '(d, n) ← phys_map_node_alloc d;
    let d := store d lp e.[ptr := n] in
    let p := Z.to_nat n in
    let unassigned := replicate L2_SIZE (mkEntry true PHYS_SECTION_UNASSIGNED) in
    Some (if (level =? 0)%nat then d.[next_map := (next_map d).[nodes := <[p := unassigned]> (nodes (next_map d))]] else d, p)
  else Some (d, Z.to_nat (ptr e)).
Fixpoint phys_page_set_level (level : nat) (leaf : Z) d (lp : place) (index nb : Z) : option (exec * Z * Z) :=
  let step := 1 .<< (Z.of_nat level * L2_BITS) in
  '(d, p) ← node_below level d lp;
  let i := digit index level in
  let down := match level with O => fun _ _ _ _ => None | S l => phys_page_set_level l leaf end in
  set_entries down step leaf p (L2_SIZE - i) i d index nb.
Definition phys_page_set d space (index nb leaf : Z) : option exec :=
  let d := phys_map_node_reserve d (3 * Z.of_nat P_L2_LEVELS) in
  '(d, _, _) ← phys_page_set_level (P_L2_LEVELS - 1) leaf d (root space) index nb;
  Some d.

(** The number of the section, with [k] levels below. *)
Fixpoint page_walk (k : nat) (lp : PhysPageEntry) (index : Z) (ns : list Node) : option Z :=
  match k with
  | O => Some (ptr lp)
  | S i =>
      if is_leaf lp then Some (ptr lp)
      else if ptr lp =? PHYS_MAP_NODE_NIL then Some PHYS_SECTION_UNASSIGNED
      else row ← ns !! Z.to_nat (ptr lp); lp ← row !! digit index i; page_walk i lp index ns
  end.
Definition phys_page_find (lp : PhysPageEntry) (index : Z) (ns : list Node) (ss : list MemoryRegionSection) : option MemoryRegionSection :=
  n ← page_walk P_L2_LEVELS lp index ns; ss !! Z.to_nat n.

(** ** Lookup *)

Definition SUBPAGE_IDX (a : Z) : Z := a .& Z.lnot TARGET_PAGE_MASK.
Definition address_space_lookup_region (sps : list subpage_t) (d : AddressSpaceDispatch) (a : Z) (resolve_subpage : bool)
  : option MemoryRegionSection :=
  s ← phys_page_find (phys_map d) (a .>> TARGET_PAGE_BITS) (d_nodes d) (d_sections d);
  match mr s with
  | subpage_iomem k =>
      if resolve_subpage then
        sp ← sps !! k; n ← sub_section sp !! Z.to_nat (SUBPAGE_IDX a); d_sections d !! Z.to_nat n
      else Some s
  | _ => Some s
  end.
(** [region_size] is the size of a region; the results are the section, the
    offset in its region and the length. *)
Definition address_space_translate_internal (region_size : region -> Z) (sps : list subpage_t) (d : AddressSpaceDispatch)
    (a plen : Z) (resolve_subpage : bool) : option (MemoryRegionSection * Z * Z) :=
  s ← address_space_lookup_region sps d a resolve_subpage;
  let a := u64 (a - offset_within_address_space s) in
  let xlat := u64 (a + offset_within_region s) in
  let diff := region_size (mr s) - a in
  Some (s, xlat, u64 (Z.min diff plen)).

(** ** Sections *)

Definition phys_section_add d s : option (exec * Z) :=
  let m := next_map d in
  let nb := Z.of_nat (length (sections m)) in
  if nb <? TARGET_PAGE_SIZE then Some (d.[next_map := m.[sections := sections m ++ [s]]], u16 nb) else None.

Fixpoint set_range {A} (k i : nat) (x : A) (l : list A) : list A :=
  match k with O => l | S k => set_range k (S i) x (<[i := x]> l) end.
Definition subpage_register (mmio : subpage_t) (start end' n : Z) : subpage_t * Z :=
  let start := u32 start in let end' := u32 end' in
  if (TARGET_PAGE_SIZE <=? start) || (TARGET_PAGE_SIZE <=? end') then (mmio, -1)
  else
    let idx := SUBPAGE_IDX start in let eidx := SUBPAGE_IDX end' in
    (mmio.[sub_section := set_range (Z.to_nat (eidx + 1 - idx)) (Z.to_nat idx) n (sub_section mmio)], 0).
Definition subpage_init space (b : Z) : subpage_t :=
  fst (subpage_register (mkSubpage space b (replicate (Z.to_nat TARGET_PAGE_SIZE) 0)) 0 (TARGET_PAGE_SIZE - 1) PHYS_SECTION_UNASSIGNED).

(** The subpage of the page at [b], which is made if there is none. *)
Definition page_subpage d space (b : Z) : option (exec * nat) :=
  e ← next_dispatch d !! space;
  existing ← phys_page_find e (b .>> TARGET_PAGE_BITS) (nodes (next_map d)) (sections (next_map d));
  match mr existing with
  | subpage_iomem k => Some (d, k)
  | io_mem_unassigned =>
      let k := length (subpages d) in
      let d := d.[subpages := subpages d ++ [subpage_init space b]] in
      '(d, n) ← phys_section_add d (mkSection (subpage_iomem k) 0 TARGET_PAGE_SIZE b false);
      d ← phys_page_set d space (b .>> TARGET_PAGE_BITS) 1 n;
      Some (d, k)
  | _ => None
  end.
Definition register_subpage d space s : option exec :=
  let b := offset_within_address_space s .& TARGET_PAGE_MASK in
  '(d, k) ← page_subpage d space b;
  let start := offset_within_address_space s .& Z.lnot TARGET_PAGE_MASK in
  let end' := u64 (start + u64 (size s) - 1) in
  '(d, n) ← phys_section_add d s;
  Some d.[subpages := alter (fun sp => fst (subpage_register sp start end' n)) k (subpages d)].
Definition register_multipage d space s : option exec :=
  let start_addr := offset_within_address_space s in
  '(d, n) ← phys_section_add d s;
  let num_pages := u64 (size s .>> TARGET_PAGE_BITS) in
  if num_pages =? 0 then None else phys_page_set d space (start_addr .>> TARGET_PAGE_BITS) num_pages n.

(** [fuel] rounds; a round ends with a section [now] that was registered, at
    the start of [remain]. *)
Fixpoint add_rest (fuel : nat) d space (now remain : MemoryRegionSection) : option exec :=
  if size remain =? size now then Some d
  else
    match fuel with
    | O => None
    | S fuel =>
        let remain := remain.[size := size remain - size now]
                            .[offset_within_address_space := u64 (offset_within_address_space remain + u64 (size now))]
                            .[offset_within_region := u64 (offset_within_region remain + u64 (size now))] in
        let now := remain in
        if size remain <? TARGET_PAGE_SIZE then
          d ← register_subpage d space now; add_rest fuel d space now remain
        else if truth (offset_within_region remain .& Z.lnot TARGET_PAGE_MASK) then
          let now := now.[size := TARGET_PAGE_SIZE] in
          d ← register_subpage d space now; add_rest fuel d space now remain
        else
          let now := now.[size := size now .& - TARGET_PAGE_SIZE] in
          d ← register_multipage d space now; add_rest fuel d space now remain
    end.
Definition mem_add d space s : option exec :=
  let fuel := S (S (Z.to_nat (size s .>> TARGET_PAGE_BITS))) in
  if truth (offset_within_address_space s .& Z.lnot TARGET_PAGE_MASK) then
    let left := u64 (TARGET_PAGE_ALIGN (offset_within_address_space s) - offset_within_address_space s) in
    let now := s.[size := Z.min left (size s)] in
    d ← register_subpage d space now; add_rest fuel d space now s
  else add_rest fuel d space s.[size := 0] s.

(** ** Transactions *)

Definition dummy_section d (r : region) : option (exec * Z) := phys_section_add d (mkSection r 0 Memory.int128_2_64 0 false).
Definition core_begin d : option exec :=
  let d := d.[next_map := mkMap [] 0 []] in
  '(d, n) ← dummy_section d io_mem_unassigned; guard (n = PHYS_SECTION_UNASSIGNED);;
  '(d, n) ← dummy_section d io_mem_notdirty; guard (n = PHYS_SECTION_NOTDIRTY);;
  '(d, n) ← dummy_section d io_mem_rom; guard (n = PHYS_SECTION_ROM);;
  '(d, n) ← dummy_section d io_mem_watch; guard (n = PHYS_SECTION_WATCH);;
  Some d.
Definition mem_begin d space : exec := d.[next_dispatch := <[space := mkEntry false PHYS_MAP_NODE_NIL]> (next_dispatch d)].
Definition mem_commit d space : option exec :=
  next ← next_dispatch d !! space;
  Some d.[dispatch := <[space := mkDispatch next (nodes (next_map d)) (sections (next_map d))]> (dispatch d)].
End Dispatch.
