(* ===== verification/DispatchTree.v ===== *)
(** * Correctness of the page tree (exec.c)

    [phys_page_set] makes a range of pages that no section has yet map to a
    section, and changes no other page of any address space.  The nodes of all
    trees are in one array; the proof gives each node a position (its address
    space, its level and its first page), so that two entries at different
    positions never share a node. *)

From stdpp Require Import gmap.
From S2P Require Import Prelude Dispatch.

Module DispatchTree.
Import Dispatch.
#[local] Open Scope Z_scope.
Implicit Types (d : exec) (e : PhysPageEntry) (a : positive).

(** ** Digits of a page number *)

(** The pages of an entry that has [k] levels below it. *)
Definition span (k : nat) : Z := 2 ^ (10 * Z.of_nat k).

Lemma span_positive k : 0 < span k.
Proof. unfold span. lia. Qed.
Lemma span_S k : span (S k) = 1024 * span k.
Proof. unfold span. replace (10 * Z.of_nat (S k)) with (10 + 10 * Z.of_nat k) by lia. rewrite Z.pow_add_r by lia. done. Qed.
Lemma step_span l : 1 .<< (Z.of_nat l * L2_BITS) = span l.
Proof. unfold span, L2_BITS. rewrite Z.shiftl_mul_pow2 by lia. rewrite Z.mul_1_l. f_equal. lia. Qed.
Lemma step_aligned index l : ((index .& (span l - 1)) =? 0) = (index mod span l =? 0).
Proof.
  unfold span. replace (2 ^ (10 * Z.of_nat l) - 1) with (Z.ones (10 * Z.of_nat l)) by (rewrite Z.ones_equiv; lia).
  rewrite Z.land_ones by lia. done.
Qed.
Lemma digit_mod index l : 0 <= index -> Z.of_nat (digit index l) = index / span l mod 1024.
Proof.
  intros H. unfold digit, L2_BITS, L2_SIZE. rewrite Z.shiftr_div_pow2 by lia. change (Z.of_nat 1024 - 1) with (Z.ones 10).
  rewrite Z.land_ones by lia. unfold span. replace (Z.of_nat l * 10) with (10 * Z.of_nat l) by lia.
  rewrite Z2Nat.id; [done|]. apply Z.mod_pos_bound. lia.
Qed.
(** Within a node whose first page is [b]. *)
Lemma digit_range index l b : 0 <= b -> b mod span (S l) = 0 -> b <= index < b + span (S l) ->
  (digit index l < 1024)%nat /\ b + Z.of_nat (digit index l) * span l <= index < b + (Z.of_nat (digit index l) + 1) * span l.
Proof.
  intros Hb Hm Hi. pose proof (span_positive l) as Hs. rewrite span_S in *.
  assert (Hd := digit_mod index l ltac:(lia)). apply Z.div_exact in Hm; [|lia].
  remember (b / (1024 * span l)) as q. assert (index / span l = 1024 * q + (index - b) / span l) as Hq.
  { replace index with ((1024 * q) * span l + (index - b)) at 1 by lia. rewrite Z.div_add_l by lia. done. }
  assert (0 <= (index - b) / span l < 1024) as Hr.
  { split; [apply Z.div_pos; lia|]. apply Z.div_lt_upper_bound; lia. }
  rewrite Hq, Z.add_comm, Z.mul_comm, Z.mod_add, Z.mod_small in Hd by lia.
  pose proof (Z.mul_div_le (index - b) (span l) Hs). pose proof (Z.mul_succ_div_gt (index - b) (span l) Hs).
  rewrite Hd. split; [lia|]. nia.
Qed.
Lemma digit_unique index l b i : 0 <= b -> b mod span (S l) = 0 -> (i < 1024)%nat ->
  b + Z.of_nat i * span l <= index < b + (Z.of_nat i + 1) * span l -> digit index l = i.
Proof.
  intros Hb Hm Hl Hi. pose proof (span_positive l). pose proof (span_S l).
  destruct (digit_range index l b) as [Hd Hr]; [done|done|nia|]. 
  assert (Z.of_nat (digit index l) = Z.of_nat i) by nia. lia.
Qed.

(** ** Positions *)

Abbreviation position := (positive * nat * Z)%type.
Implicit Types (pos : list position).

(** An entry for the [span k] pages from [b] of the tree of [a]. *)
Definition valid pos a (k : nat) (b : Z) e : Prop :=
  match k with
  | O => is_leaf e = true
  | S l =>
      if is_leaf e then ptr e <> PHYS_SECTION_UNASSIGNED
      else ptr e = PHYS_MAP_NODE_NIL \/ 0 <= ptr e /\ pos !! Z.to_nat (ptr e) = Some (a, l, b)
  end.
Definition wf_node d pos (n : nat) : Prop := forall a l b, pos !! n = Some (a, l, b) ->
  (l <= 2)%nat /\ 0 <= b /\ b mod span (S l) = 0 /\ b + span (S l) <= span 3 /\
  forall j, (j < L2_SIZE)%nat -> exists e, load d (cell n j) = Some e /\ valid pos a l (b + Z.of_nat j * span l) e.
Record wf d pos : Prop := {
  wf_length : length pos = length (nodes (next_map d));
  wf_nil : Z.of_nat (length pos) <= PHYS_MAP_NODE_NIL;
  wf_nodes n : wf_node d pos n;
  wf_roots a e : next_dispatch d !! a = Some e -> is_leaf e = false /\ valid pos a 3 0 e
}.

(** The place of such an entry. *)
Definition slot pos (lp : place) a (k : nat) (b : Z) : Prop :=
  match lp with
  | root a' => a' = a /\ k = 3%nat /\ b = 0
  | cell n i => (i < L2_SIZE)%nat /\ exists b0, pos !! n = Some (a, k, b0) /\ b = b0 + Z.of_nat i * span k
  end.
(** [d'] has the entries of [d], but for [x] and those that are in the tree
    of [a] below an entry for the [span k] pages from [b]. *)
Definition frame d d' pos a (k : nat) (b : Z) (x : option place) : Prop :=
  forall lp a' k' b', slot pos lp a' k' b' -> Some lp <> x -> ~ (a' = a /\ (k' < k)%nat /\ b <= b' < b + span k) -> load d' lp = load d lp.

Lemma wf_slot d pos lp a k b : wf d pos -> slot pos lp a k b -> (k <= 3)%nat /\ 0 <= b /\ b mod span k = 0 /\ b + span k <= span 3.
Proof.
  intros W. destruct lp as [a'|n i]; simpl.
  - intros (-> & -> & ->). repeat split; try lia.
  - intros (Hi & b0 & Hn & ->). destruct (wf_nodes _ _ W _ _ _ _ Hn) as (Hk & H0 & Hm & Hb & _).
    pose proof (span_positive k). rewrite (span_S k) in Hm, Hb. unfold L2_SIZE in Hi. repeat split; try nia.
    apply Z.div_exact in Hm; [|lia]. rewrite Hm. replace (1024 * span k * (b0 / (1024 * span k)) + Z.of_nat i * span k)
      with ((1024 * (b0 / (1024 * span k)) + Z.of_nat i) * span k) by lia. apply Z.mod_mul. lia.
Qed.
Lemma wf_cell d pos n a l b i : wf d pos -> pos !! n = Some (a, l, b) -> (i < L2_SIZE)%nat ->
  exists e, load d (cell n i) = Some e /\ valid pos a l (b + Z.of_nat i * span l) e.
Proof. intros W Hn. destruct (wf_nodes _ _ W _ _ _ _ Hn) as (_ & _ & _ & _ & H). apply H. Qed.
(** Both bases are multiples of their spans. *)
Lemma nested k k' b b' : (k' <= k)%nat -> b mod span k = 0 -> b' mod span k' = 0 -> b <= b' < b + span k -> b' + span k' <= b + span k.
Proof.
  intros Hk Hb Hb' Hr. pose proof (span_positive k'). assert (span k = span (k - k') * span k') as E.
  { unfold span. rewrite <- Z.pow_add_r by lia. f_equal. lia. }
  pose proof (span_positive k). apply Z.div_exact in Hb, Hb'; [|lia|lia]. rewrite E in *. 
  set (q := b / (span (k - k') * span k')) in *. set (q' := b' / span k') in *.
  assert (q' < span (k - k') * (q + 1)) by (apply (Z.mul_lt_mono_pos_l (span k')); lia).
  assert (span k' * (q' + 1) <= span k' * (span (k - k') * (q + 1))) by (apply Z.mul_le_mono_nonneg_l; lia). lia.
Qed.

Lemma valid_mono pos pos' a k b e : pos `prefix_of` pos' -> valid pos a k b e -> valid pos' a k b e.
Proof.
  intros [t ->]. destruct k as [|l]; simpl; [done|]. destruct (is_leaf e); [done|]. intros [?|[? ?]]; [by left|].
  right. split; [done|]. by apply lookup_app_l_Some.
Qed.
Lemma slot_mono pos pos' lp a k b : pos `prefix_of` pos' -> slot pos lp a k b -> slot pos' lp a k b.
Proof. intros [t ->]. destruct lp; simpl; [done|]. intros (? & b0 & ? & ->). split; [done|]. exists b0. split; [by apply lookup_app_l_Some|done]. Qed.
Lemma frame_trans d d1 d2 pos pos1 a k b x : pos `prefix_of` pos1 ->
  frame d d1 pos a k b x -> frame d1 d2 pos1 a k b x -> frame d d2 pos a k b x.
Proof. intros P F1 F2 lp a' k' b' H X Y. rewrite (F2 lp a' k' b'); [by eapply F1|by eapply slot_mono|done|done]. Qed.

(** ** Walks *)

(** The section number of a page, from a node of level [l]. *)
Definition node_walk d (l n : nat) (idx : Z) : option Z :=
  e ← load d (cell n (digit idx l)); page_walk l e idx (nodes (next_map d)).

Lemma walk_node d l e idx : is_leaf e = false -> ptr e <> PHYS_MAP_NODE_NIL ->
  page_walk (S l) e idx (nodes (next_map d)) = node_walk d l (Z.to_nat (ptr e)) idx.
Proof.
  intros Hl Hn. unfold node_walk, load. cbn [page_walk]. rewrite Hl. destruct (Z.eqb_spec (ptr e) PHYS_MAP_NODE_NIL); [done|].
  by destruct (nodes (next_map d) !! _).
Qed.
Lemma wf_node_nil d pos n x : wf d pos -> pos !! n = Some x -> Z.of_nat n <> PHYS_MAP_NODE_NIL.
Proof. intros W H. apply lookup_lt_Some in H. pose proof (wf_nil _ _ W). lia. Qed.

(** What is outside a frame is looked up as before. *)
Lemma walk_frame d d' pos a k b x : wf d pos -> frame d d' pos a k b x -> b mod span k = 0 ->
  (forall lp, x = Some lp -> slot pos lp a k b) -> forall m e a' b' idx,
  valid pos a' m b' e -> b' <= idx < b' + span m -> a' <> a \/ ~ b <= idx < b + span k ->
  page_walk m e idx (nodes (next_map d')) = page_walk m e idx (nodes (next_map d)).
Proof.
  intros W F Hb Hx. induction m as [|m IH]; intros e a' b' idx V Hi Ho; [done|]. simpl in V.
  destruct (is_leaf e) eqn:El; [cbn [page_walk]; by rewrite El|].
  destruct V as [V|[V0 V]]; [cbn [page_walk]; by rewrite El, V, Z.eqb_refl|].
  assert (ptr e <> PHYS_MAP_NODE_NIL) by (pose proof (wf_node_nil _ _ _ _ W V); lia).
  rewrite !walk_node by done. destruct (wf_nodes _ _ W _ _ _ _ V) as (_ & H0 & Hm & _ & Hc).
  destruct (digit_range idx m b') as [Hd Hr]; [done..|]. destruct (Hc _ Hd) as (e1 & He1 & V1).
  set (b1 := b' + Z.of_nat (digit idx m) * span m) in *.
  assert (slot pos (cell (Z.to_nat (ptr e)) (digit idx m)) a' m b1) as Sl by (split; [done|eauto]).
  destruct (wf_slot _ _ _ _ _ _ W Sl) as (_ & _ & Hb1 & _). unfold node_walk. rewrite (F _ _ _ _ Sl), He1.
  - cbn [mbind option_bind]. apply (IH _ a' b1); [done|lia|done].
  - intros E. destruct (Hx _ (eq_sym E)) as (_ & b0 & E1 & E2). rewrite V in E1. simplify_eq.
    destruct Ho as [?|Ho]; [done|]. apply Ho. lia.
  - intros (-> & Hk & Hin). destruct Ho as [?|Ho]; [done|]. apply Ho. pose proof (nested k m b b1 ltac:(lia) Hb Hb1 Hin). lia.
Qed.
Lemma node_walk_frame d d' pos a k b x : wf d pos -> frame d d' pos a k b x -> b mod span k = 0 ->
  (forall lp, x = Some lp -> slot pos lp a k b) -> forall n a' l b' idx,
  pos !! n = Some (a', l, b') -> b' <= idx < b' + span (S l) -> a' <> a \/ ~ b <= idx < b + span k ->
  node_walk d' l n idx = node_walk d l n idx.
Proof.
  intros W F Hb Hx n a' l b' idx Hn Hi Ho. pose proof (wf_node_nil _ _ _ _ W Hn).
  pose proof (walk_frame _ _ _ _ _ _ _ W F Hb Hx (S l) (mkEntry false (Z.of_nat n)) a' b' idx) as H1.
  rewrite !walk_node in H1 by done. simpl in H1. rewrite Nat2Z.id in H1. apply H1; [|done|done].
  right. split; [lia|done].
Qed.

(** ** Stores *)

#[export] Instance place_eq_dec : EqDecision place.
Proof. solve_decision. Defined.

Lemma load_store d lp e0 e lp' : load d lp = Some e0 ->
  load (store d lp e) lp' = if decide (lp' = lp) then Some e else load d lp'.
Proof.
  destruct lp as [a|n i], lp' as [a'|n' i']; simpl; intros H.
  - destruct (decide (root a' = root a)) as [E|E]; [injection E as ->; apply lookup_insert_eq|]. apply lookup_insert_ne. congruence.
  - done.
  - done.
  - apply bind_Some in H as (row & Hrow & Hi). destruct (decide (n' = n)) as [->|Hn].
    + rewrite list_lookup_alter_eq, Hrow. cbn [fmap option_fmap option_map mbind option_bind].
      destruct (decide (cell n i' = cell n i)) as [E|E].
      * injection E as ->. rewrite list_lookup_insert_eq; [done|]. by apply lookup_lt_Some in Hi.
      * apply list_lookup_insert_ne. congruence.
    + rewrite list_lookup_alter_ne by done. rewrite decide_False by congruence. done.
Qed.
Lemma store_length d lp e : length (nodes (next_map (store d lp e))) = length (nodes (next_map d)).
Proof. destruct lp; simpl; [done|]. apply length_alter. Qed.
Lemma wf_store d pos lp a k b e0 e : wf d pos -> slot pos lp a k b -> load d lp = Some e0 ->
  valid pos a k b e -> (k = 3%nat -> is_leaf e = false) -> wf (store d lp e) pos.
Proof.
  intros W Sl Hl V Hr. split.
  - rewrite store_length. apply W.
  - apply W.
  - intros n a' l b' Hn. destruct (wf_nodes _ _ W _ _ _ _ Hn) as (H1 & H2 & H3 & H4 & Hc). repeat split; try done.
    intros j Hj. rewrite (load_store _ _ _ _ _ Hl). destruct (decide (cell n j = lp)) as [<-|]; [|by apply Hc].
    exists e. split; [done|]. destruct Sl as (_ & b0 & Hn' & ->). rewrite Hn in Hn'. by simplify_eq.
  - intros a' e' He'. assert (load (store d lp e) (root a') = Some e') as Hld by done. rewrite (load_store _ _ _ _ _ Hl) in Hld.
    destruct (decide (root a' = lp)) as [<-|]; [|by apply W]. destruct Sl as (-> & -> & ->). simplify_eq. auto.
Qed.

(** ** New nodes *)

Definition extend d (row : list PhysPageEntry) : exec := d.[next_map := (next_map d).[nodes := nodes (next_map d) ++ [row]]].
Definition fresh (l : nat) : list PhysPageEntry :=
  replicate L2_SIZE (if (l =? 0)%nat then mkEntry true PHYS_SECTION_UNASSIGNED else mkEntry false PHYS_MAP_NODE_NIL).
(** What a change of the trees leaves alone. *)
Definition rest d := (nodes_nb_alloc (next_map d), sections (next_map d), dispatch d, subpages d).

Lemma load_extend d row lp pos a k b : length pos = length (nodes (next_map d)) -> slot pos lp a k b -> load (extend d row) lp = load d lp.
Proof.
  intros Hl. destruct lp as [a'|n i]; [done|]. intros (_ & b0 & Hn & _). apply lookup_lt_Some in Hn. simpl.
  rewrite lookup_app_l by lia. done.
Qed.
Lemma load_fresh d l i : (i < L2_SIZE)%nat -> load (extend d (fresh l)) (cell (length (nodes (next_map d))) i) =
  Some (if (l =? 0)%nat then mkEntry true PHYS_SECTION_UNASSIGNED else mkEntry false PHYS_MAP_NODE_NIL).
Proof.
  intros Hi. simpl. rewrite lookup_app_r, Nat.sub_diag by lia. cbn [lookup list_lookup mbind option_bind].
  by apply lookup_replicate_2.
Qed.
Lemma wf_extend d pos lp a l b : wf d pos -> slot pos lp a (S l) b -> Z.of_nat (length pos) < PHYS_MAP_NODE_NIL ->
  wf (extend d (fresh l)) (pos ++ [(a, l, b)]).
Proof.
  intros W Sl Hnil. assert (P : pos `prefix_of` pos ++ [(a, l, b)]) by by eexists.
  pose proof (wf_length _ _ W) as HL. destruct (wf_slot _ _ _ _ _ _ W Sl) as (Hk & H0 & Hm & Hb). split.
  - simpl. rewrite !length_app. simpl. lia.
  - rewrite length_app. simpl. lia.
  - intros n a' l' b' Hn. apply lookup_app_Some in Hn as [Hn|[Hge Hn]].
    + destruct (wf_nodes _ _ W _ _ _ _ Hn) as (H1 & H2 & H3 & H4 & Hc). repeat split; try done. intros j Hj.
      rewrite (load_extend _ _ _ pos a' l' (b' + Z.of_nat j * span l')); [|done|split; [done|eauto]].
      destruct (Hc j Hj) as (e & He & V). exists e. split; [done|]. by eapply valid_mono.
    + apply list_lookup_singleton_Some in Hn as [Hn E]. injection E as <- <- <-. repeat split; [lia|done|done|done|].
      intros j Hj. replace n with (length (nodes (next_map d))) by lia. rewrite load_fresh by done. eexists. split; [done|].
      destruct l as [|l]; simpl; [done|by left].
  - intros a' e He. destruct (wf_roots _ _ W _ _ He) as [? V]. split; [done|]. by eapply valid_mono.
Qed.
Lemma store_refill d row row' lp e : (forall n i, lp = cell n i -> (n < length (nodes (next_map d)))%nat) ->
  let d' := store (extend d row) lp e in
  d'.[next_map := (next_map d').[nodes := <[length (nodes (next_map d)) := row']> (nodes (next_map d'))]] = store (extend d row') lp e.
Proof.
  destruct d as [[ns al ss] nd di sp]. destruct lp as [a|n i]; intros H; unfold extend, set_field; simpl; do 2 f_equal.
  - rewrite insert_app_r_alt, Nat.sub_diag by lia. done.
  - specialize (H n i eq_refl). simpl in H. rewrite !alter_app_l by lia.
    rewrite insert_app_r_alt by (rewrite length_alter; lia). by rewrite length_alter, Nat.sub_diag.
Qed.
Lemma node_alloc d (l : nat) : Z.of_nat (length (nodes (next_map d))) < PHYS_MAP_NODE_NIL ->
  Z.of_nat (length (nodes (next_map d))) < nodes_nb_alloc (next_map d) ->
  phys_map_node_alloc d = Some (extend d (replicate L2_SIZE (mkEntry false PHYS_MAP_NODE_NIL)), Z.of_nat (length (nodes (next_map d)))).
Proof.
  intros Hn Ha. unfold phys_map_node_alloc. change PHYS_MAP_NODE_NIL with 32767 in Hn |- *. 
  replace (u16 (Z.of_nat (length (nodes (next_map d))))) with (Z.of_nat (length (nodes (next_map d)))) by (rewrite u16_small; [done|unfold is_u; lia]).
  destruct (Z.eqb_spec (Z.of_nat (length (nodes (next_map d)))) 32767); [lia|].
  destruct (Z.eqb_spec (Z.of_nat (length (nodes (next_map d)))) (nodes_nb_alloc (next_map d))); [lia|]. done.
Qed.

(** The entry [lp] got a node; no page maps to another section. *)
Record opened d d' pos pos' (lp : place) a (l : nat) (b : Z) (e : PhysPageEntry) (p : nat) : Prop := {
  op_pos : pos `prefix_of` pos';
  op_wf : wf d' pos';
  op_node : pos' !! p = Some (a, l, b);
  op_frame : frame d d' pos a (S l) b (Some lp);
  op_entry : load d' lp = Some (mkEntry false (Z.of_nat p));
  op_walk idx : b <= idx < b + span (S l) -> node_walk d' l p idx = page_walk (S l) e idx (nodes (next_map d));
  op_size : (length pos' <= length pos + 1)%nat;
  op_rest : rest d' = rest d
}.
Lemma slot_old d pos lp a k b : wf d pos -> slot pos lp a k b -> forall n i, lp = cell n i -> (n < length (nodes (next_map d)))%nat.
Proof. intros W Sl n i ->. destruct Sl as (_ & b0 & Hn & _). apply lookup_lt_Some in Hn. by rewrite <- (wf_length _ _ W). Qed.
Lemma open_new l d pos lp a b : wf d pos -> slot pos lp a (S l) b ->
  load d lp = Some (mkEntry false PHYS_MAP_NODE_NIL) -> Z.of_nat (length pos) < PHYS_MAP_NODE_NIL ->
  opened d (store (extend d (fresh l)) lp (mkEntry false (Z.of_nat (length pos)))) pos (pos ++ [(a, l, b)]) lp a l b
    (mkEntry false PHYS_MAP_NODE_NIL) (length pos).
Proof.
  intros W Sl He Hn. assert (P : pos `prefix_of` pos ++ [(a, l, b)]) by by eexists. pose proof (wf_length _ _ W) as HL.
  pose proof (wf_extend _ _ _ _ _ _ W Sl Hn) as W1. assert (Sl1 := slot_mono _ _ _ _ _ _ P Sl).
  assert (He1 : load (extend d (fresh l)) lp = Some (mkEntry false PHYS_MAP_NODE_NIL)) by by rewrite (load_extend _ _ _ pos a (S l) b).
  assert (Hp : (pos ++ [(a, l, b)]) !! length pos = Some (a, l, b)) by by rewrite lookup_app_r, Nat.sub_diag.
  set (d1 := extend d (fresh l)) in *. set (e1 := mkEntry false (Z.of_nat (length pos))).
  assert (W2 : wf (store d1 lp e1) (pos ++ [(a, l, b)])).
  { eapply wf_store; [done..| |done]. right. simpl. split; [lia|]. by rewrite Nat2Z.id. }
  split; [done|done|done| | | |rewrite length_app; simpl; lia|by destruct lp].
  - intros lp' a' k' b' Sl' X _. rewrite (load_store _ _ _ _ _ He1), decide_False by congruence. by eapply load_extend.
  - by rewrite (load_store _ _ _ _ _ He1), decide_True.
  - intros idx Hi. destruct (wf_slot _ _ _ _ _ _ W Sl) as (_ & H0 & Hm & _). destruct (digit_range idx l b) as [Hd _]; [done..|].
    unfold node_walk. rewrite (load_store _ _ _ _ _ He1), decide_False.
    + unfold d1. rewrite HL, load_fresh by done. cbn [mbind option_bind]. by destruct l.
    + intros <-. destruct Sl as (_ & b0 & Hlt & _). apply lookup_lt_Some in Hlt. lia.
Qed.
Lemma node_below_ok l d pos lp a b e idx : wf d pos -> slot pos lp a (S l) b -> load d lp = Some e ->
  b <= idx < b + span (S l) -> page_walk (S l) e idx (nodes (next_map d)) = Some PHYS_SECTION_UNASSIGNED ->
  Z.of_nat (length pos) < PHYS_MAP_NODE_NIL -> Z.of_nat (length pos) < nodes_nb_alloc (next_map d) ->
  exists d' pos' p, node_below l d lp = Some (d', p) /\ opened d d' pos pos' lp a l b e p.
Proof.
  intros W Sl He Hi Hfree Hn Ha. unfold node_below. rewrite He. cbn [mbind option_bind]. pose proof (wf_length _ _ W) as HL.
  assert (valid pos a (S l) b e) as V.
  { destruct lp as [a'|n i]; simpl in He.
    - destruct Sl as (-> & Hk & ->). injection Hk as ->. by apply (wf_roots _ _ W).
    - destruct Sl as (Hlt & b0 & Hp & ->). destruct (wf_cell _ _ _ _ _ _ _ W Hp Hlt) as (e' & He' & V). simpl in He'. by simplify_eq. }
  simpl in V. destruct (is_leaf e) eqn:El; [cbn [page_walk] in Hfree; rewrite El in Hfree; congruence|]. cbn [negb andb].
  destruct (Z.eqb_spec (ptr e) PHYS_MAP_NODE_NIL) as [En|En].
  - replace e with (mkEntry false PHYS_MAP_NODE_NIL) in * by (destruct e; simpl in *; congruence).
    exists (store (extend d (fresh l)) lp (mkEntry false (Z.of_nat (length pos)))), (pos ++ [(a, l, b)]), (length pos).
    split; [|by apply open_new]. rewrite node_alloc by (done || lia). cbn [mbind option_bind]. rewrite Nat2Z.id, HL.
    f_equal. f_equal. destruct l as [|l]; [|done]. cbn [Nat.eqb].
    rewrite <- (store_refill d (replicate L2_SIZE (mkEntry false PHYS_MAP_NODE_NIL)) (fresh 0)) by by eapply slot_old. done.
  - destruct V as [V|[V0 V]]; [done|]. exists d, pos, (Z.to_nat (ptr e)). split; [done|].
    split; [done|done|done|by intros ???????|rewrite He; f_equal; destruct e; simpl in *; f_equal; [done|lia]| |lia|done].
    intros idx' _. by rewrite walk_node.
Qed.

(** ** The entries of a node *)

Section Entries.
Context (l p : nat) (a : positive) (b : Z).

Lemma frame_widen d d' pos i : wf d pos -> pos !! p = Some (a, l, b) -> (i < L2_SIZE)%nat ->
  frame d d' pos a l (b + Z.of_nat i * span l) (Some (cell p i)) -> frame d d' pos a (S l) b None.
Proof.
  intros W Hp Hi F lp a' k' b' Sl _ Ho. pose proof (span_positive l). pose proof (span_S l). unfold L2_SIZE in Hi. apply (F lp a' k' b' Sl).
  - intros E. injection E as ->. destruct Sl as (_ & b0 & Hp' & ->). rewrite Hp in Hp'. simplify_eq. apply Ho. repeat split; [lia|nia|nia].
  - intros (-> & Hk & Hin). apply Ho. repeat split; [lia|nia|nia].
Qed.
Lemma cell_step d d' pos i e' idx : wf d pos -> pos !! p = Some (a, l, b) -> (i < L2_SIZE)%nat ->
  frame d d' pos a l (b + Z.of_nat i * span l) (Some (cell p i)) -> load d' (cell p i) = Some e' -> b <= idx < b + span (S l) ->
  node_walk d' l p idx =
    if bool_decide (b + Z.of_nat i * span l <= idx < b + (Z.of_nat i + 1) * span l) then page_walk l e' idx (nodes (next_map d'))
    else node_walk d l p idx.
Proof.
  intros W Hp Hi F He' Hx. destruct (wf_nodes _ _ W _ _ _ _ Hp) as (_ & H0 & Hm & _ & Hc). unfold node_walk.
  case_bool_decide as Hin.
  - rewrite (digit_unique idx l b i); [|done|done|done|done]. rewrite He'. done.
  - destruct (digit_range idx l b) as [Hd Hr]; [done..|]. destruct (Hc _ Hd) as (e & He & V).
    assert (slot pos (cell p i) a l (b + Z.of_nat i * span l)) as Sl by (split; [done|eauto]).
    destruct (wf_slot _ _ _ _ _ _ W Sl) as (_ & _ & Hmi & _).
    rewrite (F (cell p (digit idx l)) a l (b + Z.of_nat (digit idx l) * span l)), He.
    + cbn [mbind option_bind]. eapply walk_frame; [done..| |exact V|lia|right; lia]. by intros ? [= <-].
    + split; [done|eauto].
    + intros [= E]. rewrite E in Hr. lia.
    + lia.
Qed.
End Entries.

Definition budget (k : nat) : nat := 2 ^ k - 1.
Definition within (index nb idx : Z) : bool := (index <=? idx) && (idx <? index + nb).
(** There is room for [n] more nodes. *)
Definition room d pos (n : nat) : Prop :=
  Z.of_nat (length pos + n) <= PHYS_MAP_NODE_NIL /\ Z.of_nat (length pos + n) <= nodes_nb_alloc (next_map d).
(** [d'] has at most [n] nodes more, and is [d] but for what is in the tree of
    [a] below an entry for the [span k] pages from [b]. *)
Record grown d d' pos pos' a (k : nat) (b : Z) (x : option place) (n : nat) : Prop := {
  gr_pos : pos `prefix_of` pos';
  gr_wf : wf d' pos';
  gr_frame : frame d d' pos a k b x;
  gr_size : (length pos' <= length pos + n)%nat;
  gr_rest : rest d' = rest d
}.
(** [f] maps the free pages from [index] to [leaf], as far as the entry goes. *)
Definition set_spec (k : nat) (leaf : Z) (f : exec -> place -> Z -> Z -> option (exec * Z * Z)) : Prop :=
  forall d pos lp a b e index nb, wf d pos -> slot pos lp a k b -> load d lp = Some e ->
  b <= index < b + span k -> 0 < nb -> index + nb <= 2 ^ 62 -> room d pos (budget k) ->
  (forall idx, b <= idx < b + span k -> within index nb idx = true -> page_walk k e idx (nodes (next_map d)) = Some PHYS_SECTION_UNASSIGNED) ->
  let stop := Z.min (index + nb) (b + span k) in
  exists d' pos' e', f d lp index nb = Some (d', stop, index + nb - stop) /\ grown d d' pos pos' a k b (Some lp) (budget k) /\
    load d' lp = Some e' /\ forall idx, b <= idx < b + span k ->
      page_walk k e' idx (nodes (next_map d')) = if within index nb idx then Some leaf else page_walk k e idx (nodes (next_map d)).

Lemma store_grown d pos p i a l b0 e0 leaf : wf d pos -> slot pos (cell p i) a l b0 -> load d (cell p i) = Some e0 -> leaf <> 0 ->
  (l <= 2)%nat -> grown d (store d (cell p i) (mkEntry true leaf)) pos pos a l b0 (Some (cell p i)) 0.
Proof.
  intros W Sl He Hl H2. split; [done| | |lia|done].
  - eapply wf_store; [done..| |lia]. by destruct l.
  - intros lp a' k' b' _ X _. rewrite (load_store _ _ _ _ _ He), decide_False by congruence. done.
Qed.
Lemma rest_room d d' pos pos' n m : rest d' = rest d -> (length pos' + m <= length pos + n)%nat -> room d pos n -> room d' pos' m.
Proof. unfold room, rest. intros [= -> _ _ _]. lia. Qed.

Lemma grown_trans d d1 d2 pos pos1 pos2 a k b x n m r :
  grown d d1 pos pos1 a k b x n -> grown d1 d2 pos1 pos2 a k b x m -> (n + m <= r)%nat -> grown d d2 pos pos2 a k b x r.
Proof.
  intros G1 G2 Hr. split.
  - etrans; [apply G1|apply G2].
  - apply G2.
  - eapply frame_trans; [apply G1|apply G1|apply G2].
  - pose proof (gr_size _ _ _ _ _ _ _ _ _ G1). pose proof (gr_size _ _ _ _ _ _ _ _ _ G2). lia.
  - rewrite (gr_rest _ _ _ _ _ _ _ _ _ G2). apply G1.
Qed.
Lemma grown_room d d1 pos pos1 a k b x n m r : grown d d1 pos pos1 a k b x n -> (n + m <= r)%nat -> room d pos r -> room d1 pos1 m.
Proof. intros G Hr. apply rest_room; [apply G|]. pose proof (gr_size _ _ _ _ _ _ _ _ _ G). lia. Qed.
Lemma grown_refl d pos a k b x n : wf d pos -> grown d d pos pos a k b x n.
Proof. intros W. split; [done|done|by intros ???????|lia|done]. Qed.

Section Loop.
Context (l p : nat) (a : positive) (b leaf : Z) (down : exec -> place -> Z -> Z -> option (exec * Z * Z)).
Hypothesis (Hleaf : leaf <> PHYS_SECTION_UNASSIGNED) (Hdown : (0 < l)%nat -> set_spec l leaf down).

(** The nodes that the rest of the loop may need: only the first and the last
    entry are not set as a whole. *)
Definition need (index nb : Z) : nat :=
  if nb =? 0 then 0%nat else if index mod span l =? 0 then budget l else (2 * budget l)%nat.
Definition iter d (i : nat) (index nb : Z) : option (exec * Z * Z) :=
  if (index mod span l =? 0) && (span l <=? nb) then Some (store d (cell p i) (mkEntry true leaf), u64 (index + span l), nb - span l)
  else down d (cell p i) index nb.
Lemma entries_S k i d index nb : nb <> 0 -> set_entries down (span l) leaf p (S k) i d index nb =
  '(d, index, nb) ← iter d i index nb; set_entries down (span l) leaf p k (S i) d index nb.
Proof.
  intros Hn. cbn [set_entries]. destruct (Z.eqb_spec nb 0); [done|]. unfold iter. rewrite step_aligned. by destruct (_ && _).
Qed.
(** The pages of [within index nb] that are in the node are set. *)
Definition sets d d' (index nb : Z) : Prop := forall idx, b <= idx < b + span (S l) ->
  node_walk d' l p idx = if within index nb idx then Some leaf else node_walk d l p idx.
Definition free d (index nb : Z) : Prop := forall idx, b <= idx < b + span (S l) ->
  within index nb idx = true -> node_walk d l p idx = Some PHYS_SECTION_UNASSIGNED.

Lemma aligned_start c index : c mod span l = 0 -> c <= index < c + span l -> (index mod span l =? 0) = (index =? c).
Proof.
  intros Hc Hr. pose proof (span_positive l) as Hs. apply Z.div_exact in Hc; [|lia].
  replace index with ((index - c) + (c / span l) * span l) at 1 by lia. rewrite Z.mod_add, Z.mod_small by lia. lia.
Qed.
Lemma aligned_next c : c mod span l = 0 -> ((c + span l) mod span l =? 0) = true.
Proof. intros Hc. pose proof (span_positive l). replace (c + span l) with (c + 1 * span l) by lia. rewrite Z.mod_add, Hc by lia. done. Qed.
Lemma need_le c index nb : c mod span l = 0 -> c <= index < c + span l -> 0 < nb ->
  need index nb = if index =? c then budget l else (2 * budget l)%nat.
Proof. intros Hc Hr Hn. unfold need. rewrite (aligned_start c) by done. destruct (Z.eqb_spec nb 0); [lia|done]. Qed.
Lemma need_next c nb : c mod span l = 0 -> (need (c + span l) nb <= budget l)%nat.
Proof. intros Hc. unfold need. rewrite aligned_next by done. destruct (_ =? 0); lia. Qed.

Section Iteration.
Context (d : exec) (pos : list position) (i : nat) (index nb : Z).
Abbreviation first := (b + Z.of_nat i * span l).
Abbreviation stop := (Z.min (index + nb) (first + span l)).
Hypothesis (W : wf d pos) (Hp : pos !! p = Some (a, l, b)) (Hi : (i < L2_SIZE)%nat).
Hypothesis (Hin : first <= index < first + span l) (Hn : 0 < nb) (Hmax : index + nb <= 2 ^ 62).

Lemma cell_slot : slot pos (cell p i) a l first.
Proof. split; [done|eauto]. Qed.
Lemma cell_walk e idx : load d (cell p i) = Some e -> first <= idx < first + span l ->
  node_walk d l p idx = page_walk l e idx (nodes (next_map d)).
Proof.
  intros He Hx. destruct (wf_nodes _ _ W _ _ _ _ Hp) as (_ & H0 & Hm & _). unfold node_walk. rewrite (digit_unique idx l b i), He; done || lia.
Qed.
Lemma cell_sets d' e e' : load d (cell p i) = Some e -> load d' (cell p i) = Some e' -> frame d d' pos a l first (Some (cell p i)) ->
  (forall idx, first <= idx < first + span l ->
     page_walk l e' idx (nodes (next_map d')) = if within index nb idx then Some leaf else page_walk l e idx (nodes (next_map d))) ->
  sets d d' index (stop - index).
Proof.
  intros He He' F Hw idx Hx. rewrite (cell_step l p a b _ _ _ _ _ _ W Hp Hi F He' Hx). case_bool_decide as Hc.
  - rewrite Hw, <- (cell_walk e) by (done || lia). replace (within index (stop - index) idx) with (within index nb idx); [done|]. unfold within. lia.
  - replace (within index (stop - index) idx) with false; [done|]. unfold within. lia.
Qed.

Lemma iter_full : index = first -> span l <= nb ->
  exists d' pos', iter d i index nb = Some (d', stop, index + nb - stop) /\ grown d d' pos pos' a (S l) b None 0 /\
    sets d d' index (stop - index) /\ (need stop (index + nb - stop) <= need index nb)%nat.
Proof.
  intros E Hle. destruct (wf_slot _ _ _ _ _ _ W cell_slot) as (_ & H0 & Hm & H3). change (span 3) with (2 ^ 30) in H3.
  destruct (wf_nodes _ _ W _ _ _ _ Hp) as (H2 & _ & _ & _ & Hc). destruct (Hc i Hi) as (e & He & V).
  pose proof (store_grown _ _ _ _ _ _ _ _ _ W cell_slot He Hleaf H2) as G.
  exists (store d (cell p i) (mkEntry true leaf)), pos.
  assert (stop = first + span l) as Es by lia. split; [|split; [|split]].
  - unfold iter. rewrite (aligned_start first) by done. replace (index =? first) with true by lia. replace (span l <=? nb) with true by lia.
    cbn [andb]. rewrite Es, u64_small by (unfold is_u; lia).
    replace (first + span l) with (index + span l) by lia. by replace (index + nb - (index + span l)) with (nb - span l) by lia.
  - split; try apply G. eapply frame_widen; [done..|apply G].
  - eapply cell_sets; [done|by rewrite (load_store _ _ _ _ _ He), decide_True|apply G|]. intros idx Hx.
    replace (within index nb idx) with true by (unfold within; lia). by destruct l.
  - rewrite Es, (need_le first index) by done. replace (index =? first) with true by lia. by apply need_next.
Qed.
Lemma iter_part : ~ (index = first /\ span l <= nb) -> room d pos (need index nb) -> free d index nb ->
  exists d' pos', iter d i index nb = Some (d', stop, index + nb - stop) /\ grown d d' pos pos' a (S l) b None (budget l) /\
    sets d d' index (stop - index) /\ (budget l + need stop (index + nb - stop) <= need index nb)%nat.
Proof.
  intros Hnot Hroom Hfree. destruct (wf_slot _ _ _ _ _ _ W cell_slot) as (_ & H0 & Hm & H3).
  destruct (wf_nodes _ _ W _ _ _ _ Hp) as (H2 & _ & _ & _ & Hc). destruct (Hc i Hi) as (e & He & V).
  assert (0 < l)%nat as Hl by (destruct l; [change (span 0) with 1 in *; lia|lia]).
  pose proof (need_le _ _ _ Hm Hin Hn) as Hneed.
  destruct (Hdown Hl d pos (cell p i) a first e index nb) as (d' & pos' & e' & Hd & G & He' & Hw);
    [done|apply cell_slot|done|lia|done|done|destruct (_ =? _); unfold room in *; lia| |].
  { intros idx Hx Hwi. rewrite <- (cell_walk e), Hfree; [done| |done|done|done]. pose proof (span_S l). unfold L2_SIZE in Hi. nia. }
  exists d', pos'. split; [|split; [|split]].
  - unfold iter. rewrite (aligned_start first) by done. destruct (_ && _) eqn:E; [lia|]. exact Hd.
  - split; try apply G. eapply frame_widen; [done..|apply G].
  - by eapply cell_sets; [| |apply G|].
  - rewrite Hneed. destruct (Z.eqb_spec index first).
    + replace (index + nb - stop) with 0 by lia. unfold need. simpl. lia.
    + destruct (decide (index + nb <= first + span l)).
      * replace (index + nb - stop) with 0 by lia. unfold need. simpl. lia.
      * replace stop with (first + span l) by lia. pose proof (need_next first (index + nb - (first + span l)) Hm). lia.
Qed.
Lemma iter_ok : room d pos (need index nb) -> free d index nb ->
  exists d' pos' n, iter d i index nb = Some (d', stop, index + nb - stop) /\ grown d d' pos pos' a (S l) b None n /\
    sets d d' index (stop - index) /\ (n + need stop (index + nb - stop) <= need index nb)%nat.
Proof.
  intros Hroom Hfree. destruct (decide (index = first /\ span l <= nb)) as [[? ?]|Hnot].
  - destruct iter_full as (d' & pos' & ?); [done..|]. by exists d', pos', 0%nat.
  - destruct iter_part as (d' & pos' & ?); [done..|]. by exists d', pos', (budget l).
Qed.
End Iteration.

Lemma entries_ok k : forall i d pos index nb, (i + k = L2_SIZE)%nat -> wf d pos -> pos !! p = Some (a, l, b) ->
  0 <= nb -> index <= b + span (S l) -> b + Z.of_nat i * span l <= index \/ nb = 0 ->
  ((0 < k)%nat -> 0 < nb -> index < b + Z.of_nat i * span l + span l) -> index + nb <= 2 ^ 62 -> room d pos (need index nb) -> free d index nb ->
  let stop := Z.min (index + nb) (b + span (S l)) in
  exists d' pos', set_entries down (span l) leaf p k i d index nb = Some (d', stop, index + nb - stop) /\
    grown d d' pos pos' a (S l) b None (need index nb) /\ sets d d' index nb.
Proof.
  pose proof (span_S l) as HS. pose proof (span_positive l) as Hs.
  induction k as [|k IH]; intros i d pos index nb Hk W Hp Hn Hend Hlo Hhi Hmax Hroom Hfree stop; unfold L2_SIZE in Hk.
  - exists d, pos. assert (stop = index) as -> by (unfold stop; nia). split; [|split; [by apply grown_refl|]].
    + cbn [set_entries]. repeat f_equal. lia.
    + intros idx Hx. replace (within index nb idx) with false; [done|]. unfold within. nia.
  - destruct (decide (nb = 0)) as [->|Hnz].
    { exists d, pos. assert (stop = index) as -> by (unfold stop; lia). split; [|split; [by apply grown_refl|]].
      + cbn [set_entries]. rewrite Z.eqb_refl. repeat f_equal. lia.
      + intros idx Hx. replace (within index 0 idx) with false; [done|]. unfold within. lia. }
    destruct (iter_ok d pos i index nb) as (d1 & pos1 & n & Hit & G & Hset & Hneed); [done|done|unfold L2_SIZE; lia|lia|lia|done..|].
    rewrite entries_S, Hit by done. cbn [mbind option_bind].
    set (stop1 := Z.min (index + nb) (b + Z.of_nat i * span l + span l)) in *.
    destruct (IH (S i) d1 pos1 stop1 (index + nb - stop1)) as (d2 & pos2 & Hd2 & G2 & Hset2);
      [unfold L2_SIZE; lia|apply G|eapply prefix_lookup_Some; [done|apply G]|lia|unfold stop1; nia|unfold stop1; lia|unfold stop1; lia|lia|by eapply grown_room| |].
    { intros idx Hx Hw. rewrite Hset by done. replace (within index (stop1 - index) idx) with false by (unfold within, stop1 in *; lia).
      apply Hfree; [done|]. unfold within, stop1 in *. lia. }
    exists d2, pos2. replace (stop1 + (index + nb - stop1)) with (index + nb) in Hd2 by lia. split; [exact Hd2|]. split; [by eapply grown_trans|].
    intros idx Hx. rewrite Hset2, Hset by done. 
    destruct (within stop1 _ idx) eqn:E1, (within index (stop1 - index) idx) eqn:E2, (within index nb idx) eqn:E3; try done; unfold within, stop1 in *; lia.
Qed.
End Loop.

(** ** The tree *)

Lemma set_level_ok leaf l : leaf <> PHYS_SECTION_UNASSIGNED -> set_spec (S l) leaf (phys_page_set_level l leaf).
Proof.
  intros Hleaf. induction l as [l IH] using lt_wf_ind. intros d pos lp a b e index nb W Sl He Hin Hn Hmax Hroom Hfree stop.
  assert (budget (S l) = 1 + 2 * budget l)%nat as Hbud by (unfold budget; pose proof (Nat.pow_nonzero 2 l); rewrite Nat.pow_succ_r'; lia).
  destruct (node_below_ok l d pos lp a b e index) as (d1 & pos1 & p & Hd1 & O);
    [done|done|done|done|apply Hfree; [done|unfold within; lia]|unfold room in Hroom; lia..|].
  pose proof (op_size _ _ _ _ _ _ _ _ _ _ O) as Hsz. destruct (wf_slot _ _ _ _ _ _ W Sl) as (_ & H0 & Hm & _).
  destruct (digit_range index l b) as [Hd Hr]; [done..|].
  set (down := match l with O => fun _ _ _ _ => None | S l => phys_page_set_level l leaf end).
  assert (need l index nb <= 2 * budget l)%nat as Hneed by (unfold need; destruct (_ =? 0); [lia|destruct (_ =? 0); lia]).
  destruct (entries_ok l p a b leaf down Hleaf) with (k := (L2_SIZE - digit index l)%nat) (i := digit index l) (d := d1) (pos := pos1)
    (index := index) (nb := nb) as (d2 & pos2 & Hd2 & G & Hset); [|unfold L2_SIZE; lia|apply O|apply O|lia..| | |].
  { intros Hl. unfold down. destruct l as [|l']; [lia|]. apply IH. lia. }
  { eapply rest_room; [apply O| |exact Hroom]. lia. }
  { intros idx Hx Hw. rewrite (op_walk _ _ _ _ _ _ _ _ _ _ O) by done. by apply Hfree. }
  exists d2, pos2, (mkEntry false (Z.of_nat p)). split; [|split; [|split]].
  - destruct l; cbn [phys_page_set_level]; rewrite Hd1; cbn [mbind option_bind]; rewrite step_span; exact Hd2.
  - eapply (grown_trans _ d1 _ _ pos1 _ _ _ _ _ 1 (need l index nb)); [| |lia].
    + split; apply O.
    + split; try apply G. intros lp' a' k' b' Hs _. by apply G.
  - rewrite (gr_frame _ _ _ _ _ _ _ _ _ G lp a (S l) b); [apply O| |done|lia]. eapply slot_mono; [apply O|done].
  - intros idx Hx. rewrite walk_node; [|done|].
    + simpl. rewrite Nat2Z.id, Hset, (op_walk _ _ _ _ _ _ _ _ _ _ O) by done. done.
    + simpl. eapply wf_node_nil; apply O.
Qed.

(** The section numbers of the pages of each tree. *)
Definition page d a (idx : Z) : option Z := e ← next_dispatch d !! a; page_walk 3 e idx (nodes (next_map d)).


Lemma reserve_same d n : nodes (next_map (phys_map_node_reserve d n)) = nodes (next_map d) /\
  sections (next_map (phys_map_node_reserve d n)) = sections (next_map d) /\ next_dispatch (phys_map_node_reserve d n) = next_dispatch d /\
  dispatch (phys_map_node_reserve d n) = dispatch d /\ subpages (phys_map_node_reserve d n) = subpages d /\
  Z.of_nat (length (nodes (next_map d))) + n <= nodes_nb_alloc (next_map (phys_map_node_reserve d n)).
Proof. unfold phys_map_node_reserve. destruct (Z.ltb_spec (nodes_nb_alloc (next_map d)) (Z.of_nat (length (nodes (next_map d))) + n)); simpl; repeat split; lia. Qed.
Lemma wf_same d d' pos : nodes (next_map d') = nodes (next_map d) -> next_dispatch d' = next_dispatch d -> wf d pos -> wf d' pos.
Proof.
  intros En Ed W. assert (forall lp, load d' lp = load d lp) as El by (intros [a|n i]; simpl; by rewrite ?En, ?Ed). split.
  - rewrite En. apply W.
  - apply W.
  - intros n a l b Hn. destruct (wf_nodes _ _ W _ _ _ _ Hn) as (? & ? & ? & ? & Hc). repeat split; try done.
    intros j. rewrite El. apply Hc.
  - rewrite Ed. apply W.
Qed.

(** [phys_page_set] sets the pages of its range, if they are free, and no others. *)
Record pages_set d d' (pos pos' : list position) a (index nb leaf : Z) : Prop := {
  ps_wf : wf d' pos';
  ps_size : (length pos' <= length pos + 7)%nat;
  ps_sections : sections (next_map d') = sections (next_map d);
  ps_dispatch : dispatch d' = dispatch d;
  ps_subpages : subpages d' = subpages d;
  ps_roots a' : is_Some (next_dispatch d' !! a') <-> is_Some (next_dispatch d !! a');
  ps_page a' idx : 0 <= idx < span 3 ->
    page d' a' idx = if bool_decide (a' = a) && within index nb idx then Some leaf else page d a' idx
}.
Lemma page_set_ok d pos a index nb leaf : wf d pos -> is_Some (next_dispatch d !! a) -> leaf <> PHYS_SECTION_UNASSIGNED ->
  0 <= index -> 0 < nb -> index + nb <= span 3 -> Z.of_nat (length pos + 7) <= PHYS_MAP_NODE_NIL ->
  (forall idx, within index nb idx = true -> page d a idx = Some PHYS_SECTION_UNASSIGNED) ->
  exists d' pos', phys_page_set d a index nb leaf = Some d' /\ pages_set d d' pos pos' a index nb leaf.
Proof.
  intros W [e He] Hleaf Hi Hn Hend Hnil Hfree. unfold phys_page_set. change (3 * Z.of_nat P_L2_LEVELS) with 9.
  destruct (reserve_same d 9) as (En & Es & Ed & Edi & Esp & Hal). set (d0 := phys_map_node_reserve d 9) in *. clearbody d0.
  pose proof (wf_same _ _ _ En Ed W) as W0. pose proof (wf_length _ _ W) as HL. change (span 3) with (2 ^ 30) in *.
  destruct (set_level_ok leaf 2%nat Hleaf d0 pos (root a) a 0 e index nb) as (d1 & pos1 & e1 & Hd1 & G & He1 & Hw);
    [done|done|by rewrite <- Ed in He|change (span 3) with (2 ^ 30); lia|done|lia|unfold room; change (budget 3) with 7%nat; lia| |].
  { intros idx _ Hx. specialize (Hfree idx Hx). unfold page in Hfree. rewrite He in Hfree. by rewrite En. }
  exists d1, pos1. change (P_L2_LEVELS - 1)%nat with 2%nat. rewrite Hd1. split; [done|].
  assert (rest d1 = rest d0) as [= _ Rs Rd Rp] by apply G.
  assert (forall a', a' <> a -> next_dispatch d1 !! a' = next_dispatch d !! a') as Hother.
  { intros a' Ha. rewrite <- Ed. apply (gr_frame _ _ _ _ _ _ _ _ _ G (root a') a' 3%nat 0); [done|congruence|lia]. }
  split; [apply G|apply (gr_size _ _ _ _ _ _ _ _ _ G)|congruence|congruence|congruence| |].
  - intros a'. destruct (decide (a' = a)) as [->|]; [|by rewrite Hother]. split; intros _; [by exists e|by exists e1].
  - intros a' idx Hx. unfold page. case_bool_decide as Ha.
    + subst a'. simpl in He1. rewrite He1, He. cbn [mbind option_bind andb]. rewrite Hw by lia. by rewrite En.
    + rewrite Hother by done. cbn [andb]. destruct (next_dispatch d !! a') as [e'|] eqn:He'; [|done]. cbn [mbind option_bind]. rewrite <- En.
      eapply (walk_frame d0); [done|apply G|done|by intros ? [= <-]| |exact Hx|by left]. rewrite <- Ed in He'. by apply (wf_roots _ _ W0).
Qed.
End DispatchTree.
