(* ===== verification/DispatchProps.v ===== *)
(** * Correctness of the physical page map (exec.c)

    [built d f] says that the map under construction answers each byte address
    as [f] does: with the region, the offset in it and the read-only flag of
    the section that has the byte.  [mem_add] extends [f] by a section; it
    returns while sections are left, [cost] at most for one call. *)

From stdpp Require Import gmap.
From S2P Require Import Prelude Memory Dispatch DispatchTree.

Module DispatchProps.
Import Dispatch DispatchTree.
#[local] Open Scope Z_scope.
Implicit Types (d : exec) (a : positive) (s : MemoryRegionSection).

(** ** Pages *)

Ltac pages := change (span 3) with (2 ^ 30) in *; Z.div_mod_to_equations; lia.

Lemma page_offset x : x .& Z.lnot TARGET_PAGE_MASK = x mod 1024.
Proof. change (Z.lnot TARGET_PAGE_MASK) with (Z.ones 10). by rewrite Z.land_ones. Qed.
Lemma page_base x : x .& TARGET_PAGE_MASK = x / 1024 * 1024.
Proof.
  change TARGET_PAGE_MASK with (Z.lnot (Z.ones 10)). rewrite <- Z.ldiff_land, Z.ldiff_ones_r by lia.
  by rewrite Z.shiftr_div_pow2, Z.shiftl_mul_pow2.
Qed.
Lemma page_number x : x .>> TARGET_PAGE_BITS = x / 1024.
Proof. by rewrite Z.shiftr_div_pow2. Qed.
Lemma page_up x : is_u 62 x -> x mod 1024 <> 0 -> TARGET_PAGE_ALIGN x = (x / 1024 + 1) * 1024.
Proof.
  unfold is_u. intros Hx Hm. unfold TARGET_PAGE_ALIGN. rewrite u64_small, page_base by (unfold is_u; change TARGET_PAGE_SIZE with 1024; lia).
  change TARGET_PAGE_SIZE with 1024. f_equal. pose proof (Z.div_mod x 1024). pose proof (Z.mod_pos_bound x 1024).
  symmetry. apply (Z.div_unique _ _ _ (x mod 1024 - 1)); lia.
Qed.

(** ** Meaning of the map *)

(** A region, an offset in it, and whether it is read-only. *)
Abbreviation target := (region * Z * bool)%type.
Definition target_of s (x : Z) : target := (mr s, offset_within_region s + (x - offset_within_address_space s), readonly s).
Definition answers : Type := positive -> Z -> option target.
Implicit Types (f : answers).

Definition number_ok d (h : option target) (x m : Z) : Prop :=
  match h with
  | None => m = PHYS_SECTION_UNASSIGNED
  | Some t => 0 < m /\ exists s p, sections (next_map d) !! Z.to_nat m = Some s /\ mr s = Mr p /\ target_of s x = t
  end.
Definition sub_ok d f a (idx : Z) (k : nat) : Prop :=
  exists sp, subpages d !! k = Some sp /\ as_of sp = a /\ base sp = idx * 1024 /\ length (sub_section sp) = 1024%nat /\
    forall j m, sub_section sp !! j = Some m -> number_ok d (f a (idx * 1024 + Z.of_nat j)) (idx * 1024 + Z.of_nat j) m.
Definition page_ok d f a (idx : Z) : Prop :=
  exists n s, page d a idx = Some n /\ 0 <= n /\ sections (next_map d) !! Z.to_nat n = Some s /\
    match mr s with
    | subpage_iomem k => sub_ok d f a idx k
    | _ => forall x, x / 1024 = idx -> number_ok d (f a x) x n
    end.
Definition unassigned := mkSection io_mem_unassigned 0 Memory.int128_2_64 0 false.
Record mapped d f : Prop := {
  m_pos : exists pos, wf d pos /\ (length pos <= 7 * length (sections (next_map d)))%nat;
  m_max : (length (sections (next_map d)) <= 1024)%nat;
  m_zero : sections (next_map d) !! 0%nat = Some unassigned;
  m_page a idx : is_Some (next_dispatch d !! a) -> 0 <= idx < span 3 -> page_ok d f a idx
}.
(** A subpage has a section. *)
Definition used d f a (idx : Z) : Prop := forall n s k,
  page d a idx = Some n -> sections (next_map d) !! Z.to_nat n = Some s -> mr s = subpage_iomem k -> exists x, x / 1024 = idx /\ is_Some (f a x).
Definition built d f : Prop := mapped d f /\ forall a idx, 0 <= idx < span 3 -> used d f a idx.

(** What [d'] keeps of [d]. *)
Definition kept d d' (n : nat) : Prop :=
  dispatch d' = dispatch d /\ (length (sections (next_map d')) <= length (sections (next_map d)) + n)%nat /\
  forall a, is_Some (next_dispatch d' !! a) <-> is_Some (next_dispatch d !! a).

(** ** Lookup *)

Definition answer (h : option target) : target := default (target_of unassigned 0) h.
Lemma lookup_answer d f a e x : mapped d f -> next_dispatch d !! a = Some e -> is_u 40 x ->
  exists s, address_space_lookup_region (subpages d) (mkDispatch e (nodes (next_map d)) (sections (next_map d))) x true = Some s /\
    match f a x with Some t => target_of s x = t | None => s = unassigned end.
Proof.
  intros M He Hx. unfold is_u in Hx. unfold address_space_lookup_region, phys_page_find. cbn [phys_map d_nodes d_sections].
  destruct (m_page _ _ M a (x / 1024)) as (n & s & Hp & Hn & Hs & Hk); [by eexists|pages|].
  unfold page in Hp. rewrite He in Hp. cbn [mbind option_bind] in Hp. rewrite page_number. change P_L2_LEVELS with 3%nat. rewrite Hp.
  cbn [mbind option_bind]. rewrite Hs. cbn [mbind option_bind].
  assert (forall m s', sections (next_map d) !! Z.to_nat m = Some s' -> number_ok d (f a x) x m ->
    match f a x with Some t => target_of s' x = t | None => s' = unassigned end) as Hnum.
  { intros m s' Hs' Hm. unfold number_ok in Hm. destruct (f a x).
    - destruct Hm as (_ & s2 & q & Hs2 & _ & Ht). by simplify_eq.
    - subst m. change (Z.to_nat PHYS_SECTION_UNASSIGNED) with 0%nat in Hs'. rewrite (m_zero _ _ M) in Hs'. by simplify_eq. }
  assert (forall k, mr s <> subpage_iomem k -> number_ok d (f a x) x n -> 
    exists s0, Some s = Some s0 /\ match f a x with Some t => target_of s0 x = t | None => s0 = unassigned end) as Hplain.
  { intros k _ Hm. exists s. split; [done|]. by apply (Hnum n). }
  destruct (mr s) as [p| | | | |k] eqn:Hmr; try (apply (Hplain 0%nat); [done|by apply Hk]).
  destruct Hk as (sp & Hsp & _ & _ & Hlen & Hsub). rewrite Hsp. cbn [mbind option_bind]. unfold SUBPAGE_IDX. rewrite page_offset.
  destruct (lookup_lt_is_Some_2 (sub_section sp) (Z.to_nat (x mod 1024))) as [m Hm]; [rewrite Hlen; pages|].
  specialize (Hsub _ _ Hm). rewrite Z2Nat.id in Hsub by pages. replace (x / 1024 * 1024 + x mod 1024) with x in Hsub by pages.
  rewrite Hm. cbn [mbind option_bind].
  assert (is_Some (sections (next_map d) !! Z.to_nat m)) as [s' Hs'].
  { unfold number_ok in Hsub. destruct (f a x); [by destruct Hsub as (_ & s' & q & -> & _)|]. subst m. change (Z.to_nat PHYS_SECTION_UNASSIGNED) with 0%nat. by rewrite (m_zero _ _ M). }
  exists s'. split; [done|]. by apply (Hnum m).
Qed.

(** ** Changes that keep pages *)

Lemma number_ok_mono d d' h x m : sections (next_map d) `prefix_of` sections (next_map d') -> number_ok d h x m -> number_ok d' h x m.
Proof.
  intros P. destruct h; simpl; [|done]. intros (? & s & q & ? & ? & ?). split; [done|]. exists s, q. split; [by eapply prefix_lookup_Some|done].
Qed.
Lemma page_ok_mono d d' f f' a idx : page d' a idx = page d a idx -> sections (next_map d) `prefix_of` sections (next_map d') ->
  (forall k sp, subpages d !! k = Some sp -> as_of sp = a -> base sp = idx * 1024 -> subpages d' !! k = Some sp) ->
  (forall x, x / 1024 = idx -> f' a x = f a x) -> page_ok d f a idx -> page_ok d' f' a idx.
Proof.
  intros Hp P Hsub Hf (n & s & Hn & H0 & Hs & Hk). exists n, s. split; [by rewrite Hp|]. split; [done|].
  split; [by eapply prefix_lookup_Some|]. destruct (mr s); try (intros x Hx; rewrite Hf by done; eapply number_ok_mono; [done|by apply Hk]).
  destruct Hk as (sp & Hsp & Ha & Hb & Hl & Hj). exists sp. split; [by apply Hsub|]. do 3 (split; [done|]). intros j m Hm.
  assert (j < 1024)%nat by (apply lookup_lt_Some in Hm; lia). rewrite Hf by pages. eapply number_ok_mono; [done|by apply Hj].
Qed.
Lemma used_mono d d' f f' a idx : page d' a idx = page d a idx -> sections (next_map d) `prefix_of` sections (next_map d') ->
  (forall x, x / 1024 = idx -> is_Some (f a x) -> is_Some (f' a x)) ->
  (is_Some (next_dispatch d !! a) -> page_ok d f a idx) -> used d f a idx -> used d' f' a idx.
Proof.
  intros Hp P Hf Hok U n s k Hn Hs Hk. rewrite Hp in Hn.
  destruct Hok as (n' & s' & Hn' & _ & Hs' & _). { unfold page in Hn. by destruct (next_dispatch d !! a). }
  rewrite Hn in Hn'. injection Hn' as <-. rewrite (prefix_lookup_Some _ _ _ _ Hs' P) in Hs. injection Hs as ->.
  destruct (U n s k Hn Hs' Hk) as (x & Hx & Hs). exists x. auto.
Qed.

Definition add_section d s : exec := d.[next_map := (next_map d).[sections := sections (next_map d) ++ [s]]].
Lemma section_add_ok d s : (length (sections (next_map d)) < 1024)%nat ->
  phys_section_add d s = Some (add_section d s, Z.of_nat (length (sections (next_map d)))).
Proof.
  intros H. unfold phys_section_add. change TARGET_PAGE_SIZE with 1024. destruct (Z.ltb_spec (Z.of_nat (length (sections (next_map d)))) 1024); [|lia].
  rewrite u16_small; [done|]. unfold is_u. lia.
Qed.
Lemma section_fresh d s : sections (next_map (add_section d s)) !! Z.to_nat (Z.of_nat (length (sections (next_map d)))) = Some s.
Proof. rewrite Nat2Z.id. simpl. by rewrite lookup_app_r, Nat.sub_diag. Qed.
Lemma prefix_add d s : sections (next_map d) `prefix_of` sections (next_map (add_section d s)).
Proof. by eexists. Qed.
Lemma mapped_add d f s : (length (sections (next_map d)) < 1024)%nat -> mapped d f -> mapped (add_section d s) f.
Proof.
  intros Hl M. split.
  - destruct (m_pos _ _ M) as (pos & W & ?). exists pos. split; [by apply (wf_same d)|]. simpl. rewrite length_app. simpl. lia.
  - simpl. rewrite length_app. simpl. lia.
  - eapply prefix_lookup_Some; [apply M|apply prefix_add].
  - intros a idx Ha Hi. eapply (page_ok_mono d); [done|apply prefix_add|done|done|]. by apply M.
Qed.
Lemma used_add d f s a idx : mapped d f -> 0 <= idx < span 3 -> used d f a idx -> used (add_section d s) f a idx.
Proof. intros M Hi U. eapply (used_mono d); [done|apply prefix_add|done| |done]. intros Ha. by apply M. Qed.
Lemma sections_pos d f : mapped d f -> (0 < length (sections (next_map d)))%nat.
Proof. intros M. eapply lookup_lt_Some, M. Qed.
Lemma kept_refl d n : kept d d n.
Proof. split; [done|]. split; [lia|done]. Qed.
Lemma kept_trans d d1 d2 n m r : kept d d1 n -> kept d1 d2 m -> (n + m <= r)%nat -> kept d d2 r.
Proof. intros (E1 & L1 & R1) (E2 & L2 & R2) Hr. split; [congruence|]. split; [lia|]. intros a. by rewrite R2. Qed.
Lemma kept_le d d' n m : kept d d' n -> (n <= m)%nat -> kept d d' m.
Proof. intros (? & ? & ?) ?. split; [done|]. split; [lia|done]. Qed.
Lemma page_unassigned d f a idx x : mapped d f -> is_Some (next_dispatch d !! a) -> 0 <= idx < span 3 -> x / 1024 = idx -> f a x = None ->
  (forall n s k, page d a idx = Some n -> sections (next_map d) !! Z.to_nat n = Some s -> mr s <> subpage_iomem k) ->
  page d a idx = Some PHYS_SECTION_UNASSIGNED /\ forall x, x / 1024 = idx -> f a x = None.
Proof.
  intros M Ha Hi Hx Hf Hno. destruct (m_page _ _ M a idx Ha Hi) as (n & s & Hn & H0 & Hs & Hk).
  assert (forall x, x / 1024 = idx -> number_ok d (f a x) x n) as Hnum.
  { specialize (Hno n s). destruct (mr s); try exact Hk. by destruct (Hno k). }
  assert (n = PHYS_SECTION_UNASSIGNED) as ->. { specialize (Hnum x Hx). by rewrite Hf in Hnum. }
  split; [done|]. intros y Hy. specialize (Hnum y Hy). destruct (f a y); [|done]. destruct Hnum as [Hlt _]. by unfold PHYS_SECTION_UNASSIGNED in Hlt.
Qed.

(** ** New sections *)

(** Section [s] got the next number, and the pages from [i] in the tree of [a]
    got that number. *)
Record pages_new d d' a s (i nb : Z) : Prop := {
  pn_sections : sections (next_map d') = sections (next_map d) ++ [s];
  pn_subpages : subpages d' = subpages d;
  pn_pos : exists pos, wf d' pos /\ (length pos <= 7 * length (sections (next_map d')))%nat;
  pn_kept : kept d d' 1;
  pn_page a' idx : 0 <= idx < span 3 -> page d' a' idx =
    if bool_decide (a' = a) && within i nb idx then Some (Z.of_nat (length (sections (next_map d)))) else page d a' idx
}.
Lemma set_pages d f a s i nb : mapped d f -> is_Some (next_dispatch d !! a) -> (length (sections (next_map d)) < 1024)%nat ->
  0 <= i -> 0 < nb -> i + nb <= span 3 -> (forall idx, within i nb idx = true -> page d a idx = Some PHYS_SECTION_UNASSIGNED) ->
  exists d', phys_page_set (add_section d s) a i nb (Z.of_nat (length (sections (next_map d)))) = Some d' /\ pages_new d d' a s i nb.
Proof.
  intros M Ha Hl Hi Hn Hend Hfree. pose proof (sections_pos _ _ M) as Hpos. destruct (m_pos _ _ M) as (pos & W & Hlen).
  destruct (page_set_ok (add_section d s) pos a i nb (Z.of_nat (length (sections (next_map d))))) as (d' & pos' & Hd' & P);
    [by apply (wf_same d)|done|unfold PHYS_SECTION_UNASSIGNED; lia|done..|change PHYS_MAP_NODE_NIL with 32767; lia|exact Hfree|].
  exists d'. split; [done|]. destruct P as [W' Hsz Hs Hd Hsp Hr Hp]. split; [by rewrite Hs|done| | |done].
  - exists pos'. split; [done|]. rewrite Hs. simpl. rewrite length_app. simpl. lia.
  - split; [done|]. split; [|done]. rewrite Hs. simpl. by rewrite length_app.
Qed.
Lemma pages_new_fresh d d' a s i nb : pages_new d d' a s i nb ->
  sections (next_map d') !! Z.to_nat (Z.of_nat (length (sections (next_map d)))) = Some s.
Proof. intros P. rewrite (pn_sections _ _ _ _ _ _ P), Nat2Z.id. by rewrite lookup_app_r, Nat.sub_diag. Qed.
Lemma pages_new_built d d' f f' a s i nb : built d f -> (length (sections (next_map d)) < 1024)%nat ->
  pages_new d d' a s i nb -> (forall a' x, 0 <= x / 1024 < span 3 -> ~ (a' = a /\ within i nb (x / 1024) = true) -> f' a' x = f a' x) ->
  (forall idx, 0 <= idx < span 3 -> within i nb idx = true -> page_ok d' f' a idx) ->
  mapped d' f' /\ forall a' idx, 0 <= idx < span 3 -> ~ (a' = a /\ within i nb idx = true) -> used d' f' a' idx.
Proof.
  intros [M U] Hl P Hf Hok. assert (sections (next_map d) `prefix_of` sections (next_map d')) as Pre by (rewrite (pn_sections _ _ _ _ _ _ P); by eexists).
  assert (forall a' idx, 0 <= idx < span 3 -> ~ (a' = a /\ within i nb idx = true) -> page d' a' idx = page d a' idx) as Hsame.
  { intros a' idx Hi Hno. rewrite (pn_page _ _ _ _ _ _ P) by done. case_bool_decide; [|done]. cbn [andb]. destruct (within i nb idx); [|done]. by destruct Hno. }
  split; [split|].
  - apply P.
  - rewrite (pn_sections _ _ _ _ _ _ P), length_app. simpl. lia.
  - eapply prefix_lookup_Some; [apply M|done].
  - intros a' idx Ha' Hi. destruct (decide (a' = a /\ within i nb idx = true)) as [[-> Hw]|Hno]; [by apply Hok|].
    eapply (page_ok_mono d); [by apply Hsame|done|by rewrite (pn_subpages _ _ _ _ _ _ P)| |].
    + intros x <-. by apply Hf.
    + apply M; [|done]. by apply (pn_kept _ _ _ _ _ _ P).
  - intros a' idx Hi Hno. eapply (used_mono d); [by apply Hsame|done| | |by apply U].
    + intros x <-. by rewrite Hf.
    + intros Ha'. by apply M.
Qed.

(** ** Whole pages *)

Definition extended f a s : answers := fun a' x =>
  if bool_decide (a' = a) && within (offset_within_address_space s) (size s) x then Some (target_of s x) else f a' x.
(** Section [s] can be added: it has no byte that another section has. *)
Record fits f a s : Prop := {
  fit_mr : exists p, mr s = Mr p;
  fit_start : 0 <= offset_within_address_space s;
  fit_size : 0 < size s;
  fit_end : offset_within_address_space s + size s <= 2 ^ 40;
  fit_region : 0 <= offset_within_region s /\ offset_within_region s + size s <= 2 ^ 64;
  fit_free x : within (offset_within_address_space s) (size s) x = true -> f a x = None
}.
Lemma free_pages d f a s idx : built d f -> is_Some (next_dispatch d !! a) -> fits f a s ->
  (forall x, x / 1024 = idx -> within (offset_within_address_space s) (size s) x = true) -> 0 <= idx < span 3 ->
  page d a idx = Some PHYS_SECTION_UNASSIGNED.
Proof.
  intros [M U] Ha F Hw Hi. apply (page_unassigned d f a idx (idx * 1024)); [done|done|done|pages|apply F, Hw; pages|].
  intros n s' k Hn Hs Hk. destruct (U a idx Hi n s' k Hn Hs Hk) as (x & Hx & Hf). rewrite (fit_free _ _ _ F) in Hf by by apply Hw.
  by destruct Hf.
Qed.
Lemma register_multipage_ok d f a s : built d f -> is_Some (next_dispatch d !! a) -> (length (sections (next_map d)) < 1024)%nat ->
  fits f a s -> offset_within_address_space s mod 1024 = 0 -> size s mod 1024 = 0 ->
  exists d', register_multipage d a s = Some d' /\ built d' (extended f a s) /\ kept d d' 1.
Proof.
  intros B Ha Hl F Hs Hz. pose proof B as [M U]. pose proof (sections_pos _ _ M) as Hpos. pose proof F as [Hmr F0 F1 F2 F3 F4].
  set (i := offset_within_address_space s / 1024) in *. set (nb := size s / 1024).
  assert (0 <= i /\ 0 < nb /\ i + nb <= span 3) as (Hi & Hn & Hend) by (unfold i, nb; pages).
  assert (forall x, within i nb (x / 1024) = within (offset_within_address_space s) (size s) x) as Hw.
  { intros x. unfold within. unfold i, nb. apply eq_true_iff_eq. rewrite !andb_true_iff. pages. }
  destruct (set_pages d f a s i nb) as (d' & Hd' & P); [done..| |].
  { intros idx Hidx. apply (free_pages d f a s); [done..| |unfold within in Hidx; pages]. intros x <-. by rewrite <- Hw. }
  exists d'. split; [|split; [|apply P]].
  - unfold register_multipage. rewrite section_add_ok by done. cbn [mbind option_bind]. rewrite !page_number. fold i nb.
    rewrite u64_small by (unfold is_u; pages). destruct (Z.eqb_spec nb 0); [lia|]. exact Hd'.
  - destruct (pages_new_built d d' f (extended f a s) a s i nb) as [M' U']; [done|done|done| | |].
    + intros a' x _ Hno. unfold extended. rewrite <- Hw. case_bool_decide; [|done]. cbn [andb]. destruct (within i nb (x / 1024)); [|done]. by destruct Hno.
    + intros idx Hidx Hwi. exists (Z.of_nat (length (sections (next_map d)))), s.
      rewrite (pn_page _ _ _ _ _ _ P), bool_decide_true, Hwi by done. split; [done|]. split; [lia|]. split; [by eapply pages_new_fresh|].
      destruct Hmr as [p Hp]. rewrite Hp. intros x <-. unfold extended. rewrite bool_decide_true, <- Hw, Hwi by done. cbn [andb number_ok].
      split; [lia|]. exists s, p. split; [by eapply pages_new_fresh|done].
    + split; [done|]. intros a' idx Hidx. destruct (decide (a' = a /\ within i nb idx = true)) as [[-> Hwi]|]; [|by apply U'].
      intros n s' k Hn' Hs' _. exists (idx * 1024). split; [pages|]. unfold extended. rewrite bool_decide_true, <- Hw by done.
      replace (idx * 1024 / 1024) with idx by pages. rewrite Hwi. by eexists.
Qed.

(** ** Parts of pages *)

Lemma length_set_range {A} (x : A) k : forall i l, length (set_range k i x l) = length l.
Proof. induction k as [|k IH]; intros i l; simpl; [done|]. by rewrite IH, length_insert. Qed.
Lemma lookup_set_range {A} (x : A) k : forall i l j, (i + k <= length l)%nat ->
  set_range k i x l !! j = if bool_decide (i <= j < i + k)%nat then Some x else l !! j.
Proof.
  induction k as [|k IH]; intros i l j Hl; cbn [set_range].
  - case_bool_decide; [lia|done].
  - rewrite IH by (rewrite length_insert; lia). repeat case_bool_decide; try lia; try done.
    + replace j with i by lia. apply list_lookup_insert_eq. lia.
    + apply list_lookup_insert_ne. lia.
Qed.
Lemma subpage_init_eq a b : subpage_init a b = mkSubpage a b (replicate 1024 0).
Proof. by vm_compute. Qed.

Definition has_subpage d a (idx : Z) (k : nat) : Prop :=
  exists n s, page d a idx = Some n /\ 0 <= n /\ sections (next_map d) !! Z.to_nat n = Some s /\ mr s = subpage_iomem k.
(** A page without sections gets an empty subpage. *)
Definition with_subpage d a (b : Z) : exec := d.[subpages := subpages d ++ [subpage_init a b]].
Lemma built_subpage d f a b : built d f -> built (with_subpage d a b) f.
Proof.
  intros [M U]. split; [split|].
  - destruct (m_pos _ _ M) as (pos & W & ?). exists pos. split; [by apply (wf_same d)|done].
  - apply M.
  - apply M.
  - intros a' idx Ha Hi. eapply (page_ok_mono d); [done|done| |done|by apply M]. intros k sp Hk _ _. by apply lookup_app_l_Some.
  - exact U.
Qed.
Lemma subpage_new d f a idx : built d f -> is_Some (next_dispatch d !! a) -> (length (sections (next_map d)) < 1024)%nat -> 0 <= idx < span 3 ->
  page d a idx = Some PHYS_SECTION_UNASSIGNED -> (forall x, x / 1024 = idx -> f a x = None) ->
  let k := length (subpages d) in let n := Z.of_nat (length (sections (next_map d))) in
  exists d', phys_page_set (add_section (with_subpage d a (idx * 1024)) (mkSection (subpage_iomem k) 0 TARGET_PAGE_SIZE (idx * 1024) false)) a idx 1 n = Some d' /\
    mapped d' f /\ kept d d' 1 /\ has_subpage d' a idx k /\
    forall a' idx', 0 <= idx' < span 3 -> ~ (a' = a /\ idx' = idx) -> used d' f a' idx'.
Proof.
  intros B Ha Hl Hi Hp Hf k n. set (s := mkSection (subpage_iomem k) 0 TARGET_PAGE_SIZE (idx * 1024) false).
  pose proof (built_subpage d f a (idx * 1024) B) as B1. set (d1 := with_subpage d a (idx * 1024)) in *.
  destruct (set_pages d1 f a s idx 1) as (d' & Hd' & P); [apply B1|done|done|lia|lia|pages| |].
  { intros idx' Hw. replace idx' with idx; [done|]. unfold within in Hw. lia. }
  assert (has_subpage d' a idx k) as Hsub.
  { exists n, s. rewrite (pn_page _ _ _ _ _ _ P), bool_decide_true by done. unfold within. replace (_ && _) with true by lia.
    split; [done|]. split; [unfold n; lia|]. split; [by eapply (pages_new_fresh d1)|done]. }
  exists d'. split; [exact Hd'|]. destruct (pages_new_built d1 d' f f a s idx 1) as [M' U']; [done|done|done|done| |].
  - intros idx' _ Hw. assert (idx' = idx) as -> by (unfold within in Hw; lia). destruct Hsub as (n' & s' & ? & ? & ? & Hmr).
    exists n', s'. do 3 (split; [done|]). rewrite Hmr. unfold sub_ok. rewrite (pn_subpages _ _ _ _ _ _ P). exists (subpage_init a (idx * 1024)).
    unfold d1, with_subpage. simpl subpages. rewrite lookup_app_r, Nat.sub_diag by done. rewrite subpage_init_eq. do 3 (split; [done|]). split; [apply length_replicate|].
    intros j m Hm. apply lookup_replicate_1 in Hm as [-> Hj]. rewrite Hf; [done|]. pages.
  - split; [done|]. split; [apply P|]. split; [done|]. intros a' idx' Hi' Hno. apply U'; [done|]. intros [-> Hw]. apply Hno. unfold within in Hw. split; [done|lia].
Qed.

(** The page has a subpage afterwards, and every address the same answer. *)
Lemma page_subpage_ok d f a x : built d f -> is_Some (next_dispatch d !! a) -> (length (sections (next_map d)) < 1024)%nat ->
  0 <= x / 1024 < span 3 -> f a x = None ->
  exists d' k, page_subpage d a (x / 1024 * 1024) = Some (d', k) /\ mapped d' f /\ kept d d' 1 /\ has_subpage d' a (x / 1024) k /\
    forall a' idx, 0 <= idx < span 3 -> ~ (a' = a /\ idx = x / 1024) -> used d' f a' idx.
Proof.
  intros B Ha Hl Hi Hf. pose proof B as [M U]. destruct (m_page _ _ M a _ Ha Hi) as (n & s & Hn & H0 & Hs & Hk). pose proof Ha as [e He].
  assert (Hpn : (x / 1024 * 1024) .>> TARGET_PAGE_BITS = x / 1024) by (rewrite page_number; pages).
  assert (phys_page_find e (x / 1024) (nodes (next_map d)) (sections (next_map d)) = Some s) as Hfind.
  { unfold phys_page_find. unfold page in Hn. rewrite He in Hn. cbn [mbind option_bind] in Hn. change P_L2_LEVELS with 3%nat. rewrite Hn. exact Hs. }
  unfold page_subpage. rewrite He. cbn [mbind option_bind]. rewrite Hpn, Hfind. cbn [mbind option_bind].
  assert ((forall k, mr s <> subpage_iomem k) -> mr s = io_mem_unassigned /\ page d a (x / 1024) = Some PHYS_SECTION_UNASSIGNED /\
    forall y, y / 1024 = x / 1024 -> f a y = None) as Hplain.
  { intros Hno. destruct (page_unassigned d f a (x / 1024) x) as [Hzero Hnone]; [done..| |].
    - intros n' s' k Hn' Hs' Hmr. rewrite Hn in Hn'. injection Hn' as <-. rewrite Hs in Hs'. injection Hs' as <-. by eapply Hno.
    - split; [|done]. rewrite Hn in Hzero. injection Hzero as ->. change (Z.to_nat PHYS_SECTION_UNASSIGNED) with 0%nat in Hs.
      rewrite (m_zero _ _ M) in Hs. by injection Hs as <-. }
  destruct (mr s) as [p| | | | |k] eqn:Hmr; try (by destruct Hplain).
  - destruct Hplain as (_ & Hz & Hnone); [done|]. destruct (subpage_new d f a (x / 1024)) as (d' & Hd' & ?); [done..|].
    exists d', (length (subpages d)). fold (with_subpage d a (x / 1024 * 1024)). rewrite section_add_ok by done. cbn [mbind option_bind].
    change (sections (next_map (with_subpage d a (x / 1024 * 1024)))) with (sections (next_map d)). split; [|done]. by rewrite Hd'.
  - exists d, k. split; [done|]. split; [done|]. split; [apply kept_refl|]. split; [by exists n, s|]. intros a' idx ? _. by apply U.
Qed.

(** The bytes of a part of a page, in its subpage. *)
Definition set_bytes d (k : nat) (start len n : Z) : exec :=
  d.[subpages := alter (fun sp => sp.[sub_section := set_range (Z.to_nat len) (Z.to_nat start) n (sub_section sp)]) k (subpages d)].
Lemma register_bytes sp start len n : 0 <= start -> 0 < len -> start + len <= 1024 ->
  fst (subpage_register sp start (u64 (start + u64 len - 1)) n) = sp.[sub_section := set_range (Z.to_nat len) (Z.to_nat start) n (sub_section sp)].
Proof.
  intros H1 H2 H3. unfold subpage_register. change TARGET_PAGE_SIZE with 1024. rewrite (u64_small len), (u64_small (start + len - 1)) by (unfold is_u; lia).
  rewrite !u32_small by (unfold is_u; lia). destruct (Z.leb_spec 1024 start), (Z.leb_spec 1024 (start + len - 1)); try lia. cbn [orb fst].
  unfold SUBPAGE_IDX. rewrite !page_offset, !Z.mod_small by lia. by replace (start + len - 1 + 1 - start) with len by lia.
Qed.
Section Bytes.
Context (d : exec) (f : answers) (a : positive) (s : MemoryRegionSection) (k : nat).
Abbreviation idx := (offset_within_address_space s / 1024).
Abbreviation n := (Z.of_nat (length (sections (next_map d)))).
Abbreviation d' := (set_bytes (add_section d s) k (offset_within_address_space s mod 1024) (size s) n).
Hypothesis (M : mapped d f) (Ha : is_Some (next_dispatch d !! a)) (Hl : (length (sections (next_map d)) < 1024)%nat) (F : fits f a s).
Hypothesis (Hpage : (offset_within_address_space s + size s - 1) / 1024 = idx) (Hsub : has_subpage d a idx k).

Lemma in_section y : y / 1024 = idx -> within (offset_within_address_space s) (size s) y = true <->
  offset_within_address_space s mod 1024 <= y mod 1024 < offset_within_address_space s mod 1024 + size s.
Proof. intros Hy. unfold within. pose proof (fit_size _ _ _ F). rewrite andb_true_iff. pages. Qed.
Lemma extended_other a' y : ~ (a' = a /\ y / 1024 = idx) -> extended f a s a' y = f a' y.
Proof.
  intros Hno. unfold extended. case_bool_decide; [|done]. cbn [andb]. destruct (within _ _ y) eqn:Hw; [|done].
  destruct Hno. split; [done|]. unfold within in Hw. pose proof (fit_size _ _ _ F). pages.
Qed.
Lemma bytes_sub_ok : sub_ok d f a idx k -> sub_ok d' (extended f a s) a idx k.
Proof.
  pose proof F as [[p Hp] F0 F1 F2 F3 F4]. intros (sp & Hsp & Has & Hbase & Hlen & Hj).
  eexists. split; [simpl subpages; rewrite list_lookup_alter_eq; simpl; by rewrite Hsp|]. do 2 (split; [done|]).
  split; [simpl; by rewrite length_set_range|]. intros j m. cbn [sub_section set_field].
  rewrite lookup_set_range by (rewrite Hlen; pages). case_bool_decide as Hin; intros Hm.
  - injection Hm as <-. assert (within (offset_within_address_space s) (size s) (idx * 1024 + Z.of_nat j) = true) as Hw by (unfold within; pages).
    unfold extended. rewrite bool_decide_true, Hw by done. cbn [andb number_ok]. pose proof (sections_pos _ _ M). split; [lia|].
    exists s, p. split; [apply section_fresh|done].
  - apply (number_ok_mono d); [apply prefix_add|]. assert (j < 1024)%nat by (apply lookup_lt_Some in Hm; lia).
    assert (within (offset_within_address_space s) (size s) (idx * 1024 + Z.of_nat j) = false) as Hw.
    { apply not_true_iff_false. rewrite in_section by pages. pages. }
    unfold extended. rewrite bool_decide_true, Hw by done. cbn [andb]. by apply Hj.
Qed.
Lemma idx_range : 0 <= idx < span 3.
Proof. pose proof F as [_ F0 F1 F2 _ _]. pages. Qed.
Lemma bytes_subpages a' idx' : ~ (a' = a /\ idx' = idx) -> forall k' sp,
  subpages d !! k' = Some sp -> as_of sp = a' -> base sp = idx' * 1024 -> subpages d' !! k' = Some sp.
Proof.
  intros Hno k' sp Hk' Ha' Hb'. simpl subpages. rewrite list_lookup_alter_ne; [done|]. intros <-.
  destruct Hsub as (n0 & s0 & Hn0 & _ & Hs0 & Hmr). destruct (m_page _ _ M a idx Ha idx_range) as (n1 & s1 & Hn1 & _ & Hs1 & Hok).
  rewrite Hn0 in Hn1. injection Hn1 as <-. rewrite Hs0 in Hs1. injection Hs1 as <-. rewrite Hmr in Hok.
  destruct Hok as (sp0 & Hsp0 & ? & ? & _). rewrite Hk' in Hsp0. injection Hsp0 as <-. apply Hno. split; [congruence|lia].
Qed.
Lemma bytes_built : (forall a' idx', 0 <= idx' < span 3 -> ~ (a' = a /\ idx' = idx) -> used d f a' idx') -> built d' (extended f a s).
Proof.
  intros U. split; [split|].
  - destruct (m_pos _ _ (mapped_add d f s Hl M)) as (pos & W & ?). exists pos. split; [by apply (wf_same (add_section d s))|done].
  - exact (m_max _ _ (mapped_add d f s Hl M)).
  - exact (m_zero _ _ (mapped_add d f s Hl M)).
  - intros a' idx' Ha' Hi'. destruct (decide (a' = a /\ idx' = idx)) as [[-> ->]|Hno].
    + destruct Hsub as (n0 & s0 & Hn0 & H0 & Hs0 & Hmr). exists n0, s0. do 2 (split; [done|]).
      split; [eapply prefix_lookup_Some; [done|apply prefix_add]|]. rewrite Hmr. apply bytes_sub_ok.
      destruct (m_page _ _ M a idx Ha Hi') as (n1 & s1 & Hn1 & _ & Hs1 & Hok). rewrite Hn0 in Hn1. injection Hn1 as <-.
      rewrite Hs0 in Hs1. injection Hs1 as <-. by rewrite Hmr in Hok.
    + eapply (page_ok_mono d); [done|apply prefix_add|by apply bytes_subpages| |by apply M]. intros x <-. by apply extended_other.
  - intros a' idx' Hi'. destruct (decide (a' = a /\ idx' = idx)) as [[-> ->]|Hno].
    + intros _ _ _ _ _ _. exists (offset_within_address_space s). split; [done|]. unfold extended. rewrite bool_decide_true by done.
      pose proof (fit_size _ _ _ F). replace (within _ _ _) with true by (unfold within; lia). by eexists.
    + eapply (used_mono d); [done|apply prefix_add| | |by apply U].
      * intros x <-. by rewrite extended_other.
      * intros Ha'. by apply M.
Qed.
End Bytes.

Lemma register_subpage_ok d f a s : built d f -> is_Some (next_dispatch d !! a) -> (length (sections (next_map d)) + 2 <= 1024)%nat ->
  fits f a s -> (offset_within_address_space s + size s - 1) / 1024 = offset_within_address_space s / 1024 ->
  exists d', register_subpage d a s = Some d' /\ built d' (extended f a s) /\ kept d d' 2.
Proof.
  intros B Ha Hl F Hpage. pose proof F as [_ F0 F1 F2 _ F4].
  destruct (page_subpage_ok d f a (offset_within_address_space s)) as (d1 & k & Hd1 & M1 & K1 & Hsub & U1);
    [done|done|lia|pages|apply F4; unfold within; lia|].
  assert (length (sections (next_map d1)) < 1024)%nat as Hl1 by (destruct K1 as (_ & ? & _); lia).
  eexists. split; [|split].
  - unfold register_subpage. rewrite page_base, Hd1. cbn [mbind option_bind]. rewrite section_add_ok by done. cbn [mbind option_bind]. reflexivity.
  - replace (_.[subpages := _]) with (set_bytes (add_section d1 s) k (offset_within_address_space s mod 1024) (size s) (Z.of_nat (length (sections (next_map d1))))).
    + apply bytes_built; try done. by apply K1.
    + unfold set_bytes, set_field. simpl. f_equal. apply list_eq. intros j. destruct (decide (j = k)) as [->|].
      * rewrite !list_lookup_alter_eq. destruct (subpages d1 !! k) as [sp|]; [|done]. simpl. f_equal. rewrite page_offset.
        symmetry. apply register_bytes; pages.
      * by rewrite !list_lookup_alter_ne.
  - eapply (kept_trans d d1); [exact K1| |exact (le_n 2)]. split; [done|]. split; [simpl; rewrite length_app; simpl; lia|done].
Qed.

(** ** Sections in parts *)

Lemma built_ext d f f' : (forall a x, f' a x = f a x) -> built d f -> built d f'.
Proof.
  intros E [M U]. split; [split; try apply M|].
  - intros a idx Ha Hi. apply (page_ok_mono d d f f'); [done|done|done|done|by apply M].
  - intros a idx Hi. apply (used_mono d d f f'); [done|done| | |by apply U].
    + intros x _. by rewrite E.
    + intros Ha. by apply M.
Qed.
(** The bytes of [s] from [o] on, [len] of them. *)
Definition piece s (o len : Z) : MemoryRegionSection :=
  s.[size := len].[offset_within_address_space := offset_within_address_space s + o].[offset_within_region := offset_within_region s + o].
Lemma target_piece s o len x : target_of (piece s o len) x = target_of s x.
Proof. unfold target_of. simpl. do 2 f_equal. lia. Qed.
Lemma fits_piece f f' a s o len : fits f a s -> 0 <= o -> 0 < len -> o + len <= size s ->
  (forall x, within (offset_within_address_space s + o) len x = true -> f' a x = f a x) -> fits f' a (piece s o len).
Proof.
  intros [F1 F2 F3 F4 F5 F6] Ho Hlen Hend Hf. split; simpl; try done; try lia.
  intros x Hx. rewrite Hf by done. apply F6. unfold within in *. lia.
Qed.
Lemma fits_rest f a s len : fits f a s -> 0 <= len < size s -> fits (extended f a (piece s 0 len)) a (piece s len (size s - len)).
Proof.
  intros F Hlen. eapply fits_piece; [done|lia..|]. intros x Hx. unfold extended. cbn [piece set_field].
  replace (within _ _ x) with false; [by rewrite andb_false_r|]. unfold within in *. simpl. lia.
Qed.
Lemma extended_split f a s len b x : 0 <= len <= size s ->
  extended (extended f a (piece s 0 len)) a (piece s len (size s - len)) b x = extended f a s b x.
Proof.
  intros Hl. unfold extended. rewrite !target_piece. case_bool_decide; [|done]. unfold within. simpl.
  cbn [andb]. repeat match goal with |- context [(?p <=? x) && ?q] => destruct ((p <=? x) && q) eqn:? end; try done; lia.
Qed.
Lemma extended_none f a s b x : size s <= 0 -> extended f a s b x = f b x.
Proof. intros H. unfold extended. replace (within _ _ x) with false; [by rewrite andb_false_r|]. unfold within. lia. Qed.

(** The sections that the rest of a section takes. *)
Definition rest_cost s : nat :=
  if offset_within_region s mod 1024 =? 0 then if size s <? 1024 then 2%nat else 3%nat else (2 * (Z.to_nat (size s / 1024) + 1))%nat.
Definition advance (remain now : MemoryRegionSection) : MemoryRegionSection :=
  remain.[size := size remain - size now]
        .[offset_within_address_space := u64 (offset_within_address_space remain + u64 (size now))]
        .[offset_within_region := u64 (offset_within_region remain + u64 (size now))].
Lemma advance_piece f a remain now : fits f a remain -> 0 <= size now < size remain ->
  advance remain now = piece remain (size now) (size remain - size now).
Proof. intros [_ F1 F2 F3 F4 _] H. unfold advance, piece. rewrite !u64_small by (unfold is_u; try rewrite !u64_small; unfold is_u; lia). done. Qed.

Section Parts.
Context (a : positive).
(** [d'] has section [s] as well, at a cost of [n]. *)
Definition added d d' f s (n : nat) : Prop := built d' (extended f a s) /\ kept d d' n.
Lemma added_rest d d1 d2 f s len n m r : 0 <= len <= size s ->
  added d d1 f (piece s 0 len) n -> added d1 d2 (extended f a (piece s 0 len)) (piece s len (size s - len)) m -> (n + m <= r)%nat -> added d d2 f s r.
Proof.
  intros Hl [_ K1] [B2 K2] Hr. split; [|by eapply kept_trans]. eapply built_ext; [|exact B2]. intros b x. symmetry. by apply extended_split.
Qed.
Lemma piece_all s : piece s 0 (size s) = s.
Proof. destruct s. unfold piece, set_field. simpl. f_equal; lia. Qed.
Lemma piece_size s len : s.[size := len] = piece s 0 len.
Proof. destruct s. unfold piece, set_field. simpl. f_equal; lia. Qed.

Definition rest_spec (fuel : nat) : Prop := forall d f now remain, built d f -> is_Some (next_dispatch d !! a) -> 0 <= size now <= size remain ->
  let r := piece remain (size now) (size remain - size now) in
  (size now < size remain -> fits f a r /\ advance remain now = r /\ offset_within_address_space r mod 1024 = 0) ->
  (length (sections (next_map d)) + rest_cost r <= 1024)%nat -> (Z.to_nat (size r / 1024) + 1 <= fuel)%nat ->
  exists d', add_rest fuel d a now remain = Some d' /\ added d d' f r (rest_cost r).
Lemma rest_done fuel d now remain : size remain = size now -> add_rest fuel d a now remain = Some d.
Proof. intros E. destruct fuel; cbn [add_rest]; by rewrite E, Z.eqb_refl. Qed.

(** The first [len] bytes of [s] were registered, up to a page boundary. *)
Lemma round_ok fuel d d1 f s len n c : rest_spec fuel -> fits f a s -> is_Some (next_dispatch d !! a) -> 0 <= len <= size s ->
  added d d1 f (piece s 0 len) n -> (n <= c)%nat -> (length (sections (next_map d)) + c <= 1024)%nat ->
  (len < size s -> (offset_within_address_space s + len) mod 1024 = 0 /\
     (n + rest_cost (piece s len (size s - len)) <= c)%nat /\ (Z.to_nat ((size s - len) / 1024) + 1 <= fuel)%nat) ->
  exists d', add_rest fuel d1 a (piece s 0 len) s = Some d' /\ added d d' f s c.
Proof.
  intros IH F Ha Hlen Hadd Hn Hcost Hr. pose proof Hadd as [B1 K1]. destruct (decide (len = size s)) as [->|].
  { exists d1. split; [by apply rest_done|]. rewrite piece_all in Hadd. split; [apply Hadd|]. by eapply kept_le. }
  destruct Hr as (Hal & Hc & Hfuel); [lia|].
  destruct (IH d1 (extended f a (piece s 0 len)) (piece s 0 len) s) as (d' & Hd' & Hadd'); [done|by apply K1|simpl; lia| | |done|].
  - intros _. change (size (piece s 0 len)) with len. split; [apply fits_rest; [done|lia]|]. split; [|exact Hal]. by apply (advance_piece f a); [|simpl; lia].
  - destruct K1 as (_ & K1 & _). change (size (piece s 0 len)) with len. lia.
  - exists d'. split; [done|]. eapply (added_rest d d1 d' f s len); [lia|exact Hadd|exact Hadd'|exact Hc].
Qed.
Lemma rest_ok fuel : rest_spec fuel.
Proof.
  induction fuel as [|fuel IH]; intros d f now remain B Ha Hle r Hr Hcost Hfuel; [lia|].
  cbn [add_rest]. destruct (Z.eqb_spec (size remain) (size now)) as [E|E].
  { exists d. split; [done|]. split; [|apply kept_refl]. eapply built_ext; [|exact B]. intros b x. apply extended_none. unfold r. simpl. lia. }
  destruct Hr as (F & Hadv & Hal); [lia|]. fold (advance remain now). rewrite Hadv. cbv zeta. clear Hadv.
  assert (0 < size r) as Hpos by apply F. clearbody r. clear now remain E Hle. change TARGET_PAGE_SIZE with 1024. rewrite page_offset.
  destruct (Z.ltb_spec (size r) 1024) as [Hsmall|Hbig].
  - assert (2 <= rest_cost r)%nat by (unfold rest_cost; destruct (_ =? 0); [destruct (_ <? _)|]; lia).
    destruct (register_subpage_ok d f a r) as (d1 & Hd1 & B1 & K1); [done|done|lia|done|pages|].
    exists d1. rewrite Hd1. cbn [mbind option_bind]. rewrite rest_done by done. split; [done|]. split; [done|]. by eapply kept_le.
  - unfold truth. rewrite !piece_size. unfold rest_cost in Hcost |- *.
    destruct (Z.eqb_spec (offset_within_region r mod 1024) 0) as [Hcong|Hcong]; cbn [negb].
    + destruct (Z.ltb_spec (size r) 1024); [lia|]. change (size r .& - (1024)) with (size r .& TARGET_PAGE_MASK). rewrite page_base.
      destruct (register_multipage_ok d f a (piece r 0 (size r / 1024 * 1024))) as (d1 & Hd1 & Hadd);
        [done|done|lia|by apply (fits_piece f); [| |pages..|]|simpl; pages|simpl; pages|].
      rewrite Hd1. cbn [mbind option_bind]. eapply round_ok; [done|done|done|pages|exact Hadd|lia|done|].
      intros Hlt. split; [pages|]. split; [|pages]. unfold rest_cost. simpl.
      replace ((offset_within_region r + size r / 1024 * 1024) mod 1024 =? 0) with true by pages.
      replace (size r - size r / 1024 * 1024 <? 1024) with true by pages. lia.
    + destruct (register_subpage_ok d f a (piece r 0 1024)) as (d1 & Hd1 & Hadd); [done|done|lia|by apply (fits_piece f)|simpl; pages|].
      rewrite Hd1. cbn [mbind option_bind]. eapply round_ok; [done|done|done|lia|exact Hadd|lia|done|].
      intros Hlt. split; [pages|]. split; [|pages]. unfold rest_cost. simpl.
      replace ((offset_within_region r + 1024) mod 1024 =? 0) with false by pages. pages.
Qed.
End Parts.

(** ** Sections *)

(** The sections that a call of [mem_add] takes at most.  If the offsets in
    the region and in the address space differ by whole pages, the inner pages
    share one; otherwise each page has a subpage of its own. *)
Definition cost s : nat :=
  if (offset_within_address_space s - offset_within_region s) mod 1024 =? 0 then 5%nat else (2 * (Z.to_nat (size s / 1024) + 2))%nat.
Lemma mem_add_ok d f a s : built d f -> is_Some (next_dispatch d !! a) -> fits f a s -> (length (sections (next_map d)) + cost s <= 1024)%nat ->
  exists d', mem_add d a s = Some d' /\ built d' (extended f a s) /\ kept d d' (cost s).
Proof.
  intros B Ha F Hcost. pose proof F as [_ F0 F1 F2 F3 _]. unfold mem_add. rewrite page_offset, page_number. unfold truth.
  assert (forall o len, (offset_within_address_space s + o) mod 1024 = 0 -> 0 <= len <= size s -> (2 + rest_cost (piece s o len) <= cost s)%nat) as Hrest.
  { intros o len Ho Hlen. unfold rest_cost, cost. simpl.
    replace ((offset_within_region s + o) mod 1024 =? 0) with ((offset_within_address_space s - offset_within_region s) mod 1024 =? 0).
    - destruct (_ =? 0); [destruct (_ <? _); lia|]. pages.
    - destruct (Z.eqb_spec ((offset_within_address_space s - offset_within_region s) mod 1024) 0), (Z.eqb_spec ((offset_within_region s + o) mod 1024) 0); pages. }
  destruct (Z.eqb_spec (offset_within_address_space s mod 1024) 0) as [Hal|Hal]; cbn [negb]; rewrite piece_size.
  - apply (round_ok a _ d d f s 0 0); [apply rest_ok|done|done|lia| |lia|done|].
    + split; [|apply kept_refl]. eapply built_ext; [|exact B]. intros b x. by apply extended_none.
    + intros _. split; [by rewrite Z.add_0_r|]. split; [|pages]. specialize (Hrest 0 (size s - 0)). rewrite Z.add_0_r in Hrest. lia.
  - rewrite page_up by (done || unfold is_u; lia).
    rewrite u64_small by (unfold is_u; pages).
    set (len := Z.min ((offset_within_address_space s / 1024 + 1) * 1024 - offset_within_address_space s) (size s)).
    assert (0 < len <= size s) as Hlen by (unfold len; pages).
    assert (2 <= cost s)%nat by (unfold cost; destruct (_ =? 0); lia).
    destruct (register_subpage_ok d f a (piece s 0 len)) as (d1 & Hd1 & Hadd);
      [done|done|lia|apply (fits_piece f); done || lia|simpl; unfold len; pages|].
    rewrite Hd1. cbn [mbind option_bind]. apply (round_ok a _ d d1 f s len 2); [apply rest_ok|done|done|lia|done|done|done|].
    intros Hlt. assert ((offset_within_address_space s + len) mod 1024 = 0) as Ho by (unfold len in *; pages).
    split; [done|]. split; [apply Hrest; [done|lia]|pages].
Qed.

(** ** The start of a transaction *)

Definition no_answers : answers := fun _ _ => None.
Definition dummy (r : region) : MemoryRegionSection := mkSection r 0 Memory.int128_2_64 0 false.
Definition begun : PhysPageMap := mkMap [] 0 (dummy <$> [io_mem_unassigned; io_mem_notdirty; io_mem_rom; io_mem_watch]).
Lemma core_begin_eq d : core_begin d = Some d.[next_map := begun].
Proof. reflexivity. Qed.
Lemma begun_built d : next_map d = begun -> (forall a e, next_dispatch d !! a = Some e -> e = mkEntry false PHYS_MAP_NODE_NIL) -> built d no_answers.
Proof.
  intros Hm Hroots. split; [split|]; rewrite ?Hm.
  - exists []. split; [|simpl; lia]. split; [by rewrite Hm|done|done|]. intros a e He. rewrite (Hroots _ _ He). split; [done|by left].
  - simpl. lia.
  - done.
  - intros a idx [e He] _. exists 0, unassigned. unfold page. rewrite He, Hm. cbn [mbind option_bind]. rewrite (Hroots _ _ He). done.
  - intros a idx _ n s k Hn Hs Hk. unfold page in Hn. destruct (next_dispatch d !! a) as [e|] eqn:He; [|done].
    cbn [mbind option_bind] in Hn. rewrite (Hroots _ _ He) in Hn. injection Hn as <-. rewrite Hm in Hs. injection Hs as <-. done.
Qed.

(** ** Limits *)

(** The tree has the lower 40 bits of an address only: higher addresses are
    looked up as if their upper bits were clear. *)
Lemma digit_wraps idx l : 0 <= idx -> (l < 3)%nat -> digit (idx + span 3) l = digit idx l.
Proof.
  intros Hi Hl. apply Nat2Z.inj. rewrite !digit_mod by (pose proof (span_positive 3); lia). pose proof (span_positive l).
  assert (span 3 = 1024 * span (2 - l) * span l) as ->.
  { change 1024 with (span 1). unfold span. rewrite <- !Z.pow_add_r by lia. f_equal. lia. }
  rewrite Z.div_add by lia. rewrite (Z.mul_comm 1024). by rewrite Z.mod_add.
Qed.
Lemma walk_wraps k : forall e idx ns, (k <= 3)%nat -> 0 <= idx -> page_walk k e (idx + span 3) ns = page_walk k e idx ns.
Proof.
  induction k as [|k IH]; intros e idx ns Hk Hi; [done|]. cbn [page_walk]. rewrite digit_wraps by (done || lia).
  destruct (is_leaf e); [done|]. destruct (Z.eqb (ptr e) _); [done|]. destruct (ns !! _) as [row|]; [|done]. cbn [mbind option_bind]. destruct (row !! _); [|done].
  cbn [mbind option_bind]. apply IH; [lia|done].
Qed.
Lemma lookup_wraps sps (d : AddressSpaceDispatch) x b : 0 <= x -> address_space_lookup_region sps d (x + 2 ^ 40) b = address_space_lookup_region sps d x b.
Proof.
  intros Hx. unfold address_space_lookup_region, phys_page_find, SUBPAGE_IDX. rewrite !page_number, !page_offset.
  replace ((x + 2 ^ 40) / 1024) with (x / 1024 + span 3) by pages. rewrite walk_wraps by (done || pages).
  by replace ((x + 2 ^ 40) mod 1024) with (x mod 1024) by pages.
Qed.

(** The length of an access is limited by the size of the region less the
    offset in the section.  If the section does not start with the region, the
    access goes past the end of the region: here the last byte of a region of
    0x2000 bytes is accessed, and 0x1000 bytes are granted. *)
Definition half_mapped : option exec :=
  d ← core_begin (mem_begin (mkExec (mkMap [] 0 []) ∅ ∅ []) 1);
  d ← mem_add d 1 (mkSection (Mr 1%positive) 0x1000 0x1000 0 false);
  mem_commit d 1.
Lemma length_past_region : exists s, (d ← half_mapped; e ← dispatch d !! 1%positive;
  address_space_translate_internal (fun _ => 0x2000) (subpages d) e 0xfff 0x1000 true) = Some (s, 0x1fff, 0x1000).
Proof. eexists. by vm_compute. Qed.
End DispatchProps.
