(* ===== verification/Listeners.v ===== *)
(** * Changes of the memory map (memory.c, include/exec/memory.h)

    The map changes in transactions.  When the outermost one ends, the flat
    view of each address space is generated again, and the listeners are told
    the difference to the view before: which ranges are gone, which are new,
    which stay.  The listeners are foreign code, so the model keeps the calls
    they get, in order ([calls]); the address space of a section is given
    beside it.  The buffer of coalesced writes belongs to KVM, and transactions
    nest less than 2^32 deep. *)

From stdpp Require Import gmap sorting.
From S2P Require Import Prelude Memory.

Module Listeners.
Import Memory.
#[local] Open Scope Z_scope.

(** ** Listeners and calls *)

Inductive callback :=
  cb_begin | cb_commit | cb_region_add | cb_region_del | cb_region_nop | cb_log_start | cb_log_stop | cb_log_sync
| cb_log_global_start | cb_log_global_stop | cb_eventfd_add | cb_eventfd_del.
#[export] Instance callback_eq_dec : EqDecision callback.
Proof. solve_decision. Defined.

(** The address of a listener: the one of an address space's dispatch, the two
    of exec.c, or another. *)
Inductive name := dispatch_listener (space : positive) | core_memory_listener | tcg_memory_listener | other_listener (p : positive).
#[export] Instance name_eq_dec : EqDecision name.
Proof. solve_decision. Defined.
(** A listener with the callbacks that are not null. *)
Record MemoryListener := mkListener {
  listener : name;
  has : callback -> bool;
  l_priority : Z;
  address_space_filter : option positive
}.
Record MemoryRegionIoeventfd := mkIoeventfd {
  fd_addr : AddrRange; match_data : bool; fd_data : Z; fd_e : Z
}.
#[export] Instance eta_fd : RecEta MemoryRegionIoeventfd := fun d => mkIoeventfd (fd_addr d) (match_data d) (fd_data d) (fd_e d).

Inductive call :=
  Global (l : name) (cb : callback)
| Region (l : name) (cb : callback) (space : positive) (s : MemoryRegionSection)
| Eventfd (l : name) (cb : callback) (space : positive) (d : MemoryRegionIoeventfd).

Inductive ListenerDirection := Forward | Reverse.
Definition in_direction {A} (dir : ListenerDirection) (l : list A) : list A := match dir with Forward => l | Reverse => reverse l end.
Definition memory_listener_match (l : MemoryListener) (space : positive) : bool :=
  match address_space_filter l with None => true | Some a => bool_decide (a = space) end.
Definition call_global (cb : callback) (dir : ListenerDirection) (ls : list MemoryListener) : list call :=
  (fun l => Global (listener l) cb) <$> filter (fun l => has l cb) (in_direction dir ls).
(** The listeners that a call about an address space goes to. *)
Definition called (cb : callback) (dir : ListenerDirection) (space : positive) (ls : list MemoryListener) : list MemoryListener :=
  filter (fun l => has l cb && memory_listener_match l space) (in_direction dir ls).
Definition section_of (fr : FlatRange) : MemoryRegionSection :=
  mkSection (mr fr) (offset_in_region fr) (size (addr fr)) (u64 (start (addr fr))) (fr_readonly fr).
Definition update_region (fr : FlatRange) (space : positive) (dir : ListenerDirection) (cb : callback) (ls : list MemoryListener) : list call :=
  (fun l => Region (listener l) cb space (section_of fr)) <$> called cb dir space ls.

(** ** Differences of views *)

Definition addrrange_equal (r1 r2 : AddrRange) : bool := (start r1 =? start r2) && (size r1 =? size r2).
Definition flatrange_equal (a b : FlatRange) : bool :=
  bool_decide (mr a = mr b) && addrrange_equal (addr a) (addr b) && (offset_in_region a =? offset_in_region b) &&
  Bool.eqb (fr_romd_mode a) (fr_romd_mode b) && Bool.eqb (fr_readonly a) (fr_readonly b).

(** [n] is at least the number of ranges left. *)
Fixpoint topology_pass (n : nat) (ls : list MemoryListener) (space : positive) (old new : list FlatRange) (adding : bool) : list call :=
  match n with
  | O => []
  | S n =>
      match old, new with
      | [], [] => []
      | frold :: old', [] =>
          (if adding then [] else update_region frold space Reverse cb_region_del ls) ++ topology_pass n ls space old' new adding
      | [], frnew :: new' =>
          (if adding then update_region frnew space Forward cb_region_add ls else []) ++ topology_pass n ls space old new' adding
      | frold :: old', frnew :: new' =>
          if (start (addr frold) <? start (addr frnew)) ||
             ((start (addr frold) =? start (addr frnew)) && negb (flatrange_equal frold frnew)) then
            (if adding then [] else update_region frold space Reverse cb_region_del ls) ++ topology_pass n ls space old' new adding
          else if flatrange_equal frold frnew then
            (if adding then
               update_region frnew space Forward cb_region_nop ls ++
               (if truth (fr_dirty_log_mask frold) && negb (truth (fr_dirty_log_mask frnew)) then update_region frnew space Reverse cb_log_stop ls
                else if truth (fr_dirty_log_mask frnew) && negb (truth (fr_dirty_log_mask frold)) then update_region frnew space Forward cb_log_start ls
                else [])
             else []) ++ topology_pass n ls space old' new' adding
          else
            (if adding then update_region frnew space Forward cb_region_add ls else []) ++ topology_pass n ls space old new' adding
      end
  end.
Definition address_space_update_topology_pass (ls : list MemoryListener) (space : positive) (old new : list FlatRange) (adding : bool) : list call :=
  topology_pass (length old + length new) ls space old new adding.

(** ** Event file descriptors *)

Definition memory_region_ioeventfd_before (a b : MemoryRegionIoeventfd) : bool :=
  let ra := fd_addr a in let rb := fd_addr b in
  if start ra <? start rb then true
  else if start rb <? start ra then false
  else if size ra <? size rb then true
  else if size rb <? size ra then false
  else if negb (match_data a) && match_data b then true
  else if match_data a && negb (match_data b) then false
  else if match_data a && (fd_data a <? fd_data b) then true
  else if match_data a && (fd_data b <? fd_data a) then false
  else fd_e a <? fd_e b.
Definition memory_region_ioeventfd_equal (a b : MemoryRegionIoeventfd) : bool :=
  negb (memory_region_ioeventfd_before a b) && negb (memory_region_ioeventfd_before b a).
Definition call_eventfd (d : MemoryRegionIoeventfd) (space : positive) (dir : ListenerDirection) (cb : callback) (ls : list MemoryListener) : list call :=
  (fun l => Eventfd (listener l) cb space d) <$> called cb dir space ls.
Fixpoint add_del (n : nat) (ls : list MemoryListener) (space : positive) (new old : list MemoryRegionIoeventfd) : list call :=
  match n with
  | O => []
  | S n =>
      match old, new with
      | [], [] => []
      | d :: old', [] => call_eventfd d space Forward cb_eventfd_del ls ++ add_del n ls space new old'
      | [], d :: new' => call_eventfd d space Reverse cb_eventfd_add ls ++ add_del n ls space new' old
      | o :: old', d :: new' =>
          if memory_region_ioeventfd_before o d then call_eventfd o space Forward cb_eventfd_del ls ++ add_del n ls space new old'
          else if memory_region_ioeventfd_before d o then call_eventfd d space Reverse cb_eventfd_add ls ++ add_del n ls space new' old
          else add_del n ls space new' old'
      end
  end.
Definition address_space_add_del_ioeventfds (ls : list MemoryListener) (space : positive) (new old : list MemoryRegionIoeventfd) : list call :=
  add_del (length old + length new) ls space new old.

(** ** The state *)

Record AddressSpace := mkSpace {
  space : positive; root : option ptr; current_map : list FlatRange; as_ioeventfds : list MemoryRegionIoeventfd
}.
#[export] Instance eta_space : RecEta AddressSpace := fun a => mkSpace (space a) (root a) (current_map a) (as_ioeventfds a).
Record memory := mkMemory {
  regions : heap;
  ioeventfds : ptr -> list MemoryRegionIoeventfd;
  address_spaces : list AddressSpace;
  memory_listeners : list MemoryListener;
  memory_region_transaction_depth : nat;
  memory_region_update_pending : bool;
  global_dirty_log : bool;
  calls : list call
}.
#[export] Instance eta_memory : RecEta memory := fun s =>
  mkMemory (regions s) (ioeventfds s) (address_spaces s) (memory_listeners s) (memory_region_transaction_depth s)
    (memory_region_update_pending s) (global_dirty_log s) (calls s).
Implicit Types (s : memory) (p : ptr).

Definition emit s (l : list call) : memory := s.[calls := calls s ++ l].

Section Updates.
(** The depth that the regions are rendered to; [None] is a failed assertion,
    a region that does not exist, or a deeper one. *)
Context (n : nat).

Definition space_topology (h : heap) (a : AddressSpace) : option (list FlatRange) :=
  match root a with Some r => generate_memory_topology n h r | None => Some [] end.
(** The descriptors of the regions in a view, at their addresses. *)
Definition view_ioeventfds (fds : ptr -> list MemoryRegionIoeventfd) (view : list FlatRange) : list MemoryRegionIoeventfd :=
  view ≫= fun fr => 
    let shift d := d.[fd_addr := (fd_addr d).[start := start (fd_addr d) + (start (addr fr) - offset_in_region fr)]] in
    filter (fun d => addrrange_intersects (addr fr) (fd_addr d)) (shift <$> fds (mr fr)).
Definition address_space_update_ioeventfds s (a : AddressSpace) : AddressSpace * list call :=
  let fds := view_ioeventfds (ioeventfds s) (current_map a) in
  (a.[as_ioeventfds := fds], address_space_add_del_ioeventfds (memory_listeners s) (space a) fds (as_ioeventfds a)).
Definition address_space_update_topology s (a : AddressSpace) : option (AddressSpace * list call) :=
  new_view ← space_topology (regions s) a;
  let old_view := current_map a in
  let dels := address_space_update_topology_pass (memory_listeners s) (space a) old_view new_view false in
  let adds := address_space_update_topology_pass (memory_listeners s) (space a) old_view new_view true in
  let '(a, fds) := address_space_update_ioeventfds s a.[current_map := new_view] in
  Some (a, dels ++ adds ++ fds).
Fixpoint update_spaces s (l : list AddressSpace) : option (list AddressSpace * list call) :=
  match l with
  | [] => Some ([], [])
  | a :: l => '(a, c) ← address_space_update_topology s a; '(l, c') ← update_spaces s l; Some (a :: l, c ++ c')
  end.

Definition memory_region_transaction_begin s : memory :=
  s.[memory_region_transaction_depth := S (memory_region_transaction_depth s)].
Definition memory_region_transaction_commit s : option memory :=
  match memory_region_transaction_depth s with
  | O => None
  | S d =>
      let s := s.[memory_region_transaction_depth := d] in
      if (d =? 0)%nat && memory_region_update_pending s then
        let s := s.[memory_region_update_pending := false] in
        let s := emit s (call_global cb_begin Forward (memory_listeners s)) in
        '(spaces, c) ← update_spaces s (address_spaces s);
        let s := emit s.[address_spaces := spaces] c in
        Some (emit s (call_global cb_commit Forward (memory_listeners s)))
      else Some s
  end.

(** ** Operations *)

(** The regions become [h], which matters if [pending]. *)
Definition change s (h : heap) (pending : bool) : memory :=
  s.[regions := h].[memory_region_update_pending := memory_region_update_pending s || pending].
Definition is_enabled (h : heap) p : bool := match h !! p with Some m => enabled m | None => false end.

Definition memory_region_set_log s p (log : bool) (client : Z) : option memory :=
  let s := memory_region_transaction_begin s in
  let mask := u8 (1 .<< client) in
  h ← set_region (regions s) p (fun m => m.[dirty_log_mask := u8 ((dirty_log_mask m .& Z.lnot mask) .| (b2z log * mask))]);
  memory_region_transaction_commit (change s h (is_enabled h p)).
Definition memory_region_set_readonly s p (ro : bool) : option memory :=
  m ← regions s !! p;
  if Bool.eqb (readonly m) ro then Some s
  else
    let s := memory_region_transaction_begin s in
    h ← Memory.memory_region_set_readonly (regions s) p ro;
    memory_region_transaction_commit (change s h (is_enabled h p)).
Definition memory_region_rom_device_set_romd s p (romd : bool) : option memory :=
  m ← regions s !! p;
  if Bool.eqb (romd_mode m) romd then Some s
  else
    let s := memory_region_transaction_begin s in
    h ← set_region (regions s) p (fun m => m.[romd_mode := romd]);
    memory_region_transaction_commit (change s h (is_enabled h p)).
Definition memory_region_add_subregion s (mr : ptr) (offset : Z) (subregion : ptr) : option memory :=
  let s := memory_region_transaction_begin s in
  h ← Memory.memory_region_add_subregion (regions s) mr offset subregion;
  memory_region_transaction_commit (change s h (is_enabled h mr && is_enabled h subregion)).
Definition memory_region_add_subregion_overlap s (mr : ptr) (offset : Z) (subregion : ptr) (prio : Z) : option memory :=
  let s := memory_region_transaction_begin s in
  h ← Memory.memory_region_add_subregion_overlap (regions s) mr offset subregion prio;
  memory_region_transaction_commit (change s h (is_enabled h mr && is_enabled h subregion)).
Definition memory_region_del_subregion s (mr subregion : ptr) : option memory :=
  let s := memory_region_transaction_begin s in
  h ← Memory.memory_region_del_subregion (regions s) mr subregion;
  memory_region_transaction_commit (change s h (is_enabled h mr && is_enabled h subregion)).
Definition memory_region_set_enabled s p (b : bool) : option memory :=
  m ← regions s !! p;
  if Bool.eqb b (enabled m) then Some s
  else
    let s := memory_region_transaction_begin s in
    h ← Memory.memory_region_set_enabled (regions s) p b;
    memory_region_transaction_commit (change s h true).
Definition memory_region_set_address s p (a : Z) : option memory :=
  m ← regions s !! p;
  match parent m with
  | Some mr =>
      if a =? mr_addr m then Some s
      else
        let s := memory_region_transaction_begin s in
        s ← memory_region_del_subregion s mr p;
        s ← (if may_overlap m then memory_region_add_subregion_overlap s mr a p (priority m) else memory_region_add_subregion s mr a p);
        memory_region_transaction_commit s
  | None => h ← set_region (regions s) p (fun m => m.[mr_addr := a]); Some s.[regions := h]
  end.
Definition memory_region_set_alias_offset s p (offset : Z) : option memory :=
  m ← regions s !! p;
  _ ← alias m;
  if offset =? alias_offset m then Some s
  else
    let s := memory_region_transaction_begin s in
    h ← Memory.memory_region_set_alias_offset (regions s) p offset;
    memory_region_transaction_commit (change s h (is_enabled h p)).

(** The data of a descriptor in the byte order of the region. *)
Context (swap : ptr -> Z -> Z -> Z).
Definition make_fd p (a sz : Z) (m : bool) (data e : Z) : MemoryRegionIoeventfd := mkIoeventfd (mkRange a sz) m (swap p data sz) e.
Fixpoint insert_fd (d : MemoryRegionIoeventfd) (l : list MemoryRegionIoeventfd) : list MemoryRegionIoeventfd :=
  match l with [] => [d] | x :: l' => if memory_region_ioeventfd_before d x then d :: l else x :: insert_fd d l' end.
Fixpoint remove_fd (d : MemoryRegionIoeventfd) (l : list MemoryRegionIoeventfd) : option (list MemoryRegionIoeventfd) :=
  match l with
  | [] => None
  | x :: l => if memory_region_ioeventfd_equal d x then Some l else l ← remove_fd d l; Some (x :: l)
  end.
Definition set_fds s p (l : list MemoryRegionIoeventfd) : memory :=
  change s.[ioeventfds := fun q => if decide (q = p) then l else ioeventfds s q] (regions s) (is_enabled (regions s) p).
Definition memory_region_add_eventfd s p (a sz : Z) (m : bool) (data e : Z) : option memory :=
  let s := memory_region_transaction_begin s in
  memory_region_transaction_commit (set_fds s p (insert_fd (make_fd p a sz m data e) (ioeventfds s p))).
Definition memory_region_del_eventfd s p (a sz : Z) (m : bool) (data e : Z) : option memory :=
  let s := memory_region_transaction_begin s in
  l ← remove_fd (make_fd p a sz m data e) (ioeventfds s p);
  memory_region_transaction_commit (set_fds s p l).

(** ** Listeners and address spaces *)

Definition memory_region_sync_dirty_bitmap s p : memory :=
  emit s (address_spaces s ≫= fun a => filter (fun fr => mr fr = p) (current_map a) ≫= fun fr =>
            update_region fr (space a) Forward cb_log_sync (memory_listeners s)).
Definition address_space_sync_dirty_bitmap s (a : AddressSpace) : memory :=
  emit s (current_map a ≫= fun fr => update_region fr (space a) Forward cb_log_sync (memory_listeners s)).
Definition memory_global_dirty_log_start s : memory :=
  let s := s.[global_dirty_log := true] in emit s (call_global cb_log_global_start Forward (memory_listeners s)).
Definition memory_global_dirty_log_stop s : memory :=
  let s := s.[global_dirty_log := false] in emit s (call_global cb_log_global_stop Reverse (memory_listeners s)).

Definition listener_add_address_space s (l : MemoryListener) (a : AddressSpace) : list call :=
  if negb (memory_listener_match l (space a)) then []
  else
    (if global_dirty_log s && has l cb_log_global_start then [Global (listener l) cb_log_global_start] else []) ++
    (if has l cb_region_add then (fun fr => Region (listener l) cb_region_add (space a) (section_of fr)) <$> current_map a else []).
(** In front of the first listener of a higher priority. *)
Fixpoint insert_listener (l : MemoryListener) (ls : list MemoryListener) : list MemoryListener :=
  match ls with [] => [l] | o :: ls' => if l_priority l <? l_priority o then l :: ls else o :: insert_listener l ls' end.
Definition memory_listener_register s (l : MemoryListener) : memory :=
  let ls := match last (memory_listeners s) with
            | None => memory_listeners s ++ [l]
            | Some o => if l_priority o <=? l_priority l then memory_listeners s ++ [l] else insert_listener l (memory_listeners s)
            end in
  let s := s.[memory_listeners := ls] in
  emit s (address_spaces s ≫= listener_add_address_space s l).
Definition memory_listener_unregister s (l : name) : memory :=
  s.[memory_listeners := filter (fun o => listener o <> l) (memory_listeners s)].

(** The callbacks of a dispatch (exec.c). *)
Definition dispatch_has (cb : callback) : bool :=
  match cb with cb_begin | cb_commit | cb_region_add | cb_region_nop => true | _ => false end.
Definition address_space_init_dispatch s (a : positive) : memory :=
  memory_listener_register s (mkListener (dispatch_listener a) dispatch_has 0 (Some a)).
Definition address_space_init s (a : positive) (r : ptr) : option memory :=
  let s := memory_region_transaction_begin s in
  let s := s.[address_spaces := address_spaces s ++ [mkSpace a (Some r) [] []]] in
  let s := address_space_init_dispatch s a in
  memory_region_transaction_commit (change s (regions s) (is_enabled (regions s) r)).
Definition address_space_destroy s (a : positive) : option memory :=
  let s := memory_region_transaction_begin s in
  let s := s.[address_spaces := (fun x => if decide (space x = a) then x.[root := None] else x) <$> address_spaces s] in
  s ← memory_region_transaction_commit s;
  let s := s.[address_spaces := filter (fun x => space x <> a) (address_spaces s)] in
  Some (memory_listener_unregister s (dispatch_listener a)).
End Updates.
End Listeners.
