(* ===== verification/ListenersProps.v ===== *)
(** * What the listeners are told (memory.c)

    A listener that keeps the ranges it is told to add and drops those it is
    told to delete has the flat views of its address spaces at any time: it is
    never told to delete a range it does not have, nor to add one that overlaps
    one it has.  And outside of transactions the flat views are those of the
    current regions, although updates are skipped where a change is thought not
    to matter. *)

From stdpp Require Import gmap sorting.
From S2P Require Import Prelude Memory MemoryProps Listeners.

Module ListenersProps.
Import Memory MemoryProps Listeners.
#[local] Open Scope Z_scope.
Implicit Types (s : memory) (fr : FlatRange) (a : positive) (l : MemoryListener) (ls : list MemoryListener).

(** ** A listener that keeps what it is told *)

Abbreviation entry := (positive * MemoryRegionSection)%type.
#[export] Instance section_eq_dec : EqDecision MemoryRegionSection.
Proof. solve_decision. Defined.

Definition overlap (x y : entry) : bool :=
  bool_decide (x.1 = y.1) &&
  (offset_within_address_space x.2 <? offset_within_address_space y.2 + sec_size y.2) &&
  (offset_within_address_space y.2 <? offset_within_address_space x.2 + sec_size x.2).
Fixpoint remove_one (x : entry) (m : list entry) : option (list entry) :=
  match m with
  | [] => None
  | y :: m => if decide (y = x) then Some m else m ← remove_one x m; Some (y :: m)
  end.
(** [None]: it is told to add a range that overlaps one that it has, or about
    one that it does not have. *)
Definition tell (who : name) (m : list entry) (c : call) : option (list entry) :=
  match c with
  | Region who' cb a s =>
      if decide (who' = who) then
        match cb with
        | cb_region_add => if existsb (overlap (a, s)) m then None else Some ((a, s) :: m)
        | cb_region_del => remove_one (a, s) m
        | _ => if decide ((a, s) ∈ m) then Some m else None
        end
      else Some m
  | _ => Some m
  end.
Fixpoint follow (who : name) (m : list entry) (cs : list call) : option (list entry) :=
  match cs with [] => Some m | c :: cs => m ← tell who m c; follow who m cs end.
Definition entry_of a fr : entry := (a, section_of fr).
(** It has the entries of [m], in some order. *)
Definition has_all (r : option (list entry)) (m : list entry) : Prop := exists m', r = Some m' /\ m' ≡ₚ m.

Lemma follow_app who m cs cs' : follow who m (cs ++ cs') = m ← follow who m cs; follow who m cs'.
Proof. revert m. induction cs as [|c cs IH]; intros m; cbn [follow app]; [done|]. destruct (tell who m c); [apply IH|done]. Qed.
Lemma follow_idle who m cs : Forall (fun c => match c with Region who' _ _ _ => who' <> who | _ => True end) cs -> follow who m cs = Some m.
Proof.
  induction 1 as [|c cs Hc _ IH]; cbn [follow]; [done|]. replace (tell who m c) with (Some m); [exact IH|].
  destruct c; try done. simpl. by rewrite decide_False.
Qed.
Lemma remove_one_ok x m m0 : m ≡ₚ x :: m0 -> has_all (remove_one x m) m0.
Proof.
  revert m0. induction m as [|y m IH]; intros m0 Hm; [by apply Permutation_nil_cons in Hm|]. cbn [remove_one].
  destruct (decide (y = x)) as [->|Hne]. { exists m. split; [done|]. by apply Permutation_cons_inv in Hm. }
  assert (y ∈ m0) as Hy. { assert (y ∈ x :: m0) as H by (rewrite <- Hm; left). by apply elem_of_cons in H as [?|?]. }
  apply elem_of_Permutation in Hy as [m1 Hm1]. destruct (IH m1) as (m' & -> & Hp).
  { apply (Permutation_cons_inv (a := y)). rewrite Hm, Hm1. constructor. }
  exists (y :: m'). split; [done|]. by rewrite Hp, Hm1.
Qed.
Lemma tell_add who m a sec m0 : m ≡ₚ m0 -> Forall (fun x => overlap (a, sec) x = false) m0 ->
  has_all (tell who m (Region who cb_region_add a sec)) ((a, sec) :: m0).
Proof.
  intros Hm Hf. simpl. rewrite decide_True by done. replace (existsb _ m) with false.
  - exists ((a, sec) :: m). split; [done|]. by rewrite Hm.
  - symmetry. apply not_true_iff_false. rewrite existsb_exists. intros (x & Hx & Ho). rewrite Forall_forall in Hf.
    rewrite (Hf x) in Ho; [done|]. rewrite <- Hm. by apply list_elem_of_In.
Qed.
Lemma tell_about who m a sec cb m0 : m ≡ₚ m0 -> (a, sec) ∈ m0 -> cb <> cb_region_add -> cb <> cb_region_del ->
  has_all (tell who m (Region who cb a sec)) m0.
Proof.
  intros Hm Hin H1 H2. exists m. split; [|done]. simpl. rewrite decide_True by done. destruct cb; try done; by rewrite decide_True by by rewrite Hm.
Qed.

(** ** Calls to one listener *)

Lemma others_named (f : MemoryListener -> call) l L : (forall x, match f x with Region who _ _ _ => who = listener x | _ => True end) ->
  listener l ∉ listener <$> L -> forall m, follow (listener l) m (f <$> L) = Some m.
Proof.
  intros Hf Hno m. apply follow_idle, Forall_fmap, Forall_forall. intros x Hx. simpl. specialize (Hf x). destruct (f x); try done. rewrite Hf.
  intros E. apply Hno. rewrite <- E. by apply list_elem_of_fmap_2.
Qed.
Lemma filter_names (P : MemoryListener -> Prop) `{!forall x, Decision (P x)} (L : list MemoryListener) (n : name) : n ∈ listener <$> filter P L -> n ∈ listener <$> L.
Proof. intros (x & -> & [_ Hx]%list_elem_of_filter)%list_elem_of_fmap. by apply list_elem_of_fmap_2. Qed.
Lemma nodup_filter {A B} (f : A -> B) (P : A -> Prop) `{!forall x, Decision (P x)} (l : list A) : NoDup (f <$> l) -> NoDup (f <$> filter P l).
Proof.
  induction l as [|x l IH]; simpl; [done|]. intros [Hx Hl]%NoDup_cons. rewrite filter_cons. case_decide; [|auto]. cbn [fmap list_fmap].
  constructor; [|auto]. intros Hin. apply Hx. apply list_elem_of_fmap in Hin as (y & -> & Hy). apply list_elem_of_filter in Hy as [_ Hy].
  by apply list_elem_of_fmap_2.
Qed.
Lemma nodup_inj {A B} (f : A -> B) (l : list A) x y : NoDup (f <$> l) -> x ∈ l -> y ∈ l -> f x = f y -> x = y.
Proof.
  induction l as [|z l IH]; [by intros _ ?%not_elem_of_nil|]. rewrite fmap_cons, NoDup_cons. intros [Hz Hl] Hx Hy E.
  apply elem_of_cons in Hx as [->|Hx]; apply elem_of_cons in Hy as [->|Hy]; [done| | |by apply IH].
  - destruct Hz. rewrite E. by apply list_elem_of_fmap_2.
  - destruct Hz. rewrite <- E. by apply list_elem_of_fmap_2.
Qed.
(** Of the calls about a range, a listener gets one at most. *)
Lemma follow_called cb a sec l (P : MemoryListener -> Prop) `{!forall x, Decision (P x)} (L : list MemoryListener) : NoDup (listener <$> L) -> l ∈ L -> forall m,
  follow (listener l) m ((fun x => Region (listener x) cb a sec) <$> filter P L) =
  if decide (P l) then tell (listener l) m (Region (listener l) cb a sec) else Some m.
Proof.
  intros Hnd Hl m. apply list_elem_of_split in Hl as (L1 & L2 & ->). rewrite fmap_app, fmap_cons, NoDup_app, NoDup_cons in Hnd.
  destruct Hnd as (_ & H1 & H2 & _). rewrite filter_app, filter_cons, fmap_app, follow_app, others_named; [|done|].
  - cbn [mbind option_bind]. case_decide.
    + cbn [fmap list_fmap follow]. destruct (tell _ _ _); [|done]. apply (others_named (fun x => Region (listener x) cb a sec)); [done|].
      intros Hin%filter_names. done.
    + apply (others_named (fun x => Region (listener x) cb a sec)); [done|]. intros Hin%filter_names. done.
  - intros Hin%filter_names. apply (H1 _ Hin). left.
Qed.

Section One.
Context (ls : list MemoryListener) (l : MemoryListener) (a : positive).
Hypothesis (Hnd : NoDup (listener <$> ls)) (Hl : l ∈ ls).

Lemma follow_update m fr dir cb : follow (listener l) m (update_region fr a dir cb ls) =
  if has l cb && memory_listener_match l a then tell (listener l) m (Region (listener l) cb a (section_of fr)) else Some m.
Proof.
  unfold update_region, called. rewrite follow_called.
  - case_decide as H; [by rewrite Is_true_true in H; rewrite H|]. rewrite Is_true_true, not_true_iff_false in H. by rewrite H.
  - destruct dir; simpl; [done|]. by rewrite fmap_reverse, reverse_Permutation.
  - destruct dir; simpl; [done|]. by apply elem_of_reverse.
Qed.
Hypothesis (Hmatch : memory_listener_match l a = true) (Hadd : has l cb_region_add = true) (Hdel : has l cb_region_del = true).

(** ** The difference of two views *)

(** The ranges that stay. *)
Fixpoint common (n : nat) (old new : list FlatRange) : list FlatRange :=
  match n, old, new with
  | S n, frold :: old', frnew :: new' =>
      if (start (addr frold) <? start (addr frnew)) ||
         ((start (addr frold) =? start (addr frnew)) && negb (flatrange_equal frold frnew)) then common n old' new
      else if flatrange_equal frold frnew then frnew :: common n old' new'
      else common n old new'
  | _, _, _ => []
  end.
Lemma common_sublist n : forall old new, common n old new `sublist_of` new.
Proof.
  induction n as [|n IH]; intros old new; [apply sublist_nil_l|]. destruct old as [|o old], new as [|r new]; cbn [common]; try apply sublist_nil_l.
  destruct (_ || _); [apply IH|]. destruct (flatrange_equal o r); [by constructor|by constructor].
Qed.
Lemma common_nil_l n new : common n [] new = [].
Proof. by destruct n. Qed.
Lemma common_nil_r n old : common n old [] = [].
Proof. by destruct n, old. Qed.
Lemma equal_section o r : flatrange_equal o r = true -> section_of o = section_of r.
Proof.
  unfold flatrange_equal, addrrange_equal. rewrite !andb_true_iff, bool_decide_eq_true, !Z.eqb_eq, !Bool.eqb_true_iff.
  intros ((((Hm & Hs & Hz) & Ho) & _) & Hr). unfold section_of. congruence.
Qed.
Lemma follow_dels n : forall old new m rest, (length old + length new <= n)%nat -> m ≡ₚ (entry_of a <$> old) ++ rest ->
  has_all (follow (listener l) m (topology_pass n ls a old new false)) ((entry_of a <$> common n old new) ++ rest).
Proof.
  assert (forall (P : list call) m o old rest Q, m ≡ₚ (entry_of a <$> (o :: old)) ++ rest ->
    (forall m, m ≡ₚ (entry_of a <$> old) ++ rest -> has_all (follow (listener l) m P) Q) ->
    has_all (follow (listener l) m (update_region o a Reverse cb_region_del ls ++ P)) Q) as Hdrop.
  { intros P m o old rest Q Hm HP. rewrite follow_app, follow_update, Hdel, Hmatch. cbn [andb]. simpl tell. rewrite decide_True by done.
    destruct (remove_one_ok (a, section_of o) m ((entry_of a <$> old) ++ rest)) as (m' & -> & Hm'); [done|]. by apply HP. }
  induction n as [|n IH]; intros old new m rest Hn Hm; cbn [topology_pass common].
  { destruct old, new; simpl in Hn; try lia. by exists m. }
  destruct old as [|o old], new as [|r new]; simpl in Hn.
  - by exists m.
  - specialize (IH [] new m rest). rewrite common_nil_l in IH. apply IH; [simpl; lia|done].
  - eapply Hdrop; [done|]. intros m' Hm'. specialize (IH old [] m' rest). rewrite common_nil_r in IH. apply IH; [simpl; lia|done].
  - destruct (_ || _).
    + eapply Hdrop; [done|]. intros m' Hm'. apply IH; [simpl; lia|done].
    + destruct (flatrange_equal o r) eqn:E.
      * rewrite fmap_cons. cbn [app] in *. destruct (IH old new m (entry_of a r :: rest)) as (m' & Hm' & Hp); [lia| |].
        -- rewrite Hm, fmap_cons. unfold entry_of at 1. rewrite (equal_section o r) by done. cbn [app]. by rewrite Permutation_middle.
        -- exists m'. split; [done|]. rewrite Hp. by rewrite Permutation_middle.
      * apply IH; [simpl; lia|done].
Qed.

Definition starts_fit (v : list FlatRange) : Prop := Forall (fun fr => is_u 64 (start (addr fr))) v.
Lemma ordered_apart lo v r w : ordered lo (v ++ r :: w) -> starts_fit (v ++ r :: w) ->
  Forall (fun x => overlap (entry_of a r) (entry_of a x) = false) (v ++ w).
Proof.
  intros Ho Hu. destruct (ordered_app _ _ _ _ Ho) as (H1 & (_ & Hr & H2) & _). unfold starts_fit in Hu. rewrite Forall_app, Forall_cons in Hu.
  destruct Hu as (U1 & Ur & U2). apply Forall_app. split.
  - apply Forall_forall. intros x Hx. rewrite Forall_forall in H1, U1. destruct (H1 x Hx) as [Hs He]. unfold overlap, entry_of, section_of, addrrange_end in *. simpl.
    rewrite !u64_small by auto. lia.
  - pose proof (ordered_forall _ _ H2) as H3. apply Forall_forall. intros x Hx. rewrite Forall_forall in H3, U2. destruct (H3 x Hx) as [Hs He].
    unfold overlap, entry_of, section_of, addrrange_end in *. simpl. rewrite !u64_small by auto. lia.
Qed.
Lemma follow_new done C r new m rest lo P Q : ordered lo (done ++ r :: new) -> starts_fit (done ++ r :: new) -> Forall (fun x => x.1 <> a) rest ->
  C `sublist_of` new -> m ≡ₚ (entry_of a <$> done) ++ (entry_of a <$> C) ++ rest ->
  (forall m', m' ≡ₚ (entry_of a <$> (done ++ [r])) ++ (entry_of a <$> C) ++ rest -> has_all (follow (listener l) m' P) Q) ->
  has_all (follow (listener l) m (update_region r a Forward cb_region_add ls ++ P)) Q.
Proof.
  intros Ho Hu Hrest HC Hm HP. rewrite follow_app, follow_update, Hadd, Hmatch. cbn [andb].
  destruct (tell_add (listener l) m a (section_of r) _ Hm) as (m' & -> & Hm').
  - pose proof (ordered_apart _ _ _ _ Ho Hu) as Hap. rewrite !Forall_app, !Forall_fmap in *. destruct Hap as [H1 H2].
    split; [exact H1|]. split; [rewrite Forall_forall in *; intros x Hx; by apply H2, (sublist_subseteq _ _ HC)|]. apply (Forall_impl _ _ _ Hrest). intros x Hx. unfold overlap. by rewrite bool_decide_false by (simpl; congruence).
  - cbn [mbind option_bind]. apply HP. rewrite Hm', fmap_app. cbn [fmap list_fmap]. rewrite <- app_assoc. cbn [app]. by rewrite <- Permutation_middle.
Qed.
Lemma follow_stays r m m0 dir cb P Q : m ≡ₚ m0 -> entry_of a r ∈ m0 -> cb <> cb_region_add -> cb <> cb_region_del ->
  (forall m', m' ≡ₚ m0 -> has_all (follow (listener l) m' P) Q) -> has_all (follow (listener l) m (update_region r a dir cb ls ++ P)) Q.
Proof.
  intros Hm Hin H1 H2 HP. rewrite follow_app, follow_update. destruct (_ && _); [|by apply HP].
  destruct (tell_about (listener l) m a (section_of r) cb m0) as (m' & -> & Hm'); [done..|]. by apply HP.
Qed.
Lemma follow_adds lo n : forall old new done m rest, (length old + length new <= n)%nat -> ordered lo (done ++ new) -> starts_fit (done ++ new) ->
  Forall (fun x => x.1 <> a) rest -> m ≡ₚ (entry_of a <$> done) ++ (entry_of a <$> common n old new) ++ rest ->
  has_all (follow (listener l) m (topology_pass n ls a old new true)) ((entry_of a <$> (done ++ new)) ++ rest).
Proof.
  induction n as [|n IH]; intros old new done m rest Hn Ho Hu Hrest Hm; cbn [topology_pass common] in *.
  { destruct old, new; simpl in Hn; try lia. exists m. split; [done|]. by rewrite app_nil_r. }
  assert (forall r new' m', new = r :: new' -> (length old + length new' <= n)%nat -> 
    m' ≡ₚ (entry_of a <$> (done ++ [r])) ++ (entry_of a <$> common n old new') ++ rest ->
    has_all (follow (listener l) m' (topology_pass n ls a old new' true)) ((entry_of a <$> (done ++ new)) ++ rest)) as Hnext.
  { intros r new' m' -> Hn' Hm'. replace (done ++ r :: new') with ((done ++ [r]) ++ new') in * by by rewrite <- app_assoc. by apply IH. }
  destruct old as [|o old], new as [|r new]; simpl in Hn.
  - exists m. split; [done|]. by rewrite app_nil_r.
  - eapply (follow_new done []); [done|done|done|apply sublist_nil_l|done|]. intros m' Hm'. apply (Hnext r new); [done|simpl; lia|]. by rewrite common_nil_l.
  - apply IH; [simpl; lia|done|done|done|]. by rewrite common_nil_r.
  - destruct (_ || _); [apply IH; [simpl; lia|done..]|]. destruct (flatrange_equal o r) eqn:E.
    + assert (forall m', m' ≡ₚ (entry_of a <$> done) ++ (entry_of a <$> (r :: common n old new)) ++ rest ->
        has_all (follow (listener l) m' (topology_pass n ls a old new true)) ((entry_of a <$> (done ++ r :: new)) ++ rest)) as Hrest'.
      { intros m' Hm'. replace (done ++ r :: new) with ((done ++ [r]) ++ new) in * by by rewrite <- app_assoc.
        apply IH; [lia|done|done|done|]. rewrite Hm', fmap_app. cbn [fmap list_fmap]. rewrite <- app_assoc. done. }
      assert (entry_of a r ∈ (entry_of a <$> done) ++ (entry_of a <$> (r :: common n old new)) ++ rest) as Hin.
      { rewrite !elem_of_app, fmap_cons, elem_of_cons. tauto. }
      rewrite <- app_assoc. eapply follow_stays; [exact Hm|done|done|done|]. intros m1 Hm1.
      destruct (_ && _); [by eapply follow_stays|]. destruct (_ && _); [by eapply follow_stays|]. by apply Hrest'.
    + eapply (follow_new done (common n (o :: old) new)); [done|done|done|apply common_sublist|done|]. intros m' Hm'. apply (Hnext r new); [done|simpl; lia|done].
Qed.
(** Both passes. *)
Lemma follow_passes old new m rest lo : ordered lo new -> starts_fit new -> Forall (fun x => x.1 <> a) rest -> m ≡ₚ (entry_of a <$> old) ++ rest ->
  has_all (follow (listener l) m (address_space_update_topology_pass ls a old new false ++ address_space_update_topology_pass ls a old new true))
          ((entry_of a <$> new) ++ rest).
Proof.
  intros Ho Hu Hrest Hm. unfold address_space_update_topology_pass. rewrite follow_app.
  destruct (follow_dels (length old + length new) old new m rest) as (m1 & -> & Hm1); [lia|done|]. cbn [mbind option_bind].
  by apply (follow_adds lo _ old new []).
Qed.
End One.
End ListenersProps.
