(* ===== verification/MemoryChange.v ===== *)
(** * Changes of regions that do not show (memory.c)

    An operation on a region that is disabled, or on a subregion that is
    disabled, does not ask for an update of the flat views.  [unseen h h'] says
    what such a change from [h] to [h'] keeps; the views of [h] and [h'] are
    then the same. *)

From stdpp Require Import gmap sorting.
From S2P Require Import Prelude Memory MemoryProps.

Module MemoryChange.
Import Memory MemoryProps.
#[local] Open Scope Z_scope.
Implicit Types (h : heap) (p q : ptr).

Definition is_on h p : Prop := exists m, h !! p = Some m /\ enabled m = true.
#[export] Instance is_on_dec h p : Decision (is_on h p).
Proof.
  destruct (h !! p) as [m|] eqn:E; [|right; intros (m & Hm & _); congruence].
  destruct (enabled m) eqn:E'; [left; by exists m|right; intros (m' & Hm & He); congruence].
Defined.
(** What the view of an enabled region depends on. *)
Definition looks m m' : Prop :=
  mr_size m' = mr_size m /\ terminates m' = terminates m /\ romd_mode m' = romd_mode m /\ readonly m' = readonly m /\
  alias m' = alias m /\ alias_offset m' = alias_offset m /\ dirty_log_mask m' = dirty_log_mask m.
(** Only the regions of which [placed] holds are at their own address; the
    target of an alias is at an address that the alias gives. *)
Definition unseen h h' (placed : ptr -> Prop) : Prop := forall p m, h !! p = Some m ->
  exists m', h' !! p = Some m' /\ enabled m' = enabled m /\
    (enabled m = true -> looks m m' /\ filter (is_on h') (subregions m') = filter (is_on h) (subregions m)) /\
    (placed p -> mr_addr m' = mr_addr m).
Definition children h (placed : ptr -> Prop) : Prop := forall p m q, h !! p = Some m -> q ∈ subregions m -> placed q.

Lemma unseen_trans h h1 h2 placed : unseen h h1 placed -> unseen h1 h2 placed -> unseen h h2 placed.
Proof.
  intros U1 U2 p m Hp. destruct (U1 p m Hp) as (m1 & Hp1 & E1 & L1 & A1). destruct (U2 p m1 Hp1) as (m2 & Hp2 & E2 & L2 & A2).
  exists m2. split; [done|]. split; [congruence|]. split.
  - intros He. destruct (L1 He) as [K1 F1], L2 as [K2 F2]; [congruence|]. unfold looks in *. split; [intuition congruence|congruence].
  - intros Hpl. rewrite A2, A1 by done. done.
Qed.
Lemma unseen_refl h placed : unseen h h placed.
Proof. intros p m Hp. by exists m. Qed.
Lemma is_on_insert h p m m' q : h !! p = Some m -> enabled m' = enabled m -> is_on (<[p := m']> h) q <-> is_on h q.
Proof.
  intros Hp He. unfold is_on. destruct (decide (q = p)) as [->|].
  - split; intros (x & Hx & Hex); [exists m|exists m'].
    + rewrite lookup_insert_eq in Hx. injection Hx as <-. split; congruence.
    + rewrite lookup_insert_eq. split; congruence.
  - split; intros (x & Hx & Hex); exists x; by rewrite lookup_insert_ne in *.
Qed.
(** One region is changed. *)
Lemma unseen_insert h p m m' placed : h !! p = Some m -> enabled m' = enabled m ->
  (enabled m = true -> looks m m' /\ filter (is_on h) (subregions m') = filter (is_on h) (subregions m)) ->
  (placed p -> mr_addr m' = mr_addr m) -> unseen h (<[p := m']> h) placed.
Proof.
  intros Hp He Hl Ha q mq Hq. assert (forall l : list ptr, filter (is_on (<[p := m']> h)) l = filter (is_on h) l) as Hf.
  { intros l. apply list_filter_iff. intros x. by eapply is_on_insert. }
  destruct (decide (q = p)) as [->|].
  - rewrite Hp in Hq. injection Hq as <-. exists m'. rewrite lookup_insert_eq, Hf. done.
  - exists mq. rewrite lookup_insert_ne by done. rewrite Hf. done.
Qed.

Section Render.
Context (h h' : heap) (placed : ptr -> Prop) (rank rank' : ptr -> nat).
Hypothesis (U : unseen h h' placed) (C : children h placed) (R : ranked h rank) (R' : ranked h' rank').

(** A region that is off adds nothing. *)
Lemma render_off n g v q base clip ro m : g !! q = Some m -> enabled m = false -> render_memory_region (S n) g v q base clip ro = Some v.
Proof. intros Hq He. cbn [render_memory_region]. rewrite Hq. cbn [mbind option_bind]. by rewrite He. Qed.
Lemma fold_on n g rk base clip ro l : (forall q, q ∈ l -> is_Some (g !! q) /\ (rk q < n)%nat) -> forall v,
  foldl (fun v q => view ← v; render_memory_region n g view q base clip ro) v l =
  foldl (fun v q => view ← v; render_memory_region n g view q base clip ro) v (filter (is_on g) l).
Proof.
  induction l as [|q l IH]; intros Hl v; [done|]. rewrite filter_cons. destruct (Hl q) as [[m Hq] Hn]; [left|].
  case_decide as Hon; cbn [foldl].
  - apply IH. intros x Hx. apply Hl. by right.
  - rewrite IH by (intros x Hx; apply Hl; by right). f_equal. destruct v as [v|]; [|done]. cbn [mbind option_bind]. destruct n; [lia|].
    eapply render_off; [done|]. apply not_true_iff_false. intros He. apply Hon. by exists m.
Qed.
Lemma fold_same {A} (F G : option A -> ptr -> option A) l : (forall v q, q ∈ l -> F v q = G v q) -> forall v, foldl F v l = foldl G v l.
Proof. induction l as [|q l IH]; intros HF v; [done|]. cbn [foldl]. rewrite HF by left. apply IH. intros w x Hx. apply HF. by right. Qed.

Lemma render_unseen n : forall v p m m' base clip ro, h !! p = Some m -> h' !! p = Some m' -> (rank p < n)%nat -> (rank' p < n)%nat ->
  render_memory_region n h v p (base - mr_addr m) clip ro = render_memory_region n h' v p (base - mr_addr m') clip ro.
Proof.
  induction n as [|n IH]; intros v p m m' base clip ro Hp Hp' Hn Hn'; [lia|].
  destruct (U p m Hp) as (m0 & E & He & Hon & _). rewrite Hp' in E. injection E as <-.
  cbn [render_memory_region]. rewrite Hp, Hp'. cbn [mbind option_bind]. rewrite He. destruct (enabled m) eqn:Hen; cbn [negb]; [|done].
  destruct Hon as ((Hsz & Ht & Hro & Hrd & Hal & Hao & Hmask) & Hsub); [done|]. rewrite !Z.sub_add, Hsz, Hrd, Ht, Hro, Hal, Hao, Hmask.
  destruct (addrrange_intersects _ clip); cbn [negb]; [|done]. destruct (alias m) as [q|] eqn:Haq.
  - destruct (R _ _ Hp q (or_introl Haq)) as [[t Hq] Hlt]. destruct (R' _ _ Hp' q (or_introl Hal)) as [[t' Hq'] Hlt'].
    rewrite Hq, Hq'. cbn [mbind option_bind]. replace (base - mr_addr t - alias_offset m) with ((base - alias_offset m) - mr_addr t) by lia.
    replace (base - mr_addr t' - alias_offset m) with ((base - alias_offset m) - mr_addr t') by lia. apply IH; [done|done|lia|lia].
  - replace (foldl _ (Some v) (subregions m)) with (foldl (fun v q => view ← v; render_memory_region n h' view q base
      (addrrange_intersection (mkRange base (mr_size m)) clip) (ro || readonly m)) (Some v) (subregions m')); [done|].
    rewrite (fold_on n h rank), (fold_on n h' rank'), Hsub.
    + apply fold_same. intros w q [[mq [Hq Heq]] Hin]%list_elem_of_filter. destruct w as [w|]; [|done]. cbn [mbind option_bind].
      destruct (U q mq Hq) as (mq' & Hq' & _ & _ & Hpl). specialize (Hpl (C p m q Hp Hin)).
      destruct (R _ _ Hp q (or_intror Hin)) as [_ Hlt].
      assert (q ∈ subregions m') as Hin'.
      { assert (q ∈ filter (is_on h) (subregions m)) as Hf by (apply list_elem_of_filter; split; [by exists mq|done]).
        rewrite <- Hsub in Hf. by apply list_elem_of_filter in Hf as [_ ?]. }
      destruct (R' _ _ Hp' q (or_intror Hin')) as [_ Hlt']. symmetry. replace base with ((base + mr_addr mq) - mr_addr mq) at 1 by lia.
      replace (render_memory_region n h' w q base) with (render_memory_region n h' w q ((base + mr_addr mq) - mr_addr mq')) by (f_equal; lia).
      apply IH; [done|done|lia|lia].
    + intros q Hin. destruct (R' _ _ Hp' q (or_intror Hin)). split; [done|lia].
    + intros q Hin. destruct (R _ _ Hp q (or_intror Hin)). split; [done|lia].
Qed.
(** The view of a root that is placed is the same. *)
Lemma topology_unseen n r : is_Some (h !! r) -> placed r -> (rank r < n)%nat -> (rank' r < n)%nat ->
  generate_memory_topology n h' r = generate_memory_topology n h r.
Proof.
  intros [m Hr] Hpl Hn Hn'. destruct (U r m Hr) as (m' & Hr' & _ & _ & Ha). specialize (Ha Hpl). unfold generate_memory_topology.
  replace (render_memory_region n h' [] r 0) with (render_memory_region n h' [] r (mr_addr m - mr_addr m')) by (f_equal; lia).
  replace (render_memory_region n h [] r 0) with (render_memory_region n h [] r (mr_addr m - mr_addr m)) by (f_equal; lia).
  by rewrite (render_unseen n [] r m m').
Qed.
End Render.

(** ** Operations on regions *)

(** A subregion knows its parent. *)
Definition family h : Prop := forall p m q, h !! p = Some m -> q ∈ subregions m -> exists mq, h !! q = Some mq /\ parent mq = Some p.
Definition extent (m : MemoryRegion) : Z * bool := (mr_size m, terminates m).
Definition same_sizes h h' : Prop := forall p, extent <$> h' !! p = extent <$> h !! p.
(** A region at its own address: a subregion, or a root. *)
Definition placed h (roots : ptr -> Prop) q : Prop := (exists p m, h !! p = Some m /\ q ∈ subregions m) \/ roots q.
(** The change from [h] to [h'], after which an update is needed if [b]. *)
Definition edit h h' (b : bool) (roots : ptr -> Prop) : Prop :=
  family h' /\ same_sizes h h' /\ (b = false -> unseen h h' (placed h roots)).

Lemma placed_children h roots : children h (placed h roots).
Proof. intros p m q Hp Hq. left. eauto. Qed.
Lemma not_placed h roots q mq : family h -> h !! q = Some mq -> parent mq = None -> ~ roots q -> ~ placed h roots q.
Proof. intros F Hq Hpar Hr [(p & m & Hp & Hin)|?]; [|done]. destruct (F p m q Hp Hin) as (mq' & ? & ?). congruence. Qed.
Lemma same_sizes_trans h h1 h2 : same_sizes h h1 -> same_sizes h1 h2 -> same_sizes h h2.
Proof. intros S1 S2 p. by rewrite S2. Qed.
Lemma same_sizes_insert h p m m' : h !! p = Some m -> extent m' = extent m -> same_sizes h (<[p := m']> h).
Proof.
  intros Hp Hs q. destruct (decide (q = p)) as [->|]; [|by rewrite lookup_insert_ne]. rewrite lookup_insert_eq, Hp. simpl. by rewrite Hs.
Qed.
Lemma family_insert h p m m' : family h -> h !! p = Some m -> parent m' = parent m -> subregions m' = subregions m -> family (<[p := m']> h).
Proof.
  intros F Hp Hpar Hsub x mx q Hx Hq.
  assert (exists mx0, h !! x = Some mx0 /\ q ∈ subregions mx0) as (mx0 & Hx0 & Hq0).
  { destruct (decide (x = p)) as [->|]; [rewrite lookup_insert_eq in Hx; injection Hx as <-; exists m; by rewrite <- Hsub|rewrite lookup_insert_ne in Hx by done; eauto]. }
  destruct (F x mx0 q Hx0 Hq0) as (mq & Hmq & Hpq). destruct (decide (q = p)) as [->|]; [|exists mq; by rewrite lookup_insert_ne].
  exists m'. rewrite lookup_insert_eq. split; [done|]. congruence.
Qed.
(** A field of a region is set that only its own view shows. *)
Lemma edit_region h p m m' roots : family h -> h !! p = Some m -> extent m' = extent m -> enabled m' = enabled m -> parent m' = parent m ->
  subregions m' = subregions m -> mr_addr m' = mr_addr m -> edit h (<[p := m']> h) (enabled m') roots.
Proof.
  intros F Hp Hs He Hpar Hsub Ha. split; [by eapply family_insert|]. split; [by eapply same_sizes_insert|]. intros Hoff. rewrite He in Hoff.
  eapply unseen_insert; [done|done|congruence|done].
Qed.

Lemma insert_subregion_perm h prio p l : forall l', insert_subregion h prio p l = Some l' -> l' ≡ₚ p :: l.
Proof.
  induction l as [|x l IH]; intros l' H; cbn [insert_subregion] in H; [by injection H as <-|].
  apply bind_Some in H as (m & _ & H). destruct (_ <=? _); [by injection H as <-|]. apply bind_Some in H as (l1 & H1 & [= <-]).
  rewrite (IH _ H1). constructor.
Qed.
Lemma insert_subregion_off h prio p l (P : ptr -> Prop) `{!forall x, Decision (P x)} : ~ P p -> forall l',
  insert_subregion h prio p l = Some l' -> filter P l' = filter P l.
Proof.
  intros Hp. induction l as [|x l IH]; intros l' E; cbn [insert_subregion] in E.
  { injection E as <-. by rewrite filter_cons_False. }
  apply bind_Some in E as (m & _ & E). destruct (_ <=? _); [injection E as <-; by rewrite filter_cons_False|].
  apply bind_Some in E as (l1 & H1 & [= <-]). by rewrite !filter_cons, (IH _ H1).
Qed.

(** The parent of [q] and the subregions of [p] are set. *)
Lemma family_link h p q mp mq mp' mq' : family h -> h !! q = Some mq -> <[q := mq']> h !! p = Some mp -> subregions mq' = subregions mq ->
  parent mp' = parent mp -> (forall x, x ∈ subregions mp' -> x = q /\ parent mq' = Some p \/ x <> q /\ x ∈ subregions mp) ->
  (forall x mx, h !! x = Some mx -> q ∈ subregions mx -> x = p) -> family (<[p := mp']> (<[q := mq']> h)).
Proof.
  intros F Hq Hp Hsub Hpar Hl Hone x mx y Hx Hy.
  assert (forall z mz, h !! z = Some mz -> z <> q -> exists mz', <[p := mp']> (<[q := mq']> h) !! z = Some mz' /\ parent mz' = parent mz) as Hkeep.
  { intros z mz Hz Hne. destruct (decide (z = p)) as [->|].
    - exists mp'. rewrite lookup_insert_eq. split; [done|]. rewrite lookup_insert_ne in Hp by done. congruence.
    - exists mz. by rewrite !lookup_insert_ne. }
  assert (exists mq2, <[p := mp']> (<[q := mq']> h) !! q = Some mq2 /\ parent mq2 = parent mq') as (mq2 & Hq2 & Hpq2).
  { destruct (decide (q = p)) as [->|].
    - exists mp'. rewrite lookup_insert_eq in *. split; [done|]. congruence.
    - exists mq'. by rewrite lookup_insert_ne, lookup_insert_eq. }
  assert (forall z mz, h !! z = Some mz -> y ∈ subregions mz -> y <> q -> exists my, <[p := mp']> (<[q := mq']> h) !! y = Some my /\ parent my = Some z) as Hold.
  { intros z mz Hz Hin Hne. destruct (F z mz y Hz Hin) as (my & Hmy & Hpy). destruct (Hkeep y my Hmy Hne) as (my' & ? & E). exists my'. by rewrite E. }
  destruct (decide (x = p)) as [->|Hxp].
  - rewrite lookup_insert_eq in Hx. injection Hx as <-. destruct (Hl y Hy) as [[-> Hq']|[Hne Hin]]; [exists mq2; by rewrite Hpq2|].
    destruct (decide (p = q)) as [->|]; [rewrite lookup_insert_eq in Hp; injection Hp as <-; rewrite Hsub in Hin; by eapply Hold|].
    rewrite lookup_insert_ne in Hp by done. by eapply Hold.
  - rewrite lookup_insert_ne in Hx by done. 
    assert (exists mx0, h !! x = Some mx0 /\ subregions mx0 = subregions mx) as (mx0 & Hx0 & Es).
    { destruct (decide (x = q)) as [->|]; [rewrite lookup_insert_eq in Hx; injection Hx as <-; by exists mq|rewrite lookup_insert_ne in Hx by done; by exists mx]. }
    rewrite <- Es in Hy. eapply Hold; [done|done|]. intros ->. by apply Hxp, (Hone x mx0).
Qed.
Lemma same_sizes_link h p q mp mq mp' mq' : h !! q = Some mq -> <[q := mq']> h !! p = Some mp -> extent mq' = extent mq -> extent mp' = extent mp ->
  same_sizes h (<[p := mp']> (<[q := mq']> h)).
Proof. intros Hq Hp E1 E2. eapply same_sizes_trans; by eapply same_sizes_insert. Qed.

Lemma edit_add h mr off sub h' roots : family h -> ~ roots sub -> memory_region_add_subregion_common h mr off sub = Some h' ->
  edit h h' (bool_decide (is_on h' mr) && bool_decide (is_on h' sub)) roots.
Proof.
  intros F Hr H. unfold memory_region_add_subregion_common in H. apply bind_Some in H as (ms & Hs & H). destruct (parent ms) eqn:Hpar; [done|].
  set (ms' := ms.[parent := Some mr].[mr_addr := off]) in *. apply bind_Some in H as (m & Hm & H). apply bind_Some in H as (l & Hl & [= <-]).
  pose proof (insert_subregion_perm _ _ _ _ _ Hl) as Hperm. split; [|split].
  - eapply family_link; [done|done|done|done|done| |].
    + intros x Hx. simpl in Hx. rewrite Hperm in Hx. destruct (decide (x = sub)); [by left|]. right. split; [done|]. by apply elem_of_cons in Hx as [?|?].
    + intros x mx Hx Hin. destruct (F x mx sub Hx Hin) as (? & ? & ?). congruence.
  - by eapply same_sizes_link.
  - intros Hb. apply (unseen_trans _ (<[sub := ms']> h)).
    + eapply unseen_insert; [done|done|done|]. intros Hpl. by destruct (not_placed h roots sub ms).
    + eapply unseen_insert; [done|done| |done]. intros He. split; [done|]. eapply insert_subregion_off; [|exact Hl]. intros Hon.
      apply andb_false_iff in Hb as [Hb|Hb]; apply bool_decide_eq_false in Hb; apply Hb.
      * eexists. rewrite lookup_insert_eq. split; [done|]. exact He.
      * by eapply is_on_insert.
Qed.
Lemma edit_del h mr sub h' roots : family h -> memory_region_del_subregion h mr sub = Some h' ->
  edit h h' (bool_decide (is_on h' mr) && bool_decide (is_on h' sub)) roots.
Proof.
  intros F H. unfold memory_region_del_subregion in H. apply bind_Some in H as (ms & Hs & H). case_decide as Hpar; [|done].
  set (ms' := ms.[parent := None]) in *. apply bind_Some in H as (m & Hm & [= <-]). split; [|split].
  - eapply family_link; [done|done|done|done|done| |].
    + intros x Hx. simpl in Hx. apply list_elem_of_filter in Hx. by right.
    + intros x mx Hx Hin. destruct (F x mx sub Hx Hin) as (? & ? & ?). congruence.
  - by eapply same_sizes_link.
  - intros Hb. apply (unseen_trans _ (<[sub := ms']> h)); [by eapply unseen_insert|].
    eapply unseen_insert; [done|done| |done]. intros He. split; [done|]. simpl. rewrite list_filter_filter. apply list_filter_iff. intros x.
    split; [by intros [? ?]|]. intros Hon. split; [done|]. intros ->. 
    apply andb_false_iff in Hb as [Hb|Hb]; apply bool_decide_eq_false in Hb; apply Hb.
    * eexists. rewrite lookup_insert_eq. split; [done|]. exact He.
    * by eapply is_on_insert.
Qed.
End MemoryChange.
