(* ===== verification/ListenersRun.v ===== *)
(** * Sequences of operations on the memory map (memory.c)

    The invariant of all operations: the flat views are those of the current
    regions unless an update is pending, an update is pending only in a
    transaction, and each listener has been told the flat views. *)

From stdpp Require Import gmap sorting.
From S2P Require Import Prelude Memory MemoryProps MemoryChange Listeners ListenersProps.

Module ListenersRun.
Import Memory MemoryProps MemoryChange Listeners ListenersProps.
#[local] Open Scope Z_scope.
Implicit Types (s : memory) (l : MemoryListener) (sp : AddressSpace) (h : heap).

(** A listener that follows the ranges. *)
Definition hears l : Prop := has l cb_region_add = true /\ has l cb_region_del = true.
(** The ranges of the address spaces that it listens to. *)
Definition contents l (spaces : list AddressSpace) : list entry :=
  spaces ≫= fun sp => if memory_listener_match l (space sp) then entry_of (space sp) <$> current_map sp else [].
Definition acyclic (n : nat) h : Prop := exists rank, ranked h rank /\ forall p, (rank p < n)%nat.
Definition is_root s (p : ptr) : Prop := exists sp, sp ∈ address_spaces s /\ root sp = Some p.

Record inv (n : nat) s : Prop := {
  i_spaces : NoDup (space <$> address_spaces s);
  i_names : NoDup (listener <$> memory_listeners s);
  i_family : family (regions s);
  i_sized : sized (regions s);
  i_bounded : bounded (regions s);
  i_acyclic : acyclic n (regions s);
  i_roots p : is_root s p -> is_Some (regions s !! p);
  i_views sp : sp ∈ address_spaces s -> ordered 0 (current_map sp) /\ starts_fit (current_map sp);
  i_current : memory_region_update_pending s = false -> forall sp, sp ∈ address_spaces s -> space_topology n (regions s) sp = Some (current_map sp);
  i_depth : memory_region_transaction_depth s = 0%nat -> memory_region_update_pending s = false;
  i_told l : l ∈ memory_listeners s -> hears l -> has_all (follow (listener l) [] (calls s)) (contents l (address_spaces s))
}.

(** ** Changes of the regions *)

Lemma sized_same h h' : same_sizes h h' -> sized h -> sized h'.
Proof.
  intros S Hs p m' Hp. specialize (S p). rewrite Hp in S. destruct (h !! p) as [m|] eqn:E; [|done]. simpl in S. injection S as -> _. by eapply Hs.
Qed.
Lemma bounded_same h h' : same_sizes h h' -> bounded h -> bounded h'.
Proof.
  intros S Hs p m' Hp. specialize (S p). rewrite Hp in S. destruct (h !! p) as [m|] eqn:E; [|done]. simpl in S. injection S as -> ->. by eapply Hs.
Qed.
Lemma same_some h h' p : same_sizes h h' -> is_Some (h !! p) -> is_Some (h' !! p).
Proof. intros S [m Hp]. specialize (S p). rewrite Hp in S. by destruct (h' !! p). Qed.
Lemma space_unseen n s h sp : inv n s -> unseen (regions s) h (placed (regions s) (is_root s)) -> acyclic n h -> sp ∈ address_spaces s ->
  space_topology n h sp = space_topology n (regions s) sp.
Proof.
  intros I U (rank' & R' & N') Hsp. destruct (i_acyclic _ _ I) as (rank & R & N). unfold space_topology. destruct (root sp) as [r|] eqn:Er; [|done].
  assert (is_root s r) as Hr by by exists sp. eapply topology_unseen; [exact U|apply placed_children|exact R|exact R'|by apply (i_roots _ _ I)|by right|done|done].
Qed.
Lemma inv_change n s h b : inv n s -> edit (regions s) h b (is_root s) -> acyclic n h -> (memory_region_transaction_depth s = 0%nat -> b = false) ->
  inv n (change s h b).
Proof.
  intros I (F & Sz & U) A Hb. split; simpl.
  - apply I.
  - apply I.
  - done.
  - eapply sized_same; [exact Sz|apply I].
  - eapply bounded_same; [exact Sz|apply I].
  - done.
  - intros p Hp. eapply same_some; [exact Sz|]. by apply (i_roots _ _ I).
  - apply I.
  - intros [Hp ->]%orb_false_iff sp Hsp. rewrite (space_unseen n s h sp I) by (done || by apply U). by apply (i_current _ _ I).
  - intros Hd. rewrite (i_depth _ _ I Hd), Hb by done. done.
  - apply I.
Qed.

(** ** Transactions *)

Lemma inv_begin n s : inv n s -> inv n (memory_region_transaction_begin s).
Proof. intros I. by split; simpl; try apply I. Qed.

Lemma follow_unmatched ls l a : NoDup (listener <$> ls) -> l ∈ ls -> memory_listener_match l a = false -> forall n old new b m,
  follow (listener l) m (topology_pass n ls a old new b) = Some m.
Proof.
  intros Hnd Hl Hm. assert (forall m fr dir cb, follow (listener l) m (update_region fr a dir cb ls) = Some m) as Hu.
  { intros m fr dir cb. rewrite (follow_update ls l a Hnd Hl), Hm, andb_false_r. done. }
  induction n as [|n IH]; intros old new b m; cbn [topology_pass]; [done|].
  destruct old, new; try done; repeat case_match; rewrite ?follow_app, ?Hu; cbn [mbind option_bind]; rewrite ?follow_app, ?Hu; apply IH.
Qed.
Lemma follow_fds ls l a n : forall new old m, follow (listener l) m (add_del n ls a new old) = Some m.
Proof.
  assert (forall m fd dir cb, follow (listener l) m (call_eventfd fd a dir cb ls) = Some m) as Hu.
  { intros m fd dir cb. apply follow_idle, Forall_fmap, Forall_true. done. }
  induction n as [|n IH]; intros new old m; cbn [add_del]; [done|].
  destruct old, new; try done; repeat case_match; rewrite ?follow_app, ?Hu; apply IH.
Qed.
(** The calls of an update bring a listener from the old view to the new. *)
Lemma follow_space n s sp sp' cs l rest m : NoDup (listener <$> memory_listeners s) -> l ∈ memory_listeners s -> hears l ->
  address_space_update_topology n s sp = Some (sp', cs) -> ordered 0 (current_map sp') -> starts_fit (current_map sp') ->
  Forall (fun x => x.1 <> space sp) rest -> m ≡ₚ contents l [sp] ++ rest -> has_all (follow (listener l) m cs) (contents l [sp'] ++ rest).
Proof.
  intros Hnd Hl [Ha Hd] Hup Ho Hu Hrest Hm. unfold address_space_update_topology in Hup. apply bind_Some in Hup as (v & Hv & Hup).
  unfold address_space_update_ioeventfds in Hup. injection Hup as <- <-. unfold contents in *. cbn [mbind list_bind] in *. rewrite !app_nil_r in *. simpl space in *. simpl current_map in *.
  rewrite app_assoc, follow_app. destruct (memory_listener_match l (space sp)) eqn:Hmatch.
  - destruct (follow_passes (memory_listeners s) l (space sp) Hnd Hl Hmatch Ha Hd (current_map sp) v m rest 0) as (m' & -> & Hm'); [done..|].
    cbn [mbind option_bind]. exists m'. split; [|done]. apply follow_fds.
  - unfold address_space_update_topology_pass. rewrite follow_app, follow_unmatched by done. cbn [mbind option_bind]. rewrite follow_unmatched by done.
    exists m. split; [|done]. apply follow_fds.
Qed.
(** A new version of an address space. *)
Definition renewed n s sp sp' : Prop :=
  space sp' = space sp /\ root sp' = root sp /\ space_topology n (regions s) sp = Some (current_map sp') /\
  ordered 0 (current_map sp') /\ starts_fit (current_map sp').
Lemma update_returns n s L : sized (regions s) -> bounded (regions s) -> acyclic n (regions s) -> (forall sp r, sp ∈ L -> root sp = Some r -> is_Some (regions s !! r)) ->
  exists L' cs, update_spaces n s L = Some (L', cs) /\ Forall2 (renewed n s) L L'.
Proof.
  intros Hs Hbd (rank & R & N). induction L as [|sp L IH]; intros HL; [by exists [], []|].
  destruct IH as (L' & cs & HL' & HF). { intros sp' r Hin. apply HL. by right. }
  assert (exists v, space_topology n (regions s) sp = Some v /\ ordered 0 v /\ starts_fit v) as (v & Hv & Ho & Hu).
  { unfold space_topology. destruct (root sp) as [r|] eqn:Er; [|exists []; by repeat split; try constructor].
    destruct (topology_ok (regions s) rank r n) as (v & Hv & Ho & _); [done|done|by apply (HL sp); [left|]|done|by apply bounded_spare|].
    exists v. split; [done|]. split; [done|]. by eapply topology_starts. }
  cbn [update_spaces]. unfold address_space_update_topology. rewrite Hv. cbn [mbind option_bind]. unfold address_space_update_ioeventfds.
  rewrite HL'. cbn [mbind option_bind]. do 2 eexists. split; [done|]. constructor; [|done]. done.
Qed.
Lemma contents_cons l sp L : contents l (sp :: L) = contents l [sp] ++ contents l L.
Proof. unfold contents. cbn [mbind list_bind]. by rewrite app_nil_r. Qed.
Lemma contents_spaces l L : Forall (fun x => x.1 ∈ space <$> L) (contents l L).
Proof.
  induction L as [|sp L IH]; [constructor|]. rewrite contents_cons, Forall_app. split.
  - unfold contents. cbn [mbind list_bind]. rewrite app_nil_r. destruct (memory_listener_match _ _); [|constructor]. apply Forall_fmap, Forall_true. intros fr. left.
  - apply (Forall_impl _ _ _ IH). intros x Hx. by right.
Qed.
Lemma follow_spaces n s l : NoDup (listener <$> memory_listeners s) -> l ∈ memory_listeners s -> hears l -> forall L L' cs m rest,
  update_spaces n s L = Some (L', cs) -> Forall2 (renewed n s) L L' -> NoDup (space <$> L) -> Forall (fun x => x.1 ∉ space <$> L) rest ->
  m ≡ₚ contents l L ++ rest -> has_all (follow (listener l) m cs) (contents l L' ++ rest).
Proof.
  intros Hnd Hl Hh. induction L as [|sp L IH]; intros L' cs m rest Hup HF Hsp Hrest Hm.
  { injection Hup as <- <-. by exists m. }
  cbn [update_spaces] in Hup. apply bind_Some in Hup as ([sp1 c1] & H1 & Hup). apply bind_Some in Hup as ([L1 c2] & H2 & [= <- <-]).
  apply Forall2_cons in HF as [(Es & Er & Hv & Ho & Hu) HF]. rewrite fmap_cons in Hsp. apply NoDup_cons in Hsp as [Hnew Hsp]. rewrite follow_app.
  assert (Forall (fun x => x.1 <> space sp) (contents l L ++ rest)) as Hr1.
  { apply Forall_app. split.
    - apply (Forall_impl _ _ _ (contents_spaces l L)). intros x Hx E. apply Hnew. by rewrite <- E.
    - apply (Forall_impl _ _ _ Hrest). intros x Hx E. apply Hx. rewrite E. left. }
  destruct (follow_space n s sp sp1 c1 l (contents l L ++ rest) m) as (m1 & -> & Hm1); [done..|by rewrite app_assoc, <- contents_cons|].
  cbn [mbind option_bind]. destruct (IH L1 c2 m1 (contents l [sp1] ++ rest)) as (m2 & Hm2 & Hp2); [done|done|done| | |].
  - apply Forall_app. split.
    + apply (Forall_impl _ _ _ (contents_spaces l [sp1])). intros x Hx. cbn [fmap list_fmap] in Hx. apply list_elem_of_singleton in Hx. by rewrite Hx, Es.
    + apply (Forall_impl _ _ _ Hrest). intros x Hx Hin. apply Hx. by right.
  - rewrite Hm1, !app_assoc. by rewrite (Permutation_app_comm (contents l [sp1])).
  - exists m2. split; [done|]. rewrite Hp2, (contents_cons l sp1 L1), !app_assoc. by rewrite (Permutation_app_comm (contents l L1)).
Qed.
Lemma follow_global who m cb dir ls : follow who m (call_global cb dir ls) = Some m.
Proof. apply follow_idle, Forall_fmap, Forall_true. done. Qed.

Lemma inv_commit n s : inv n s -> memory_region_transaction_depth s <> 0%nat ->
  exists s', memory_region_transaction_commit n s = Some s' /\ inv n s' /\ regions s' = regions s /\
    memory_region_transaction_depth s' = pred (memory_region_transaction_depth s) /\ (forall p, is_root s' p <-> is_root s p).
Proof.
  intros I Hd. unfold memory_region_transaction_commit. destruct (memory_region_transaction_depth s) as [|d] eqn:Ed; [done|].
  destruct ((d =? 0)%nat && _) eqn:Hup.
  2:{ eexists. split; [done|]. split; [|done]. split; simpl; try apply I. intros ->. exact Hup. }
  apply andb_true_iff in Hup as [->%Nat.eqb_eq _]. set (s1 := emit _ _).
  destruct (update_returns n s1 (address_spaces s)) as (L' & cs & HL & HF); [apply I|apply I|apply I|intros sp r Hsp Hr; apply (i_roots _ _ I); by exists sp|].
  change (address_spaces s1) with (address_spaces s). rewrite HL. cbn [mbind option_bind]. eexists. split; [done|].
  assert (forall p, (exists sp, sp ∈ L' /\ root sp = Some p) <-> is_root s p) as Hroots.
  { intros p. unfold is_root. split; intros (sp & Hsp & Hr).
    - apply list_elem_of_lookup in Hsp as [i Hi]. destruct (Forall2_lookup_r _ _ _ _ _ HF Hi) as (sp0 & Hi0 & _ & Er & _).
      exists sp0. split; [by eapply list_elem_of_lookup_2|congruence].
    - apply list_elem_of_lookup in Hsp as [i Hi]. destruct (Forall2_lookup_l _ _ _ _ _ HF Hi) as (sp1 & Hi1 & _ & Er & _).
      exists sp1. split; [by eapply list_elem_of_lookup_2|congruence]. }
  assert (space <$> L' = space <$> address_spaces s) as Esp.
  { clear -HF. induction HF as [|sp sp' L L' (E & _) _ IH]; [done|]. cbn [fmap list_fmap]. by rewrite E, IH. }
  assert (forall sp', sp' ∈ L' -> exists sp, sp ∈ address_spaces s /\ renewed n s1 sp sp') as Hold.
  { intros sp' Hsp. apply list_elem_of_lookup in Hsp as [i Hi]. destruct (Forall2_lookup_r _ _ _ _ _ HF Hi) as (sp & Hi0 & Hr).
    exists sp. split; [by eapply list_elem_of_lookup_2|done]. }
  split; [|split; [done|split; [done|exact Hroots]]].
  split; simpl; try apply I.
  - rewrite Esp. apply I.
  - intros p Hp. apply (i_roots _ _ I). by apply Hroots.
  - intros sp' Hsp. destruct (Hold sp' Hsp) as (sp & _ & _ & _ & _ & ?). done.
  - intros _ sp' Hsp. destruct (Hold sp' Hsp) as (sp & _ & _ & Er & Hv & _). unfold space_topology in *. by rewrite Er.
  - done.
  - intros l Hl Hh. destruct (i_told _ _ I l Hl Hh) as (m & Hm & Hp). rewrite !follow_app, Hm. cbn [mbind option_bind].
    rewrite follow_global. cbn [mbind option_bind]. destruct (follow_spaces n s1 l) with (L := address_spaces s) (L' := L') (cs := cs) (m := m) (rest := @nil entry)
      as (m' & Hm' & Hp'); [apply I|done|done|done|done|apply I|done|by rewrite app_nil_r|].
    rewrite Hm'. cbn [mbind option_bind]. rewrite follow_global. exists m'. split; [done|]. by rewrite app_nil_r in Hp'.
Qed.

(** ** Operations on regions *)

Lemma commit_regions n s s' : memory_region_transaction_commit n s = Some s' -> regions s' = regions s.
Proof.
  unfold memory_region_transaction_commit. destruct (memory_region_transaction_depth s); [done|]. destruct (_ && _); [|by intros [= <-]].
  intros H. apply bind_Some in H as ([L c] & _ & [= <-]). done.
Qed.
Lemma enabled_on h p : is_enabled h p = bool_decide (is_on h p).
Proof.
  unfold is_enabled. destruct (h !! p) as [m|] eqn:E.
  - destruct (enabled m) eqn:Em; symmetry; [apply bool_decide_eq_true; by exists m|apply bool_decide_eq_false; intros (m' & ? & ?); congruence].
  - symmetry. apply bool_decide_eq_false. intros (m & ? & _). congruence.
Qed.
Lemma inv_update n s s' h b : inv n s -> edit (regions s) h b (is_root s) -> acyclic n h ->
  memory_region_transaction_commit n (change (memory_region_transaction_begin s) h b) = Some s' -> inv n s'.
Proof.
  intros I E A H. assert (inv n (change (memory_region_transaction_begin s) h b)) as I1 by (apply inv_change; [by apply inv_begin|done|done|done]).
  destruct (inv_commit n _ I1) as (s2 & H2 & I2 & _); [done|]. rewrite H in H2. by injection H2 as <-.
Qed.
Lemma updated_regions n s h b s' : memory_region_transaction_commit n (change (memory_region_transaction_begin s) h b) = Some s' -> regions s' = h.
Proof. intros H. apply commit_regions in H. done. Qed.
(** A field of a region is set. *)
Lemma inv_set n s p f s' : inv n s -> acyclic n (regions s') ->
  (forall m, extent (f m) = extent m /\ enabled (f m) = enabled m /\ parent (f m) = parent m /\ subregions (f m) = subregions m /\ mr_addr (f m) = mr_addr m) ->
  (h ← set_region (regions s) p f; memory_region_transaction_commit n (change (memory_region_transaction_begin s) h (is_enabled h p))) = Some s' -> inv n s'.
Proof.
  intros I A Hf H. unfold set_region in H. apply bind_Some in H as (h & Hh & H). apply bind_Some in Hh as (m & Hm & [= <-]).
  rewrite (updated_regions _ _ _ _ _ H) in A. eapply inv_update; [exact I| |exact A|exact H]. destruct (Hf m) as (? & ? & ? & ? & ?).
  unfold is_enabled. rewrite lookup_insert_eq. apply (edit_region _ _ m); try done. apply I.
Qed.
Lemma edit_link n s (f : MemoryRegion -> MemoryRegion) mr off sub h b : inv n s -> ~ is_root s sub ->
  (forall m, extent (f m) = extent m /\ enabled (f m) = enabled m /\ parent (f m) = parent m /\ subregions (f m) = subregions m /\ mr_addr (f m) = mr_addr m /\ looks m (f m)) ->
  (h ← set_region (regions s) sub f; memory_region_add_subregion_common h mr off sub) = Some h -> b = is_enabled h mr && is_enabled h sub ->
  edit (regions s) h b (is_root s).
Proof.
  intros I Hr Hf H ->. unfold set_region in H. apply bind_Some in H as (h1 & Hh & H). apply bind_Some in Hh as (m & Hm & [= <-]).
  destruct (Hf m) as (E1 & E2 & E3 & E4 & E5 & E6).
  assert (family (<[sub := f m]> (regions s))) as F1 by (eapply family_insert; [apply I|done..]).
  rewrite !enabled_on. destruct (edit_add _ _ _ _ _ (is_root s) F1 Hr H) as (F & S & U). split; [done|]. split.
  - eapply same_sizes_trans; [|exact S]. by eapply same_sizes_insert.
  - intros Hb. eapply (unseen_trans _ (<[sub := f m]> (regions s))); [eapply unseen_insert; [done|done|by rewrite E4|done]|].
    specialize (U Hb). intros p mp Hp. destruct (U p mp Hp) as (mp' & ? & ? & ? & Hpl). exists mp'. repeat (split; [done|]).
    intros Hplaced. apply Hpl. destruct Hplaced as [(x & mx & Hx & Hin)|?]; [|by right]. left. destruct (decide (x = sub)) as [->|].
    + exists sub, (f m). rewrite lookup_insert_eq, E4. split; [done|]. congruence.
    + exists x, mx. by rewrite lookup_insert_ne.
Qed.
Lemma inv_add n s mr off sub s' : inv n s -> acyclic n (regions s') -> ~ is_root s sub -> Listeners.memory_region_add_subregion n s mr off sub = Some s' -> inv n s'.
Proof.
  intros I A Hr H. unfold Listeners.memory_region_add_subregion in H. apply bind_Some in H as (h & Hh & H). rewrite (updated_regions _ _ _ _ _ H) in A.
  eapply inv_update; [exact I| |exact A|exact H].
  by apply (edit_link n s (fun x => x.[may_overlap := false].[priority := 0]) mr off sub).
Qed.
Lemma inv_add_overlap n s mr off sub prio s' : inv n s -> acyclic n (regions s') -> ~ is_root s sub ->
  Listeners.memory_region_add_subregion_overlap n s mr off sub prio = Some s' -> inv n s'.
Proof.
  intros I A Hr H. unfold Listeners.memory_region_add_subregion_overlap in H. apply bind_Some in H as (h & Hh & H). rewrite (updated_regions _ _ _ _ _ H) in A.
  eapply inv_update; [exact I| |exact A|exact H].
  by apply (edit_link n s (fun x => x.[may_overlap := true].[priority := prio]) mr off sub).
Qed.
Lemma acyclic_del n h mr sub h' : acyclic n h -> Memory.memory_region_del_subregion h mr sub = Some h' -> acyclic n h'.
Proof.
  intros (rank & R & N) H. exists rank. split; [|done]. unfold Memory.memory_region_del_subregion in H. apply bind_Some in H as (ms & Hs & H).
  case_decide; [|done]. apply bind_Some in H as (m & Hm & [= <-]). intros x mx Hx q Hq.
  assert (exists mx0, h !! x = Some mx0 /\ (alias mx0 = Some q \/ q ∈ subregions mx0)) as (mx0 & Hx0 & Hq0).
  { assert (forall y my, <[sub := ms.[parent := None]]> h !! y = Some my -> exists my0, h !! y = Some my0 /\ alias my0 = alias my /\ subregions my0 = subregions my) as Hold.
    { intros y my Hy. destruct (decide (y = sub)) as [->|]; [rewrite lookup_insert_eq in Hy; injection Hy as <-; by exists ms|].
      rewrite lookup_insert_ne in Hy by done. by exists my. }
    destruct (decide (x = mr)) as [->|].
    - rewrite lookup_insert_eq in Hx. injection Hx as <-. destruct (Hold mr m Hm) as (m0 & ? & Ea & Es). exists m0. split; [done|]. rewrite Ea, Es.
      destruct Hq as [?|[_ ?]%list_elem_of_filter]; [by left|by right].
    - rewrite lookup_insert_ne in Hx by done. destruct (Hold x mx Hx) as (m0 & ? & Ea & Es). exists m0. by rewrite Ea, Es. }
  destruct (R x mx0 Hx0 q Hq0) as [[mq Hmq] ?]. split; [|done].
  destruct (decide (q = mr)) as [->|]; [by rewrite lookup_insert_eq|]. rewrite lookup_insert_ne by done.
  destruct (decide (q = sub)) as [->|]; [by rewrite lookup_insert_eq|]. by rewrite lookup_insert_ne, Hmq by done.
Qed.
Lemma inv_del n s mr sub s' : inv n s -> Listeners.memory_region_del_subregion n s mr sub = Some s' -> inv n s'.
Proof.
  intros I H. unfold Listeners.memory_region_del_subregion in H. apply bind_Some in H as (h & Hh & H).
  eapply inv_update; [exact I| |eapply acyclic_del; [apply I|exact Hh]|exact H]. rewrite !enabled_on. eapply edit_del; [apply I|exact Hh].
Qed.
Lemma inv_enabled n s p b s' : inv n s -> acyclic n (regions s') -> Listeners.memory_region_set_enabled n s p b = Some s' -> inv n s'.
Proof.
  intros I A H. unfold Listeners.memory_region_set_enabled in H. apply bind_Some in H as (m & Hm & H). destruct (Bool.eqb b _); [by injection H as <-|].
  unfold Memory.memory_region_set_enabled, set_region in H. apply bind_Some in H as (h & Hh & H). apply bind_Some in Hh as (m' & Hm' & [= <-]).
  rewrite (updated_regions _ _ _ _ _ H) in A. eapply inv_update; [exact I| |exact A|exact H].
  split; [eapply family_insert; [apply I|done..]|]. split; [by eapply same_sizes_insert|done].
Qed.
Lemma change_same s h : change s h false = s.[regions := h].
Proof. destruct s. unfold change, set_field. simpl. by rewrite orb_false_r. Qed.
(** In a transaction, the end of another one updates nothing. *)
Lemma nested_commit n s h b s' : memory_region_transaction_commit n (change (memory_region_transaction_begin s) h b) = Some s' ->
  memory_region_transaction_depth s <> 0%nat ->
  memory_region_transaction_depth s' = memory_region_transaction_depth s /\ (forall p, is_root s' p <-> is_root s p).
Proof.
  unfold memory_region_transaction_commit. simpl. destruct (memory_region_transaction_depth s) as [|d] eqn:E; [done|].
  cbn [Nat.eqb andb]. intros [= <-] _. simpl. by rewrite <- E.
Qed.
Lemma inv_address n s p off s' : inv n s -> acyclic n (regions s') -> ~ is_root s p -> Listeners.memory_region_set_address n s p off = Some s' -> inv n s'.
Proof.
  intros I A Hr H. unfold Listeners.memory_region_set_address in H. apply bind_Some in H as (m & Hm & H). destruct (parent m) as [mr|] eqn:Hpar.
  - destruct (off =? mr_addr m); [by injection H as <-|]. apply bind_Some in H as (s1 & H1 & H). apply bind_Some in H as (s2 & H2 & H).
    pose proof (inv_begin n s I) as I0. pose proof (inv_del n _ _ _ _ I0 H1) as I1.
    assert (memory_region_transaction_depth s1 = S (memory_region_transaction_depth s) /\ forall q, is_root s1 q <-> is_root s q) as [D1 R1].
    { unfold Listeners.memory_region_del_subregion in H1. apply bind_Some in H1 as (h & _ & H1). by apply nested_commit in H1. }
    assert (~ is_root s1 p) as Hr1 by by rewrite R1.
    rewrite (commit_regions _ _ _ H) in A.
    assert (inv n s2) as I2 by (destruct (may_overlap m); [by eapply inv_add_overlap|by eapply inv_add]).
    assert (memory_region_transaction_depth s2 = memory_region_transaction_depth s1) as D2.
    { destruct (may_overlap m); apply bind_Some in H2 as (h & _ & H2); apply nested_commit in H2; (apply H2 || by rewrite D1). }
    destruct (inv_commit n s2 I2) as (s3 & H3 & I3 & _); [by rewrite D2, D1|]. rewrite H in H3. by injection H3 as <-.
  - unfold set_region in H. apply bind_Some in H as (h & Hh & [= <-]). apply bind_Some in Hh as (m' & Hm' & [= <-]). rewrite <- change_same.
    simpl in A. rewrite Hm in Hm'. injection Hm' as <-. apply inv_change; [done| |done|done].
    split; [eapply family_insert; [apply I|done..]|]. split; [by eapply same_sizes_insert|]. intros _.
    eapply unseen_insert; [done|done|done|]. intros Hpl. by destruct (not_placed _ _ _ _ (i_family _ _ I) Hm Hpar Hr).
Qed.
Lemma inv_fds n s p fds s' : inv n s -> memory_region_transaction_commit n (set_fds (memory_region_transaction_begin s) p fds) = Some s' -> inv n s'.
Proof.
  intros I H. set (s1 := s.[ioeventfds := fun q => if decide (q = p) then fds else ioeventfds s q]).
  assert (inv n s1) as I1 by by split; simpl; try apply I.
  eapply (inv_update n s1); [done| |apply I|exact H]. split; [apply I|]. split; [done|]. intros _. apply unseen_refl.
Qed.

(** ** Listeners *)

Definition fresh_name s (who : name) : Prop :=
  (who ∉ (listener <$> memory_listeners s)) /\ Forall (fun c => match c with Region who' _ _ _ => who' <> who | _ => True end) (calls s).

(** The ranges of a space are told one by one. *)
Lemma follow_all l a v : forall done m rest, ordered 0 (done ++ v) -> starts_fit (done ++ v) -> Forall (fun x => x.1 <> a) rest ->
  m ≡ₚ (entry_of a <$> done) ++ rest ->
  has_all (follow (listener l) m ((fun fr => Region (listener l) cb_region_add a (section_of fr)) <$> v)) ((entry_of a <$> (done ++ v)) ++ rest).
Proof.
  induction v as [|r v IH]; intros done m rest Ho Hu Hrest Hm; [exists m; by rewrite app_nil_r|]. cbn [fmap list_fmap follow].
  destruct (tell_add (listener l) m a (section_of r) _ Hm) as (m1 & -> & Hm1).
  - pose proof (ordered_apart a _ _ _ _ Ho Hu) as Hap. rewrite !Forall_app, !Forall_fmap in *. split; [apply Hap|].
    apply (Forall_impl _ _ _ Hrest). intros x Hx. unfold overlap. by rewrite bool_decide_false by (simpl; congruence).
  - replace (done ++ r :: v) with ((done ++ [r]) ++ v) in * by by rewrite <- app_assoc. apply IH; [done..|].
    rewrite Hm1, fmap_app. cbn [fmap list_fmap]. rewrite <- app_assoc. cbn [app]. by rewrite <- Permutation_middle.
Qed.
Lemma follow_register s l : hears l -> forall L m rest, NoDup (space <$> L) -> (forall sp, sp ∈ L -> ordered 0 (current_map sp) /\ starts_fit (current_map sp)) ->
  Forall (fun x => x.1 ∉ space <$> L) rest -> m ≡ₚ rest ->
  has_all (follow (listener l) m (L ≫= listener_add_address_space s l)) (contents l L ++ rest).
Proof.
  intros [Ha _]. induction L as [|sp L IH]; intros m rest Hnd HL Hrest Hm; [by exists m|].
  rewrite contents_cons. cbn [mbind list_bind]. rewrite follow_app. rewrite fmap_cons in Hnd, Hrest. apply NoDup_cons in Hnd as [Hnew Hnd].
  assert (has_all (follow (listener l) m (listener_add_address_space s l sp)) (contents l [sp] ++ rest)) as (m1 & -> & Hm1).
  { unfold listener_add_address_space, contents. cbn [mbind list_bind]. rewrite app_nil_r. destruct (memory_listener_match l (space sp)); cbn [negb]; [|by exists m].
    rewrite follow_app, follow_idle by (destruct (_ && _); by repeat constructor). cbn [mbind option_bind]. rewrite Ha. destruct (HL sp) as [Ho Hu]; [left|].
    apply (follow_all l (space sp) (current_map sp) []); [done|done| |done]. apply (Forall_impl _ _ _ Hrest). intros x Hx E. apply Hx. rewrite E. left. }
  cbn [mbind option_bind]. destruct (IH m1 (contents l [sp] ++ rest)) as (m2 & Hm2 & Hp2); [done| | |done|].
  - intros sp' Hsp'. apply HL. by right.
  - apply Forall_app. split.
    + apply (Forall_impl _ _ _ (contents_spaces l [sp])). intros x Hx. cbn [fmap list_fmap] in Hx. apply list_elem_of_singleton in Hx. by rewrite Hx.
    + apply (Forall_impl _ _ _ Hrest). intros x Hx Hin. apply Hx. by right.
  - exists m2. split; [done|]. rewrite Hp2, !app_assoc. by rewrite (Permutation_app_comm (contents l L)).
Qed.
Lemma insert_listener_perm l ls : insert_listener l ls ≡ₚ l :: ls.
Proof. induction ls as [|o ls IH]; [done|]. cbn [insert_listener]. destruct (_ <? _); [done|]. rewrite IH. constructor. Qed.
Lemma registered_perm s l : memory_listeners (memory_listener_register s l) ≡ₚ l :: memory_listeners s.
Proof.
  simpl. assert (memory_listeners s ++ [l] ≡ₚ l :: memory_listeners s) as Happ by by rewrite Permutation_app_comm.
  destruct (last _); [|done]. destruct (_ <=? _); [done|]. apply insert_listener_perm.
Qed.
Lemma add_space_names s l sp : Forall (fun c => match c with Region who _ _ _ => who = listener l | _ => True end) (listener_add_address_space s l sp).
Proof.
  unfold listener_add_address_space. destruct (negb _); [constructor|]. apply Forall_app. split; [destruct (_ && _); by repeat constructor|].
  destruct (has l cb_region_add); [|constructor]. by apply Forall_fmap, Forall_true.
Qed.
Lemma inv_register n s l : inv n s -> fresh_name s (listener l) -> inv n (memory_listener_register s l).
Proof.
  intros I [Hnew Hfresh]. pose proof (registered_perm s l) as Hp. split; try apply I.
  - rewrite Hp. cbn [fmap list_fmap]. constructor; [done|apply I].
  - intros l' Hl' Hh. rewrite Hp in Hl'. simpl calls. rewrite follow_app. apply elem_of_cons in Hl' as [->|Hl'].
    + rewrite follow_idle by done. cbn [mbind option_bind]. destruct (follow_register s l Hh (address_spaces s) [] []) as (m & Hm & Hpm);
        [apply I|apply I|done|done|]. exists m. split; [exact Hm|]. by rewrite app_nil_r in Hpm.
    + destruct (i_told _ _ I l' Hl' Hh) as (m & -> & Hm). cbn [mbind option_bind]. exists m. split; [|done]. apply follow_idle.
      apply Forall_bind, Forall_true. intros sp. apply (Forall_impl _ _ _ (add_space_names _ l sp)). intros [| |]; try done. intros -> E. apply Hnew.
      rewrite E. by apply list_elem_of_fmap_2.
Qed.

Lemma inv_unregister n s who : inv n s -> inv n (memory_listener_unregister s who).
Proof.
  intros I. split; try apply I; simpl.
  - apply nodup_filter, I.
  - intros l [_ Hl]%list_elem_of_filter. by apply (i_told _ _ I).
Qed.
(** Calls about ranges that a listener has. *)
Definition quiet (who : name) (m : list entry) (c : call) : Prop :=
  match c with Region who' cb a sec => who' = who -> (a, sec) ∈ m /\ cb <> cb_region_add /\ cb <> cb_region_del | _ => True end.
Lemma follow_quiet who m0 cs : Forall (quiet who m0) cs -> forall m, m ≡ₚ m0 -> has_all (follow who m cs) m0.
Proof.
  induction 1 as [|c cs Hc _ IH]; intros m Hm; [by exists m|]. cbn [follow].
  assert (has_all (tell who m c) m0) as (m1 & -> & Hm1); [|by apply IH]. destruct c as [| who' cb a sec|]; [by exists m| |by exists m].
  destruct (decide (who' = who)) as [->|]; [destruct Hc as (? & ? & ?); [done|]; by apply tell_about|]. exists m. simpl. by rewrite decide_False.
Qed.
Lemma inv_emit n s cs : inv n s -> (forall l, l ∈ memory_listeners s -> hears l -> Forall (quiet (listener l) (contents l (address_spaces s))) cs) -> inv n (emit s cs).
Proof.
  intros I Hq. split; try apply I. intros l Hl Hh. simpl. rewrite follow_app. destruct (i_told _ _ I l Hl Hh) as (m & -> & Hm).
  cbn [mbind option_bind]. by apply follow_quiet; [apply Hq|].
Qed.
Lemma sync_quiet ls l sp fr spaces : NoDup (listener <$> ls) -> l ∈ ls -> sp ∈ spaces -> fr ∈ current_map sp ->
  Forall (quiet (listener l) (contents l spaces)) (update_region fr (space sp) Forward cb_log_sync ls).
Proof.
  intros Hnd Hl Hsp Hfr. apply Forall_fmap, Forall_forall. intros x Hx. simpl. intros E. split; [|done].
  apply list_elem_of_filter in Hx as [Hx Hin]. apply Is_true_true, andb_true_iff in Hx as [_ Hm].
  assert (x = l) as ->. { by eapply nodup_inj. }
  apply list_elem_of_bind. exists sp. split; [|done]. rewrite Hm. by apply (list_elem_of_fmap_2 (entry_of (space sp))).
Qed.

(** ** New address spaces and regions *)

Lemma off_topology n h r m : h !! r = Some m -> enabled m = false -> generate_memory_topology (S n) h r = Some [].
Proof. intros Hr He. unfold generate_memory_topology. by rewrite (render_off n h [] r _ _ _ m). Qed.
Lemma inv_space n s a r : inv n s -> a ∉ (space <$> address_spaces s) -> is_Some (regions s !! r) -> memory_region_transaction_depth s <> 0%nat ->
  inv n s.[address_spaces := address_spaces s ++ [mkSpace a (Some r) [] []]].[memory_region_update_pending := memory_region_update_pending s || is_enabled (regions s) r].
Proof.
  intros I Ha [m Hr] Hd. split; simpl; try apply I.
  - rewrite fmap_app. apply NoDup_app. split; [apply I|]. split; [|apply NoDup_singleton]. intros x Hx ->%list_elem_of_singleton. done.
  - intros p (sp & [Hsp| ->%list_elem_of_singleton]%elem_of_app & Hp); [apply (i_roots _ _ I); by exists sp|]. injection Hp as <-. eauto.
  - intros sp [Hsp| ->%list_elem_of_singleton]%elem_of_app; [by apply (i_views _ _ I)|]. by split; [|constructor].
  - intros [Hp Hoff]%orb_false_iff sp [Hsp| ->%list_elem_of_singleton]%elem_of_app; [by apply (i_current _ _ I)|].
    unfold is_enabled in Hoff. rewrite Hr in Hoff. destruct (i_acyclic _ _ I) as (rank & _ & N). specialize (N r). destruct n; [lia|]. by eapply off_topology.
  - intros Hd'. done.
  - intros l Hl Hh. destruct (i_told _ _ I l Hl Hh) as (m' & Hm & Hp). exists m'. split; [done|]. rewrite Hp. unfold contents. rewrite bind_app. cbn [mbind list_bind].
    simpl. destruct (memory_listener_match l a); by rewrite !app_nil_r.
Qed.
Lemma inv_space_init n s a r s' : inv n s -> a ∉ (space <$> address_spaces s) -> fresh_name s (dispatch_listener a) -> is_Some (regions s !! r) ->
  address_space_init n s a r = Some s' -> inv n s'.
Proof.
  intros I Ha Hf Hr H. pose proof (inv_space n _ a r (inv_begin n s I) Ha Hr ltac:(done)) as I1.
  pose proof (inv_register n _ (mkListener (dispatch_listener a) dispatch_has 0 (Some a)) I1 Hf) as I2.
  destruct (inv_commit n _ I2) as (s2 & H2 & I3 & _); [done|]. 
  assert (Some s' = Some s2) as [= ->]; [|done]. rewrite <- H, <- H2. reflexivity.
Qed.
Lemma filter_ext_in (P Q : ptr -> Prop) `{!forall x, Decision (P x)} `{!forall x, Decision (Q x)} (l : list ptr) :
  (forall x, x ∈ l -> P x <-> Q x) -> filter P l = filter Q l.
Proof.
  induction l as [|x l IH]; intros Hx; [done|]. rewrite !filter_cons, IH by (intros y Hy; apply Hx; by right). specialize (Hx x ltac:(left)).
  repeat case_decide; tauto.
Qed.
Lemma inv_new n s p m : inv n s -> regions s !! p = None -> parent m = None -> subregions m = [] -> 0 <= mr_size m <= 2 ^ 64 ->
  (terminates m = true -> mr_size m < 2 ^ 64) -> acyclic n (<[p := m]> (regions s)) ->
  inv n s.[regions := <[p := m]> (regions s)].
Proof.
  intros I Hp Hpar Hsub Hsz Hbd A. assert (forall q mq, regions s !! q = Some mq -> <[p := m]> (regions s) !! q = Some mq) as Hkeep.
  { intros q mq Hq. rewrite lookup_insert_ne; [done|]. intros ->. congruence. }
  split; simpl; try apply I; try done.
  - intros x mx q Hx Hq. destruct (decide (x = p)) as [->|]; [rewrite lookup_insert_eq in Hx; injection Hx as <-; rewrite Hsub in Hq; by apply not_elem_of_nil in Hq|].
    rewrite lookup_insert_ne in Hx by done. destruct (i_family _ _ I x mx q Hx Hq) as (mq & ? & ?). exists mq. auto.
  - intros x mx Hx. destruct (decide (x = p)) as [->|]; [rewrite lookup_insert_eq in Hx; by injection Hx as <-|]. rewrite lookup_insert_ne in Hx by done. by eapply (i_sized _ _ I).
  - intros x mx Hx. destruct (decide (x = p)) as [->|]; [rewrite lookup_insert_eq in Hx; by injection Hx as <-|]. rewrite lookup_insert_ne in Hx by done. by eapply (i_bounded _ _ I).
  - intros x Hx. destruct (i_roots _ _ I x Hx) as [mx ?]. exists mx. auto.
  - intros Hpend sp Hsp. rewrite (space_unseen n s _ sp I); [by apply (i_current _ _ I)| |done|done].
    intros x mx Hx. exists mx. split; [auto|]. split; [done|]. split; [|done]. intros _. split; [done|]. apply filter_ext_in. intros q Hq.
    destruct (i_family _ _ I x mx q Hx Hq) as (mq & Hmq & _). unfold is_on. rewrite (Hkeep _ _ Hmq), Hmq. done.
Qed.

(** ** Runs *)

Section Runs.
Context (n : nat) (swap : ptr -> Z -> Z -> Z).

(** The operations.  A region that is the root of an address space is not made
    a subregion; a listener or an address space is registered once; a region
    of 2^64 bytes is a container or an alias. *)
Inductive step s : memory -> Prop :=
| st_new p m : regions s !! p = None -> parent m = None -> subregions m = [] -> 0 <= mr_size m <= 2 ^ 64 ->
    (terminates m = true -> mr_size m < 2 ^ 64) -> step s s.[regions := <[p := m]> (regions s)]
| st_begin : step s (memory_region_transaction_begin s)
| st_commit s' : memory_region_transaction_commit n s = Some s' -> step s s'
| st_set_log p log client s' : memory_region_set_log n s p log client = Some s' -> step s s'
| st_set_readonly p ro s' : Listeners.memory_region_set_readonly n s p ro = Some s' -> step s s'
| st_set_romd p romd s' : memory_region_rom_device_set_romd n s p romd = Some s' -> step s s'
| st_add mr off sub s' : ~ is_root s sub -> Listeners.memory_region_add_subregion n s mr off sub = Some s' -> step s s'
| st_add_overlap mr off sub prio s' : ~ is_root s sub -> Listeners.memory_region_add_subregion_overlap n s mr off sub prio = Some s' -> step s s'
| st_del mr sub s' : Listeners.memory_region_del_subregion n s mr sub = Some s' -> step s s'
| st_set_enabled p b s' : Listeners.memory_region_set_enabled n s p b = Some s' -> step s s'
| st_set_address p off s' : ~ is_root s p -> Listeners.memory_region_set_address n s p off = Some s' -> step s s'
| st_set_alias_offset p off s' : Listeners.memory_region_set_alias_offset n s p off = Some s' -> step s s'
| st_add_eventfd p off sz mt data e s' : memory_region_add_eventfd n swap s p off sz mt data e = Some s' -> step s s'
| st_del_eventfd p off sz mt data e s' : memory_region_del_eventfd n swap s p off sz mt data e = Some s' -> step s s'
| st_sync p : step s (memory_region_sync_dirty_bitmap s p)
| st_sync_space sp : sp ∈ address_spaces s -> step s (address_space_sync_dirty_bitmap s sp)
| st_log_start : step s (memory_global_dirty_log_start s)
| st_log_stop : step s (memory_global_dirty_log_stop s)
| st_register l : fresh_name s (listener l) -> step s (memory_listener_register s l)
| st_unregister who : step s (memory_listener_unregister s who)
| st_init a r s' : a ∉ (space <$> address_spaces s) -> fresh_name s (dispatch_listener a) -> is_Some (regions s !! r) ->
    address_space_init n s a r = Some s' -> step s s'.
(** No operation makes a cycle of regions. *)
Inductive reachable : memory -> Prop :=
| reach_empty : reachable (mkMemory ∅ (fun _ => []) [] [] 0 false false [])
| reach_step s s' : reachable s -> step s s' -> acyclic n (regions s') -> reachable s'.

Lemma inv_empty : (0 < n)%nat -> inv n (mkMemory ∅ (fun _ => []) [] [] 0 false false []).
Proof.
  intros Hn. split; simpl; try done; try constructor.
  - exists (fun _ => 0%nat). by split.
  - by intros p (sp & ?%not_elem_of_nil & _).
  - by apply not_elem_of_nil in H.
  - by apply not_elem_of_nil in H.
  - by intros _ sp ?%not_elem_of_nil.
  - by intros l ?%not_elem_of_nil.
Qed.
Lemma inv_log_sync s sp frs : inv n s -> sp ∈ address_spaces s -> frs ⊆ current_map sp -> forall l, l ∈ memory_listeners s -> 
  Forall (quiet (listener l) (contents l (address_spaces s))) (frs ≫= fun fr => update_region fr (space sp) Forward cb_log_sync (memory_listeners s)).
Proof.
  intros I Hsp Hfr l Hl. apply Forall_bind, Forall_forall. intros fr Hin. apply sync_quiet; [apply I|done|done|by apply Hfr].
Qed.
Lemma global_quiet who m cb dir ls : Forall (quiet who m) (call_global cb dir ls).
Proof. by apply Forall_fmap, Forall_true. Qed.
Lemma inv_step s s' : inv n s -> step s s' -> acyclic n (regions s') -> inv n s'.
Proof.
  intros I H A. destruct H.
  - by apply inv_new.
  - by apply inv_begin.
  - destruct (decide (memory_region_transaction_depth s = 0%nat)) as [E|E]; [unfold memory_region_transaction_commit in *; by rewrite E in *|].
    destruct (inv_commit n s I E) as (s2 & H2 & I2 & _). congruence.
  - by eapply (inv_set n s p); [done|done| |exact H].
  - unfold Listeners.memory_region_set_readonly in H. apply bind_Some in H as (m & _ & H). destruct (Bool.eqb _ _); [by injection H as <-|].
    by eapply (inv_set n s p); [done|done| |exact H].
  - unfold memory_region_rom_device_set_romd in H. apply bind_Some in H as (m & _ & H). destruct (Bool.eqb _ _); [by injection H as <-|].
    by eapply (inv_set n s p); [done|done| |exact H].
  - by eapply inv_add.
  - by eapply inv_add_overlap.
  - by eapply inv_del.
  - by eapply inv_enabled.
  - by eapply inv_address.
  - unfold Listeners.memory_region_set_alias_offset in H. apply bind_Some in H as (m & Hm & H). apply bind_Some in H as (q & Hq & H).
    destruct (_ =? _); [by injection H as <-|]. unfold Memory.memory_region_set_alias_offset in H. simpl in H. rewrite Hm in H. cbn [mbind option_bind] in H.
    rewrite Hq in H. by eapply (inv_set n s p); [done|done| |exact H].
  - by eapply inv_fds.
  - apply bind_Some in H as (fds & _ & H). by eapply inv_fds.
  - apply inv_emit; [done|]. intros l Hl _. apply Forall_bind, Forall_forall. intros sp Hsp. apply inv_log_sync; [done|done| |done].
    intros fr [_ Hfr]%list_elem_of_filter. done.
  - apply inv_emit; [done|]. intros l Hl _. by apply inv_log_sync.
  - apply inv_emit; [by split; simpl; try apply I|]. intros l _ _. apply global_quiet.
  - apply inv_emit; [by split; simpl; try apply I|]. intros l _ _. apply global_quiet.
  - by apply inv_register.
  - by apply inv_unregister.
  - by eapply inv_space_init.
Qed.
Lemma reachable_inv s : (0 < n)%nat -> reachable s -> inv n s.
Proof. intros Hn. induction 1; [by apply inv_empty|by eapply inv_step]. Qed.

End Runs.

(** An example: a region is added to the root in a transaction. *)
Module Sample.
Definition swap : ptr -> Z -> Z -> Z := fun _ data _ => data.
Definition watcher : MemoryListener := mkListener (other_listener 7) (fun _ => true) 10 None.
Definition got (o : option memory) : memory := default (mkMemory ∅ (fun _ => []) [] [] 0 false false []) o.
Definition s0 : memory := got None.
Definition s1 : memory := s0.[regions := <[1%positive := memory_region_init 0x10000]> (regions s0)].
Definition s2 : memory := got (address_space_init 3 s1 1 1%positive).
Definition s3 : memory := memory_listener_register s2 watcher.
Definition s4 : memory := s3.[regions := <[2%positive := memory_region_init_ram 0x1000]> (regions s3)].
Definition s5 : memory := memory_region_transaction_begin s4.
Definition s6 : memory := got (Listeners.memory_region_add_subregion 3 s5 1%positive 0x2000 2%positive).
Definition s7 : memory := got (memory_region_transaction_commit 3 s6).

Lemma sample_acyclic h : ranked h (fun p => if decide (p = 1%positive) then 1%nat else 0%nat) -> acyclic 3 h.
Proof. intros R. eexists. split; [exact R|]. intros p. simpl. case_decide; lia. Qed.
Ltac closed := apply (bool_decide_unpack _); by vm_compute.
Lemma sample_reachable : reachable 3 swap s7.
Proof.
  assert (reachable 3 swap s1) as R1.
  { eapply (reach_step 3 swap s0); [apply reach_empty|by apply st_new|]. apply sample_acyclic, ranked_check. closed. }
  assert (reachable 3 swap s2) as R2.
  { eapply (reach_step 3 swap s1); [done| |apply sample_acyclic, ranked_check; closed].
    apply (st_init 3 swap s1 1 1%positive); [closed|split; [closed|constructor]|by eexists|by vm_compute]. }
  assert (reachable 3 swap s3) as R3.
  { eapply (reach_step 3 swap s2); [done| |apply sample_acyclic, ranked_check; closed]. apply (st_register 3 swap s2 watcher). split; [closed|]. 
    by repeat constructor. }
  assert (reachable 3 swap s4) as R4.
  { eapply (reach_step 3 swap s3); [done|by apply st_new|]. apply sample_acyclic, ranked_check. closed. }
  assert (reachable 3 swap s5) as R5.
  { eapply (reach_step 3 swap s4); [done|apply st_begin|]. apply sample_acyclic, ranked_check. closed. }
  assert (reachable 3 swap s6) as R6.
  { eapply (reach_step 3 swap s5); [done| |apply sample_acyclic, ranked_check; closed].
    apply (st_add 3 swap s5 1%positive 0x2000 2%positive); [|by vm_compute]. intros (sp & Hsp & Hr). apply list_elem_of_singleton in Hsp as ->. done. }
  eapply (reach_step 3 swap s6); [done|apply st_commit; by vm_compute|]. apply sample_acyclic, ranked_check. closed.
Qed.
End Sample.

(** Destroying an address space makes its root null, but asks for no update:
    the listeners are told nothing, although the ranges are gone. *)
Lemma destroy_untold n s a s' : memory_region_transaction_depth s = 0%nat -> memory_region_update_pending s = false ->
  address_space_destroy n s a = Some s' -> calls s' = calls s.
Proof.
  intros Hd Hp H. unfold address_space_destroy, memory_region_transaction_commit in H. simpl in H. rewrite Hd, Hp in H. simpl in H. by injection H as <-.
Qed.
End ListenersRun.
