(* ===== verification/DispatchView.v ===== *)
(** * Guest addresses and the memory tree (memory.c, exec.c)

    A transaction ends with a call of each listener; exec.c's are the dispatch
    of each address space and [core_memory_listener].  [exec_calls] runs them
    on the calls that memory.c makes.  The theorem: after the end of a
    transaction, a lookup of any guest address finds what the tree of regions
    has there. *)

From stdpp Require Import gmap.
From S2P Require Import Prelude Memory MemoryProps Board Listeners ListenersProps Dispatch DispatchTree DispatchProps.

Module DispatchView.
Import Listeners Dispatch DispatchTree DispatchProps.
#[local] Open Scope Z_scope.
Implicit Types (d : exec) (a : positive) (ls : list MemoryListener) (v : list Memory.FlatRange).

(** ** The listeners of exec.c *)

Definition section_in (s : Memory.MemoryRegionSection) : MemoryRegionSection :=
  mkSection (Mr (Memory.sec_mr s)) (Memory.offset_within_region s) (Memory.sec_size s) (Memory.offset_within_address_space s) (Memory.sec_readonly s).
(** The other callbacks of exec.c free the old map, flush the translations and
    note whether memory is tracked. *)
Definition exec_call d (c : call) : option exec :=
  match c with
  | Global (dispatch_listener a) cb_begin => Some (mem_begin d a)
  | Global (dispatch_listener a) cb_commit => mem_commit d a
  | Global core_memory_listener cb_begin => core_begin d
  | Region (dispatch_listener a) (cb_region_add | cb_region_nop) _ s => mem_add d a (section_in s)
  | _ => Some d
  end.
Fixpoint exec_calls d (l : list call) : option exec := match l with [] => Some d | c :: l => d ← exec_call d c; exec_calls d l end.

Lemma exec_app d l1 l2 : exec_calls d (l1 ++ l2) = d ← exec_calls d l1; exec_calls d l2.
Proof. revert d. induction l1 as [|c l1 IH]; intros d; cbn [exec_calls app]; [done|]. destruct (exec_call d c); [apply IH|done]. Qed.
Lemma exec_idle d l : Forall (fun c => forall d, exec_call d c = Some d) l -> exec_calls d l = Some d.
Proof. induction 1 as [|c l Hc _ IH]; cbn [exec_calls]; [done|]. rewrite Hc. exact IH. Qed.

(** The listeners are those of exec.c: one for each address space, and the
    core; others may be there too. *)
Record wired ls (spaces : list positive) : Prop := {
  wi_names : NoDup (listener <$> ls);
  wi_core : core_memory_listener ∈ listener <$> ls;
  wi_core_begin l : l ∈ ls -> listener l = core_memory_listener -> has l cb_begin = true;
  wi_dispatch a l : l ∈ ls -> listener l = dispatch_listener a ->
    a ∈ spaces /\ address_space_filter l = Some a /\ forall cb, has l cb = dispatch_has cb;
  wi_spaces a : a ∈ spaces -> dispatch_listener a ∈ listener <$> ls
}.

(** ** Calls about a range *)

Section Update.
Context (ls : list MemoryListener) (spaces : list positive) (a : positive) (Hw : wired ls spaces) (Ha : a ∈ spaces).

Lemma direction_elem dir (l : MemoryListener) : l ∈ in_direction dir ls <-> l ∈ ls.
Proof. destruct dir; simpl; [done|]. apply elem_of_reverse. Qed.
Lemma called_elem cb dir l : l ∈ called cb dir a ls <-> l ∈ ls /\ has l cb = true /\ memory_listener_match l a = true.
Proof. unfold called. rewrite list_elem_of_filter, direction_elem, Is_true_true, andb_true_iff. tauto. Qed.
Lemma called_dispatch cb dir : dispatch_has cb = true ->
  exists L1 x L2, called cb dir a ls = L1 ++ x :: L2 /\ listener x = dispatch_listener a /\
    Forall (fun l => forall a', listener l <> dispatch_listener a') (L1 ++ L2).
Proof.
  intros Hcb. destruct (list_elem_of_fmap_1 _ _ _ (wi_spaces _ _ Hw a Ha)) as (x & Hx & Hin).
  destruct (wi_dispatch _ _ Hw a x Hin (eq_sym Hx)) as (_ & Hf & Hh).
  assert (x ∈ called cb dir a ls) as Hc.
  { apply called_elem. split; [done|]. split; [by rewrite Hh|]. unfold memory_listener_match. by rewrite Hf, bool_decide_true. }
  destruct (list_elem_of_split _ _ Hc) as (L1 & L2 & E). exists L1, x, L2. split; [done|]. split; [done|].
  assert (NoDup (listener <$> called cb dir a ls)) as Hn.
  { unfold called. apply ListenersProps.nodup_filter. destruct dir; [apply Hw|]. cbn [in_direction]. rewrite fmap_reverse, reverse_Permutation. apply Hw. }
  rewrite E, fmap_app, fmap_cons in Hn. apply Forall_forall. intros l Hl a' Ha'.
  assert (l ∈ called cb dir a ls) as Hlc by (rewrite E, elem_of_app, elem_of_cons; apply elem_of_app in Hl; tauto).
  apply called_elem in Hlc as (Hl' & _ & Hm). destruct (wi_dispatch _ _ Hw a' l Hl' Ha') as (_ & Hf' & _).
  unfold memory_listener_match in Hm. rewrite Hf' in Hm. apply bool_decide_eq_true in Hm. subst a'.
  rewrite <- Permutation_middle in Hn. 
  apply NoDup_cons in Hn as [Hno _]. apply Hno. rewrite <- Hx, <- Ha', <- fmap_app. by apply list_elem_of_fmap_2.
Qed.
Lemma exec_update_idle d fr dir cb : cb <> cb_region_add -> cb <> cb_region_nop -> exec_calls d (update_region fr a dir cb ls) = Some d.
Proof.
  intros H1 H2. apply exec_idle, Forall_fmap, Forall_true. intros l d'. simpl. by destruct (listener l), cb.
Qed.
Lemma exec_update d fr dir cb : cb = cb_region_add \/ cb = cb_region_nop ->
  exec_calls d (update_region fr a dir cb ls) = mem_add d a (section_in (section_of fr)).
Proof.
  intros Hcb. unfold update_region. destruct (called_dispatch cb dir) as (L1 & x & L2 & -> & Hx & Hno); [by destruct Hcb as [->| ->]|].
  apply Forall_app in Hno as [H1 H2].
  assert (forall L d, Forall (fun l => forall a', listener l <> dispatch_listener a') L ->
    exec_calls d ((fun l => Region (listener l) cb a (section_of fr)) <$> L) = Some d) as Hidle.
  { intros L d' HL. apply exec_idle, Forall_fmap. apply (Forall_impl _ _ _ HL). intros l Hl d''. simpl.
    by destruct (listener l) as [b| | |]; [destruct (Hl b)|..]. }
  rewrite fmap_app, exec_app, Hidle by done. cbn [mbind option_bind fmap list_fmap exec_calls]. rewrite Hx.
  replace (exec_call d _) with (mem_add d a (section_in (section_of fr))) by by destruct Hcb as [->| ->].
  destruct (mem_add d a _) as [d'|]; [|done]. by apply Hidle.
Qed.
Lemma exec_eventfd d fd dir cb : exec_calls d (call_eventfd fd a dir cb ls) = Some d.
Proof. apply exec_idle, Forall_fmap, Forall_true. intros l d'. simpl. by destruct (listener l), cb. Qed.

(** ** Calls about a view *)

Fixpoint add_all d (l : list MemoryRegionSection) : option exec := match l with [] => Some d | s :: l => d ← mem_add d a s; add_all d l end.

Lemma exec_dels n : forall d old new, exec_calls d (topology_pass n ls a old new false) = Some d.
Proof.
  induction n as [|n IH]; intros d old new; cbn [topology_pass]; [done|].
  destruct old as [|o old], new as [|r new]; try done; repeat case_match; rewrite ?exec_app, ?exec_update_idle by done; apply IH.
Qed.
(** Each range of the new view is added once, in order, whatever the old view. *)
Lemma exec_adds n : forall d old new, (length old + length new <= n)%nat ->
  exec_calls d (topology_pass n ls a old new true) = add_all d ((fun fr => section_in (section_of fr)) <$> new).
Proof.
  induction n as [|n IH]; intros d old new Hn; cbn [topology_pass].
  { by destruct old, new; simpl in Hn; try lia. }
  destruct old as [|o old], new as [|r new]; simpl in Hn; cbn [fmap list_fmap add_all]; [done| | |].
  - rewrite exec_app, exec_update by by left. destruct (mem_add d a _); [|done]. apply IH. simpl. lia.
  - apply (IH d old []). simpl. lia.
  - destruct (_ || _).
    + apply (IH d old (r :: new)). simpl. lia.
    + destruct (flatrange_equal o r).
      * rewrite !exec_app, exec_update by by right. destruct (mem_add d a _) as [d'|]; [|done]. cbn [mbind option_bind].
        replace (exec_calls d' _) with (Some d') by (repeat case_match; by rewrite ?exec_update_idle).
        apply IH. lia.
      * rewrite exec_app, exec_update by by left. destruct (mem_add d a _); [|done]. apply IH. simpl. lia.
Qed.
Lemma exec_fds n : forall d new old, exec_calls d (add_del n ls a new old) = Some d.
Proof.
  induction n as [|n IH]; intros d new old; cbn [add_del]; [done|].
  destruct old, new; try done; repeat case_match; rewrite ?exec_app, ?exec_eventfd; apply IH.
Qed.
End Update.

(** ** The map of a view *)

Definition answer_of (h : MemoryProps.hit) : target := let '(p, off, _, _, ro) := h in (Mr p, off, ro).
Definition with_view f a v : answers := fun a' x =>
  if decide (a' = a) then match MemoryProps.view_at v x with Some h => Some (answer_of h) | None => f a' x end else f a' x.
Definition demand v : nat := sum_list ((fun fr => cost (section_in (section_of fr))) <$> v).
(** A range that the page map can hold. *)
Definition in_range (fr : Memory.FlatRange) : Prop :=
  Memory.addrrange_end (Memory.addr fr) <= 2 ^ 40 /\ 0 <= Memory.offset_in_region fr /\
  Memory.offset_in_region fr + Memory.size (Memory.addr fr) <= 2 ^ 64.

Lemma section_fits f a fr lo : 0 <= lo <= Memory.start (Memory.addr fr) -> 0 < Memory.size (Memory.addr fr) -> in_range fr ->
  (forall x, lo <= x -> f a x = None) -> fits f a (section_in (section_of fr)).
Proof.
  intros Hlo Hs (He & Ho & Hoe) Hf. unfold Memory.addrrange_end in He. split; simpl; try lia.
  - by eexists.
  - rewrite u64_small by (unfold is_u; lia). lia.
  - rewrite u64_small by (unfold is_u; lia). lia.
  - rewrite u64_small by (unfold is_u; lia). intros x Hx. apply Hf. unfold within in Hx. lia.
Qed.
Lemma extended_range f a fr a' x : is_u 64 (Memory.start (Memory.addr fr)) ->
  extended f a (section_in (section_of fr)) a' x =
  if decide (a' = a) then match MemoryProps.range_at fr x with Some h => Some (answer_of h) | None => f a' x end else f a' x.
Proof.
  intros Hu. unfold extended, target_of, within. simpl. rewrite u64_small by done. unfold MemoryProps.range_at, Memory.addrrange_contains, Memory.addrrange_end.
  case_bool_decide; case_decide; try done. cbn [andb]. by destruct (_ && _).
Qed.
Lemma view_built a v : forall d f lo, built d f -> is_Some (next_dispatch d !! a) -> 0 <= lo -> MemoryProps.ordered lo v -> Forall in_range v ->
  (forall x, lo <= x -> f a x = None) -> (length (sections (next_map d)) + demand v <= 1024)%nat ->
  exists d', add_all a d ((fun fr => section_in (section_of fr)) <$> v) = Some d' /\ built d' (with_view f a v) /\ kept d d' (demand v).
Proof.
  induction v as [|fr v IH]; intros d f lo B Ha Hlo Hv Hr Hf Hd.
  - exists d. split; [done|]. split; [|apply kept_refl]. eapply built_ext; [|exact B]. intros a' x. unfold with_view. by case_decide.
  - destruct Hv as (Hstart & Hsize & Hv). apply Forall_cons in Hr as [Hfr Hr].
    pose proof (section_fits f a fr lo ltac:(lia) Hsize Hfr Hf) as F. change (demand (fr :: v)) with (cost (section_in (section_of fr)) + demand v)%nat in *.
    destruct (mem_add_ok d f a _ B Ha F) as (d1 & Hd1 & B1 & K1); [lia|]. pose proof K1 as (_ & L1 & R1).
    assert (is_u 64 (Memory.start (Memory.addr fr))) as Hu. { destruct Hfr as (He & _). unfold Memory.addrrange_end in He. unfold is_u. lia. }
    destruct (IH d1 (extended f a (section_in (section_of fr))) (Memory.addrrange_end (Memory.addr fr))) as (d2 & Hd2 & B2 & K2);
      [done|by apply R1|unfold Memory.addrrange_end; lia|done|done| |lia|].
    { intros x Hx. rewrite extended_range by done. unfold MemoryProps.range_at, Memory.addrrange_contains.
      destruct (Z.ltb_spec x (Memory.addrrange_end (Memory.addr fr))); [lia|]. rewrite andb_false_r. unfold Memory.addrrange_end in *.
      case_decide; apply Hf; lia. }
    exists d2. cbn [fmap list_fmap add_all]. rewrite Hd1. split; [done|]. split; [|by eapply kept_trans].
    eapply built_ext; [|exact B2]. intros a' x. unfold with_view. rewrite extended_range by done. case_decide; [|done].
    cbn [MemoryProps.view_at]. unfold MemoryProps.orelse.
    destruct (MemoryProps.range_at fr x) eqn:Hat; [|done]. destruct (MemoryProps.view_at v x) eqn:Hv'; [|done].
    exfalso. unfold MemoryProps.range_at in Hat. destruct (Memory.addrrange_contains _ x) eqn:Hc; [|done].
    apply MemoryProps.contains_spec in Hc. rewrite (MemoryProps.ordered_below _ _ x Hv) in Hv' by lia. done.
Qed.

(** ** The views of the memory tree *)

(** An offset is inside its region. *)
Lemma resolve_offset n h : forall p base ro x q off mask romd ro',
  MemoryProps.resolve n h p base ro x = Some (q, off, mask, romd, ro') -> exists m, h !! q = Some m /\ 0 <= off < Memory.mr_size m.
Proof.
  induction n as [|n IH]; intros p base ro x q off mask romd ro' H; [done|]. cbn [MemoryProps.resolve] in H.
  apply bind_Some in H as (m & Hm & H). destruct (_ && _) eqn:Hin; [|done]. destruct (Memory.alias m) as [t|].
  - apply bind_Some in H as (mt & _ & H). by eapply IH.
  - destruct (MemoryProps.first_hit _ _) eqn:Hf; cbn [MemoryProps.orelse] in H.
    + injection H as ->. clear Hin. induction (Memory.subregions m) as [|c l IHl]; [done|]. cbn [MemoryProps.first_hit] in Hf.
      destruct (MemoryProps.resolve n h c _ _ x) eqn:Hc; cbn [MemoryProps.orelse] in Hf; [|by apply IHl]. injection Hf as ->. by eapply IH.
    + destruct (Memory.terminates m); [|done]. injection H as <- <- <- <- <-. exists m. split; [done|]. lia.
Qed.
Section Tree.
Context (n : nat) (h : Memory.heap) (rank : Memory.ptr -> nat).
(** The regions form no cycle and have a size of 64 bits. *)
Record tree_ok : Prop := {
  tr_sized : MemoryProps.sized h;
  tr_ranked : MemoryProps.ranked h rank;
  tr_size p m : h !! p = Some m -> Memory.mr_size m <= Memory.int128_2_64
}.
Definition tree_at (sp : AddressSpace) (x : Z) : option MemoryProps.hit :=
  match Listeners.root sp with Some r => MemoryProps.resolve n h r 0 false x | None => None end.
(** All regions of the address space are below the end of the page map. *)
Definition space_ok (sp : AddressSpace) : Prop :=
  (forall r, Listeners.root sp = Some r -> is_Some (h !! r) /\ (rank r < n)%nat) /\ forall x, 2 ^ 40 <= x < 2 ^ 64 -> tree_at sp x = None.

Lemma space_view sp : tree_ok -> space_ok sp ->
  exists v, space_topology n h sp = Some v /\ MemoryProps.ordered 0 v /\ Forall in_range v /\
    forall x, 0 <= x < 2 ^ 64 -> MemoryProps.view_at v x = tree_at sp x.
Proof.
  intros T [Hroot Hmax]. unfold space_topology, tree_at in *. destruct (Listeners.root sp) as [r|]; [|by exists []].
  destruct (Hroot r eq_refl) as [Hr Hn]. destruct (MemoryProps.topology_ok h rank r n) as (v & Hv & Ho & _ & Hat); [|apply T|done|done| |].
  { intros p m Hp. split; [by eapply (tr_sized T)|by eapply (tr_size T)]. }
  { exists (2 ^ 40). split; [lia|]. rewrite Hmax by lia. by intros q. }
  exists v. split; [done|]. split; [done|]. split; [|exact Hat]. pose proof (MemoryProps.range_bytes 0 v Ho) as Hb. pose proof (MemoryProps.ordered_forall _ _ Ho) as Hf.
  rewrite Forall_forall in *. intros fr Hfr. destruct (Hf fr Hfr) as [H0 Hs]. 
  assert (forall x, Memory.start (Memory.addr fr) <= x < Memory.addrrange_end (Memory.addr fr) -> x < 2 ^ 40 /\
    0 <= Memory.offset_in_region fr + (x - Memory.start (Memory.addr fr)) < 2 ^ 64) as Hx.
  { intros x Hx. specialize (Hb fr Hfr x Hx). unfold MemoryProps.range_at in Hb.
    replace (Memory.addrrange_contains _ x) with true in Hb by (symmetry; by apply MemoryProps.contains_spec).
    assert (0 <= x < 2 ^ 64) as Hu.
    { destruct (decide (0 <= x < 2 ^ 64)) as [|Hout]; [done|]. rewrite (MemoryProps.topology_outside _ _ _ _ _ (tr_sized T) Hv Hout) in Hb. done. }
    rewrite Hat in Hb by done. split.
    - destruct (Z.lt_ge_cases x (2 ^ 40)) as [|Hge]; [done|]. rewrite Hmax in Hb; [done|lia].
    - destruct (resolve_offset _ _ _ _ _ _ _ _ _ _ _ Hb) as (m & Hm & Hoff). pose proof (tr_size T _ _ Hm). unfold Memory.int128_2_64 in *. lia. }
  unfold in_range, Memory.addrrange_end in *. pose proof (Hx (Memory.start (Memory.addr fr)) ltac:(lia)).
  pose proof (Hx (Memory.start (Memory.addr fr) + Memory.size (Memory.addr fr) - 1) ltac:(lia)). lia.
Qed.
End Tree.

(** ** The end of a transaction *)

Lemma update_ok n s rank ls spaces : ls = memory_listeners s -> wired ls spaces -> tree_ok (regions s) rank ->
  forall L d f, (forall sp, sp ∈ L -> space_ok n (regions s) rank sp /\ space sp ∈ spaces /\ is_Some (next_dispatch d !! space sp) /\ forall x, f (space sp) x = None) ->
  NoDup (space <$> L) -> built d f ->
  (length (sections (next_map d)) + sum_list ((fun sp => default 0%nat (demand <$> space_topology n (regions s) sp)) <$> L) <= 1024)%nat ->
  exists L' cs d' f', update_spaces n s L = Some (L', cs) /\ exec_calls d cs = Some d' /\ built d' f' /\ kept d d' 1024 /\
    (forall a x, a ∉ space <$> L -> f' a x = f a x) /\
    forall sp x, sp ∈ L -> 0 <= x < 2 ^ 64 -> f' (space sp) x = answer_of <$> tree_at n (regions s) sp x.
Proof.
  intros -> Hw T. induction L as [|sp L IH]; intros d f HL Hnd B Hsum.
  { exists [], [], d, f. do 3 (split; [done|]). split; [apply kept_refl|]. split; [done|]. by intros sp x ?%not_elem_of_nil. }
  destruct (HL sp) as (Hok & Hin & Hroot & Hf); [left|]. apply NoDup_cons in Hnd as [Hnew Hnd].
  destruct (space_view n (regions s) rank sp T Hok) as (v & Hv & Ho & Hr & Hat). rewrite fmap_cons in Hsum. cbn [sum_list] in Hsum. rewrite Hv in Hsum. simpl in Hsum.
  destruct (view_built (space sp) v d f 0) as (d1 & Hd1 & B1 & K1); [done|done|done|done|done|by intros x _|lia|]. pose proof K1 as (_ & L1 & R1).
  destruct (IH d1 (with_view f (space sp) v)) as (L' & cs & d2 & f2 & Hup & Hex & B2 & K2 & Hother & Hall); [|done|done|lia|].
  { intros sp' Hsp'. destruct (HL sp') as (? & ? & ? & ?); [by right|]. split; [done|]. split; [done|]. split; [by apply R1|].
    intros x. unfold with_view. rewrite decide_False; [done|]. intros E. apply Hnew. rewrite <- E. by apply list_elem_of_fmap_2. }
  cbn [update_spaces]. unfold address_space_update_topology. rewrite Hv. cbn [mbind option_bind]. unfold address_space_update_ioeventfds. rewrite Hup.
  cbn [mbind option_bind]. eexists _, _, d2, f2. split; [reflexivity|]. split.
  { unfold address_space_update_topology_pass, address_space_add_del_ioeventfds. rewrite !exec_app. erewrite exec_dels by done. cbn [mbind option_bind].
    rewrite exec_app. erewrite exec_adds by done. rewrite Hd1. cbn [mbind option_bind]. simpl space. erewrite exec_fds by done. exact Hex. }
  split; [done|]. split; [|split].
  - destruct K1 as (E1 & _), K2 as (E2 & _ & R2). split; [congruence|]. split; [pose proof (m_max _ _ (proj1 B2)); lia|]. intros a. by rewrite R2.
  - intros a x Ha. rewrite fmap_cons, not_elem_of_cons in Ha. rewrite Hother by apply Ha. unfold with_view. by rewrite decide_False by apply Ha.
  - intros sp' x [->|Hsp']%elem_of_cons Hx; [|by apply Hall]. rewrite Hother by done. unfold with_view. rewrite decide_True, Hat, Hf by done.
    by destruct (tree_at n (regions s) sp x).
Qed.

(** All trees are empty at the start. *)
Definition nil_entry : PhysPageEntry := mkEntry false PHYS_MAP_NODE_NIL.
Lemma begin_calls L : forall d, exists d', exec_calls d ((fun l => Global (listener l) cb_begin) <$> L) = Some d' /\ dispatch d' = dispatch d /\
  (core_memory_listener ∈ listener <$> L \/ next_map d = begun -> next_map d' = begun) /\
  forall a, next_dispatch d' !! a = if decide (dispatch_listener a ∈ listener <$> L) then Some nil_entry else next_dispatch d !! a.
Proof.
  induction L as [|l L IH]; intros d; cbn [fmap list_fmap exec_calls].
  - exists d. split; [done|]. split; [done|]. split; [by intros [?%not_elem_of_nil|?]|]. intros a. by rewrite decide_False by apply not_elem_of_nil.
  - assert (exists d1, exec_call d (Global (listener l) cb_begin) = Some d1 /\ dispatch d1 = dispatch d /\
      (listener l = core_memory_listener \/ next_map d = begun -> next_map d1 = begun) /\
      forall a, next_dispatch d1 !! a = if decide (dispatch_listener a = listener l) then Some nil_entry else next_dispatch d !! a) as (d1 & -> & E1 & Hc1 & Hr1).
    { destruct (listener l) as [b| | |p].
      - exists (mem_begin d b). split; [done|]. split; [done|]. split; [by intros [?|?]|]. intros a. simpl. destruct (decide (a = b)) as [->|].
        + by rewrite lookup_insert_eq, decide_True.
        + rewrite lookup_insert_ne, decide_False by congruence. done.
      - exists d.[next_map := begun]. split; [by rewrite <- core_begin_eq|]. split; [done|]. split; [done|]. intros a. by rewrite decide_False.
      - exists d. split; [done|]. split; [done|]. split; [by intros [?|?]|]. intros a. by rewrite decide_False.
      - exists d. split; [done|]. split; [done|]. split; [by intros [?|?]|]. intros a. by rewrite decide_False. }
    destruct (IH d1) as (d' & Hd' & ? & Hc' & Hr'). exists d'. split; [done|]. split; [congruence|]. split.
    + rewrite elem_of_cons. intros [[?|?]|?]; auto.
    + intros a. rewrite Hr', Hr1. destruct (decide (dispatch_listener a = listener l)) as [E|E].
      * rewrite (decide_True (P := _ ∈ _ :: _)) by (rewrite E; left). by case_decide.
      * apply decide_ext. rewrite elem_of_cons. tauto.
Qed.
Lemma begin_ok ls spaces d : wired ls spaces -> (forall a, is_Some (next_dispatch d !! a) -> a ∈ spaces) ->
  exists d', exec_calls d (call_global cb_begin Forward ls) = Some d' /\ dispatch d' = dispatch d /\ next_map d' = begun /\
    forall a, next_dispatch d' !! a = if decide (a ∈ spaces) then Some nil_entry else None.
Proof.
  intros Hw Hd. unfold call_global, in_direction. destruct (begin_calls (filter (fun l => has l cb_begin) ls) d) as (d' & Hd' & E & Hc & Hr).
  exists d'. split; [done|]. split; [done|].
  assert (forall x, x ∈ listener <$> ls -> (forall l, l ∈ ls -> listener l = x -> has l cb_begin = true) ->
    x ∈ listener <$> filter (fun l => has l cb_begin) ls) as Hf.
  { intros x (l & -> & Hl)%list_elem_of_fmap Hh. apply list_elem_of_fmap_2, list_elem_of_filter. split; [by apply Is_true_true, Hh|done]. }
  split.
  - apply Hc. left. apply Hf; [apply Hw|apply Hw].
  - intros a. rewrite Hr. destruct (decide (a ∈ spaces)) as [Ha|Ha].
    + rewrite decide_True; [done|]. apply Hf; [by apply (wi_spaces _ _ Hw)|]. intros l Hl El. destruct (wi_dispatch _ _ Hw a l Hl El) as (_ & _ & ->). done.
    + rewrite decide_False.
      * apply eq_None_not_Some. auto.
      * intros (l & El & [_ Hl]%list_elem_of_filter)%list_elem_of_fmap. apply Ha. by eapply wi_dispatch.
Qed.
Definition taken d a e : AddressSpaceDispatch := mkDispatch e (nodes (next_map d)) (sections (next_map d)).
Lemma commit_calls L : forall d, (forall a, dispatch_listener a ∈ listener <$> L -> is_Some (next_dispatch d !! a)) ->
  exists d', exec_calls d ((fun l => Global (listener l) cb_commit) <$> L) = Some d' /\
    next_dispatch d' = next_dispatch d /\ next_map d' = next_map d /\ subpages d' = subpages d /\
    forall a, dispatch d' !! a = if decide (dispatch_listener a ∈ listener <$> L) then taken d a <$> next_dispatch d !! a else dispatch d !! a.
Proof.
  induction L as [|l L IH]; intros d HL; cbn [fmap list_fmap exec_calls].
  - exists d. do 4 (split; [done|]). intros a. by rewrite decide_False by apply not_elem_of_nil.
  - assert (exists d1, exec_call d (Global (listener l) cb_commit) = Some d1 /\ next_dispatch d1 = next_dispatch d /\ next_map d1 = next_map d /\
      subpages d1 = subpages d /\ forall a, dispatch d1 !! a = if decide (dispatch_listener a = listener l) then taken d a <$> next_dispatch d !! a else dispatch d !! a)
      as (d1 & -> & En & Em & Es & H1).
    { assert (forall a, dispatch_listener a = listener l -> is_Some (next_dispatch d !! a)) as Hl by (intros a E; apply HL; rewrite E; left).
      destruct (listener l) as [b| | |p]; [|exists d; do 4 (split; [done|]); intros a; by rewrite decide_False..].
      destruct (Hl b eq_refl) as [e He]. cbn [exec_call]. unfold mem_commit. rewrite He. cbn [mbind option_bind]. eexists. do 4 (split; [done|]).
      intros a. simpl. destruct (decide (a = b)) as [->|].
      - by rewrite lookup_insert_eq, decide_True, He.
      - rewrite lookup_insert_ne, decide_False by congruence. done. }
    destruct (IH d1) as (d' & Hd' & En' & Em' & Es' & H').
    { intros a Ha. rewrite En. apply HL. by right. }
    exists d'. split; [done|]. do 3 (split; [congruence|]). intros a. rewrite H', H1, En. unfold taken. rewrite Em.
    destruct (decide (dispatch_listener a = listener l)) as [E|E].
    + rewrite (decide_True (P := _ ∈ _ :: _)) by (rewrite E; left). by case_decide.
    + apply decide_ext. rewrite elem_of_cons. tauto.
Qed.

(** A lookup of [x] in address space [a] finds [h]: the region, the offset in
    it and the read-only flag, or nothing. *)
Definition finds d a (x : Z) (h : option MemoryProps.hit) : Prop :=
  exists disp sec, dispatch d !! a = Some disp /\ address_space_lookup_region (subpages d) disp x true = Some sec /\
    match h with
    | Some (p, off, _, _, ro) => mr sec = Mr p /\ readonly sec = ro /\ forall region_size plen,
        exists len, address_space_translate_internal region_size (subpages d) disp x plen true = Some (sec, off, len)
    | None => sec = unassigned
    end.
Lemma built_finds d f a e x h : built d f -> next_dispatch d !! a = Some e -> is_u 40 x -> f a x = answer_of <$> h ->
  (forall p off mask romd ro, h = Some (p, off, mask, romd, ro) -> is_u 64 off) -> forall d', subpages d' = subpages d ->
  dispatch d' !! a = Some (taken d a e) -> finds d' a x h.
Proof.
  intros [M _] He Hx Hf Hoff d' Es Hd'. destruct (lookup_answer d f a e x M He Hx) as (s & Hs & Hm). fold (taken d a e) in Hs.
  exists (taken d a e), s. rewrite Es. split; [done|]. split; [done|]. rewrite Hf in Hm.
  destruct h as [[[[[p off] mask] romd] ro]|]; [|done]. cbn [fmap option_fmap option_map answer_of] in Hm. unfold target_of in Hm. injection Hm as Hp Ho Hr.
  split; [done|]. split; [done|]. intros region_size plen. unfold address_space_translate_internal. rewrite Hs. cbn [mbind option_bind]. eexists.
  do 2 f_equal. f_equal. specialize (Hoff _ _ _ _ _ eq_refl). unfold is_u, u64 in *. rewrite Zplus_mod_idemp_l. rewrite Z.mod_small; lia.
Qed.

(** The sections that the views of all address spaces take. *)
Definition total_demand n (h : Memory.heap) (l : list AddressSpace) : nat :=
  sum_list ((fun sp => default 0%nat (demand <$> space_topology n h sp)) <$> l).
Lemma commit_ok n s d rank :
  wired (memory_listeners s) (space <$> address_spaces s) -> NoDup (space <$> address_spaces s) ->
  (forall a, is_Some (next_dispatch d !! a) -> a ∈ space <$> address_spaces s) ->
  tree_ok (regions s) rank -> Forall (space_ok n (regions s) rank) (address_spaces s) ->
  (4 + total_demand n (regions s) (address_spaces s) <= 1024)%nat ->
  memory_region_transaction_depth s = 1%nat -> memory_region_update_pending s = true ->
  exists s' new d', memory_region_transaction_commit n s = Some s' /\ calls s' = calls s ++ new /\ exec_calls d new = Some d' /\
    forall sp x, sp ∈ address_spaces s -> is_u 40 x -> finds d' (space sp) x (tree_at n (regions s) sp x).
Proof.
  intros Hw Hnd Hd T Hok Hsum Hdepth Hpend. rewrite Forall_forall in Hok.
  destruct (begin_ok _ _ d Hw Hd) as (d1 & Hd1 & _ & Hmap & Hroots).
  assert (built d1 no_answers) as B1. { apply begun_built; [done|]. intros a e. rewrite Hroots. case_decide; [by intros [= <-]|done]. }
  unfold memory_region_transaction_commit. rewrite Hdepth. cbn [Nat.eqb andb]. simpl memory_region_update_pending. rewrite Hpend. cbn [andb].
  set (s1 := emit _ _).
  destruct (update_ok n s1 rank (memory_listeners s) (space <$> address_spaces s)) with (L := address_spaces s) (d := d1) (f := no_answers)
    as (L' & cs & d2 & f2 & Hup & Hex & B2 & K2 & _ & Hall); [done|done|exact T| |done|done| |].
  { intros sp Hsp. split; [by apply Hok|]. split; [by apply list_elem_of_fmap_2|]. split; [|done]. rewrite Hroots, decide_True; [done|]. by apply list_elem_of_fmap_2. }
  { rewrite Hmap. exact Hsum. }
  assert (forall a, a ∈ space <$> address_spaces s -> is_Some (next_dispatch d2 !! a)) as Hr2.
  { intros a Ha. apply K2. by rewrite Hroots, decide_True. }
  set (L := filter (fun l => has l cb_commit) (memory_listeners s)).
  destruct (commit_calls L d2) as (d3 & Hd3 & En & _ & Es & Hdis).
  { intros a (l & El & [_ Hl]%list_elem_of_filter)%list_elem_of_fmap. apply Hr2. by eapply wi_dispatch. }
  change (address_spaces s1) with (address_spaces s). rewrite Hup. cbn [mbind option_bind]. eexists _, _, d3. split; [reflexivity|].
  split; [simpl; rewrite <- !app_assoc; reflexivity|]. split; [rewrite !exec_app, Hd1; cbn [mbind option_bind]; rewrite exec_app, Hex; exact Hd3|].
  intros sp x Hsp Hx. assert (space sp ∈ space <$> address_spaces s) as Hin by by apply list_elem_of_fmap_2. destruct (Hr2 _ Hin) as [e He].
  eapply (built_finds d2 f2); [done|exact He|done|apply Hall; [done|unfold is_u in Hx; lia]| |done|].
  - intros p off mask romd ro Hh. unfold tree_at in Hh. destruct (Listeners.root sp) as [r|]; [|done].
    destruct (resolve_offset _ _ _ _ _ _ _ _ _ _ _ Hh) as (m & Hm & ?). pose proof (tr_size _ _ T _ _ Hm). unfold is_u, Memory.int128_2_64 in *. lia.
  - rewrite Hdis, decide_True, He; [done|]. destruct (list_elem_of_fmap_1 _ _ _ (wi_spaces _ _ Hw _ Hin)) as (l & El & Hl).
    rewrite El. apply list_elem_of_fmap_2, list_elem_of_filter. split; [|done]. destruct (wi_dispatch _ _ Hw (space sp) l Hl (eq_sym El)) as (_ & _ & ->). done.
Qed.
(** C6. The outermost transaction ends with an update pending.  The commit returns; the calls it makes to the listeners
    rebuild the page tables of exec.c without failing; and then each address below 2^40, of each address space, is
    looked up to the region, the offset and the read-only flag that the tree of memory regions gives it, or to
    nothing where the tree has nothing.  The state of exec.c before is arbitrary; the listeners are wired as exec.c
    registers them, the views end below 2^40 and need no more than the 1024 sections that there can be. *)
Theorem commit_dispatches n s d rank :
  wired (memory_listeners s) (space <$> address_spaces s) -> NoDup (space <$> address_spaces s) ->
  (forall a, is_Some (next_dispatch d !! a) -> a ∈ space <$> address_spaces s) ->
  tree_ok (regions s) rank -> Forall (space_ok n (regions s) rank) (address_spaces s) ->
  (4 + total_demand n (regions s) (address_spaces s) <= 1024)%nat ->
  memory_region_transaction_depth s = 1%nat -> memory_region_update_pending s = true ->
  exists s' new d', memory_region_transaction_commit n s = Some s' /\ calls s' = calls s ++ new /\ exec_calls d new = Some d' /\
    forall sp x, sp ∈ address_spaces s -> is_u 40 x -> finds d' (space sp) x (tree_at n (regions s) sp x).
Proof. apply commit_ok. Qed.

(** The board: its memory is one address space, whose first transaction ends. *)
Definition board_space : AddressSpace := mkSpace 1 (Some Board.system_memory) [] [].
Definition board_listeners : list MemoryListener :=
  [mkListener (dispatch_listener 1) dispatch_has 0 (Some 1%positive);
   mkListener core_memory_listener (fun cb => match cb with cb_begin | cb_commit | cb_log_global_start | cb_log_global_stop => true | _ => false end) 1 None].
Definition board_memory : memory := mkMemory Board.board (fun _ => []) [board_space] board_listeners 1 true false [].
Definition no_map : exec := mkExec (mkMap [] 0 []) ∅ ∅ [].

Lemma board_wired : wired board_listeners [1%positive].
Proof.
  split.
  - by apply (bool_decide_unpack _); vm_compute.
  - by apply (bool_decide_unpack _); vm_compute.
  - intros l [->|[->|?%not_elem_of_nil]%elem_of_cons]%elem_of_cons E; done.
  - intros a l [->|[->|?%not_elem_of_nil]%elem_of_cons]%elem_of_cons E; [injection E as <-; repeat split; left|done|done].
  - intros a ->%list_elem_of_singleton. left.
Qed.
Lemma board_tree : tree_ok Board.board Board.rank.
Proof.
  split; [|apply Board.board_ranked|].
  - intros p m Hm. by destruct (Board.board_sizes p m Hm).
  - intros p m Hm. by destruct (Board.board_sizes p m Hm).
Qed.
Lemma board_below : space_ok 4 Board.board Board.rank board_space.
Proof.
  split.
  - intros r [= <-]. split; [by apply (bool_decide_unpack _); vm_compute|]. by apply (bool_decide_unpack _); vm_compute.
  - intros x Hx. change (MemoryProps.resolve 4 Board.board Board.system_memory 0 false x = None). rewrite Board.board_resolves by lia.
    assert (Forall (fun fr => Memory.addrrange_end (Memory.addr fr) <= 2 ^ 40) Board.guest_map) as Hv by (apply (bool_decide_unpack _); by vm_compute).
    induction Hv as [|fr v Hfr _ IH]; [done|]. cbn [MemoryProps.view_at]. rewrite IH. unfold MemoryProps.range_at, Memory.addrrange_contains.
    destruct (Z.ltb_spec x (Memory.addrrange_end (Memory.addr fr))); [lia|]. by rewrite andb_false_r.
Qed.
(** The real-time timer's second register is found at its address. *)
Lemma commit_dispatches_witness : exists s' new d', memory_region_transaction_commit 4 board_memory = Some s' /\ calls s' = new /\
  exec_calls no_map new = Some d' /\ finds d' 1 0x400e1434 (MemoryProps.view_at Board.guest_map 0x400e1434).
Proof.
  destruct (commit_dispatches 4 board_memory no_map Board.rank) as (s' & new & d' & Hs & Hc & He & Hf).
  - exact board_wired.
  - by apply (bool_decide_unpack _); vm_compute.
  - intros a [e He]. done.
  - exact board_tree.
  - constructor; [exact board_below|constructor].
  - by apply (bool_decide_unpack _); vm_compute.
  - done.
  - done.
  - exists s', new, d'. split; [exact Hs|]. split; [exact Hc|]. split; [exact He|]. rewrite <- Board.board_resolves by lia.
    apply (Hf board_space); [left|]. unfold is_u. lia.
Defined.
End DispatchView.
