(* ===== verification/Access.v ===== *)
(** * Accesses to guest memory (exec.c)

    An access by a device or by the core is translated to a region and an
    offset in it.  RAM is read and written in its block of host memory; other
    regions get calls of their callbacks, as [Memory] dispatches them.  [None]
    is a call of [abort], or an access outside of a block of host memory.  Xen
    is not enabled, and the target is little-endian.  Flags of dirty pages and
    translated code are not here: [dirtied] lists the ranges that
    [invalidate_and_set_dirty] is called for. *)

From stdpp Require Import gmap list_numbers.
From S2P Require Import Prelude Memory Dispatch.

Module Access.
Import Dispatch.
#[local] Open Scope Z_scope.

(** ** Blocks of RAM *)

Record RAMBlock := mkBlock { offset : Z; host : list Z }.
#[export] Instance eta_block : RecEta RAMBlock := fun b => mkBlock (offset b) (host b).
Definition length_of (b : RAMBlock) : Z := Z.of_nat (length (host b)).
Record RAMList := mkRam { blocks : list RAMBlock; mru_block : option nat }.
#[export] Instance eta_ram : RecEta RAMList := fun r => mkRam (blocks r) (mru_block r).

Definition in_block (a : Z) (b : RAMBlock) : bool := u64 (a - offset b) <? length_of b.
Definition qemu_get_ram_block (r : RAMList) (a : Z) : option (RAMList * nat) :=
  let search := '(k, _) ← list_find (fun b => in_block a b) (blocks r); Some (r.[mru_block := Some k], k) in
  match k ← mru_block r; b ← blocks r !! k; Some (k, b) with
  | Some (k, b) => if in_block a b then Some (r, k) else search
  | None => search
  end.
(** The block, and the position in it. *)
Definition qemu_get_ram_ptr (r : RAMList) (a : Z) : option (RAMList * nat * Z) :=
  '(r, k) ← qemu_get_ram_block r a; b ← blocks r !! k; Some (r, k, u64 (a - offset b)).
(** [n] bytes of host memory at a position of a block. *)
Definition copy_from (r : RAMList) (k : nat) (i n : Z) : option (list Z) :=
  b ← blocks r !! k; if i + n <=? length_of b then Some (slice (host b) i n) else None.
Definition copy_to (r : RAMList) (k : nat) (i : Z) (src : list Z) : option RAMList :=
  b ← blocks r !! k;
  if i + Z.of_nat (length src) <=? length_of b then Some r.[blocks := <[k := b.[host := memcpy (host b) i src]]> (blocks r)] else None.
(** Host memory that is mapped. *)
Inductive host_ptr := bounce_buffer | host_at (k : nat) (i : Z).
(** The pointer, and the size that is left in its block. *)
Definition qemu_ram_ptr_length (r : RAMList) (a size : Z) : option (option host_ptr * Z) :=
  if size =? 0 then Some (None, size)
  else
    '(k, b) ← list_find (fun b => in_block a b) (blocks r);
    let i := u64 (a - offset b) in
    Some (Some (host_at k i), if length_of b <? u64 (i + size) then u64 (length_of b - i) else size).

(** ** Regions *)

Record IOMMUTLBEntry := mkIotlb { target_as : positive; translated_addr : Z; addr_mask : Z; perm : Z }.
(** What an access depends on in a region. *)
Record region_info := mkInfo {
  is_ram : bool; rom_device : bool; romd_mode : bool; info_readonly : bool; region_size : Z; ram_addr : Z;
  impl_unaligned : bool; iommu_translate : option (Z -> IOMMUTLBEntry)
}.
Definition memory_region_is_romd (i : region_info) : bool := rom_device i && romd_mode i.
Definition memory_access_is_direct (i : region_info) (is_write : bool) : bool :=
  if is_ram i then negb (is_write && info_readonly i)
  else if memory_region_is_romd i then negb is_write
  else false.
Definition memory_access_size (max_access_size : Z) (i : region_info) (l a : Z) : Z :=
  let access_size_max := if max_access_size =? 0 then 4 else max_access_size in
  let access_size_max :=
    if negb (impl_unaligned i) then
      let align_size_max := u32 (a .& u64 (- a)) in
      if negb (align_size_max =? 0) && (align_size_max <? access_size_max) then align_size_max else access_size_max
    else access_size_max in
  if access_size_max <? l then access_size_max else l.

Section Access.
(** The state of the devices, and their callbacks. *)
Context {D : Type} (info : region -> region_info) (ops : region -> Memory.MemoryRegionOps D).
Definition io_mem_read (d : D) (r : region) (a n : Z) : bool * Z * D := Memory.memory_region_dispatch_read (ops r) d a n.
Definition io_mem_write (d : D) (r : region) (a val n : Z) : bool * D := Memory.memory_region_dispatch_write (ops r) d a val n.

(** The single bounce buffer of [address_space_map], and the clients that wait
    for it. *)
Record BounceBuffer := mkBounce { buffer : list Z; b_addr : Z; b_len : Z; b_mr : region }.
Record phys := mkPhys {
  map : exec; ram : RAMList; devices : D; dirtied : list (Z * Z); bounce : option BounceBuffer;
  map_client_list : list positive; called_back : list positive }.
#[local] Instance eta_phys : RecEta phys := fun s => 
  mkPhys (map s) (ram s) (devices s) (dirtied s) (bounce s) (map_client_list s) (called_back s).
Implicit Types (s : phys) (space : positive).

(** ** Translation *)

(** [len] is the length so far; at most [fuel] IOMMUs are passed. *)
Fixpoint translate (fuel : nat) s space (a len plen : Z) (is_write : bool) : option (region * Z * Z) :=
  match fuel with
  | O => None
  | S fuel =>
      d ← dispatch (map s) !! space;
      '(sec, a, plen) ← address_space_translate_internal (fun r => region_size (info r)) (subpages (map s)) d a plen true;
      match iommu_translate (info (mr sec)) with
      | None => Some (mr sec, a, len)
      | Some tr =>
          let iotlb := tr a in
          let a := (translated_addr iotlb .& u64 (Z.lnot (addr_mask iotlb))) .| (a .& addr_mask iotlb) in
          let len := Z.min len (u64 ((a .| addr_mask iotlb) - a + 1)) in
          if negb (truth (perm iotlb .& (1 .<< b2z is_write))) then Some (io_mem_unassigned, a, len)
          else translate fuel s (target_as iotlb) a len plen is_write
      end
  end.
Context (iommus : nat).
(** The region, the offset in it, and the length. *)
Definition address_space_translate s space (a plen : Z) (is_write : bool) : option (region * Z * Z) :=
  translate (S iommus) s space a plen plen is_write.
Definition address_space_translate_for_iotlb s space (a plen : Z) : option (MemoryRegionSection * Z * Z) :=
  d ← dispatch (map s) !! space;
  '(sec, xlat, plen) ← address_space_translate_internal (fun r => region_size (info r)) (subpages (map s)) d a plen false;
  match iommu_translate (info (mr sec)) with None => Some (sec, xlat, plen) | Some _ => None end.

(** ** Reading and writing *)

Definition ldn_p (l : list Z) : Z := little_endian_to_Z 8 l.
Definition stn_p (n val : Z) : list Z := Z_to_little_endian n 8 val.
(** The value of an access to a device: [ldl_p] returns an [int]. *)
Definition io_val (l : list Z) : Z := if Z.of_nat (length l) =? 4 then u64 (s32 (ldn_p l)) else ldn_p l.
(** The sizes that an access to a device can have. *)
Definition io_size (l : Z) : bool := (l =? 8) || (l =? 4) || (l =? 2) || (l =? 1).
Definition invalidate_and_set_dirty s (a length : Z) : phys := s.[dirtied := dirtied s ++ [(a, length)]].
Definition ram_write s (a : Z) (src : list Z) : option phys :=
  '(r, k, i) ← qemu_get_ram_ptr (ram s) a;
  r ← copy_to r k i src;
  Some s.[ram := r].
Definition ram_read s (a n : Z) : option (list Z * phys) :=
  '(r, k, i) ← qemu_get_ram_ptr (ram s) a;
  l ← copy_from r k i n;
  Some (l, s.[ram := r]).

(** One round of a write: the bytes that it takes. *)
Definition write_round s space (a : Z) (buf : list Z) : option (Z * bool * phys) :=
  '(mr, addr1, l) ← address_space_translate s space a (Z.of_nat (length buf)) true;
  if negb (memory_access_is_direct (info mr) true) then
    let l := memory_access_size (Memory.valid_max (ops mr)) (info mr) l addr1 in
    if io_size l then
      let '(error, d) := io_mem_write (devices s) mr addr1 (io_val (take (Z.to_nat l) buf)) l in
      Some (l, error, s.[devices := d])
    else None
  else
    let addr1 := u64 (addr1 + ram_addr (info mr)) in
    s ← ram_write s addr1 (take (Z.to_nat l) buf);
    Some (l, false, invalidate_and_set_dirty s addr1 l).
Definition read_round s space (a len : Z) : option (list Z * bool * phys) :=
  '(mr, addr1, l) ← address_space_translate s space a len false;
  if negb (memory_access_is_direct (info mr) false) then
    let l := memory_access_size (Memory.valid_max (ops mr)) (info mr) l addr1 in
    if io_size l then
      let '(error, val, d) := io_mem_read (devices s) mr addr1 l in
      Some (stn_p l val, error, s.[devices := d])
    else None
  else
    '(l, s) ← ram_read s (u64 (ram_addr (info mr) + addr1)) l;
    Some (l, false, s).
Fixpoint write_loop (fuel : nat) s space (a : Z) (buf : list Z) : option (bool * phys) :=
  match buf, fuel with
  | [], _ => Some (false, s)
  | _, O => None
  | _, S fuel =>
      '(l, e, s) ← write_round s space a buf;
      '(e', s) ← write_loop fuel s space (u64 (a + l)) (drop (Z.to_nat l) buf);
      Some (e || e', s)
  end.
Fixpoint read_loop (fuel : nat) s space (a len : Z) : option (bool * list Z * phys) :=
  if len <=? 0 then Some (false, [], s)
  else
    match fuel with
    | O => None
    | S fuel =>
        '(l, e, s) ← read_round s space a len;
        '(e', l', s) ← read_loop fuel s space (u64 (a + Z.of_nat (length l))) (len - Z.of_nat (length l));
        Some (e || e', l ++ l', s)
    end.
(** [address_space_rw], which takes a byte at least in each round. *)
Definition address_space_write s space (a : Z) (buf : list Z) : option (bool * phys) := write_loop (length buf) s space a buf.
Definition address_space_read s space (a len : Z) : option (bool * list Z * phys) := read_loop (Z.to_nat len) s space a len.

Fixpoint rom_loop (fuel : nat) s space (a : Z) (buf : list Z) : option phys :=
  match buf, fuel with
  | [], _ => Some s
  | _, O => None
  | _, S fuel =>
      '(mr, addr1, l) ← address_space_translate s space a (Z.of_nat (length buf)) true;
      s ← (if negb (is_ram (info mr) || memory_region_is_romd (info mr)) then Some s
           else
             let addr1 := u64 (addr1 + ram_addr (info mr)) in
             s ← ram_write s addr1 (take (Z.to_nat l) buf); Some (invalidate_and_set_dirty s addr1 l));
      rom_loop fuel s space (u64 (a + l)) (drop (Z.to_nat l) buf)
  end.
Definition cpu_physical_memory_write_rom s space (a : Z) (buf : list Z) : option phys := rom_loop (length buf) s space a buf.

Fixpoint valid_loop (fuel : nat) s space (a len : Z) (is_write : bool) : option bool :=
  if len <=? 0 then Some true
  else
    match fuel with
    | O => None
    | S fuel =>
        '(mr, xlat, l) ← address_space_translate s space a len is_write;
        if negb (memory_access_is_direct (info mr) is_write) then
          let l := memory_access_size (Memory.valid_max (ops mr)) (info mr) l a in
          if negb (Memory.memory_region_access_valid (ops mr) (devices s) xlat l is_write) then Some false
          else valid_loop fuel s space (u64 (a + l)) (len - l) is_write
        else valid_loop fuel s space (u64 (a + l)) (len - l) is_write
    end.
Definition address_space_access_valid s space (a len : Z) (is_write : bool) : option bool := valid_loop (Z.to_nat len) s space a len is_write.

(** ** Mapping *)

(** The pages that follow in the same region, from [done] bytes on. *)
Fixpoint map_loop (fuel : nat) s space (m : region) (base a len l done : Z) (is_write : bool) : option Z :=
  let len := len - l in let a := u64 (a + l) in let done := done + l in
  if len =? 0 then Some done
  else
    match fuel with
    | O => None
    | S fuel =>
        '(this_mr, xlat, l) ← address_space_translate s space a len is_write;
        if negb (bool_decide (this_mr = m)) || negb (xlat =? u64 (base + done)) then Some done
        else map_loop fuel s space m base a len l done is_write
    end.
(** What the buffer holds at first is undefined in C; it is zero here. *)
Definition map_bounce s space (a l : Z) (m : region) (is_write : bool) : option phys :=
  let buf := replicate (Z.to_nat TARGET_PAGE_SIZE) 0 in
  if negb is_write then
    '(_, data, s) ← address_space_read s space a l;
    if Z.of_nat (length data) <=? TARGET_PAGE_SIZE then Some s.[bounce := Some (mkBounce (memcpy buf 0 data) a l m)] else None
  else Some s.[bounce := Some (mkBounce buf a l m)].
(** The pointer, or null, and the length. *)
Definition address_space_map s space (a plen : Z) (is_write : bool) : option (option host_ptr * Z * phys) :=
  if plen =? 0 then Some (None, plen, s)
  else
    '(m, xlat, l) ← address_space_translate s space a plen is_write;
    if negb (memory_access_is_direct (info m) is_write) then
      if bool_decide (is_Some (bounce s)) then Some (None, plen, s)
      else (fun s => (Some bounce_buffer, l, s)) <$> map_bounce s space a l m is_write
    else
      done ← map_loop (Z.to_nat plen) s space m xlat a plen l 0 is_write;
      '(p, size) ← qemu_ram_ptr_length (ram s) (u64 (ram_addr (info m) + xlat)) done;
      Some (p, size, s).

Definition cpu_register_map_client s (client : positive) : phys := s.[map_client_list := client :: map_client_list s].
Definition cpu_notify_map_clients s : phys := s.[called_back := called_back s ++ map_client_list s].[map_client_list := []].
Fixpoint dirty_loop (fuel : nat) s (addr1 access_len : Z) : phys :=
  match fuel with
  | O => s
  | S fuel =>
      if access_len =? 0 then s
      else
        let l := Z.min TARGET_PAGE_SIZE access_len in
        dirty_loop fuel (invalidate_and_set_dirty s addr1 l) (u64 (addr1 + l)) (access_len - l)
  end.
Definition address_space_unmap s space (p : host_ptr) (is_write : bool) (access_len : Z) : option phys :=
  match p with
  | host_at k i =>
      b ← blocks (ram s) !! k;
      Some (if is_write then dirty_loop (Z.to_nat access_len) s (u64 (offset b + i)) access_len else s)
  | bounce_buffer =>
      b ← bounce s;
      s ← (if is_write then '(_, s) ← address_space_write s space (b_addr b) (take (Z.to_nat access_len) (buffer b)); Some s else Some s);
      Some (cpu_notify_map_clients s.[bounce := None])
  end.

(** ** Words *)

(** The address space [address_space_memory], and whether memory is being
    migrated. *)
Context (address_space_memory : positive) (in_migration : bool).
Definition swap_for (endian : Memory.device_endian) (n val : Z) : Z :=
  match endian with Memory.DEVICE_BIG_ENDIAN => Memory.bswap (Z.to_nat n) val | _ => val end.
Definition ptr_order (endian : Memory.device_endian) (l : list Z) : list Z :=
  match endian with Memory.DEVICE_BIG_ENDIAN => reverse l | _ => l end.
Definition ldn_phys_internal (n : Z) s (a : Z) (endian : Memory.device_endian) : option (Z * phys) :=
  '(mr, addr1, l) ← address_space_translate s address_space_memory a n false;
  if (l <? n) || negb (memory_access_is_direct (info mr) false) then
    let '(_, val, d) := io_mem_read (devices s) mr addr1 n in
    Some (swap_for endian n val, s.[devices := d])
  else
    '(bytes, s) ← ram_read s (u64 ((ram_addr (info mr) .& TARGET_PAGE_MASK) + addr1)) n;
    Some (ldn_p (ptr_order endian bytes), s).
Definition stn_phys_internal (n : Z) s (a val : Z) (endian : Memory.device_endian) (notdirty : bool) : option phys :=
  '(mr, addr1, l) ← address_space_translate s address_space_memory a n true;
  if (l <? n) || negb (memory_access_is_direct (info mr) true) then
    let '(_, d) := io_mem_write (devices s) mr addr1 (swap_for endian n val) n in
    Some s.[devices := d]
  else
    let addr1 := u64 (addr1 + (ram_addr (info mr) .& TARGET_PAGE_MASK)) in
    s ← ram_write s addr1 (ptr_order endian (stn_p n val));
    Some (if notdirty then s else invalidate_and_set_dirty s addr1 n).
Definition ldl_phys_internal s (a : Z) (endian : Memory.device_endian) : option (Z * phys) :=
  '(val, s) ← ldn_phys_internal 4 s a endian; Some (u32 val, s).
Definition ldq_phys_internal s (a : Z) (endian : Memory.device_endian) : option (Z * phys) :=
  '(val, s) ← ldn_phys_internal 8 s a endian; Some (u64 val, s).
Definition lduw_phys_internal s (a : Z) (endian : Memory.device_endian) : option (Z * phys) :=
  '(val, s) ← ldn_phys_internal 2 s a endian; Some (u32 val, s).
Definition stl_phys_internal s (a val : Z) (endian : Memory.device_endian) : option phys := stn_phys_internal 4 s a (u32 val) endian false.
Definition stw_phys_internal s (a val : Z) (endian : Memory.device_endian) : option phys := stn_phys_internal 2 s a (u32 val) endian false.
Definition stl_phys_notdirty s (a val : Z) : option phys :=
  stn_phys_internal 4 s a (u32 val) Memory.DEVICE_NATIVE_ENDIAN (negb in_migration).
Definition ldub_phys s (a : Z) : option (Z * phys) :=
  '(_, l, s) ← address_space_read s address_space_memory a 1; val ← l !! 0%nat; Some (val, s).
Definition stb_phys s (a val : Z) : option phys :=
  '(_, s) ← address_space_write s address_space_memory a [u8 val]; Some s.
Definition stq_phys s (a val : Z) : option phys :=
  '(_, s) ← address_space_write s address_space_memory a (stn_p 8 (u64 val)); Some s.
End Access.
End Access.
