(* ===== verification/AccessProps.v ===== *)
(** * Guest RAM is an array of bytes (exec.c)

    A window of guest addresses that lookups find in one region of RAM is, for
    the accesses of devices and of the core, an array of bytes.  The core's
    words follow its laws, and so the theorems about exceptions hold of
    exec.c's memory.  Accesses that leave a region are not cut at its end;
    lemmas at the end of the file show what they do. *)

From stdpp Require Import gmap list_numbers.
From S2P Require Import Prelude Memory MemoryProps Cpu CpuProps Dispatch DispatchTree DispatchProps DispatchView Access.

Module AccessProps.
Import Dispatch DispatchView Access.
#[local] Open Scope Z_scope.

(** ** Parts of arrays *)

Lemma slice_slice l i n j m : 0 <= i -> 0 <= j -> 0 <= m -> j + m <= n -> slice (slice l i n) j m = slice l (i + j) m.
Proof.
  intros Hi Hj Hm Hn. unfold slice. rewrite skipn_firstn_comm, take_take, drop_drop. f_equal; [lia|]. f_equal. lia.
Qed.
Lemma slice_memcpy l i n j src : 0 <= i -> 0 <= j -> 0 <= n -> i + n <= Z.of_nat (length l) -> j + Z.of_nat (length src) <= n ->
  slice (memcpy l (i + j) src) i n = memcpy (slice l i n) j src.
Proof.
  intros Hi Hj Hn Hl Hs. assert (length (memcpy l (i + j) src) = length l) as Hm by (apply length_memcpy; lia).
  assert (length (slice l i n) = Z.to_nat n) as Hsl by (apply length_slice; lia).
  apply (aget_ext 0).
  - rewrite length_slice, length_memcpy; rewrite ?Hm, ?Hsl; lia.
  - intros x Hx. rewrite length_slice in Hx by (rewrite ?Hm; lia). rewrite aget_slice, !aget_memcpy, aget_slice by (rewrite ?Hsl; lia).
    replace (i + j <=? i + x) with (j <=? x) by lia. replace (i + x <? i + j + Z.of_nat (length src)) with (x <? j + Z.of_nat (length src)) by lia.
    destruct (_ && _); [f_equal; lia|done].
Qed.

Lemma slice_memcpy_same l x src n : 0 <= x -> n = Z.of_nat (length src) -> x + n <= Z.of_nat (length l) -> slice (memcpy l x src) x n = src.
Proof.
  intros Hx -> Hl. apply (aget_ext 0).
  - rewrite length_slice; rewrite ?length_memcpy; lia.
  - intros i Hi. rewrite length_slice in Hi by (rewrite ?length_memcpy; lia). rewrite aget_slice, aget_memcpy by lia.
    replace (_ && _) with true by lia. f_equal. lia.
Qed.
Lemma slice_memcpy_other l x src y n : 0 <= x -> 0 <= y -> 0 <= n -> x + Z.of_nat (length src) <= Z.of_nat (length l) -> y + n <= Z.of_nat (length l) ->
  y + n <= x \/ x + Z.of_nat (length src) <= y -> slice (memcpy l x src) y n = slice l y n.
Proof.
  intros Hx Hy Hn Hl Hyl Hd. assert (length (memcpy l x src) = length l) as Hm by (apply length_memcpy; lia). apply (aget_ext 0).
  - rewrite !length_slice; lia.
  - intros i Hi. rewrite length_slice in Hi by lia. rewrite !aget_slice, aget_memcpy by lia. destruct (_ && _) eqn:E; [lia|done].
Qed.

Section Window.
Context {D : Type} (info : region -> region_info) (ops : region -> Memory.MemoryRegionOps D).
Context (iommus : nat) (space : positive).
(** [size] guest addresses from [lo] are the bytes from [off] of region [p],
    and those from [q] of block [k]. *)
Context (lo size : Z) (p : Memory.ptr) (off : Z) (k : nat) (q : Z).
Implicit Types (s : @phys D).

Record window s : Prop := {
  wn_found a : lo <= a < lo + size -> exists mask romd ro, finds (map s) space a (Some (p, off + (a - lo), mask, romd, ro));
  wn_direct : is_ram (info (Mr p)) = true /\ info_readonly (info (Mr p)) = false /\ iommu_translate (info (Mr p)) = None;
  wn_range : 0 <= lo /\ lo + size <= 2 ^ 40 /\ 0 <= off /\ 0 <= ram_addr (info (Mr p)) /\ ram_addr (info (Mr p)) + off + size <= 2 ^ 63;
  wn_page : ram_addr (info (Mr p)) mod 1024 = 0;
  wn_block : exists b, blocks (ram s) !! k = Some b /\ 0 <= offset b /\ offset b + q = ram_addr (info (Mr p)) + off /\ 0 <= q /\ q + size <= length_of b;
  wn_alone j b x : blocks (ram s) !! j = Some b -> 0 <= x < size -> in_block (ram_addr (info (Mr p)) + off + x) b = true -> j = k
}.
Definition bytes s : list Z := match blocks (ram s) !! k with Some b => slice (host b) q size | None => [] end.

(** ** Host memory *)

Abbreviation ram_start := (ram_addr (info (Mr p)) + off).
Lemma window_block s x : window s -> 0 <= x < size ->
  exists r, qemu_get_ram_ptr (ram s) (ram_start + x) = Some (r, k, q + x) /\ blocks r = blocks (ram s).
Proof.
  intros W Hx. destruct (wn_block _ W) as (b & Hb & H0 & Hq & Hq0 & Hlen). destruct (wn_range _ W) as (_ & _ & Ho & Hr & Hmax).
  assert (u64 (ram_start + x - offset b) = q + x) as Hpos by (rewrite u64_small; [lia|unfold is_u; lia]).
  assert (in_block (ram_start + x) b = true) as Hin by (unfold in_block; rewrite Hpos; lia).
  assert (forall j c, blocks (ram s) !! j = Some c -> in_block (ram_start + x) c = true -> j = k) as Hone by (intros j c Hj Hc; by eapply (wn_alone _ W)).
  assert (exists r, qemu_get_ram_block (ram s) (ram_start + x) = Some (r, k) /\ blocks r = blocks (ram s)) as (r & Hr1 & Hr2).
  { unfold qemu_get_ram_block.
    assert (exists c, list_find (fun b => in_block (ram_start + x) b) (blocks (ram s)) = Some (k, c)) as [c Hc].
    { destruct (list_find_elem_of (fun b => in_block (ram_start + x) b) (blocks (ram s)) b) as [[j c] Hc]; [by eapply list_elem_of_lookup_2|by rewrite Hin|].
      exists c. rewrite Hc. apply list_find_Some in Hc as (Hj & Hc & _). apply Is_true_true in Hc. by rewrite (Hone j c Hj Hc). }
    rewrite Hc. cbn [mbind option_bind]. destruct (mru_block (ram s)) as [j|]; cbn [mbind option_bind]; [|eexists; by split].
    destruct (blocks (ram s) !! j) as [bj|] eqn:Ej; cbn [mbind option_bind]; [|eexists; by split].
    destruct (in_block (ram_start + x) bj) eqn:Ein; [|eexists; by split]. exists (ram s). by rewrite (Hone j bj Ej Ein). }
  exists r. split; [|done]. unfold qemu_get_ram_ptr. rewrite Hr1. cbn [mbind option_bind]. rewrite Hr2, Hb. cbn [mbind option_bind]. by rewrite Hpos.
Qed.
(** Another state with the same map, and blocks of the same sizes. *)
Definition alike s s' : Prop := map s' = map s /\
  forall j, (fun b => (offset b, length_of b)) <$> blocks (ram s') !! j = (fun b => (offset b, length_of b)) <$> blocks (ram s) !! j.
Lemma window_alike s s' : window s -> alike s s' -> window s'.
Proof.
  intros [W1 W2 W3 W4 (b & Hb & W5) W6] [Em Eb].
  assert (forall j b', blocks (ram s') !! j = Some b' -> exists b0, blocks (ram s) !! j = Some b0 /\ offset b0 = offset b' /\ length_of b0 = length_of b') as Hold.
  { intros j b' Hj. specialize (Eb j). rewrite Hj in Eb. destruct (blocks (ram s) !! j) as [b0|]; [|done]. injection Eb as -> ->. eauto. }
  split; [by rewrite Em|done|done|done| |].
  - specialize (Eb k). rewrite Hb in Eb. destruct (blocks (ram s') !! k) as [b'|]; [|done]. injection Eb as E1 E2. exists b'. split; [done|]. by rewrite E1, E2.
  - intros j b' x Hj Hx Hin. destruct (Hold j b' Hj) as (b0 & Hj0 & E1 & E2). apply (W6 j b0 x); [done|done|]. unfold in_block in *. by rewrite E1, E2.
Qed.
Lemma window_read s x n : window s -> 0 <= x -> 0 < n -> x + n <= size ->
  exists s', ram_read s (ram_start + x) n = Some (slice (bytes s) x n, s') /\ alike s s' /\ bytes s' = bytes s.
Proof.
  intros W Hx Hn Hend. destruct (window_block s x W) as (r & Hr & Hbl); [lia|].
  destruct (wn_block _ W) as (b & Hb & H0 & Hq & Hq0 & Hlen). unfold ram_read. rewrite Hr. cbn [mbind option_bind]. unfold copy_from. rewrite Hbl, Hb.
  cbn [mbind option_bind]. destruct (Z.leb_spec (q + x + n) (length_of b)); [|lia]. cbn [mbind option_bind]. eexists. split; [|split].
  - unfold bytes. rewrite Hb, slice_slice by lia. reflexivity.
  - split; [done|]. intros j. simpl. by rewrite Hbl.
  - unfold bytes. simpl. by rewrite Hbl.
Qed.
Lemma window_write s x src : window s -> 0 <= x < size -> x + Z.of_nat (length src) <= size ->
  exists s', ram_write s (ram_start + x) src = Some s' /\ alike s s' /\ bytes s' = memcpy (bytes s) x src.
Proof.
  intros W Hx Hend. destruct (window_block s x W) as (r & Hr & Hbl); [lia|].
  destruct (wn_block _ W) as (b & Hb & H0 & Hq & Hq0 & Hlen). unfold ram_write. rewrite Hr. cbn [mbind option_bind]. unfold copy_to. rewrite Hbl, Hb.
  cbn [mbind option_bind]. destruct (Z.leb_spec (q + x + Z.of_nat (length src)) (length_of b)); [|lia]. cbn [mbind option_bind]. eexists. split; [done|].
  unfold length_of in *. assert (k < length (blocks (ram s)))%nat as Hk by by apply lookup_lt_Some in Hb. split.
  - split; [done|]. intros j. simpl. destruct (decide (j = k)) as [->|]; [|by rewrite list_lookup_insert_ne].
    rewrite list_lookup_insert_eq, Hb by done. cbn [fmap option_fmap option_map]. unfold length_of. simpl. rewrite length_memcpy by lia. done.
  - unfold bytes. simpl. rewrite list_lookup_insert_eq, Hb by done. simpl. apply slice_memcpy; lia.
Qed.

(** ** Accesses *)

Lemma finds_translate s a plen w r o mask romd ro : finds (map s) space a (Some (r, o, mask, romd, ro)) -> iommu_translate (info (Mr r)) = None ->
  address_space_translate info iommus s space a plen w = Some (Mr r, o, plen).
Proof.
  intros (disp & sec & Hd & _ & Hm & _ & Ht) Hio. destruct (Ht (fun r => region_size (info r)) plen) as [len Hlen].
  unfold address_space_translate. cbn [translate]. rewrite Hd. cbn [mbind option_bind]. rewrite Hlen. cbn [mbind option_bind]. by rewrite Hm, Hio.
Qed.
Lemma window_translate s a plen w : window s -> lo <= a < lo + size ->
  address_space_translate info iommus s space a plen w = Some (Mr p, off + (a - lo), plen).
Proof. intros W Ha. destruct (wn_found _ W a Ha) as (mask & romd & ro & Hf). eapply finds_translate; [exact Hf|apply (wn_direct _ W)]. Qed.
Lemma window_is_direct s w : window s -> memory_access_is_direct (info (Mr p)) w = true.
Proof. intros W. destruct (wn_direct _ W) as (H1 & H2 & _). unfold memory_access_is_direct. rewrite H1, H2. by destruct w. Qed.
Lemma window_host s x : window s -> 0 <= x < size -> u64 (off + x + ram_addr (info (Mr p))) = ram_start + x.
Proof. intros W Hx. destruct (wn_range _ W) as (_ & _ & ? & ? & ?). rewrite u64_small; [lia|unfold is_u; lia]. Qed.
Lemma alike_trans s s1 s2 : alike s s1 -> alike s1 s2 -> alike s s2.
Proof. intros [E1 B1] [E2 B2]. split; [congruence|]. intros j. by rewrite B2. Qed.

Lemma write_loop_nil fuel s a : write_loop info ops iommus fuel s space a [] = Some (false, s).
Proof. by destruct fuel. Qed.
Lemma write_ok s x buf : window s -> 0 <= x -> x + Z.of_nat (length buf) <= size ->
  exists s', address_space_write info ops iommus s space (lo + x) buf = Some (false, s') /\ alike s s' /\ bytes s' = memcpy (bytes s) x buf.
Proof.
  intros W Hx Hend. destruct buf as [|c buf]; [|].
  { exists s. split; [done|]. split; [done|]. unfold memcpy. simpl. rewrite Nat.add_0_r, take_drop. done. }
  set (src := c :: buf) in *. assert (0 < Z.of_nat (length src)) as Hpos by (simpl; lia).
  destruct (window_write s x src W) as (s1 & Hs1 & Ha & Hb); [lia|done|].
  exists (invalidate_and_set_dirty s1 (ram_start + x) (Z.of_nat (length src))). split; [|done].
  unfold address_space_write. change (length src) with (S (length buf)). unfold src at 1. cbn [write_loop]. fold src.
  unfold write_round. rewrite window_translate by (done || lia). cbn [mbind option_bind]. rewrite (window_is_direct s) by done. cbn [negb].
  replace (off + (lo + x - lo)) with (off + x) by lia. rewrite (window_host s) by (done || lia).
  rewrite Nat2Z.id, take_ge by done. rewrite Hs1. cbn [mbind option_bind]. rewrite drop_ge, write_loop_nil by lia. done.
Qed.
Lemma read_loop_nil fuel s a : read_loop info ops iommus fuel s space a 0 = Some (false, [], s).
Proof. by destruct fuel. Qed.
Lemma read_ok s x n : window s -> 0 <= x -> 0 <= n -> x + n <= size ->
  exists s', address_space_read info ops iommus s space (lo + x) n = Some (false, slice (bytes s) x n, s') /\ alike s s' /\ bytes s' = bytes s.
Proof.
  intros W Hx Hn Hend. destruct (decide (n = 0)) as [->|Hnz]; [by exists s|].
  destruct (window_read s x n W) as (s1 & Hs1 & Ha & Hb); [lia..|]. exists s1. split; [|done].
  unfold address_space_read. destruct (Z.to_nat n) as [|m] eqn:En; [lia|]. cbn [read_loop]. destruct (Z.leb_spec n 0); [lia|].
  unfold read_round. rewrite window_translate by (done || lia). cbn [mbind option_bind]. rewrite (window_is_direct s) by done. cbn [negb].
  replace (ram_addr (info (Mr p)) + (off + (lo + x - lo))) with (off + x + ram_addr (info (Mr p))) by lia. rewrite (window_host s) by (done || lia).
  rewrite Hs1. cbn [mbind option_bind]. assert (Z.of_nat (length (slice (bytes s) x n)) = n) as Hlen.
  { destruct (wn_block _ W) as (b & Hbk & ? & ? & ? & Hlb). unfold bytes. rewrite Hbk. unfold length_of in Hlb.
    rewrite length_slice; [lia|lia|lia|]. rewrite length_slice; lia. }
  rewrite Hlen, Z.sub_diag, read_loop_nil. cbn [mbind option_bind]. by rewrite app_nil_r.
Qed.

(** C9. A window of guest addresses that lookups find in one region of RAM is an array of bytes.  A write of any length
    anywhere in it returns without an error, a read of any length after it returns the bytes of the array with the
    written ones in their place, and the window stays one. *)
Theorem guest_ram_bytes s x buf y n : window s -> 0 <= x -> x + Z.of_nat (length buf) <= size -> 0 <= y -> 0 <= n -> y + n <= size ->
  exists s1 s2, address_space_write info ops iommus s space (lo + x) buf = Some (false, s1) /\
    address_space_read info ops iommus s1 space (lo + y) n = Some (false, slice (memcpy (bytes s) x buf) y n, s2) /\
    window s2 /\ bytes s2 = memcpy (bytes s) x buf.
Proof.
  intros W Hx Hl Hy Hn Hend. destruct (write_ok s x buf W Hx Hl) as (s1 & Hs1 & A1 & B1). pose proof (window_alike s s1 W A1) as W1.
  destruct (read_ok s1 y n W1 Hy Hn Hend) as (s2 & Hs2 & A2 & B2). exists s1, s2. rewrite B1 in *. split; [done|]. split; [done|].
  split; [by apply (window_alike s1)|done].
Qed.

(** ** Words *)

Lemma page_aligned_base s : window s -> ram_addr (info (Mr p)) .& TARGET_PAGE_MASK = ram_addr (info (Mr p)).
Proof. intros W. rewrite DispatchProps.page_base. pose proof (wn_page _ W). Z.div_mod_to_equations; lia. Qed.
Lemma ldn_ok n s x : window s -> 0 <= x -> 0 < n -> x + n <= size ->
  exists s', ldn_phys_internal info ops iommus space n s (lo + x) Memory.DEVICE_NATIVE_ENDIAN = Some (ldn_p (slice (bytes s) x n), s') /\
    alike s s' /\ bytes s' = bytes s.
Proof.
  intros W Hx Hn Hend. destruct (window_read s x n W) as (s1 & Hs1 & Ha & Hb); [lia..|]. exists s1. split; [|done].
  unfold ldn_phys_internal. rewrite window_translate by (done || lia). cbn [mbind option_bind]. rewrite (window_is_direct s), Z.ltb_irrefl by done. cbn [negb orb].
  rewrite (page_aligned_base s) by done. replace (ram_addr (info (Mr p)) + (off + (lo + x - lo))) with (off + x + ram_addr (info (Mr p))) by lia.
  rewrite (window_host s) by (done || lia). by rewrite Hs1.
Qed.
Lemma stn_ok n s x val : window s -> 0 <= x -> 0 < n -> x + n <= size ->
  exists s', stn_phys_internal info ops iommus space n s (lo + x) val Memory.DEVICE_NATIVE_ENDIAN false = Some s' /\
    alike s s' /\ bytes s' = memcpy (bytes s) x (stn_p n val).
Proof.
  intros W Hx Hn Hend. assert (Z.of_nat (length (stn_p n val)) = n) as Hlen by (unfold stn_p; rewrite length_Z_to_little_endian; lia).
  destruct (window_write s x (stn_p n val) W) as (s1 & Hs1 & Ha & Hb); [lia..|].
  exists (invalidate_and_set_dirty s1 (ram_start + x) n). split; [|split; [exact Ha|exact Hb]].
  unfold stn_phys_internal. rewrite window_translate by (done || lia). cbn [mbind option_bind]. rewrite (window_is_direct s), Z.ltb_irrefl by done. cbn [negb orb].
  rewrite (page_aligned_base s) by done. replace (off + (lo + x - lo) + ram_addr (info (Mr p))) with (off + x + ram_addr (info (Mr p))) by lia.
  rewrite (window_host s) by (done || lia). cbn [ptr_order]. rewrite Hs1. cbn [mbind option_bind]. reflexivity.
Qed.

Lemma bytes_length s : window s -> 0 <= size -> length (bytes s) = Z.to_nat size.
Proof. intros W Hs. destruct (wn_block _ W) as (b & Hb & _ & _ & Hq & Hl). unfold bytes. rewrite Hb. apply length_slice; [done|done|exact Hl]. Qed.
(** A store, and loads of the same and of other words afterwards. *)
Lemma ram_words_ok s x v : window s -> 0 <= x -> x + 4 <= size ->
  exists s', stl_phys_internal info ops iommus space s (lo + x) v Memory.DEVICE_NATIVE_ENDIAN = Some s' /\ window s' /\
    (exists s2, ldl_phys_internal info ops iommus space s' (lo + x) Memory.DEVICE_NATIVE_ENDIAN = Some (u32 v, s2)) /\
    forall y, 0 <= y -> y + 4 <= size -> y + 4 <= x \/ x + 4 <= y -> exists w s1 s2,
      ldl_phys_internal info ops iommus space s (lo + y) Memory.DEVICE_NATIVE_ENDIAN = Some (w, s1) /\
      ldl_phys_internal info ops iommus space s' (lo + y) Memory.DEVICE_NATIVE_ENDIAN = Some (w, s2).
Proof.
  intros W Hx Hend. destruct (stn_ok 4 s x (u32 v) W Hx ltac:(lia) Hend) as (s' & Hs' & A & B). pose proof (window_alike s s' W A) as W'.
  assert (length (stn_p 4 (u32 v)) = 4%nat) as Hlen by (apply Nat2Z.inj; unfold stn_p; by rewrite length_Z_to_little_endian).
  pose proof (bytes_length s W ltac:(lia)) as Hbl. exists s'. split; [exact Hs'|]. split; [done|]. split.
  - destruct (ldn_ok 4 s' x W' Hx ltac:(lia) Hend) as (s2 & Hs2 & _). exists s2. unfold ldl_phys_internal. rewrite Hs2, B. cbn [mbind option_bind].
    rewrite slice_memcpy_same by lia. unfold ldn_p, stn_p. rewrite little_endian_to_Z_to_little_endian by lia.
    change (2 ^ (4 * 8)) with (2 ^ 32). fold (u32 (u32 v)). by rewrite !u32_u32.
  - intros y Hy Hyend Hd. destruct (ldn_ok 4 s y W Hy ltac:(lia) Hyend) as (s1 & Hs1 & _). destruct (ldn_ok 4 s' y W' Hy ltac:(lia) Hyend) as (s2 & Hs2 & _).
    exists (u32 (ldn_p (slice (bytes s) y 4))), s1, s2. unfold ldl_phys_internal. rewrite Hs1, Hs2, B. cbn [mbind option_bind]. split; [done|].
    rewrite slice_memcpy_other by lia. done.
Qed.

(** No store changes the layout of memory, so exec.c's memory is one for the
    core. *)
Lemma copy_alike s r j i src r' : blocks r = blocks (ram s) -> copy_to r j i src = Some r' -> 0 <= i -> alike s (mkPhys (map s) r' (devices s) (dirtied s) (bounce s) (map_client_list s) (called_back s)).
Proof.
  intros Hbl H Hi. unfold copy_to in H. apply bind_Some in H as (b & Hb & H). destruct (Z.leb_spec (i + Z.of_nat (length src)) (length_of b)); [|done]. injection H as <-.
  split; [done|]. intros j'. simpl. rewrite Hbl in *. destruct (decide (j' = j)) as [->|]; [|by rewrite list_lookup_insert_ne].
  rewrite list_lookup_insert_eq, Hb by by apply lookup_lt_Some in Hb. unfold length_of in *. simpl. by rewrite length_memcpy.
Qed.
Lemma get_ptr_blocks r a r' j i : qemu_get_ram_ptr r a = Some (r', j, i) -> blocks r' = blocks r /\ 0 <= i.
Proof.
  unfold qemu_get_ram_ptr. intros H. apply bind_Some in H as ([r1 j1] & H1 & H). apply bind_Some in H as (b & _ & [= <- <- <-]).
  split; [|apply is_u_u64]. unfold qemu_get_ram_block in H1.
  destruct (_ ≫= _) as [[j2 b2]|] in H1; [destruct (in_block a b2); [by injection H1 as <- <-|]|]; apply bind_Some in H1 as ([j3 b3] & _ & [= <- <-]); done.
Qed.
Lemma stl_alike s a v s' : stl_phys_internal info ops iommus space s a v Memory.DEVICE_NATIVE_ENDIAN = Some s' -> alike s s'.
Proof.
  unfold stl_phys_internal, stn_phys_internal. intros H. apply bind_Some in H as ([[r addr1] l] & _ & H). destruct (_ || _).
  - destruct (io_mem_write _ _ _ _ _ _) as [e d]. by injection H as <-.
  - apply bind_Some in H as (s1 & Hw & [= <-]). unfold ram_write in Hw. apply bind_Some in Hw as ([[r1 j] i] & Hp & Hw). apply bind_Some in Hw as (r2 & Hc & [= <-]).
    destruct (get_ptr_blocks _ _ _ _ _ Hp) as [Hbl Hi]. exact (copy_alike s r1 j i _ r2 Hbl Hc Hi).
Qed.
Definition core_memory : Type := { s | window s }.
Definition core_ldl (m : core_memory) (a : Z) : Z :=
  match ldl_phys_internal info ops iommus space (`m) a Memory.DEVICE_NATIVE_ENDIAN with Some (w, _) => w | None => 0 end.
Definition core_stl (m : core_memory) (a v : Z) : core_memory :=
  match stl_phys_internal info ops iommus space (`m) a v Memory.DEVICE_NATIVE_ENDIAN as o
    return stl_phys_internal info ops iommus space (`m) a v Memory.DEVICE_NATIVE_ENDIAN = o -> core_memory with
  | Some s' => fun E => exist _ s' (window_alike _ _ (proj2_sig m) (stl_alike _ _ _ _ E))
  | None => fun _ => m
  end eq_refl.
#[export] Instance core_phys : Cpu.PhysMem core_memory := {| Cpu.ldl_phys := core_ldl; Cpu.stl_phys := core_stl |}.
Definition core_word (a : Z) : Prop := lo <= a /\ a + 4 <= lo + size /\ (a - lo) mod 4 = 0.
Lemma core_stl_some (m : core_memory) a v s' : stl_phys_internal info ops iommus space (`m) a v Memory.DEVICE_NATIVE_ENDIAN = Some s' -> proj1_sig (core_stl m a v) = s'.
Proof.
  intros E. unfold core_stl. generalize (stl_alike (`m) a v). rewrite E. done.
Qed.
#[export] Instance core_laws : CpuProps.RamLaws core_memory core_word.
Proof.
  split.
  - intros m a v (H1 & H2 & _). destruct (ram_words_ok (`m) (a - lo) v (proj2_sig m)) as (s' & Hs' & _ & (s2 & H) & _); [lia|lia|].
    replace (lo + (a - lo)) with a in * by lia. cbn [Cpu.ldl_phys Cpu.stl_phys core_phys]. unfold core_ldl. rewrite (core_stl_some _ _ _ _ Hs'). by rewrite H.
  - intros m a b v (H1 & H2 & H3) (H4 & H5 & H6) Hne. destruct (ram_words_ok (`m) (a - lo) v (proj2_sig m)) as (s' & Hs' & _ & _ & Ho); [lia|lia|].
    destruct (Ho (b - lo)) as (w & s1 & s2 & Hw1 & Hw2); [lia|lia|Z.div_mod_to_equations; lia|].
    replace (lo + (a - lo)) with a in * by lia. replace (lo + (b - lo)) with b in * by lia. cbn [Cpu.ldl_phys Cpu.stl_phys core_phys]. unfold core_ldl.
    rewrite (core_stl_some _ _ _ _ Hs'). by rewrite Hw1, Hw2.
Qed.
(** An access that starts in the window, the last part of its block, and ends
    behind it is not cut: it leaves the host memory of the block. *)
Lemma write_past_end s x buf : window s -> 0 <= x < size -> (forall b, blocks (ram s) !! k = Some b -> length_of b = q + size) ->
  size < x + Z.of_nat (length buf) -> address_space_write info ops iommus s space (lo + x) buf = None.
Proof.
  intros W Hx Hend Hl. destruct buf as [|c buf]; [simpl in *; lia|]. set (src := c :: buf) in *.
  unfold address_space_write. change (length src) with (S (length buf)). unfold src at 1. cbn [write_loop]. fold src.
  unfold write_round. rewrite window_translate by (done || lia). cbn [mbind option_bind]. rewrite (window_is_direct s) by done. cbn [negb].
  replace (off + (lo + x - lo)) with (off + x) by lia. rewrite (window_host s) by (done || lia). rewrite Nat2Z.id, take_ge by done.
  unfold ram_write. destruct (window_block s x W Hx) as (r & -> & Hbl). cbn [mbind option_bind]. unfold copy_to.
  destruct (wn_block _ W) as (b & Hb & _). rewrite Hbl, Hb. cbn [mbind option_bind]. rewrite (Hend b Hb).
  by destruct (Z.leb_spec (q + x + Z.of_nat (length src)) (q + size)); [lia|].
Qed.
End Window.

(** Without an IOMMU the length of an access is never cut, whatever
    [address_space_translate_internal] returns. *)
Lemma translate_keeps_length {D} info iommus (s : @phys D) space a plen w m xlat l :
  (forall r, iommu_translate (info r) = None) -> address_space_translate info iommus s space a plen w = Some (m, xlat, l) -> l = plen.
Proof.
  intros Hio H. unfold address_space_translate in H. cbn [translate] in H. apply bind_Some in H as (d & _ & H).
  apply bind_Some in H as ([[sec b] pl] & _ & H). rewrite Hio in H. by injection H.
Qed.
End AccessProps.
