(* ===== verification/RamAlloc.v ===== *)
(** * Allocation of guest RAM (exec.c)

    Blocks of RAM get parts of one space of offsets: the smallest gap behind a
    block that is large enough.  Whatever is allocated and freed, the blocks
    stay apart, so that an offset has one block, and the block used last, which
    is tried first, is only a shortcut.  Memory comes from the host as zeros
    ([qemu_anon_ram_alloc]); memory from files, Xen and KVM, the advice given to
    the host and the dirty flags of the new pages are left out. *)

From stdpp Require Import relations sorting.
From S2P Require Import Prelude Memory Dispatch DispatchProps DispatchView Access AccessProps.

Module RamAlloc.
Import Dispatch Access.
#[local] Open Scope Z_scope.

Definition RAM_ADDR_MAX : Z := 2 ^ 64 - 1.
(** The first block from [e] on. *)
Definition next_offset (bs : list RAMBlock) (e : Z) : Z :=
  foldl (fun next b => if e <=? offset b then Z.min next (offset b) else next) RAM_ADDR_MAX bs.
Definition best_gap (bs : list RAMBlock) (size : Z) (best : Z * Z) (b : RAMBlock) : Z * Z :=
  let '(o, mingap) := best in
  let e := u64 (offset b + length_of b) in
  let gap := u64 (next_offset bs e - e) in
  if (size <=? gap) && (gap <? mingap) then (e, gap) else (o, mingap).
Definition find_ram_offset (bs : list RAMBlock) (size : Z) : option Z :=
  if size =? 0 then None
  else
    match bs with
    | [] => Some 0
    | _ => let '(o, _) := foldl (best_gap bs size) (RAM_ADDR_MAX, RAM_ADDR_MAX) bs in if o =? RAM_ADDR_MAX then None else Some o
    end.
(** The list is sorted from the biggest block to the smallest. *)
Fixpoint insert_block (b : RAMBlock) (bs : list RAMBlock) : list RAMBlock :=
  match bs with [] => [b] | c :: bs' => if length_of c <? length_of b then b :: bs else c :: insert_block b bs' end.
(** The new list and the offset; the memory of the host is zero. *)
Definition qemu_ram_alloc (r : RAMList) (size : Z) : option (RAMList * Z) :=
  let size := TARGET_PAGE_ALIGN size in
  o ← find_ram_offset (blocks r) size;
  Some (mkRam (insert_block (mkBlock o (replicate (Z.to_nat size) 0)) (blocks r)) None, o).
Fixpoint remove_block (a : Z) (bs : list RAMBlock) : option (list RAMBlock) :=
  match bs with [] => None | b :: bs => if a =? offset b then Some bs else bs ← remove_block a bs; Some (b :: bs) end.
Definition qemu_ram_free (r : RAMList) (a : Z) : RAMList :=
  match remove_block a (blocks r) with Some bs => mkRam bs None | None => r end.

(** ** The blocks *)

Abbreviation end_of b := (offset b + length_of b).
Definition in_space (b : RAMBlock) : Prop := 0 <= offset b /\ 0 < length_of b /\ end_of b <= RAM_ADDR_MAX.
Definition apart (b c : RAMBlock) : Prop := end_of b <= offset c \/ end_of c <= offset b.
Definition bigger (b c : RAMBlock) : Prop := length_of c <= length_of b.
Record ram_wf (r : RAMList) : Prop := {
  rw_space : Forall in_space (blocks r);
  rw_apart : ForallOrdPairs apart (blocks r);
  rw_sorted : StronglySorted bigger (blocks r);
  rw_mru k : mru_block r = Some k -> is_Some (blocks r !! k)
}.
Inductive step : RAMList -> RAMList -> Prop :=
| step_alloc r size r' o : qemu_ram_alloc r size = Some (r', o) -> step r r'
| step_free r a : step r (qemu_ram_free r a)
| step_use r a r' k : qemu_get_ram_block r a = Some (r', k) -> step r r'
| step_write r k i src r' : 0 <= i -> copy_to r k i src = Some r' -> step r r'.

Lemma holds_offset a b : in_space b -> is_u 64 a -> in_block a b = bool_decide (offset b <= a < end_of b).
Proof.
  intros (H1 & H2 & H3) Ha. unfold in_block, is_u, RAM_ADDR_MAX in *. case_bool_decide as E.
  - rewrite u64_small by (unfold is_u; lia). lia.
  - destruct (decide (offset b <= a)); [rewrite u64_small by (unfold is_u; lia); lia|].
    replace (u64 (a - offset b)) with (a - offset b + 2 ^ 64); [lia|]. unfold u64. rewrite <- (Z.mod_add _ 1) by done. rewrite Z.mod_small; lia.
Qed.
Lemma next_spec bs e : e <= RAM_ADDR_MAX -> e <= next_offset bs e <= RAM_ADDR_MAX /\ forall c, c ∈ bs -> e <= offset c -> next_offset bs e <= offset c.
Proof.
  intros He. unfold next_offset.
  assert (forall m, e <= m -> m <= RAM_ADDR_MAX -> let n := foldl (fun next b => if e <=? offset b then Z.min next (offset b) else next) m bs in
    e <= n <= m /\ forall c, c ∈ bs -> e <= offset c -> n <= offset c) as H; [|by apply H].
  induction bs as [|b bs IH]; intros m Hm Hmax; cbn.
  - split; [lia|]. by intros c ?%not_elem_of_nil.
  - destruct (Z.leb_spec e (offset b)).
    + destruct (IH (Z.min m (offset b))) as [Hr Hall]; [lia..|]. split; [lia|]. intros c [->|Hc]%elem_of_cons He'; [lia|]. by apply Hall.
    + destruct (IH m) as [Hr Hall]; [lia..|]. split; [lia|]. intros c [->|Hc]%elem_of_cons He'; [lia|]. by apply Hall.
Qed.
Definition gap_of (bs : list RAMBlock) (b : RAMBlock) : Z := next_offset bs (end_of b) - end_of b.
Lemma gap_step bs size o m b : in_space b -> best_gap bs size (o, m) b = if (size <=? gap_of bs b) && (gap_of bs b <? m) then (end_of b, gap_of bs b) else (o, m).
Proof.
  intros (H1 & H2 & H3). destruct (next_spec bs (end_of b) H3) as [Hn _]. unfold best_gap, gap_of, RAM_ADDR_MAX in *.
  rewrite (u64_small (end_of b)) by (unfold is_u; lia). by rewrite u64_small by (unfold is_u; lia).
Qed.
(** The best of the gaps behind the blocks of [l]. *)
Lemma best_spec bs size l : 0 < size -> Forall in_space l ->
  let best := foldl (best_gap bs size) (RAM_ADDR_MAX, RAM_ADDR_MAX) l in
  best = (RAM_ADDR_MAX, RAM_ADDR_MAX) /\ (forall c, c ∈ l -> gap_of bs c < size) \/
  exists b, b ∈ l /\ best = (end_of b, gap_of bs b) /\ size <= gap_of bs b /\ forall c, c ∈ l -> size <= gap_of bs c -> gap_of bs b <= gap_of bs c.
Proof.
  intros Hs Hl. induction l as [|b l IH] using rev_ind; cbn zeta.
  { left. split; [done|]. by intros c ?%not_elem_of_nil. }
  apply Forall_app in Hl as [Hl Hb]. inversion Hb as [|? ? Hb1 _]; subst; clear Hb; rename Hb1 into Hb. destruct (next_spec bs (end_of b)) as [Hn _]; [apply Hb|].
  rewrite foldl_snoc. destruct (IH Hl) as [[-> Hnone]|(c & Hc & -> & Hfit & Hmin)]; rewrite gap_step by done.
  - destruct (Z.leb_spec size (gap_of bs b)) as [Hfit|Hno]; cbn [andb].
    + assert (gap_of bs b < RAM_ADDR_MAX) by (unfold gap_of, in_space in *; lia). replace (gap_of bs b <? RAM_ADDR_MAX) with true by lia.
      right. exists b. split; [apply elem_of_app; right; left|]. split; [done|]. split; [done|].
      intros c [Hc| ->%list_elem_of_singleton]%elem_of_app Hf; [specialize (Hnone c Hc); lia|lia].
    + left. split; [done|]. intros c [Hc| ->%list_elem_of_singleton]%elem_of_app; [by apply Hnone|done].
  - right. destruct (_ && _) eqn:E.
    + exists b. split; [apply elem_of_app; right; left|]. split; [done|]. split; [lia|].
      intros d [Hd| ->%list_elem_of_singleton]%elem_of_app Hf; [specialize (Hmin d Hd Hf); lia|lia].
    + exists c. split; [apply elem_of_app; by left|]. split; [done|]. split; [done|].
      intros d [Hd| ->%list_elem_of_singleton]%elem_of_app Hf; [by apply Hmin|lia].
Qed.

(** Where a new block goes. *)
Definition placed (bs : list RAMBlock) (size o : Z) : Prop :=
  0 <= o /\ o + size <= RAM_ADDR_MAX /\ (forall c, c ∈ bs -> o + size <= offset c \/ end_of c <= o) /\
  (bs = [] /\ o = 0 \/ exists b, b ∈ bs /\ o = end_of b /\ forall c, c ∈ bs -> size <= gap_of bs c -> gap_of bs b <= gap_of bs c).
Lemma pairs_apart bs b c : ForallOrdPairs apart bs -> b ∈ bs -> c ∈ bs -> b = c \/ apart b c.
Proof.
  induction 1 as [|x l Hx _ IH]; [by intros ?%not_elem_of_nil|]. rewrite Forall_forall in Hx.
  intros [->|Hb]%elem_of_cons [->|Hc]%elem_of_cons; [by left| | |by apply IH].
  - right. by apply Hx.
  - right. destruct (Hx b Hb); [by right|by left].
Qed.
Lemma find_placed bs size o : 0 < size <= RAM_ADDR_MAX -> Forall in_space bs -> ForallOrdPairs apart bs -> find_ram_offset bs size = Some o -> placed bs size o.
Proof.
  intros Hs Hsp Hap. unfold find_ram_offset. replace (size =? 0) with false by lia. destruct bs as [|b0 bs0]; [|set (bs := b0 :: bs0) in *].
  { intros [= <-]. repeat split; [lia|lia|by intros c ?%not_elem_of_nil|by left]. }
  pose proof (best_spec bs size bs ltac:(lia) Hsp) as H. cbn zeta in H. destruct H as [[-> _]|(b & Hb & -> & Hfit & Hmin)]; [by rewrite Z.eqb_refl|].
  pose proof (proj1 (Forall_forall _ _) Hsp b Hb) as (H1 & H2 & H3). destruct (next_spec bs (end_of b) H3) as [Hn Hall].
  destruct (_ =? _); [done|]. intros [= <-]. unfold gap_of in Hfit. repeat split; [lia|lia| |].
  - intros c Hc. destruct (decide (end_of b <= offset c)) as [Hle|Hgt]; [left; specialize (Hall c Hc Hle); lia|right].
    destruct (pairs_apart bs b c Hap Hb Hc) as [->|[|]]; [lia|lia|lia].
  - right. by exists b.
Qed.
Lemma find_succeeds bs size : 0 < size <= RAM_ADDR_MAX -> Forall in_space bs -> (bs = [] \/ exists c, c ∈ bs /\ size <= gap_of bs c) -> is_Some (find_ram_offset bs size).
Proof.
  intros Hs Hsp Hgap. unfold find_ram_offset. replace (size =? 0) with false by lia. destruct bs as [|b0 bs0]; [done|set (bs := b0 :: bs0) in *].
  destruct Hgap as [|(c & Hc & Hfit)]; [done|]. pose proof (best_spec bs size bs ltac:(lia) Hsp) as H. cbn zeta in H.
  destruct H as [[-> Hno]|(b & Hb & -> & Hfb & _)]; [specialize (Hno c Hc); lia|].
  pose proof (proj1 (Forall_forall _ _) Hsp b Hb) as (H1 & H2 & H3). destruct (next_spec bs (end_of b) H3) as [Hn _]. unfold gap_of in Hfb.
  destruct (Z.eqb_spec (end_of b) RAM_ADDR_MAX); [lia|done].
Qed.

(** ** Steps *)

Lemma elem_of_insert_block b bs c : c ∈ insert_block b bs <-> c = b \/ c ∈ bs.
Proof.
  induction bs as [|x bs IH]; simpl; [by rewrite list_elem_of_singleton, elem_of_nil; tauto|]. case_match; rewrite !elem_of_cons; [tauto|]. rewrite IH. tauto.
Qed.
Lemma apart_sym b c : apart b c -> apart c b.
Proof. intros [|]; [by right|by left]. Qed.
Lemma insert_apart b bs : ForallOrdPairs apart bs -> Forall (apart b) bs -> ForallOrdPairs apart (insert_block b bs).
Proof.
  induction 1 as [|x l Hx Hl IH]; intros Hb; simpl; [by constructor; [|constructor]|]. case_match; [by constructor; [|constructor]|].
  inversion Hb as [|? ? Hbx Hbl]; subst. constructor; [|by apply IH]. apply Forall_forall. intros c [->|Hc]%elem_of_insert_block; [by apply apart_sym|].
  by apply (proj1 (Forall_forall _ _) Hx).
Qed.
Lemma insert_sorted b bs : StronglySorted bigger bs -> StronglySorted bigger (insert_block b bs).
Proof.
  induction 1 as [|x l Hl IH Hx]; simpl; [repeat constructor|]. rewrite Forall_forall in Hx. destruct (Z.ltb_spec (length_of x) (length_of b)) as [Hlt|Hge].
  - constructor; [by constructor; [|apply Forall_forall]|]. apply Forall_forall. intros c [->|Hc]%elem_of_cons; [unfold bigger; lia|]. specialize (Hx c Hc). unfold bigger in *. lia.
  - constructor; [done|]. apply Forall_forall. intros c [->|Hc]%elem_of_insert_block; [done|by apply Hx].
Qed.
Lemma remove_sublist a bs : forall bs', remove_block a bs = Some bs' -> bs' `sublist_of` bs.
Proof.
  induction bs as [|b bs IH]; intros bs' H; simpl in H; [done|]. destruct (a =? offset b); [injection H as <-; by apply sublist_cons|].
  apply bind_Some in H as (l & Hl & [= <-]). by apply sublist_skip, IH.
Qed.
Lemma sublist_pairs {A} (R : A -> A -> Prop) l l' : l' `sublist_of` l -> ForallOrdPairs R l -> ForallOrdPairs R l'.
Proof.
  induction 1 as [|x l1 l2 Hs IH|x l1 l2 Hs IH]; intros H; [done| |].
  - inversion H as [|? ? Hx Hl]; subst. constructor; [|by apply IH]. rewrite Forall_forall in Hx |- *. intros y Hy. apply Hx. by eapply elem_of_sublist.
  - inversion H; subst. by apply IH.
Qed.
(** Blocks of the same places. *)
Definition same_place (b c : RAMBlock) : Prop := offset c = offset b /\ length_of c = length_of b.
Lemma same_pairs (R : RAMBlock -> RAMBlock -> Prop) l l' : (forall b c b' c', same_place b b' -> same_place c c' -> R b c -> R b' c') ->
  Forall2 same_place l l' -> ForallOrdPairs R l -> ForallOrdPairs R l'.
Proof.
  intros HR. induction 1 as [|b b' l l' Hb Hl IH]; intros H; [done|]. inversion H as [|? ? Hx Hp]; subst. constructor; [|by apply IH].
  clear IH Hp H. induction Hl as [|c c' l l' Hc Hl IH]; [done|]. inversion Hx; subst. constructor; [by eapply HR|by apply IH].
Qed.
Lemma sorted_pairs l : StronglySorted bigger l <-> ForallOrdPairs bigger l.
Proof. split; induction 1; by constructor. Qed.
Lemma write_same r k i src r' : 0 <= i -> copy_to r k i src = Some r' -> mru_block r' = mru_block r /\ Forall2 same_place (blocks r) (blocks r').
Proof.
  intros Hi H. unfold copy_to in H. apply bind_Some in H as (b & Hb & H). destruct (Z.leb_spec (i + Z.of_nat (length src)) (length_of b)); [|done].
  injection H as <-. split; [done|]. apply Forall2_same_length_lookup. simpl. split; [by rewrite length_insert|]. intros j x y Hx Hy.
  destruct (decide (j = k)) as [->|]; [|rewrite list_lookup_insert_ne in Hy by done; by replace y with x by congruence].
  rewrite list_lookup_insert_eq in Hy by by apply lookup_lt_Some in Hb. injection Hy as <-. replace x with b by congruence. split; [done|].
  unfold length_of. simpl. rewrite length_memcpy; [done|done|]. unfold length_of in *. lia.
Qed.
Lemma places_wf r r' : ram_wf r -> mru_block r' = mru_block r -> Forall2 same_place (blocks r) (blocks r') -> ram_wf r'.
Proof.
  intros [W1 W2 W3 W4] Em Hs. split.
  - clear -W1 Hs. induction Hs as [|b c l l' [E1 E2] _ IH]; [done|]. inversion W1 as [|? ? Hb Hl]; subst. constructor; [|by apply IH].
    unfold in_space in *. by rewrite E1, E2.
  - eapply same_pairs; [|done|done]. intros b c b' c' [E1 E2] [E3 E4]. unfold apart. by rewrite E1, E2, E3, E4.
  - apply sorted_pairs. eapply same_pairs; [|done|by apply sorted_pairs]. intros b c b' c' [E1 E2] [E3 E4]. unfold bigger. by rewrite E2, E4.
  - intros k Hk. rewrite Em in Hk. destruct (W4 k Hk) as [b Hb]. destruct (Forall2_lookup_l _ _ _ _ _ Hs Hb) as (c & Hc & _). by exists c.
Qed.
(** The size of a block, in whole pages. *)
Lemma aligned_size size : 0 < size -> size + 1023 <= RAM_ADDR_MAX -> size <= TARGET_PAGE_ALIGN size <= RAM_ADDR_MAX.
Proof.
  intros Hs Hm. unfold RAM_ADDR_MAX in *. unfold TARGET_PAGE_ALIGN. rewrite u64_small by (unfold is_u; change TARGET_PAGE_SIZE with 1024; lia).
  rewrite DispatchProps.page_base. change TARGET_PAGE_SIZE with 1024. Z.div_mod_to_equations; lia.
Qed.
Lemma alloc_wf r size r' o : ram_wf r -> 0 < TARGET_PAGE_ALIGN size <= RAM_ADDR_MAX -> qemu_ram_alloc r size = Some (r', o) -> ram_wf r' /\ placed (blocks r) (TARGET_PAGE_ALIGN size) o.
Proof.
  intros [W1 W2 W3 W4] Hs H. unfold qemu_ram_alloc in H. set (n := TARGET_PAGE_ALIGN size) in *. apply bind_Some in H as (o' & Ho & [= <- <-]).
  pose proof (find_placed _ _ _ Hs W1 W2 Ho) as P. split; [|done]. destruct P as (H1 & H2 & H3 & _).
  set (b := mkBlock o' _). assert (length_of b = n) as Hlen by (unfold length_of, b; simpl; rewrite length_replicate; lia).
  split; simpl; [| |by apply insert_sorted|done].
  - apply Forall_forall. intros c [->|Hc]%elem_of_insert_block; [|by apply (proj1 (Forall_forall _ _) W1)]. unfold in_space. rewrite Hlen. simpl. lia.
  - apply insert_apart; [done|]. apply Forall_forall. intros c Hc. unfold apart. rewrite Hlen. by apply H3.
Qed.
Lemma align_range size : 0 <= TARGET_PAGE_ALIGN size <= RAM_ADDR_MAX.
Proof.
  unfold TARGET_PAGE_ALIGN. rewrite DispatchProps.page_base. pose proof (is_u_u64 (size + TARGET_PAGE_SIZE - 1)). unfold is_u, RAM_ADDR_MAX in *. Z.div_mod_to_equations; lia.
Qed.
Lemma step_wf r r' : ram_wf r -> step r r' -> ram_wf r'.
Proof.
  intros W. destruct 1 as [r size r' o H|r a|r a r' k H|r k i src r' Hi H].
  - eapply alloc_wf; [done| |exact H]. pose proof (align_range size). split; [|lia]. unfold qemu_ram_alloc, find_ram_offset in H.
    destruct (Z.eqb_spec (TARGET_PAGE_ALIGN size) 0); [done|lia].
  - unfold qemu_ram_free. destruct (remove_block a (blocks r)) as [bs|] eqn:E; [|done]. apply remove_sublist in E. destruct W as [W1 W2 W3 W4].
    split; simpl; [|by eapply sublist_pairs| |done].
    + rewrite Forall_forall in W1 |- *. intros c Hc. apply W1. by eapply elem_of_sublist.
    + apply sorted_pairs. eapply sublist_pairs; [done|]. by apply sorted_pairs.
  - unfold qemu_get_ram_block in H.
    assert (forall x, ('(k, _) ← list_find (fun b => in_block a b) (blocks r); Some (r.[mru_block := Some k], k)) = Some x -> ram_wf x.1) as Hsearch.
    { intros x Hx. apply bind_Some in Hx as ([j c] & Hf & [= <-]). apply list_find_Some in Hf as (Hj & _). destruct W as [W1 W2 W3 W4]. split; [done..|].
      simpl. intros j' [= <-]. by exists c. }
    destruct (_ ≫= _) as [[j c]|] in H; [destruct (in_block a c); [by injection H as <- <-|]|]; by apply (Hsearch (r', k)).
  - destruct (write_same r k i src r' Hi H) as [Hm Hs]. by apply (places_wf r).
Qed.

(** ** Lookups and new blocks *)

Lemma pairs_lookup (l : list RAMBlock) j k b c : ForallOrdPairs apart l -> l !! j = Some b -> l !! k = Some c -> j = k \/ apart b c.
Proof.
  intros H. revert j k. induction H as [|x l Hx _ IH]; intros j k; [by rewrite lookup_nil|]. rewrite Forall_forall in Hx. destruct j as [|j], k as [|k]; simpl; intros Hj Hk.
  - by left.
  - injection Hj as <-. right. apply Hx. by eapply list_elem_of_lookup_2.
  - injection Hk as <-. right. apply apart_sym, Hx. by eapply list_elem_of_lookup_2.
  - destruct (IH j k Hj Hk) as [->|]; [by left|by right].
Qed.
Lemma one_block r j k b c a : ram_wf r -> is_u 64 a -> blocks r !! j = Some b -> blocks r !! k = Some c -> in_block a b = true -> in_block a c = true -> j = k.
Proof.
  intros W Ha Hj Hk Hb Hc. pose proof (proj1 (Forall_forall _ _) (rw_space _ W)) as Hsp.
  rewrite holds_offset in Hb by (done || by eapply Hsp, list_elem_of_lookup_2). rewrite holds_offset in Hc by (done || by eapply Hsp, list_elem_of_lookup_2).
  apply bool_decide_eq_true in Hb, Hc. destruct (pairs_lookup _ _ _ _ _ (rw_apart _ W) Hj Hk) as [|[|]]; [done|lia|lia].
Qed.
(** What a lookup finds, whichever block was used last. *)
Definition looked_up (r : RAMList) (a : Z) : Prop :=
  match qemu_get_ram_block r a with
  | Some (r', k) => blocks r' = blocks r /\ exists b, blocks r !! k = Some b /\ offset b <= a < end_of b /\
      forall j c, blocks r !! j = Some c -> offset c <= a < end_of c -> j = k
  | None => forall c, c ∈ blocks r -> ~ offset c <= a < end_of c
  end.
Lemma lookup_ok r a : ram_wf r -> is_u 64 a -> looked_up r a.
Proof.
  intros W Ha. pose proof (proj1 (Forall_forall _ _) (rw_space _ W)) as Hsp.
  assert (forall k b, blocks r !! k = Some b -> in_block a b = bool_decide (offset b <= a < end_of b)) as Hin
    by (intros k b Hk; apply holds_offset; [by eapply Hsp, list_elem_of_lookup_2|done]).
  assert (forall k b, blocks r !! k = Some b -> in_block a b = true -> exists b, blocks r !! k = Some b /\ offset b <= a < end_of b /\
    forall j c, blocks r !! j = Some c -> offset c <= a < end_of c -> j = k) as Hone.
  { intros k b Hk Hb. exists b. split; [done|]. split; [rewrite (Hin k b Hk) in Hb; by apply bool_decide_eq_true in Hb|].
    intros j c Hj Hc. eapply (one_block r); [done|done|done|done| |done]. rewrite (Hin j c Hj). by apply bool_decide_eq_true. }
  assert (match '(k, _) ← list_find (fun b => in_block a b) (blocks r); Some (r.[mru_block := Some k], k) with
    | Some (r', k) => blocks r' = blocks r /\ exists b, blocks r !! k = Some b /\ offset b <= a < end_of b /\
        forall j c, blocks r !! j = Some c -> offset c <= a < end_of c -> j = k
    | None => forall c, c ∈ blocks r -> ~ offset c <= a < end_of c end) as Hsearch.
  { destruct (list_find _ _) as [[k b]|] eqn:Ef; cbn.
    - apply list_find_Some in Ef as (Hk & Hb & _). apply Is_true_true in Hb. split; [done|]. by apply (Hone k b).
    - intros c Hc Hr. apply list_find_None in Ef. rewrite Forall_forall in Ef. apply (Ef c Hc). apply list_elem_of_lookup_1 in Hc as [k Hk].
      apply Is_true_true. rewrite (Hin k c Hk). by apply bool_decide_eq_true. }
  unfold looked_up, qemu_get_ram_block. destruct (mru_block r) as [k|]; cbn [mbind option_bind]; [|done].
  destruct (blocks r !! k) as [b|] eqn:Hk; cbn [mbind option_bind]; [|done]. destruct (in_block a b) eqn:Eb; [|done]. split; [done|]. by apply (Hone k b).
Qed.
Lemma last_block (bs : list RAMBlock) : bs <> [] -> exists b, b ∈ bs /\ forall c, c ∈ bs -> end_of c <= end_of b.
Proof.
  induction bs as [|x bs IH]; [done|]. intros _. destruct bs as [|y bs].
  - exists x. split; [left|]. by intros c ->%list_elem_of_singleton.
  - destruct IH as (b & Hb & Hmax); [done|]. destruct (decide (end_of x <= end_of b)).
    + exists b. split; [by right|]. intros c [->|Hc]%elem_of_cons; [done|by apply Hmax].
    + exists x. split; [left|]. intros c [->|Hc]%elem_of_cons; [done|]. specialize (Hmax c Hc). lia.
Qed.
Lemma next_none bs e : (forall c, c ∈ bs -> offset c < e) -> next_offset bs e = RAM_ADDR_MAX.
Proof.
  intros H. unfold next_offset. generalize RAM_ADDR_MAX as m. induction bs as [|b bs IH]; intros m; [done|]. cbn.
  destruct (Z.leb_spec e (offset b)); [specialize (H b ltac:(left)); lia|]. apply IH. intros c Hc. apply H. by right.
Qed.
Lemma alloc_ok r size : ram_wf r -> 0 < size -> size + 1023 <= RAM_ADDR_MAX -> (forall c, c ∈ blocks r -> end_of c + size + 1023 <= RAM_ADDR_MAX) ->
  exists r' o, qemu_ram_alloc r size = Some (r', o) /\ placed (blocks r) (TARGET_PAGE_ALIGN size) o /\
    (forall c, c ∈ blocks r' <-> c = mkBlock o (replicate (Z.to_nat (TARGET_PAGE_ALIGN size)) 0) \/ c ∈ blocks r).
Proof.
  intros W Hs Hm Hroom. pose proof (aligned_size size Hs Hm) as Hal.
  assert (TARGET_PAGE_ALIGN size <= size + 1023) as Hup.
  { unfold TARGET_PAGE_ALIGN. rewrite u64_small by (unfold is_u, RAM_ADDR_MAX in *; change TARGET_PAGE_SIZE with 1024; lia).
    rewrite DispatchProps.page_base. change TARGET_PAGE_SIZE with 1024. Z.div_mod_to_equations; lia. }
  destruct (find_succeeds (blocks r) (TARGET_PAGE_ALIGN size)) as [o Ho]; [lia|apply W| |].
  { destruct (decide (blocks r = [])) as [|Hne]; [by left|right]. destruct (last_block _ Hne) as (b & Hb & Hmax). exists b. split; [done|].
    unfold gap_of. rewrite next_none; [specialize (Hroom b Hb); lia|]. intros c Hc.
    pose proof (proj1 (Forall_forall _ _) (rw_space _ W) c Hc) as (_ & ? & _). specialize (Hmax c Hc). lia. }
  assert (qemu_ram_alloc r size = Some (mkRam (insert_block (mkBlock o (replicate (Z.to_nat (TARGET_PAGE_ALIGN size)) 0)) (blocks r)) None, o)) as Ha
    by (unfold qemu_ram_alloc; by rewrite Ho).
  eexists _, o. split; [exact Ha|]. split; [eapply alloc_wf; [done| |exact Ha]; lia|]. intros c. apply elem_of_insert_block.
Qed.
Lemma allocated_wf r : rtc step (mkRam [] None) r -> ram_wf r.
Proof.
  intros H. assert (ram_wf (mkRam [] None)) as W by (split; [constructor|constructor|constructor|done]). induction H as [|r r1 r2 Hs _ IH]; [done|].
  apply IH. by eapply step_wf.
Qed.

(** C24. Whatever is allocated, freed, looked up and written: the list is sorted from the biggest block to the smallest,
    the blocks do not meet, and an offset is looked up to the one block that has it, or to none, whichever block was
    used last.  An allocation that fits behind the last block succeeds; the new block is zero, the others stay as
    they are, and it lies in the smallest of the gaps behind blocks that is large enough, apart from all blocks. *)
Theorem ram_blocks r : rtc step (mkRam [] None) r ->
  StronglySorted bigger (blocks r) /\ ForallOrdPairs apart (blocks r) /\ (forall a, is_u 64 a -> looked_up r a) /\
  forall size, 0 < size -> size + 1023 <= RAM_ADDR_MAX -> (forall c, c ∈ blocks r -> end_of c + size + 1023 <= RAM_ADDR_MAX) ->
    exists r' o, qemu_ram_alloc r size = Some (r', o) /\ placed (blocks r) (TARGET_PAGE_ALIGN size) o /\
      (forall c, c ∈ blocks r' <-> c = mkBlock o (replicate (Z.to_nat (TARGET_PAGE_ALIGN size)) 0) \/ c ∈ blocks r).
Proof.
  intros H. pose proof (allocated_wf r H) as W. split; [apply W|]. split; [apply W|]. split; [intros a; by apply lookup_ok|].
  intros size. by apply alloc_ok.
Qed.

Definition allocated (r : RAMList) (size : Z) : RAMList := match qemu_ram_alloc r size with Some (r', _) => r' | None => r end.
Lemma allocated_step r r' size : rtc step r r' -> rtc step r (allocated r' size).
Proof.
  intros H. unfold allocated. destruct (qemu_ram_alloc r' size) as [[r2 o]|] eqn:E; [|done]. eapply rtc_r; [exact H|]. by eapply step_alloc.
Qed.
(** Three blocks, of which the middle one is freed. *)
Definition sample : RAMList := qemu_ram_free (allocated (allocated (allocated (mkRam [] None) 4096) 2000) 1024) 4096.
Lemma sample_ram : rtc step (mkRam [] None) sample.
Proof. eapply rtc_r; [|by apply step_free]. by do 3 apply allocated_step. Qed.
(** The next block takes the place of the freed one. *)
Lemma ram_blocks_witness : exists r' o, qemu_ram_alloc sample 1500 = Some (r', o) /\ placed (blocks sample) (TARGET_PAGE_ALIGN 1500) o.
Proof.
  destruct (ram_blocks sample sample_ram) as (_ & _ & _ & H). destruct (H 1500) as (r' & o & Ha & Hp & _); [done|by vm_compute| |exists r', o; exact (conj Ha Hp)].
  apply Forall_forall, (bool_decide_unpack _). by vm_compute.
Defined.
Lemma freed_reused : snd <$> qemu_ram_alloc sample 1500 = Some 4096.
Proof. by vm_compute. Qed.
(** The gap in front of the first block is not looked at: memory that is freed
    there is not used again. *)
Lemma front_unused : snd <$> qemu_ram_alloc (qemu_ram_free (allocated (allocated (mkRam [] None) 4096) 2048) 0) 1024 = Some 6144.
Proof. by vm_compute. Qed.

(** In memory that was allocated, a part of a block that lookups find is a
    window in the sense of the theorems on accesses. *)
Lemma allocated_window {D} info space lo size p off k q (s : @phys D) b : ram_wf (ram s) -> 
  (forall a, lo <= a < lo + size -> exists mask romd ro, DispatchView.finds (map s) space a (Some (p, off + (a - lo), mask, romd, ro))) ->
  is_ram (info (Mr p)) = true /\ info_readonly (info (Mr p)) = false /\ iommu_translate (info (Mr p)) = None ->
  0 <= lo -> lo + size <= 2 ^ 40 -> 0 <= off -> ram_addr (info (Mr p)) + off + size <= 2 ^ 63 -> ram_addr (info (Mr p)) mod 1024 = 0 ->
  blocks (ram s) !! k = Some b -> offset b = ram_addr (info (Mr p)) -> q = off -> q + size <= length_of b ->
  AccessProps.window info space lo size p off k q s.
Proof.
  intros W Hf Hd H1 H2 H3 H4 Hp Hb Ho -> Hl. pose proof (proj1 (Forall_forall _ _) (rw_space _ W) b) as Hsp.
  assert (in_space b) as (H5 & H6 & H7) by (by eapply Hsp, list_elem_of_lookup_2). split; [done|done|lia|done| |].
  - exists b. split; [done|]. lia.
  - intros j c x Hj Hx Hc. unfold RAM_ADDR_MAX in *. assert (is_u 64 (ram_addr (info (Mr p)) + off + x)) as Ha by (unfold is_u; lia).
    apply (one_block (ram s) j k c b _ W Ha Hj Hb Hc). rewrite holds_offset; [|exact (conj H5 (conj H6 H7))|done]. apply bool_decide_eq_true. lia.
Qed.
End RamAlloc.
