(* ===== verification/BoardBus.v ===== *)
(** * The devices of the board on the bus (hw/arm/atmel.c, exec.c)

    The memory of the SAM3 board with the devices that are modelled behind it:
    the map that the first transaction builds, the blocks of RAM, and the
    callbacks of the timer, the power controller, the UARTs, GPIO port C, the
    SPI controller and the distributor of the interrupt controller.  A word that
    the guest loads or stores at an address of a device is a call of the
    device's register function, at the offset the memory map gives. *)

From stdpp Require Import gmap list_numbers.
From S2P Require Import Prelude Ptimer Rtt Pmc Ssi Spi Gic Memory MemoryProps Board Pl011 Pl061 Listeners Dispatch DispatchProps DispatchView Access AccessProps.

Module BoardBus.
Import Dispatch DispatchView Access AccessProps.
#[local] Open Scope Z_scope.

(** ** Words of a device *)

Section Words.
Context {D : Type} (ops : Memory.MemoryRegionOps D).
Context (native : Memory.endianness ops = Memory.DEVICE_NATIVE_ENDIAN) (any : Memory.accepts ops = None).
Lemma word_valid d a w : a mod 4 = 0 -> Memory.memory_region_access_valid ops d a 4 w = true.
Proof.
  intros Ha. unfold Memory.memory_region_access_valid. rewrite any.
  assert (a .&? (4 - 1) = false) as ->; [|by rewrite andb_false_r]. unfold truth. change (4 - 1) with (Z.ones 2). rewrite Z.land_ones by done. change (2 ^ 2) with 4. by rewrite Ha.
Qed.
Lemma word_read d a : a mod 4 = 0 -> Memory.impl_min ops = 0 -> Memory.impl_max ops = 0 ->
  Memory.memory_region_dispatch_read ops d a 4 =
    (false, u32 (fst (match Memory.read ops with Some rd => rd d a 4 | None => Memory.old_read ops 2 d a end)),
            snd (match Memory.read ops with Some rd => rd d a 4 | None => Memory.old_read ops 2 d a end)).
Proof.
  intros Ha Hl Hh. unfold Memory.memory_region_dispatch_read. rewrite word_valid by done. cbn [negb].
  unfold Memory.memory_region_dispatch_read1, Memory.adjust_endianness, Memory.memory_region_big_endian. rewrite native, Hl, Hh.
  unfold Memory.read_with_adjusted_size, Memory.access_shift, Memory.memory_region_big_endian. rewrite native.
  assert (forall t, 0 .| u64 ((t .& Memory.access_mask 4) .<< (0 * 8)) = u32 t) as Hv.
  { intros t. change (Memory.access_mask 4) with (Z.ones 32). rewrite Z.land_ones, Z.shiftl_0_r, Z.lor_0_l by done.
    change (u64 (u32 t) = u32 t). apply u64_small. pose proof (is_u_u32 t). unfold is_u in *. lia. }
  destruct (Memory.read ops) as [rd|].
  - change (Memory.steps 4 (Memory.access_size 4 0 0)) with [0]. change (Memory.access_size 4 0 0) with 4. cbn [foldl]. rewrite Z.add_0_r.
    destruct (rd d a 4) as [t d']. by rewrite Hv.
  - change (Memory.steps 4 (Memory.access_size 4 1 4)) with [0]. change (Memory.access_size 4 1 4) with 4. cbn [foldl]. rewrite Z.add_0_r.
    change (Z.log2 4) with 2. destruct (Memory.old_read ops 2 d a) as [t d']. by rewrite Hv.
Qed.
Lemma word_write d a v : a mod 4 = 0 -> Memory.impl_min ops = 0 -> Memory.impl_max ops = 0 -> is_u 32 v ->
  Memory.memory_region_dispatch_write ops d a v 4 =
    (false, match Memory.write ops with Some wr => wr d a v 4 | None => Memory.old_write ops 2 d a v end).
Proof.
  intros Ha Hl Hh Hv. unfold Memory.memory_region_dispatch_write. rewrite word_valid by done. cbn [negb].
  unfold Memory.adjust_endianness, Memory.memory_region_big_endian. rewrite native, Hl, Hh.
  unfold Memory.write_with_adjusted_size, Memory.access_shift, Memory.memory_region_big_endian. rewrite native.
  assert ((v .>> (0 * 8)) .& Memory.access_mask 4 = v) as Hval.
  { change (Memory.access_mask 4) with (Z.ones 32). rewrite Z.land_ones, Z.shiftr_0_r by done. by apply Z.mod_small. }
  destruct (Memory.write ops) as [wr|].
  - change (Memory.steps 4 (Memory.access_size 4 0 0)) with [0]. change (Memory.access_size 4 0 0) with 4. cbn [foldl]. by rewrite Z.add_0_r, Hval.
  - change (Memory.steps 4 (Memory.access_size 4 1 4)) with [0]. change (Memory.access_size 4 1 4) with 4. cbn [foldl]. by rewrite Z.add_0_r, Hval.
Qed.
End Words.

(** ** The devices *)

Section Board.
(** The slaves of the serial bus. *)
Context {S : Type} `{!Ssi.SSISlaveClass S}.
Record board_devices := mkDevices {
  d_rtt : Rtt.rtt_state; d_pmc : Pmc.pmc_state; d_uart0 : Pl011.PL011State; d_uart1 : Pl011.PL011State;
  d_gpio : Pl061.PL061State; d_spi : Spi.spi_state S; d_gic : Gic.GICState
}.
#[local] Instance eta_devices : RecEta board_devices := fun d =>
  mkDevices (d_rtt d) (d_pmc d) (d_uart0 d) (d_uart1 d) (d_gpio d) (d_spi d) (d_gic d).
Definition io_ops (rd : board_devices -> Z -> Z * board_devices) (wr : board_devices -> Z -> Z -> board_devices) : Memory.MemoryRegionOps board_devices :=
  Memory.mkOps (Some (fun d a _ => rd d a)) (Some (fun d a v _ => wr d a v)) Memory.DEVICE_NATIVE_ENDIAN 0 0 false None 0 0
    (fun _ d _ => (0, d)) (fun _ d _ _ => d).
Definition rtt_ops := io_ops (fun d a => let '(v, x) := Rtt.rtt_read (d_rtt d) a in (v, d.[d_rtt := x])) (fun d a v => d.[d_rtt := Rtt.rtt_write (d_rtt d) a v]).
Definition pmc_ops := io_ops (fun d a => (Pmc.pmc_read (d_pmc d) a, d)) (fun d a v => d.[d_pmc := Pmc.pmc_write (d_pmc d) a v]).
Definition pl011_ops (i : Z) :=
  if i =? 0
  then io_ops (fun d a => let '(v, x) := Pl011.pl011_read (d_uart0 d) a in (v, d.[d_uart0 := x])) (fun d a v => d.[d_uart0 := Pl011.pl011_write (d_uart0 d) a v])
  else io_ops (fun d a => let '(v, x) := Pl011.pl011_read (d_uart1 d) a in (v, d.[d_uart1 := x])) (fun d a v => d.[d_uart1 := Pl011.pl011_write (d_uart1 d) a v]).
Definition pl061_ops := io_ops (fun d a => (Pl061.pl061_read (d_gpio d) a, d)) (fun d a v => d.[d_gpio := Pl061.pl061_write (d_gpio d) a v]).
Definition spi_ops := io_ops (fun d a => let '(v, x) := Spi.spi_read (d_spi d) a in (v, d.[d_spi := x])) (fun d a v => d.[d_spi := Spi.spi_write (d_spi d) a v]).
(** By the logarithm of the size, for the only CPU. *)
Definition gic_dist_ops : Memory.MemoryRegionOps board_devices :=
  Memory.mkOps None None Memory.DEVICE_NATIVE_ENDIAN 0 0 false None 0 0
    (fun k d a => (match k with 0 => Gic.gic_dist_readb | 1 => Gic.gic_dist_readw | _ => Gic.gic_dist_readl end (d_gic d) 0 a, d))
    (fun k d a v => d.[d_gic := match k with 0 => Gic.gic_dist_writeb | 1 => Gic.gic_dist_writew | _ => Gic.gic_dist_writel end (d_gic d) 0 a v]).

(** The other regions, among them the registers of the NVIC and the bit-band
    windows. *)
Context (other : region -> Memory.MemoryRegionOps board_devices).
Definition registers : list (Memory.ptr * Memory.MemoryRegionOps board_devices) :=
  [(Board.rtt, rtt_ops); (Board.pmc, pmc_ops); (Board.pl011 0, pl011_ops 0); (Board.pl011 1, pl011_ops 1); (Board.pl061 2, pl061_ops);
   (Board.spi, spi_ops); (Board.gic_dist, gic_dist_ops)].
Definition board_ops (r : region) : Memory.MemoryRegionOps board_devices :=
  match r with
  | Mr p => match list_find (fun x => fst x = p) registers with Some (_, (_, o)) => o | None => other r end
  | _ => other r
  end.
End Board.
Arguments board_devices S : clear implicits.

Definition board_map : exec :=
  default no_map (s ← Listeners.memory_region_transaction_commit 4 board_memory; exec_calls no_map (Listeners.calls s)).
Lemma board_finds a : is_u 40 a -> finds board_map 1 a (MemoryProps.view_at Board.guest_map a).
Proof.
  destruct (commit_ok 4 board_memory no_map Board.rank) as (s' & new & d' & Hs & Hc & He & Hf).
  - exact board_wired.
  - by apply (bool_decide_unpack _); vm_compute.
  - by intros b [e He].
  - exact board_tree.
  - constructor; [exact board_below|constructor].
  - by apply (bool_decide_unpack _); vm_compute.
  - done.
  - done.
  - assert (board_map = d') as -> by (unfold board_map; rewrite Hs; cbn [mbind option_bind]; rewrite Hc; change (Listeners.calls board_memory ++ new) with new; by rewrite He).
    intros Ha. rewrite <- Board.board_resolves by (unfold is_u in Ha; lia). apply (Hf board_space); [left|done].
Qed.
(** Flash and RAM, whose blocks follow each other. *)
Definition board_info (r : region) : region_info :=
  match r with
  | Mr p => if bool_decide (p = Board.sram) then mkInfo true false false false 0x10000 0x20000000 false None
            else if bool_decide (p = Board.flash) then mkInfo true false false true 0x20000000 0 false None
            else mkInfo false false false false 0x1000 0 false None
  | _ => mkInfo false false false false Memory.int128_2_64 0 false None
  end.

(** ** Registers *)

Section Registers.
Context {S : Type} `{!Ssi.SSISlaveClass S} (other : region -> Memory.MemoryRegionOps (board_devices S)) (iommus : nat).
Implicit Types (s : @phys (board_devices S)) (d : board_devices S) (p : Memory.ptr).
(** What a device does with a word. *)
Definition reg_read (o : Memory.MemoryRegionOps (board_devices S)) d (a : Z) : Z * board_devices S :=
  match Memory.read o with Some rd => rd d a 4 | None => Memory.old_read o 2 d a end.
Definition reg_write (o : Memory.MemoryRegionOps (board_devices S)) d (a v : Z) : board_devices S :=
  match Memory.write o with Some wr => wr d a v 4 | None => Memory.old_write o 2 d a v end.
Definition with_devices s d : phys := mkPhys (map s) (ram s) d (dirtied s) (bounce s) (map_client_list s) (called_back s).

Lemma registers_ok p o : (p, o) ∈ registers -> board_ops other (Mr p) = o /\ memory_access_is_direct (board_info (Mr p)) true = false /\
  memory_access_is_direct (board_info (Mr p)) false = false /\ iommu_translate (board_info (Mr p)) = None /\
  Memory.endianness o = Memory.DEVICE_NATIVE_ENDIAN /\ Memory.accepts o = None /\ Memory.impl_min o = 0 /\ Memory.impl_max o = 0.
Proof. unfold registers. rewrite !elem_of_cons. intros [[= -> ->]|[[= -> ->]|[[= -> ->]|[[= -> ->]|[[= -> ->]|[[= -> ->]|[[= -> ->]|?%not_elem_of_nil]]]]]]]; done. Qed.
(** C23. On the SAM3 board, a word that the guest loads at an address which the memory map gives to the timer, the power
    controller, a UART, GPIO port C, the SPI controller or the distributor is the low 32 bits of what the device's
    register function returns at the offset the map gives, and a store is a call of its write function with the
    word.  Nothing but the devices' state changes. *)
Theorem guest_registers s a p o off mask romd ro v : map s = board_map -> is_u 40 a ->
  MemoryProps.view_at Board.guest_map a = Some (p, off, mask, romd, ro) -> (p, o) ∈ registers -> off mod 4 = 0 ->
  ldl_phys_internal board_info (board_ops other) iommus 1 s a Memory.DEVICE_NATIVE_ENDIAN =
    Some (u32 (fst (reg_read o (devices s) off)), with_devices s (snd (reg_read o (devices s) off))) /\
  stl_phys_internal board_info (board_ops other) iommus 1 s a v Memory.DEVICE_NATIVE_ENDIAN =
    Some (with_devices s (reg_write o (devices s) off (u32 v))).
Proof.
  intros Hm Ha Hv Hp Hoff. pose proof (board_finds a Ha) as Hf. rewrite Hv, <- Hm in Hf.
  destruct (registers_ok p o Hp) as (Ho & Hw & Hr & Hio & He & Hacc & Hl & Hh).
  assert (forall n w, address_space_translate board_info iommus s 1 a n w = Some (Mr p, off, n)) as Ht by (intros n w; by eapply finds_translate).
  split.
  - unfold ldl_phys_internal, ldn_phys_internal. rewrite Ht. cbn [mbind option_bind]. rewrite Hr. cbn [negb]. rewrite orb_true_r.
    unfold io_mem_read. rewrite Ho, word_read by done. cbn [mbind option_bind swap_for]. f_equal. f_equal. apply u32_small, is_u_u32.
  - unfold stl_phys_internal, stn_phys_internal. rewrite Ht. cbn [mbind option_bind]. rewrite Hw. cbn [negb]. rewrite orb_true_r.
    unfold io_mem_write. cbn [swap_for]. rewrite Ho, word_write by (apply is_u_u32 || assumption). reflexivity.
Qed.
End Registers.

(** ** The board at its start *)

(** A serial bus without slaves. *)
#[local] Instance no_slave : Ssi.SSISlaveClass Empty_set :=
  {| Ssi.transfer (x : Empty_set) _ := match x with end; Ssi.set_cs _ := None; Ssi.cs_polarity _ := Ssi.SSI_CS_NONE |}.
Definition started : board_devices Empty_set :=
  mkDevices (Rtt.rtt_init 0) (Pmc.pmc_init 0) (Pl011.pl011_init None) (Pl011.pl011_init None) Pl061.pl061_initfn (Spi.spi_init [])
    (Gic.arm_gic_common_reset (snd (Gic.arm_gic_common_realize (Gic.gic_new 1 64 Gic.REV_NVIC)))).
(** The other regions read as zero. *)
Definition other (r : region) : Memory.MemoryRegionOps (board_devices Empty_set) := io_ops (fun d _ => (0, d)) (fun d _ _ => d).
Definition board_ram : RAMList := mkRam [mkBlock 0x20000000 (replicate (Z.to_nat 0x10000) 0)] None.
Definition board_phys : @phys (board_devices Empty_set) := mkPhys board_map board_ram started [] None [] [].
Lemma board_window : window board_info 1 0x20000000 0x10000 Board.sram 0 0 0 board_phys.
Proof.
  split.
  - intros a Ha. exists 0, true, false. pose proof (board_finds a) as H. cbn [map board_phys].
    replace (MemoryProps.view_at Board.guest_map a) with (Some (Board.sram, 0 + (a - 0x20000000), 0, true, false)) in H.
    { apply H. unfold is_u. lia. }
    cbn [Board.guest_map MemoryProps.view_at]. unfold MemoryProps.range_at, Memory.addrrange_contains, Memory.addrrange_end. cbn.
    by replace (_ && _) with false by lia; replace (_ && _) with true by lia.
  - done.
  - by apply (bool_decide_unpack _); vm_compute.
  - done.
  - eexists. split; [reflexivity|]. unfold length_of. cbn [host offset]. rewrite length_replicate. change (ram_addr (board_info (Mr Board.sram))) with 0x20000000. lia.
  - intros [|j] b x Hj; [done|]. by destruct j.
Qed.
Lemma guest_ram_bytes_witness : exists s1 s2, address_space_write board_info (board_ops other) 0 board_phys 1 (0x20000000 + 0xffe) [1; 2; 3; 4] = Some (false, s1) /\
  address_space_read board_info (board_ops other) 0 s1 1 (0x20000000 + 0x1000) 2 = Some (false, slice (memcpy (bytes 0x10000 0 0 board_phys) 0xffe [1; 2; 3; 4]) 0x1000 2, s2).
Proof.
  destruct (guest_ram_bytes board_info (board_ops other) 0 1 0x20000000 0x10000 Board.sram 0 0 0 board_phys 0xffe [1; 2; 3; 4] 0x1000 2)
    as (s1 & s2 & H1 & H2 & _); [exact board_window|cbn [length]; lia..|]. exists s1, s2. exact (conj H1 H2).
Defined.

(** Three bytes for a device are one access of that size, which aborts. *)
Lemma three_bytes_abort : address_space_write board_info (board_ops other) 0 board_phys 1 0x400e0400 [1; 2; 3] = None.
Proof. by vm_compute. Qed.
(** A device of which more than a page is mapped overruns the bounce buffer. *)
Lemma bounce_overrun : address_space_map board_info (board_ops other) 0 board_phys 1 0x22000000 0x404 false = None.
Proof. by vm_compute. Qed.
Lemma bounce_fits : fst <$> address_space_map board_info (board_ops other) 0 board_phys 1 0x22000000 0x400 false = Some (Some bounce_buffer, 0x400).
Proof. by vm_compute. Qed.
(** A guest that writes the alarm of the timer. *)
Lemma guest_registers_witness :
  ldl_phys_internal board_info (board_ops other) 0 1 board_phys 0x400e1434 Memory.DEVICE_NATIVE_ENDIAN =
    Some (u32 (fst (reg_read rtt_ops started 4)), with_devices board_phys (snd (reg_read rtt_ops started 4))) /\
  stl_phys_internal board_info (board_ops other) 0 1 board_phys 0x400e1434 7 Memory.DEVICE_NATIVE_ENDIAN =
    Some (with_devices board_phys (reg_write rtt_ops started 4 (u32 7))).
Proof.
  apply (guest_registers other 0 board_phys 0x400e1434 Board.rtt rtt_ops 4 0 true false 7); [reflexivity|done|reflexivity|left|reflexivity].
Defined.
End BoardBus.
