(* ===== verification/Migration.v ===== *)
(** * The control of a migration (migration.c, vl.c, cpus.c)

    A migration has a thread of its own.  The monitor starts and cancels it,
    connections are made by callbacks of the main loop, and the thread's last
    act is to schedule a bottom half that joins it.  The main loop holds the
    lock of the I/O thread while it runs; the migration thread takes it twice.
    The field [state] is read and swapped without the lock.  A step is a maximal
    part of either thread that meets shared state once; what is decided
    elsewhere (the rate limit, the pending size, errors of the file or of a
    flush, connections) is part of its label.  The statistics of the thread and
    its sleep are left out, and so are the capabilities and parameters. *)

From S2P Require Import Prelude.

Module Migration.

(** ** The state of the guest *)

Inductive RunState :=
  RUN_STATE_DEBUG | RUN_STATE_INMIGRATE | RUN_STATE_INTERNAL_ERROR | RUN_STATE_IO_ERROR | RUN_STATE_PAUSED
| RUN_STATE_POSTMIGRATE | RUN_STATE_PRELAUNCH | RUN_STATE_FINISH_MIGRATE | RUN_STATE_RESTORE_VM | RUN_STATE_RUNNING
| RUN_STATE_SAVE_VM | RUN_STATE_SHUTDOWN | RUN_STATE_SUSPENDED | RUN_STATE_WATCHDOG | RUN_STATE_GUEST_PANICKED.
#[export] Instance RunState_eq_dec : EqDecision RunState.
Proof. solve_decision. Defined.
Definition runstate_transitions_def : list (RunState * RunState) :=
  [ (RUN_STATE_DEBUG, RUN_STATE_RUNNING);
    (RUN_STATE_INMIGRATE, RUN_STATE_RUNNING); (RUN_STATE_INMIGRATE, RUN_STATE_PAUSED);
    (RUN_STATE_INTERNAL_ERROR, RUN_STATE_PAUSED); (RUN_STATE_INTERNAL_ERROR, RUN_STATE_FINISH_MIGRATE);
    (RUN_STATE_IO_ERROR, RUN_STATE_RUNNING); (RUN_STATE_IO_ERROR, RUN_STATE_FINISH_MIGRATE);
    (RUN_STATE_PAUSED, RUN_STATE_RUNNING); (RUN_STATE_PAUSED, RUN_STATE_FINISH_MIGRATE);
    (RUN_STATE_POSTMIGRATE, RUN_STATE_RUNNING); (RUN_STATE_POSTMIGRATE, RUN_STATE_FINISH_MIGRATE);
    (RUN_STATE_PRELAUNCH, RUN_STATE_RUNNING); (RUN_STATE_PRELAUNCH, RUN_STATE_FINISH_MIGRATE); (RUN_STATE_PRELAUNCH, RUN_STATE_INMIGRATE);
    (RUN_STATE_FINISH_MIGRATE, RUN_STATE_RUNNING); (RUN_STATE_FINISH_MIGRATE, RUN_STATE_POSTMIGRATE);
    (RUN_STATE_RESTORE_VM, RUN_STATE_RUNNING);
    (RUN_STATE_RUNNING, RUN_STATE_DEBUG); (RUN_STATE_RUNNING, RUN_STATE_INTERNAL_ERROR); (RUN_STATE_RUNNING, RUN_STATE_IO_ERROR);
    (RUN_STATE_RUNNING, RUN_STATE_PAUSED); (RUN_STATE_RUNNING, RUN_STATE_FINISH_MIGRATE); (RUN_STATE_RUNNING, RUN_STATE_RESTORE_VM);
    (RUN_STATE_RUNNING, RUN_STATE_SAVE_VM); (RUN_STATE_RUNNING, RUN_STATE_SHUTDOWN); (RUN_STATE_RUNNING, RUN_STATE_WATCHDOG);
    (RUN_STATE_RUNNING, RUN_STATE_GUEST_PANICKED);
    (RUN_STATE_SAVE_VM, RUN_STATE_RUNNING);
    (RUN_STATE_SHUTDOWN, RUN_STATE_PAUSED); (RUN_STATE_SHUTDOWN, RUN_STATE_FINISH_MIGRATE);
    (RUN_STATE_DEBUG, RUN_STATE_SUSPENDED); (RUN_STATE_RUNNING, RUN_STATE_SUSPENDED);
    (RUN_STATE_SUSPENDED, RUN_STATE_RUNNING); (RUN_STATE_SUSPENDED, RUN_STATE_FINISH_MIGRATE);
    (RUN_STATE_WATCHDOG, RUN_STATE_RUNNING); (RUN_STATE_WATCHDOG, RUN_STATE_FINISH_MIGRATE);
    (RUN_STATE_GUEST_PANICKED, RUN_STATE_PAUSED); (RUN_STATE_GUEST_PANICKED, RUN_STATE_FINISH_MIGRATE);
    (RUN_STATE_GUEST_PANICKED, RUN_STATE_DEBUG) ].

(** [None] is a call of [abort]. *)
Definition runstate_set (r new : RunState) : option RunState :=
  if bool_decide ((r, new) ∈ runstate_transitions_def) then Some new else None.
Definition runstate_is_running (r : RunState) : bool := bool_decide (r = RUN_STATE_RUNNING).
Definition vm_start (r : RunState) : option RunState := if negb (runstate_is_running r) then runstate_set r RUN_STATE_RUNNING else Some r.
(** [wakes] if the reason is enabled. *)
Definition qemu_system_wakeup_request (wakes : bool) (r : RunState) : option RunState :=
  if negb (bool_decide (r = RUN_STATE_SUSPENDED)) then Some r
  else if negb wakes then Some r
  else runstate_set r RUN_STATE_RUNNING.
Definition do_vm_stop (r new : RunState) : option RunState := if runstate_is_running r then runstate_set r new else Some r.
Definition vm_stop_force_state (r new : RunState) : option RunState := if runstate_is_running r then do_vm_stop r new else runstate_set r new.

(** ** Migrations *)

Inductive MIG_STATE := MIG_STATE_ERROR | MIG_STATE_NONE | MIG_STATE_SETUP | MIG_STATE_CANCELLED | MIG_STATE_ACTIVE | MIG_STATE_COMPLETED.
#[export] Instance MIG_STATE_eq_dec : EqDecision MIG_STATE.
Proof. solve_decision. Defined.
(** What was saved to a file, and whether it failed. *)
Inductive saved_part := savevm_begin | savevm_iterate | savevm_complete.
#[export] Instance saved_part_eq_dec : EqDecision saved_part.
Proof. solve_decision. Defined.
Record QEMUFile := mkFile { saved : list saved_part; last_error : bool }.
Definition save (part : saved_part) (fails : bool) (f : QEMUFile) : QEMUFile := mkFile (saved f ++ [part]) (last_error f || fails).

(** Where the thread is: before the call or the test it is named after. *)
Inductive pc :=
  at_begin | at_activate | at_while | at_round | at_lock | at_stopped (ret : bool) | at_complete | at_check | at_fail | at_end | exited.
#[export] Instance pc_eq_dec : EqDecision pc.
Proof. solve_decision. Defined.
Record thread_state := mkThread { at_pc : pc; old_vm_running : bool }.
(** [s->file] is [NULL], and so are the others, before they are set. *)
Record MigrationState := mkMigration {
  state : MIG_STATE; file : option QEMUFile;
  cleanup_bh : option bool; (* whether it is scheduled *)
  thread : option nat; (* one of [threads] *)
  threads : list thread_state;
  run : RunState;
  connecting : nat; (* connections that callbacks wait for *)
  cancelling : option MIG_STATE; (* the state that a cancel read; the main loop is in it *)
  notified : list MIG_STATE;
  savevm_cancels : nat;
  closed : list QEMUFile
}.
#[export] Instance eta_migration : RecEta MigrationState := fun s =>
  mkMigration (state s) (file s) (cleanup_bh s) (thread s) (threads s) (run s) (connecting s) (cancelling s) (notified s) (savevm_cancels s) (closed s).
Implicit Types (s : MigrationState).

(** A step is not possible, is an abort or a null pointer, or leads on. *)
Inductive outcome := disabled | crashed | next (s : MigrationState).
Definition or_crash (o : option MigrationState) : outcome := match o with Some s => next s | None => crashed end.
Definition with_run s (r : option RunState) : option MigrationState := r ← r; Some s.[run := r].

Definition notify s : MigrationState := s.[notified := notified s ++ [state s]].
Definition migrate_set_state s (old new : MIG_STATE) : MigrationState := if bool_decide (state s = old) then s.[state := new] else s.
Definition migrate_fd_error s : option MigrationState :=
  match file s with Some _ => None | None => Some (notify s.[state := MIG_STATE_ERROR]) end.
(** A cancel reads the state, and then swaps it if it is the same. *)
Definition migrate_fd_cancel s : MigrationState := s.[cancelling := Some (state s)].
Definition swap_cancelled s (old : MIG_STATE) : MigrationState := (migrate_set_state s old MIG_STATE_CANCELLED).[cancelling := None].
(** The structure is cleared. *)
Definition migrate_init s : MigrationState :=
  s.[file := None].[cleanup_bh := None].[thread := None].[state := MIG_STATE_SETUP].
Definition migrate_fd_connect s : MigrationState :=
  let s := s.[state := MIG_STATE_SETUP] in
  let s := s.[cleanup_bh := Some false] in
  let s := notify s in
  s.[threads := threads s ++ [mkThread at_begin false]].[thread := Some (length (threads s))].
Definition connected s : MigrationState := migrate_fd_connect s.[file := Some (mkFile [] false)].

(** What [uri] leads to: no protocol, an error, a connection to wait for, or
    one at once. *)
Inductive outgoing := bad_protocol | start_error | start_waits | start_done.
Definition qmp_migrate s (blocked : bool) (uri : outgoing) : outcome :=
  if bool_decide (state s = MIG_STATE_ACTIVE) || bool_decide (state s = MIG_STATE_SETUP) then next s
  else if blocked then next s
  else
    let s := migrate_init s in
    match uri with
    | bad_protocol => next s
    | start_error => or_crash (migrate_fd_error s)
    | start_waits => next s.[connecting := S (connecting s)]
    | start_done => next (connected s)
    end.
(** The callback of a connection. *)
Definition wait_for_connect s (ok : bool) : outcome :=
  match connecting s with
  | O => disabled
  | S n =>
      let s := s.[connecting := n] in
      if ok then next (connected s) else or_crash (migrate_fd_error s.[file := None])
  end.
Definition migrate_fd_cleanup s : outcome :=
  match cleanup_bh s with
  | Some true =>
      let s := s.[cleanup_bh := None] in
      let finish s :=
        if bool_decide (state s = MIG_STATE_ACTIVE) then crashed
        else
          let s := if bool_decide (state s = MIG_STATE_COMPLETED) then s else s.[savevm_cancels := S (savevm_cancels s)] in
          next (notify s) in
      match file s with
      | None => finish s
      | Some f =>
          match k ← thread s; threads s !! k with
          | None => crashed
          | Some t => if bool_decide (at_pc t = exited) then finish s.[closed := closed s ++ [f]].[file := None] else disabled
          end
      end
  | _ => disabled
  end.

(** ** The thread *)

(** What the code around decides: the rate limit, whether more is pending than
    may be sent at the end, and failures. *)
Record choice := mkChoice { limited : bool; more : bool; fails : bool; flush_fails : bool; wakes : bool }.
Definition goto s (k : nat) (t : thread_state) (p : pc) : MigrationState := s.[threads := <[k := mkThread p (old_vm_running t)]> (threads s)].
(** A use of [s->file]. *)
Definition with_file s (use : QEMUFile -> outcome) : outcome := match file s with Some f => use f | None => crashed end.
Definition put s (f : QEMUFile) : MigrationState := s.[file := Some f].

(** The part under the lock: the guest is stopped and the rest is saved. *)
Definition stop_and_complete s (k : nat) (c : choice) : outcome :=
  match qemu_system_wakeup_request (wakes c) (run s) with
  | None => crashed
  | Some r =>
      let old := runstate_is_running r in
      match vm_stop_force_state r RUN_STATE_FINISH_MIGRATE with
      | None => crashed
      | Some r =>
          let s := s.[run := r] in
          let s := goto s k (mkThread at_lock old) (at_stopped (negb (flush_fails c))) in
          if flush_fails c then next s else with_file s (fun f => next (put s (save savevm_complete (fails c) f)))
      end
  end.
(** The end, under the lock. *)
Definition finish_thread s (k : nat) (t : thread_state) : outcome :=
  let r := if bool_decide (state s = MIG_STATE_COMPLETED) then runstate_set (run s) RUN_STATE_POSTMIGRATE
           else if old_vm_running t then vm_start (run s) else Some (run s) in
  match r, cleanup_bh s with
  | Some r, Some _ => next (goto s k t exited).[run := r].[cleanup_bh := Some true]
  | _, _ => crashed
  end.
Definition migration_thread s (k : nat) (t : thread_state) (c : choice) : outcome :=
  let locked := bool_decide (is_Some (cancelling s)) in
  match at_pc t with
  | at_begin => with_file s (fun f => next (goto (put s (save savevm_begin (fails c) f)) k t at_activate))
  | at_activate => next (goto (migrate_set_state s MIG_STATE_SETUP MIG_STATE_ACTIVE) k t at_while)
  | at_while => next (goto s k t (if bool_decide (state s = MIG_STATE_ACTIVE) then at_round else at_end))
  | at_round => with_file s (fun f =>
      if limited c then next (goto s k t at_check)
      else if more c then next (goto (put s (save savevm_iterate (fails c) f)) k t at_check)
      else next (goto s k t at_lock))
  | at_lock => if locked then disabled else stop_and_complete s k c
  | at_stopped false => next (goto s k t at_fail)
  | at_stopped true => with_file s (fun f => next (goto s k t (if last_error f then at_check else at_complete)))
  | at_complete => next (goto (migrate_set_state s MIG_STATE_ACTIVE MIG_STATE_COMPLETED) k t at_end)
  | at_check => with_file s (fun f => next (goto s k t (if last_error f then at_fail else at_while)))
  | at_fail => next (goto (migrate_set_state s MIG_STATE_ACTIVE MIG_STATE_ERROR) k t at_end)
  | at_end => if locked then disabled else finish_thread s k t
  | exited => disabled
  end.

(** ** The whole *)

Inductive label :=
  migrate (blocked : bool) (uri : outgoing)
| connect (ok : bool)
| cancel (* [migrate_fd_cancel] reads the state *)
| cancel_swap (* and swaps it *)
| cleanup
| runstate (new : RunState) (* by other code of the main loop *)
| thread_step (k : nat) (c : choice).
Definition step s (l : label) : outcome :=
  match l, cancelling s with
  | thread_step k c, _ => match threads s !! k with Some t => migration_thread s k t c | None => disabled end
  | cancel_swap, Some old => next (swap_cancelled s old)
  | _, Some _ => disabled
  | cancel_swap, None => disabled
  | migrate blocked uri, None => qmp_migrate s blocked uri
  | connect ok, None => wait_for_connect s ok
  | cancel, None => next (migrate_fd_cancel s)
  | cleanup, None => migrate_fd_cleanup s
  | runstate new, None => or_crash (with_run s (runstate_set (run s) new))
  end.
Fixpoint runs (s : MigrationState) (l : list label) : outcome :=
  match l with
  | [] => next s
  | x :: l => match step s x with next s => runs s l | o => o end
  end.
(** A guest that runs, before any migration. *)
Definition idle (r : RunState) : MigrationState := mkMigration MIG_STATE_NONE None None None [] r 0 None [] 0 [].
End Migration.
