(* ===== verification/MigrationProps.v ===== *)
(** * How migrations end (migration.c)

    Over every interleaving of the monitor, the callbacks and the thread: no
    abort and no null pointer, a thread that always can go on and that ends
    soon after a cancel, and a guest that is stopped if the migration completed
    and goes on if it did not; the stream of a completed one is made by one
    call to begin it, some to continue it and one to complete it.  Two
    conditions are asked of the environment ([careful]): a migration is started
    when the one before is cleaned up, and other code does not change the state
    of the guest behind the thread's back.  The code checks neither; the lemmas
    at the end show what happens without them, and what a cancel can do at a bad
    moment. *)

From S2P Require Import Prelude Migration.

Module MigrationProps.
Import Migration.
Implicit Types (s : MigrationState) (f : QEMUFile) (t : thread_state).

(** States from which the guest can be stopped for a migration. *)
Definition migratable (r : RunState) : Prop := r = RUN_STATE_RUNNING \/ (r, RUN_STATE_FINISH_MIGRATE) ∈ runstate_transitions_def.
#[export] Instance migratable_dec r : Decision (migratable r).
Proof. unfold migratable. apply _. Defined.
(** The stream so far, and a stream that the destination can load. *)
Definition begun f : Prop := exists n, saved f = savevm_begin :: replicate n savevm_iterate.
Definition full f : Prop := exists n, saved f = savevm_begin :: replicate n savevm_iterate ++ [savevm_complete].
Definition whole f : Prop := full f /\ last_error f = false.
Definition gone t : Prop := at_pc t = exited.
(** No migration is left. *)
Definition quiet s : Prop := file s = None /\ cleanup_bh s = None /\ connecting s = 0%nat /\ Forall gone (threads s).
Definition careful s (l : label) : Prop :=
  match l with
  | migrate _ _ => state s = MIG_STATE_ACTIVE \/ state s = MIG_STATE_SETUP \/ quiet s /\ migratable (run s)
  | runstate new => (run s, new) ∈ runstate_transitions_def /\
      (quiet s \/ migratable new /\ (run s <> RUN_STATE_FINISH_MIGRATE \/ Forall gone (threads s)))
  | _ => True
  end.
Inductive reachable : MigrationState -> Prop :=
| reachable_idle r : reachable (idle r)
| reachable_step s l s' : reachable s -> careful s l -> step s l = next s' -> reachable s'.

(** ** The invariant *)

(** The guest is as other code left it, or as the thread stopped it. *)
Definition untouched s f t : Prop := migratable (run s) /\ old_vm_running t = false /\ begun f.
Definition stopped s : Prop := run s = RUN_STATE_FINISH_MIGRATE.
Definition live s : Prop := state s = MIG_STATE_ACTIVE \/ state s = MIG_STATE_CANCELLED.
Definition thread_ok s f t : Prop :=
  match at_pc t with
  | at_begin => (state s = MIG_STATE_SETUP \/ state s = MIG_STATE_CANCELLED) /\ migratable (run s) /\ old_vm_running t = false /\ saved f = []
  | at_activate => (state s = MIG_STATE_SETUP \/ state s = MIG_STATE_CANCELLED) /\ untouched s f t
  | at_while | at_round | at_lock => live s /\ untouched s f t
  | at_stopped ret => live s /\ stopped s /\ (if ret then full f else begun f)
  | at_complete => live s /\ stopped s /\ whole f
  | at_check => live s /\ (untouched s f t \/ stopped s /\ last_error f = true)
  | at_fail => live s /\ (untouched s f t \/ stopped s) /\ ~ whole f
  | at_end => (untouched s f t \/ stopped s) /\
      (state s = MIG_STATE_CANCELLED \/ state s = MIG_STATE_ERROR /\ ~ whole f \/ state s = MIG_STATE_COMPLETED /\ whole f)
  | exited => state s = MIG_STATE_CANCELLED \/ state s = MIG_STATE_ERROR /\ ~ whole f \/ state s = MIG_STATE_COMPLETED /\ whole f
  end.
(** The current migration is that of the last thread. *)
Definition current s f t : Prop := exists l, threads s = l ++ [t] /\ Forall gone l /\ thread s = Some (length l) /\ file s = Some f.
Definition inv s : Prop :=
  quiet s /\ state s <> MIG_STATE_ACTIVE \/
  (file s = None /\ cleanup_bh s = None /\ connecting s = 1%nat /\ Forall gone (threads s) /\
     (state s = MIG_STATE_SETUP \/ state s = MIG_STATE_CANCELLED) /\ migratable (run s)) \/
  exists f t, current s f t /\ connecting s = 0%nat /\ cleanup_bh s = Some (bool_decide (gone t)) /\ thread_ok s f t.

Lemma not_finish : ~ migratable RUN_STATE_FINISH_MIGRATE.
Proof. apply (bool_decide_unpack _). by vm_compute. Qed.
Lemma stops w r : migratable r -> exists r', qemu_system_wakeup_request w r = Some r' /\ vm_stop_force_state r' RUN_STATE_FINISH_MIGRATE = Some RUN_STATE_FINISH_MIGRATE.
Proof.
  intros Hr. unfold qemu_system_wakeup_request. case_bool_decide as Es; cbn [negb].
  - subst r. destruct w; eexists; by split.
  - exists r. split; [done|]. unfold vm_stop_force_state, do_vm_stop, runstate_is_running, runstate_set.
    case_bool_decide as E; [subst r; done|]. destruct Hr as [|Hr]; [done|]. by rewrite bool_decide_true.
Qed.

(** ** Steps of the thread *)

(** What a step of the thread leads to. *)
Definition thread_next s f t s' : Prop := exists f' t', current s' f' t' /\ connecting s' = connecting s /\ cancelling s' = cancelling s /\
  length (threads s') = length (threads s) /\
  cleanup_bh s' = Some (bool_decide (gone t')) /\ thread_ok s' f' t' /\
  (state s = MIG_STATE_CANCELLED -> state s' = MIG_STATE_CANCELLED).
Definition thread_result s f t (o : outcome) : Prop :=
  match o with next s' => thread_next s f t s' | disabled => is_Some (cancelling s) | crashed => False end.
Lemma moved s f t s' f' p o : current s f t -> threads s' = <[(length (threads s) - 1)%nat := mkThread p o]> (threads s) -> thread s' = thread s -> file s' = Some f' ->
  current s' f' (mkThread p o).
Proof.
  intros (l & Hl & Hg & Ht & _) H1 H2 H3. exists l. rewrite H1, H2, Hl, length_app. simpl. replace (length l + 1 - 1)%nat with (length l) by lia.
  by rewrite insert_app_r_alt, Nat.sub_diag by lia.
Qed.
Lemma current_last s f t : current s f t -> threads s !! (length (threads s) - 1)%nat = Some t.
Proof. intros (l & Hl & _). rewrite Hl, length_app, Nat.add_sub, lookup_app_r, Nat.sub_diag by (simpl; lia). done. Qed.
Lemma last_index s f t k t' : current s f t -> threads s !! k = Some t' -> at_pc t' <> exited -> k = (length (threads s) - 1)%nat /\ t' = t.
Proof.
  intros (l & Hl & Hg & _) Hk Hp. rewrite Hl in *. rewrite length_app. simpl. apply lookup_app_Some in Hk as [Hk|[Hle Hk]].
  - by destruct Hp; eapply (Forall_lookup_1 gone l).
  - destruct (k - length l)%nat eqn:E; [|done]. injection Hk as ->. split; [lia|done].
Qed.
Lemma begun_iterate e f : begun f -> begun (save savevm_iterate e f).
Proof. intros [n Hn]. exists (S n). cbn [saved save]. by rewrite Hn, replicate_S_end. Qed.
Lemma begun_complete e f : begun f -> full (save savevm_complete e f).
Proof. intros [n Hn]. exists n. simpl. by rewrite Hn. Qed.
Lemma begun_part f : begun f -> ~ full f.
Proof.
  intros [n Hn] [m Hm]. assert (savevm_complete ∈ saved f) as Hin. { rewrite Hm. right. apply elem_of_app. right. left. }
  rewrite Hn in Hin. apply elem_of_cons in Hin as [|[? _]%elem_of_replicate]; done.
Qed.
(** The thread of [C] moves to another place. *)
Ltac go_on C Hbh := eexists _, _; split; [eapply (moved _ _ _ _ _ _ _ C); try reflexivity; eassumption|];
  do 2 (split; [reflexivity|]); split; [simpl; by rewrite length_insert|]; split; [exact Hbh|]; split; [unfold thread_ok; cbn [at_pc]|try done].
(** The last step: the guest goes on if it ran before, unless the migration completed. *)
Definition ending s t (r : RunState) : Prop :=
  if bool_decide (state s = MIG_STATE_COMPLETED) then r = RUN_STATE_POSTMIGRATE
  else runstate_is_running r = old_vm_running t || runstate_is_running (run s).
Lemma finishes s f t k : cleanup_bh s = Some false -> thread_ok s f t -> at_pc t = at_end ->
  exists r, finish_thread s k t = next (goto s k t exited).[run := r].[cleanup_bh := Some true] /\ ending s t r.
Proof.
  intros Hbh Ok Hp. unfold thread_ok in Ok. rewrite Hp in Ok. destruct Ok as [Hu Hs]. unfold finish_thread, ending. rewrite Hbh. case_bool_decide as Ec.
  - assert (stopped s) as Hst. { destruct Hu as [(_ & _ & Hn)|]; [|done]. destruct Hs as [|[[? _]|[_ [Hw _]]]]; [congruence..|by apply begun_part in Hn]. }
    rewrite Hst. by eexists.
  - destruct Hu as [(_ & Ho & _)|Hst].
    + rewrite Ho. by eexists.
    + rewrite Hst. destruct (old_vm_running t); by eexists.
Qed.
Lemma thread_steps s f t k c : current s f t -> cleanup_bh s = Some false -> thread_ok s f t -> at_pc t <> exited -> k = (length (threads s) - 1)%nat ->
  thread_result s f t (migration_thread s k t c).
Proof.
  intros C Hbh Ok Hp ->. pose proof C as (l & Hl & Hg & Ht & Hf). unfold thread_ok in Ok. unfold migration_thread, with_file. rewrite Hf.
  destruct (at_pc t) as [| | | | |ret| | | | |] eqn:E.
  - go_on C Hbh. destruct Ok as (Hs & Hr & Ho & Hn). split; [exact Hs|]. split; [exact Hr|]. split; [exact Ho|]. exists 0%nat. simpl. by rewrite Hn.
  - unfold migrate_set_state. destruct Ok as (Hs & Hu). case_bool_decide as Ea.
    + go_on C Hbh; [|congruence]. split; [by left|exact Hu].
    + go_on C Hbh. split; [right; by destruct Hs|exact Hu].
  - case_bool_decide as Ea.
    + go_on C Hbh. exact Ok.
    + go_on C Hbh. destruct Ok as [[Hs|Hs] Hu]; [done|]. split; [by left|by left].
  - destruct Ok as (Hs & Hr & Ho & Hn). destruct (limited c); [|destruct (more c)]; go_on C Hbh.
    + split; [exact Hs|]. left. by repeat split.
    + split; [exact Hs|]. left. split; [done|]. split; [done|]. by apply begun_iterate.
    + by repeat split.
  - case_bool_decide; [done|]. destruct Ok as (Hs & Hr & Ho & Hn). unfold stop_and_complete.
    destruct (stops (wakes c) (run s) Hr) as (r & -> & ->). destruct (flush_fails c); cbn [negb].
    + go_on C Hbh. split; [exact Hs|]. split; [done|exact Hn].
    + unfold with_file. cbn. rewrite Hf. go_on C Hbh. split; [exact Hs|]. split; [done|]. by apply begun_complete.
  - destruct Ok as (Hs & Hst & Hn). destruct ret.
    + destruct (last_error f) eqn:El; go_on C Hbh.
      * split; [exact Hs|]. right. by split.
      * split; [exact Hs|]. split; [exact Hst|]. by split.
    + go_on C Hbh. split; [exact Hs|]. split; [by right|]. intros [Hin _]. by apply begun_part in Hn.
  - destruct Ok as (Hs & Hst & Hw). unfold migrate_set_state. case_bool_decide as Ea.
    + go_on C Hbh; [|congruence]. split; [by right|]. right; right. by split.
    + go_on C Hbh. split; [by right|]. left. by destruct Hs.
  - destruct Ok as (Hs & Hu). destruct (last_error f) eqn:El; go_on C Hbh.
    + split; [exact Hs|]. split; [destruct Hu as [|[? _]]; [by left|by right]|]. intros [_ ?]. congruence.
    + destruct Hu as [Hu|[_ ?]]; [|congruence]. by split.
  - destruct Ok as (Hs & Hu & Hw). unfold migrate_set_state. case_bool_decide as Ea.
    + go_on C Hbh; [|congruence]. split; [exact Hu|]. right; left. by split.
    + go_on C Hbh. split; [exact Hu|]. left. by destruct Hs.
  - case_bool_decide; [done|]. destruct (finishes s f t (length (threads s) - 1) Hbh) as (r & -> & _); [by unfold thread_ok; rewrite E|done|].
    eexists f, _. split; [by eapply (moved _ _ _ _ _ _ _ C)|]. do 2 (split; [reflexivity|]). split; [simpl; by rewrite length_insert|]. split; [reflexivity|]. split; [|done]. apply Ok.
  - done.
Qed.

(** ** Steps of the main loop *)

Lemma connected_ok s : Forall gone (threads s) -> connecting s = 0%nat -> migratable (run s) -> inv (connected s).
Proof.
  intros Hg Hc Hr. right; right. exists (mkFile [] false), (mkThread at_begin false). split; [|split; [exact Hc|]].
  - exists (threads s). by repeat split.
  - split; [done|]. split; [by left|]. by repeat split.
Qed.
Lemma cancel_ok s f t : thread_ok s f t -> thread_ok s.[state := MIG_STATE_CANCELLED] f t.
Proof. unfold thread_ok, live, untouched, stopped. destruct (at_pc t); simpl; tauto. Qed.
Lemma quiet_stays s s' : quiet s -> file s' = file s -> cleanup_bh s' = cleanup_bh s -> connecting s' = connecting s -> threads s' = threads s -> quiet s'.
Proof. intros (H1 & H2 & H3 & H4) E1 E2 E3 E4. unfold quiet. by rewrite E1, E2, E3, E4. Qed.
Lemma inv_cancel s : inv s -> inv s.[state := MIG_STATE_CANCELLED].
Proof.
  intros [[Hq _]|[(H1 & H2 & H3 & H4 & _ & H5)|(f & t & C & Hc & Hbh & Ok)]].
  - left. by split.
  - right; left. repeat split; try done. by right.
  - right; right. exists f, t. repeat split; try done. by apply cancel_ok.
Qed.
Lemma inv_same s s' : state s' = state s -> file s' = file s -> cleanup_bh s' = cleanup_bh s -> thread s' = thread s -> threads s' = threads s -> run s' = run s ->
  connecting s' = connecting s -> inv s -> inv s'.
Proof.
  intros E1 E2 E3 E4 E5 E6 E7. unfold inv, quiet, current, thread_ok, untouched, stopped, live. rewrite E1, E2, E3, E4, E5, E6, E7. done.
Qed.

(** The run state changes under a migration that has not stopped the guest. *)
Lemma inv_runstate s new : inv s -> careful s (runstate new) -> inv s.[run := new].
Proof.
  intros [[Hq Hs]|[(H1 & H2 & H3 & H4 & H5 & H6)|(f & t & C & Hc & Hbh & Ok)]] [_ Hnew].
  - left. by split.
  - destruct Hnew as [(_ & _ & ? & _)|[Hm _]]; [congruence|]. right; left. by repeat split.
  - pose proof C as (l & Hl & _ & _ & Hf). destruct Hnew as [(? & _)|[Hm Hst]]; [congruence|]. right; right. exists f, t. repeat split; try done.
    assert (stopped s -> gone t) as Hgone.
    { intros E. destruct Hst as [|Hst]; [done|]. rewrite Hl in Hst. apply Forall_app in Hst as [_ Hst]. by inversion Hst. }
    unfold thread_ok, gone, untouched, live in *. destruct (at_pc t); simpl in *; try tauto; assert (~ stopped s) by (by intros ?%Hgone); tauto.
Qed.
Lemma inv_migrate s blocked uri : inv s -> careful s (migrate blocked uri) -> 
  match qmp_migrate s blocked uri with next s' => inv s' | _ => False end.
Proof.
  intros I Hc. unfold qmp_migrate. destruct (_ || _) eqn:E; [done|]. destruct blocked; [done|].
  apply orb_false_iff in E as [E1%bool_decide_eq_false E2%bool_decide_eq_false]. destruct Hc as [|[|[Hq Hr]]]; [done..|].
  pose proof Hq as (H1 & H2 & H3 & H4). destruct uri; cbn.
  - left. by split.
  - left. by split.
  - right; left. rewrite H3. repeat split; try done. by left.
  - by apply connected_ok.
Qed.
Lemma inv_connect s ok : inv s -> match wait_for_connect s ok with next s' => inv s' | disabled => True | crashed => False end.
Proof.
  intros [[(_ & _ & Hc & _) _]|[(H1 & H2 & H3 & H4 & H5 & H6)|(f & t & C & Hc & _)]]; unfold wait_for_connect; [by rewrite Hc| |by rewrite Hc].
  rewrite H3. destruct ok; [by apply connected_ok|]. left. by split.
Qed.
Lemma inv_cleanup s : inv s -> match migrate_fd_cleanup s with next s' => inv s' | disabled => True | crashed => False end.
Proof.
  intros [[(H1 & H2 & _) _]|[(H1 & H2 & _)|(f & t & C & Hc & Hbh & Ok)]]; unfold migrate_fd_cleanup; [by rewrite H2..|]. rewrite Hbh.
  case_bool_decide as Hg; [|done]. pose proof C as (l & Hl & Hgl & Ht & Hf). unfold thread_ok, gone in *. rewrite Hg in Ok. simpl. rewrite Hf, Ht. cbn [mbind option_bind].
  rewrite Hl, lookup_app_r, Nat.sub_diag by done. cbn. rewrite bool_decide_true by done.
  assert (state s <> MIG_STATE_ACTIVE) as Hs by (destruct Ok as [|[[? _]|[? _]]]; congruence). rewrite bool_decide_false by done.
  left. case_bool_decide; (split; [|done]); repeat split; simpl; try done; rewrite Hl; apply Forall_app; by repeat constructor.
Qed.
Lemma alive s k t : inv s -> threads s !! k = Some t -> at_pc t <> exited ->
  exists f, current s f t /\ k = (length (threads s) - 1)%nat /\ connecting s = 0%nat /\ cleanup_bh s = Some false /\ thread_ok s f t.
Proof.
  intros I Hk Hp. destruct I as [[(_ & _ & _ & Hg) _]|[(_ & _ & _ & Hg & _)|(f & t' & C & Hc & Hbh & Ok)]]; [by destruct Hp; eapply (Forall_lookup_1 gone)..|].
  destruct (last_index _ _ _ _ _ C Hk Hp) as [-> ->]. exists f. rewrite bool_decide_false in Hbh by done. done.
Qed.
Lemma control_step s l : inv s -> careful s l -> match step s l with next s' => inv s' | disabled => True | crashed => False end.
Proof.
  intros I Hc. unfold step. destruct l as [blocked uri|ok| | | |new|k c].
  - destruct (cancelling s); [done|]. pose proof (inv_migrate s blocked uri I Hc). by destruct (qmp_migrate _ _ _).
  - destruct (cancelling s); [done|]. by apply inv_connect.
  - destruct (cancelling s); [done|]. by apply (inv_same s).
  - destruct (cancelling s) as [old|]; [|done]. unfold swap_cancelled, migrate_set_state. case_bool_decide.
    + apply (inv_same s.[state := MIG_STATE_CANCELLED]); [done..|]. by apply inv_cancel.
    + by apply (inv_same s).
  - destruct (cancelling s); [done|]. by apply inv_cleanup.
  - destruct (cancelling s); [done|]. unfold with_run, runstate_set. rewrite bool_decide_true by apply Hc. by apply inv_runstate.
  - destruct (threads s !! k) as [t'|] eqn:Hk; [|done]. destruct (decide (at_pc t' = exited)) as [Ex|Hp].
    { unfold migration_thread. by rewrite Ex. }
    destruct (alive s k t' I Hk Hp) as (f & C & -> & Hcn & Hbf & Ok).
    pose proof (thread_steps s f t' _ c C Hbf Ok Hp eq_refl) as H. destruct (migration_thread _ _ _ _); [done|done|].
    destruct H as (f1 & t1 & C' & E1 & _ & _ & E2 & Ok' & _). right; right. exists f1, t1. rewrite E1. by repeat split.
Qed.
Lemma reachable_ok s : reachable s -> inv s.
Proof.
  induction 1 as [r|s l s' Hr IH Hc Hs]; [left; repeat split; done || constructor|]. pose proof (control_step s l IH Hc) as H. by rewrite Hs in H.
Qed.

(** ** How a migration ends *)

Lemma exits s k t c s' t' : migration_thread s k t c = next s' -> threads s !! k = Some t -> threads s' !! k = Some t' -> at_pc t' = exited ->
  at_pc t = at_end /\ finish_thread s k t = next s'.
Proof.
  intros H Hk Hk' Ex. assert (k < length (threads s))%nat as Hlt by by apply lookup_lt_Some in Hk.
  unfold migration_thread, stop_and_complete, migrate_set_state, with_file in H.
  destruct (at_pc t) eqn:Ep; simpl in H; repeat (discriminate H || case_match); try done; injection H as <-;
    simpl in Hk'; rewrite list_lookup_insert_eq in Hk' by done; injection Hk' as <-; done.
Qed.

(** The thread [k] ends within [n] steps, whatever is decided around it. *)
Inductive ends (k : nat) : nat -> MigrationState -> Prop :=
| ends_now n s t : threads s !! k = Some t -> at_pc t = exited -> ends k n s
| ends_later n s : (forall c, exists s', step s (thread_step k c) = next s') -> (forall c s', step s (thread_step k c) = next s' -> ends k n s') -> ends k (S n) s.
(** The steps left if the migration is not active. *)
Definition left_steps (p : pc) : nat :=
  match p with
  | exited => 0 | at_end => 1 | at_fail | at_complete | at_while => 2 | at_check | at_activate => 3 | at_stopped _ | at_begin => 4 | at_lock => 5 | at_round => 6
  end.
Lemma fewer s k t c s' : state s = MIG_STATE_CANCELLED -> migration_thread s k t c = next s' -> threads s !! k = Some t ->
  exists t', threads s' !! k = Some t' /\ (left_steps (at_pc t') < left_steps (at_pc t))%nat.
Proof.
  intros Hs H Hk. assert (k < length (threads s))%nat as Hlt by by apply lookup_lt_Some in Hk.
  unfold migration_thread, stop_and_complete, finish_thread, migrate_set_state, with_file in H. rewrite Hs in H.
  destruct (at_pc t) eqn:Ep; simpl in H; repeat (discriminate H || case_match); injection H as <-;
    (eexists; split; [simpl; by apply list_lookup_insert_eq|simpl; lia]).
Qed.
Lemma cancelled_ends n : forall s f t, current s f t -> connecting s = 0%nat -> cleanup_bh s = Some (bool_decide (gone t)) -> thread_ok s f t -> cancelling s = None ->
  state s = MIG_STATE_CANCELLED -> (left_steps (at_pc t) <= n)%nat -> ends (length (threads s) - 1) n s.
Proof.
  induction n as [|n IH]; intros s f t C Hc Hbh Ok Hcn Hs Hle; pose proof (current_last _ _ _ C) as Hk;
    (destruct (decide (at_pc t = exited)) as [Ex|Hp]; [by eapply ends_now|]).
  { clear Hbh. by destruct (at_pc t); simpl in Hle; lia || done. }
  assert (cleanup_bh s = Some false) as Hbf by (by rewrite Hbh, bool_decide_false).
  pose proof (fun c => thread_steps s f t _ c C Hbf Ok Hp eq_refl) as Hst.
  apply ends_later; intros c; [|intros s']; unfold step; rewrite Hk; specialize (Hst c); destruct (migration_thread _ _ _ _) as [| |s1] eqn:E; try done.
  - by destruct Hst as [? ?]; congruence.
  - by exists s1.
  - intros [= <-]. destruct Hst as (f' & t' & C' & E1 & E2 & El & E3 & Ok' & Hs'). destruct (fewer _ _ _ _ _ Hs E Hk) as (t2 & Hk2 & Hlt).
    pose proof (current_last _ _ _ C') as Hk'. rewrite El in Hk'. assert (t2 = t') as -> by congruence. rewrite <- El.
    apply (IH s1 f' t'); [done|congruence|done|done|congruence|by apply Hs'|lia].
Qed.

(** C14. In every state that monitor commands, connections and steps of the migration thread lead to, in any
    interleaving in which (a) a migration is asked for only while one is active, which refuses it, or when nothing is
    left of the last one (its file, its cleanup, its connection and its thread are gone) and the guest is in a run
    state from which it may be stopped for migration, and (b) other code changes the run state of the guest only along
    the permitted transitions and, while a migration is on, only to run states from which it may be stopped, and not
    away from [RUN_STATE_FINISH_MIGRATE] before the thread has ended: no such operation and no step of the thread
    aborts or uses a null pointer; a thread that has not ended can take a step unless the main
    loop holds the lock, and if the migration is cancelled it ends within six steps whatever is decided around it;
    and with the thread's last step, either the migration is completed, its stream is whole and the guest stays
    stopped, or the guest runs if it ran before it was stopped, and the stream is not whole unless the migration was
    cancelled.  Without (a) and (b) the code does crash: see [restart_crashes], [second_migration_aborts] and
    [breakpoint_aborts] below. *)
Theorem migration_ends s : reachable s ->
  (forall l, careful s l -> step s l <> crashed) /\
  (forall k t, threads s !! k = Some t -> at_pc t <> exited -> cancelling s = None ->
    (forall c, exists s', step s (thread_step k c) = next s') /\ (state s = MIG_STATE_CANCELLED -> ends k 6 s)) /\
  (forall k t c s' t', threads s !! k = Some t -> step s (thread_step k c) = next s' -> threads s' !! k = Some t' -> at_pc t' = exited ->
    exists f, file s' = Some f /\
      if bool_decide (state s' = MIG_STATE_COMPLETED) then whole f /\ run s' = RUN_STATE_POSTMIGRATE
      else runstate_is_running (run s') = old_vm_running t || runstate_is_running (run s) /\ (whole f -> state s' = MIG_STATE_CANCELLED)).
Proof.
  intros Hr. pose proof (reachable_ok s Hr) as I. split; [|split].
  - intros l Hc E. pose proof (control_step s l I Hc) as H. by rewrite E in H.
  - intros k t Hk Hp Hcn. destruct (alive s k t I Hk Hp) as (f & C & -> & Hc & Hbh & Ok). split.
    + intros c. unfold step. rewrite Hk. pose proof (thread_steps s f t _ c C Hbh Ok Hp eq_refl) as H.
      destruct (migration_thread _ _ _ _) as [| |s']; [by destruct H; congruence|done|by exists s'].
    + intros Hs. apply (cancelled_ends 6 s f t); try done; [by rewrite bool_decide_false|]. by destruct (at_pc t); simpl; lia.
  - intros k t c s' t' Hk H Hk' Ex. unfold step in H. rewrite Hk in H. destruct (exits _ _ _ _ _ _ H Hk Hk' Ex) as [He Hf].
    destruct (alive s k t I Hk) as (f & C & -> & Hc & Hbh & Ok); [congruence|]. destruct (finishes s f t (length (threads s) - 1) Hbh Ok He) as (r & Hfin & Hend).
    rewrite Hfin in Hf. injection Hf as <-. exists f. split; [by destruct C as (? & ? & ? & ? & ?)|]. unfold ending in Hend. unfold thread_ok in Ok. rewrite He in Ok. destruct Ok as [_ Hs].
    simpl. case_bool_decide as Ec; (split; [|done]) || (split; [done|]).
    + destruct Hs as [|[[? _]|[_ Hw]]]; [congruence..|done].
    + intros Hw. destruct Hs as [|[[_ ?]|[? _]]]; done.
Qed.

(** ** Runs *)

Definition quick : choice := mkChoice false false false false false.
Definition slow : choice := mkChoice false true false false false.
Definition starting : list label := migrate false start_waits :: connect true :: replicate 3 (thread_step 0 slow).
(** One round, and up to the last step. *)
Definition completing : list label := starting ++ replicate 3 (thread_step 0 slow) ++ replicate 4 (thread_step 0 quick).
(** All labels are careful. *)
Fixpoint careful_run s (l : list label) : Prop :=
  match l with [] => True | x :: l => careful s x /\ match step s x with next s => careful_run s l | _ => True end end.
Lemma careful_reachable l : forall s s', reachable s -> careful_run s l -> runs s l = next s' -> reachable s'.
Proof.
  induction l as [|x l IH]; intros s s' Hr Hc H; [by injection H as <-|]. cbn in H, Hc. destruct Hc as [Hx Hl].
  destruct (step s x) as [| |s1] eqn:E; [done..|]. eapply IH; [by eapply reachable_step|done|done].
Qed.
Definition completed : MigrationState := match runs (idle RUN_STATE_RUNNING) completing with next s => s | _ => idle RUN_STATE_RUNNING end.
Lemma idle_quiet r : quiet (idle r).
Proof. repeat split; constructor. Qed.
Lemma started_careful r l : migratable r -> (forall s, qmp_migrate (idle r) false start_waits = next s -> careful_run s l) -> careful_run (idle r) (migrate false start_waits :: l).
Proof. intros Hr Hl. split; [right; right; split; [apply idle_quiet|done]|]. by apply Hl. Qed.
Lemma completed_reachable : reachable completed.
Proof.
  apply (careful_reachable completing (idle RUN_STATE_RUNNING)); [constructor| |by vm_compute]. apply started_careful; [by left|].
  intros s [= <-]. by vm_compute.
Qed.
Lemma migration_ends_witness : exists s' f, step completed (thread_step 0 quick) = next s' /\ file s' = Some f /\ whole f /\ run s' = RUN_STATE_POSTMIGRATE.
Proof.
  destruct (migration_ends completed completed_reachable) as (_ & _ & H).
  destruct (H 0%nat (mkThread at_end true) quick (match step completed (thread_step 0 quick) with next s => s | _ => completed end) (mkThread exited true))
    as (f & Hf & Hw & Hr); [reflexivity..|]. eexists _, f. split; [reflexivity|]. split; [exact Hf|]. split; [exact Hw|exact Hr].
Defined.

(** A cancel between the last test of the state and the end comes too late for
    the stream, and still lets the guest go on: it runs here, and the
    destination has all of it. *)
Definition late_cancel : list label := starting ++ [cancel; cancel_swap] ++ replicate 5 (thread_step 0 quick).
Lemma two_guests : exists s f, reachable s /\ runs (idle RUN_STATE_RUNNING) late_cancel = next s /\ file s = Some f /\ whole f /\
  state s = MIG_STATE_CANCELLED /\ run s = RUN_STATE_RUNNING.
Proof.
  destruct (runs (idle RUN_STATE_RUNNING) late_cancel) as [| |s] eqn:E; [by vm_compute in E..|]. exists s, (mkFile [savevm_begin; savevm_complete] false).
  split; [|vm_compute in E; injection E as <-; repeat split; by exists 0%nat].
  apply (careful_reachable late_cancel (idle RUN_STATE_RUNNING)); [constructor| |done]. apply started_careful; [by left|]. intros s0 [= <-]. by vm_compute.
Qed.
(** A cancel that reads the state just before the thread becomes active is lost. *)
Lemma cancel_lost : exists s, runs (idle RUN_STATE_RUNNING)
    [migrate false start_done; thread_step 0 slow; cancel; thread_step 0 slow; cancel_swap] = next s /\ state s = MIG_STATE_ACTIVE.
Proof. eexists. split; [by vm_compute|done]. Qed.
(** A connection that succeeds after the cancel starts the migration all the same. *)
Lemma cancel_undone : exists s, runs (idle RUN_STATE_RUNNING)
    [migrate false start_waits; cancel; cancel_swap; connect true; thread_step 0 slow; thread_step 0 slow] = next s /\ state s = MIG_STATE_ACTIVE.
Proof. eexists. split; [by vm_compute|done]. Qed.
(** After an address without a protocol every other migration is refused. *)
Lemma bad_protocol_stays r blocked uri : exists s, step (idle r) (migrate false bad_protocol) = next s /\ state s = MIG_STATE_SETUP /\
  Forall gone (threads s) /\ step s (migrate blocked uri) = next s.
Proof. eexists. repeat split. constructor. Qed.
(** A migration that is started while the thread of a cancelled one goes on
    takes the file from under it. *)
Lemma restart_crashes : runs (idle RUN_STATE_RUNNING) (starting ++ [cancel; cancel_swap; migrate false start_waits; thread_step 0 slow]) = crashed.
Proof. by vm_compute. Qed.
(** A paused guest is left in [RUN_STATE_FINISH_MIGRATE] by a migration that
    fails at its end; the next migration aborts. *)
Definition failing : list label :=
  starting ++ [thread_step 0 quick; thread_step 0 (mkChoice false false true false false)] ++ replicate 4 (thread_step 0 quick) ++ [cleanup].
Lemma second_migration_aborts : exists s, runs (idle RUN_STATE_PAUSED) failing = next s /\ quiet s /\ run s = RUN_STATE_FINISH_MIGRATE /\
  runs s ([migrate false start_waits; connect true] ++ replicate 3 (thread_step 1 slow) ++ replicate 2 (thread_step 1 quick)) = crashed.
Proof.
  eexists. split; [by vm_compute|]. split; [repeat split; by repeat constructor|]. split; [done|]. by vm_compute.
Qed.
(** So does the migration of a guest that is stopped at a breakpoint. *)
Lemma breakpoint_aborts : runs (idle RUN_STATE_DEBUG) (starting ++ replicate 2 (thread_step 0 quick)) = crashed.
Proof. by vm_compute. Qed.
End MigrationProps.
